(* ===== verification/_CoqProject ===== *)
-Q . S2P
Prelude.v
GoStrings.v
GoNumbers.v
AllocationID.v
Hardware.v
ResourceManager.v
Key.v
Capability.v
Token.v
TokenSpec.v
TokenProps.v
Envelope.v
Limiter.v
CapContext.v
Security.v
Dispatch.v
Actor.v
CapContextSpec.v
CapContextProps.v
CapStore.v
DispatchSpec.v
DispatchProps.v
ActorProps.v
ResourceSpec.v
ResourceProps.v
Ports.v
Allocation.v
AllocationProps.v
Allocator.v
AllocatorProps.v
Ensemble.v
BidCoordinator.v
BidProps.v
CandidateProps.v
ManifestDiff.v
ManifestDiffProps.v
DependencyOrder.v
IPNet.v
Committer.v
Subnet.v
Orchestrator.v
OrchestratorProps.v
Supervisor.v
GoTime.v
Contract.v
UsageStore.v
Billing.v
ContractHost.v
BillingProps.v
UsageProps.v
Transfers.v
GoText.v
Payments.v
PaymentValidator.v
PaymentProps.v
TransactionList.v
NodeContracts.v
NodeContractProps.v
NodeBids.v
NodeBidProps.v
ConfigTree.v
SpecValidator.v
SpecProps.v
Resolver.v
SpecDecoder.v
Deployments.v
Registry.v
RegistryProps.v
StatusWatch.v
EnsembleUpdate.v
AllocationLogs.v
AllocationLogsProps.v
AllocRecovery.v
AllocRecoveryProps.v
MachineCapability.v
Peers.v
Onboarding.v
EventHandler.v
VirtualSubnet.v
SubnetProvision.v
