(* ===== verification/Prelude.v ===== *)
(** * Device Management Service: a verification of its core

    The Device Management Service (DMS) runs on the machines of a decentralised
    compute network.  A node is an actor that exchanges signed messages with other
    nodes; every message carries capability tokens, and a node reacts to a message
    only when the tokens entitle the sender.  Orchestrators use this to ask nodes
    for machines, to commit and allocate resources on them and to run jobs.  This
    library models, from the Go sources, the parts that decide who may do what
    (identities, tokens, capability contexts, message dispatch), the parts that
    decide what a machine has promised (hardware and resource arithmetic, the
    resource manager, ports, allocations and the node's allocator), the parts that
    decide where an ensemble runs (bids, candidates, the two-phase commit, subnets,
    supervision, updates, the registry of deployments, logs, recovery, the virtual
    network and the parser of ensembles) and the parts that decide what is paid
    (contracts, usage records, contract events, payment models, the billing schedule,
    payments).

    ** The parts and how they interact

    - Identities.  A DID names a principal; a did:key DID encodes a public key.
      [GoStrings] (package strings), [Key] (lib/did/did.go, lib/did/key.go,
      lib/crypto).
    - Capabilities and tokens.  A capability is a path; [Capability] models the
      implication order (lib/ucan/cap.go).  A token grants capabilities from an
      issuer to an audience and may carry the token it was delegated from; [Token]
      models lib/ucan/token.go with verification, delegation, permission tests,
      subsumption and the revocation set.
    - Capability contexts.  [CapContext] models lib/ucan/context.go: the roots, the
      require and provide anchors, the tokens received, the revocations, and the
      operations that require, provide, consume, grant, delegate, discard and
      revoke.  [CapStore] models the file a context is kept in (lib/ucan/store.go) and
      the trust context with its cache of anchors (lib/did/context.go, anchor.go).
    - Actors.  [Envelope] (actor/interface.go, handle.go, msg.go) is the message,
      [Limiter] (actor/limiter.go) bounds the messages in flight, [Security]
      (actor/security.go) signs, verifies, requires and provides for an actor,
      [Dispatch] (actor/dispatch.go) is the goroutine that verifies a message,
      checks the behaviour's capabilities and starts the handler, [Actor]
      (actor/basic.go, registry.go) is the actor around it: network entry points,
      sending, invoking, publishing, children.
    - Resources.  [GoNumbers] models float32, float64 and numbers as text, [Hardware] the arithmetic
      and comparison of CPU, RAM, disk and GPUs (types/hardware.go, comparison.go,
      comparator.go, utils.go), [ResourceManager] the books of commitments and
      allocations (types/resources.go, dms/resources), [Onboarding] the part of the
      machine that is offered (dms/onboarding), [MachineCapability] what a machine has
      beside resources (types/capability.go, executor.go).
    - Allocations.  [Ports] is the port allocator and [Allocator] the allocator of
      dms/node/allocator.go with the capacity check of lib/hardware/hardware.go;
      [Allocation] is the life cycle of one allocation (dms/jobs/allocation.go).
      [AllocRecovery] (dms/node/alloc_recovery.go, behaviors_allocation.go) creates the
      allocations of an ensemble on a node, stores them and restores them when the node
      starts; [AllocationLogs] (dms/orchestrator/allocation_logs.go,
      allocation_logs_job.go, dms/behaviors/chunked_transfer.go) gives out, fetches and
      follows their logs.
    - Ensembles.  [AllocationID] models the names of allocations and standby nodes (types/allocation.go
      and the generators beside it), [Ensemble] ensembles, bids and manifests
      (dms/jobs/types), [ManifestDiff] the difference between two configurations and
      the validation of an update (dms/orchestrator/manifest_diff.go).
    - Orchestration, all of dms/orchestrator.  [BidCoordinator] (bid.go) requests and
      collects bids and chooses a candidate, [Committer] (commit.go) commits and
      allocates on the chosen nodes, [DependencyOrder] (utils.go) orders the
      allocations for provisioning, [IPNet] (network/utils) and [Subnet] (subnet.go)
      give them addresses, [Orchestrator] (orchestrator.go, provision.go,
      teardown.go) deploys with retries, reverts and shuts down, [Supervisor]
      (supervisor.go) watches and restarts, [EnsembleUpdate] (update_manifest.go) changes
      a running deployment.
    - The virtual network.  [VirtualSubnet] (network/libp2p/subnet.go, subnet_linux.go,
      rtable.go, dns.go) is what a node keeps of the subnets it is a member of,
      [SubnetProvision] (dms/orchestrator/subnet.go) the messages with which an
      orchestrator configures them, [Peers] (dms/node/network.go) the peers a node is
      connected to and the greetings it sends them.
    - Contracts, all of tokenomics.  [GoTime] models package time, [Contract] contracts, their store and their actor
      (contracts/contract.go, payments.go, store/contract_store.go,
      contract_host.go), [UsageStore] the events (store/usage, events),
      [EventHandler] the queue that delivers them (eventhandler), [Billing]
      the six payment models (contracts/processors, utils/convert), [ContractHost]
      the check for an invoice and the schedule (contract_host.go,
      billing_scheduler.go, billing_trigger.go).
    - Payments.  [GoText] models text in any case and decimals of 256 bits, [Payments]
      the exchange rates, the stores of payments, quotes and transactions and the
      turning of invoices into payments (pricing/oracle.go, store/payment, store/payment_quote, store/transaction,
      dms/node/payment_processor.go), [Transfers] the transfers of a Cardano
      transaction (client/cardano), [PaymentValidator] and [TransactionList] the
      handlers of dms/node/behaviors_contract.go that check, quote, confirm and list
      payments.
    - The node's side of contracts and deployments.  [NodeContracts]
      (dms/node/behaviors_contract.go, node.go) creates, proposes, approves, lists and
      verifies contracts and bills them on request, [NodeBids]
      (dms/node/behaviors_bid.go, behaviors_deployment.go) answers requests for bids and
      commits or reverts resources.
    - Stored deployments.  [Deployments] (dms/orchestrator/deployments_store.go,
      dms/node/behaviors_deployment.go) stores, queries, lists and prunes deployments,
      [Registry] (dms/orchestrator/registry.go, dms/node/node.go) creates, saves and
      restores orchestrators, [StatusWatch] is the goroutine that saves a deployment
      when its status changes.
    - The parser of ensembles (dms/jobs/parser).  [GoText] also has the regular
      expressions of names, [ConfigTree] the trees of values with their paths and the
      search for cycles (tree, utils), [SpecValidator] the validators and the walk that
      applies them (ensemblev1/validate.go, validate), [Resolver] the placeholders
      (resolve) and numbers with units and durations (utils/convert), [SpecDecoder]
      the transformers on a heap of shared maps (transform, ensemblev1/decode.go,
      encode.go).

    The dispatch calls the security context, which calls the capability context,
    which calls the tokens; the allocator calls the hardware check, the resource
    manager, the port allocator and the allocations; the orchestrator calls the
    coordinator, the committer, the subnet and the dependency order; the host of a
    contract calls the payment models, which query the usage records.  The model
    composes its definitions the same way.

    ** How code becomes definitions

    A struct is a [Record], a string enumeration an [Inductive] type (or a string
    where any string is accepted), a map a [gmap], a set a [gset].  A method that
    changes its receiver returns the new state; a method that fails returns an
    [outcome] (value, error or panic) or an optional error beside the state.
    Errors are kept up to [errors.Is].  Integers that can wrap are integers with
    the wrap-around written out ([u64], [s64]), floats are [SpecFloat] values.
    Slices that the code shares between two holders (the GPUs of the onboarded
    resources) are written back to both.  A method that
    holds its lock throughout is one atomic step.  Where the code releases a lock in
    between, the interleaving is explicit: other methods may run between the check
    and the use of a token ([between] in [Security] and [Dispatch], late stores in
    [CapContextSpec]), the goroutines of the dispatch are steps of [DispatchSpec], the
    two reads of a capacity check are apart in [ResourceProps], and the goroutines of
    [StatusWatch], [AllocationLogs], [Peers] and [EventHandler] and the requests of
    [SubnetProvision] run in any order.

    What is outside is a parameter with the laws the code relies on, or an
    argument: signatures and keys ([KeyLib], [KeyLaws]), the encodings of tokens
    and messages ([TokenCodec], [WireCodec], [EnvelopeCodec]), the trust context and
    the provider of a DID ([TrustContext], [Provider]), the order in which a range
    visits a map ([MapIteration], [MapVisit]: any permutation), the clock, random
    nonces and draws, the payload of events ([EventCodec]), the calendar of the
    local zone ([Zone]), the answers of the database, of the network, of other
    nodes, of the executor, of the volumes, of the system about ports and of the
    hardware sensors.  [TokenSpec] and the witnesses instantiate them with
    concrete functions.

    Loops are structural recursion over the data they consume.  Fuel appears where
    the code loops until a condition holds: [Split] takes one unit more than the
    length of its string, and each round removes at least one byte; the matching
    loop of [GPUs_Compare] takes the number of required GPUs, the number of rounds
    the code makes; the search for an address in [IPNet] takes 256, the size of the
    network it runs in; the levels of [DependencyOrder] take one more than the
    number of vertices, and each round removes one; the selection of a candidate
    takes the number of draws the generator may make; the search for cycles in
    [ConfigTree] takes one more than the number of vertices, the walk of [SpecValidator]
    the height of the tree, the placeholders of [Resolver] one round per dollar sign,
    and its durations the length of the text; fetching a log takes one exchange per byte
    and one more; a unique name takes at most 101 draws, as in the code; the wait for
    the orchestrator of restored allocations makes at most twelve attempts.  Theorems
    show that these are enough.  The greetings of [Peers] and the events of
    [EventHandler] end by measures of the work that is left (four sections per
    attempt, four steps per call).  The search for free ports makes one round per port of the range.

    ** What the theorems show

    - Tokens ([TokenSpec], [TokenProps]): verification accepts exactly the tokens
      derivable by the delegation rules; along a verified chain authority only
      shrinks; delegation from a verified token verifies; revocation keys do not
      collide; subsumption is sound.
    - Contexts ([CapContextSpec], [CapContextProps], [CapStore]): in every reachable
      context, by failed calls too, a successful requirement rests on an anchored token
      that verifies now against the revocations in force ([in_force]: those every
      stored token was checked against, all recorded ones unless a call of AddRoots
      failed or a token was stored late); exactly the stored and anchored tokens are
      granted whatever the map order, only issuers revoke, provided capabilities are
      granted, the outcome of [Consume] on every input, and a saved context loads again
      when its revocations are in force.
    - Actors ([DispatchSpec], [DispatchProps], [ActorProps]): under
      every interleaving a handler starts only for verified and authorised
      messages, within the limits, one-shot behaviours at most once, queues stay
      bounded, sent messages are received and verify.
    - Resources ([ResourceSpec], [ResourceProps], [Onboarding]): commitments never
      exceed the machine, the manager implements an abstract ledger, comparison of
      GPUs is sound where it decides; what is onboarded leaves a tenth of the machine,
      and what a node comes up with after a restart.
    - Allocations ([Ports], [AllocationProps], [AllocatorProps]):
      ports are exclusive as long as no commitment names a reserved port, failed
      commitments change nothing, commitments can be taken back, the allocator
      inherits the bounds of the manager through a simulation of its steps by the
      manager's, and what ending an allocation leaves behind on every branch.
    - Recovery and logs ([AllocRecoveryProps], [AllocationLogsProps]): a restored
      allocation is the one that was stored, a failed restoration leaves nothing but a
      subnet with the empty name, the wait for the orchestrator ends; a fetched log is
      the log, and the copy of a followed log agrees with it up to holes.
    - Ensembles ([AllocationID], [ManifestDiffProps]): identifiers parse back to
      what they were built from, an accepted update is compatible with the running
      deployment, and the configuration of an update asks for exactly what is new.
    - Orchestration ([BidProps], [CandidateProps], [OrchestratorProps],
      [DependencyOrder], [IPNet], [Subnet], [Supervisor]): a candidate
      rests on valid bids and checked constraints, the generator of candidates
      enumerates the choices and the selection ends, nothing is allocated before
      every node has committed every allocation, the order respects dependencies or finds a cycle,
      addresses are exclusive and free again when a member leaves, and an allocation is
      restarted at its third strike.
    - The virtual network ([VirtualSubnet], [SubnetProvision], [Peers]): the tables of
      routes and peers agree, a mapped port is unmapped to the rules there were before
      (less the masquerading rule), the members of a configured subnet reach each other
      by name and address, and a pending greeting has a goroutine that ends.
    - Contracts ([Contract], [BillingProps], [UsageProps]): a contract in force is
      signed by both parties, a rental is never billed for more time than passed,
      time is billed exactly once over successive invoices, and when the next check
      is due; events ([EventHandler]) are delivered, retried or counted as lost, and the
      queue settles.
    - Payments ([PaymentProps], [Transfers], [TransactionList]): a payment counts as
      paid only on a transfer that a blockchain reported, of at least the amount that
      was asked or that a quote of this validator named, the transfers of a
      transaction are the flow of its balances, and the pages of the list of
      transactions enumerate it once, in order.
    - The node's side ([NodeContractProps], [NodeBidProps]): both parties can reach an
      agreement, what a verified chain of contracts consists of, a bid of a node is
      taken by the coordinator, and a node commits only after a bid of its own.
    - Stored deployments ([RegistryProps], [StatusWatch]): the store is a map, pruning
      removes only what has ended, running deployments survive a restart, and when the
      status that is stored is the present one.
    - The parser ([ConfigTree], [SpecProps], [Resolver], [SpecDecoder]): an accepted ensemble has dependencies that exist and can be
      ordered, and places each allocation once; cycles are found exactly; placeholders
      end; the encoder undoes the decoder on executions.
    - Defects: several theorems state what the code does where it does not do what
      it means to (a nil token stops the process, children overwrite each other,
      free GPUs drain, allocations are counted twice, a busy port can be taken, a
      failed run counts as running, a failed start loses its resources, an ensemble
      of 21 nodes finds no candidate, a failed commit is final, an update stops
      watching what it keeps, a terminated contract is billed from 1970, one
      transfer pays any number of payments, edge constraints are never confirmed, sizes
      that allocations share are converted twice, a name with a dot is not validated, a
      placeholder may name itself, a change of status can be missed, what was deleted
      comes back, an AddRoots that fails leaves revocations that are not in force and a
      file that does not load, an update never deploys the replacement of an allocation
      it removes, the report of failed port mappings can block, unmapping a port deletes
      the masquerading rule, a subnet with the empty name stays).

    ** What is not modelled

    The network (libp2p, the packets of tunnels), executors, storage providers, the
    database, hardware detection, blockchain clients and price services, the command
    line and the HTTP interface are input and output. The resolvers of the hardware
    wallet, Eternl and PRISM identities, the timers of health checks, the
    provisioning of servers and the translator of compose files are left out.
    Addresses of the virtual network are IPv4 in dotted form: other forms are
    refused by the model of net.ParseIP. The decoding of a configuration tree into
    structures by mapstructure is not part of the parser here: dependencies are read
    from the tree under the names the documentation gives. The values of the
    parameters of an execution are kept in their encoded form. *)

From stdpp Require Export gmap strings list.
From Stdlib Require Export ZArith Lia.

(** ** Outcomes of Go calls

    A Go call either returns normally, returns a non-nil error, or panics.
    Errors are kept up to [errors.Is]: a wrapped error is its root cause. *)

Inductive outcome (E A : Type) : Type :=
| Ok (a : A)
| Err (e : E)
| Panic.
Arguments Ok {E A} a.
Arguments Err {E A} e.
Arguments Panic {E A}.

Declare Scope go_scope.
Delimit Scope go_scope with go.

(** [let? x := m in k] continues with [k] only when [m] returned normally. *)
Notation "'let?' x := m 'in' k" :=
  (match m with Ok x => k | Err e => Err e | Panic => Panic end)
  (at level 10, x pattern, m at level 100, k at level 200) : go_scope.

Definition is_ok {E A} (o : outcome E A) : bool :=
  match o with Ok _ => true | _ => false end.

(** ** Machine integers

    [uint64] and [int] values are integers kept in range by the wrap-around
    of the language. *)

Definition max_u64 : Z := 2 ^ 64.
Definition u64 (z : Z) : Z := z mod 2 ^ 64.
Definition is_u64 (z : Z) : Prop := (0 ≤ z < 2 ^ 64)%Z.
Definition s64 (z : Z) : Z := (z + 2 ^ 63) mod 2 ^ 64 - 2 ^ 63.
Definition is_s64 (z : Z) : Prop := (- 2 ^ 63 ≤ z < 2 ^ 63)%Z.

Lemma u64_small z : is_u64 z → u64 z = z.
Proof. unfold is_u64, u64. intros ?. by rewrite Z.mod_small. Qed.

Lemma u64_range z : is_u64 (u64 z).
Proof. unfold is_u64, u64. pose proof (Z.mod_pos_bound z (2 ^ 64)). lia. Qed.

Lemma s64_small z : is_s64 z → s64 z = z.
Proof. unfold is_s64, s64. intros ?. rewrite Z.mod_small; lia. Qed.

Lemma s64_range z : is_s64 (s64 z).
Proof.
  unfold is_s64, s64. pose proof (Z.mod_pos_bound (z + 2 ^ 63) (2 ^ 64)). lia.
Qed.

(** ** Automation

    [brefl] turns boolean tests of the code into propositions, in the goal and
    in the hypotheses; the database [dms] collects the lemmas that close the
    routine cases. *)

Create HintDb dms.
#[export] Hint Resolve u64_small u64_range s64_small s64_range : dms.

Ltac brefl :=
  repeat first
    [ rewrite andb_true_iff in * | rewrite orb_true_iff in *
    | rewrite andb_false_iff in * | rewrite orb_false_iff in *
    | rewrite negb_true_iff in * | rewrite negb_false_iff in *
    | rewrite bool_decide_eq_true in * | rewrite bool_decide_eq_false in *
    | rewrite Z.ltb_lt in * | rewrite Z.ltb_ge in *
    | rewrite Z.leb_le in * | rewrite Z.leb_gt in *
    | rewrite Z.eqb_eq in * | rewrite Z.eqb_neq in *
    | rewrite existsb_exists in * | rewrite forallb_forall in * ].

(** ** Lists and options *)

Section lists.
  Context {A : Type}.
  Implicit Types (l : list A) (f : A → bool).

Lemma existsb_false l f : existsb f l = false ↔ ∀ x, In x l → f x = false.
Proof.
  induction l as [|a l IH]; simpl; [naive_solver|].
  rewrite orb_false_iff, IH. naive_solver.
Qed.

Lemma forallb_false l f : forallb f l = false ↔ ∃ x, In x l ∧ f x = false.
Proof.
  induction l as [|a l IH]; simpl; [naive_solver|].
  rewrite andb_false_iff, IH. naive_solver.
Qed.

Lemma existsb_perm l l' f : l ≡ₚ l' → existsb f l = existsb f l'.
Proof.
  intros HP. apply eq_true_iff_eq. rewrite !existsb_exists.
  split; intros (x & Hin & Hf); exists x; split; auto;
    [|symmetry in HP]; by eapply Permutation_in.
Qed.

Lemma filter_List_In l f x : In x (List.filter f l) ↔ In x l ∧ f x = true.
Proof. apply filter_In. Qed.

Lemma submseteq_NoDup l l' : l ⊆+ l' → NoDup l' → NoDup l.
Proof. intros [k ->]%submseteq_Permutation. by intros [? _]%NoDup_app. Qed.

Lemma NoDup_map_inj {B} (g : A → B) l x y :
  NoDup (map g l) → In x l → In y l → g x = g y → x = y.
Proof.
  induction l as [|a l IH]; simpl; [done|].
  rewrite NoDup_cons. intros [Hn Hd] [->|Hx] [->|Hy] Heq; auto.
  - exfalso. apply Hn. rewrite Heq. apply list_elem_of_In. by apply in_map.
  - exfalso. apply Hn. rewrite <- Heq. apply list_elem_of_In. by apply in_map.
Qed.
End lists.

Lemma filter_perm {A} (f : A → bool) l l' : l ≡ₚ l' → List.filter f l ≡ₚ List.filter f l'.
Proof.
  induction 1; simpl; [done| | |by etrans].
  - destruct (f x); [by constructor|done].
  - destruct (f x), (f y); try done. constructor.
Qed.
