(* ===== verification/GoStrings.v ===== *)
(** * Go strings

    The functions of the Go package [strings] (and [strconv]) that the program
    uses, on byte strings, with the facts the components need of them. *)

From S2P Require Import Prelude.

(** [strings.HasPrefix(s, prefix)] *)
Fixpoint HasPrefix (s p : string) {struct p} : bool :=
  match p, s with
  | EmptyString, _ => true
  | String a p', String b s' => bool_decide (a = b) && HasPrefix s' p'
  | String _ _, EmptyString => false
  end.

Lemma string_app_cons a s1 s2 : String a s1 +:+ s2 = String a (s1 +:+ s2).
Proof. done. Qed.

Lemma string_app_nil_l s : "" +:+ s = s.
Proof. done. Qed.

Lemma string_app_nil_r s : s +:+ "" = s.
Proof. induction s as [|a s IH]; [done|]. by rewrite string_app_cons, IH. Qed.

Lemma string_app_assoc s1 s2 s3 : s1 +:+ (s2 +:+ s3) = (s1 +:+ s2) +:+ s3.
Proof. induction s1 as [|a s IH]; [done|]. by rewrite !string_app_cons, IH. Qed.

Lemma string_length_app s1 s2 :
  String.length (s1 +:+ s2) = String.length s1 + String.length s2.
Proof.
  induction s1 as [|a s IH]; [done|]. rewrite string_app_cons. simpl. by rewrite IH.
Qed.

Create Rewrite HintDb gostr.
#[export] Hint Rewrite string_app_cons string_app_nil_l : gostr.

Lemma HasPrefix_spec s p : HasPrefix s p = true ↔ ∃ r, s = p +:+ r.
Proof.
  revert s. induction p as [|a p IH]; intros s.
  - split; [intros _; by exists s | by destruct s].
  - destruct s as [|b s]; cbn [HasPrefix].
    + split; [done | intros (r & Hr); by rewrite string_app_cons in Hr].
    + rewrite andb_true_iff, bool_decide_eq_true, IH. setoid_rewrite string_app_cons.
      split; [intros [-> [r ->]]; by exists r | intros [r [= -> ->]]; eauto].
Qed.

(** [strings.CutPrefix]: what follows the prefix. *)
Fixpoint strip_prefix (s p : string) {struct p} : option string :=
  match p, s with
  | EmptyString, _ => Some s
  | String a p', String b s' => if bool_decide (a = b) then strip_prefix s' p' else None
  | String _ _, EmptyString => None
  end.

Lemma strip_prefix_Some s p r : strip_prefix s p = Some r ↔ s = p +:+ r.
Proof.
  revert s. induction p as [|a p IH]; intros s.
  - cbn. split; [intros [= ->]; done | destruct s; by intros ->].
  - destruct s as [|b s]; cbn [strip_prefix]; rewrite string_app_cons; [done|].
    case_bool_decide; subst; [rewrite IH|]; split; congruence.
Qed.

Lemma strip_prefix_HasPrefix s p : HasPrefix s p = bool_decide (is_Some (strip_prefix s p)).
Proof.
  apply eq_true_iff_eq. rewrite HasPrefix_spec, bool_decide_eq_true.
  unfold is_Some. by setoid_rewrite strip_prefix_Some.
Qed.

(** [strings.Contains(s, substr)] *)
Fixpoint Contains (s sub : string) : bool :=
  HasPrefix s sub || match s with EmptyString => false | String _ s' => Contains s' sub end.

(** [strings.Cut(s, sep)]: the text before and after the first [sep]. *)
Fixpoint Cut (s sep : string) : option (string * string) :=
  match strip_prefix s sep with
  | Some r => Some ("", r)
  | None =>
      match s with
      | EmptyString => None
      | String c s' =>
          match Cut s' sep with
          | Some (a, b) => Some (String c a, b)
          | None => None
          end
      end
  end.

(** [strings.Split(s, sep)] for a separator that is not empty: there are at
    most [length s] separators, which is the fuel. *)
Fixpoint split_fuel (n : nat) (s sep : string) : list string :=
  match n with
  | O => [s]
  | S n' =>
      match Cut s sep with
      | Some (a, b) => a :: split_fuel n' b sep
      | None => [s]
      end
  end.

Definition Split (s sep : string) : list string :=
  split_fuel (S (String.length s)) s sep.

Lemma Cut_Some s sep a b : Cut s sep = Some (a, b) → s = a +:+ (sep +:+ b).
Proof.
  revert a b. induction s as [|c s IH]; intros a b; cbn [Cut];
    destruct (strip_prefix _ sep) as [r|] eqn:Hp.
  1,3: intros [= <- <-]; apply strip_prefix_Some in Hp; rewrite string_app_nil_l; done.
  - done.
  - destruct (Cut s sep) as [[a' b']|] eqn:Hc; [|done]. intros [= <- <-].
    rewrite string_app_cons. f_equal. by apply IH.
Qed.

Lemma Cut_Contains s sep : Contains s sep = bool_decide (is_Some (Cut s sep)).
Proof.
  induction s as [|c s IH]; cbn [Contains Cut]; rewrite strip_prefix_HasPrefix;
    destruct (strip_prefix _ sep) eqn:Hp; simpl; try done.
  rewrite IH. by destruct (Cut s sep) as [[]|].
Qed.

Fixpoint Join (l : list string) (sep : string) : string :=
  match l with
  | [] => ""
  | [x] => x
  | x :: l' => x +:+ (sep +:+ Join l' sep)
  end.

Lemma Join_cons x l sep : l ≠ [] → Join (x :: l) sep = x +:+ (sep +:+ Join l sep).
Proof. by destruct l. Qed.

Lemma split_fuel_nonempty n s sep : split_fuel n s sep ≠ [].
Proof. destruct n; simpl; [done|]. by destruct (Cut s sep) as [[]|]. Qed.

(** Splitting loses nothing: joining the pieces gives the string back. *)
Lemma split_fuel_join n s sep : Join (split_fuel n s sep) sep = s.
Proof.
  revert s. induction n as [|n IH]; intros s; [done|]. cbn [split_fuel].
  destruct (Cut s sep) as [[a b]|] eqn:Hc; [|done].
  rewrite Join_cons by apply split_fuel_nonempty.
  rewrite IH. symmetry. by apply Cut_Some.
Qed.

Lemma Split_Join s sep : Join (Split s sep) sep = s.
Proof. apply split_fuel_join. Qed.

(** A one-byte separator that does not occur on the left splits a string in
    one way only. *)
Lemma sep_app_inj ch a b x y :
  Contains a (String ch "") = false → Contains b (String ch "") = false →
  a +:+ String ch x = b +:+ String ch y → a = b ∧ x = y.
Proof.
  revert b. induction a as [|c a IH]; intros [|c' b]; cbn [Contains HasPrefix];
    rewrite ?orb_false_iff, ?andb_true_r, ?string_app_cons, ?string_app_nil_l.
  - by intros _ _ [= ->].
  - intros _ [Hc _] [= <- _]. by rewrite bool_decide_false_2 in Hc || (case_bool_decide; done).
  - intros [Hc _] _ [= -> _]. by case_bool_decide.
  - intros [_ Ha] [_ Hb] [= -> He]. destruct (IH b Ha Hb He) as [-> ->]. done.
Qed.

(** More fuel than the length of the string changes nothing. *)
Lemma split_fuel_enough n m s sep :
  sep ≠ "" → String.length s < n → String.length s < m → split_fuel n s sep = split_fuel m s sep.
Proof.
  intros Hsep. revert m s. induction n as [|n IH]; intros [|m] s Hn Hm; try lia. cbn [split_fuel].
  destruct (Cut s sep) as [[a b]|] eqn:Hc; [|done]. f_equal. apply Cut_Some in Hc. subst s.
  rewrite !string_length_app in Hn, Hm. destruct sep; [done|]. simpl in Hn, Hm. apply IH; lia.
Qed.

Lemma Split_none s sep : Contains s sep = false → Split s sep = [s].
Proof.
  intros Hc. unfold Split. cbn [split_fuel]. rewrite Cut_Contains in Hc.
  apply bool_decide_eq_false in Hc. destruct (Cut s sep) eqn:E; [|done]. destruct Hc; eauto.
Qed.

(** The first piece before a one-byte separator. *)
Lemma Cut_app ch a b :
  Contains a (String ch "") = false → Cut (a +:+ String ch b) (String ch "") = Some (a, b).
Proof.
  induction a as [|c a IH]; cbn [Contains HasPrefix]; rewrite ?andb_true_r, ?orb_false_iff.
  - intros _. rewrite string_app_nil_l. cbn [Cut strip_prefix]. by rewrite bool_decide_true.
  - intros [Hc Ha]. apply bool_decide_eq_false in Hc. rewrite string_app_cons. cbn [Cut strip_prefix].
    rewrite bool_decide_false by done. by rewrite IH.
Qed.

Lemma Split_app ch a b :
  Contains a (String ch "") = false →
  Split (a +:+ (String ch "" +:+ b)) (String ch "") = a :: Split b (String ch "").
Proof.
  intros Ha. unfold Split at 1. rewrite string_app_cons, string_app_nil_l. cbn [split_fuel].
  rewrite Cut_app by done. f_equal. unfold Split.
  apply split_fuel_enough; [done| |lia]. rewrite string_length_app. simpl. lia.
Qed.

(** [strings.TrimPrefix(s, prefix)] *)
Definition TrimPrefix (s p : string) : string := default s (strip_prefix s p).

Lemma TrimPrefix_app p s : TrimPrefix (p +:+ s) p = s.
Proof. unfold TrimPrefix. by rewrite (proj2 (strip_prefix_Some _ p s) eq_refl). Qed.

(** [s[n:]] for [n] within the string. *)
Fixpoint string_drop (n : nat) (s : string) : string :=
  match n, s with
  | O, _ => s
  | S n', String _ s' => string_drop n' s'
  | S _, EmptyString => ""
  end.

Lemma string_drop_app a b : string_drop (String.length a) (a +:+ b) = b.
Proof. induction a as [|c a IH]; [by destruct b|]. by rewrite string_app_cons. Qed.
