(* ===== verification/GoNumbers.v ===== *)
(** * Decimal numbers (package strconv)

    [strconv.Itoa] and [strconv.Atoi] on 64-bit ints, and the facts about the text
    of a number that parsers need: it reads back, and it contains no separator. *)

From Stdlib Require Import Ascii Decimal DecimalString DecimalN DecimalFacts SpecFloat.
From S2P Require Import Prelude GoStrings.

(** ** Go floating point

    [float32] and [float64] as the binary floats of the standard library's
    [SpecFloat] (precision 24 and 53), with the conversions and the functions of
    the Go package [math] that types/utils.go uses. *)

Definition float32 : Type := spec_float.
Definition float64 : Type := spec_float.

#[export] Instance spec_float_eq_dec : EqDecision spec_float.
Proof. solve_decision. Defined.

Definition f32_add : float32 → float32 → float32 := SFadd 24 128.
Definition f32_sub : float32 → float32 → float32 := SFsub 24 128.
Definition f64_mul : float64 → float64 → float64 := SFmul 53 1024.
Definition f64_div : float64 → float64 → float64 := SFdiv 53 1024.

(** Conversions round to nearest, ties to even. *)
Definition f64_of_f32 (x : float32) : float64 :=
  match x with
  | S754_finite s m e => binary_normalize 53 1024 (cond_Zopp s (Zpos m)) e s
  | _ => x
  end.
Definition f32_of_f64 (x : float64) : float32 :=
  match x with
  | S754_finite s m e => binary_normalize 24 128 (cond_Zopp s (Zpos m)) e s
  | _ => x
  end.
Definition f64_of_Z (n : Z) : float64 := binary_normalize 53 1024 n 0 false.
Definition f32_of_Z (n : Z) : float32 := binary_normalize 24 128 n 0 false.

(** [math.Round]: the nearest integer, halves away from zero. *)
Definition math_Round (x : float64) : float64 :=
  match x with
  | S754_finite s m e =>
      if (0 <=? e)%Z then x
      else
        let q := ((Zpos m * 2 + 2 ^ (- e)) / 2 ^ (- e + 1))%Z in
        binary_normalize 53 1024 (cond_Zopp s q) 0 s
  | _ => x
  end.

(** [round(value, 2)] of types/utils.go at type [float32]. *)
Definition round2 (value : float32) : float32 :=
  let factor := f64_of_Z 100 in
  f32_of_f64 (f64_div (math_Round (f64_mul (f64_of_f32 value) factor)) factor).

(** [<] and [==] on floats: false when an operand is not a number. *)
Definition float_lt (x y : spec_float) : bool := SFltb x y.
Definition float_eq (x y : spec_float) : bool := SFeqb x y.

(** A float32 literal with two decimals, [n]/100. *)
Definition f32_cents (n : Z) : float32 := f32_of_f64 (f64_div (f64_of_Z n) (f64_of_Z 100)).

(** The rounding removes the error of the float32 sum: 0.01 + 0.04 is 0.05. *)
Example round2_fixes_sum :
  f32_add (f32_cents 1) (f32_cents 4) ≠ f32_cents 5 ∧
  round2 (f32_add (f32_cents 1) (f32_cents 4)) = f32_cents 5.
Proof. split; vm_compute; [discriminate|reflexivity]. Qed.

Definition Itoa (z : Z) : string :=
  match z with
  | Zneg _ => String "-" (NilZero.string_of_uint (N.to_uint (Z.to_N (- z))))
  | _ => NilZero.string_of_uint (N.to_uint (Z.to_N z))
  end.

(** An optional sign, at least one digit, and a value in range. *)
Definition Atoi (s : string) : option Z :=
  let '(neg, digits) :=
    match s with
    | String c r =>
        if bool_decide (c = "-"%char) then (true, r)
        else if bool_decide (c = "+"%char) then (false, r)
        else (false, s)
    | EmptyString => (false, s)
    end in
  match NilZero.uint_of_string digits with
  | None => None
  | Some u =>
      let n := Z.of_N (N.of_uint u) in
      let v := if (neg : bool) then (- n)%Z else n in
      if (- 2 ^ 63 <=? v)%Z && (v <? 2 ^ 63)%Z then Some v else None
  end.

(** ** Digits *)

Definition is_digit (c : ascii) : Prop := (48 ≤ nat_of_ascii c ≤ 57)%nat.

Fixpoint all_digits (s : string) : Prop :=
  match s with EmptyString => True | String c s => is_digit c ∧ all_digits s end.

Lemma string_of_uint_digits d : all_digits (NilEmpty.string_of_uint d).
Proof. induction d; simpl; try done; (split; [unfold is_digit; vm_compute; lia|done]). Qed.

Lemma string_of_uint_zero_digits d : all_digits (NilZero.string_of_uint d).
Proof.
  destruct d; [simpl; split; [unfold is_digit; vm_compute; lia|done]|..]; apply string_of_uint_digits.
Qed.

Lemma Itoa_digits z : (0 ≤ z)%Z → all_digits (Itoa z).
Proof.
  intros Hz. assert (Itoa z = NilZero.string_of_uint (N.to_uint (Z.to_N z))) as ->
    by (destruct z; [done|done|lia]).
  apply string_of_uint_zero_digits.
Qed.

(** Digits contain nothing that has another byte. *)
Lemma all_digits_Contains s c sub :
  all_digits s → ¬ is_digit c → Contains s (String c sub) = false.
Proof.
  induction s as [|a s IH]; [done|]. intros [Ha Hs] Hc. cbn [Contains HasPrefix].
  rewrite IH by done. rewrite orb_false_r. case_bool_decide as Heq; [|done]. by subst.
Qed.

Lemma to_uint_nonnil n : N.to_uint n ≠ Nil.
Proof.
  intros H. pose proof (Unsigned.to_of (N.to_uint n)) as E. rewrite Unsigned.of_to, H in E. by destruct n.
Qed.

(** ** Reading a number back *)

Lemma Atoi_Itoa z : is_s64 z → Atoi (Itoa z) = Some z.
Proof.
  intros Hz. unfold is_s64 in Hz. unfold Atoi.
  assert (∀ n, NilZero.uint_of_string (NilZero.string_of_uint (N.to_uint n)) = Some (N.to_uint n)) as Hu.
  { intros n. apply NilZero.usu, to_uint_nonnil. }
  destruct (Z_lt_dec z 0) as [Hn|Hn].
  - destruct z as [|p|p]; try lia. cbn [Itoa]. rewrite bool_decide_true by done. rewrite Hu.
    rewrite Unsigned.of_to. cbv zeta. replace (- Z.of_N (Z.to_N (- Z.neg p)))%Z with (Z.neg p) by lia.
    destruct (Z.leb_spec (- 2 ^ 63) (Z.neg p)); [|lia].
    destruct (Z.ltb_spec (Z.neg p) (2 ^ 63)); [done|lia].
  - assert (Itoa z = NilZero.string_of_uint (N.to_uint (Z.to_N z))) as -> by (destruct z; [done|done|lia]).
    pose proof (string_of_uint_zero_digits (N.to_uint (Z.to_N z))) as Hd.
    destruct (NilZero.string_of_uint (N.to_uint (Z.to_N z))) as [|c r] eqn:Hs.
    + specialize (Hu (Z.to_N z)). by rewrite Hs in Hu.
    + destruct Hd as [Hc _]. rewrite !bool_decide_false by (intros ->; vm_compute in Hc; lia).
      rewrite <- Hs, Hu, Unsigned.of_to, Z2N.id by lia.
      destruct (Z.leb_spec (- 2 ^ 63) z); [|lia]. destruct (Z.ltb_spec z (2 ^ 63)); [done|lia].
Qed.

Lemma Itoa_inj z z' : is_s64 z → is_s64 z' → Itoa z = Itoa z' → z = z'.
Proof. intros Hz Hz' H. apply (f_equal Atoi) in H. rewrite !Atoi_Itoa in H by done. congruence. Qed.
