(* ===== verification/AllocationID.v ===== *)
(** * Identifiers of nodes and allocations

    types/allocation.go, types/id_generators.go, types/default_id_generators.go and
    types/generator_validator.go: the text forms of allocation identifiers, their
    parsers, the generators the orchestrator is given, and the validator it runs on
    them. *)

From Stdlib Require Import Ascii.
From S2P Require Import Prelude GoStrings GoNumbers.

Inductive id_error :=
| ErrEmptyPart
| ErrBadID
| ErrBadStandbyID
| ErrBadStandbyIndex
| ErrKeyConflict
| ErrNotRecognised.

#[export] Instance id_error_eq_dec : EqDecision id_error.
Proof. solve_decision. Defined.

Definition ConstructAllocationID (ensembleID allocName : string) : string :=
  ensembleID +:+ ("_" +:+ allocName).

(** [strings.LastIndex] of a non-empty separator, as what is before and after it. *)
Fixpoint cutLast (s sep : string) : option (string * string) :=
  match s with
  | EmptyString => None
  | String b s' =>
      match cutLast s' sep with
      | Some (x, y) => Some (String b x, y)
      | None => option_map (λ y, (EmptyString, y)) (strip_prefix s sep)
      end
  end.

Definition AllocationNameFromID (id : string) : string :=
  match cutLast id "_" with None => id | Some (_, name) => name end.

Definition EnsembleIDFromAllocationID (id : string) : string :=
  match cutLast id "_" with None => id | Some (ensembleID, _) => ensembleID end.

(** ** Structured identifiers *)

Record AllocationIdentifier := mkAID {
  aid_EnsembleID : string;
  aid_NodeID : string;
  aid_AllocationName : string;
  aid_IsStandby : bool;
  aid_StandbyIndex : Z
}.

Definition standbyName (nodeID : string) (index : Z) : string :=
  nodeID +:+ ("-standby-" +:+ Itoa index).

(** The key in the manifest: the standby suffix is added unless it is there. *)
Definition ManifestKey (aid : AllocationIdentifier) : string :=
  if aid_IsStandby aid then
    if Contains (aid_NodeID aid) "-standby-"
    then aid_NodeID aid +:+ ("." +:+ aid_AllocationName aid)
    else standbyName (aid_NodeID aid) (aid_StandbyIndex aid) +:+ ("." +:+ aid_AllocationName aid)
  else aid_NodeID aid +:+ ("." +:+ aid_AllocationName aid).

Definition AID_String (aid : AllocationIdentifier) : string :=
  if aid_IsStandby aid then
    if Contains (aid_NodeID aid) "-standby-"
    then aid_EnsembleID aid +:+ ("_" +:+ (aid_NodeID aid +:+ ("." +:+ aid_AllocationName aid)))
    else aid_EnsembleID aid +:+ ("_" +:+
           (standbyName (aid_NodeID aid) (aid_StandbyIndex aid) +:+ ("." +:+ aid_AllocationName aid)))
  else aid_EnsembleID aid +:+ ("_" +:+ (aid_NodeID aid +:+ ("." +:+ aid_AllocationName aid))).

Definition ConfigName (aid : AllocationIdentifier) : string := aid_AllocationName aid.

(** Both branches of the code return the node as it is. *)
Definition PrimaryNodeID (aid : AllocationIdentifier) : string :=
  if aid_IsStandby aid then aid_NodeID aid else aid_NodeID aid.

Definition NewAllocationID (ensembleID nodeID allocName : string) : AllocationIdentifier :=
  mkAID ensembleID nodeID allocName false 0.
Definition NewStandbyAllocationID (ensembleID primaryNodeID allocName : string) (standbyIndex : Z)
    : AllocationIdentifier :=
  mkAID ensembleID primaryNodeID allocName true standbyIndex.

(** The standby form [nodeID-standby-N.allocName] of a key. *)
Definition parseStandbyKey (ensembleID key : string) : outcome id_error AllocationIdentifier :=
  match Split key "-standby-" with
  | [nodeID; indexAlloc] =>
      match Split indexAlloc "." with
      | [index; allocName] =>
          match Atoi index with
          | None => Err ErrBadStandbyIndex
          | Some standbyIndex =>
              Ok (mkAID ensembleID (standbyName nodeID standbyIndex) allocName true standbyIndex)
          end
      | _ => Err ErrBadStandbyID
      end
  | _ => Err ErrBadStandbyID
  end.

(** The form [nodeID.allocName]. *)
Definition parsePrimaryKey (ensembleID key : string) : outcome id_error AllocationIdentifier :=
  match Split key "." with
  | [nodeID; allocName] => Ok (mkAID ensembleID nodeID allocName false 0)
  | _ => Err ErrBadID
  end.

Definition ParseManifestKey (manifestKey ensembleID : string) : outcome id_error AllocationIdentifier :=
  if Contains manifestKey "-standby-" then parseStandbyKey ensembleID manifestKey
  else parsePrimaryKey ensembleID manifestKey.

(** [SplitN(id, "_", 2)] is the text before and after the first underscore. *)
Definition ParseAllocationID (id : string) : outcome id_error AllocationIdentifier :=
  match Cut id "_" with
  | None => Err ErrBadID
  | Some (ensembleID, rest) =>
      if Contains rest "-standby-" then parseStandbyKey ensembleID rest
      else if Contains rest "standby" then Err ErrBadStandbyID
      else parsePrimaryKey ensembleID rest
  end.

Definition ParseNodeName (nodeName : string) : bool * string * Z :=
  if Contains nodeName "-standby-" then
    match Split nodeName "-standby-" with
    | [primary; index] =>
        match Atoi index with
        | Some standbyIndex => (true, primary, standbyIndex)
        | None => (false, nodeName, 0%Z)
        end
    | _ => (false, nodeName, 0%Z)
    end
  else (false, nodeName, 0%Z).

(** ** Generators *)

Class NodeIDGenerator := {
  GenerateNodeID : string → outcome id_error string;
  GenerateStandbyNodeID : string → Z → outcome id_error string;
  ValidateNodeID : string → option id_error;
  ParseNodeID : string → outcome id_error (bool * string * Z)
}.

Class AllocationIDGenerator := {
  GenerateManifestKey : string → string → outcome id_error string;
  GenerateFullAllocationID : string → string → string → outcome id_error string;
  ValidateManifestKey : string → option id_error;
  ValidateFullAllocationID : string → option id_error
}.

Definition defaultGenerateManifestKey (nodeID allocName : string) : outcome id_error string :=
  if bool_decide (nodeID = "") || bool_decide (allocName = "") then Err ErrEmptyPart
  else Ok (nodeID +:+ ("." +:+ allocName)).

Definition defaultGenerateFullAllocationID (ensembleID nodeID allocName : string)
    : outcome id_error string :=
  if bool_decide (ensembleID = "") || bool_decide (nodeID = "") || bool_decide (allocName = "")
  then Err ErrEmptyPart
  else Ok (ensembleID +:+ ("_" +:+ (nodeID +:+ ("." +:+ allocName)))).

Definition defaultValidateManifestKey (manifestKey : string) : option id_error :=
  if bool_decide (manifestKey = "") then Some ErrEmptyPart
  else match Split manifestKey "." with
  | [nodeID; allocName] =>
      if bool_decide (nodeID = "") || bool_decide (allocName = "") then Some ErrEmptyPart else None
  | _ => Some ErrBadID
  end.

Definition defaultValidateFullAllocationID (allocID : string) : option id_error :=
  if bool_decide (allocID = "") then Some ErrEmptyPart
  else match Cut allocID "_" with
  | None => Some ErrBadID
  | Some (ensembleID, rest) =>
      if bool_decide (ensembleID = "") then Some ErrEmptyPart
      else defaultValidateManifestKey rest
  end.

#[export] Instance DefaultAllocationIDGenerator : AllocationIDGenerator := {
  GenerateManifestKey := defaultGenerateManifestKey;
  GenerateFullAllocationID := defaultGenerateFullAllocationID;
  ValidateManifestKey := defaultValidateManifestKey;
  ValidateFullAllocationID := defaultValidateFullAllocationID
}.

Definition defaultGenerateStandbyNodeID (primaryNodeID : string) (standbyIndex : Z)
    : outcome id_error string :=
  if bool_decide (primaryNodeID = "") then Err ErrEmptyPart
  else if (standbyIndex <? 1)%Z then Err ErrBadStandbyIndex
  else Ok (standbyName primaryNodeID standbyIndex).

#[export] Instance DefaultNodeIDGenerator : NodeIDGenerator := {
  GenerateNodeID baseName := if bool_decide (baseName = "") then Err ErrEmptyPart else Ok baseName;
  GenerateStandbyNodeID := defaultGenerateStandbyNodeID;
  ValidateNodeID nodeID := if bool_decide (nodeID = "") then Some ErrEmptyPart else None;
  ParseNodeID nodeID := Ok (ParseNodeName nodeID)
}.

(** ** The validator *)

Section validator.
  Open Scope go_scope.

Definition need {E} (e : option E) : outcome E () := match e with None => Ok () | Some e => Err e end.
Definition check {E} (b : bool) (e : E) : outcome E () := if b then Ok () else Err e.

(** One test case: the keys of a primary and of its standby. *)
Definition validateAllocationCase `{AllocationIDGenerator}
    (ensembleID primaryNode standbyNode allocName : string) : outcome id_error () :=
  let? primaryKey := GenerateManifestKey primaryNode allocName in
  let? standbyKey := GenerateManifestKey standbyNode allocName in
  let? _ := check (bool_decide (primaryKey ≠ standbyKey)) ErrKeyConflict in
  let? primaryID := GenerateFullAllocationID ensembleID primaryNode allocName in
  let? standbyID := GenerateFullAllocationID ensembleID standbyNode allocName in
  let? _ := check (bool_decide (primaryID ≠ standbyID)) ErrKeyConflict in
  let? _ := need (ValidateManifestKey primaryKey) in
  let? _ := need (ValidateManifestKey standbyKey) in
  let? _ := need (ValidateFullAllocationID primaryID) in
  need (ValidateFullAllocationID standbyID).

Definition allocationCases : list (string * string * string * string) :=
  [("test-ensemble", "node1", "node1-standby-1", "alloc1");
   ("ensemble-123", "web-server-01", "web-server-01-standby-2", "nginx-service");
   ("e1", "n1", "n1-standby-1", "a1")].

Fixpoint validateAll {A} (f : A → outcome id_error ()) (l : list A) : outcome id_error () :=
  match l with
  | [] => Ok ()
  | x :: l => let? _ := f x in validateAll f l
  end.

Definition ValidateAllocationIDGenerator `{AllocationIDGenerator} : outcome id_error () :=
  validateAll (λ '(e, p, s, a), validateAllocationCase e p s a) allocationCases.

Definition validateNodeCase `{NodeIDGenerator} (primaryNode standbyNode : string) : outcome id_error () :=
  let? _ := need (ValidateNodeID primaryNode) in
  let? _ := need (ValidateNodeID standbyNode) in
  let? (isStandby, _, _) := ParseNodeID primaryNode in
  let? _ := check (negb isStandby) ErrNotRecognised in
  let? (isStandby, parsed, standbyIndex) := ParseNodeID standbyNode in
  let? _ := check isStandby ErrNotRecognised in
  let? _ := check (bool_decide (parsed = primaryNode)) ErrNotRecognised in
  check (1 <=? standbyIndex)%Z ErrBadStandbyIndex.

Definition nodeCases : list (string * string) :=
  [("node1", "node1-standby-1"); ("web-server-01", "web-server-01-standby-2")].

Definition ValidateNodeIDGenerator `{NodeIDGenerator} : outcome id_error () :=
  validateAll (λ '(p, s), validateNodeCase p s) nodeCases.

End validator.

(** ** Properties of identifiers

    Identifiers made of clean parts read back, standby names are recognised, and
    what the shortcut to the ensemble does with underscores. *)

(** ** Substrings and separators *)

Lemma HasPrefix_sep ch x y sub :
  Contains sub (String ch "") = false → HasPrefix (x +:+ String ch y) sub = HasPrefix x sub.
Proof.
  revert x. induction sub as [|c sub IH]; intros [|a x]; try done; cbn [Contains HasPrefix];
    rewrite ?andb_true_r, ?orb_false_iff.
  - intros [Hc%bool_decide_eq_false _]. rewrite string_app_nil_l. cbn [HasPrefix].
    by rewrite bool_decide_false.
  - intros [_ Hs]. rewrite string_app_cons. cbn [HasPrefix]. by rewrite IH.
Qed.

(** A byte that is not in [sub] separates its occurrences. *)
Lemma Contains_sep ch x y sub :
  sub ≠ "" → Contains sub (String ch "") = false →
  Contains (x +:+ String ch y) sub = Contains x sub || Contains y sub.
Proof.
  intros Hne Hsub. induction x as [|a x IH].
  - rewrite string_app_nil_l. cbn [Contains].
    assert (HasPrefix (String ch y) sub = false) as ->.
    { destruct sub as [|c sub]; [done|]. cbn [HasPrefix Contains] in *.
      rewrite andb_true_r, orb_false_iff in Hsub. destruct Hsub as [Hc%bool_decide_eq_false _].
      by rewrite bool_decide_false. }
    by destruct sub.
  - rewrite string_app_cons. cbn [Contains]. rewrite <- string_app_cons, HasPrefix_sep, IH by done.
    by rewrite orb_assoc.
Qed.

(** [-standby-] occurs in a longer text only if [standby] does. *)
Lemma Contains_standby x : Contains x "standby" = false → Contains x "-standby-" = false.
Proof.
  induction x as [|a x IH]; [done|]. cbn [Contains]. rewrite !orb_false_iff. intros [_ Hx].
  split; [|by apply IH]. cbn [HasPrefix]. case_bool_decide; [|done]. simpl.
  assert (∀ s, HasPrefix s "standby-" = true → Contains s "standby" = true) as Hin.
  { intros s Hs. destruct s; [done|]. cbn [Contains]. apply orb_true_iff. left.
    apply HasPrefix_spec in Hs as [r Hr]. apply HasPrefix_spec. exists (String "-"%char r). by rewrite Hr. }
  destruct (HasPrefix x "standby-") eqn:Hp; [|done]. apply Hin in Hp. congruence.
Qed.

(** Where the suffix begins: no earlier occurrence overlaps a clean name. *)
Lemma standby_prefix c x y :
  Contains (String c x) "standby" = false → HasPrefix (String c x +:+ ("-standby-" +:+ y)) "-standby-" = false.
Proof.
  intros Hc. apply not_true_iff_false. rewrite HasPrefix_spec. intros [r Hr].
  rewrite !string_app_cons in Hr. injection Hr as -> Hr. cbn [Contains] in Hc.
  rewrite orb_false_iff in Hc. destruct Hc as [_ Hx].
  do 7 (destruct x as [|? x]; [discriminate|rewrite string_app_cons in Hr; injection Hr as -> Hr]).
  by rewrite <- not_true_iff_false in Hx.
Qed.

Lemma Cut_standby x y :
  Contains x "standby" = false → Cut (x +:+ ("-standby-" +:+ y)) "-standby-" = Some (x, y).
Proof.
  induction x as [|c x IH]; intros Hx; [done|]. pose proof (standby_prefix c x y Hx) as Hp.
  rewrite strip_prefix_HasPrefix in Hp. rewrite (string_app_cons c x) in Hp |- *. cbn [Cut].
  destruct (strip_prefix _ "-standby-"); [done|]. cbn [Contains] in Hx. rewrite orb_false_iff in Hx.
  by rewrite IH by apply Hx.
Qed.

Lemma Split_standby x y :
  Contains x "standby" = false → Contains y "-standby-" = false →
  Split (x +:+ ("-standby-" +:+ y)) "-standby-" = [x; y].
Proof.
  intros Hx Hy. unfold Split. cbn [split_fuel]. rewrite Cut_standby by done. f_equal.
  rewrite <- (Split_none _ _ Hy). unfold Split. apply split_fuel_enough; [done| |lia].
  rewrite !string_length_app. simpl. lia.
Qed.

Lemma Split_two ch x y :
  Contains x (String ch "") = false → Contains y (String ch "") = false →
  Split (x +:+ (String ch "" +:+ y)) (String ch "") = [x; y].
Proof. intros Hx Hy. rewrite Split_app, Split_none by done. done. Qed.

Lemma Contains_standby_app x y : Contains (x +:+ ("-standby-" +:+ y)) "-standby-" = true.
Proof.
  induction x as [|c x IH]; [done|]. rewrite string_app_cons. cbn [Contains]. by rewrite IH, orb_true_r.
Qed.

(** ** Standby names *)

Lemma Itoa_no_dot i : (0 ≤ i)%Z → Contains (Itoa i) "." = false.
Proof. intros Hi. apply all_digits_Contains; [by apply Itoa_digits|unfold is_digit; vm_compute; lia]. Qed.

Lemma Itoa_no_standby i : (0 ≤ i)%Z → Contains (Itoa i) "-standby-" = false.
Proof. intros Hi. apply all_digits_Contains; [by apply Itoa_digits|unfold is_digit; vm_compute; lia]. Qed.

Lemma ParseNodeName_standby n i :
  Contains n "standby" = false → (0 ≤ i < 2 ^ 63)%Z → ParseNodeName (standbyName n i) = (true, n, i).
Proof.
  intros Hn Hi. unfold ParseNodeName, standbyName. rewrite Contains_standby_app, Split_standby
    by (try apply Itoa_no_standby; done || lia).
  rewrite Atoi_Itoa; [done|]. unfold is_s64. lia.
Qed.

Lemma ParseNodeName_primary n : Contains n "standby" = false → ParseNodeName n = (false, n, 0%Z).
Proof. intros Hn%Contains_standby. unfold ParseNodeName. by rewrite Hn. Qed.

Lemma standbyName_inj n n' i i' :
  Contains n "standby" = false → Contains n' "standby" = false →
  (0 ≤ i < 2 ^ 63)%Z → (0 ≤ i' < 2 ^ 63)%Z →
  standbyName n i = standbyName n' i' → n = n' ∧ i = i'.
Proof.
  intros Hn Hn' Hi Hi' H. apply (f_equal ParseNodeName) in H.
  rewrite !ParseNodeName_standby in H by done. by injection H.
Qed.

(** ** Reading identifiers back *)

(** The parts of an identifier that has a unique reading: the name of the primary
    node, an index in range. *)
Record clean (aid : AllocationIdentifier) : Prop := {
  cl_ensemble : Contains (aid_EnsembleID aid) "_" = false;
  cl_node : Contains (aid_NodeID aid) "standby" = false;
  cl_node_dot : Contains (aid_NodeID aid) "." = false;
  cl_name : Contains (aid_AllocationName aid) "standby" = false;
  cl_name_dot : Contains (aid_AllocationName aid) "." = false;
  cl_index : if aid_IsStandby aid then (0 ≤ aid_StandbyIndex aid < 2 ^ 63)%Z else aid_StandbyIndex aid = 0%Z
}.

(** The parsed form names a standby node in full. *)
Definition normalised (aid : AllocationIdentifier) : AllocationIdentifier :=
  if aid_IsStandby aid then
    mkAID (aid_EnsembleID aid) (standbyName (aid_NodeID aid) (aid_StandbyIndex aid))
      (aid_AllocationName aid) true (aid_StandbyIndex aid)
  else aid.

Lemma parseStandbyKey_ok e n i a :
  Contains n "standby" = false → Contains a "standby" = false → Contains a "." = false →
  (0 ≤ i < 2 ^ 63)%Z →
  parseStandbyKey e (standbyName n i +:+ ("." +:+ a)) = Ok (mkAID e (standbyName n i) a true i).
Proof.
  intros Hn Ha Had Hi. unfold parseStandbyKey, standbyName. rewrite <- !string_app_assoc.
  rewrite Split_standby; [|done|].
  - rewrite (Split_two "."%char), Atoi_Itoa; try done; [unfold is_s64; lia|apply Itoa_no_dot; lia].
  - rewrite string_app_cons, string_app_nil_l, Contains_sep by done.
    rewrite Itoa_no_standby by lia. by apply Contains_standby.
Qed.

Lemma ManifestKey_clean aid :
  clean aid → ManifestKey aid = aid_NodeID (normalised aid) +:+ ("." +:+ aid_AllocationName aid).
Proof.
  intros [_ Hn _ _ _ _]. unfold ManifestKey, normalised. apply Contains_standby in Hn.
  destruct (aid_IsStandby aid); [by rewrite Hn|done].
Qed.

Lemma AID_String_key aid : AID_String aid = aid_EnsembleID aid +:+ ("_" +:+ ManifestKey aid).
Proof. unfold AID_String, ManifestKey. by destruct (aid_IsStandby aid), (Contains (aid_NodeID aid) "-standby-"). Qed.

Lemma ManifestKey_normalised aid : clean aid → ManifestKey (normalised aid) = ManifestKey aid.
Proof.
  intros Hc. rewrite (ManifestKey_clean aid Hc). unfold normalised.
  destruct (aid_IsStandby aid) eqn:Hs; unfold ManifestKey; simpl; [|by rewrite Hs].
  unfold standbyName at 1. by rewrite Contains_standby_app.
Qed.

Lemma ParseManifestKey_ok aid :
  clean aid → ParseManifestKey (ManifestKey aid) (aid_EnsembleID aid) = Ok (normalised aid).
Proof.
  intros Hc. rewrite (ManifestKey_clean aid Hc). destruct Hc as [He Hn Hnd Ha Had Hi].
  unfold ParseManifestKey, normalised. destruct aid as [e n a [] i]; simpl in *.
  - unfold standbyName at 1. rewrite <- !string_app_assoc, Contains_standby_app.
    rewrite !string_app_assoc. fold (standbyName n i). rewrite <- string_app_assoc.
    by rewrite parseStandbyKey_ok.
  - assert (Contains (n +:+ ("." +:+ a)) "-standby-" = false) as ->.
    { rewrite string_app_cons, string_app_nil_l, Contains_sep, !Contains_standby by done. done. }
    unfold parsePrimaryKey. rewrite (Split_two "."%char) by done. by subst.
Qed.

(** ** The ensemble of an identifier *)

Lemma cutLast_None s : cutLast s "_" = None ↔ Contains s "_" = false.
Proof.
  induction s as [|c s IH]; [done|]. cbn [cutLast Contains HasPrefix strip_prefix].
  destruct (cutLast s "_") as [[x y]|].
  - split; [done|]. rewrite orb_false_iff, <- IH. naive_solver.
  - rewrite (proj1 IH eq_refl), orb_false_r, andb_true_r. by case_bool_decide.
Qed.

Lemma cutLast_app e k :
  cutLast (e +:+ String "_"%char k) "_" =
  match cutLast k "_" with
  | None => Some (e, k)
  | Some (x, y) => Some (e +:+ String "_"%char x, y)
  end.
Proof.
  induction e as [|c e IH].
  - rewrite string_app_nil_l. cbn [cutLast]. destruct (cutLast k "_") as [[x y]|]; done.
  - rewrite string_app_cons. cbn [cutLast]. rewrite IH. by destruct (cutLast k "_") as [[x y]|].
Qed.

Section claims.

(** C36: identifiers with clean parts (no underscore in the ensemble, no dot and no [standby]
    in node and allocation, an index in range) read back: the text parses, in full and as a
    key of the manifest, to the normalised identifier, which is the identifier itself for a
    primary allocation and has the full name of the standby node as its node for a standby
    one; the normalised identifier has the same text. *)
Theorem AllocationID_roundtrip aid :
  clean aid →
  ParseAllocationID (AID_String aid) = Ok (normalised aid) ∧
  ParseManifestKey (ManifestKey aid) (aid_EnsembleID aid) = Ok (normalised aid) ∧
  AID_String (normalised aid) = AID_String aid.
Proof.
  intros Hc. pose proof (ParseManifestKey_ok aid Hc) as Hp. split_and!; [|done|].
  - rewrite AID_String_key. unfold ParseAllocationID. rewrite string_app_cons, string_app_nil_l.
    rewrite Cut_app by apply Hc. revert Hp. unfold ParseManifestKey.
    destruct (Contains (ManifestKey aid) "-standby-") eqn:Hs; [done|]. intros Hp.
    destruct (Contains (ManifestKey aid) "standby") eqn:Hs'; [|done]. exfalso. revert Hs Hs'.
    rewrite (ManifestKey_clean aid Hc). unfold normalised. destruct (aid_IsStandby aid).
    + simpl. unfold standbyName. rewrite <- !string_app_assoc. by rewrite Contains_standby_app.
    + intros _. rewrite string_app_cons, string_app_nil_l, Contains_sep by done.
      by rewrite (cl_node _ Hc), (cl_name _ Hc).
  - rewrite !AID_String_key, ManifestKey_normalised by done. unfold normalised. by destruct (aid_IsStandby aid).
Qed.

(** The ensemble an allocation is counted for is found only when the rest of
    its identifier has no underscore: [EnsembleIDFromAllocationID] cuts at the last
    underscore, [ParseAllocationID] at the first. *)
Theorem EnsembleIDFromAllocationID_iff e k :
  EnsembleIDFromAllocationID (ConstructAllocationID e k) = e ↔ Contains k "_" = false.
Proof.
  unfold EnsembleIDFromAllocationID, ConstructAllocationID.
  rewrite string_app_cons, string_app_nil_l, cutLast_app, <- cutLast_None.
  destruct (cutLast k "_") as [[x y]|]; [|done]. split; [|done]. intros H.
  apply (f_equal String.length) in H. rewrite string_length_app in H. simpl in H. lia.
Qed.

End claims.

Lemma AllocationID_roundtrip_witness :
  let aid := NewStandbyAllocationID "ens" "node1" "web" 2 in
  AID_String aid = "ens_node1-standby-2.web" ∧
  ParseAllocationID "ens_node1-standby-2.web" = Ok (mkAID "ens" "node1-standby-2" "web" true 2).
Proof.
  split; [reflexivity|].
  apply (AllocationID_roundtrip (NewStandbyAllocationID "ens" "node1" "web" 2)).
  split; try reflexivity. simpl. lia.
Defined.

(** The generators the node uses pass the validator. *)
Example default_generators_valid :
  ValidateAllocationIDGenerator = Ok () ∧ ValidateNodeIDGenerator = Ok ().
Proof. split; vm_compute; reflexivity. Qed.
