(* ===== verification/Hardware.v ===== *)
(** * Hardware and comparisons (types/comparison.go, comparator.go, utils.go, hardware.go)

    The quantities a machine offers and a job requires, their comparison and their
    arithmetic.  Sizes are uint64 and wrap; cores are float32 rounded to two
    decimals.  The Add and Subtract methods of the code update their receiver in
    place, also when they fail half way: here they return the updated receiver and
    the error. *)

From stdpp Require Import fin_maps.
From S2P Require Import Prelude GoNumbers.

(** ** Comparisons *)

Inductive Comparison := Worse | Better | Equal | NoComparison.

#[export] Instance Comparison_eq_dec : EqDecision Comparison.
Proof. solve_decision. Defined.

Definition And (c cmp : Comparison) : Comparison :=
  if bool_decide (c = cmp) then c
  else match c with
  | Equal =>
      match cmp with
      | Better => Better
      | Worse => Worse
      | Equal => Equal
      | NoComparison => NoComparison
      end
  | Better =>
      match cmp with
      | Worse => Worse
      | Equal => Better
      | _ => NoComparison
      end
  | Worse => Worse
  | NoComparison => NoComparison
  end.

(** [ComplexComparison.Result]; the values in the order the map is visited. *)
Definition ComplexComparison_Result (c : list Comparison) : Comparison :=
  fold_left And c Equal.

(** [NumericComparator] at an integer type and at float64. *)
Definition NumericComparator (l r : Z) : Comparison :=
  if (l =? r)%Z then Equal else if (l <? r)%Z then Worse else Better.
Definition FloatComparator (l r : float64) : Comparison :=
  if float_eq l r then Equal else if float_lt l r then Worse else Better.

Definition LiteralComparator (l r : string) : Comparison :=
  if bool_decide (l = r) then Equal else NoComparison.

(** ** CPU, RAM and disk

    The records hold the fields the operations read or write. *)

Record CPU := mkCPU { CPU_ClockSpeed : float64; CPU_Cores : float32; CPU_Architecture : string }.
Record RAM := mkRAM { RAM_Size : Z; RAM_ClockSpeed : Z }.
Record Disk := mkDisk { Disk_Size : Z }.

Inductive hw_error := ErrUnderflow | ErrNoGPU.

#[export] Instance hw_error_eq_dec : EqDecision hw_error.
Proof. solve_decision. Defined.

Definition CPU_Compare (c other : CPU) : Comparison :=
  let perfComparison :=
    FloatComparator (f64_mul (f64_of_f32 (CPU_Cores c)) (CPU_ClockSpeed c))
                    (f64_mul (f64_of_f32 (CPU_Cores other)) (CPU_ClockSpeed other)) in
  if bool_decide (LiteralComparator (CPU_Architecture c) (CPU_Architecture other) = Equal)
  then perfComparison else NoComparison.

Definition CPU_Add (c other : CPU) : CPU :=
  mkCPU (CPU_ClockSpeed c) (round2 (f32_add (CPU_Cores c) (CPU_Cores other))) (CPU_Architecture c).

Definition CPU_Subtract (c other : CPU) : CPU * option hw_error :=
  if float_lt (CPU_Cores c) (CPU_Cores other) then (c, Some ErrUnderflow)
  else (mkCPU (CPU_ClockSpeed c) (round2 (f32_sub (CPU_Cores c) (CPU_Cores other)))
          (CPU_Architecture c), None).

Definition RAM_Compare (r other : RAM) : Comparison := NumericComparator (RAM_Size r) (RAM_Size other).
Definition RAM_Add (r other : RAM) : RAM :=
  mkRAM (u64 (RAM_Size r + RAM_Size other)) (RAM_ClockSpeed r).
Definition RAM_Subtract (r other : RAM) : RAM * option hw_error :=
  if (RAM_Size r <? RAM_Size other)%Z then (r, Some ErrUnderflow)
  else (mkRAM (u64 (RAM_Size r - RAM_Size other)) (RAM_ClockSpeed r), None).

Definition Disk_Compare (d other : Disk) : Comparison := NumericComparator (Disk_Size d) (Disk_Size other).
Definition Disk_Add (d other : Disk) : Disk := mkDisk (u64 (Disk_Size d + Disk_Size other)).
Definition Disk_Subtract (d other : Disk) : Disk * option hw_error :=
  if (Disk_Size d <? Disk_Size other)%Z then (d, Some ErrUnderflow)
  else (mkDisk (u64 (Disk_Size d - Disk_Size other)), None).

(** ** GPUs *)

Record GPU := mkGPU {
  GPU_Index : Z;
  GPU_Vendor : string;
  GPU_PCIAddress : string;
  GPU_Model : string;
  GPU_VRAM : Z;
  GPU_Cores : Z;
  GPU_UUID : string
}.

#[export] Instance GPU_eq_dec : EqDecision GPU.
Proof. solve_decision. Defined.

Definition set_VRAM (g : GPU) (v : Z) : GPU :=
  mkGPU (GPU_Index g) (GPU_Vendor g) (GPU_PCIAddress g) (GPU_Model g) v (GPU_Cores g) (GPU_UUID g).

Definition GPU_Compare (g other : GPU) : Comparison :=
  if (GPU_VRAM other <? GPU_VRAM g)%Z then Better
  else if (GPU_VRAM g <? GPU_VRAM other)%Z then Worse
  else Equal.

Definition GPU_Add (g other : GPU) : GPU := set_VRAM g (u64 (GPU_VRAM g + GPU_VRAM other)).
Definition GPU_Subtract (g other : GPU) : GPU * option hw_error :=
  if (GPU_VRAM g <? GPU_VRAM other)%Z then (g, Some ErrUnderflow)
  else (set_VRAM g (u64 (GPU_VRAM g - GPU_VRAM other)), None).

Definition GPU_Equal (g other : GPU) : bool :=
  bool_decide (GPU_Model g = GPU_Model other) && (GPU_VRAM g =? GPU_VRAM other)%Z &&
  (GPU_Cores g =? GPU_Cores other)%Z && (GPU_Index g =? GPU_Index other)%Z &&
  bool_decide (GPU_Vendor g = GPU_Vendor other) && bool_decide (GPU_PCIAddress g = GPU_PCIAddress other).

Abbreviation GPUs := (list GPU) (only parsing).

(** [returnBestMatch]: the best comparison and its index, -1 when there is none. *)
Fixpoint bestMatchFrom (i : Z) (dimension : list Comparison) (best : Comparison * Z) : Comparison * Z :=
  match dimension with
  | [] => best
  | v :: rest =>
      match v with
      | Equal => (v, i)
      | Better =>
          bestMatchFrom (i + 1) rest (if bool_decide (best.1 = Better) then best else (Better, i))
      | Worse =>
          bestMatchFrom (i + 1) rest (if bool_decide (best.1 = NoComparison) then (Worse, i) else best)
      | NoComparison => bestMatchFrom (i + 1) rest best
      end
  end.
Definition returnBestMatch (dimension : list Comparison) : Comparison * Z :=
  bestMatchFrom 0 dimension (NoComparison, (-1)%Z).

(** [removeIndex]: drop a column. *)
Definition removeIndex (slice : list (list Comparison)) (index : Z) : list (list Comparison) :=
  map (λ c, if (index <? 0)%Z || (Z.of_nat (length c) <=? index)%Z then c
            else delete (Z.to_nat index) c) slice.

Definition SliceContainsOneValue (slice : list Comparison) (value : Comparison) : bool :=
  forallb (λ v, bool_decide (v = value)) slice.

(** The matching loop of [GPUs.Compare]; [n] rows remain. *)
Fixpoint matchLoop (n i : nat) (interim : list (list Comparison)) : list Comparison :=
  match n with
  | O => []
  | S n' =>
      match interim !! i with
      | None => []
      | Some c =>
          if (length c <? i)%nat then []
          else
            let '(bestMatch, index) := returnBestMatch c in
            bestMatch :: matchLoop n' (S i) (removeIndex interim index)
      end
  end.

Definition GPUs_Compare (gpus other : GPUs) : Comparison :=
  match gpus, other with
  | [], [] => Equal
  | [], _ :: _ => Worse
  | _ :: _, [] => Better
  | _, _ =>
      let interim := map (λ otherGPU, map (λ ownGPU, GPU_Compare ownGPU otherGPU) gpus) other in
      let final := matchLoop (length interim) 0 interim in
      if bool_decide (Worse ∈ final) then Worse
      else if SliceContainsOneValue final Equal then Equal
      else Better
  end.

(** The map of the other GPUs by index: a later GPU replaces an earlier one. *)
Definition gpusByIndex (other : GPUs) : gmap Z GPU :=
  fold_left (λ m g, <[GPU_Index g := g]> m) other ∅.

Definition GPUs_Add (gpus other : GPUs) : GPUs :=
  match other, gpus with
  | [], _ => gpus
  | _, [] => other
  | _, _ =>
      map (λ g, match gpusByIndex other !! GPU_Index g with Some o => GPU_Add g o | None => g end) gpus
  end.

(** The loop of [GPUs.Subtract] stops at the first underflow; the GPUs before it
    have been updated in place. *)
Fixpoint subtractLoop (others : gmap Z GPU) (gpus : GPUs) : GPUs * option hw_error :=
  match gpus with
  | [] => ([], None)
  | g :: rest =>
      match others !! GPU_Index g with
      | None => let '(rest', e) := subtractLoop others rest in (g :: rest', e)
      | Some o =>
          match GPU_Subtract g o with
          | (g', Some e) => (g' :: rest, Some e)
          | (g', None) => let '(rest', e) := subtractLoop others rest in (g' :: rest', e)
          end
      end
  end.
Definition GPUs_Subtract (gpus other : GPUs) : GPUs * option hw_error :=
  subtractLoop (gpusByIndex other) gpus.

(** [GPUs.Equal]: every GPU finds an unused equal one. *)
Fixpoint takeEqual (gpu : GPU) (other : list (GPU * bool)) : option (list (GPU * bool)) :=
  match other with
  | [] => None
  | (o, used) :: rest =>
      if negb used && GPU_Equal gpu o then Some ((o, true) :: rest)
      else match takeEqual gpu rest with Some rest' => Some ((o, used) :: rest') | None => None end
  end.
Fixpoint matchEqual (gpus : GPUs) (other : list (GPU * bool)) : bool :=
  match gpus with
  | [] => true
  | g :: rest => match takeEqual g other with Some other' => matchEqual rest other' | None => false end
  end.
Definition GPUs_Equal (gpus other : GPUs) : bool :=
  if negb (length gpus =? length other)%nat then false
  else matchEqual gpus (map (λ o, (o, false)) other).

(** [MaxFreeVRAMGPU] starts from the zero GPU. *)
Definition GPU_zero : GPU := mkGPU 0 "" "" "" 0 0 "".
Definition MaxFreeVRAMGPU (gpus : GPUs) : GPU + hw_error :=
  match gpus with
  | [] => inr ErrNoGPU
  | _ => inl (fold_left (λ best g, if (GPU_VRAM best <? GPU_VRAM g)%Z then g else best) gpus GPU_zero)
  end.

Definition GetWithIndex (gpus : GPUs) (index : Z) : GPU + hw_error :=
  match List.find (λ g, (GPU_Index g =? index)%Z) gpus with
  | Some g => inl g
  | None => inr ErrNoGPU
  end.
