(* ===== verification/ResourceManager.v ===== *)
(** * Resources and the resource manager (types/resources.go, dms/resources)

    [DefaultManager] keeps the onboarded resources of the machine, the resources
    committed to allocations that may start and the resources of the allocations
    that run.  The database is a parameter: its content is part of the state, and
    whether a call succeeds is an argument.

    Aliasing: the GPUs of a [Resources] value are a Go slice.  The value
    [GetFreeResources] computes with is a copy of the cached onboarded resources
    that shares the slice, so subtracting from it changes the cache; the model
    writes the GPUs back after every such subtraction, failed ones included. *)

From S2P Require Import Prelude GoNumbers Hardware.

(** ** Resources *)

Record Resources := mkResources {
  res_CPU : CPU;
  res_GPUs : list GPU;
  res_RAM : RAM;
  res_Disk : Disk
}.

Definition Resources_zero : Resources :=
  mkResources (mkCPU (SpecFloat.S754_zero false) (SpecFloat.S754_zero false) "") [] (mkRAM 0 0) (mkDisk 0).

Definition set_GPUs (r : Resources) (g : list GPU) : Resources :=
  mkResources (res_CPU r) g (res_RAM r) (res_Disk r).

Definition Resources_Compare (r other : Resources) : Comparison :=
  And (And (And (CPU_Compare (res_CPU r) (res_CPU other)) (RAM_Compare (res_RAM r) (res_RAM other)))
           (Disk_Compare (res_Disk r) (res_Disk other)))
      (GPUs_Compare (res_GPUs r) (res_GPUs other)).

Definition Resources_Equal (r other : Resources) : bool :=
  if negb (RAM_Size (res_RAM r) =? RAM_Size (res_RAM other))%Z then false
  else if negb (float_eq (CPU_Cores (res_CPU r)) (CPU_Cores (res_CPU other))) then false
  else if negb (Disk_Size (res_Disk r) =? Disk_Size (res_Disk other))%Z then false
  else if negb (GPUs_Equal (res_GPUs r) (res_GPUs other)) then false
  else true.

(** [Add] never fails: none of its parts does. *)
Definition Resources_Add (r other : Resources) : Resources :=
  mkResources (CPU_Add (res_CPU r) (res_CPU other)) (GPUs_Add (res_GPUs r) (res_GPUs other))
    (RAM_Add (res_RAM r) (res_RAM other)) (Disk_Add (res_Disk r) (res_Disk other)).

(** [Subtract] works through the parts and stops at the first underflow. *)
Definition Resources_Subtract (r other : Resources) : Resources * option hw_error :=
  match CPU_Subtract (res_CPU r) (res_CPU other) with
  | (cpu, Some e) => (mkResources cpu (res_GPUs r) (res_RAM r) (res_Disk r), Some e)
  | (cpu, None) =>
      match RAM_Subtract (res_RAM r) (res_RAM other) with
      | (ram, Some e) => (mkResources cpu (res_GPUs r) ram (res_Disk r), Some e)
      | (ram, None) =>
          match Disk_Subtract (res_Disk r) (res_Disk other) with
          | (disk, Some e) => (mkResources cpu (res_GPUs r) ram disk, Some e)
          | (disk, None) =>
              let '(gpus, e) := GPUs_Subtract (res_GPUs r) (res_GPUs other) in
              (mkResources cpu gpus ram disk, e)
          end
      end
  end.

(** ** The manager *)

Inductive rm_error :=
| ErrBadCommitment
| ErrResourcesAlreadyCommitted
| ErrResourcesNotCommitted
| ErrResourcesAlreadyAllocated
| ErrResourcesNotAllocated
| ErrNoFreeResources
| ErrHardware (e : hw_error)
| ErrDatabase.

#[export] Instance rm_error_eq_dec : EqDecision rm_error.
Proof. solve_decision. Defined.

(** The order in which a range visits the values of a map. *)
Class MapVisit := {
  visit {A : Type} : list A → list A;
  visit_perm {A : Type} (l : list A) : visit l ≡ₚ l
}.

Record Manager := mkManager {
  onboardedResources : option Resources;        (* the cache *)
  committedResources : gmap string Resources;
  allocations : gmap string Resources;
  db_onboarded : option Resources;
  db_allocations : gmap string Resources
}.

Definition set_onboarded (d : Manager) (r : Resources) : Manager :=
  mkManager (Some r) (committedResources d) (allocations d) (db_onboarded d) (db_allocations d).
Definition set_committed (d : Manager) (m : gmap string Resources) : Manager :=
  mkManager (onboardedResources d) m (allocations d) (db_onboarded d) (db_allocations d).

Definition NewResourceManager (onboarded : option Resources) (stored : gmap string Resources) : Manager :=
  mkManager None ∅ ∅ onboarded stored.

Definition IsCommitted (d : Manager) (allocationID : string) : bool :=
  bool_decide (is_Some (committedResources d !! allocationID)).
Definition IsAllocated (d : Manager) (allocationID : string) : bool :=
  bool_decide (is_Some (allocations d !! allocationID)).

Section manager.
  Context `{Visit : MapVisit}.

(** The sum of the resources of a map, added in the order the range visits it. *)
Definition sumResources (m : gmap string Resources) : Resources :=
  fold_left Resources_Add (visit (map snd (map_to_list m))) Resources_zero.

Definition GetTotalAllocation (d : Manager) : Resources := sumResources (allocations d).

(** The cached value, or the stored one, which is cached. *)
Definition GetOnboardedResources (d : Manager) : (Resources + rm_error) * Manager :=
  match onboardedResources d with
  | Some r => (inl r, d)
  | None =>
      match db_onboarded d with
      | None => (inr ErrDatabase, d)
      | Some r => (inl r, set_onboarded d r)
      end
  end.

(** Subtract from a copy of the onboarded resources that shares their GPUs. *)
Definition subtractShared (d : Manager) (onboarded free other : Resources)
    : Resources * option hw_error * Manager :=
  let '(free', e) := Resources_Subtract free other in
  (free', e, set_onboarded d (set_GPUs onboarded (res_GPUs free'))).

(** The end of [GetFreeResources]: subtract the totals read before. *)
Definition freeFrom (d : Manager) (onboarded totalAllocation committed : Resources)
    : (Resources + rm_error) * Manager :=
  match subtractShared d onboarded onboarded totalAllocation with
  | (_, Some e, d) => (inr (ErrHardware e), d)
  | (free, None, d) =>
      match subtractShared d onboarded free committed with
      | (_, Some e, d) => (inr (ErrHardware e), d)
      | (free, None, d) => (inl free, d)
      end
  end.

Definition GetFreeResources (d : Manager) : (Resources + rm_error) * Manager :=
  match GetOnboardedResources d with
  | (inr e, d) => (inr e, d)
  | (inl onboarded, d) =>
      let totalAllocation := GetTotalAllocation d in
      let committed := sumResources (committedResources d) in
      freeFrom d onboarded totalAllocation committed
  end.

Definition checkCapacity (d : Manager) (resources : Resources) : option rm_error * Manager :=
  match GetFreeResources d with
  | (inr e, d) => (Some e, d)
  | (inl free, d) =>
      match onboardedResources d with
      | None => (None, d)    (* not reached: the free resources were computed from the cache *)
      | Some onboarded =>
          match subtractShared d onboarded free resources with
          | (_, Some _, d) => (Some ErrNoFreeResources, d)
          | (_, None, d) => (None, d)
          end
      end
  end.

Definition CommitResources (d : Manager) (allocationID : string) (resources : Resources)
    : option rm_error * Manager :=
  if bool_decide (allocationID = "") then (Some ErrBadCommitment, d)
  else if IsCommitted d allocationID then (Some ErrResourcesAlreadyCommitted, d)
  else match checkCapacity d resources with
  | (Some e, d) => (Some e, d)
  | (None, d) => (None, set_committed d (<[allocationID := resources]> (committedResources d)))
  end.

Definition UncommitResources (d : Manager) (allocationID : string) : option rm_error * Manager :=
  if negb (IsCommitted d allocationID) then (Some ErrResourcesNotCommitted, d)
  else (None, set_committed d (delete allocationID (committedResources d))).

(** [storeAllocation]; [ok] is whether the database created the record. *)
Definition storeAllocation (d : Manager) (allocationID : string) (r : Resources) (ok : bool)
    : option rm_error * Manager :=
  if negb ok then (Some ErrDatabase, d)
  else (None, mkManager (onboardedResources d) (committedResources d)
                (<[allocationID := r]> (allocations d)) (db_onboarded d)
                (<[allocationID := r]> (db_allocations d))).

Definition AllocateResources (d : Manager) (allocationID : string) (ok : bool)
    : option rm_error * Manager :=
  match committedResources d !! allocationID with
  | None => (Some ErrResourcesNotCommitted, d)
  | Some r =>
      if IsAllocated d allocationID then (Some ErrResourcesAlreadyAllocated, d)
      else match storeAllocation d allocationID r ok with
      | (Some e, d) => (Some e, d)
      | (None, d) => (None, set_committed d (delete allocationID (committedResources d)))
      end
  end.

(** [deleteAllocation] finds the record first; [ok] is whether the database deleted
    it. *)
Definition deleteAllocation (d : Manager) (allocationID : string) (ok : bool)
    : option rm_error * Manager :=
  match db_allocations d !! allocationID with
  | None => (Some ErrDatabase, d)
  | Some _ =>
      if negb ok then (Some ErrDatabase, d)
      else (None, mkManager (onboardedResources d) (committedResources d)
                    (delete allocationID (allocations d)) (db_onboarded d)
                    (delete allocationID (db_allocations d)))
  end.

Definition DeallocateResources (d : Manager) (allocationID : string) (ok : bool)
    : option rm_error * Manager :=
  if negb (IsAllocated d allocationID) then (Some ErrResourcesNotAllocated, d)
  else deleteAllocation d allocationID ok.

(** [UpdateOnboardedResources]; [ok] is whether the database saved the record. *)
Definition UpdateOnboardedResources (d : Manager) (resources : Resources) (ok : bool)
    : option rm_error * Manager :=
  let totalAllocation := GetTotalAllocation d in
  match Resources_Subtract resources totalAllocation with
  | (_, Some e) => (Some (ErrHardware e), d)
  | (resources, None) =>
      if negb ok then (Some ErrDatabase, d)
      else (None, mkManager (Some resources) (committedResources d) (allocations d)
                    (Some resources) (db_allocations d))
  end.

End manager.
