(* ===== verification/Key.v ===== *)
(** * Keys and identities (lib/did/key.go, lib/crypto/key.go, lib/crypto/id.go)

    An actor's [ID] is the marshalled public key, a did:key DID its multibase
    encoding.  The cryptographic and encoding libraries are parameters, collected
    in [KeyLib]; byte strings are [string]. *)

From S2P Require Import Prelude GoStrings.

(** ** Decentralised identifiers (lib/did/did.go)

    A DID is a URI; equality and the map keys of the capability context
    compare the URI. *)

Record DID := mkDID { URI : string }.

#[export] Instance DID_eq_dec : EqDecision DID.
Proof. solve_decision. Defined.

#[export] Program Instance DID_countable : Countable DID :=
  inj_countable' URI mkDID _.
Next Obligation. by intros []. Qed.

Definition DID_empty : DID := mkDID "".

Definition DID_Equal (did other : DID) : bool := bool_decide (URI did = URI other).

Definition DID_Empty (did : DID) : bool := bool_decide (URI did = "").

Definition DID_String (did : DID) : string := URI did.

Definition Method (did : DID) : string :=
  match Split (URI did) ":" with
  | [_; m; _] => m
  | _ => ""
  end.

Definition Identifier (did : DID) : string :=
  match Split (URI did) ":" with
  | [_; _; i] => i
  | _ => ""
  end.

Inductive did_error := ErrInvalidDID.

Definition FromString (s : string) : outcome did_error DID :=
  if bool_decide (s = "") then Ok (mkDID s)
  else
    let parts := Split s ":" in
    if negb (bool_decide (length parts = 3)) then Err ErrInvalidDID
    else if existsb (λ part, bool_decide (part = "")) parts then Err ErrInvalidDID
    else Ok (mkDID s).

Lemma DID_Equal_eq d1 d2 : DID_Equal d1 d2 = true ↔ d1 = d2.
Proof.
  unfold DID_Equal. rewrite bool_decide_eq_true.
  destruct d1, d2; simpl. split; congruence.
Qed.

Lemma DID_Equal_refl d : DID_Equal d d = true.
Proof. by apply DID_Equal_eq. Qed.

Lemma DID_Empty_eq d : DID_Empty d = true ↔ d = DID_empty.
Proof.
  unfold DID_Empty. rewrite bool_decide_eq_true.
  destruct d; simpl. unfold DID_empty. split; congruence.
Qed.

#[export] Hint Resolve DID_Equal_refl : dms.

(** What the code takes from libp2p's crypto package, go-multibase and
    go-varint.  A failing call returns [None]; [KeyVerify] is [None] for an error
    and [Some false] for a signature that does not match. *)
Class KeyLib := {
  PubKey : Type;
  Raw : PubKey → option string;
  KeyType : PubKey → Z;
  KeyVerify : PubKey → string → string → option bool;
  MarshalPublicKey : PubKey → option string;
  UnmarshalPublicKey : string → option PubKey;
  UnmarshalEd25519PublicKey : string → option PubKey;
  UnmarshalSecp256k1PublicKey : string → option PubKey;
  UnmarshalEthPublicKey : string → option PubKey;
  UnmarshalCardanoPublicKey : string → option PubKey;
  Base58BTC : Z;
  mb_Encode : string → option string;
  mb_Decode : string → option (Z * string);
  PutUvarint : Z → string;
  FromUvarint : string → option (Z * nat)
}.

(** ** lib/crypto *)

Definition Ed25519 : Z := 1.
Definition Secp256k1 : Z := 2.
Definition Eth : Z := 127.
Definition Cardano : Z := 128.

Definition AllowedKey (t : Z) : bool :=
  if bool_decide (t = Ed25519) then true
  else if bool_decide (t = Secp256k1) then true
  else false.

(** [crypto.ID] wraps the bytes of the key. *)
Abbreviation ID := string (only parsing).
Definition ID_Equal (i o : ID) : bool := bool_decide (i = o).
Definition ID_Empty (i : ID) : bool := (String.length i =? 0)%nat.

Definition IDFromPublicKey `{KeyLib} (k : PubKey) : option ID := MarshalPublicKey k.
Definition PublicKeyFromID `{KeyLib} (id : ID) : option PubKey := UnmarshalPublicKey id.

(** ** lib/did/key.go *)

Definition multicodecKindEd25519PubKey : Z := 0xed.
Definition multicodecKindSecp256k1PubKey : Z := 0xe7.
Definition multicodecKindEthPubKey : Z := 0xef01.
Definition multicodecKindCardanoPubKey : Z := 0xef02.
Definition keyPrefix : string := "did:key".

(** The multicodec of a key type; [None] for the types without one. *)
Definition multicodecKind (t : Z) : option Z :=
  if bool_decide (t = Ed25519) then Some multicodecKindEd25519PubKey
  else if bool_decide (t = Secp256k1) then Some multicodecKindSecp256k1PubKey
  else if bool_decide (t = Eth) then Some multicodecKindEthPubKey
  else if bool_decide (t = Cardano) then Some multicodecKindCardanoPubKey
  else None.

Definition FormatKeyURI `{KeyLib} (pubk : PubKey) : string :=
  match Raw pubk with
  | None => ""
  | Some raw =>
      match multicodecKind (KeyType pubk) with
      | None => ""
      | Some t =>
          match mb_Encode (PutUvarint t +:+ raw) with
          | None => ""
          | Some b58BKeyStr => keyPrefix +:+ (":" +:+ b58BKeyStr)
          end
      end
  end.

Definition ParseKeyURI `{KeyLib} (uri : string) : option PubKey :=
  if negb (HasPrefix uri keyPrefix) then None
  else
    match mb_Decode (TrimPrefix uri (keyPrefix +:+ ":")) with
    | None => None
    | Some (enc, data) =>
        if negb (bool_decide (enc = Base58BTC)) then None
        else
          match FromUvarint data with
          | None => None
          | Some (keyType, n) =>
              let data := string_drop n data in
              if bool_decide (keyType = multicodecKindEd25519PubKey)
              then UnmarshalEd25519PublicKey data
              else if bool_decide (keyType = multicodecKindSecp256k1PubKey)
              then UnmarshalSecp256k1PublicKey data
              else if bool_decide (keyType = multicodecKindCardanoPubKey)
              then UnmarshalCardanoPublicKey data
              else if bool_decide (keyType = multicodecKindEthPubKey)
              then UnmarshalEthPublicKey data
              else None
          end
    end.

Definition FromPublicKey `{KeyLib} (pubk : PubKey) : DID := mkDID (FormatKeyURI pubk).

Definition FromID `{KeyLib} (id : ID) : option DID :=
  match PublicKeyFromID id with
  | None => None
  | Some pubk => Some (FromPublicKey pubk)
  end.

Definition PublicKeyFromDID `{KeyLib} (did : DID) : option PubKey :=
  if negb (bool_decide (Method did = "key")) then None else ParseKeyURI (URI did).

(** [PublicKeyAnchor.Verify]: no error, exactly for a matching signature. *)
Definition PublicKeyAnchor_Verify `{KeyLib} (pubk : PubKey) (data sig : string) : bool :=
  match KeyVerify pubk data sig with
  | None => false
  | Some ok => ok
  end.

(** ** Round trip *)

Section roundtrip.
  Context `{KeyLib}.

(** The unmarshaller of a key type. *)
Definition UnmarshalAs (t : Z) (raw : string) : option PubKey :=
  if bool_decide (t = Ed25519) then UnmarshalEd25519PublicKey raw
  else if bool_decide (t = Secp256k1) then UnmarshalSecp256k1PublicKey raw
  else if bool_decide (t = Eth) then UnmarshalEthPublicKey raw
  else UnmarshalCardanoPublicKey raw.

(** The documented laws of the libraries: multibase decodes what it encodes, into
    text of the base58 alphabet; the varint of a multicodec is read back with its
    length; a raw key is unmarshalled to the key. *)
Record KeyLaws : Prop := {
  law_multibase d s : mb_Encode d = Some s → mb_Decode s = Some (Base58BTC, d);
  law_alphabet d s : mb_Encode d = Some s → Contains s ":" = false;
  law_varint kt t rest : multicodecKind kt = Some t →
    FromUvarint (PutUvarint t +:+ rest) = Some (t, String.length (PutUvarint t));
  law_raw k raw : Raw k = Some raw → UnmarshalAs (KeyType k) raw = Some k
}.

Lemma FormatKeyURI_inv k :
  FormatKeyURI k ≠ "" →
  ∃ raw t s, Raw k = Some raw ∧ multicodecKind (KeyType k) = Some t ∧
    mb_Encode (PutUvarint t +:+ raw) = Some s ∧ FormatKeyURI k = keyPrefix +:+ (":" +:+ s).
Proof.
  unfold FormatKeyURI. destruct (Raw k) as [raw|] eqn:Hr; [|done].
  destruct (multicodecKind (KeyType k)) as [t|] eqn:Ht; [|done].
  destruct (mb_Encode _) as [s|] eqn:Hs; [|done]. naive_solver.
Qed.

Lemma ParseKeyURI_FormatKeyURI k :
  KeyLaws → FormatKeyURI k ≠ "" → ParseKeyURI (FormatKeyURI k) = Some k.
Proof.
  intros Hlaws Hne. destruct (FormatKeyURI_inv _ Hne) as (raw & t & s & Hr & Ht & Hs & ->).
  unfold ParseKeyURI. assert (HasPrefix (keyPrefix +:+ (":" +:+ s)) keyPrefix = true) as ->.
  { apply HasPrefix_spec. eauto. }
  cbn [negb]. rewrite string_app_assoc, TrimPrefix_app, (law_multibase Hlaws _ _ Hs).
  rewrite bool_decide_true by done. cbn [negb].
  rewrite (law_varint Hlaws _ _ _ Ht), string_drop_app.
  rewrite <- (law_raw Hlaws _ _ Hr). unfold UnmarshalAs, multicodecKind in *.
  repeat (case_bool_decide; simplify_eq; try done).
Qed.

Lemma Method_key k : KeyLaws → FormatKeyURI k ≠ "" → Method (FromPublicKey k) = "key".
Proof.
  intros Hlaws Hne. destruct (FormatKeyURI_inv _ Hne) as (raw & t & s & _ & _ & Hs & Hu).
  unfold Method, FromPublicKey. cbn [URI]. rewrite Hu.
  assert (keyPrefix +:+ (":" +:+ s) = "did" +:+ (":" +:+ ("key" +:+ (":" +:+ s)))) as -> by done.
  rewrite !Split_app by done. by rewrite Split_none by (by eapply law_alphabet).
Qed.

(** A did:key names one key: a key whose type has a multicodec is recovered
    from its DID, so two such keys never share a DID. *)
Theorem did_key_identifies k :
  KeyLaws → FormatKeyURI k ≠ "" →
  PublicKeyFromDID (FromPublicKey k) = Some k ∧
  ∀ k', FromPublicKey k' = FromPublicKey k → k' = k.
Proof.
  intros Hlaws Hne. unfold PublicKeyFromDID. rewrite bool_decide_true by (by apply Method_key).
  split; [by apply ParseKeyURI_FormatKeyURI|]. intros k' [= Heq].
  pose proof (ParseKeyURI_FormatKeyURI k Hlaws Hne) as Hk. rewrite <- Heq in Hk, Hne.
  rewrite (ParseKeyURI_FormatKeyURI k' Hlaws Hne) in Hk. congruence.
Qed.

(** A key of any other type has the empty DID, and [FromID] reports no error. *)
Theorem FromID_unsupported id k :
  PublicKeyFromID id = Some k → multicodecKind (KeyType k) = None → FromID id = Some DID_empty.
Proof.
  unfold FromID, FromPublicKey, FormatKeyURI. intros -> ->. by destruct (Raw k).
Qed.

End roundtrip.

(** ** A toy key library for the witnesses: a key is its own encoding. *)

Definition toy_varint (t : Z) : string :=
  if bool_decide (t = multicodecKindEd25519PubKey) then "a"
  else if bool_decide (t = multicodecKindSecp256k1PubKey) then "b"
  else if bool_decide (t = multicodecKindEthPubKey) then "c" else "d".

Definition toy_unvarint (s : string) : option (Z * nat) :=
  if HasPrefix s "a" then Some (multicodecKindEd25519PubKey, 1)
  else if HasPrefix s "b" then Some (multicodecKindSecp256k1PubKey, 1)
  else if HasPrefix s "c" then Some (multicodecKindEthPubKey, 1)
  else if HasPrefix s "d" then Some (multicodecKindCardanoPubKey, 1)
  else None.

Definition toy_keys : KeyLib := {|
  PubKey := string;
  Raw := Some;
  KeyType _ := Ed25519;
  KeyVerify k data sig := Some (bool_decide (sig = k +:+ data));
  MarshalPublicKey := Some;
  UnmarshalPublicKey := Some;
  UnmarshalEd25519PublicKey := Some;
  UnmarshalSecp256k1PublicKey := Some;
  UnmarshalEthPublicKey := Some;
  UnmarshalCardanoPublicKey := Some;
  Base58BTC := 122;
  mb_Encode d := if Contains d ":" then None else Some d;
  mb_Decode s := Some (122%Z, s);
  PutUvarint := toy_varint;
  FromUvarint := toy_unvarint
|}.

Lemma toy_keys_laws : @KeyLaws toy_keys.
Proof.
  split; cbn.
  - intros d s. destruct (Contains d ":") eqn:E; intros [= <-]. done.
  - intros d s. destruct (Contains d ":") eqn:E; intros [= <-]. done.
  - intros kt t rest. unfold multicodecKind, toy_varint.
    repeat case_bool_decide; intros [= <-]; try done; simplify_eq.
  - intros k raw [= <-]. done.
Qed.

Lemma did_key_identifies_witness :
  @PublicKeyFromDID toy_keys (@FromPublicKey toy_keys "alice") = Some "alice" ∧
  ∀ k', @FromPublicKey toy_keys k' = @FromPublicKey toy_keys "alice" → k' = "alice".
Proof.
  apply (@did_key_identifies toy_keys "alice"); [exact toy_keys_laws|]. vm_compute. discriminate.
Defined.
