(* ===== verification/Capability.v ===== *)
(** * Capabilities (lib/ucan/cap.go)

    A capability is a path; it implies itself and every path below it, and the
    root path implies everything. *)

From S2P Require Import Prelude GoStrings.

Abbreviation Capability := string (only parsing).

Definition Root : Capability := "/".

Definition Implies (c other : Capability) : bool :=
  (bool_decide (c = other) || bool_decide (c = Root)) || HasPrefix other (c +:+ "/").

(** ** The order of capabilities *)

Lemma Implies_spec c o :
  Implies c o = true ↔ c = o ∨ c = Root ∨ ∃ r, o = c +:+ ("/" +:+ r).
Proof.
  unfold Implies. rewrite !orb_true_iff, !bool_decide_eq_true, HasPrefix_spec.
  setoid_rewrite <- string_app_assoc. tauto.
Qed.

Lemma Implies_refl c : Implies c c = true.
Proof. rewrite Implies_spec. auto. Qed.

Lemma Implies_Root c : Implies Root c = true.
Proof. rewrite Implies_spec. auto. Qed.

Lemma app_slash_inj_Root c r : Root = c +:+ ("/" +:+ r) → c = "".
Proof.
  intros H. apply (f_equal String.length) in H.
  rewrite !string_length_app in H. destruct c; simpl in H; [done|lia].
Qed.

Lemma Implies_above_Root c : Implies c Root = true → c ≠ "" → c = Root.
Proof.
  rewrite Implies_spec. intros [->|[->|[r Hr]]] Hne; auto.
  by apply app_slash_inj_Root in Hr.
Qed.

Lemma Implies_trans a b c :
  a ≠ "" → Implies a b = true → Implies b c = true → Implies a c = true.
Proof.
  intros Hne Hab Hbc. rewrite Implies_spec in *.
  destruct Hab as [->|[->|[r ->]]]; [done|auto|].
  destruct Hbc as [<-|[Hroot|[r' ->]]].
  - eauto.
  - symmetry in Hroot. by apply app_slash_inj_Root in Hroot.
  - right; right. exists (r +:+ ("/" +:+ r')). by rewrite !string_app_assoc.
Qed.

Lemma Implies_length a b :
  Implies a b = true → a = b ∨ a = Root ∨ String.length a < String.length b.
Proof.
  rewrite Implies_spec. intros [?|[?|[r ->]]]; auto.
  right; right. rewrite !string_length_app. simpl. lia.
Qed.

Lemma Implies_antisym a b :
  a ≠ "" → b ≠ "" → Implies a b = true → Implies b a = true → a = b.
Proof.
  intros Ha Hb Hab Hba.
  destruct (Implies_length _ _ Hab) as [?|[->|H1]]; auto.
  { symmetry. by apply Implies_above_Root. }
  destruct (Implies_length _ _ Hba) as [?|[->|H2]]; auto; [|lia].
  by apply Implies_above_Root.
Qed.

#[export] Hint Resolve Implies_refl Implies_Root : dms.

Lemma slash_split a b r r' :
  a +:+ ("/" +:+ r) = b +:+ ("/" +:+ r') →
  a = b ∨ (∃ x, b = a +:+ ("/" +:+ x)) ∨ (∃ x, a = b +:+ ("/" +:+ x)).
Proof.
  revert b. induction a as [|ch a IH]; intros [|ch' b];
    rewrite ?string_app_nil_l, ?string_app_cons; intros Heq; [by left| | |].
  - injection Heq as <- _. right; left. exists b. by rewrite !string_app_nil_l.
  - injection Heq as -> _. right; right. exists a. by rewrite !string_app_nil_l.
  - injection Heq as -> Heq. destruct (IH _ Heq) as [->|[[x ->]|[x ->]]]; [by left|right; left|right; right];
      exists x; by rewrite !string_app_cons, ?string_app_nil_l, ?string_app_cons.
Qed.

Lemma Implies_directed a b c :
  Implies a c = true → Implies b c = true → Implies a b = true ∨ Implies b a = true.
Proof.
  rewrite !Implies_spec. intros [->|[->|[r ->]]] [Hb|[->|[r' Hb]]]; eauto 10.
  destruct (slash_split _ _ _ _ Hb) as [->|[?|?]]; eauto 10.
Qed.

(** The non-empty capabilities form a forest ordered by [Implies]: it is a
    partial order with [Root] on top, and the capabilities above any one of
    them are totally ordered, so a grant covers exactly a path subtree. *)
Theorem Implies_forest a b c :
  a ≠ "" → b ≠ "" →
  Implies Root a = true ∧ Implies a a = true ∧
  (Implies a b = true → Implies b a = true → a = b) ∧
  (Implies a b = true → Implies b c = true → Implies a c = true) ∧
  (Implies a c = true → Implies b c = true → Implies a b = true ∨ Implies b a = true).
Proof.
  intros Ha Hb. split_and!; auto with dms;
    eauto using Implies_antisym, Implies_trans, Implies_directed.
Qed.

Lemma Implies_forest_witness :
  Implies "/dms" "/dms/node" = true ∧ Implies "/dms" "/dms/node/peers" = true ∧
  Implies "/dms" "/dmsx" = false.
Proof.
  split; [vm_compute; reflexivity|]. split; [|vm_compute; reflexivity].
  apply (Implies_forest "/dms" "/dms/node" "/dms/node/peers"); [discriminate|discriminate|..];
    vm_compute; reflexivity.
Defined.
