(* ===== verification/Token.v ===== *)
(** * Capability tokens (lib/ucan/token.go)

    A token is an envelope around a DMS token; a DMS token is signed by its
    issuer, names a subject and an audience, carries capabilities and may be
    chained to the token it was delegated from.  This file holds the data, the
    accessors, the permission tests, verification, delegation and the set of
    revocations. *)

From S2P Require Import Prelude GoStrings Key Capability.

(** Byte slices are byte strings. *)
Abbreviation bytes := string (only parsing).

(** The sentinel errors of lib/ucan/errors.go and the root causes that come
    from the components the package calls. *)
Inductive ucan_error :=
| ErrNotAuthorized
| ErrCapabilityExpired
| ErrBadToken
| ErrTooBig
| ErrBadContext
| ErrAnchor      (* did.TrustContext.GetAnchor failed *)
| ErrNoProvider  (* did.TrustContext.GetProvider failed *)
| ErrMarshal     (* json.Marshal failed *)
| ErrUnmarshal   (* json.Unmarshal failed *)
| ErrSignature   (* did.Anchor.Verify rejected the signature *)
| ErrSign        (* did.Provider.Sign failed *)
| ErrNonce       (* crypto/rand.Read failed *)
| ErrDID.        (* did.FromID failed *)

#[export] Instance ucan_error_eq_dec : EqDecision ucan_error.
Proof. solve_decision. Defined.

(** [Action] is a string type with four named values; a decoded token may carry
    any other string. *)
Abbreviation Action := string (only parsing).
Definition ActInvoke : Action := "invoke".
Definition ActDelegate : Action := "delegate".
Definition ActBroadcast : Action := "broadcast".
Definition ActRevoke : Action := "revoke".

Definition nonceLength : nat := 12.

Inductive BYOToken := mkBYOToken.

Inductive Token : Type := mkToken {
  DMS : option DMSToken;
  UCAN : option BYOToken
}
with DMSToken : Type := mkDMSToken {
  act : string;
  Issuer : DID;
  Subject : DID;
  Audience : DID;
  Topic : list string;
  Caps : list string;
  Nonce : string;
  Expire : Z;
  Depth : Z;
  Chain : option Token;
  Signature : string
}.

#[export] Instance BYOToken_eq_dec : EqDecision BYOToken.
Proof. solve_decision. Defined.

#[export] Instance Token_eq_dec : EqDecision Token.
Proof.
  refine (fix T (x y : Token) : {x = y} + {x ≠ y} := _
          with D (x y : DMSToken) : {x = y} + {x ≠ y} := _ for T).
  - destruct x as [[d|] u], y as [[d'|] u']; try (right; congruence);
      [destruct (D d d'); [|right; congruence]|];
      clear T D; destruct (decide (u = u')); [left|right|left|right]; congruence.
  - destruct x as [a i s au tp cp n e dp [c|] sg], y as [a' i' s' au' tp' cp' n' e' dp' [c'|] sg'];
      try (right; congruence); [destruct (T c c'); [|right; congruence]|]; clear T D;
      destruct (decide ((a,i,s,au,tp,cp,n,e,dp,sg) = (a',i',s',au',tp',cp',n',e',dp',sg')));
      [left|right|left|right]; congruence.
Defined.

Definition DMS_set_signature (t : DMSToken) (sig : bytes) : DMSToken :=
  mkDMSToken (act t) (Issuer t) (Subject t) (Audience t) (Topic t) (Caps t)
    (Nonce t) (Expire t) (Depth t) (Chain t) sig.

(** ** Accessors: a token that is not a DMS token has the zero values. *)

Definition Token_Issuer (t : Token) : DID :=
  match DMS t with Some d => Issuer d | None => DID_empty end.
Definition Token_Subject (t : Token) : DID :=
  match DMS t with Some d => Subject d | None => DID_empty end.
Definition Token_Audience (t : Token) : DID :=
  match DMS t with Some d => Audience d | None => DID_empty end.
Definition Token_Capability (t : Token) : list Capability :=
  match DMS t with Some d => Caps d | None => [] end.
Definition Token_Topic (t : Token) : list Capability :=
  match DMS t with Some d => Topic d | None => [] end.
Definition Token_Expire (t : Token) : Z :=
  match DMS t with Some d => Expire d | None => 0 end.
Definition Token_Expiry (t : Token) : Z :=
  match DMS t with Some d => Expire d | None => 0 end.
Definition Token_Nonce (t : Token) : bytes :=
  match DMS t with Some d => Nonce d | None => "" end.
Definition Token_Action (t : Token) : Action :=
  match DMS t with Some d => act d | None => "" end.

(** ** The set of revocations *)

Definition DMS_RevocationKey (t : DMSToken) : string :=
  DID_String (Issuer t) +:+ ("#" +:+ (DID_String (Subject t) +:+ ("#" +:+ Nonce t))).

Definition Token_RevocationKey (t : Token) : string :=
  match DMS t with Some d => DMS_RevocationKey d | None => "" end.

Abbreviation RevocationSet := (gmap string Token) (only parsing).

Definition Revoked (r : RevocationSet) (key : string) : bool :=
  bool_decide (is_Some (r !! key)).

Definition RevocationSet_Revoke (r : RevocationSet) (t : Token) : RevocationSet :=
  <[Token_RevocationKey t := t]> r.

Definition DMS_Revoked (t : DMSToken) (revoke : RevocationSet) : bool :=
  Revoked revoke (DMS_RevocationKey t).

(** ** Expiry: a token expires before a deadline when it, or any token of its
    chain, does. *)

Fixpoint Token_ExpireBefore (t : Token) (deadline : Z) : bool :=
  match DMS t with
  | Some d => DMS_ExpireBefore d deadline
  | None => true
  end
with DMS_ExpireBefore (t : DMSToken) (deadline : Z) : bool :=
  if (Expire t <? deadline)%Z then true
  else match Chain t with Some c => Token_ExpireBefore c deadline | None => false end.

(** [time.Now] is the argument [now], in nanoseconds. *)
Definition Token_Expired (t : Token) (now : Z) : bool := Token_ExpireBefore t now.

Definition RevocationSet_List (r : RevocationSet) (now : Z) : list Token :=
  List.filter (λ t, negb (Token_ExpireBefore t now)) (map snd (map_to_list r)).

Definition RevocationSet_gc (r : RevocationSet) (now : Z) : RevocationSet :=
  base.filter (λ kt : string * Token, Token_ExpireBefore kt.2 now = false) r.

(** ** Anchors *)

Fixpoint Token_Anchor (t : Token) (anchor : DID) : bool :=
  match DMS t with Some d => DMS_Anchor d anchor | None => false end
with DMS_Anchor (t : DMSToken) (anchor : DID) : bool :=
  if DID_Equal (Issuer t) anchor then true
  else match Chain t with Some c => Token_Anchor c anchor | None => false end.

Fixpoint Token_AnchorDepth (t : Token) (anchor : DID) : Z * bool :=
  match DMS t with Some d => DMS_AnchorDepth d anchor | None => (0%Z, false) end
with DMS_AnchorDepth (t : DMSToken) (anchor : DID) : Z * bool :=
  let own := (0%Z, DID_Equal (Issuer t) anchor) in
  match Chain t with
  | Some c =>
      let '(chainDepth, chainHave) := Token_AnchorDepth c anchor in
      if chainHave then (u64 (chainDepth + 1), true) else own
  | None => own
  end.

Fixpoint Token_SelfSigned (t : Token) (origin : DID) : bool :=
  match DMS t with Some d => DMS_SelfSigned d origin | None => false end
with DMS_SelfSigned (t : DMSToken) (origin : DID) : bool :=
  match Chain t with
  | Some c => Token_SelfSigned c origin
  | None => DID_Equal (Issuer t) origin
  end.

(** ** Permissions *)

(** Some element of [granted] implies [c]: the inner loops of the checks. *)
Definition any_implies (granted : list Capability) (c : Capability) : bool :=
  existsb (λ g, Implies g c) granted.

Fixpoint Token_verifyDepth (t : Token) (depth : Z) : bool :=
  match DMS t with Some d => DMS_verifyDepth d depth | None => false end
with DMS_verifyDepth (t : DMSToken) (depth : Z) : bool :=
  if (0 <? Depth t)%Z && (Depth t <? depth)%Z then false
  else match Chain t with
       | Some c => Token_verifyDepth c (u64 (depth + 1))
       | None => true
       end.

Definition DMS_allowDelegation (t : DMSToken) (issuer audience : DID)
    (topics : list Capability) (expire : Z) (c : Capability) : bool :=
  if negb (bool_decide (act t = ActDelegate)) then false
  else if DMS_ExpireBefore t expire then false
  else if negb (DID_Equal (Subject t) issuer) then false
  else if negb (DID_Empty (Audience t)) && negb (DID_Equal (Audience t) audience)
  then false
  else if negb (forallb (any_implies (Topic t)) topics) then false
  else any_implies (Caps t) c.

Definition Token_allowDelegation (t : Token) (issuer audience : DID)
    (topics : list Capability) (expire : Z) (c : Capability) : bool :=
  match DMS t with
  | Some d => DMS_allowDelegation d issuer audience topics expire c
  | None => false
  end.

Definition DMS_AllowDelegation (t : DMSToken) (action : Action) (issuer audience : DID)
    (topics : list Capability) (expire : Z) (c : Capability) : bool :=
  if bool_decide (action = ActDelegate) then
    if negb (DMS_verifyDepth t 2) then false
    else DMS_allowDelegation t issuer audience topics expire c
  else
    if negb (DMS_verifyDepth t 1) then false
    else DMS_allowDelegation t issuer audience topics expire c.

Definition Token_AllowDelegation (t : Token) (action : Action) (issuer audience : DID)
    (topics : list Capability) (expire : Z) (c : Capability) : bool :=
  match DMS t with
  | Some d => DMS_AllowDelegation d action issuer audience topics expire c
  | None => false
  end.

Definition DMS_AllowInvocation (t : DMSToken) (subject audience : DID) (c : Capability) : bool :=
  if negb (bool_decide (act t = ActInvoke)) then false
  else if negb (DID_Equal (Subject t) subject) then false
  else if negb (DID_Empty (Audience t)) && negb (DID_Equal (Audience t) audience)
  then false
  else any_implies (Caps t) c.

Definition Token_AllowInvocation (t : Token) (subject audience : DID) (c : Capability) : bool :=
  match DMS t with Some d => DMS_AllowInvocation d subject audience c | None => false end.

Definition DMS_AllowBroadcast (t : DMSToken) (subject : DID) (topic c : Capability) : bool :=
  if negb (bool_decide (act t = ActBroadcast)) then false
  else if negb (DID_Equal (Subject t) subject) then false
  else if negb (DID_Empty (Audience t)) then false
  else if negb (any_implies (Topic t) topic) then false
  else any_implies (Caps t) c.

Definition Token_AllowBroadcast (t : Token) (subject : DID) (topic c : Capability) : bool :=
  match DMS t with Some d => DMS_AllowBroadcast d subject topic c | None => false end.

Definition DMS_AllowAction (t : DMSToken) (ot : Token) : bool :=
  if negb (bool_decide (act t = ActDelegate)) then false
  else if DMS_ExpireBefore t (Token_Expire ot) then false
  else if negb (Token_Anchor ot (Subject t)) then false
  else if (0 <? Depth t)%Z &&
          (let '(depth, ok) := Token_AnchorDepth ot (Subject t) in
           ok && (Depth t <? depth)%Z)
  then false
  else if negb (DID_Empty (Audience t)) && negb (DID_Equal (Audience t) (Token_Audience ot))
  then false
  else if negb (forallb (any_implies (Caps t)) (Token_Capability ot)) then false
  else if negb (forallb (any_implies (Topic t)) (Token_Topic ot)) then false
  else true.

Definition Token_AllowAction (t ot : Token) : bool :=
  match DMS t with Some d => DMS_AllowAction d ot | None => false end.

Fixpoint Token_Subsumes (t ot : Token) : bool :=
  match DMS t with Some d => DMS_Subsumes d ot | None => false end
with DMS_Subsumes (t : DMSToken) (ot : Token) : bool :=
  if DID_Equal (Issuer t) (Token_Issuer ot) && DID_Equal (Subject t) (Token_Subject ot) &&
     DID_Equal (Audience t) (Token_Audience ot) && (Token_Expire ot <=? Expire t)%Z
  then
    let otChain := match DMS ot with Some od => Chain od | None => None end in
    let chains_ok :=
      match Chain t, otChain with
      | Some c, Some oc => Token_Subsumes c oc
      | None, None => true
      | _, _ => false
      end in
    if negb chains_ok then false
    else forallb (any_implies (Caps t)) (Token_Capability ot)
  else false.

(** ** Verification and delegation

    [encoding/json] and the trust context are parameters: [marshal_dms] is
    [json.Marshal] on a DMS token, [GetAnchor] resolves a DID to the signature
    check of its anchor. *)

Class TokenCodec := {
  marshal_dms : DMSToken → option bytes
}.

Record TrustContext := mkTrust {
  GetAnchor : DID → option (bytes → bytes → bool)
}.

(** What a context needs of [did.Provider]: its DID and its signature. *)
Record Provider := mkProvider {
  Provider_DID : DID;
  Sign : bytes → option bytes
}.

Definition signaturePrefix : bytes := "dms:token:".

Section verification.
  Context `{Codec : TokenCodec}.

(** [SignatureData] returns the bytes to sign, or an error. *)
Definition DMS_SignatureData (t : DMSToken) : bytes + ucan_error :=
  match marshal_dms (DMS_set_signature t "") with
  | Some data => inl (signaturePrefix +:+ data)
  | None => inr ErrMarshal
  end.

Definition Token_SignatureData (t : Token) : bytes + ucan_error :=
  match DMS t with Some d => DMS_SignatureData d | None => inr ErrBadToken end.

Definition Token_Size (t : Token) : nat :=
  match Token_SignatureData t with inl data => String.length data | inr _ => 0 end.

(** The end of [verify]: the anchor of the issuer accepts the signature. *)
Definition DMS_verifySignature (trust : TrustContext) (t : DMSToken) : option ucan_error :=
  match GetAnchor trust (Issuer t) with
  | None => Some ErrAnchor
  | Some anchor_verify =>
      match DMS_SignatureData t with
      | inl data => if anchor_verify data (Signature t) then None else Some ErrSignature
      | inr e => Some e
      end
  end.

(** The loop of [verify] that strikes the capabilities the chain allows from
    the ones still needed. *)
Fixpoint strikeAllowed (allow : Capability → bool) (caps need : list Capability)
    : list Capability :=
  match caps with
  | [] => need
  | c :: caps' =>
      if allow c then
        let need' := List.filter (λ oc, negb (bool_decide (c = oc))) need in
        if bool_decide (need' = []) then need' else strikeAllowed allow caps' need'
      else strikeAllowed allow caps' need
  end.

Fixpoint Token_verify (trust : TrustContext) (t : Token) (now depth : Z)
    (revoke : RevocationSet) {struct t} : option ucan_error :=
  match DMS t with
  | Some d => DMS_verify trust d now depth revoke
  | None => Some ErrBadToken
  end
with DMS_verify (trust : TrustContext) (t : DMSToken) (now depth : Z)
    (revoke : RevocationSet) {struct t} : option ucan_error :=
  if DMS_ExpireBefore t now then Some ErrCapabilityExpired
  else if bool_decide (act t = ActRevoke) then DMS_verifySignature trust t
  else if (0 <? Depth t)%Z && (Depth t <? depth)%Z then Some ErrNotAuthorized
  else if DMS_Revoked t revoke then Some ErrNotAuthorized
  else
    let chain_error :=
      match Chain t with
      | None => None
      | Some c =>
          if negb (bool_decide (Token_Action c = ActDelegate)) then Some ErrNotAuthorized
          else if Token_ExpireBefore c (Expire t) then Some ErrCapabilityExpired
          else
            match Token_verify trust c now (u64 (depth + 1)) revoke with
            | Some e => Some e
            | None =>
                if negb (DID_Equal (Issuer t) (Token_Subject c)) then Some ErrNotAuthorized
                else
                  let allow := Token_allowDelegation c (Issuer t) (Audience t) (Topic t) (Expire t) in
                  let needCapability := strikeAllowed allow (Caps t) (Caps t) in
                  if bool_decide (needCapability = []) then None else Some ErrNotAuthorized
            end
      end in
    match chain_error with
    | Some e => Some e
    | None => DMS_verifySignature trust t
    end.

Definition Token_Verify (trust : TrustContext) (t : Token) (now : Z)
    (revoke : RevocationSet) : option ucan_error :=
  Token_verify trust t now 0 revoke.

(** [delegate]; [nonce] is what [rand.Read] delivered, [None] its error. *)
Definition DMS_delegate (t : DMSToken) (action : Action) (provider : Provider)
    (nonce : option bytes) (subject audience : DID) (topics : list Capability)
    (expire depth : Z) (c : list Capability) : DMSToken + ucan_error :=
  if negb (bool_decide (act t = ActDelegate)) then inr ErrNotAuthorized
  else if negb (DMS_verifyDepth t (if bool_decide (action = ActDelegate) then 2 else 1))
  then inr ErrNotAuthorized
  else
    match nonce with
    | None => inr ErrNonce
    | Some nonce =>
        let result := mkDMSToken action (Provider_DID provider) subject audience topics c
                        nonce expire depth (Some (mkToken (Some t) None)) "" in
        match DMS_SignatureData result with
        | inl data =>
            match Sign provider data with
            | Some sig => inl (DMS_set_signature result sig)
            | None => inr ErrSign
            end
        | inr e => inr e
        end
    end.

Definition wrap_dms (r : DMSToken + ucan_error) : Token + ucan_error :=
  match r with inl d => inl (mkToken (Some d) None) | inr e => inr e end.

Definition DMS_Delegate (t : DMSToken) := DMS_delegate t ActDelegate.

Definition Token_Delegate (t : Token) (provider : Provider) (nonce : option bytes)
    (subject audience : DID) (topics : list Capability) (expire depth : Z)
    (c : list Capability) : Token + ucan_error :=
  match DMS t with
  | Some d => wrap_dms (DMS_Delegate d provider nonce subject audience topics expire depth c)
  | None => inr ErrBadToken
  end.

Definition DMS_DelegateInvocation (t : DMSToken) (provider : Provider)
    (nonce : option bytes) (subject audience : DID) (expire : Z) (c : list Capability) :=
  DMS_delegate t ActInvoke provider nonce subject audience [] expire 0 c.

Definition Token_DelegateInvocation (t : Token) (provider : Provider)
    (nonce : option bytes) (subject audience : DID) (expire : Z) (c : list Capability)
    : Token + ucan_error :=
  match DMS t with
  | Some d => wrap_dms (DMS_DelegateInvocation d provider nonce subject audience expire c)
  | None => inr ErrBadToken
  end.

Definition DMS_DelegateBroadcast (t : DMSToken) (provider : Provider)
    (nonce : option bytes) (subject : DID) (topic : Capability) (expire : Z)
    (c : list Capability) :=
  DMS_delegate t ActBroadcast provider nonce subject DID_empty [topic] expire 0 c.

Definition Token_DelegateBroadcast (t : Token) (provider : Provider)
    (nonce : option bytes) (subject : DID) (topic : Capability) (expire : Z)
    (c : list Capability) : Token + ucan_error :=
  match DMS t with
  | Some d => wrap_dms (DMS_DelegateBroadcast d provider nonce subject topic expire c)
  | None => inr ErrBadToken
  end.

End verification.
