(* ===== verification/TokenSpec.v ===== *)
(** * What a verified token promises

    [authorised] is the abstract reading of a token: a derivation by rules in
    which every link of the delegation chain is signed by its issuer, alive,
    not revoked, within the depth its grantor set and no wider than the link
    above it.  [verify] of lib/ucan/token.go decides it, and the properties of
    whole chains follow by induction on the derivation. *)

From S2P Require Import Prelude GoStrings Key Capability Token.

(** ** Induction along the chain *)

Definition chained (d p : DMSToken) : Prop := ∃ u, Chain d = Some (mkToken (Some p) u).

Lemma DMSToken_chain_ind (P : DMSToken → Prop) :
  (∀ d, (∀ p, chained d p → P p) → P d) → ∀ d, P d.
Proof.
  intros Hstep. fix IH 1. intros d. apply Hstep.
  destruct d as [a1 a2 a3 a4 a5 a6 a7 a8 a9 c a11].
  intros p [u Hp]; simpl in Hp.
  destruct c as [[[q|] v]|]; [|clear IH; discriminate..].
  pose proof (IH q) as Hq. clear IH. injection Hp as <- <-. exact Hq.
Qed.

(** ** Reflection of the boolean checks *)

Lemma any_implies_spec gs c :
  any_implies gs c = true ↔ ∃ g, In g gs ∧ Implies g c = true.
Proof. unfold any_implies. apply existsb_exists. Qed.

Lemma all_implied_spec gs cs :
  forallb (any_implies gs) cs = true ↔ ∀ c, In c cs → any_implies gs c = true.
Proof. apply forallb_forall. Qed.

(** The audience of a grant admits the audience of a use. *)
Definition audience_admits (granted used : DID) : Prop :=
  granted = DID_empty ∨ granted = used.

Lemma audience_admits_spec granted used :
  negb (DID_Empty granted) && negb (DID_Equal granted used) = false ↔
  audience_admits granted used.
Proof.
  unfold audience_admits. rewrite andb_false_iff, !negb_false_iff.
  by rewrite DID_Empty_eq, DID_Equal_eq.
Qed.

Definition within_depth (d : DMSToken) (depth : Z) : Prop :=
  ¬ (0 < Depth d ∧ Depth d < depth)%Z.

Lemma within_depth_spec d depth :
  (0 <? Depth d)%Z && (Depth d <? depth)%Z = false ↔ within_depth d depth.
Proof.
  unfold within_depth. rewrite andb_false_iff, !Z.ltb_ge. lia.
Qed.

Lemma DMS_ExpireBefore_false d n :
  DMS_ExpireBefore d n = false ↔
  (n ≤ Expire d)%Z ∧ ∀ c, Chain d = Some c → Token_ExpireBefore c n = false.
Proof.
  destruct d as [? ? ? ? ? ? ? e ? c ?]; cbn.
  destruct (Z.ltb_spec e n); destruct c; cbn.
  all: split; [intros H1 | intros [H1 H2]]; try lia; try done; eauto.
  - split; [lia | intros ? [= <-]; done].
Qed.

Lemma Token_ExpireBefore_false t n :
  Token_ExpireBefore t n = false ↔ ∃ d, DMS t = Some d ∧ DMS_ExpireBefore d n = false.
Proof. destruct t as [[d|] u]; cbn; naive_solver. Qed.

Lemma DMS_ExpireBefore_mono d n m :
  (n ≤ m)%Z → DMS_ExpireBefore d m = false → DMS_ExpireBefore d n = false.
Proof.
  intros Hnm. induction d as [d IH] using DMSToken_chain_ind.
  rewrite !DMS_ExpireBefore_false. intros [He Hc]. split; [lia|].
  intros c Hcc. pose proof (Hc c Hcc) as Hm.
  destruct c as [[p|] u]; [|done]. cbn in *. eapply IH; eauto. by exists u.
Qed.

(** The loop of [verify] over the needed capabilities leaves nothing exactly
    when the chain allows every one of them. *)
Lemma strikeAllowed_residue allow caps need c :
  In c (strikeAllowed allow caps need) →
  In c need ∧ (In c caps → allow c = false).
Proof.
  revert need. induction caps as [|x caps IH]; intros need; simpl; [done|].
  destruct (allow x) eqn:Hx; [case_bool_decide as Hnil|].
  - rewrite Hnil. done.
  - intros [Hin Hf]%IH. apply filter_In in Hin as [Hin Hne]. split; [done|].
    intros [->|?]; [|auto]. by rewrite bool_decide_true in Hne.
  - intros [Hin Hf]%IH. split; [done|]. intros [->|?]; auto.
Qed.

Lemma strikeAllowed_keeps allow caps need c :
  In c need → allow c = false → In c (strikeAllowed allow caps need).
Proof.
  revert need. induction caps as [|x caps IH]; intros need Hin Hf; simpl; [done|].
  assert (In c (List.filter (λ oc, negb (bool_decide (x = oc))) need) ∨ allow x = false)
    as [Hin'|Hx].
  { destruct (decide (x = c)) as [->|Hne]; [by right|left].
    apply filter_In. by rewrite bool_decide_false. }
  - destruct (allow x); [|by apply IH].
    case_bool_decide as Hnil; [done|by apply IH].
  - rewrite Hx. by apply IH.
Qed.

Lemma strikeAllowed_nil allow caps :
  strikeAllowed allow caps caps = [] ↔ ∀ c, In c caps → allow c = true.
Proof.
  split.
  - intros Hnil c Hin. destruct (allow c) eqn:Hc; [done|].
    pose proof (strikeAllowed_keeps allow caps caps c Hin Hc) as H.
    by rewrite Hnil in H.
  - intros Hall. destruct (strikeAllowed allow caps caps) as [|x l] eqn:Hs; [done|].
    destruct (strikeAllowed_residue allow caps caps x) as [H1 H2]; [rewrite Hs; by left|].
    rewrite (Hall _ H1) in H2. by discriminate H2.
Qed.

(** ** The rules *)

(** [p] may be the parent of [d]: what one delegation step may do. *)
Record delegates (p d : DMSToken) : Prop := {
  del_action : act p = ActDelegate;
  del_issuer : Issuer d = Subject p;
  del_expire : (Expire d ≤ Expire p)%Z;
  del_audience : Caps d ≠ [] → audience_admits (Audience p) (Audience d);
  del_topics : Caps d ≠ [] → ∀ tp, In tp (Topic d) → any_implies (Topic p) tp = true;
  del_caps : ∀ c, In c (Caps d) → any_implies (Caps p) c = true
}.

Section authority.
  Context `{Codec : TokenCodec}.
  Context (trust : TrustContext) (now : Z) (revoke : gmap string Token).

(** The anchor of the issuer accepts the token's signature. *)
Definition signed (d : DMSToken) : Prop :=
  ∃ check data, GetAnchor trust (Issuer d) = Some check ∧
    DMS_SignatureData d = inl data ∧ check data (Signature d) = true.

Inductive authorised : Z → DMSToken → Prop :=
| auth_revocation depth d :
    act d = ActRevoke → DMS_ExpireBefore d now = false → signed d →
    authorised depth d
| auth_root depth d :
    act d ≠ ActRevoke → Chain d = None → (now ≤ Expire d)%Z → within_depth d depth →
    DMS_Revoked d revoke = false → signed d →
    authorised depth d
| auth_link depth d p :
    act d ≠ ActRevoke → chained d p → (now ≤ Expire d)%Z → within_depth d depth →
    DMS_Revoked d revoke = false → signed d →
    delegates p d → authorised (u64 (depth + 1)) p →
    authorised depth d.

Lemma signed_spec d : DMS_verifySignature trust d = None ↔ signed d.
Proof.
  unfold DMS_verifySignature, signed. destruct (GetAnchor trust (Issuer d)) as [check|].
  2: { split; [done | by intros (?&?&?&?)]. }
  destruct (DMS_SignatureData d) as [data|e] eqn:Hd.
  2: { split; [done | by intros (?&?&?&?&?)]. }
  destruct (check data (Signature d)) eqn:Hc; split; [eauto|done|done|].
  intros (?&?&[= <-]&[= <-]&?). congruence.
Qed.

(** An authorised link never outlives the links above it. *)
Lemma authorised_alive depth d n :
  authorised depth d → act d ≠ ActRevoke → (n ≤ Expire d)%Z →
  DMS_ExpireBefore d n = false.
Proof.
  intros Hauth. induction Hauth as [| depth d Hact Hc He | depth d p Hact Hp He Hd Hr Hs Hdel _ IH];
    intros Hne Hn; [done| |]; rewrite DMS_ExpireBefore_false; split; auto.
  - by rewrite Hc.
  - destruct Hp as [u ->]. intros c [= <-]. cbn. apply IH.
    + by rewrite (del_action _ _ Hdel).
    + pose proof (del_expire _ _ Hdel). lia.
Qed.

(** The conditions [verify] tests between a token and its parent. *)
Lemma delegates_spec d p :
  DMS_ExpireBefore p (Expire d) = false →
  act p = ActDelegate → Issuer d = Subject p →
  (∀ c, In c (Caps d) →
     DMS_allowDelegation p (Issuer d) (Audience d) (Topic d) (Expire d) c = true) ↔
  delegates p d.
Proof.
  intros Hexp Hact Hiss. unfold DMS_allowDelegation.
  rewrite bool_decide_true by done. rewrite Hexp. cbn [negb].
  assert (DID_Equal (Subject p) (Issuer d) = true) as -> by (by apply DID_Equal_eq).
  cbn [negb]. split.
  - intros Hall.
    assert (Caps d ≠ [] → ∃ c, In c (Caps d)) as Hne.
    { destruct (Caps d) as [|c ?]; [done|]. exists c. by left. }
    split; auto.
    + by apply DMS_ExpireBefore_false in Hexp as [? _].
    + intros [c Hc]%Hne. apply audience_admits_spec.
      specialize (Hall c Hc). by destruct (_ && _).
    + intros [c Hc]%Hne. apply all_implied_spec.
      specialize (Hall c Hc). destruct (_ && _); [done|]. by destruct (forallb _ _).
    + intros c Hc. specialize (Hall c Hc). destruct (_ && _); [done|].
      by destruct (negb _).
  - intros [_ _ _ Haud Htop Hcaps] c Hc.
    assert (Caps d ≠ []) as Hne by (intros Hnil; by rewrite Hnil in Hc).
    apply audience_admits_spec in Haud as ->; [|done].
    assert (forallb (any_implies (Topic p)) (Topic d) = true) as ->
      by (apply all_implied_spec; auto).
    cbn. auto.
Qed.

Lemma delegates_allow p d c :
  DMS_ExpireBefore p (Expire d) = false → delegates p d → In c (Caps d) →
  DMS_allowDelegation p (Issuer d) (Audience d) (Topic d) (Expire d) c = true.
Proof.
  intros Hexp Hdel. apply delegates_spec; [done|apply Hdel|apply Hdel|done].
Qed.

(** ** [verify], one link at a time *)

(** The part of [verify] that deals with the parent token. *)
Definition verify_chain (d : DMSToken) (depth : Z) : option ucan_error :=
  match Chain d with
  | None => None
  | Some c =>
      if negb (bool_decide (Token_Action c = ActDelegate)) then Some ErrNotAuthorized
      else if Token_ExpireBefore c (Expire d) then Some ErrCapabilityExpired
      else
        match Token_verify trust c now (u64 (depth + 1)) revoke with
        | Some e => Some e
        | None =>
            if negb (DID_Equal (Issuer d) (Token_Subject c)) then Some ErrNotAuthorized
            else if bool_decide (strikeAllowed
                      (Token_allowDelegation c (Issuer d) (Audience d) (Topic d) (Expire d))
                      (Caps d) (Caps d) = [])
            then None else Some ErrNotAuthorized
        end
  end.

Lemma DMS_verify_unfold d depth :
  DMS_verify trust d now depth revoke =
  if DMS_ExpireBefore d now then Some ErrCapabilityExpired
  else if bool_decide (act d = ActRevoke) then DMS_verifySignature trust d
  else if (0 <? Depth d)%Z && (Depth d <? depth)%Z then Some ErrNotAuthorized
  else if DMS_Revoked d revoke then Some ErrNotAuthorized
  else match verify_chain d depth with
       | Some e => Some e
       | None => DMS_verifySignature trust d
       end.
Proof. by destruct d. Qed.

(** Refutes the right-hand side of [verify_chain_None] once the parent is known. *)
Local Ltac no_such_parent tac :=
  split; [done|]; intros [?|(q & [v Hq] & Hx & Hdel & Hv')]; [done|];
  injection Hq as <- <-; exfalso; tac Hx Hdel Hv'.

Lemma verify_chain_None d depth :
  verify_chain d depth = None ↔
  Chain d = None ∨
  ∃ p, chained d p ∧ DMS_ExpireBefore p (Expire d) = false ∧ delegates p d ∧
    DMS_verify trust p now (u64 (depth + 1)) revoke = None.
Proof.
  unfold verify_chain, chained.
  destruct (Chain d) as [[[p|] u]|]; cbn [Token_Action DMS Token_ExpireBefore Token_verify
    Token_Subject Token_allowDelegation]; [| |by split; auto].
  2: { rewrite bool_decide_false by done. cbn. naive_solver. }
  case_bool_decide as Hact; cbn [negb].
  2: no_such_parent ltac:(fun _ Hdel _ => by apply Hact, Hdel).
  destruct (DMS_ExpireBefore p (Expire d)) eqn:Hexp.
  1: no_such_parent ltac:(fun Hx _ _ => congruence).
  destruct (DMS_verify trust p now (u64 (depth + 1)) revoke) eqn:Hv.
  1: no_such_parent ltac:(fun _ _ Hv' => congruence).
  destruct (DID_Equal (Issuer d) (Subject p)) eqn:Heq; cbn [negb].
  2: no_such_parent ltac:(fun _ Hdel _ =>
       rewrite (del_issuer _ _ Hdel), DID_Equal_refl in Heq; done).
  apply DID_Equal_eq in Heq.
  unfold Token_allowDelegation; cbn [DMS].
  case_bool_decide as Hs; rewrite strikeAllowed_nil, (delegates_spec d p) in Hs by done.
  - split; [intros _; right; exists p; eauto | done].
  - no_such_parent ltac:(fun _ Hdel _ => by apply Hs).
Qed.

Lemma DMS_verify_None d depth :
  DMS_verify trust d now depth revoke = None ↔
  DMS_ExpireBefore d now = false ∧ signed d ∧
  (act d = ActRevoke ∨
   act d ≠ ActRevoke ∧ within_depth d depth ∧ DMS_Revoked d revoke = false ∧
   verify_chain d depth = None).
Proof.
  rewrite DMS_verify_unfold. destruct (DMS_ExpireBefore d now); [naive_solver|].
  case_bool_decide; [rewrite signed_spec; naive_solver|].
  destruct (_ && _) eqn:Hd.
  { split; [done|]. intros (_ & _ & [?|(_ & Hw & _)]); [done|].
    apply within_depth_spec in Hw. congruence. }
  apply within_depth_spec in Hd.
  destruct (DMS_Revoked d revoke); [naive_solver|].
  destruct (verify_chain d depth); [naive_solver|].
  rewrite signed_spec. naive_solver.
Qed.

Lemma verify_iff_authorised d depth :
  DMS_verify trust d now depth revoke = None ↔ authorised depth d.
Proof.
  revert depth. induction d as [d IH] using DMSToken_chain_ind. intros depth.
  rewrite DMS_verify_None. split.
  - intros (Hexp & Hs & [Hact|(Hact & Hw & Hr & Hc)]); [by apply auth_revocation|].
    pose proof Hexp as [Hnow _]%DMS_ExpireBefore_false.
    apply verify_chain_None in Hc as [Hc|(p & Hp & _ & Hdel & Hv)]; [by apply auth_root|].
    eapply auth_link; eauto. by apply IH.
  - intros Ha. destruct (decide (act d = ActRevoke)) as [Hact|Hact].
    { inversion Ha; subst; try done. auto. }
    assert (Hexp := authorised_alive _ _ now Ha Hact).
    inversion Ha as [|? ? _ Hc|? ? p _ Hp ? ? ? ? Hdel Hpa]; subst; try done;
      (split; [by apply Hexp|split; [done|right; split_and!; try done]]);
      apply verify_chain_None; [by left|right].
    exists p. split_and!; auto; [|by apply IH].
    eapply authorised_alive; [done| |apply Hdel]. by rewrite (del_action _ _ Hdel).
Qed.

End authority.

(** ** Concrete instances for the witnesses

    A toy serialiser, a toy signature scheme (a signature is the signer's name
    followed by the data) and a small delegation chain.  They instantiate the
    parameters of the model so that the hypotheses of the theorems can be
    evaluated; they model no code of the repository. *)

#[export] Instance sample_codec : TokenCodec := {|
  marshal_dms d :=
    Some (act d +:+ ("|" +:+ (URI (Issuer d) +:+ ("|" +:+ (URI (Subject d) +:+ ("|" +:+ Nonce d))))))
|}.

Definition sample_check (d : DID) (data sig : string) : bool :=
  bool_decide (sig = URI d +:+ data).

Definition sample_trust : TrustContext :=
  mkTrust (λ d, if DID_Empty d then None else Some (sample_check d)).

Definition sample_provider (d : DID) : Provider :=
  mkProvider d (λ data, Some (URI d +:+ data)).

Definition alice : DID := mkDID "did:key:aalice".
Definition bob : DID := mkDID "did:key:abob".
Definition carol : DID := mkDID "did:key:acarol".

Definition sample_sign (d : DMSToken) : DMSToken :=
  match DMS_SignatureData d with
  | inl data => DMS_set_signature d (URI (Issuer d) +:+ data)
  | inr _ => d
  end.

(** alice lets bob delegate everything below "/dms", with one further link. *)
Definition sample_root : DMSToken :=
  sample_sign (mkDMSToken ActDelegate alice bob DID_empty ["/topic"] ["/dms"] "n1" 100 3 None "").

(** bob passes "/dms/node" on to carol. *)
Definition sample_link : DMSToken :=
  sample_sign (mkDMSToken ActDelegate bob carol DID_empty [] ["/dms/node"] "n2" 90 0
    (Some (mkToken (Some sample_root) None)) "").

(** carol invokes "/dms/node/peers" at alice. *)
Definition sample_leaf : DMSToken :=
  sample_sign (mkDMSToken ActInvoke carol carol alice [] ["/dms/node/peers"] "n3" 80 0
    (Some (mkToken (Some sample_link) None)) "").

Definition tok (d : DMSToken) : Token := mkToken (Some d) None.

(** alice revokes the token she gave bob. *)
Definition sample_revocation : DMSToken :=
  sample_sign (mkDMSToken ActRevoke alice bob DID_empty [] ["/dms"] "n1" 100 0 None "").

(** bob invites everybody to "/topic". *)
Definition sample_shout : DMSToken :=
  sample_sign (mkDMSToken ActBroadcast bob bob DID_empty ["/topic/news"] ["/dms/hello"] "n4" 80 0
    (Some (tok sample_root)) "").
