(* ===== verification/TokenProps.v ===== *)
(** * Properties of tokens and chains

    The theorems about lib/ucan/token.go and lib/ucan/cap.go: verification
    against its specification, attenuation along whole chains, tokens that
    delegation produces, revocation keys, and subsumption. *)

From S2P Require Import Prelude GoStrings Key Capability Token TokenSpec.

(** ** Ancestors *)

Inductive ancestor : nat → DMSToken → DMSToken → Prop :=
| anc_parent d p : chained d p → ancestor 1 d p
| anc_up k d p a : chained d p → ancestor k p a → ancestor (S k) d a.

Lemma chained_fun d p q : chained d p → chained d q → p = q.
Proof. intros [u Hp] [v Hq]. congruence. Qed.

Lemma audience_admits_trans a b c :
  audience_admits a b → audience_admits b c → audience_admits a c.
Proof. unfold audience_admits. intros [->| ->] [->| ->]; auto. Qed.

Lemma any_implies_trans gs hs c :
  ¬ In "" gs → (∀ h, In h hs → any_implies gs h = true) →
  any_implies hs c = true → any_implies gs c = true.
Proof.
  intros Hne Hall. rewrite any_implies_spec. intros (h & Hh & Hc).
  specialize (Hall h Hh). rewrite any_implies_spec in *.
  destruct Hall as (g & Hg & Hgh). exists g. split; [done|].
  eapply Implies_trans; eauto. by intros ->.
Qed.

(** ** Attenuation *)

Section chains.
  Context `{Codec : TokenCodec}.
  Context (trust : TrustContext) (now : Z) (revoke : gmap string Token).

(** What the holder of [d] may rely on an ancestor [a] for, [k] links up. *)
Record attenuates (a d : DMSToken) : Prop := {
  att_action : act a = ActDelegate;
  att_expire : (Expire d ≤ Expire a)%Z;
  att_caps : ∀ c, In c (Caps d) → any_implies (Caps a) c = true;
  att_audience : Caps d ≠ [] → audience_admits (Audience a) (Audience d);
  att_topics : Caps d ≠ [] → ∀ tp, In tp (Topic d) → any_implies (Topic a) tp = true
}.

Lemma delegates_attenuates p d : delegates p d → attenuates p d.
Proof. intros []. by split. Qed.

Lemma any_implies_nonempty gs cs :
  (∀ c, In c cs → any_implies gs c = true) → cs ≠ [] → gs ≠ [].
Proof.
  intros Hall Hne ->. destruct cs as [|c cs]; [done|].
  specialize (Hall c (or_introl eq_refl)). by rewrite any_implies_spec in Hall; naive_solver.
Qed.

Lemma attenuates_trans a p d :
  ¬ In "" (Caps a) → ¬ In "" (Topic a) →
  attenuates a p → delegates p d → attenuates a d.
Proof.
  intros Hc Ht [H1 H2 H3 H4 H5] [K1 K2 K3 K4 K5 K6].
  assert (Caps d ≠ [] → Caps p ≠ []) as Hne by (by apply any_implies_nonempty).
  split; auto; [lia|..].
  - intros c Hin. eapply any_implies_trans; eauto.
  - intros Hd. eapply audience_admits_trans; eauto.
  - intros Hd tp Htp. eapply any_implies_trans; eauto.
Qed.

(** A link of an authorised chain is authorised at its own distance. *)
Lemma authorised_parent depth d p :
  authorised trust now revoke depth d → act d ≠ ActRevoke → chained d p →
  delegates p d ∧ authorised trust now revoke (u64 (depth + 1)) p.
Proof.
  intros Ha Hact Hp.
  inversion Ha as [| ? ? _ Hc | ? ? q _ Hq ? ? ? ? Hdel Hpa]; subst.
  - done.
  - destruct Hp as [u Hp]. congruence.
  - by rewrite (chained_fun _ _ _ Hp Hq).
Qed.

Lemma authorised_facts depth d :
  authorised trust now revoke depth d → act d ≠ ActRevoke →
  signed trust d ∧ DMS_Revoked d revoke = false ∧ within_depth d depth ∧ (now ≤ Expire d)%Z.
Proof. intros Ha Hact. by inversion Ha. Qed.

Lemma u64_add_add a b : u64 (u64 a + b) = u64 (a + b).
Proof. unfold u64. by rewrite Zplus_mod_idemp_l. Qed.

Lemma authorised_ancestor k d a :
  ancestor k d a → ∀ depth,
  authorised trust now revoke depth d → act d ≠ ActRevoke →
  act a = ActDelegate ∧ authorised trust now revoke (u64 (depth + Z.of_nat k)) a.
Proof.
  induction 1 as [d p Hp | k d p a Hp _ IH]; intros depth Ha Hact;
    destruct (authorised_parent _ _ _ Ha Hact Hp) as [Hdel Hpa].
  - split; [apply Hdel | done].
  - destruct (IH _ Hpa) as [? Haa]; [by rewrite (del_action _ _ Hdel)|].
    split; [done|]. rewrite u64_add_add in Haa.
    by replace (depth + Z.of_nat (S k))%Z with (depth + 1 + Z.of_nat k)%Z by lia.
Qed.

Lemma ancestor_attenuates k d a :
  ancestor k d a → ∀ depth,
  authorised trust now revoke depth d → act d ≠ ActRevoke →
  (∀ j b, ancestor j d b → ¬ In "" (Caps b) ∧ ¬ In "" (Topic b)) →
  attenuates a d.
Proof.
  induction 1 as [d p Hp | k d p a Hp Hanc IH]; intros depth Ha Hact Hne;
    destruct (authorised_parent _ _ _ Ha Hact Hp) as [Hdel Hpa];
    [by apply delegates_attenuates|].
  assert (act p ≠ ActRevoke) as Hpact by (by rewrite (del_action _ _ Hdel)).
  destruct (Hne (S k) a) as [? ?]; [by eapply anc_up|].
  eapply attenuates_trans; [done..| |done].
  eapply IH; [done..|]. intros j b Hb. eapply Hne. by eapply anc_up.
Qed.

End chains.

(** ** Depth *)

(** The number of links above a token. *)
Fixpoint Token_links (t : Token) : Z :=
  match DMS t with Some d => DMS_links d | None => 0 end
with DMS_links (d : DMSToken) : Z :=
  match Chain d with Some c => 1 + Token_links c | None => 0 end.

Lemma DMS_links_chained d p : chained d p → DMS_links d = (1 + DMS_links p)%Z.
Proof. intros [u Hp]. destruct d; simpl in *. by subst. Qed.

Lemma DMS_links_nonneg d : (0 ≤ DMS_links d)%Z.
Proof.
  induction d as [d IH] using DMSToken_chain_ind.
  destruct d as [? ? ? ? ? ? ? ? ? [[[p|] u]|] ?]; simpl; try lia.
  specialize (IH p). cbn in IH. pose proof (IH (ex_intro _ u eq_refl)). lia.
Qed.

Lemma DMS_verifyDepth_true d n :
  DMS_verifyDepth d n = true ↔
  within_depth d n ∧ ∀ c, Chain d = Some c → Token_verifyDepth c (u64 (n + 1)) = true.
Proof.
  rewrite <- within_depth_spec.
  destruct d as [? ? ? ? ? ? ? ? k [c|] ?]; cbn; destruct (_ && _); naive_solver.
Qed.

Lemma DMS_verifyDepth_mono d m n :
  (0 ≤ m ≤ n)%Z → (n + DMS_links d < 2 ^ 64)%Z →
  DMS_verifyDepth d n = true → DMS_verifyDepth d m = true.
Proof.
  revert m n. induction d as [d IH] using DMSToken_chain_ind. intros m n Hmn Hlen.
  rewrite !DMS_verifyDepth_true. unfold within_depth. intros [Hw Hc].
  split; [lia|]. intros c Hcc. specialize (Hc c Hcc).
  destruct c as [[p|] u]; [|done]. cbn in *.
  assert (chained d p) as Hp by (by exists u).
  pose proof (DMS_links_chained _ _ Hp). pose proof (DMS_links_nonneg p).
  rewrite u64_small in * by (unfold is_u64; lia).
  eapply (IH p Hp _ (n + 1)%Z); [lia|lia|done].
Qed.

Lemma authorised_redepth `{Codec : TokenCodec} trust now revoke depth depth' d :
  authorised trust now revoke depth d → act d ≠ ActRevoke →
  DMS_verifyDepth d depth' = true → authorised trust now revoke depth' d.
Proof.
  intros Ha. revert depth'.
  induction Ha as [| depth d Hact Hc He Hw Hr Hs | depth d p Hact Hp He Hw Hr Hs Hdel Hpa IH];
    intros depth' Hne [Hw' Hc']%DMS_verifyDepth_true; [done|by apply auth_root|].
  eapply auth_link; eauto. apply IH; [by rewrite (del_action _ _ Hdel)|].
  destruct Hp as [u Hp]. by apply Hc' in Hp.
Qed.

Lemma DMS_SignatureData_set `{Codec : TokenCodec} d sig :
  DMS_SignatureData (DMS_set_signature d sig) = DMS_SignatureData d.
Proof. by destruct d. Qed.

(** ** Claims *)

(** C2: [verify] is sound and complete for the rules of delegation: a token
    verifies exactly when it is a DMS token with a derivation in which every
    link is signed, alive, unrevoked, within its grantor's depth, and grants no
    more than its parent. *)
Theorem Verify_iff_authorised `{Codec : TokenCodec} trust t now revoke :
  Token_Verify trust t now revoke = None ↔
  ∃ d, DMS t = Some d ∧ authorised trust now revoke 0 d.
Proof.
  unfold Token_Verify. destruct t as [[d|] u]; cbn [Token_verify DMS].
  - rewrite verify_iff_authorised. naive_solver.
  - naive_solver.
Qed.

(** C4: authority only shrinks along a verified chain: when a token that is not a
    revocation verifies and no token of the chain above it has the empty string among its
    capabilities or topics (implication is not transitive through it: it implies all
    paths), every ancestor, at any distance [k] below 2^64, is a signed and unrevoked
    delegation that outlives the token, whose capabilities and topics imply the token's,
    whose audience admits the token's, and whose depth limit is at least [k] or absent. *)
Theorem verified_chain_attenuates `{Codec : TokenCodec} trust d now revoke k a :
  DMS_verify trust d now 0 revoke = None → act d ≠ ActRevoke →
  ancestor k d a → (Z.of_nat k < 2 ^ 64)%Z →
  (∀ j b, ancestor j d b → ¬ In "" (Caps b) ∧ ¬ In "" (Topic b)) →
  attenuates a d ∧ signed trust a ∧ DMS_Revoked a revoke = false ∧
  (Depth a ≤ 0 ∨ Z.of_nat k ≤ Depth a)%Z.
Proof.
  rewrite verify_iff_authorised. intros Ha Hact Hanc Hk Hne.
  destruct (authorised_ancestor _ _ _ _ _ _ Hanc _ Ha Hact) as [Hda Haa].
  destruct (authorised_facts _ _ _ _ _ Haa) as (Hs & Hr & Hw & _); [by rewrite Hda|].
  split_and!; auto; [by eapply ancestor_attenuates|].
  unfold within_depth in Hw. rewrite u64_small in Hw by (unfold is_u64; lia). lia.
Qed.

Lemma sample_ancestors j b : ancestor j sample_leaf b → b = sample_link ∨ b = sample_root.
Proof.
  inversion 1 as [? p [u Hp] | k ? p ? [u Hp] Hr]; subst.
  { left. vm_compute in Hp. injection Hp as <- <-. done. }
  vm_compute in Hp. injection Hp as <- <-.
  inversion Hr as [? q [v Hq] | k' ? q ? [v Hq] Hr']; subst.
  { right. vm_compute in Hq. injection Hq as <- <-. done. }
  vm_compute in Hq. injection Hq as <- <-.
  inversion Hr' as [? ? [w Hw] | ? ? ? ? [w Hw]]; by vm_compute in Hw.
Qed.

Lemma verified_chain_attenuates_witness :
  attenuates sample_root sample_leaf ∧ signed sample_trust sample_root ∧
  DMS_Revoked sample_root ∅ = false ∧ (Depth sample_root ≤ 0 ∨ Z.of_nat 2 ≤ Depth sample_root)%Z.
Proof.
  apply (verified_chain_attenuates sample_trust sample_leaf 50 ∅ 2).
  - vm_compute. reflexivity.
  - vm_compute. discriminate.
  - eapply anc_up; [exists None; vm_compute; reflexivity|].
    apply anc_parent. exists None. vm_compute. reflexivity.
  - vm_compute. reflexivity.
  - intros j b [-> | ->]%sample_ancestors; vm_compute; intuition discriminate.
Defined.

(** A provider signs for its DID: what the anchor of the DID accepts. *)
Definition signs_for (trust : TrustContext) (provider : Provider) : Prop :=
  ∃ check, GetAnchor trust (Provider_DID provider) = Some check ∧
    ∀ data sig, Sign provider data = Some sig → check data sig = true.

Lemma AllowDelegation_depth t action issuer audience topics expire c :
  DMS_AllowDelegation t action issuer audience topics expire c = true →
  (1 + DMS_links t < 2 ^ 64 - 1)%Z →
  DMS_allowDelegation t issuer audience topics expire c = true ∧ DMS_verifyDepth t 1 = true.
Proof.
  unfold DMS_AllowDelegation. intros H Hlen.
  case_bool_decide; destruct (DMS_verifyDepth t _) eqn:Hd; simplify_eq/=; try done.
  split; [done|]. eapply DMS_verifyDepth_mono; [..|done]; lia.
Qed.

Lemma DMS_delegate_inv `{Codec : TokenCodec} t action provider nonce subject audience topics
    expire depth caps r :
  DMS_delegate t action provider nonce subject audience topics expire depth caps = inl r →
  ∃ n data sig, nonce = Some n ∧
    Sign provider data = Some sig ∧
    let r0 := mkDMSToken action (Provider_DID provider) subject audience topics caps n expire
                depth (Some (mkToken (Some t) None)) "" in
    DMS_SignatureData r0 = inl data ∧ r = DMS_set_signature r0 sig ∧ act t = ActDelegate.
Proof.
  unfold DMS_delegate. case_bool_decide; [|done]. cbn [negb].
  destruct (negb _); [done|]. destruct nonce as [n|]; [|done].
  destruct (DMS_SignatureData _) as [data|] eqn:Hd; [|done].
  destruct (Sign provider data) as [sig|] eqn:Hs; [|done].
  intros [= <-]. naive_solver.
Qed.

(** Delegation produces tokens that verify: when a verified token allows
    the delegation of every requested capability and the provider signs for its
    DID, the token [delegate] builds verifies, unless its fresh revocation key
    is already revoked. *)
Theorem delegate_verifies `{Codec : TokenCodec} trust now revoke t action provider nonce
    subject audience topics expire depth caps r :
  DMS_verify trust t now 0 revoke = None →
  signs_for trust provider →
  caps ≠ [] →
  (∀ c, In c caps → DMS_AllowDelegation t action (Provider_DID provider) audience topics expire c = true) →
  (2 + DMS_links t < 2 ^ 64)%Z →
  action ≠ ActRevoke → (now ≤ expire)%Z →
  DMS_delegate t action provider nonce subject audience topics expire depth caps = inl r →
  DMS_Revoked r revoke = false →
  DMS_verify trust r now 0 revoke = None.
Proof.
  intros Hv (check & Hanchor & Hsign) Hne Hallow Hlen Hact Hnow Hdel Hrev.
  apply DMS_delegate_inv in Hdel as (n & data & sig & -> & Hsig & Hdata & -> & Hta).
  set (r0 := mkDMSToken _ _ _ _ _ _ _ _ _ _ _) in *.
  assert (∀ c, In c (Caps r0) → DMS_allowDelegation t (Issuer r0) (Audience r0) (Topic r0)
            (Expire r0) c = true ∧ DMS_verifyDepth t 1 = true) as Hal.
  { intros c Hc. eapply AllowDelegation_depth; [by apply Hallow|lia]. }
  destruct caps as [|c0 caps']; [done|].
  destruct (Hal c0 (or_introl eq_refl)) as [Hal0 Hdep].
  assert (DMS_ExpireBefore t (Expire r0) = false ∧ Issuer r0 = Subject t) as [Hexp Hiss].
  { revert Hal0. unfold DMS_allowDelegation. rewrite bool_decide_true by done. cbn [negb].
    destruct (DMS_ExpireBefore t _); [done|].
    destruct (DID_Equal (Subject t) (Issuer r0)) eqn:He; [|done].
    by apply DID_Equal_eq in He. }
  rewrite verify_iff_authorised in *. apply auth_link with t; auto.
  - by exists None.
  - unfold within_depth. cbn. lia.
  - exists check, data. rewrite DMS_SignatureData_set. auto.
  - apply (delegates_spec (DMS_set_signature r0 sig)); auto. intros c Hc. by apply Hal.
  - eapply authorised_redepth; [done| |done]. by rewrite Hta.
Qed.

Lemma delegate_verifies_witness :
  ∃ r, DMS_delegate sample_link ActInvoke (sample_provider carol) (Some "n9") carol alice [] 80 0
         ["/dms/node/peers"] = inl r ∧ DMS_verify sample_trust r 50 0 ∅ = None.
Proof.
  eexists. split; [vm_compute; reflexivity|].
  eapply (delegate_verifies sample_trust 50 ∅ sample_link ActInvoke (sample_provider carol)
            (Some "n9") carol alice [] 80 0 ["/dms/node/peers"]).
  - vm_compute. reflexivity.
  - exists (sample_check carol). split; [vm_compute; reflexivity|].
    intros data sig [= <-]. unfold sample_check. by apply bool_decide_eq_true.
  - discriminate.
  - intros c [<-|[]]. vm_compute. reflexivity.
  - vm_compute. reflexivity.
  - vm_compute. discriminate.
  - vm_compute. discriminate.
  - vm_compute. reflexivity.
  - vm_compute. reflexivity.
Defined.

(** Keys of issuers without '#' collide only when the issuers are equal. *)
Lemma RevocationKey_issuer d1 d2 :
  Contains (URI (Issuer d1)) "#" = false → Contains (URI (Issuer d2)) "#" = false →
  DMS_RevocationKey d1 = DMS_RevocationKey d2 → Issuer d1 = Issuer d2.
Proof.
  unfold DMS_RevocationKey, DID_String. rewrite !string_app_cons, !string_app_nil_l.
  intros H1 H2 Hkey. destruct (sep_app_inj _ _ _ _ _ H1 H2 Hkey) as [Hi _].
  destruct (Issuer d1), (Issuer d2); simpl in *; congruence.
Qed.

(** A revocation key names one issuer: keys of tokens whose issuers contain
    no '#' can only collide when the issuers are equal, and when the subjects
    contain none either, subject and nonce are equal too; so nobody can craft a
    revocation that hits another issuer's token. *)
Theorem RevocationKey_identifies d1 d2 :
  Contains (URI (Issuer d1)) "#" = false → Contains (URI (Issuer d2)) "#" = false →
  DMS_RevocationKey d1 = DMS_RevocationKey d2 →
  Issuer d1 = Issuer d2 ∧
  (Contains (URI (Subject d1)) "#" = false → Contains (URI (Subject d2)) "#" = false →
   Subject d1 = Subject d2 ∧ Nonce d1 = Nonce d2).
Proof.
  unfold DMS_RevocationKey, DID_String. rewrite !string_app_cons, !string_app_nil_l.
  intros H1 H2 Hkey. destruct (sep_app_inj _ _ _ _ _ H1 H2 Hkey) as [Hi Hrest].
  split; [destruct (Issuer d1), (Issuer d2); simpl in *; congruence|].
  intros H3 H4. destruct (sep_app_inj _ _ _ _ _ H3 H4 Hrest) as [Hs Hn].
  split; [destruct (Subject d1), (Subject d2); simpl in *; congruence | done].
Qed.

Lemma RevocationKey_identifies_witness :
  Issuer sample_link = bob ∧
  (Contains (URI (Subject sample_link)) "#" = false → Contains (URI (Subject sample_link)) "#" = false →
   Subject sample_link = Subject sample_link ∧ Nonce sample_link = Nonce sample_link).
Proof.
  change bob with (Issuer sample_link) at 1.
  apply (RevocationKey_identifies sample_link sample_link); vm_compute; reflexivity.
Defined.

(** ** Subsumption *)

Lemma DMS_Subsumes_true t ot :
  DMS_Subsumes t ot = true →
  Issuer t = Token_Issuer ot ∧ Subject t = Token_Subject ot ∧ Audience t = Token_Audience ot ∧
  (Token_Expire ot ≤ Expire t)%Z ∧
  (∀ c, In c (Token_Capability ot) → any_implies (Caps t) c = true) ∧
  match Chain t, match DMS ot with Some od => Chain od | None => None end with
  | Some c, Some oc => Token_Subsumes c oc = true
  | None, None => True
  | _, _ => False
  end.
Proof.
  destruct t as [? i s a ? caps ? e ? ch ?]. cbn -[any_implies].
  destruct (_ && _) eqn:Hb; [|done].
  rewrite !andb_true_iff, !DID_Equal_eq, Z.leb_le in Hb. destruct Hb as [[[-> ->] ->] He].
  destruct ch as [c|], (match DMS ot with Some od => Chain od | None => None end) as [oc|];
    cbn -[any_implies]; try done;
    [destruct (Token_Subsumes c oc); [|done]|]; cbn -[any_implies];
    intros Hall; rewrite forallb_forall in Hall; split_and!; auto.
Qed.

Lemma Subsumes_outlives t od u n :
  DMS_Subsumes t (mkToken (Some od) u) = true →
  DMS_ExpireBefore od n = false → DMS_ExpireBefore t n = false.
Proof.
  revert od u. induction t as [t IH] using DMSToken_chain_ind. intros od u Hsub.
  rewrite !DMS_ExpireBefore_false. intros [He Hc].
  apply DMS_Subsumes_true in Hsub as (_ & _ & _ & Hexp & _ & Hch). cbn in *.
  split; [lia|]. intros c Hcc. rewrite Hcc in Hch.
  destruct (Chain od) as [oc|]; [|done]. specialize (Hc oc eq_refl).
  destruct c as [[p|] v]; [|done]. cbn in Hch |- *.
  destruct oc as [[op|] w]; [|done]. cbn in Hc.
  eapply IH; [by exists v|done|done].
Qed.

(** A token that subsumes another of the same action and topics permits
    everything the other permits: every delegation step, every invocation and
    every broadcast. *)
Theorem Subsumes_sound t od u :
  DMS_Subsumes t (mkToken (Some od) u) = true →
  act t = act od → Topic t = Topic od → ¬ In "" (Caps t) →
  (∀ issuer audience topics expire c,
     DMS_allowDelegation od issuer audience topics expire c = true →
     DMS_allowDelegation t issuer audience topics expire c = true) ∧
  (∀ subject audience c,
     DMS_AllowInvocation od subject audience c = true →
     DMS_AllowInvocation t subject audience c = true) ∧
  (∀ subject topic c,
     DMS_AllowBroadcast od subject topic c = true →
     DMS_AllowBroadcast t subject topic c = true).
Proof.
  intros Hsub Hact Htop Hne.
  pose proof (λ n, Subsumes_outlives _ _ _ n Hsub) as Hlive.
  apply DMS_Subsumes_true in Hsub as (_ & Hs & Ha & _ & Hcaps & _). cbn in *.
  assert (∀ c, any_implies (Caps od) c = true → any_implies (Caps t) c = true) as Himp.
  { intros c. by apply any_implies_trans. }
  split_and!; intros *; unfold DMS_allowDelegation, DMS_AllowInvocation, DMS_AllowBroadcast;
    rewrite Hact, ?Htop, Hs, Ha.
  - destruct (negb _); [done|].
    destruct (DMS_ExpireBefore od expire) eqn:He; [done|]. rewrite (Hlive _ He).
    destruct (negb _); [done|]. destruct (_ && _); [done|]. destruct (negb _); [done|auto].
  - destruct (negb _); [done|]. destruct (negb _); [done|]. destruct (_ && _); [done|auto].
  - destruct (negb _); [done|]. destruct (negb _); [done|]. destruct (negb _); [done|].
    destruct (negb _); [done|auto].
Qed.

Definition sample_narrow : DMSToken :=
  mkDMSToken ActDelegate alice bob DID_empty ["/topic"] ["/dms/node"] "n7" 70 0 None "".

Lemma Subsumes_sound_witness :
  DMS_allowDelegation sample_root bob alice ["/topic/a"] 60 "/dms/node/x" = true.
Proof.
  apply (Subsumes_sound sample_root sample_narrow None);
    [vm_compute; reflexivity..| |vm_compute; reflexivity].
  vm_compute. intros [H|[]]. discriminate H.
Defined.
