(* ===== verification/Envelope.v ===== *)
(** * Messages of the actor system (actor/interface.go, handle.go, msg.go, errors.go)

    The envelope and its options.  The [Discard] callback of an envelope is not a
    field of the record: it is the call of [Discard] on the security context,
    modelled there.  Times are nanoseconds; [time.Now] is an argument. *)

From S2P Require Import Prelude GoStrings Key Capability Token.

Inductive actor_error :=
| ErrInvalidMessage
| ErrMissingOption
| ErrSignatureVerification
| ErrInvalidSecurityContext
| ErrMessageExpired
| ErrBadSender
| ErrRateLimitExceeded
| ErrTODO
| ErrCapability (e : ucan_error)   (* an error of the capability context, wrapped *)
| ErrKey           (* crypto.PublicKeyFromID or IDFromPublicKey failed *)
| ErrEncoding      (* json.Marshal or Unmarshal failed *)
| ErrSigning       (* PrivKey.Sign failed *)
| ErrVerifying     (* PubKey.Verify reported an error *)
| ErrQueueFull
| ErrClosed        (* the context of the dispatch is done *)
| ErrNetwork.      (* a call of the network failed *)

#[export] Instance actor_error_eq_dec : EqDecision actor_error.
Proof. solve_decision. Defined.

(** ** Handles *)

Record Address := mkAddress { HostID : string; InboxAddress : string }.

Record Handle := mkHandle { Handle_ID : ID; Handle_DID : DID; Handle_Address : Address }.

#[export] Instance Address_eq_dec : EqDecision Address.
Proof. solve_decision. Defined.
#[export] Instance Handle_eq_dec : EqDecision Handle.
Proof. solve_decision. Defined.

Definition Address_Empty (a : Address) : bool :=
  bool_decide (HostID a = "") && bool_decide (InboxAddress a = "").

Definition Address_String (a : Address) : string := HostID a +:+ (":" +:+ InboxAddress a).

Definition Handle_Empty (h : Handle) : bool :=
  ID_Empty (Handle_ID h) && DID_Empty (Handle_DID h) && Address_Empty (Handle_Address h).

Definition Handle_zero : Handle := mkHandle "" DID_empty (mkAddress "" "").

Definition Handle_Equal (h other : Handle) : bool :=
  if negb (ID_Equal (Handle_ID h) (Handle_ID other)) then false
  else if negb (DID_Equal (Handle_DID h) (Handle_DID other)) then false
  else if negb (bool_decide (HostID (Handle_Address h) = HostID (Handle_Address other))) then false
  else if negb (bool_decide (InboxAddress (Handle_Address h) = InboxAddress (Handle_Address other)))
  then false
  else true.

Definition Handle_String `{KeyLib} (h : Handle) : string :=
  let idStr := match FromID (Handle_ID h) with Some d => DID_String d | None => "" end in
  idStr +:+ ("[" +:+ (DID_String (Handle_DID h) +:+ ("]@" +:+ Address_String (Handle_Address h)))).

(** [handleFromPublicKey] and [HandleFromPublicKeyWithInboxAddress]; [host] is the
    peer ID libp2p derives from the key, or the host given. *)
Definition handleFromPublicKey `{KeyLib} (pubk : PubKey) (peerID : option string)
    : Handle + actor_error :=
  if negb (AllowedKey (KeyType pubk)) then inr ErrKey
  else match IDFromPublicKey pubk with
  | None => inr ErrKey
  | Some actorID =>
      let actorDID := FromPublicKey pubk in
      match peerID with
      | None => inr ErrKey
      | Some host => inl (mkHandle actorID actorDID (mkAddress host "root"))
      end
  end.

Definition HandleFromPublicKeyWithInboxAddress `{KeyLib} (pubk : PubKey) (inboxAddress host : string)
    : Handle + actor_error :=
  if negb (AllowedKey (KeyType pubk)) then inr ErrKey
  else match IDFromPublicKey pubk with
  | None => inr ErrKey
  | Some actorID => inl (mkHandle actorID (FromPublicKey pubk) (mkAddress host inboxAddress))
  end.

(** [peerID] is the function of libp2p's peer package that derives it. *)
Definition HandleFromDID `{KeyLib} (peerID : PubKey → option string) (dest : string)
    : Handle + actor_error :=
  match FromString dest with
  | Ok actorDID =>
      match PublicKeyFromDID actorDID with
      | None => inr ErrKey
      | Some pubk => handleFromPublicKey pubk (peerID pubk)
      end
  | _ => inr ErrKey
  end.

(** ** Envelopes *)

Record EnvelopeOptions := mkOptions { opt_Expire : Z; opt_ReplyTo : string; opt_Topic : string }.

(** A nil [Signature] is [None]. *)
Record Envelope := mkEnvelope {
  To : Handle;
  Behavior : string;
  From : Handle;
  env_Nonce : Z;
  Options : EnvelopeOptions;
  env_Message : bytes;
  env_Capability : bytes;
  env_Signature : option bytes
}.

#[export] Instance EnvelopeOptions_eq_dec : EqDecision EnvelopeOptions.
Proof. solve_decision. Defined.
#[export] Instance Envelope_eq_dec : EqDecision Envelope.
Proof. solve_decision. Defined.

(** [json] on envelopes. *)
Class EnvelopeCodec := {
  marshal_msg : Envelope → option bytes;
  unmarshal_msg : bytes → option Envelope
}.

Definition set_Options (m : Envelope) (o : EnvelopeOptions) : Envelope :=
  mkEnvelope (To m) (Behavior m) (From m) (env_Nonce m) o (env_Message m) (env_Capability m)
    (env_Signature m).
Definition set_env_Nonce (m : Envelope) (n : Z) : Envelope :=
  mkEnvelope (To m) (Behavior m) (From m) n (Options m) (env_Message m) (env_Capability m)
    (env_Signature m).
Definition set_Capability (m : Envelope) (c : bytes) : Envelope :=
  mkEnvelope (To m) (Behavior m) (From m) (env_Nonce m) (Options m) (env_Message m) c
    (env_Signature m).
Definition set_Signature (m : Envelope) (sig : option bytes) : Envelope :=
  mkEnvelope (To m) (Behavior m) (From m) (env_Nonce m) (Options m) (env_Message m)
    (env_Capability m) sig.
Definition set_From (m : Envelope) (h : Handle) : Envelope :=
  mkEnvelope (To m) (Behavior m) h (env_Nonce m) (Options m) (env_Message m) (env_Capability m)
    (env_Signature m).

Definition IsBroadcast (m : Envelope) : bool :=
  Handle_Empty (To m) && negb (bool_decide (opt_Topic (Options m) = "")).

(** [uint64(time.Now().UnixNano()) > msg.Options.Expire] *)
Definition Expired (m : Envelope) (now : Z) : bool := (opt_Expire (Options m) <? u64 now)%Z.

(** [Expiry]: seconds and nanoseconds of the expiration. *)
Definition second : Z := 1000000000.
Definition Expiry (m : Envelope) : Z * Z :=
  (s64 (opt_Expire (Options m) / second), s64 (opt_Expire (Options m) mod second)).

Definition msgSignaturePrefix : bytes := "dms:msg:".

Definition env_SignatureData `{EnvelopeCodec} (m : Envelope) : bytes + actor_error :=
  match marshal_msg (set_Signature m None) with
  | None => inr ErrEncoding
  | Some data => inl (msgSignaturePrefix +:+ data)
  end.

(** ** Building messages *)

Abbreviation MessageOption := (Envelope → Envelope + actor_error) (only parsing).

Definition defaultMessageTimeout : Z := 30 * second.

(** The payload: nil (or a nil pointer), or the result of [json.Marshal]. *)
Inductive Payload := PayloadNil | PayloadJSON (data : option bytes).

Fixpoint applyOptions (m : Envelope) (opt : list MessageOption) : Envelope + actor_error :=
  match opt with
  | [] => inl m
  | f :: opt' => match f m with inl m' => applyOptions m' opt' | inr e => inr e end
  end.

Definition Message (src dest : Handle) (behavior : string) (payload : Payload) (now : Z)
    (opt : list MessageOption) : Envelope + actor_error :=
  let build data :=
    applyOptions (mkEnvelope dest behavior src 0
      (mkOptions (u64 (now + defaultMessageTimeout)) "" "") data "" None) opt in
  match payload with
  | PayloadNil => build ""
  | PayloadJSON None => inr ErrEncoding
  | PayloadJSON (Some data) => build data
  end.

Definition WithMessageExpiry (expiry : Z) : MessageOption := λ m,
  inl (set_Options m (mkOptions expiry (opt_ReplyTo (Options m)) (opt_Topic (Options m)))).
Definition WithMessageTimeout (now timeo : Z) : MessageOption := λ m,
  inl (set_Options m (mkOptions (u64 (now + timeo)) (opt_ReplyTo (Options m)) (opt_Topic (Options m)))).
Definition WithMessageReplyTo (replyto : string) : MessageOption := λ m,
  inl (set_Options m (mkOptions (opt_Expire (Options m)) replyto (opt_Topic (Options m)))).
Definition WithMessageTopic (topic : string) : MessageOption := λ m,
  inl (set_Options m (mkOptions (opt_Expire (Options m)) (opt_ReplyTo (Options m)) topic)).
Definition WithMessageSource (source : Handle) : MessageOption := λ m, inl (set_From m source).

Definition ReplyTo (m : Envelope) (payload : Payload) (now : Z) (opt : list MessageOption)
    : Envelope + actor_error :=
  if bool_decide (opt_ReplyTo (Options m) = "") then inr ErrInvalidMessage
  else Message (To m) (From m) (opt_ReplyTo (Options m)) payload now
         (WithMessageExpiry (opt_Expire (Options m)) :: opt).

(** ** Facts *)

Lemma Handle_Equal_eq h h' : Handle_Equal h h' = true ↔ h = h'.
Proof.
  unfold Handle_Equal, ID_Equal. destruct h as [i d [a b]], h' as [i' d' [a' b']]; cbn.
  destruct (DID_Equal d d') eqn:Hd;
    [apply DID_Equal_eq in Hd|assert (d ≠ d') by (rewrite <- DID_Equal_eq; congruence)];
    repeat case_bool_decide; simpl; split; intros; simplify_eq; congruence.
Qed.

Lemma Handle_Empty_eq h : Handle_Empty h = true ↔ h = Handle_zero.
Proof.
  unfold Handle_Empty, Handle_zero, Address_Empty, ID_Empty. destruct h as [i d [a b]]; cbn.
  rewrite !andb_true_iff, DID_Empty_eq, !bool_decide_eq_true, Nat.eqb_eq.
  destruct i; simpl; split; intros; destruct_and?; simplify_eq; split_and?; congruence.
Qed.

(** A signed field cannot be changed without changing the signed bytes. *)
Lemma SignatureData_ignores_signature `{EnvelopeCodec} m sig :
  env_SignatureData (set_Signature m sig) = env_SignatureData m.
Proof. done. Qed.
