(* ===== verification/Limiter.v ===== *)
(** * The rate limiter (actor/limiter.go)

    [RateLimiter] is the interface the dispatch uses, with the law every
    implementation keeps: its state tracks the multiset of messages acquired and
    not yet released.  [NoRateLimiter] and [BasicRateLimiter] implement it.  The
    counters are Go ints; they only grow below a configured int, so they never
    wrap. *)

From S2P Require Import Prelude GoStrings Key Capability Token Envelope.

Record RateLimiterConfig := mkLimits {
  PublicLimitAllow : Z;
  PublicLimitAcquire : Z;
  BroadcastLimitAllow : Z;
  BroadcastLimitAcquire : Z;
  TopicDefaultLimit : Z;
  TopicLimit : gmap string Z
}.

Class RateLimiter (L : Type) := {
  Allow : L → Envelope → bool;
  Acquire : L → Envelope → L * option actor_error;
  Release : L → Envelope → L;
  Config : L → RateLimiterConfig;
  SetConfig : L → RateLimiterConfig → L
}.

(** What the dispatch relies on: [tracks l ms] says that [ms] are the messages in
    flight, in any order. *)
Class RateLimiterLaws (L : Type) `{RateLimiter L} := {
  tracks : L → list Envelope → Prop;
  tracks_perm l ms ms' : ms ≡ₚ ms' → tracks l ms → tracks l ms';
  tracks_acquire l l' m ms : Acquire l m = (l', None) → tracks l ms → tracks l' (m :: ms);
  tracks_reject l l' m e : Acquire l m = (l', Some e) → l' = l;
  tracks_release l m ms : tracks l (m :: ms) → tracks (Release l m) ms;
  tracks_config l cfg ms : tracks l ms → tracks (SetConfig l cfg) ms
}.

Definition isPublicBehavior (m : Envelope) : bool := HasPrefix (Behavior m) "/public/".

Arguments isPublicBehavior : simpl never.
Arguments IsBroadcast : simpl never.

Definition DefaultRateLimiterConfig : RateLimiterConfig := mkLimits 4096 4112 1024 1040 128 ∅.

Definition Valid (cfg : RateLimiterConfig) : bool :=
  (0 <? PublicLimitAllow cfg)%Z && (PublicLimitAllow cfg <=? PublicLimitAcquire cfg)%Z &&
  (0 <? BroadcastLimitAllow cfg)%Z && (BroadcastLimitAllow cfg <=? BroadcastLimitAcquire cfg)%Z &&
  (0 <? TopicDefaultLimit cfg)%Z.

(** ** NoRateLimiter *)

Definition NoRateLimiter_config : RateLimiterConfig := mkLimits 0 0 0 0 0 ∅.

#[export] Instance NoRateLimiter : RateLimiter unit := {
  Allow _ _ := true;
  Acquire l _ := (l, None);
  Release l _ := l;
  Config _ := NoRateLimiter_config;
  SetConfig l _ := l
}.

#[export] Instance NoRateLimiter_laws : RateLimiterLaws unit.
Proof. by refine {| tracks _ _ := True |}. Defined.

(** ** BasicRateLimiter *)

Record BasicRateLimiter := mkLimiter {
  cfg : RateLimiterConfig;
  activeBroadcast : Z;
  activeTopics : gmap string Z;
  activePublic : Z
}.

Definition NewRateLimiter (c : RateLimiterConfig) : BasicRateLimiter := mkLimiter c 0 ∅ 0.

(** [m[k]] of a Go map of ints. *)
Definition get_int (m : gmap string Z) (k : string) : Z := default 0%Z (m !! k).

Definition topicLimit (c : RateLimiterConfig) (topic : string) : Z :=
  default (TopicDefaultLimit c) (TopicLimit c !! topic).

Definition allowPublic (l : BasicRateLimiter) : bool :=
  (activePublic l <? PublicLimitAllow (cfg l))%Z.

Definition allowBroadcast (l : BasicRateLimiter) (m : Envelope) : bool :=
  if (BroadcastLimitAllow (cfg l) <=? activeBroadcast l)%Z then false
  else
    let topic := opt_Topic (Options m) in
    let active := get_int (activeTopics l) topic in
    match TopicLimit (cfg l) !! topic with
    | None => (active <? TopicDefaultLimit (cfg l))%Z
    | Some topicLimit => (active <? topicLimit)%Z
    end.

Definition acquirePublic (l : BasicRateLimiter) : BasicRateLimiter * option actor_error :=
  if (PublicLimitAcquire (cfg l) <=? activePublic l)%Z then (l, Some ErrRateLimitExceeded)
  else (mkLimiter (cfg l) (activeBroadcast l) (activeTopics l) (activePublic l + 1), None).

Definition acquireBroadcast (l : BasicRateLimiter) (m : Envelope)
    : BasicRateLimiter * option actor_error :=
  if (BroadcastLimitAcquire (cfg l) <=? activeBroadcast l)%Z then (l, Some ErrRateLimitExceeded)
  else
    let topic := opt_Topic (Options m) in
    let active := get_int (activeTopics l) topic in
    let exceeded :=
      match TopicLimit (cfg l) !! topic with
      | Some topicLimit => (topicLimit <=? active)%Z
      | None => (TopicDefaultLimit (cfg l) <=? active)%Z
      end in
    if exceeded then (l, Some ErrRateLimitExceeded)
    else (mkLimiter (cfg l) (activeBroadcast l + 1) (<[topic := (active + 1)%Z]> (activeTopics l))
            (activePublic l), None).

Definition releasePublic (l : BasicRateLimiter) : BasicRateLimiter :=
  mkLimiter (cfg l) (activeBroadcast l) (activeTopics l) (activePublic l - 1).

Definition releaseBroadcast (l : BasicRateLimiter) (m : Envelope) : BasicRateLimiter :=
  let topic := opt_Topic (Options m) in
  match activeTopics l !! topic with
  | None => l
  | Some active =>
      let active := (active - 1)%Z in
      let topics :=
        if (0 <? active)%Z then <[topic := active]> (activeTopics l) else delete topic (activeTopics l) in
      mkLimiter (cfg l) (activeBroadcast l - 1) topics (activePublic l)
  end.

#[export] Instance BasicRateLimiter_ops : RateLimiter BasicRateLimiter := {
  Allow l m :=
    if IsBroadcast m then allowBroadcast l m
    else if isPublicBehavior m then allowPublic l
    else true;
  Acquire l m :=
    if IsBroadcast m then acquireBroadcast l m
    else if isPublicBehavior m then acquirePublic l
    else (l, None);
  Release l m :=
    if IsBroadcast m then releaseBroadcast l m
    else if isPublicBehavior m then releasePublic l
    else l;
  Config l := cfg l;
  SetConfig l c := mkLimiter c (activeBroadcast l) (activeTopics l) (activePublic l)
}.

(** ** The counters count the messages in flight *)

Definition isPublic (m : Envelope) : bool := negb (IsBroadcast m) && isPublicBehavior m.
Definition isTopic (topic : string) (m : Envelope) : bool :=
  IsBroadcast m && bool_decide (opt_Topic (Options m) = topic).

(** The number of messages that satisfy a test. *)
Definition count (f : Envelope → bool) (ms : list Envelope) : Z := Z.of_nat (length (List.filter f ms)).

Lemma count_nil f : count f [] = 0%Z.
Proof. done. Qed.

Lemma count_cons f m ms : count f (m :: ms) = ((if f m then 1 else 0) + count f ms)%Z.
Proof. unfold count. simpl. destruct (f m); simpl; lia. Qed.

Lemma count_skip f m ms : f m = false → count f (m :: ms) = count f ms.
Proof. intros Hf. by rewrite count_cons, Hf. Qed.

Lemma count_nonneg f ms : (0 ≤ count f ms)%Z.
Proof. unfold count. lia. Qed.

Lemma count_perm f ms ms' : ms ≡ₚ ms' → count f ms = count f ms'.
Proof. intros Hp. unfold count. by rewrite (filter_perm f _ _ Hp). Qed.

(** A topic is in the map exactly when a message of it is in flight. *)
Record counts (l : BasicRateLimiter) (ms : list Envelope) : Prop := {
  cn_broadcast : activeBroadcast l = count IsBroadcast ms;
  cn_public : activePublic l = count isPublic ms;
  cn_topic : ∀ topic, activeTopics l !! topic =
    let n := count (isTopic topic) ms in if (0 <? n)%Z then Some n else None
}.

Lemma counts_get l ms topic : counts l ms → get_int (activeTopics l) topic = count (isTopic topic) ms.
Proof.
  intros Hc. unfold get_int. rewrite (cn_topic _ _ Hc). cbn.
  pose proof (count_nonneg (isTopic topic) ms). destruct (Z.ltb_spec 0 (count (isTopic topic) ms)); cbn; lia.
Qed.

Lemma isTopic_unicast topic m : IsBroadcast m = false → isTopic topic m = false.
Proof. unfold isTopic. by intros ->. Qed.

Lemma isPublic_broadcast m : IsBroadcast m = true → isPublic m = false.
Proof. unfold isPublic. by intros ->. Qed.

Lemma acquirePublic_counts l l' m ms :
  IsBroadcast m = false → isPublicBehavior m = true →
  acquirePublic l = (l', None) → counts l ms → counts l' (m :: ms).
Proof.
  intros Hb Hp. unfold acquirePublic. destruct (_ <=? _)%Z; [done|]. intros [= <-] [H1 H2 H3].
  split; cbn -[count].
  - by rewrite count_skip.
  - rewrite count_cons, H2. unfold isPublic at 2. rewrite Hb, Hp. cbn. lia.
  - intros topic. by rewrite count_skip by (by apply isTopic_unicast).
Qed.

Lemma acquireBroadcast_counts l l' m ms :
  IsBroadcast m = true → acquireBroadcast l m = (l', None) → counts l ms → counts l' (m :: ms).
Proof.
  intros Hb. unfold acquireBroadcast. destruct (_ <=? _)%Z; [done|].
  intros Hacq Hc. assert (l' = mkLimiter (cfg l) (activeBroadcast l + 1)
    (<[opt_Topic (Options m) := (get_int (activeTopics l) (opt_Topic (Options m)) + 1)%Z]> (activeTopics l))
    (activePublic l)) as -> by (by repeat case_match; simplify_eq).
  pose proof (counts_get _ _ (opt_Topic (Options m)) Hc) as Hg. destruct Hc as [H1 H2 H3].
  split; cbn -[count].
  - rewrite count_cons, Hb. lia.
  - by rewrite count_skip by (by apply isPublic_broadcast).
  - intros topic. cbn zeta. rewrite !count_cons. unfold isTopic at 1 3. rewrite Hb. cbn [andb].
    case_bool_decide as Ht; subst.
    + rewrite lookup_insert_eq, Hg. pose proof (count_nonneg (isTopic (opt_Topic (Options m))) ms).
      destruct (Z.ltb_spec 0 (1 + count (isTopic (opt_Topic (Options m))) ms)); [f_equal|]; lia.
    + by rewrite lookup_insert_ne.
Qed.

Lemma releasePublic_counts l m ms :
  IsBroadcast m = false → isPublicBehavior m = true →
  counts l (m :: ms) → counts (releasePublic l) ms.
Proof.
  intros Hb Hp [H1 H2 H3]. assert (isPublic m = true) as Hpm by (unfold isPublic; by rewrite Hb, Hp).
  rewrite count_skip in H1 by done. rewrite count_cons, Hpm in H2.
  split; cbn -[count]; [done|lia|]. intros topic. specialize (H3 topic).
  by rewrite count_skip in H3 by (by apply isTopic_unicast).
Qed.

Lemma releaseBroadcast_counts l m ms :
  IsBroadcast m = true → counts l (m :: ms) → counts (releaseBroadcast l m) ms.
Proof.
  intros Hb [H1 H2 H3]. set (tp := opt_Topic (Options m)).
  assert (isTopic tp m = true) as Htp by (unfold isTopic; rewrite Hb; by apply bool_decide_eq_true).
  pose proof (count_nonneg (isTopic tp) ms) as Hn.
  rewrite count_cons, Hb in H1. rewrite count_skip in H2 by (by apply isPublic_broadcast).
  unfold releaseBroadcast. fold tp. rewrite H3, count_cons, Htp. cbn zeta.
  destruct (Z.ltb_spec 0 (1 + count (isTopic tp) ms)); [|lia].
  split; cbn -[count]; [lia|lia|]. intros topic.
  replace (1 + count (isTopic tp) ms - 1)%Z with (count (isTopic tp) ms) by lia.
  destruct (decide (tp = topic)) as [<-|Hne].
  - destruct (0 <? count (isTopic tp) ms)%Z; [by rewrite lookup_insert_eq|by rewrite lookup_delete_eq].
  - assert (isTopic topic m = false) as Hf.
    { unfold isTopic. rewrite Hb. by apply bool_decide_eq_false. }
    specialize (H3 topic). rewrite count_cons, Hf in H3.
    destruct (0 <? count (isTopic tp) ms)%Z; [rewrite lookup_insert_ne|rewrite lookup_delete_ne]; done.
Qed.

(** A message that is neither public nor a broadcast is not counted. *)
Lemma uncounted l m ms :
  IsBroadcast m = false → isPublicBehavior m = false → counts l (m :: ms) ↔ counts l ms.
Proof.
  intros Hb Hp.
  assert (isPublic m = false) as Hpm by (unfold isPublic; by rewrite Hb, Hp).
  assert (∀ topic, count (isTopic topic) (m :: ms) = count (isTopic topic) ms) as Ht
    by (intros; by apply count_skip, isTopic_unicast).
  split; intros [H1 H2 H3]; split; intros; rewrite ?Ht, ?(count_skip isPublic), ?(count_skip IsBroadcast) in * by done;
    auto; specialize (H3 topic); by rewrite ?Ht in *.
Qed.

#[export] Instance BasicRateLimiter_laws : RateLimiterLaws BasicRateLimiter.
Proof.
  refine {| tracks := counts |}.
  - intros l ms ms' Hp [H1 H2 H3].
    split; [by rewrite <- (count_perm _ _ _ Hp)..|]. intros topic.
    by rewrite <- (count_perm _ _ _ Hp).
  - intros l l' m ms. cbn. destruct (IsBroadcast m) eqn:Hb; [by apply acquireBroadcast_counts|].
    destruct (isPublicBehavior m) eqn:Hp; [by apply acquirePublic_counts|].
    intros [= <-]. by apply uncounted.
  - intros l l' m e. cbn. unfold acquireBroadcast, acquirePublic. intros Ha.
    repeat case_match; by simplify_eq.
  - intros l m ms. cbn. destruct (IsBroadcast m) eqn:Hb; [by apply releaseBroadcast_counts|].
    destruct (isPublicBehavior m) eqn:Hp; [by apply releasePublic_counts|].
    by apply uncounted.
  - intros l c ms [H1 H2 H3]. by split.
Defined.

(** ** The limits hold *)

(** No count exceeds its limit. *)
Record within_limits (c : RateLimiterConfig) (ms : list Envelope) : Prop := {
  wl_public : (count isPublic ms ≤ PublicLimitAcquire c)%Z;
  wl_broadcast : (count IsBroadcast ms ≤ BroadcastLimitAcquire c)%Z;
  wl_topic : ∀ topic, (count (isTopic topic) ms ≤ topicLimit c topic)%Z
}.

Definition nonneg_limits (c : RateLimiterConfig) : Prop :=
  (0 ≤ PublicLimitAcquire c)%Z ∧ (0 ≤ BroadcastLimitAcquire c)%Z ∧ ∀ topic, (0 ≤ topicLimit c topic)%Z.

Lemma within_limits_nil c : nonneg_limits c → within_limits c [].
Proof. intros (? & ? & ?). by split. Qed.

Lemma within_limits_release c m ms : within_limits c (m :: ms) → within_limits c ms.
Proof.
  intros [H1 H2 H3]. rewrite count_cons in H1, H2. split.
  - destruct (isPublic m); lia.
  - destruct (IsBroadcast m); lia.
  - intros topic. specialize (H3 topic). rewrite count_cons in H3. destruct (isTopic topic m); lia.
Qed.

Lemma within_limits_perm c ms ms' : ms ≡ₚ ms' → within_limits c ms → within_limits c ms'.
Proof.
  intros Hp [H1 H2 H3]. split; [by rewrite <- (count_perm _ _ _ Hp)..|].
  intros topic. by rewrite <- (count_perm _ _ _ Hp).
Qed.

Lemma Acquire_cfg l m : cfg (Acquire l m).1 = cfg l.
Proof. cbn. unfold acquireBroadcast, acquirePublic. by repeat case_match. Qed.

Lemma Release_cfg l m : cfg (Release l m) = cfg l.
Proof. cbn. unfold releaseBroadcast, releasePublic. by repeat case_match. Qed.

Lemma within_limits_acquire l l' m ms :
  Acquire l m = (l', None) → counts l ms → within_limits (cfg l) ms → within_limits (cfg l) (m :: ms).
Proof.
  intros Ha Hc [H1 H2 H3]. pose proof (counts_get l ms (opt_Topic (Options m)) Hc) as Hg.
  destruct Hc as [C1 C2 _]. cbn in Ha.
  assert (isPublic m = negb (IsBroadcast m) && isPublicBehavior m) as Hpub by done.
  destruct (IsBroadcast m) eqn:Hb.
  - unfold acquireBroadcast in Ha. destruct (Z.leb_spec (BroadcastLimitAcquire (cfg l)) (activeBroadcast l)); [done|].
    assert (get_int (activeTopics l) (opt_Topic (Options m)) < topicLimit (cfg l) (opt_Topic (Options m)))%Z.
    { unfold topicLimit. destruct (TopicLimit (cfg l) !! _) as [tl|]; cbn;
        (destruct (_ <=? _)%Z eqn:Hle in Ha; [done|]); apply Z.leb_gt in Hle; lia. }
    split; rewrite ?count_cons, ?Hb, ?Hpub; cbn; [lia|lia|]. intros topic.
    rewrite count_cons. unfold isTopic at 1. rewrite Hb. cbn. case_bool_decide; subst; [lia|].
    specialize (H3 topic). lia.
  - assert (∀ topic, count (isTopic topic) (m :: ms) = count (isTopic topic) ms) as Ht.
    { intros topic. by apply count_skip, isTopic_unicast. }
    assert (isPublicBehavior m = true → activePublic l < PublicLimitAcquire (cfg l))%Z as Hlt.
    { intros Hp. rewrite Hp in Ha. unfold acquirePublic in Ha.
      destruct (Z.leb_spec (PublicLimitAcquire (cfg l)) (activePublic l)); [done|lia]. }
    split; [rewrite count_cons, Hpub| rewrite count_cons, Hb|intros topic; by rewrite Ht]; [|done].
    destruct (isPublicBehavior m); cbn; [specialize (Hlt eq_refl)|]; lia.
Qed.

(** With a valid configuration, what the network validator allows can be
    acquired: [Acquire] right after a successful [Allow] never rejects. *)
Theorem Allow_then_Acquire (l : BasicRateLimiter) m :
  Valid (cfg l) = true → Allow l m = true → (Acquire l m).2 = None.
Proof.
  unfold Valid. rewrite !andb_true_iff, !Z.ltb_lt, !Z.leb_le. intros ((((?&?)&?)&?)&?). cbn.
  destruct (IsBroadcast m).
  - unfold allowBroadcast, acquireBroadcast.
    destruct (Z.leb_spec (BroadcastLimitAllow (cfg l)) (activeBroadcast l)); [done|].
    destruct (Z.leb_spec (BroadcastLimitAcquire (cfg l)) (activeBroadcast l)); [lia|].
    destruct (TopicLimit (cfg l) !! _) as [tl|]; rewrite Z.ltb_lt; intros Ht;
      by rewrite (proj2 (Z.leb_gt _ _) Ht).
  - destruct (isPublicBehavior m); [|done]. unfold allowPublic, acquirePublic.
    rewrite Z.ltb_lt. intros Ht.
    destruct (Z.leb_spec (PublicLimitAcquire (cfg l)) (activePublic l)); [lia|done].
Qed.

Lemma Allow_then_Acquire_witness :
  (Acquire (NewRateLimiter DefaultRateLimiterConfig)
     (mkEnvelope Handle_zero "/public/hello" Handle_zero 0 (mkOptions 0 "" "/t") "" "" None)).2 = None.
Proof. apply Allow_then_Acquire; vm_compute; reflexivity. Defined.
