(* ===== verification/CapContext.v ===== *)
(** * The capability context (lib/ucan/context.go)

    [BasicCapabilityContext] keeps a node's roots of trust, the side chains it
    accepts ([require]), the tokens it may delegate from ([provide]), the tokens
    it consumed per subject ([tokens]) and the revocations.  Every method is a
    function from the state to the state and an outcome.

    Conventions: a method reads the clock once, as its argument [now]; the range
    over a Go map visits the keys in the order [iter] gives, any permutation;
    [rand.Read] delivers [nonces k] for the [k]-th token a method tries to build; a
    [TokenList] is a list of pointers, where [None] is nil, and a method call on
    a nil pointer panics. *)

From S2P Require Import Prelude GoStrings Key Capability Token.

Abbreviation TokenList := (list (option Token)) (only parsing).

Class MapIteration := {
  iter : list DID → list DID;
  iter_perm l : iter l ≡ₚ l
}.

(** [json] on token lists. *)
Class WireCodec := {
  marshal_list : list (option Token) → option string;
  unmarshal_list : string → option (list (option Token))
}.

Inductive SelfSignMode := SelfSignNo | SelfSignAlso | SelfSignOnly.

#[export] Instance SelfSignMode_eq_dec : EqDecision SelfSignMode.
Proof. solve_decision. Defined.

Definition maxCapabilitySize : nat := 16384.

Record Ctx := mkCtx {
  ctx_name : string;
  ctx_provider : Provider;
  ctx_trust : TrustContext;
  ctx_roots : gset DID;
  ctx_require : gmap DID (list Token);
  ctx_provide : gmap DID (list Token);
  ctx_tokens : gmap DID (list Token);
  ctx_revoke : gmap string Token;
  ctx_stop : bool   (* the stop function is not nil *)
}.

Definition set_roots (s : Ctx) x := mkCtx (ctx_name s) (ctx_provider s) (ctx_trust s) x
  (ctx_require s) (ctx_provide s) (ctx_tokens s) (ctx_revoke s) (ctx_stop s).
Definition set_require (s : Ctx) x := mkCtx (ctx_name s) (ctx_provider s) (ctx_trust s)
  (ctx_roots s) x (ctx_provide s) (ctx_tokens s) (ctx_revoke s) (ctx_stop s).
Definition set_provide (s : Ctx) x := mkCtx (ctx_name s) (ctx_provider s) (ctx_trust s)
  (ctx_roots s) (ctx_require s) x (ctx_tokens s) (ctx_revoke s) (ctx_stop s).
Definition set_tokens (s : Ctx) x := mkCtx (ctx_name s) (ctx_provider s) (ctx_trust s)
  (ctx_roots s) (ctx_require s) (ctx_provide s) x (ctx_revoke s) (ctx_stop s).
Definition set_revoke (s : Ctx) x := mkCtx (ctx_name s) (ctx_provider s) (ctx_trust s)
  (ctx_roots s) (ctx_require s) (ctx_provide s) (ctx_tokens s) x (ctx_stop s).
Definition set_stop (s : Ctx) x := mkCtx (ctx_name s) (ctx_provider s) (ctx_trust s)
  (ctx_roots s) (ctx_require s) (ctx_provide s) (ctx_tokens s) (ctx_revoke s) x.

Definition ctx_DID (s : Ctx) : DID := Provider_DID (ctx_provider s).

(** [map[key]] of a Go map of slices: nil when the key is absent. *)
Definition get_list (m : gmap DID (list Token)) (k : DID) : list Token :=
  match m !! k with Some l => l | None => [] end.

Definition live (now : Z) (t : Token) : bool := negb (Token_ExpireBefore t now).

Section context.
  Context `{Codec : TokenCodec} `{Wire : WireCodec} `{Keys : KeyLib} `{Iter : MapIteration}.

(** ** Reading the maps *)

Definition getRoots (s : Ctx) : list DID := iter (elements (ctx_roots s)).
Definition getRequireAnchors (s : Ctx) : list DID := iter (map fst (map_to_list (ctx_require s))).
Definition getProvideAnchors (s : Ctx) : list DID := iter (map fst (map_to_list (ctx_provide s))).

Definition addRoots (s : Ctx) (anchors : list DID) : Ctx :=
  set_roots s (list_to_set anchors ∪ ctx_roots s).

(** [getTokens]: the unexpired tokens, which also replace the stored list. *)
Definition getTokens (m : gmap DID (list Token)) (k : DID) (now : Z)
    : list Token * gmap DID (list Token) :=
  match m !! k with
  | None => ([], m)
  | Some l => let result := List.filter (live now) l in (result, <[k := result]> m)
  end.

Definition getRequireTokens (s : Ctx) (now : Z) (anchor : DID) : list Token * Ctx :=
  let '(l, m) := getTokens (ctx_require s) anchor now in (l, set_require s m).
Definition getProvideTokens (s : Ctx) (now : Z) (anchor : DID) : list Token * Ctx :=
  let '(l, m) := getTokens (ctx_provide s) anchor now in (l, set_provide s m).
Definition getSubjectTokens (s : Ctx) (now : Z) (subject : DID) : list Token * Ctx :=
  let '(l, m) := getTokens (ctx_tokens s) subject now in (l, set_tokens s m).

(** ** Storing tokens *)

(** [consumeAnchorToken]: [None] when a stored token subsumes the new one and
    the list is left alone. *)
Fixpoint anchorMerge (l result : list Token) (t : Token) : option (list Token) :=
  match l with
  | [] => Some (result ++ [t])
  | ot :: l' =>
      if Token_Subsumes ot t then None
      else if Token_Subsumes t ot then anchorMerge l' result t
      else anchorMerge l' (result ++ [ot]) t
  end.

Definition consumeAnchorToken (m : gmap DID (list Token)) (t : Token) : gmap DID (list Token) :=
  match anchorMerge (get_list m (Token_Issuer t)) [] t with
  | None => m
  | Some result => <[Token_Issuer t := result]> m
  end.

Definition consumeRequireToken (s : Ctx) (t : Token) : Ctx :=
  set_require s (consumeAnchorToken (ctx_require s) t).
Definition consumeProvideToken (s : Ctx) (t : Token) : Ctx :=
  set_provide s (consumeAnchorToken (ctx_provide s) t).
Definition consumeSubjectToken (s : Ctx) (t : Token) : Ctx :=
  set_tokens s (<[Token_Subject t := get_list (ctx_tokens s) (Token_Subject t) ++ [t]]> (ctx_tokens s)).
Definition consumeRevokeToken (s : Ctx) (t : Token) : Ctx :=
  set_revoke s (RevocationSet_Revoke (ctx_revoke s) t).

(** ** AddRoots *)

Definition verifies (s : Ctx) (now : Z) (t : Token) : bool :=
  bool_decide (Token_Verify (ctx_trust s) t now (ctx_revoke s) = None).

(** One of the loops of [AddRoots]: test the action, verify, store. *)
Fixpoint addTokens (guard : Token → option ucan_error) (store : Ctx → Token → Ctx)
    (s : Ctx) (now : Z) (l : TokenList) : Ctx * outcome ucan_error unit :=
  match l with
  | [] => (s, Ok tt)
  | None :: _ => (s, Panic)
  | Some t :: l' =>
      match guard t with
      | Some e => (s, Err e)
      | None =>
          match Token_Verify (ctx_trust s) t now (ctx_revoke s) with
          | Some e => (s, Err e)
          | None => addTokens guard store (store s t) now l'
          end
      end
  end.

Definition isRevocation (t : Token) : option ucan_error :=
  if bool_decide (Token_Action t = ActRevoke) then None else Some ErrBadToken.
Definition anyAction (t : Token) : option ucan_error := None.

(** One of the two anchor loops of [cleanUpTokens]. *)
Definition cleanRequire (now : Z) (s : Ctx) (anchor : DID) : Ctx :=
  let '(l, s) := getRequireTokens s now anchor in
  set_require s (<[anchor := List.filter (verifies s now) l]> (ctx_require s)).
Definition cleanProvide (now : Z) (s : Ctx) (anchor : DID) : Ctx :=
  let '(l, s) := getProvideTokens s now anchor in
  set_provide s (<[anchor := List.filter (verifies s now) l]> (ctx_provide s)).

Definition cleanUpTokens (s : Ctx) (now : Z) : Ctx :=
  let s := fold_left (cleanRequire now) (getRequireAnchors s) s in
  let s := fold_left (cleanProvide now) (getProvideAnchors s) s in
  set_tokens s (List.filter (verifies s now) <$> ctx_tokens s).

Definition AddRoots (s : Ctx) (now : Z) (roots : list DID) (require provide revoke : TokenList)
    : Ctx * outcome ucan_error unit :=
  let s := addRoots s roots in
  match addTokens isRevocation consumeRevokeToken s now revoke with
  | (s, Ok _) =>
      match addTokens anyAction consumeRequireToken s now require with
      | (s, Ok _) =>
          match addTokens anyAction consumeProvideToken s now provide with
          | (s, Ok _) => (cleanUpTokens s now, Ok tt)
          | r => r
          end
      | r => r
      end
  | r => r
  end.

(** [newCapabilityContext]; [provider] is what [trust.GetProvider] returned. *)
Definition newCapabilityContext (name : string) (trust : TrustContext)
    (provider : option Provider) (now : Z) (roots : list DID)
    (require provide revoke : TokenList) : outcome ucan_error Ctx :=
  match provider with
  | None => Err ErrNoProvider
  | Some p =>
      match AddRoots (mkCtx name p trust ∅ ∅ ∅ ∅ ∅ false) now roots require provide revoke with
      | (s, Ok _) => Ok s
      | (_, Err e) => Err e
      | (_, Panic) => Panic
      end
  end.

(** ** Listing and removing *)

Fixpoint collectTokens (get : Ctx → Z → DID → list Token * Ctx) (s : Ctx) (now : Z)
    (anchors : list DID) : list Token * Ctx :=
  match anchors with
  | [] => ([], s)
  | a :: anchors' =>
      let '(l, s) := get s now a in
      let '(rest, s) := collectTokens get s now anchors' in
      (l ++ rest, s)
  end.

Definition ListRoots (s : Ctx) (now : Z)
    : (list DID * list Token * list Token * list Token) * Ctx :=
  let roots := getRoots s in
  let '(require, s) := collectTokens getRequireTokens s now (getRequireAnchors s) in
  let '(provide, s) := collectTokens getProvideTokens s now (getProvideAnchors s) in
  ((roots, require, provide, RevocationSet_List (ctx_revoke s) now), s).

(** The loop of [RemoveRoots] over the [require] or the [provide] tokens. *)
Definition removeToken (m : gmap DID (list Token)) (t : Token) : gmap DID (list Token) :=
  match m !! Token_Issuer t with
  | None => m
  | Some l =>
      match List.filter (λ ot, negb (bool_decide (Token_Nonce t = Token_Nonce ot))) l with
      | [] => delete (Token_Issuer t) m
      | l' => <[Token_Issuer t := l']> m
      end
  end.

Definition removeRevocation (r : RevocationSet) (t : Token) : RevocationSet :=
  delete (Token_RevocationKey t) r.

(** A loop over a token list that panics at the first nil pointer. *)
Fixpoint eachToken {A} (f : A → Token → A) (x : A) (l : TokenList) : outcome ucan_error A :=
  match l with
  | [] => Ok x
  | None :: _ => Panic
  | Some t :: l' => eachToken f (f x t) l'
  end.

Definition RemoveRoots (s : Ctx) (trust : list DID) (require provide revoke : TokenList)
    : outcome ucan_error Ctx :=
  let s := set_roots s (ctx_roots s ∖ list_to_set trust) in
  match eachToken removeToken (ctx_require s) require with
  | Ok m =>
      let s := set_require s m in
      match eachToken removeToken (ctx_provide s) provide with
      | Ok m =>
          let s := set_provide s m in
          match eachToken removeRevocation (ctx_revoke s) revoke with
          | Ok r => Ok (set_revoke s r)
          | Err e => Err e
          | Panic => Panic
          end
      | Err e => Err e
      | Panic => Panic
      end
  | Err e => Err e
  | Panic => Panic
  end.

(** ** Creating tokens *)

(** Sign a token as the context's provider; the common end of [Grant] and
    [Revoke]. *)
Definition signToken (s : Ctx) (result : DMSToken) : Token + ucan_error :=
  match DMS_SignatureData result with
  | inr e => inr e
  | inl data =>
      match Sign (ctx_provider s) data with
      | None => inr ErrSign
      | Some sig => inl (mkToken (Some (DMS_set_signature result sig)) None)
      end
  end.

Definition Grant (s : Ctx) (nonce : option bytes) (action : Action) (subject audience : DID)
    (topics : list string) (expire depth : Z) (provide : list Capability)
    : list Token + ucan_error :=
  match nonce with
  | None => inr ErrNonce
  | Some nonce =>
      match signToken s (mkDMSToken action (ctx_DID s) subject audience topics provide nonce
                           expire depth None "") with
      | inl t => inl [t]
      | inr e => inr e
      end
  end.

Definition Ctx_Revoke (s : Ctx) (token : Token) : Token + ucan_error :=
  if negb (DID_Equal (ctx_DID s) (Token_Issuer token)) then inr ErrNotAuthorized
  else signToken s (mkDMSToken ActRevoke (Token_Issuer token) (Token_Subject token) DID_empty []
                      (Token_Capability token) (Token_Nonce token) (Token_Expiry token) 0 None "").

(** The loop over a token list shared by [Delegate], [delegateInvocation] and
    [delegateBroadcast]: the capabilities a token provides, skipped when it
    provides none or not all of them, else a new token.  [allow] and [make] are
    the calls on the token, [k] counts the nonces used. *)
Fixpoint delegateFrom (allow : Token → Capability → bool)
    (make : Token → option bytes → list Capability → Token + ucan_error)
    (nonces : nat → option bytes) (k : nat) (provide : list Capability) (tokenList : list Token)
    : list Token * nat :=
  match tokenList with
  | [] => ([], k)
  | t :: l =>
      let providing := List.filter (allow t) provide in
      if bool_decide (length providing = 0) || (length providing <? length provide)%nat
      then delegateFrom allow make nonces k provide l
      else
        let '(rest, k') := delegateFrom allow make nonces (S k) provide l in
        match make t (nonces k) providing with
        | inl token => (token :: rest, k')
        | inr _ => (rest, k')
        end
  end.

(** The loop over the [provide] anchors of the three delegation methods. *)
Fixpoint overProvideAnchors (f : Ctx → nat → DID → list Token → list Token * nat)
    (s : Ctx) (now : Z) (k : nat) (anchors : list DID) : list Token * nat * Ctx :=
  match anchors with
  | [] => ([], k, s)
  | a :: anchors' =>
      let '(tokenList, s) := getProvideTokens s now a in
      let '(l, k) := f s k a tokenList in
      let '(rest, k, s) := overProvideAnchors f s now k anchors' in
      (l ++ rest, k, s)
  end.

(** The expiry [Delegate] gives a token it chains to [t]: the requested one, or
    the expiry of [t] when 0 was requested. *)
Definition definitiveExpire (expire : Z) (t : Token) : Z :=
  if bool_decide (expire = 0%Z) then Token_Expire t else expire.

Definition Ctx_Delegate (s : Ctx) (now : Z) (nonces : nat → option bytes)
    (subject audience : DID) (topics : list string) (expire depth : Z)
    (provide : list Capability) (selfSign : SelfSignMode)
    : (list Token + ucan_error) * Ctx :=
  if bool_decide (length provide = 0) then (inl [], s)
  else
    let selfsign result k s :=
      match Grant s (nonces k) ActDelegate subject audience topics expire depth provide with
      | inl tokens => (inl (result ++ tokens), s)
      | inr e => (inr e, s)
      end in
    if bool_decide (selfSign = SelfSignOnly) then selfsign [] 0 s
    else
      let f s k anchor := delegateFrom
        (λ t c, Token_Anchor t anchor &&
                Token_AllowDelegation t ActDelegate (ctx_DID s) audience topics
                  (definitiveExpire expire t) c)
        (λ t nonce providing, Token_Delegate t (ctx_provider s) nonce subject audience topics
                                (definitiveExpire expire t) depth providing)
        nonces k provide in
      let '(result, k, s) := overProvideAnchors f s now 0 (getProvideAnchors s) in
      if bool_decide (selfSign = SelfSignNo) then
        if bool_decide (length result = 0) then (inr ErrNotAuthorized, s) else (inl result, s)
      else selfsign result k s.

Definition delegateInvocation (nonces : nat → option bytes) (subject audience : DID) (expire : Z)
    (provide : list Capability) (s : Ctx) (k : nat) (anchor : DID) (tokenList : list Token)
    : list Token * nat :=
  delegateFrom
    (λ t c, Token_Anchor t anchor &&
            Token_AllowDelegation t ActInvoke (ctx_DID s) audience [] expire c)
    (λ t nonce providing, Token_DelegateInvocation t (ctx_provider s) nonce subject audience
                            expire providing)
    nonces k provide tokenList.

Definition Ctx_DelegateInvocation (s : Ctx) (now : Z) (nonces : nat → option bytes)
    (target subject audience : DID) (expire : Z) (provide : list Capability)
    (selfSign : SelfSignMode) : (list Token + ucan_error) * Ctx :=
  if bool_decide (length provide = 0) then (inl [], s)
  else
    let '(tokenList, s) := getSubjectTokens s now (ctx_DID s) in
    let '(result0, k) := delegateInvocation nonces subject audience expire provide s 0 target tokenList in
    let selfsign result k s :=
      match Grant s (nonces k) ActInvoke subject audience [] expire 0 provide with
      | inl tokens => (inl (result ++ tokens), s)
      | inr e => (inr e, s)
      end in
    if bool_decide (selfSign = SelfSignOnly) then selfsign result0 k s
    else
      let '(more, k, s) :=
        overProvideAnchors (delegateInvocation nonces subject audience expire provide) s now k
          (getProvideAnchors s) in
      let result := result0 ++ more in
      if bool_decide (selfSign = SelfSignNo) then
        if bool_decide (length result = 0) then (inr ErrNotAuthorized, s) else (inl result, s)
      else selfsign result k s.

Definition delegateBroadcast (nonces : nat → option bytes) (subject : DID) (topic : string)
    (expire : Z) (provide : list Capability) (s : Ctx) (k : nat) (anchor : DID)
    (tokenList : list Token) : list Token * nat :=
  delegateFrom
    (λ t c, Token_Anchor t anchor &&
            Token_AllowDelegation t ActBroadcast (ctx_DID s) DID_empty [topic] expire c)
    (λ t nonce providing, Token_DelegateBroadcast t (ctx_provider s) nonce subject topic
                            expire providing)
    nonces k provide tokenList.

Definition Ctx_DelegateBroadcast (s : Ctx) (now : Z) (nonces : nat → option bytes)
    (subject : DID) (topic : string) (expire : Z) (provide : list Capability)
    (selfSign : SelfSignMode) : (list Token + ucan_error) * Ctx :=
  if bool_decide (length provide = 0) then (inl [], s)
  else
    let selfsign result k s :=
      match Grant s (nonces k) ActBroadcast subject DID_empty [topic] expire 0 provide with
      | inl tokens => (inl (result ++ tokens), s)
      | inr e => (inr e, s)
      end in
    if bool_decide (selfSign = SelfSignOnly) then selfsign [] 0 s
    else
      let '(result, k, s) :=
        overProvideAnchors (delegateBroadcast nonces subject topic expire provide) s now 0
          (getProvideAnchors s) in
      if bool_decide (selfSign = SelfSignNo) then
        if bool_decide (length result = 0) then (inr ErrNotAuthorized, s) else (inl result, s)
      else selfsign result k s.

(** ** Consuming and discarding *)

(** The scan over the require anchors: does some side-chain token of [anchors]
    satisfy [test]?  It stops at the first anchor that has one. *)
Fixpoint scanRequire (test : Token → bool) (s : Ctx) (now : Z) (anchors : list DID) : bool * Ctx :=
  match anchors with
  | [] => (false, s)
  | a :: anchors' =>
      let '(l, s) := getRequireTokens s now a in
      if existsb test l then (true, s) else scanRequire test s now anchors'
  end.

(** Whether [Consume] goes on to verify the token. *)
Definition acceptable (s : Ctx) (now : Z) (origin : DID) (rootAnchors requireAnchors : list DID)
    (t : Token) : bool * Ctx :=
  if Token_Anchor t (ctx_DID s) then (true, s)
  else if Token_Anchor t origin then (true, s)
  else if existsb (Token_Anchor t) rootAnchors then (true, s)
  else scanRequire (λ rt, Token_AllowAction rt t) s now requireAnchors.

Fixpoint consumeTokens (s : Ctx) (now : Z) (origin : DID) (rootAnchors requireAnchors : list DID)
    (l : TokenList) : Ctx * outcome ucan_error unit :=
  match l with
  | [] => (s, Ok tt)
  | None :: _ => (s, Panic)
  | Some t :: l' =>
      let '(ok, s) := acceptable s now origin rootAnchors requireAnchors t in
      let s :=
        if ok then
          match Token_Verify (ctx_trust s) t now (ctx_revoke s) with
          | Some _ => s
          | None => consumeSubjectToken s t
          end
        else s in
      consumeTokens s now origin rootAnchors requireAnchors l'
  end.

Definition Consume (s : Ctx) (now : Z) (origin : DID) (capToken : bytes)
    : Ctx * outcome ucan_error unit :=
  if (maxCapabilitySize <? String.length capToken)%nat then (s, Err ErrTooBig)
  else
    match unmarshal_list capToken with
    | None => (s, Err ErrUnmarshal)
    | Some tokens => consumeTokens s now origin (getRoots s) (getRequireAnchors s) tokens
    end.

Definition sameGrant (t ot : Token) : bool :=
  bool_decide (Token_Issuer t = Token_Issuer ot) && bool_decide (Token_Nonce t = Token_Nonce ot).

Definition discardToken (m : gmap DID (list Token)) (t : Token) : gmap DID (list Token) :=
  match List.filter (λ ot, negb (sameGrant t ot)) (get_list m (Token_Subject t)) with
  | [] => delete (Token_Subject t) m
  | l => <[Token_Subject t := l]> m
  end.

Definition discardTokens (s : Ctx) (l : TokenList) : outcome ucan_error Ctx :=
  match eachToken discardToken (ctx_tokens s) l with
  | Ok m => Ok (set_tokens s m)
  | Err e => Err e
  | Panic => Panic
  end.

Definition Discard (s : Ctx) (capTokens : bytes) : outcome ucan_error Ctx :=
  match unmarshal_list capTokens with
  | None => Ok s
  | Some tokens => discardTokens s tokens
  end.

(** ** Requiring capabilities *)

(** The nested loops of [Require] and [RequireBroadcast]; [allow] is the call of
    [AllowInvocation] or [AllowBroadcast]. *)
Fixpoint requireCaps (allow : Token → Capability → bool) (s : Ctx) (now : Z) (anchor : DID)
    (roots requireAnchors : list DID) (t : Token) (require : list Capability) : bool * Ctx :=
  match require with
  | [] => (false, s)
  | c :: require' =>
      if Token_Anchor t anchor && allow t c then (true, s)
      else if existsb (λ r, Token_Anchor t r && allow t c) roots then (true, s)
      else
        let '(ok, s) := scanRequire (λ rt, Token_AllowAction rt t && allow t c) s now requireAnchors in
        if ok then (true, s) else requireCaps allow s now anchor roots requireAnchors t require'
  end.

Fixpoint requireTokens (allow : Token → Capability → bool) (s : Ctx) (now : Z) (anchor : DID)
    (roots requireAnchors : list DID) (tokenList : list Token) (require : list Capability)
    : bool * Ctx :=
  match tokenList with
  | [] => (false, s)
  | t :: l =>
      let '(ok, s) := requireCaps allow s now anchor roots requireAnchors t require in
      if ok then (true, s) else requireTokens allow s now anchor roots requireAnchors l require
  end.

Definition Require (s : Ctx) (now : Z) (anchor : DID) (subject audience : bytes)
    (require : list Capability) : option ucan_error * Ctx :=
  if bool_decide (length require = 0) then (Some ErrNotAuthorized, s)
  else match FromID subject with
  | None => (Some ErrDID, s)
  | Some subjectDID =>
      match FromID audience with
      | None => (Some ErrDID, s)
      | Some audienceDID =>
          let '(tokenList, s) := getSubjectTokens s now subjectDID in
          let '(ok, s) :=
            requireTokens (λ t c, Token_AllowInvocation t subjectDID audienceDID c) s now anchor
              (getRoots s) (getRequireAnchors s) tokenList require in
          (if ok then None else Some ErrNotAuthorized, s)
      end
  end.

Definition RequireBroadcast (s : Ctx) (now : Z) (anchor : DID) (subject : bytes) (topic : string)
    (require : list Capability) : option ucan_error * Ctx :=
  if bool_decide (length require = 0) then (Some ErrNotAuthorized, s)
  else match FromID subject with
  | None => (Some ErrDID, s)
  | Some subjectDID =>
      let '(tokenList, s) := getSubjectTokens s now subjectDID in
      let '(ok, s) :=
        requireTokens (λ t c, Token_AllowBroadcast t subjectDID topic c) s now anchor
          (getRoots s) (getRequireAnchors s) tokenList require in
      (if ok then None else Some ErrNotAuthorized, s)
  end.

(** ** Providing capabilities *)

Definition marshalTokens (l : list Token) : bytes + ucan_error :=
  match marshal_list (map Some l) with Some data => inl data | None => inr ErrMarshal end.

Definition Provide (s : Ctx) (now : Z) (nonces nonces' : nat → option bytes) (target : DID)
    (subject audience : bytes) (expire : Z) (invoke provide : list Capability)
    : (bytes + ucan_error) * Ctx :=
  if bool_decide (length invoke = 0) && bool_decide (length provide = 0)
  then (inr ErrNotAuthorized, s)
  else match FromID subject with
  | None => (inr ErrDID, s)
  | Some subjectDID =>
      match FromID audience with
      | None => (inr ErrDID, s)
      | Some audienceDID =>
          if bool_decide (length invoke = 0) then (inr ErrNotAuthorized, s)
          else
            match Ctx_DelegateInvocation s now nonces target subjectDID audienceDID expire invoke
                    SelfSignAlso with
            | (inr e, s) => (inr e, s)
            | (inl invocation, s) =>
                if bool_decide (length invocation = 0) then (inr ErrNotAuthorized, s)
                else if bool_decide (length provide = 0) then (marshalTokens invocation, s)
                else
                  match Ctx_Delegate s now nonces' target subjectDID [] expire 1 provide
                          SelfSignOnly with
                  | (inr e, s) => (inr e, s)
                  | (inl delegation, s) =>
                      if bool_decide (length delegation = 0) then (inr ErrNotAuthorized, s)
                      else (marshalTokens (invocation ++ delegation), s)
                  end
            end
      end
  end.

Definition ProvideBroadcast (s : Ctx) (now : Z) (nonces : nat → option bytes) (subject : bytes)
    (topic : string) (expire : Z) (provide : list Capability) : (bytes + ucan_error) * Ctx :=
  if bool_decide (length provide = 0) then (inr ErrNotAuthorized, s)
  else match FromID subject with
  | None => (inr ErrDID, s)
  | Some subjectDID =>
      match Ctx_DelegateBroadcast s now nonces subjectDID topic expire provide SelfSignAlso with
      | (inr e, s) => (inr e, s)
      | (inl broadcast, s) =>
          if bool_decide (length broadcast = 0) then (inr ErrNotAuthorized, s)
          else (marshalTokens broadcast, s)
      end
  end.

(** ** Garbage collection *)

(** One of the loops of [gcTokens]: drop the expired tokens, and the keys left
    with none. *)
Definition gcMap (now : Z) (m : gmap DID (list Token)) : gmap DID (list Token) :=
  omap (λ l, match List.filter (live now) l with [] => None | l' => Some l' end) m.

Definition gcTokens (s : Ctx) (now : Z) : Ctx :=
  let s := set_require s (gcMap now (ctx_require s)) in
  let s := set_provide s (gcMap now (ctx_provide s)) in
  let s := set_revoke s (RevocationSet_gc (ctx_revoke s) now) in
  set_tokens s (gcMap now (ctx_tokens s)).

(** [Start]: the flag says whether the collector goroutine was started. *)
Definition Start (s : Ctx) : bool * Ctx :=
  if ctx_stop s then (true, set_stop s true) else (false, s).

(** [Stop] cancels the collector and leaves the function in place. *)
Definition Stop (s : Ctx) : Ctx := s.

End context.
