(* ===== verification/Security.v ===== *)
(** * The security context of an actor (actor/security.go)

    [BasicSecurityContext] signs and verifies envelopes with the actor's key and
    asks the capability context, which actors of a node share, for the rest.
    Methods return the new state and their result; [time.Now] is the argument
    [now]; the private key is the function it signs with. *)

From S2P Require Import Prelude GoStrings Key Capability Token Envelope CapContext.

Record BasicSecurityContext := mkSec {
  sc_id : ID;
  sc_privk : bytes → option bytes;
  sc_cap : Ctx;
  sc_nonce : Z
}.

Definition set_cap (s : BasicSecurityContext) (c : Ctx) : BasicSecurityContext :=
  mkSec (sc_id s) (sc_privk s) c (sc_nonce s).

Section security.
  Context `{Codec : TokenCodec} `{Wire : WireCodec} `{Keys : KeyLib} `{Iter : MapIteration}.
  Context `{Msgs : EnvelopeCodec}.

Definition NewBasicSecurityContext (pubk : PubKey) (privk : bytes → option bytes) (capCxt : Ctx)
    (now : Z) : BasicSecurityContext + actor_error :=
  match IDFromPublicKey pubk with
  | None => inr ErrKey
  | Some id => inl (mkSec id privk capCxt (u64 now))
  end.

Definition sec_DID (s : BasicSecurityContext) : DID := ctx_DID (sc_cap s).

Definition sec_Nonce (s : BasicSecurityContext) : Z * BasicSecurityContext :=
  (sc_nonce s, mkSec (sc_id s) (sc_privk s) (sc_cap s) (u64 (sc_nonce s + 1))).

(** ** Envelopes *)

(** [Verify]: [None] when the envelope is alive and its signature matches. *)
Definition sec_Verify (m : Envelope) (now : Z) : option actor_error :=
  if Expired m now then Some ErrMessageExpired
  else match PublicKeyFromID (Handle_ID (From m)) with
  | None => Some ErrKey
  | Some pubk =>
      match env_SignatureData m with
      | inr e => Some e
      | inl data =>
          match KeyVerify pubk data (default "" (env_Signature m)) with
          | None => Some ErrVerifying
          | Some ok => if negb ok then Some ErrSignatureVerification else None
          end
      end
  end.

Definition sec_Sign (s : BasicSecurityContext) (m : Envelope) : Envelope + actor_error :=
  if negb (ID_Equal (sc_id s) (Handle_ID (From m))) then inr ErrBadSender
  else match env_SignatureData m with
  | inr e => inr e
  | inl data =>
      match sc_privk s data with
      | None => inr ErrSigning
      | Some sig => inl (set_Signature m (Some sig))
      end
  end.

(** ** Capabilities *)

Definition selfMessage (s : BasicSecurityContext) (m : Envelope) : bool :=
  ID_Equal (sc_id s) (Handle_ID (From m)) && ID_Equal (sc_id s) (Handle_ID (To m)).

Definition sec_Discard (s : BasicSecurityContext) (m : Envelope)
    : outcome actor_error BasicSecurityContext :=
  match Discard (sc_cap s) (env_Capability m) with
  | Ok c => Ok (set_cap s c)
  | Err e => Err (ErrCapability e)
  | Panic => Panic
  end.

(** The end of [Require] and [RequireBroadcast]: on a refusal the tokens are
    discarded again and the error is returned. *)
Definition refuse (s : BasicSecurityContext) (m : Envelope) (e : ucan_error)
    : BasicSecurityContext * outcome actor_error unit :=
  match sec_Discard s m with
  | Ok s' => (s', Err (ErrCapability e))
  | Err e' => (s, Err e')
  | Panic => (s, Panic)
  end.

(** The capability context is shared: [between] is what other goroutines do to it after the
    tokens of the message are consumed and before the capabilities are required. *)
Definition sec_Require (between : Ctx → Ctx) (s : BasicSecurityContext) (now : Z) (m : Envelope) (invoke : list Capability)
    : BasicSecurityContext * outcome actor_error unit :=
  if selfMessage s m then (s, Ok tt)
  else match Consume (sc_cap s) now (Handle_DID (From m)) (env_Capability m) with
  | (c, Err e) => (set_cap s c, Err (ErrCapability e))
  | (c, Panic) => (set_cap s c, Panic)
  | (c, Ok _) =>
      let c := between c in
      match Require c now (ctx_DID c) (Handle_ID (From m)) (sc_id s) invoke with
      | (None, c) => (set_cap s c, Ok tt)
      | (Some e, c) => refuse (set_cap s c) m e
      end
  end.

Definition sec_RequireBroadcast (between : Ctx → Ctx) (s : BasicSecurityContext) (now : Z) (m : Envelope) (topic : string)
    (broadcast : list Capability) : BasicSecurityContext * outcome actor_error unit :=
  if negb (IsBroadcast m) then (s, Err ErrInvalidMessage)
  else if negb (bool_decide (topic = opt_Topic (Options m))) then (s, Err ErrInvalidMessage)
  else match Consume (sc_cap s) now (Handle_DID (From m)) (env_Capability m) with
  | (c, Err e) => (set_cap s c, Err (ErrCapability e))
  | (c, Panic) => (set_cap s c, Panic)
  | (c, Ok _) =>
      let c := between c in
      match RequireBroadcast c now (ctx_DID c) (Handle_ID (From m)) topic broadcast with
      | (None, c) => (set_cap s c, Ok tt)
      | (Some e, c) => refuse (set_cap s c) m e
      end
  end.

(** The nonces of the tokens [Provide] builds are arguments. *)
Definition sec_Provide (s : BasicSecurityContext) (now : Z) (nonces nonces' : nat → option bytes)
    (m : Envelope) (invoke delegate : list Capability)
    : (Envelope + actor_error) * BasicSecurityContext :=
  if selfMessage s m then (sec_Sign s m, s)
  else match Provide (sc_cap s) now nonces nonces' (Handle_DID (To m)) (sc_id s) (Handle_ID (To m))
               (opt_Expire (Options m)) invoke delegate with
  | (inr e, c) => (inr (ErrCapability e), set_cap s c)
  | (inl tokens, c) => (sec_Sign s (set_Capability m tokens), set_cap s c)
  end.

Definition sec_ProvideBroadcast (s : BasicSecurityContext) (now : Z) (nonces : nat → option bytes)
    (m : Envelope) (topic : string) (broadcast : list Capability)
    : (Envelope + actor_error) * BasicSecurityContext :=
  if negb (IsBroadcast m) then (inr ErrInvalidMessage, s)
  else if negb (bool_decide (topic = opt_Topic (Options m))) then (inr ErrInvalidMessage, s)
  else match ProvideBroadcast (sc_cap s) now nonces (Handle_ID (From m)) topic
               (opt_Expire (Options m)) broadcast with
  | (inr e, c) => (inr (ErrCapability e), set_cap s c)
  | (inl tokens, c) => (sec_Sign s (set_Capability m tokens), set_cap s c)
  end.

(** [MakeExpiry] gives the time [expiry] from now. *)
Definition sec_Grant (s : BasicSecurityContext) (now : Z) (nonce : option bytes) (sub aud : DID)
    (caps : list Capability) (expiry : Z) : BasicSecurityContext * outcome actor_error unit :=
  match Grant (sc_cap s) nonce ActDelegate sub aud [] (u64 (now + expiry)) 1 caps with
  | inr e => (s, Err (ErrCapability e))
  | inl tokens =>
      match AddRoots (sc_cap s) now [] (map Some tokens) [] [] with
      | (c, Ok _) => (set_cap s c, Ok tt)
      | (c, Err e) => (set_cap s c, Err (ErrCapability e))
      | (c, Panic) => (set_cap s c, Panic)
      end
  end.

(** The option that provides the capabilities and signs (actor/msg.go). *)
Definition WithMessageSignature (s : BasicSecurityContext) (now : Z)
    (nonces nonces' : nat → option bytes) (invoke delegate : list Capability) (m : Envelope)
    : (Envelope + actor_error) * BasicSecurityContext :=
  if negb (ID_Equal (Handle_ID (From m)) (sc_id s)) then (inr ErrInvalidSecurityContext, s)
  else
    let '(n, s) := sec_Nonce s in
    let m := set_env_Nonce m n in
    if IsBroadcast m
    then sec_ProvideBroadcast s now nonces m (opt_Topic (Options m)) invoke
    else sec_Provide s now nonces nonces' m invoke delegate.

End security.
