(* ===== verification/Dispatch.v ===== *)
(** * The reaction kernel (actor/dispatch.go)

    A [Dispatch] queues incoming envelopes, verifies their signatures, checks
    the capabilities their behaviour requires and runs the behaviour's
    continuation under the rate limiter.  Its goroutines are modelled by the
    steps between which they can interleave: taking an element off a channel,
    the section [dispatch] runs under the lock, acquiring the limiter, and the
    end of a handler.  A continuation is an element of [Cont]; a [BehaviorState]
    is a pointer, whose identity is [bs_ref]. *)

From S2P Require Import Prelude GoStrings Key Capability Token Envelope Limiter CapContext Security.

Record BehaviorOptions := mkBehaviorOptions {
  bo_Capability : list Capability;
  bo_Expire : Z;
  bo_OneShot : bool;
  bo_Topic : string
}.

Abbreviation BehaviorOption := (BehaviorOptions → BehaviorOptions + actor_error) (only parsing).

Definition WithBehaviorExpiry (expire : Z) : BehaviorOption := λ o,
  inl (mkBehaviorOptions (bo_Capability o) expire (bo_OneShot o) (bo_Topic o)).
Definition WithBehaviorCapability (require : list Capability) : BehaviorOption := λ o,
  inl (mkBehaviorOptions require (bo_Expire o) (bo_OneShot o) (bo_Topic o)).
Definition WithBehaviorOneShot (oneShot : bool) : BehaviorOption := λ o,
  inl (mkBehaviorOptions (bo_Capability o) (bo_Expire o) oneShot (bo_Topic o)).
Definition WithBehaviorTopic (topic : string) : BehaviorOption := λ o,
  inl (mkBehaviorOptions (bo_Capability o) (bo_Expire o) (bo_OneShot o) topic).

Record BehaviorState {Cont : Type} := mkBehavior {
  bs_ref : nat;
  bs_cont : Cont;
  bs_opt : BehaviorOptions
}.
Arguments BehaviorState : clear implicits.

(** [BehaviorState.Expired] *)
Definition behaviorExpired {Cont} (b : BehaviorState Cont) (now : Z) : bool :=
  if (0 <? bo_Expire (bs_opt b))%Z then (bo_Expire (bs_opt b) <? u64 now)%Z else false.

(** The context of the dispatch: nil before [Start], done after [Stop]. *)
Inductive RunContext := CtxNil | CtxLive | CtxDone.

(** The capacity of both channels. *)
Definition queueSize : nat := 100.

Record Dispatch {Cont L : Type} := mkDispatch {
  sctx : BasicSecurityContext;
  q : list Envelope;
  vq : list Envelope;
  behaviors : gmap string (BehaviorState Cont);
  runctx : RunContext;
  running : bool;
  limiter : L;
  nextRef : nat      (* the next pointer an allocation returns *)
}.
Arguments Dispatch : clear implicits.

Section dispatch.
  Context `{Codec : TokenCodec} `{Wire : WireCodec} `{Keys : KeyLib} `{Iter : MapIteration}.
  Context `{Msgs : EnvelopeCodec} {Cont L : Type} `{Lim : RateLimiter L}.
  Implicit Types (k : Dispatch Cont L) (m : Envelope) (b : BehaviorState Cont).

Definition set_sctx k s := mkDispatch Cont L s (q k) (vq k) (behaviors k) (runctx k) (running k) (limiter k) (nextRef k).
Definition set_q k x := mkDispatch Cont L (sctx k) x (vq k) (behaviors k) (runctx k) (running k) (limiter k) (nextRef k).
Definition set_vq k x := mkDispatch Cont L (sctx k) (q k) x (behaviors k) (runctx k) (running k) (limiter k) (nextRef k).
Definition set_behaviors k x := mkDispatch Cont L (sctx k) (q k) (vq k) x (runctx k) (running k) (limiter k) (nextRef k).
Definition set_run k c r := mkDispatch Cont L (sctx k) (q k) (vq k) (behaviors k) c r (limiter k) (nextRef k).
Definition set_limiter k l := mkDispatch Cont L (sctx k) (q k) (vq k) (behaviors k) (runctx k) (running k) l (nextRef k).
Definition set_nextRef k n := mkDispatch Cont L (sctx k) (q k) (vq k) (behaviors k) (runctx k) (running k) (limiter k) n.

Definition NewDispatch (s : BasicSecurityContext) (l : L) : Dispatch Cont L :=
  mkDispatch Cont L s [] [] ∅ CtxNil false l 0.

Definition Dispatch_Start k : Dispatch Cont L :=
  if running k then k else set_run k CtxLive true.

Definition Dispatch_Stop k : Dispatch Cont L :=
  if running k then set_run k CtxDone false else k.

Fixpoint applyBehaviorOptions (o : BehaviorOptions) (opt : list BehaviorOption)
    : BehaviorOptions + actor_error :=
  match opt with
  | [] => inl o
  | f :: opt' => match f o with inl o' => applyBehaviorOptions o' opt' | inr e => inr e end
  end.

Definition AddBehavior k (behavior : string) (continuation : Cont) (opt : list BehaviorOption)
    : Dispatch Cont L * option actor_error :=
  let k' := set_nextRef k (S (nextRef k)) in
  match applyBehaviorOptions (mkBehaviorOptions [behavior] 0 false "") opt with
  | inr e => (k', Some e)
  | inl o => (set_behaviors k' (<[behavior := mkBehavior _ (nextRef k) continuation o]> (behaviors k)), None)
  end.

Definition RemoveBehavior k (behavior : string) : Dispatch Cont L :=
  set_behaviors k (delete behavior (behaviors k)).

(** [Receive]: [pick] is the choice of the select statement when both the queue
    has room and the context is done. *)
Definition Receive k m (pick : bool) : Dispatch Cont L * outcome actor_error unit :=
  let room := (length (q k) <? queueSize)%nat in
  match runctx k with
  | CtxNil => (k, Panic)
  | CtxLive => if room then (set_q k (q k ++ [m]), Ok tt) else (k, Err ErrQueueFull)
  | CtxDone => if room && pick then (set_q k (q k ++ [m]), Err ErrClosed) else (k, Err ErrClosed)
  end.

Definition UpdateSecurityContext k (s : BasicSecurityContext) : Dispatch Cont L := set_sctx k s.

(** The body of [recv] for a message taken off [q]. *)
Definition recv k (now : Z) m : Dispatch Cont L :=
  match sec_Verify m now with
  | Some _ => k
  | None => if (length (vq k) <? queueSize)%nat then set_vq k (vq k ++ [m]) else k
  end.

(** The part of [dispatch] under the lock, for a message taken off [vq]: the
    behaviour to run, if any.  The lock is the kernel's; the capability context is shared,
    and [between] is what others do to it while the message is being authorised. *)
Definition dispatch (between : Ctx → Ctx) k (now : Z) m : Dispatch Cont L * outcome actor_error (option (BehaviorState Cont)) :=
  match behaviors k !! Behavior m with
  | None => (k, Ok None)
  | Some b =>
      if behaviorExpired b now then (RemoveBehavior k (Behavior m), Ok None)
      else
        let '(s, r) :=
          if IsBroadcast m
          then sec_RequireBroadcast between (sctx k) now m (bo_Topic (bs_opt b)) (bo_Capability (bs_opt b))
          else sec_Require between (sctx k) now m (bo_Capability (bs_opt b)) in
        let k := set_sctx k s in
        match r with
        | Err _ => (k, Ok None)
        | Panic => (k, Panic)
        | Ok _ => ((if bo_OneShot (bs_opt b) then RemoveBehavior k (Behavior m) else k), Ok (Some b))
        end
  end.

(** After the lock: acquire the limiter; the flag says whether the handler runs. *)
Definition dispatch_acquire k m : Dispatch Cont L * outcome actor_error bool :=
  match Acquire (limiter k) m with
  | (l, None) => (set_limiter k l, Ok true)
  | (l, Some _) =>
      match sec_Discard (sctx k) m with
      | Ok s => (set_sctx (set_limiter k l) s, Ok false)
      | Err _ => (set_limiter k l, Ok false)
      | Panic => (set_limiter k l, Panic)
      end
  end.

(** The deferred release at the end of a handler. *)
Definition handler_done k m : Dispatch Cont L := set_limiter k (Release (limiter k) m).

(** One tick of [gc]. *)
Definition Dispatch_gc k (now : Z) : Dispatch Cont L :=
  set_behaviors k (filter (λ xb : string * BehaviorState Cont, behaviorExpired xb.2 now = false) (behaviors k)).

End dispatch.
