(* ===== verification/Actor.v ===== *)
(** * Actors and their registry (actor/basic.go, actor/registry.go)

    A [BasicActor] connects a dispatch to the network.  Its security context and
    its limiter are the ones of its dispatch (the code shares the objects).  The
    network is a parameter of each call: what the call asks of it is returned as
    an [Effect], what it answered is an argument. *)

From stdpp Require Import pretty.
From S2P Require Import Prelude GoStrings Key Capability Token Envelope Limiter CapContext Security Dispatch.

(** ** The registry *)

Module Registry.

Record Info := mkInfo { Addr : Handle; Parent : Handle; Children : list Handle }.

Abbreviation registry := (gmap string Info) (only parsing).

Definition newRegistry : registry := ∅.

Definition Actors (r : registry) : registry := r.

(** A nil slice of children becomes an empty one: both are [[]]. *)
Definition Add (r : registry) (a parent : Handle) (children : list Handle) : registry :=
  <[InboxAddress (Handle_Address a) := mkInfo a parent children]> r.

Definition Get (r : registry) (a : Handle) : option Info := r !! InboxAddress (Handle_Address a).

Definition SetParent (r : registry) (a parent : Handle) : option registry :=
  match r !! InboxAddress (Handle_Address a) with
  | None => None
  | Some info => Some (<[InboxAddress (Handle_Address a) := mkInfo (Addr info) parent (Children info)]> r)
  end.

Definition GetParent (r : registry) (a : Handle) : option Handle :=
  match r !! InboxAddress (Handle_Address a) with
  | None => None
  | Some info => Some (Parent info)
  end.

End Registry.

(** ** Actors *)

Definition HealthCheckBehavior : string := "/dms/actor/healthcheck".
Definition HealthCheckGrantDuration : Z := 7200 * second.

(** The continuation of a behaviour: one of the program's, or the closure [Invoke]
    registers, which sends the reply on a channel and closes it. *)
Inductive Continuation (C : Type) := ContUser (c : C) | ContReply (chan : Z).
Arguments ContUser {C} c.
Arguments ContReply {C} chan.

(** What a call asks of the network. *)
Inductive Effect :=
| EffHandle (protocol : string)
| EffUnhandle (protocol : string)
| EffSend (host protocol : string) (data : bytes) (expiry : Z * Z)
| EffPublish (topic : string) (data : bytes)
| EffSubscribe (topic : string)
| EffUnsubscribe (topic : string) (subID : Z).

Inductive ValidationResult := ValidationAccept | ValidationReject | ValidationIgnore.

#[export] Instance ValidationResult_eq_dec : EqDecision ValidationResult.
Proof. solve_decision. Defined.

Record BasicActor {C L : Type} := mkActor {
  act_dispatch : Dispatch (Continuation C) L;
  act_registry : gmap string Registry.Info;
  act_supervisor : Handle;
  act_parent : Handle;
  act_children : gmap DID Handle;
  act_self : Handle;
  act_subscriptions : gmap string Z
}.
Arguments BasicActor : clear implicits.

(** [fmt.Sprintf("actor/%s/messages/0.0.1", inbox)] *)
Definition messageProtocol (inbox : string) : string := "actor/" +:+ (inbox +:+ "/messages/0.0.1").

Section actor.
  Context `{Codec : TokenCodec} `{Wire : WireCodec} `{Keys : KeyLib} `{Iter : MapIteration}.
  Context `{Msgs : EnvelopeCodec} {C L : Type} `{Lim : RateLimiter L}.
  Implicit Types (a : BasicActor C L) (m : Envelope).

Definition set_dispatch a k : BasicActor C L :=
  mkActor _ _ k (act_registry a) (act_supervisor a) (act_parent a) (act_children a) (act_self a)
    (act_subscriptions a).
Definition act_security a : BasicSecurityContext := sctx (act_dispatch a).
Definition set_security a (s : BasicSecurityContext) : BasicActor C L :=
  set_dispatch a (set_sctx (act_dispatch a) s).

Definition grantSupervisorCapabilities (s : BasicSecurityContext) (self supervisor : Handle) (now : Z)
    (nonce : option bytes) : BasicSecurityContext * outcome actor_error unit :=
  if Handle_Empty supervisor || ID_Equal (Handle_ID supervisor) (Handle_ID self) then (s, Ok tt)
  else match FromID (Handle_ID self) with
  | None => (s, Err ErrKey)
  | Some actorDID =>
      match Grant (sc_cap s) nonce ActDelegate (Handle_DID supervisor) actorDID []
              (u64 (now + HealthCheckGrantDuration)) 0 [HealthCheckBehavior] with
      | inr e => (s, Err (ErrCapability e))
      | inl tokens =>
          match AddRoots (sc_cap s) now [] (map Some tokens) [] [] with
          | (c, Ok _) => (set_cap s c, Ok tt)
          | (c, Err e) => (set_cap s c, Err (ErrCapability e))
          | (c, Panic) => (set_cap s c, Panic)
          end
      end
  end.

(** [New]; the network and the security context are not nil. *)
Definition New (supervisor : Handle) (security : BasicSecurityContext) (lim : L) (self : Handle)
    (now : Z) (nonce : option bytes) : outcome actor_error (BasicActor C L) :=
  match grantSupervisorCapabilities security self supervisor now nonce with
  | (s, Ok _) => Ok (mkActor _ _ (NewDispatch s lim) Registry.newRegistry supervisor Handle_zero ∅ self ∅)
  | (_, Err e) => Err e
  | (_, Panic) => Panic
  end.

(** [Start]; [ok] is the answer of [HandleMessage]. *)
Definition Actor_Start a (ok : bool) : BasicActor C L * list Effect * option actor_error :=
  let effs := [EffHandle (messageProtocol (InboxAddress (Handle_Address (act_self a))))] in
  if ok then (set_dispatch a (Dispatch_Start (act_dispatch a)), effs, None)
  else (a, effs, Some ErrNetwork).

Definition Actor_Receive a m (pick : bool) : BasicActor C L * outcome actor_error unit :=
  let receive :=
    let '(k, r) := Receive (act_dispatch a) m pick in (set_dispatch a k, r) in
  if ID_Equal (Handle_ID (act_self a)) (Handle_ID (To m)) then receive
  else if IsBroadcast m then receive
  else (a, Err ErrInvalidMessage).

Definition handleMessage a (data : bytes) (srcPeerID : string) (pick : bool)
    : BasicActor C L * outcome actor_error unit :=
  match unmarshal_msg data with
  | None => (a, Ok tt)
  | Some m =>
      if negb (ID_Equal (Handle_ID (act_self a)) (Handle_ID (To m))) then (a, Ok tt)
      else if negb (bool_decide (HostID (Handle_Address (From m)) = srcPeerID)) then (a, Ok tt)
      else if negb (Allow (limiter (act_dispatch a)) m) then (a, Ok tt)
      else
        match Actor_Receive a m pick with
        | (a', Panic) => (a', Panic)
        | (a', _) => (a', Ok tt)
        end
  end.

Definition Actor_UpdateSecurityContext a (s : BasicSecurityContext) : BasicActor C L :=
  set_dispatch a (UpdateSecurityContext (act_dispatch a) s).

Definition Actor_AddBehavior a (behavior : string) (c : Continuation C) (opt : list BehaviorOption)
    : BasicActor C L * option actor_error :=
  let '(k, r) := AddBehavior (act_dispatch a) behavior c opt in (set_dispatch a k, r).

Definition Actor_RemoveBehavior a (behavior : string) : BasicActor C L :=
  set_dispatch a (RemoveBehavior (act_dispatch a) behavior).

(** Number and sign an envelope that is not signed yet; [provide] is the call on
    the security context. *)
Definition prepare (s : BasicSecurityContext) m
    (provide : BasicSecurityContext → Envelope → (Envelope + actor_error) * BasicSecurityContext)
    : (Envelope + actor_error) * BasicSecurityContext :=
  match env_Signature m with
  | Some _ => (inl m, s)
  | None =>
      let '(m, s) :=
        if bool_decide (env_Nonce m = 0%Z)
        then let '(n, s') := sec_Nonce s in (set_env_Nonce m n, s') else (m, s) in
      provide s m
  end.

(** [Send]; [ok] is the answer of [SendMessage]. *)
Definition Send a m (now : Z) (nonces nonces' : nat → option bytes) (pick ok : bool)
    : BasicActor C L * list Effect * outcome actor_error unit :=
  if ID_Equal (Handle_ID (To m)) (Handle_ID (act_self a))
  then let '(a', r) := Actor_Receive a m pick in (a', [], r)
  else
    let invoke := [Behavior m] in
    let delegate :=
      if bool_decide (opt_ReplyTo (Options m) = "") then [] else [opt_ReplyTo (Options m)] in
    match prepare (act_security a) m (λ s m, sec_Provide s now nonces nonces' m invoke delegate) with
    | (inr e, s) => (set_security a s, [], Err e)
    | (inl m, s) =>
        let a := set_security a s in
        match marshal_msg m with
        | None => (a, [], Err ErrEncoding)
        | Some data =>
            (a, [EffSend (HostID (Handle_Address (To m)))
                   (messageProtocol (InboxAddress (Handle_Address (To m)))) data (Expiry m)],
             if ok then Ok tt else Err ErrNetwork)
        end
    end.

(** [Invoke]; the reply channel is named by the nonce taken for it, or by the
    number given when the message names its reply behaviour. *)
Definition Invoke a m (now : Z) (nonces nonces' : nat → option bytes) (pick ok : bool) (chan : Z)
    : BasicActor C L * list Effect * outcome actor_error Z :=
  let '(m, a, chan) :=
    if bool_decide (opt_ReplyTo (Options m) = "") then
      let '(n, s) := sec_Nonce (act_security a) in
      (set_Options m (mkOptions (opt_Expire (Options m))
         ("/dms/actor/replyto/" +:+ pretty (Z.to_N n)) (opt_Topic (Options m))), set_security a s, n)
    else (m, a, chan) in
  let replyTo := opt_ReplyTo (Options m) in
  match Actor_AddBehavior a replyTo (ContReply chan)
          [WithBehaviorExpiry (opt_Expire (Options m)); WithBehaviorOneShot true] with
  | (a, Some e) => (a, [], Err e)
  | (a, None) =>
      match Send a m now nonces nonces' pick ok with
      | (a, effs, Ok _) => (a, effs, Ok chan)
      | (a, effs, Err e) => (Actor_RemoveBehavior a replyTo, effs, Err e)
      | (a, effs, Panic) => (a, effs, Panic)
      end
  end.

Definition Publish a m (now : Z) (nonces : nat → option bytes) (ok : bool)
    : BasicActor C L * list Effect * outcome actor_error unit :=
  if negb (IsBroadcast m) then (a, [], Err ErrInvalidMessage)
  else
    match prepare (act_security a) m
            (λ s m, sec_ProvideBroadcast s now nonces m (opt_Topic (Options m)) [Behavior m]) with
    | (inr e, s) => (set_security a s, [], Err e)
    | (inl m, s) =>
        let a := set_security a s in
        match marshal_msg m with
        | None => (a, [], Err ErrEncoding)
        | Some data => (a, [EffPublish (opt_Topic (Options m)) data], if ok then Ok tt else Err ErrNetwork)
        end
    end.

(** [Subscribe]; [sub] is the answer of the network, [setup] what the setup
    functions return in order. *)
Definition Subscribe a (topic : string) (sub : option Z) (setup : list bool)
    : BasicActor C L * list Effect * option actor_error :=
  match act_subscriptions a !! topic with
  | Some _ => (a, [], None)
  | None =>
      match sub with
      | None => (a, [EffSubscribe topic], Some ErrNetwork)
      | Some subID =>
          if forallb id setup
          then (mkActor _ _ (act_dispatch a) (act_registry a) (act_supervisor a) (act_parent a)
                  (act_children a) (act_self a) (<[topic := subID]> (act_subscriptions a)),
                [EffSubscribe topic], None)
          else (a, [EffSubscribe topic; EffUnsubscribe topic subID], Some ErrNetwork)
      end
  end.

(** [validateBroadcast]; validator data is nothing, an envelope or something else. *)
Inductive ValidatorData := VNil | VEnvelope (m : Envelope) | VOther.

Definition validateBroadcast a (topic : string) (data : bytes) (validatorData : ValidatorData) (now : Z)
    : ValidationResult * ValidatorData :=
  match validatorData with
  | VOther => (ValidationReject, VNil)
  | VEnvelope m => (ValidationAccept, VEnvelope m)
  | VNil =>
      match unmarshal_msg data with
      | None => (ValidationReject, VNil)
      | Some m =>
          if negb (IsBroadcast m) then (ValidationReject, VNil)
          else if negb (bool_decide (opt_Topic (Options m) = topic)) then (ValidationReject, VNil)
          else if Expired m now then (ValidationIgnore, VNil)
          else if negb (bool_decide (sec_Verify m now = None)) then (ValidationReject, VNil)
          else if negb (Allow (limiter (act_dispatch a)) m) then (ValidationIgnore, VNil)
          else (ValidationAccept, VEnvelope m)
      end
  end.

Definition handleBroadcast a (data : bytes) (pick : bool) : BasicActor C L * outcome actor_error unit :=
  match unmarshal_msg data with
  | None => (a, Ok tt)
  | Some m =>
      if Handle_Equal (From m) (act_self a) then (a, Ok tt)
      else
        match Actor_Receive a m pick with
        | (a', Panic) => (a', Panic)
        | (a', _) => (a', Ok tt)
        end
  end.

(** [CreateChild]; [privk] and [pubk] are the key pair of the options. *)
Definition CreateChild a (id : string) (super : Handle) (pubk : PubKey) (privk : bytes → option bytes)
    (now : Z) (nonce : option bytes) : BasicActor C L * outcome actor_error (BasicActor C L) :=
  match NewBasicSecurityContext pubk privk (sc_cap (act_security a)) now with
  | inr e => (a, Err e)
  | inl s =>
      let handle :=
        mkHandle (sc_id s) (sec_DID s) (mkAddress (HostID (Handle_Address (act_self a))) id) in
      match New super s (limiter (act_dispatch a)) handle now nonce with
      | Err e => (a, Err e)
      | Panic => (a, Panic)
      | Ok child =>
          (* the child granted to its supervisor in the context both share *)
          let a := set_security a (set_cap (act_security a) (sc_cap (act_security child))) in
          let child := mkActor _ _ (act_dispatch child) (act_registry child) (act_supervisor child)
                         (act_self a) (act_children child) (act_self child) (act_subscriptions child) in
          (mkActor _ _ (act_dispatch a) (Registry.Add (act_registry a) handle (act_self a) [])
             (act_supervisor a) (act_parent a) (<[Handle_DID handle := handle]> (act_children a))
             (act_self a) (act_subscriptions a), Ok child)
      end
  end.

(** [Stop]; the subscriptions are visited in map order. *)
Definition Actor_Stop a : BasicActor C L * list Effect :=
  (set_dispatch a (Dispatch_Stop (act_dispatch a)),
   map (λ '(topic, subID), EffUnsubscribe topic subID) (map_to_list (act_subscriptions a)) ++
   [EffUnhandle (messageProtocol (InboxAddress (Handle_Address (act_self a))))]).

End actor.
