(* ===== verification/CapContextSpec.v ===== *)
(** * Invariants of the capability context

    What every reachable state of a [BasicCapabilityContext] satisfies: every
    stored token verified against the revocations in force, the revocation set
    holds signed revocations under their own keys.  The methods that only read
    shrink the stored lists; the others are treated one by one. *)

From S2P Require Import Prelude GoStrings Key Capability Token TokenSpec TokenProps CapContext.

(** ** Verification under a later clock and fewer revocations *)

Section retime.
  Context `{Codec : TokenCodec} (trust : TrustContext).

Lemma DMS_verify_retime d now0 now depth R R' :
  DMS_verify trust d now0 depth R = None →
  DMS_ExpireBefore d now = false →
  (∀ k, Revoked R' k = true → Revoked R k = true) →
  DMS_verify trust d now depth R' = None.
Proof.
  intros Hv Hexp Hsub. revert depth Hv Hexp.
  induction d as [d IH] using DMSToken_chain_ind. intros depth.
  rewrite !DMS_verify_None. intros (_ & Hs & Hcase) Hexp.
  split_and!; [done|done|]. destruct Hcase as [?|(Hact & Hw & Hr & Hc)]; [by left|right].
  split_and!; try done.
  - unfold DMS_Revoked in *. destruct (Revoked R' _) eqn:E; [|done].
    apply Hsub in E. congruence.
  - apply verify_chain_None in Hc. apply verify_chain_None.
    destruct Hc as [?|(p & Hp & He & Hdel & Hvp)]; [by left|right].
    exists p. split_and!; auto. apply (IH p Hp); [done|].
    apply DMS_ExpireBefore_false in Hexp as [_ Hexp]. destruct Hp as [u Hp].
    by apply Hexp in Hp.
Qed.

Lemma Verify_retime t now0 now R R' :
  Token_Verify trust t now0 R = None → Token_ExpireBefore t now = false →
  (∀ k, Revoked R' k = true → Revoked R k = true) →
  Token_Verify trust t now R' = None.
Proof.
  unfold Token_Verify. destruct t as [[d|] u]; cbn; [|done]. apply DMS_verify_retime.
Qed.

Lemma Verify_live t now R : Token_Verify trust t now R = None → Token_ExpireBefore t now = false.
Proof.
  unfold Token_Verify. destruct t as [[d|] u]; cbn; [|done].
  rewrite DMS_verify_None. by intros [? _].
Qed.
End retime.

(** ** Stored tokens *)

Definition in_map (m : gmap DID (list Token)) (t : Token) : Prop :=
  ∃ k l, m !! k = Some l ∧ In t l.

Definition stored (s : Ctx) (t : Token) : Prop :=
  in_map (ctx_require s) t ∨ in_map (ctx_provide s) t ∨ in_map (ctx_tokens s) t.

Definition map_sub (m' m : gmap DID (list Token)) : Prop :=
  ∀ k l', m' !! k = Some l' → ∃ l, m !! k = Some l ∧ ∀ t, In t l' → In t l.

#[export] Instance map_sub_preorder : PreOrder map_sub.
Proof.
  split.
  - intros m k l Hl. eauto.
  - intros m1 m2 m3 H12 H23 k l Hl. destruct (H12 _ _ Hl) as (l2 & Hl2 & ?).
    destruct (H23 _ _ Hl2) as (l3 & ? & ?). exists l3. naive_solver.
Qed.

Lemma map_sub_in m' m t : map_sub m' m → in_map m' t → in_map m t.
Proof. intros Hsub (k & l' & Hl & Hin). destruct (Hsub _ _ Hl) as (l & ? & ?). exists k, l. auto. Qed.

(** A step that changes nothing but drops tokens from the lists. *)
Record shrinks (s s' : Ctx) : Prop := {
  sh_name : ctx_name s' = ctx_name s;
  sh_provider : ctx_provider s' = ctx_provider s;
  sh_trust : ctx_trust s' = ctx_trust s;
  sh_roots : ctx_roots s' = ctx_roots s;
  sh_revoke : ctx_revoke s' = ctx_revoke s;
  sh_stop : ctx_stop s' = ctx_stop s;
  sh_require : map_sub (ctx_require s') (ctx_require s);
  sh_provide : map_sub (ctx_provide s') (ctx_provide s);
  sh_tokens : map_sub (ctx_tokens s') (ctx_tokens s)
}.

#[export] Instance shrinks_preorder : PreOrder shrinks.
Proof.
  split.
  - intros s. by split.
  - intros s1 s2 s3 [] []. split; try congruence; etrans; eauto.
Qed.

Lemma shrinks_stored s s' t : shrinks s s' → stored s' t → stored s t.
Proof. intros []. unfold stored. naive_solver eauto using map_sub_in. Qed.

Lemma filter_sub_map m k (f : Token → bool) l :
  m !! k = Some l → map_sub (<[k := List.filter f l]> m) m.
Proof.
  intros Hl k' l'. destruct (decide (k = k')) as [->|Hne].
  - rewrite lookup_insert_eq. intros [= <-]. exists l. split; [done|].
    intros t Ht%filter_In. tauto.
  - rewrite lookup_insert_ne by done. eauto.
Qed.

Lemma getTokens_spec m k now l m' :
  getTokens m k now = (l, m') →
  map_sub m' m ∧ ∀ t, In t l → in_map m t ∧ live now t = true.
Proof.
  unfold getTokens. destruct (m !! k) as [l0|] eqn:Hk; intros [= <- <-].
  - split; [by apply filter_sub_map|]. intros t [Hin Hl]%filter_In.
    split; [|done]. by exists k, l0.
  - by split.
Qed.

Lemma getRequireTokens_spec s now k l s' :
  getRequireTokens s now k = (l, s') →
  shrinks s s' ∧ ∀ t, In t l → in_map (ctx_require s) t ∧ live now t = true.
Proof.
  unfold getRequireTokens. destruct (getTokens _ _ _) as [l0 m] eqn:Hg. intros [= <- <-].
  apply getTokens_spec in Hg as [Hm Hl]. by split.
Qed.

Lemma getProvideTokens_spec s now k l s' :
  getProvideTokens s now k = (l, s') →
  shrinks s s' ∧ ∀ t, In t l → in_map (ctx_provide s) t ∧ live now t = true.
Proof.
  unfold getProvideTokens. destruct (getTokens _ _ _) as [l0 m] eqn:Hg. intros [= <- <-].
  apply getTokens_spec in Hg as [Hm Hl]. by split.
Qed.

Lemma getTokens_list m k now l m' :
  getTokens m k now = (l, m') → ∀ t, In t l ↔ In t (get_list m k) ∧ live now t = true.
Proof.
  unfold getTokens, get_list. destruct (m !! k) as [l0|]; intros [= <- <-] t.
  - apply filter_In.
  - simpl. tauto.
Qed.

Lemma getSubjectTokens_spec s now k l s' :
  getSubjectTokens s now k = (l, s') →
  shrinks s s' ∧ ∀ t, In t l ↔ In t (get_list (ctx_tokens s) k) ∧ live now t = true.
Proof.
  unfold getSubjectTokens. destruct (getTokens _ _ _) as [l0 m] eqn:Hg. intros [= <- <-].
  pose proof (getTokens_list _ _ _ _ _ Hg). apply getTokens_spec in Hg as [Hm _]. by split.
Qed.

(** ** The methods that only read *)

Section readers.
  Context `{Codec : TokenCodec} `{Wire : WireCodec} `{Keys : KeyLib} `{Iter : MapIteration}.

Lemma scanRequire_spec test s now anchors b s' :
  scanRequire test s now anchors = (b, s') →
  shrinks s s' ∧
  (b = true → ∃ rt, in_map (ctx_require s) rt ∧ live now rt = true ∧ test rt = true).
Proof.
  revert s. induction anchors as [|a anchors IH]; intros s; simpl.
  - intros [= <- <-]. by split.
  - destruct (getRequireTokens s now a) as [l s1] eqn:Hg.
    apply getRequireTokens_spec in Hg as [Hs1 Hl].
    destruct (existsb test l) eqn:He.
    + intros [= <- <-]. split; [done|]. intros _.
      apply existsb_exists in He as (rt & Hin & Ht). exists rt. naive_solver.
    + intros [Hs2 Hrt]%IH. split; [by etrans|]. intros [rt (Hin & ? & ?)]%Hrt.
      exists rt. split_and!; auto. eapply map_sub_in; [apply Hs1|done].
Qed.

(** Why a token has authority: an anchor in its chain, or a live side chain of
    the context that allows it. *)
Definition anchored (s : Ctx) (now : Z) (anchor : DID) (t : Token) : Prop :=
  Token_Anchor t anchor = true ∨
  (∃ r, r ∈ ctx_roots s ∧ Token_Anchor t r = true) ∨
  (∃ rt, in_map (ctx_require s) rt ∧ live now rt = true ∧ Token_AllowAction rt t = true).

Lemma in_getRoots s r : In r (getRoots s) → r ∈ ctx_roots s.
Proof.
  unfold getRoots. intros Hin. eapply Permutation_in in Hin; [|apply iter_perm].
  by apply elem_of_elements, list_elem_of_In.
Qed.

Lemma anchored_shrinks s s' now anchor t : shrinks s s' → anchored s' now anchor t → anchored s now anchor t.
Proof.
  intros Hs [?|[(r & Hr & ?)|(rt & Hin & ? & ?)]].
  - by left.
  - right; left. exists r. split; [|done]. by rewrite (sh_roots _ _ Hs) in Hr.
  - right; right. exists rt. split_and!; auto. eapply map_sub_in; [apply Hs|done].
Qed.

Lemma requireCaps_spec allow s now anchor roots ras t require b s' :
  requireCaps allow s now anchor roots ras t require = (b, s') →
  (∀ r, In r roots → r ∈ ctx_roots s) →
  shrinks s s' ∧
  (b = true → ∃ c, In c require ∧ allow t c = true ∧ anchored s now anchor t).
Proof.
  intros Hreq Hroots. revert s Hreq Hroots.
  induction require as [|c require IH]; intros s; cbn [requireCaps].
  { intros [= <- <-] _. by split. }
  destruct (Token_Anchor t anchor && allow t c) eqn:H1.
  { intros [= <- <-] _. split; [done|]. intros _. apply andb_true_iff in H1 as [? ?].
    exists c. split_and!; [by left|done|by left]. }
  destruct (existsb _ roots) eqn:H2.
  { intros [= <- <-] Hroots. split; [done|]. intros _.
    apply existsb_exists in H2 as (r & Hr & [? ?]%andb_true_iff).
    exists c. split_and!; [by left|done|]. right; left. eauto. }
  destruct (scanRequire _ s now ras) as [ok s1] eqn:H3.
  apply scanRequire_spec in H3 as [Hs1 Hrt]. destruct ok.
  { intros [= <- <-] _. split; [done|]. intros _.
    destruct (Hrt eq_refl) as (rt & ? & ? & [? ?]%andb_true_iff).
    exists c. split_and!; [by left|done|]. right; right. eauto. }
  intros Hrec Hroots. apply IH in Hrec as [Hs2 Hb].
  - split; [by etrans|]. intros (c' & Hc & Ha & Hanc)%Hb.
    exists c'. split_and!; [by right|done|]. by eapply anchored_shrinks.
  - intros r Hr. rewrite (sh_roots _ _ Hs1). auto.
Qed.

Lemma requireTokens_spec allow s now anchor roots ras l require b s' :
  requireTokens allow s now anchor roots ras l require = (b, s') →
  (∀ r, In r roots → r ∈ ctx_roots s) →
  shrinks s s' ∧
  (b = true → ∃ t c, In t l ∧ In c require ∧ allow t c = true ∧ anchored s now anchor t).
Proof.
  intros Hreq Hroots. revert s Hreq Hroots.
  induction l as [|t l IH]; intros s; cbn [requireTokens].
  { intros [= <- <-] _. by split. }
  destruct (requireCaps _ s now anchor roots ras t require) as [ok s1] eqn:H1.
  intros Hrec Hroots. apply requireCaps_spec in H1 as [Hs1 Hc]; [|done].
  destruct ok.
  { injection Hrec as <- <-. split; [done|]. intros _.
    destruct (Hc eq_refl) as (c & ? & ? & ?). exists t, c. split_and!; auto. by left. }
  apply IH in Hrec as [Hs2 Hb].
  - split; [by etrans|]. intros (t' & c & ? & ? & ? & ?)%Hb.
    exists t', c. split_and!; auto; [by right|]. by eapply anchored_shrinks.
  - intros r Hr. rewrite (sh_roots _ _ Hs1). auto.
Qed.

(** What a successful [Require] rests on. *)
Lemma Require_spec s now anchor subject audience require r s' :
  Require s now anchor subject audience require = (r, s') →
  shrinks s s' ∧
  (r = None → ∃ sd ad t c, FromID subject = Some sd ∧ FromID audience = Some ad ∧
     In t (get_list (ctx_tokens s) sd) ∧ live now t = true ∧ In c require ∧
     Token_AllowInvocation t sd ad c = true ∧ anchored s now anchor t).
Proof.
  unfold Require. case_bool_decide; [by intros [= <- <-]|].
  destruct (FromID subject) as [sd|]; [|by intros [= <- <-]].
  destruct (FromID audience) as [ad|]; [|by intros [= <- <-]].
  destruct (getSubjectTokens s now sd) as [l s1] eqn:H1.
  apply getSubjectTokens_spec in H1 as [Hs1 Hl].
  destruct (requireTokens _ s1 _ _ _ _ _ _) as [ok s2] eqn:H2.
  apply requireTokens_spec in H2 as [Hs2 Hok]; [|by intros ? ?%in_getRoots].
  intros [= <- <-]. split; [by etrans|]. destruct ok; [|done]. intros _.
  destruct (Hok eq_refl) as (t & c & Hin & Hc & Hallow & Hanc).
  exists sd, ad, t, c. apply Hl in Hin as [??]. split_and!; auto. by eapply anchored_shrinks.
Qed.

Lemma RequireBroadcast_spec s now anchor subject topic require r s' :
  RequireBroadcast s now anchor subject topic require = (r, s') →
  shrinks s s' ∧
  (r = None → ∃ sd t c, FromID subject = Some sd ∧
     In t (get_list (ctx_tokens s) sd) ∧ live now t = true ∧ In c require ∧
     Token_AllowBroadcast t sd topic c = true ∧ anchored s now anchor t).
Proof.
  unfold RequireBroadcast. case_bool_decide; [by intros [= <- <-]|].
  destruct (FromID subject) as [sd|]; [|by intros [= <- <-]].
  destruct (getSubjectTokens s now sd) as [l s1] eqn:H1.
  apply getSubjectTokens_spec in H1 as [Hs1 Hl].
  destruct (requireTokens _ s1 _ _ _ _ _ _) as [ok s2] eqn:H2.
  apply requireTokens_spec in H2 as [Hs2 Hok]; [|by intros ? ?%in_getRoots].
  intros [= <- <-]. split; [by etrans|]. destruct ok; [|done]. intros _.
  destruct (Hok eq_refl) as (t & c & Hin & Hc & Hallow & Hanc).
  exists sd, t, c. apply Hl in Hin as [??]. split_and!; auto. by eapply anchored_shrinks.
Qed.

Lemma overProvideAnchors_shrinks f s now k anchors l k' s' :
  overProvideAnchors f s now k anchors = (l, k', s') → shrinks s s'.
Proof.
  revert s k l k'. induction anchors as [|a anchors IH]; intros s k l k'; simpl; [by intros [= _ _ <-]|].
  destruct (getProvideTokens s now a) as [tl s1] eqn:H1.
  apply getProvideTokens_spec in H1 as [Hs1 _].
  destruct (f s1 k a tl) as [l1 k1]. destruct (overProvideAnchors f s1 now k1 anchors) as [[l2 k2] s2] eqn:H2.
  intros [= _ _ <-]. apply IH in H2. by etrans.
Qed.

(** Every way out of a delegation method leaves the state it had. *)
Local Ltac same_state := try (simplify_eq; done); repeat (case_match; simplify_eq; try done).

Lemma Ctx_Delegate_shrinks s now nonces subject audience topics expire depth provide ss r s' :
  Ctx_Delegate s now nonces subject audience topics expire depth provide ss = (r, s') → shrinks s s'.
Proof.
  unfold Ctx_Delegate. case_bool_decide; [by intros [= _ <-]|].
  case_bool_decide; [case_match; by intros [= _ <-]|].
  destruct (overProvideAnchors _ _ _ _ _) as [[l k] s1] eqn:Ho.
  apply overProvideAnchors_shrinks in Ho. intros Hret.
  assert (s' = s1) as -> by same_state. done.
Qed.

Lemma Ctx_DelegateInvocation_shrinks s now nonces target subject audience expire provide ss r s' :
  Ctx_DelegateInvocation s now nonces target subject audience expire provide ss = (r, s') →
  shrinks s s'.
Proof.
  unfold Ctx_DelegateInvocation. case_bool_decide; [by intros [= _ <-]|].
  destruct (getSubjectTokens s now (ctx_DID s)) as [tl s0] eqn:H0.
  apply getSubjectTokens_spec in H0 as [Hs0 _].
  destruct (delegateInvocation _ _ _ _ _ _ _ _ _) as [l0 k0].
  case_bool_decide; [intros Hret; assert (s' = s0) as -> by same_state; done|].
  destruct (overProvideAnchors _ _ _ _ _) as [[l k] s1] eqn:Ho.
  apply overProvideAnchors_shrinks in Ho. intros Hret.
  assert (s' = s1) as -> by same_state. by etrans.
Qed.

Lemma Ctx_DelegateBroadcast_shrinks s now nonces subject topic expire provide ss r s' :
  Ctx_DelegateBroadcast s now nonces subject topic expire provide ss = (r, s') → shrinks s s'.
Proof.
  unfold Ctx_DelegateBroadcast. case_bool_decide; [by intros [= _ <-]|].
  case_bool_decide; [case_match; by intros [= _ <-]|].
  destruct (overProvideAnchors _ _ _ _ _) as [[l k] s1] eqn:Ho.
  apply overProvideAnchors_shrinks in Ho. intros Hret.
  assert (s' = s1) as -> by same_state. done.
Qed.

Lemma Provide_shrinks s now n1 n2 target subject audience expire invoke provide r s' :
  Provide s now n1 n2 target subject audience expire invoke provide = (r, s') → shrinks s s'.
Proof.
  unfold Provide. destruct (_ && _); [by intros [= _ <-]|].
  destruct (FromID subject); [|by intros [= _ <-]].
  destruct (FromID audience); [|by intros [= _ <-]].
  case_bool_decide; [by intros [= _ <-]|].
  destruct (Ctx_DelegateInvocation _ _ _ _ _ _ _ _ _) as [[inv|e] s1] eqn:Hinv;
    apply Ctx_DelegateInvocation_shrinks in Hinv; [|by intros [= _ <-]].
  case_bool_decide; [by intros [= _ <-]|]. case_bool_decide; [by intros [= _ <-]|].
  destruct (Ctx_Delegate _ _ _ _ _ _ _ _ _ _) as [[del|e] s2] eqn:Hdel;
    apply Ctx_Delegate_shrinks in Hdel; intros Hret;
    assert (s' = s2) as -> by same_state; by etrans.
Qed.

Lemma ProvideBroadcast_shrinks s now nonces subject topic expire provide r s' :
  ProvideBroadcast s now nonces subject topic expire provide = (r, s') → shrinks s s'.
Proof.
  unfold ProvideBroadcast. case_bool_decide; [by intros [= _ <-]|].
  destruct (FromID subject); [|by intros [= _ <-]].
  destruct (Ctx_DelegateBroadcast _ _ _ _ _ _ _ _) as [[b|e] s1] eqn:Hb;
    apply Ctx_DelegateBroadcast_shrinks in Hb; intros Hret;
    assert (s' = s1) as -> by same_state; done.
Qed.

Lemma collectTokens_shrinks get s now anchors l s' :
  (∀ s a l s', get s now a = (l, s') → shrinks s s') →
  collectTokens get s now anchors = (l, s') → shrinks s s'.
Proof.
  intros Hget. revert s l s'.
  induction anchors as [|a anchors IH]; intros s l s'; simpl; [by intros [= _ <-]|].
  destruct (get s now a) as [l1 s1] eqn:H1. apply Hget in H1.
  destruct (collectTokens get s1 now anchors) as [l2 s2] eqn:H2. apply IH in H2.
  intros [= _ <-]. by etrans.
Qed.

Lemma ListRoots_shrinks s now r s' : ListRoots s now = (r, s') → shrinks s s'.
Proof.
  unfold ListRoots.
  destruct (collectTokens getRequireTokens _ _ _) as [l1 s1] eqn:H1.
  destruct (collectTokens getProvideTokens _ _ _) as [l2 s2] eqn:H2. intros [= _ <-].
  apply collectTokens_shrinks in H1; [|by intros ? ? ? ? [? _]%getRequireTokens_spec].
  apply collectTokens_shrinks in H2; [|by intros ? ? ? ? [? _]%getProvideTokens_spec].
  by etrans.
Qed.

End readers.

(** ** The invariant *)

Section invariant.
  Context `{Codec : TokenCodec} `{Wire : WireCodec} `{Keys : KeyLib} `{Iter : MapIteration}.

(** The token verified at some time, against the revocations [R]. *)
Definition sound (R : RevocationSet) (s : Ctx) (t : Token) : Prop :=
  ∃ now0, Token_Verify (ctx_trust s) t now0 R = None.

(** The revocation set holds revocations signed by the issuer they name, each
    under its own key. *)
Definition revocations_ok (s : Ctx) : Prop :=
  ∀ k t, ctx_revoke s !! k = Some t →
    k = Token_RevocationKey t ∧
    ∃ d, DMS t = Some d ∧ act d = ActRevoke ∧ signed (ctx_trust s) d.

(** The keys of [R] are keys of [R']. *)
Definition fewer (R R' : RevocationSet) : Prop := ∀ k, Revoked R k = true → Revoked R' k = true.

#[local] Instance fewer_preorder : PreOrder fewer.
Proof. split; [by intros R k|]. intros R1 R2 R3 H1 H2 k Hk. auto. Qed.

(** [R] are recorded revocations that the stored tokens were checked against. *)
Record ctx_ok (R : RevocationSet) (s : Ctx) : Prop := {
  ok_stored : ∀ t, stored s t → sound R s t;
  ok_revoke : revocations_ok s;
  ok_stop : ctx_stop s = false;
  ok_fewer : fewer R (ctx_revoke s)
}.

Lemma sound_fewer R R' s t : fewer R' R → sound R s t → sound R' s t.
Proof. intros Hf [now0 Hv]. exists now0. eapply Verify_retime; [done|by eapply Verify_live|done]. Qed.

Lemma ok_weaken R R' s : fewer R' R → ctx_ok R s → ctx_ok R' s.
Proof. intros Hf [H1 H2 H3 H4]. split; [|done|done|by etrans]. intros t Ht. by eapply sound_fewer, H1. Qed.

Lemma sound_live R s now t :
  sound R s t → live now t = true → Token_Verify (ctx_trust s) t now R = None.
Proof.
  intros [now0 Hv] Hl. eapply Verify_retime; [done| |done]. by apply negb_true_iff in Hl.
Qed.

Lemma shrinks_ok R s s' : shrinks s s' → ctx_ok R s → ctx_ok R s'.
Proof.
  intros Hs [H1 H2 H3 H4]. unfold sound, revocations_ok in *.
  split; unfold sound, revocations_ok;
    rewrite ?(sh_trust _ _ Hs), ?(sh_revoke _ _ Hs), ?(sh_stop _ _ Hs); auto.
  intros t Ht. by apply H1, (shrinks_stored _ _ _ Hs).
Qed.

(** A step that may change the stored tokens only. *)
Record same_frame (s s' : Ctx) : Prop := {
  sf_provider : ctx_provider s' = ctx_provider s;
  sf_trust : ctx_trust s' = ctx_trust s;
  sf_revoke : ctx_revoke s' = ctx_revoke s;
  sf_stop : ctx_stop s' = ctx_stop s
}.

#[export] Instance same_frame_preorder : PreOrder same_frame.
Proof. split; [by intros s; split|]. intros s1 s2 s3 [] []. split; congruence. Qed.

Lemma shrinks_frame s s' : shrinks s s' → same_frame s s'.
Proof. intros []. by split. Qed.

Lemma frame_ok R s s' :
  same_frame s s' → (∀ t, stored s' t → stored s t ∨ sound R s t) → ctx_ok R s → ctx_ok R s'.
Proof.
  intros [_ Ht Hr Hst] Hnew [H1 H2 H3 H4]. unfold sound, revocations_ok in *.
  split; unfold sound, revocations_ok; rewrite ?Ht, ?Hr, ?Hst; auto. intros t [?|?]%Hnew; auto.
Qed.

Lemma in_map_insert m k l t : in_map (<[k := l]> m) t → In t l ∨ in_map m t.
Proof.
  intros (k' & l' & Hl & Hin). destruct (decide (k = k')) as [->|Hne].
  - rewrite lookup_insert_eq in Hl. simplify_eq. by left.
  - rewrite lookup_insert_ne in Hl by done. right. by exists k', l'.
Qed.

Lemma get_list_in m k t : In t (get_list m k) → in_map m t.
Proof. unfold get_list. destruct (m !! k) as [l|] eqn:Hl; [|done]. intros. by exists k, l. Qed.

Lemma anchorMerge_in l acc t result x :
  anchorMerge l acc t = Some result → In x result → In x acc ∨ In x l ∨ x = t.
Proof.
  revert acc. induction l as [|ot l IH]; intros acc; simpl.
  - intros [= <-] Hin%in_app_iff. simpl in Hin. naive_solver.
  - destruct (Token_Subsumes ot t); [done|]. destruct (Token_Subsumes t ot).
    + intros Hm Hin. destruct (IH _ Hm Hin) as [?|[?|?]]; auto.
    + intros Hm Hin. destruct (IH _ Hm Hin) as [Hacc|[?|?]]; auto.
      apply in_app_iff in Hacc. simpl in Hacc. naive_solver.
Qed.

Lemma consumeAnchorToken_in m t x : in_map (consumeAnchorToken m t) x → in_map m x ∨ x = t.
Proof.
  unfold consumeAnchorToken. destruct (anchorMerge _ _ _) as [result|] eqn:Hm; [|by left].
  intros [Hin|?]%in_map_insert; [|by left].
  destruct (anchorMerge_in _ _ _ _ _ Hm Hin) as [[]|[Hl|?]]; [left|by right].
  by apply get_list_in in Hl.
Qed.

(** *** Consume *)

Lemma acceptable_shrinks s now origin roots ras t b s' :
  acceptable s now origin roots ras t = (b, s') → shrinks s s'.
Proof.
  unfold acceptable. destruct (Token_Anchor t (ctx_DID s)); [by intros [= _ <-]|].
  destruct (Token_Anchor t origin); [by intros [= _ <-]|].
  destruct (existsb _ roots); [by intros [= _ <-]|]. by intros [? _]%scanRequire_spec.
Qed.

Lemma acceptable_tokens s now origin roots ras t b s' :
  acceptable s now origin roots ras t = (b, s') → ctx_tokens s' = ctx_tokens s.
Proof.
  unfold acceptable. destruct (Token_Anchor t (ctx_DID s)); [by intros [= _ <-]|].
  destruct (Token_Anchor t origin); [by intros [= _ <-]|].
  destruct (existsb _ roots); [by intros [= _ <-]|].
  revert s. induction ras as [|a ras IH]; intros s; simpl; [by intros [= _ <-]|].
  unfold getRequireTokens. destruct (getTokens _ _ _) as [l m].
  destruct (existsb _ l); [by intros [= _ <-]|]. by intros Hr%IH.
Qed.

(** What verifies against all recorded revocations verifies against some of them. *)
Lemma verified_sound R s now t :
  ctx_ok R s → Token_Verify (ctx_trust s) t now (ctx_revoke s) = None → sound R s t.
Proof. intros Hok Hv. apply (sound_fewer (ctx_revoke s)); [apply Hok|]. by exists now. Qed.

Lemma storeSubject_ok R s t : sound R s t → ctx_ok R s → ctx_ok R (consumeSubjectToken s t).
Proof.
  intros Hsound. apply frame_ok; [by split|]. intros x. unfold stored. cbn.
  intros [?|[?|[Hin|?]%in_map_insert]]; auto.
  apply in_app_iff in Hin as [Hin|[->|[]]]; [apply get_list_in in Hin; auto|auto].
Qed.

Lemma storeRequire_ok R s t : sound R s t → ctx_ok R s → ctx_ok R (consumeRequireToken s t).
Proof.
  intros Hsound. apply frame_ok; [by split|]. intros x. unfold stored. cbn.
  intros [[?| -> ]%consumeAnchorToken_in|[?|?]]; auto.
Qed.

Lemma storeProvide_ok R s t : sound R s t → ctx_ok R s → ctx_ok R (consumeProvideToken s t).
Proof.
  intros Hsound. apply frame_ok; [by split|]. intros x. unfold stored. cbn.
  intros [?|[[?| -> ]%consumeAnchorToken_in|?]]; auto.
Qed.

Lemma consumeTokens_ok R s now origin roots ras l s' r :
  consumeTokens s now origin roots ras l = (s', r) → ctx_ok R s → ctx_ok R s'.
Proof.
  revert s. induction l as [|[t|] l IH]; intros s; cbn [consumeTokens]; try by intros [= <- _].
  destruct (acceptable s now origin roots ras t) as [ok s1] eqn:Ha.
  apply acceptable_shrinks in Ha. intros Hrec Hok. apply IH in Hrec; [done|].
  apply (shrinks_ok _ _ _ Ha) in Hok. destruct ok; [|done].
  destruct (Token_Verify (ctx_trust s1) t now (ctx_revoke s1)) eqn:Hv; [done|].
  apply storeSubject_ok; [by eapply verified_sound|done].
Qed.

Lemma Consume_ok R s now origin b s' r : Consume s now origin b = (s', r) → ctx_ok R s → ctx_ok R s'.
Proof.
  unfold Consume. destruct (_ <? _)%nat; [by intros [= <- _]|].
  destruct (unmarshal_list b); [|by intros [= <- _]]. apply consumeTokens_ok.
Qed.

(** *** Discard, RemoveRoots and the collector *)

Lemma discardToken_in m t x : in_map (discardToken m t) x → in_map m x.
Proof.
  unfold discardToken. destruct (List.filter _ _) as [|y l] eqn:Hf.
  - intros (k & l & Hl & Hin). apply lookup_delete_Some in Hl as [_ Hl]. by exists k, l.
  - intros [Hin|?]%in_map_insert; [|done]. rewrite <- Hf in Hin.
    apply filter_In in Hin as [Hin _]. by apply get_list_in in Hin.
Qed.

Lemma removeToken_in m t x : in_map (removeToken m t) x → in_map m x.
Proof.
  unfold removeToken. destruct (m !! Token_Issuer t) as [l0|] eqn:Hl0; [|done].
  destruct (List.filter _ _) as [|y l] eqn:Hf.
  - intros (k & l & Hl & Hin). apply lookup_delete_Some in Hl as [_ Hl]. by exists k, l.
  - intros [Hin|?]%in_map_insert; [|done]. rewrite <- Hf in Hin.
    apply filter_In in Hin as [Hin _]. by exists (Token_Issuer t), l0.
Qed.

Lemma eachToken_in (f : gmap DID (list Token) → Token → gmap DID (list Token)) m l m' x :
  (∀ m t x, in_map (f m t) x → in_map m x) →
  eachToken f m l = Ok m' → in_map m' x → in_map m x.
Proof.
  intros Hf. revert m. induction l as [|[t|] l IH]; intros m; simpl; [by intros [= <-]| |done].
  intros He Hin. eapply Hf, IH; eauto.
Qed.

Lemma eachToken_revocation r l r' k t :
  eachToken removeRevocation r l = Ok r' → r' !! k = Some t → r !! k = Some t.
Proof.
  revert r. induction l as [|[x|] l IH]; intros r; simpl; [by intros [= <-]| |done].
  intros He Hk. apply (IH _ He) in Hk. unfold removeRevocation in Hk.
  by apply lookup_delete_Some in Hk as [_ ?].
Qed.

Lemma Discard_ok R s b s' : Discard s b = Ok s' → ctx_ok R s → ctx_ok R s'.
Proof.
  unfold Discard, discardTokens. destruct (unmarshal_list b) as [l|]; [|by intros [= <-]].
  destruct (eachToken _ _ _) as [m| |] eqn:He; intros [= <-].
  apply frame_ok; [by split|]. intros t. unfold stored. cbn.
  intros [?|[?|Hin]]; auto. left. right; right.
  eapply eachToken_in; [apply discardToken_in|done|done].
Qed.

(** The revocations of [R] that are still recorded. *)
Definition still (R : RevocationSet) (s : Ctx) : RevocationSet := filter (λ kt, is_Some (ctx_revoke s !! kt.1)) R.

Lemma still_Revoked R s k : Revoked (still R s) k = true ↔ Revoked R k = true ∧ Revoked (ctx_revoke s) k = true.
Proof.
  unfold Revoked, still. rewrite !bool_decide_eq_true. split.
  - intros [t [Ht Hk]%map_lookup_filter_Some]. eauto.
  - intros [[t Ht] Hk]. exists t. by apply map_lookup_filter_Some.
Qed.

Lemma still_fewer R s : fewer (still R s) R.
Proof. intros k Hk. by apply still_Revoked in Hk as [? _]. Qed.

Lemma still_all s s' : (∀ k t, ctx_revoke s' !! k = Some t → ctx_revoke s !! k = Some t) → still (ctx_revoke s) s' = ctx_revoke s'.
Proof.
  intros H. apply map_eq. intros k. apply option_eq. intros t. unfold still. rewrite map_lookup_filter_Some. split; [|eauto].
  intros [Hk [t' Ht']]. cbn in Ht'. assert (t' = t) as -> by (apply H in Ht'; congruence). done.
Qed.

(** The revocations of [R] that are in [R0] too. *)
Definition common (R R0 : RevocationSet) : RevocationSet := filter (λ kt, is_Some (R0 !! kt.1)) R.

Lemma common_fewer R R0 : fewer (common R R0) R ∧ fewer (common R R0) R0.
Proof.
  split; intros k; unfold Revoked, common; rewrite !bool_decide_eq_true; intros [t [Ht Hk]%map_lookup_filter_Some]; eauto.
Qed.

(** With fewer revocations a stored token still verifies. *)
Lemma fewer_revocations_ok R s s' :
  ctx_trust s' = ctx_trust s → ctx_stop s' = ctx_stop s →
  (∀ k t, ctx_revoke s' !! k = Some t → ctx_revoke s !! k = Some t) →
  (∀ t, stored s' t → stored s t) →
  ctx_ok R s → ctx_ok (still R s') s'.
Proof.
  intros Ht Hst Hr Hin [H1 H2 H3 H4]. split; [| |congruence|].
  - intros t Hs. apply (sound_fewer R); [apply still_fewer|]. unfold sound. rewrite Ht. by apply H1, Hin.
  - intros k t Hk. rewrite Ht. apply H2. auto.
  - intros k Hk. by apply still_Revoked in Hk as [_ ?].
Qed.

Lemma RemoveRoots_revoke s trust rq pv rv s' k t : RemoveRoots s trust rq pv rv = Ok s' → ctx_revoke s' !! k = Some t → ctx_revoke s !! k = Some t.
Proof.
  unfold RemoveRoots. cbn. destruct (eachToken removeToken (ctx_require s) rq); [|done..]. destruct (eachToken removeToken (ctx_provide s) pv); [|done..].
  destruct (eachToken removeRevocation (ctx_revoke s) rv) as [m3| |] eqn:H3; [|done..]. intros [= <-]. by eapply eachToken_revocation.
Qed.

Lemma RemoveRoots_ok R s trust rq pv rv s' : RemoveRoots s trust rq pv rv = Ok s' → ctx_ok R s → ctx_ok (still R s') s'.
Proof.
  unfold RemoveRoots. cbn.
  destruct (eachToken removeToken (ctx_require s) rq) as [m1| |] eqn:H1; [|done..].
  destruct (eachToken removeToken (ctx_provide s) pv) as [m2| |] eqn:H2; [|done..].
  destruct (eachToken removeRevocation (ctx_revoke s) rv) as [m3| |] eqn:H3; [|done..].
  intros [= <-]. apply fewer_revocations_ok; cbn; auto.
  - intros k t. by eapply eachToken_revocation.
  - intros t. unfold stored. cbn.
    intros [Hin|[Hin|?]]; [left|right; left|by auto];
      (eapply eachToken_in; [apply removeToken_in|done|done]).
Qed.

Lemma gcMap_in now m t : in_map (gcMap now m) t → in_map m t.
Proof.
  intros (k & l & Hl & Hin). unfold gcMap in Hl. rewrite lookup_omap in Hl.
  destruct (m !! k) as [l0|] eqn:Hk; [|done]. simpl in Hl. exists k, l0. split; [done|].
  destruct (List.filter (live now) l0) eqn:Hf; [done|]. simplify_eq.
  rewrite <- Hf in Hin. by apply filter_In in Hin as [? _].
Qed.

Lemma gcTokens_revoke s now k t : ctx_revoke (gcTokens s now) !! k = Some t → ctx_revoke s !! k = Some t.
Proof. cbn. unfold RevocationSet_gc. by intros [? _]%map_lookup_filter_Some. Qed.

Lemma gcTokens_ok R s now : ctx_ok R s → ctx_ok (still R (gcTokens s now)) (gcTokens s now).
Proof.
  apply fewer_revocations_ok; try done.
  - intros k t. apply gcTokens_revoke.
  - intros t. unfold stored. cbn. intros [?|[?|?]]; eauto using gcMap_in.
Qed.

(** *** AddRoots *)

(** What the loops of [AddRoots] keep on every path, errors included. *)
Record ctx_core (s : Ctx) : Prop := {
  core_revoke : revocations_ok s;
  core_stop : ctx_stop s = false
}.

Lemma consumeRevokeToken_core s now t :
  isRevocation t = None → Token_Verify (ctx_trust s) t now (ctx_revoke s) = None →
  ctx_core s → ctx_core (consumeRevokeToken s t).
Proof.
  unfold isRevocation. case_bool_decide as Hact; [|done]. intros _ Hv [Hr Hst].
  split; [|done]. intros k x. cbn. unfold RevocationSet_Revoke.
  destruct (decide (Token_RevocationKey t = k)) as [<-|Hne].
  2: { rewrite lookup_insert_ne by done. apply Hr. }
  rewrite lookup_insert_eq. intros [= <-]. split; [done|].
  destruct t as [[d|] u]; [|done]. cbn in *. exists d. split_and!; [done|done|].
  unfold Token_Verify in Hv. cbn in Hv. apply DMS_verify_None in Hv. tauto.
Qed.

Lemma addTokens_core guard store s now l s' r :
  (∀ s t, guard t = None → Token_Verify (ctx_trust s) t now (ctx_revoke s) = None →
          ctx_core s → ctx_core (store s t)) →
  addTokens guard store s now l = (s', r) → ctx_core s → ctx_core s'.
Proof.
  intros Hstore. revert s. induction l as [|[t|] l IH]; intros s; simpl; try by intros [= <- _].
  destruct (guard t) eqn:Hg; [by intros [= <- _]|].
  destruct (Token_Verify (ctx_trust s) t now (ctx_revoke s)) eqn:Hv; [by intros [= <- _]|].
  intros Hrec Hc. eapply IH; [done|]. by apply Hstore.
Qed.

(** The two loops that store delegation tokens do not touch the revocations. *)
Lemma addTokens_frame store s now l s' r :
  (∀ s t, same_frame s (store s t)) →
  addTokens anyAction store s now l = (s', r) → same_frame s s'.
Proof.
  intros Hstore. revert s. induction l as [|[t|] l IH]; intros s; simpl; try by intros [= <- _].
  destruct (Token_Verify (ctx_trust s) t now (ctx_revoke s)); [by intros [= <- _]|].
  intros Hrec%IH. etrans; [apply Hstore|done].
Qed.

Lemma frame_core s s' : same_frame s s' → ctx_core s → ctx_core s'.
Proof.
  intros [_ Ht Hr Hst] [H1 H2]. split; [|congruence].
  unfold revocations_ok. by rewrite Ht, Hr.
Qed.

Lemma verifies_frame s s' now t : same_frame s s' → verifies s' now t = verifies s now t.
Proof. intros [_ Ht Hr _]. unfold verifies. by rewrite Ht, Hr. Qed.

(** Every token under the key [k] verifies. *)
Definition clean_at (s : Ctx) (now : Z) (m : gmap DID (list Token)) (k : DID) : Prop :=
  ∀ l t, m !! k = Some l → In t l → verifies s now t = true.

(** A pass that filters one key at a time cleans every key of its list. *)
Lemma clean_pass (get : Ctx → gmap DID (list Token)) (step : Ctx → DID → Ctx) s0 now :
  (∀ s a, same_frame s (step s a)) →
  (∀ s a, same_frame s0 s → clean_at s0 now (get (step s a)) a) →
  (∀ s a k, k ≠ a → get (step s a) !! k = get s !! k) →
  ∀ anchors s, same_frame s0 s →
    same_frame s0 (fold_left step anchors s) ∧
    ∀ k, (k ∈ anchors ∨ clean_at s0 now (get s) k) →
         clean_at s0 now (get (fold_left step anchors s)) k.
Proof.
  intros Hf Hclean Hne anchors. induction anchors as [|a anchors IH]; intros s Hs; simpl.
  { split; [done|]. intros k [Hk|?]; [by apply elem_of_nil in Hk|done]. }
  destruct (IH (step s a)) as [Hf' Hk']; [by etrans|]. split; [done|].
  intros k Hk. apply Hk'. destruct (decide (k = a)) as [->|Hka]; [right; by apply Hclean|].
  destruct Hk as [[->|Hk]%elem_of_cons|Hk]; [done|by left|right].
  unfold clean_at. by rewrite Hne.
Qed.

Lemma cleanRequire_lookup now s a :
  same_frame s (cleanRequire now s a) ∧
  (∀ k, k ≠ a → ctx_require (cleanRequire now s a) !! k = ctx_require s !! k) ∧
  ctx_provide (cleanRequire now s a) = ctx_provide s ∧
  ctx_tokens (cleanRequire now s a) = ctx_tokens s ∧
  clean_at s now (ctx_require (cleanRequire now s a)) a.
Proof.
  unfold cleanRequire, getRequireTokens, getTokens, clean_at.
  destruct (ctx_require s !! a) as [l|]; cbn; (split_and!; [by split| |done|done|]).
  1,3: intros k Hk; by rewrite !lookup_insert_ne by congruence.
  1,2: intros l' t; rewrite lookup_insert_eq; intros [= <-] Hin; try done.
  by apply filter_In in Hin as [_ Hv].
Qed.

Lemma cleanProvide_lookup now s a :
  same_frame s (cleanProvide now s a) ∧
  (∀ k, k ≠ a → ctx_provide (cleanProvide now s a) !! k = ctx_provide s !! k) ∧
  ctx_require (cleanProvide now s a) = ctx_require s ∧
  ctx_tokens (cleanProvide now s a) = ctx_tokens s ∧
  clean_at s now (ctx_provide (cleanProvide now s a)) a.
Proof.
  unfold cleanProvide, getProvideTokens, getTokens, clean_at.
  destruct (ctx_provide s !! a) as [l|]; cbn; (split_and!; [by split| |done|done|]).
  1,3: intros k Hk; by rewrite !lookup_insert_ne by congruence.
  1,2: intros l' t; rewrite lookup_insert_eq; intros [= <-] Hin; try done.
  by apply filter_In in Hin as [_ Hv].
Qed.

Lemma clean_at_frame s s' now m k : same_frame s s' → clean_at s' now m k → clean_at s now m k.
Proof. intros Hf Hc l t Hl Ht. rewrite <- (verifies_frame _ _ now t Hf). by eapply Hc. Qed.

Lemma in_anchors (m : gmap DID (list Token)) k : is_Some (m !! k) → k ∈ iter (map fst (map_to_list m)).
Proof.
  intros [l Hl]. rewrite iter_perm. apply list_elem_of_In, in_map_iff. exists (k, l).
  split; [done|]. by apply list_elem_of_In, elem_of_map_to_list.
Qed.

Lemma fold_untouched {A} (get : Ctx → A) (step : Ctx → DID → Ctx) anchors s :
  (∀ s a, get (step s a) = get s) → get (fold_left step anchors s) = get s.
Proof.
  intros Hget. revert s. induction anchors as [|a anchors IH]; intros s; simpl; [done|].
  by rewrite IH, Hget.
Qed.

(** After [cleanUpTokens] every stored token verifies. *)
Lemma cleanUpTokens_clean s now :
  same_frame s (cleanUpTokens s now) ∧
  ∀ t, stored (cleanUpTokens s now) t → verifies s now t = true.
Proof.
  unfold cleanUpTokens.
  destruct (clean_pass ctx_require (cleanRequire now) s now) with (anchors := getRequireAnchors s) (s := s)
    as [Hf1 Hc1]; try done; [intros; apply cleanRequire_lookup| |intros; by apply cleanRequire_lookup|].
  { intros s' a Hs'. eapply clean_at_frame; [done|apply cleanRequire_lookup]. }
  set (s1 := fold_left (cleanRequire now) _ s) in *.
  destruct (clean_pass ctx_provide (cleanProvide now) s now) with (anchors := getProvideAnchors s1) (s := s1)
    as [Hf2 Hc2]; try done; [intros; apply cleanProvide_lookup| |intros; by apply cleanProvide_lookup|].
  { intros s' a Hs'. eapply clean_at_frame; [done|apply cleanProvide_lookup]. }
  set (s2 := fold_left (cleanProvide now) _ s1) in *.
  assert (ctx_require s2 = ctx_require s1) as Hreq
    by (apply fold_untouched; intros; apply cleanProvide_lookup).
  split; [etrans; [exact Hf2|by split]|]. intros t. unfold stored. cbn.
  intros [(k & l & Hl & Hin)|[(k & l & Hl & Hin)|(k & l & Hl & Hin)]].
  - rewrite Hreq in Hl. refine (Hc1 k _ l t Hl Hin).
    destruct (ctx_require s !! k) as [l0|] eqn:Hk; [left; by apply in_anchors|right].
    intros l' t' Hl'. congruence.
  - refine (Hc2 k _ l t Hl Hin).
    destruct (ctx_provide s1 !! k) as [l0|] eqn:Hk; [left; by apply in_anchors|right].
    intros l' t' Hl'. congruence.
  - rewrite lookup_fmap in Hl. destruct (ctx_tokens s2 !! k) as [l0|]; [|done].
    simpl in Hl. simplify_eq. apply filter_In in Hin as [_ Hv].
    by rewrite (verifies_frame _ _ _ _ Hf2) in Hv.
Qed.

Lemma AddRoots_core s now roots rq pv rv s' r :
  AddRoots s now roots rq pv rv = (s', r) → ctx_core s → ctx_core s'.
Proof.
  unfold AddRoots. intros Hadd Hc.
  destruct (addTokens isRevocation _ _ _ _) as [s1 r1] eqn:H1.
  assert (ctx_core s1) as Hc1.
  { eapply addTokens_core; [|done|].
    - intros. by eapply consumeRevokeToken_core.
    - eapply frame_core; [|done]. by split. }
  destruct r1; [|by simplify_eq..].
  destruct (addTokens anyAction consumeRequireToken _ _ _) as [s2 r2] eqn:H2.
  apply addTokens_frame in H2; [|by split]. pose proof (frame_core _ _ H2 Hc1) as Hc2.
  destruct r2; [|by simplify_eq..].
  destruct (addTokens anyAction consumeProvideToken _ _ _) as [s3 r3] eqn:H3.
  apply addTokens_frame in H3; [|by split]. pose proof (frame_core _ _ H3 Hc2) as Hc3.
  destruct r3; simplify_eq; try done.
  eapply frame_core; [apply cleanUpTokens_clean|done].
Qed.

(** A successful [AddRoots] establishes the invariant, whatever was stored. *)
Lemma AddRoots_ok s now roots rq pv rv s' :
  AddRoots s now roots rq pv rv = (s', Ok tt) → ctx_core s → ctx_ok (ctx_revoke s') s'.
Proof.
  intros Hadd Hc. destruct (AddRoots_core _ _ _ _ _ _ _ _ Hadd Hc) as [Hr Hst].
  revert Hadd. unfold AddRoots.
  destruct (addTokens isRevocation _ _ _ _) as [s1 []]; try done.
  destruct (addTokens anyAction consumeRequireToken _ _ _) as [s2 []]; try done.
  destruct (addTokens anyAction consumeProvideToken _ _ _) as [s3 []]; try done.
  intros [= <-]. split; [|done|done|done].
  destruct (cleanUpTokens_clean s3 now) as [Hf Hclean]. intros t Ht%Hclean.
  rewrite <- (verifies_frame _ _ _ _ Hf) in Ht. exists now. by apply bool_decide_eq_true in Ht.
Qed.

(** Whatever becomes of [AddRoots], what was checked before stays checked: an error leaves
    revocations behind that the stored tokens were not checked against. *)
Lemma addTokens_ok R guard store s now l s' r :
  (∀ s t, guard t = None → Token_Verify (ctx_trust s) t now (ctx_revoke s) = None → ctx_ok R s → ctx_ok R (store s t)) →
  addTokens guard store s now l = (s', r) → ctx_ok R s → ctx_ok R s'.
Proof.
  intros Hstore. revert s. induction l as [|[t|] l IH]; intros s; simpl; try by intros [= <- _].
  destruct (guard t) eqn:Hg; [by intros [= <- _]|].
  destruct (Token_Verify (ctx_trust s) t now (ctx_revoke s)) eqn:Hv; [by intros [= <- _]|].
  intros Hrec Hok. eapply IH; [done|]. by apply Hstore.
Qed.

Lemma consumeRevokeToken_ok R s now t :
  isRevocation t = None → Token_Verify (ctx_trust s) t now (ctx_revoke s) = None → ctx_ok R s → ctx_ok R (consumeRevokeToken s t).
Proof.
  intros Hg Hv [H1 H2 H3 H4]. destruct (consumeRevokeToken_core s now t Hg Hv) as [Hr Hst]; [by split|].
  split; [done|done|done|]. etrans; [exact H4|]. intros k. unfold Revoked. rewrite !bool_decide_eq_true. cbn. unfold RevocationSet_Revoke.
  rewrite lookup_insert_is_Some'. auto.
Qed.

Lemma AddRoots_keeps R s now roots rq pv rv s' r :
  AddRoots s now roots rq pv rv = (s', r) → ctx_ok R s → ctx_ok R s'.
Proof.
  intros Hadd Hok. pose proof Hadd as Hcopy. revert Hadd. unfold AddRoots.
  assert (ctx_ok R (addRoots s roots)) as H0 by (revert Hok; apply frame_ok; [by split|by left]).
  destruct (addTokens isRevocation _ _ _ _) as [s1 r1] eqn:H1. apply (addTokens_ok R) in H1; [|by intros; eapply consumeRevokeToken_ok|done].
  destruct r1; [|by intros [= <- _]..].
  destruct (addTokens anyAction consumeRequireToken _ _ _) as [s2 r2] eqn:H2.
  apply (addTokens_ok R) in H2; [|by intros; apply storeRequire_ok; [eapply verified_sound|]|done]. destruct r2; [|by intros [= <- _]..].
  destruct (addTokens anyAction consumeProvideToken _ _ _) as [s3 r3] eqn:H3.
  apply (addTokens_ok R) in H3; [|by intros; apply storeProvide_ok; [eapply verified_sound|]|done]. destruct r3; [|by intros [= <- _]..].
  intros [= <- <-]. apply AddRoots_ok in Hcopy; [|destruct Hok; by split]. apply (ok_weaken (ctx_revoke s3)).
  - apply H3.
  - by rewrite <-(sf_revoke _ _ (proj1 (cleanUpTokens_clean s3 now))).
Qed.

End invariant.

(** ** Reachable capability contexts

    The step relation of the methods of [BasicCapabilityContext], the states it
    reaches from the constructor, and what [Require] and [RequireBroadcast]
    promise in them.  The actor system is proved against these promises. *)

(** ** Reachable states *)

Section reachability.
  Context `{Codec : TokenCodec} `{Wire : WireCodec} `{Keys : KeyLib} `{Iter : MapIteration}.

(** One call of a method on the context, at any time, with any arguments and any
    randomness, whether it succeeds or fails. *)
Inductive ctx_step (s : Ctx) : Ctx → Prop :=
| step_Consume now origin b s' r : Consume s now origin b = (s', r) → ctx_step s s'
| step_Discard b s' : Discard s b = Ok s' → ctx_step s s'
| step_AddRoots now roots rq pv rv r s' : AddRoots s now roots rq pv rv = (s', r) → ctx_step s s'
| step_RemoveRoots trust rq pv rv s' : RemoveRoots s trust rq pv rv = Ok s' → ctx_step s s'
| step_ListRoots now r s' : ListRoots s now = (r, s') → ctx_step s s'
| step_Require now anchor subject audience require r s' :
    Require s now anchor subject audience require = (r, s') → ctx_step s s'
| step_RequireBroadcast now anchor subject topic require r s' :
    RequireBroadcast s now anchor subject topic require = (r, s') → ctx_step s s'
| step_Provide now n1 n2 target subject audience expire invoke provide r s' :
    Provide s now n1 n2 target subject audience expire invoke provide = (r, s') → ctx_step s s'
| step_ProvideBroadcast now nonces subject topic expire provide r s' :
    ProvideBroadcast s now nonces subject topic expire provide = (r, s') → ctx_step s s'
| step_Delegate now nonces subject audience topics expire depth provide ss r s' :
    Ctx_Delegate s now nonces subject audience topics expire depth provide ss = (r, s') → ctx_step s s'
| step_DelegateInvocation now nonces target subject audience expire provide ss r s' :
    Ctx_DelegateInvocation s now nonces target subject audience expire provide ss = (r, s') →
    ctx_step s s'
| step_DelegateBroadcast now nonces subject topic expire provide ss r s' :
    Ctx_DelegateBroadcast s now nonces subject topic expire provide ss = (r, s') → ctx_step s s'
| step_gcTokens now : ctx_step s (gcTokens s now)
| step_Start r s' : Start s = (r, s') → ctx_step s s'
| step_Stop : ctx_step s (Stop s).

(** [Consume] and [AddRoots] hold no lock between the check of a token and the call that
    stores it, so other calls may come between: the token is then stored in a later state
    than the one whose revocations [R0] it was checked against. *)
Inductive late_store (s : Ctx) (R0 : RevocationSet) : Ctx → Prop :=
| late_subject t now : Token_Verify (ctx_trust s) t now R0 = None → late_store s R0 (consumeSubjectToken s t)
| late_require t now : Token_Verify (ctx_trust s) t now R0 = None → late_store s R0 (consumeRequireToken s t)
| late_provide t now : Token_Verify (ctx_trust s) t now R0 = None → late_store s R0 (consumeProvideToken s t).

(** What the goroutines that share a context do to it. *)
Definition ctx_move (s s' : Ctx) : Prop := ctx_step s s' ∨ ∃ R0, late_store s R0 s'.

(** A context some constructor call returned, after any number of calls, and the
    revocations in force: those that every stored token has been checked against.  The
    constructor and a successful [AddRoots] check all stored tokens against all recorded
    revocations; what is removed or collected later is no longer in force.  A failed
    [AddRoots] records revocations that are not in force, and a token that is stored late
    was checked against those of the earlier state only. *)
Inductive in_force : Ctx → RevocationSet → Prop :=
| force_new name trust provider now roots rq pv rv s :
    newCapabilityContext name trust provider now roots rq pv rv = Ok s → in_force s (ctx_revoke s)
| force_AddRoots s R now roots rq pv rv s' :
    in_force s R → AddRoots s now roots rq pv rv = (s', Ok tt) → in_force s' (ctx_revoke s')
| force_step s R s' : in_force s R → ctx_step s s' → in_force s' (still R s')
| force_late s R R0 s' : in_force s R → late_store s R0 s' → in_force s' (common R R0).

Definition reachable (s : Ctx) : Prop := ∃ R, in_force s R.

Lemma new_ok name trust provider now roots rq pv rv s :
  newCapabilityContext name trust provider now roots rq pv rv = Ok s → ctx_ok (ctx_revoke s) s.
Proof.
  unfold newCapabilityContext. destruct provider as [p|]; [|done].
  destruct (AddRoots _ _ _ _ _ _) as [s' [[]|e|]] eqn:Ha; intros [= <-].
  eapply AddRoots_ok; [done|]. by split.
Qed.

Lemma step_ok R s s' : ctx_step s s' → ctx_ok R s → ctx_ok (still R s') s'.
Proof.
  intros Hstep Hok.
  assert (Hkeep : ctx_ok R s' → ctx_ok (still R s') s') by (apply ok_weaken, still_fewer).
  destruct Hstep as [????? Hc|?? Hd|??????? Ha|????? Hr|??? Hl|??????? Hq|??????? Hq
    |??????????? Hp|???????? Hp|??????????? Hp|?????????? Hp|???????? Hp| |?? Hst|].
  - apply Hkeep. by eapply Consume_ok.
  - apply Hkeep. by eapply Discard_ok.
  - apply Hkeep. by eapply AddRoots_keeps.
  - by eapply RemoveRoots_ok.
  - apply Hkeep. eapply shrinks_ok; [by eapply ListRoots_shrinks|done].
  - apply Hkeep. apply Require_spec in Hq as [Hsh _]. by eapply shrinks_ok.
  - apply Hkeep. apply RequireBroadcast_spec in Hq as [Hsh _]. by eapply shrinks_ok.
  - apply Hkeep. eapply shrinks_ok; [by eapply Provide_shrinks|done].
  - apply Hkeep. eapply shrinks_ok; [by eapply ProvideBroadcast_shrinks|done].
  - apply Hkeep. eapply shrinks_ok; [by eapply Ctx_Delegate_shrinks|done].
  - apply Hkeep. eapply shrinks_ok; [by eapply Ctx_DelegateInvocation_shrinks|done].
  - apply Hkeep. eapply shrinks_ok; [by eapply Ctx_DelegateBroadcast_shrinks|done].
  - by apply gcTokens_ok.
  - apply Hkeep. unfold Start in Hst. rewrite (ok_stop _ _ Hok) in Hst. by simplify_eq.
  - by apply Hkeep.
Qed.

(** A token that is stored late was checked against the revocations that stay in force. *)
Lemma late_ok R R0 s s' : late_store s R0 s' → ctx_ok R s → ctx_ok (common R R0) s'.
Proof.
  intros Hlate Hok. destruct (common_fewer R R0) as [H1 H2].
  assert (Hsound : ∀ t now, Token_Verify (ctx_trust s) t now R0 = None → sound (common R R0) s t).
  { intros t now Hv. apply (sound_fewer R0); [done|]. by exists now. }
  apply (ok_weaken _ (common R R0)) in Hok; [|done].
  destruct Hlate as [t now Hv%Hsound|t now Hv%Hsound|t now Hv%Hsound]; [by apply storeSubject_ok|by apply storeRequire_ok|by apply storeProvide_ok].
Qed.

Lemma in_force_ok s R : in_force s R → ctx_ok R s.
Proof.
  induction 1 as [|s R ?????? _ IH| |]; [by eapply new_ok| |by eapply step_ok|by eapply late_ok].
  eapply AddRoots_ok; [done|]. destruct IH. by split.
Qed.

Lemma reachable_ok s : reachable s → ∃ R, ctx_ok R s.
Proof. intros [R HR]. exists R. by apply in_force_ok. Qed.

(** A live token of a reachable context verifies against the revocations in force. *)
Lemma in_force_verified s R now t :
  in_force s R → stored s t → live now t = true → Token_Verify (ctx_trust s) t now R = None.
Proof. intros Hs%in_force_ok Ht. apply sound_live. by apply Hs. Qed.

(** The token verifies now against all revocations that are in force. *)
Definition verified_in (s : Ctx) (now : Z) (t : Token) : Prop :=
  ∀ R, in_force s R → Token_Verify (ctx_trust s) t now R = None.

(** What the authority of a token rests on once every stored token is verified. *)
Definition rests_on (s : Ctx) (now : Z) (anchor : DID) (t : Token) : Prop :=
  Token_Anchor t anchor = true ∨
  (∃ r, r ∈ ctx_roots s ∧ Token_Anchor t r = true) ∨
  (∃ rt, verified_in s now rt ∧ Token_AllowAction rt t = true).

Lemma anchored_rests_on s now anchor t : anchored s now anchor t → rests_on s now anchor t.
Proof.
  intros [?|[?|(rt & Hin & Hl & ?)]]; [by left|by right; left|].
  right; right. exists rt. split; [|done]. intros R HR. eapply in_force_verified; [done|by left|done].
Qed.

End reachability.

(** ** What the permission tests say *)

Lemma AllowInvocation_true d subject audience c :
  DMS_AllowInvocation d subject audience c = true →
  act d = ActInvoke ∧ Subject d = subject ∧ audience_admits (Audience d) audience ∧
  any_implies (Caps d) c = true.
Proof.
  unfold DMS_AllowInvocation. case_bool_decide; [|done]. cbn [negb].
  destruct (DID_Equal (Subject d) subject) eqn:Hs; [|done]. cbn [negb].
  destruct (_ && _) eqn:Ha; [done|]. apply audience_admits_spec in Ha.
  apply DID_Equal_eq in Hs. auto.
Qed.

Lemma AllowBroadcast_true d subject topic c :
  DMS_AllowBroadcast d subject topic c = true →
  act d = ActBroadcast ∧ Subject d = subject ∧ Audience d = DID_empty ∧
  any_implies (Topic d) topic = true ∧ any_implies (Caps d) c = true.
Proof.
  unfold DMS_AllowBroadcast. case_bool_decide; [|done]. cbn [negb].
  destruct (DID_Equal (Subject d) subject) eqn:Hs; [|done].
  destruct (DID_Empty (Audience d)) eqn:Ha; [|done]. cbn [negb].
  destruct (any_implies (Topic d) topic) eqn:Ht; [|done].
  apply DID_Equal_eq in Hs. apply DID_Empty_eq in Ha. auto.
Qed.

(** ** Authority *)

Section authority.
  Context `{Codec : TokenCodec} `{Wire : WireCodec} `{Keys : KeyLib} `{Iter : MapIteration}.

(** A token, verified now against the revocations in force, that is an invocation
    for the subject, admits the audience, implies a required capability, and
    rests on the anchor, a root or a verified side chain. *)
Definition invocation_authorised (s : Ctx) (now : Z) (anchor : DID) (subject audience : bytes)
    (require : list Capability) : Prop :=
  ∃ sd ad d u c, FromID subject = Some sd ∧ FromID audience = Some ad ∧ In c require ∧
    verified_in s now (mkToken (Some d) u) ∧
    act d = ActInvoke ∧ Subject d = sd ∧ audience_admits (Audience d) ad ∧
    any_implies (Caps d) c = true ∧ rests_on s now anchor (mkToken (Some d) u).

(** The same for a broadcast token without audience whose topics imply the topic. *)
Definition broadcast_authorised (s : Ctx) (now : Z) (anchor : DID) (subject : bytes) (topic : string)
    (require : list Capability) : Prop :=
  ∃ sd d u c, FromID subject = Some sd ∧ In c require ∧
    verified_in s now (mkToken (Some d) u) ∧
    act d = ActBroadcast ∧ Subject d = sd ∧ Audience d = DID_empty ∧
    any_implies (Topic d) topic = true ∧ any_implies (Caps d) c = true ∧
    rests_on s now anchor (mkToken (Some d) u).

Lemma Require_authorised s now anchor subject audience require s' :
  Require s now anchor subject audience require = (None, s') →
  invocation_authorised s now anchor subject audience require.
Proof.
  intros Hr. apply Require_spec in Hr as [_ Hr].
  destruct (Hr eq_refl) as (sd & ad & [[d|] u] & c & ? & ? & Hin & Hl & ? & Hallow & Hanc); [|done].
  destruct (AllowInvocation_true _ _ _ _ Hallow) as (? & ? & ? & ?).
  exists sd, ad, d, u, c. split_and!; try done; [|by apply anchored_rests_on].
  intros R HR. eapply in_force_verified; [done| |done]. right; right. by eapply get_list_in.
Qed.

Lemma RequireBroadcast_authorised s now anchor subject topic require s' :
  RequireBroadcast s now anchor subject topic require = (None, s') →
  broadcast_authorised s now anchor subject topic require.
Proof.
  intros Hr. apply RequireBroadcast_spec in Hr as [_ Hr].
  destruct (Hr eq_refl) as (sd & [[d|] u] & c & ? & Hin & Hl & ? & Hallow & Hanc); [|done].
  destruct (AllowBroadcast_true _ _ _ _ Hallow) as (? & ? & ? & ? & ?).
  exists sd, d, u, c. split_and!; try done; [|by apply anchored_rests_on].
  intros R HR. eapply in_force_verified; [done| |done]. right; right. by eapply get_list_in.
Qed.

Lemma reachable_move s s' : reachable s → ctx_move s s' → reachable s'.
Proof. intros [R HR] [Hstep|[R0 Hlate]]; eexists; [by eapply force_step|by eapply force_late]. Qed.

Lemma reachable_step s s' : reachable s → ctx_step s s' → reachable s'.
Proof. intros Hs Hstep. eapply reachable_move; [done|by left]. Qed.

Lemma reachable_moves s s' : reachable s → rtc ctx_move s s' → reachable s'.
Proof. intros Hs. induction 1; [done|]. eauto using reachable_move. Qed.

(** All recorded revocations are in force after the constructor and a successful
    [AddRoots], and as long as no call records a revocation and fails. *)
Lemma settled_step s s' :
  in_force s (ctx_revoke s) → ctx_step s s' → (∀ k t, ctx_revoke s' !! k = Some t → ctx_revoke s !! k = Some t) →
  in_force s' (ctx_revoke s').
Proof. intros Hs Hstep Hr. rewrite <-(still_all s s' Hr). by eapply force_step. Qed.

End authority.
