(* ===== verification/CapContextProps.v ===== *)
(** * Properties of the capability context

    The claims about lib/ucan/context.go: when [Require] grants access, what a
    grant rests on in every reachable state, who can revoke, and how the context
    reacts to malformed input. *)

From S2P Require Import Prelude GoStrings Key Capability Token TokenSpec TokenProps CapContext.
From S2P Require Import TokenSpec CapContextSpec.

(** ** Completeness of the scans *)

Section completeness.
  Context `{Codec : TokenCodec} `{Wire : WireCodec} `{Keys : KeyLib} `{Iter : MapIteration}.

(** The live side-chain tokens and the roots survive a read. *)
Record keeps_live (now : Z) (s s' : Ctx) : Prop := {
  kl_roots : ctx_roots s' = ctx_roots s;
  kl_require : ∀ k rt, In rt (get_list (ctx_require s) k) → live now rt = true →
    In rt (get_list (ctx_require s') k)
}.

Lemma keeps_live_trans now s1 s2 s3 :
  keeps_live now s1 s2 → keeps_live now s2 s3 → keeps_live now s1 s3.
Proof. intros [] []. split; [congruence|auto]. Qed.

Lemma getTokens_keeps m k now l m' k' t :
  getTokens m k now = (l, m') → In t (get_list m k') → live now t = true → In t (get_list m' k').
Proof.
  unfold getTokens, get_list. destruct (m !! k) as [l0|] eqn:Hk; intros [= <- <-]; [|done].
  intros Hin Hl. destruct (decide (k = k')) as [<-|Hne].
  - rewrite lookup_insert_eq. rewrite Hk in Hin. by apply filter_In.
  - by rewrite lookup_insert_ne.
Qed.

Lemma getRequireTokens_keeps s now a l s' : getRequireTokens s now a = (l, s') → keeps_live now s s'.
Proof.
  unfold getRequireTokens. destruct (getTokens _ _ _) as [l0 m] eqn:Hg. intros [= <- <-].
  split; [done|]. intros k rt. by apply (getTokens_keeps _ _ _ _ _ _ _ Hg).
Qed.

Lemma scanRequire_keeps test s now anchors b s' :
  scanRequire test s now anchors = (b, s') → keeps_live now s s'.
Proof.
  revert s. induction anchors as [|a anchors IH]; intros s; simpl; [by intros [= _ <-]|].
  destruct (getRequireTokens s now a) as [l s1] eqn:H1. apply getRequireTokens_keeps in H1.
  destruct (existsb test l); [by intros [= _ <-]|]. intros H2%IH. by eapply keeps_live_trans.
Qed.

Lemma scanRequire_complete test s now anchors b s' a rt :
  scanRequire test s now anchors = (b, s') →
  In a anchors → In rt (get_list (ctx_require s) a) → live now rt = true → test rt = true → b = true.
Proof.
  revert s. induction anchors as [|a' anchors IH]; intros s; simpl; [done|].
  destruct (getRequireTokens s now a') as [l s1] eqn:H1.
  pose proof (getRequireTokens_keeps _ _ _ _ _ H1) as Hk.
  destruct (existsb test l) eqn:He; [by intros [= <- _]|].
  intros Hrec [->|Hin] Hrt Hl Ht.
  - exfalso. apply existsb_false with (x := rt) in He; [congruence|].
    revert H1. unfold getRequireTokens. destruct (getTokens _ _ _) as [l0 m] eqn:Hg.
    intros [= <- <-]. by apply (getTokens_list _ _ _ _ _ Hg).
  - eapply IH; [done|done| |done|done]. by apply Hk.
Qed.

Lemma in_map_get_list m t : in_map m t ↔ ∃ k, In t (get_list m k).
Proof.
  split; [|intros [k Hk]; by eapply get_list_in].
  intros (k & l & Hl & Hin). exists k. unfold get_list. by rewrite Hl.
Qed.

Lemma in_getRequireAnchors s k rt :
  In rt (get_list (ctx_require s) k) → In k (getRequireAnchors s).
Proof.
  intros Hin. apply list_elem_of_In. unfold getRequireAnchors. apply in_anchors.
  unfold get_list in Hin. destruct (ctx_require s !! k); [eauto|done].
Qed.

Lemma getRoots_in s r : r ∈ ctx_roots s → In r (getRoots s).
Proof.
  intros Hr. unfold getRoots. eapply Permutation_in; [symmetry; apply iter_perm|].
  apply list_elem_of_In. by apply elem_of_elements.
Qed.

Lemma anchored_keeps now s s' anchor t :
  keeps_live now s s' → anchored s now anchor t → anchored s' now anchor t.
Proof.
  intros [Hr Hk] [?|[(r & Hr' & ?)|(rt & [k Hin]%in_map_get_list & ? & ?)]].
  - by left.
  - right; left. exists r. by rewrite Hr.
  - right; right. exists rt. split_and!; auto. apply in_map_get_list. eauto.
Qed.

Lemma requireCaps_complete allow s now anchor roots ras t require c b s' :
  requireCaps allow s now anchor roots ras t require = (b, s') →
  (∀ r, r ∈ ctx_roots s → In r roots) →
  (∀ k rt, In rt (get_list (ctx_require s) k) → live now rt = true → In k ras) →
  In c require → allow t c = true → anchored s now anchor t →
  b = true.
Proof.
  revert s. induction require as [|c' require IH]; intros s; cbn [requireCaps]; [done|].
  intros Hreq Hroots Hras Hc Hallow Hanc.
  destruct (Token_Anchor t anchor && allow t c') eqn:H1; [by simplify_eq|].
  destruct (existsb _ roots) eqn:H2; [by simplify_eq|].
  destruct (scanRequire _ s now ras) as [ok s1] eqn:H3. destruct ok; [by simplify_eq|].
  destruct Hc as [->|Hc].
  - exfalso. destruct Hanc as [Ha|[(r & Hr & Ha)|(rt & [k Hin]%in_map_get_list & Hl & Ha)]].
    + by rewrite Ha, Hallow in H1.
    + apply existsb_false with (x := r) in H2; [|auto]. by rewrite Ha, Hallow in H2.
    + eapply scanRequire_complete with (a := k) (rt := rt) in H3; eauto; [done|].
      by rewrite Ha, Hallow.
  - pose proof (scanRequire_keeps _ _ _ _ _ _ H3) as Hk. eapply IH; eauto.
    + by rewrite (kl_roots _ _ _ Hk).
    + intros k rt Hin Hl. eapply Hras; [|done]. apply scanRequire_spec in H3 as [Hsh _].
      unfold get_list in Hin |- *. destruct (ctx_require s1 !! k) as [l1|] eqn:Hl1; [|done].
      destruct (sh_require _ _ Hsh _ _ Hl1) as (l & -> & Hsub). auto.
    + by eapply anchored_keeps.
Qed.

Lemma requireCaps_keeps allow s now anchor roots ras t require b s' :
  requireCaps allow s now anchor roots ras t require = (b, s') → keeps_live now s s'.
Proof.
  revert s. induction require as [|c require IH]; intros s; cbn [requireCaps]; [by intros [= _ <-]|].
  destruct (_ && _); [by intros [= _ <-]|]. destruct (existsb _ roots); [by intros [= _ <-]|].
  destruct (scanRequire _ s now ras) as [ok s1] eqn:H3. apply scanRequire_keeps in H3.
  destruct ok; [by intros [= _ <-]|]. intros H4%IH. by eapply keeps_live_trans.
Qed.

Lemma requireTokens_complete allow s now anchor roots ras l require t c b s' :
  requireTokens allow s now anchor roots ras l require = (b, s') →
  (∀ r, In r roots ↔ r ∈ ctx_roots s) →
  (∀ k rt, In rt (get_list (ctx_require s) k) → live now rt = true → In k ras) →
  In t l → In c require → allow t c = true → anchored s now anchor t → b = true.
Proof.
  revert s. induction l as [|t' l IH]; intros s; cbn [requireTokens]; [done|].
  destruct (requireCaps _ s now anchor roots ras t' require) as [ok s1] eqn:H1.
  intros Hreq Hroots Hras Ht Hc Hallow Hanc. destruct ok; [by simplify_eq|].
  destruct Ht as [->|Ht].
  - exfalso. eapply requireCaps_complete in H1; eauto; [done|]. intros r. by rewrite Hroots.
  - pose proof (requireCaps_keeps _ _ _ _ _ _ _ _ _ _ H1) as Hk.
    apply requireCaps_spec in H1 as [Hsh _]; [|intros r; by rewrite Hroots].
    eapply IH; eauto.
    + by rewrite (kl_roots _ _ _ Hk).
    + intros k rt Hin Hl. eapply Hras; [|done].
      unfold get_list in Hin |- *. destruct (ctx_require s1 !! k) as [l1|] eqn:Hl1; [|done].
      destruct (sh_require _ _ Hsh _ _ Hl1) as (l0 & -> & Hsub). auto.
    + by eapply anchored_keeps.
Qed.

Lemma getSubjectTokens_keeps s now sd l s' : getSubjectTokens s now sd = (l, s') → keeps_live now s s'.
Proof. unfold getSubjectTokens. destruct (getTokens _ _ _). intros [= <- <-]. by split. Qed.

(** The scan shared by [Require] and [RequireBroadcast] finds a token when there is one. *)
Lemma subject_scan_complete allow s now anchor sd require l s1 b s2 t c :
  getSubjectTokens s now sd = (l, s1) →
  requireTokens allow s1 now anchor (getRoots s1) (getRequireAnchors s1) l require = (b, s2) →
  In t (get_list (ctx_tokens s) sd) → live now t = true → In c require → allow t c = true →
  anchored s now anchor t → b = true.
Proof.
  intros Hg Hr Ht Hlive Hc Hallow Hanc.
  eapply (requireTokens_complete allow s1); [done| | | |done|done|].
  - intros r. split; [apply in_getRoots|apply getRoots_in].
  - intros k rt Hin _. by eapply in_getRequireAnchors.
  - apply getSubjectTokens_spec in Hg as [_ Hl]. by apply Hl.
  - eapply anchored_keeps; [by eapply getSubjectTokens_keeps|done].
Qed.

Lemma Require_complete s now anchor subject audience require sd ad t c :
  FromID subject = Some sd → FromID audience = Some ad →
  In t (get_list (ctx_tokens s) sd) → live now t = true → In c require →
  Token_AllowInvocation t sd ad c = true → anchored s now anchor t →
  (Require s now anchor subject audience require).1 = None.
Proof.
  intros Hsd Had Ht Hl Hc Ha Hanc. unfold Require.
  rewrite Hsd, Had. rewrite bool_decide_false by (by destruct require).
  destruct (getSubjectTokens s now sd) as [l s1] eqn:Hg.
  destruct (requireTokens _ s1 _ _ _ _ _ _) as [ok s2] eqn:Hq.
  by rewrite (subject_scan_complete _ _ _ _ _ _ _ _ _ _ _ _ Hg Hq Ht Hl Hc Ha Hanc).
Qed.

End completeness.

(** ** From one context to another *)

Section handover.
  Context `{Codec : TokenCodec} `{Wire : WireCodec} `{Keys : KeyLib} `{Iter : MapIteration}.

(** The token [Grant] signs. *)
Lemma Grant_inv s nonce action subject audience topics expire depth provide l :
  Grant s nonce action subject audience topics expire depth provide = inl l →
  ∃ n data sig,
    let d := mkDMSToken action (ctx_DID s) subject audience topics provide n expire depth None "" in
    DMS_SignatureData d = inl data ∧ Sign (ctx_provider s) data = Some sig ∧
    l = [mkToken (Some (DMS_set_signature d sig)) None].
Proof.
  unfold Grant, signToken. destruct nonce as [n|]; [|done].
  destruct (DMS_SignatureData _) as [data|] eqn:Hd; [|done].
  destruct (Sign _ data) as [sig|] eqn:Hs; [|done]. intros [= <-]. by exists n, data, sig.
Qed.

(** A granted token verifies wherever the provider's signatures are accepted. *)
Lemma granted_verifies trust s n data sig action subject audience topics provide expire depth now revoke :
  let d := mkDMSToken action (ctx_DID s) subject audience topics provide n expire depth None "" in
  DMS_SignatureData d = inl data → Sign (ctx_provider s) data = Some sig →
  signs_for trust (ctx_provider s) → (now ≤ expire)%Z →
  (∀ d, Issuer d = ctx_DID s → DMS_Revoked d revoke = false) →
  Token_Verify trust (mkToken (Some (DMS_set_signature d sig)) None) now revoke = None.
Proof.
  intros d Hdata Hsig (check & Hanchor & Hcheck) Hnow Hrev. unfold Token_Verify. cbn [Token_verify DMS].
  apply verify_iff_authorised.
  assert (signed trust (DMS_set_signature d sig)) as Hsigned.
  { exists check, data. rewrite DMS_SignatureData_set. auto. }
  destruct (decide (action = ActRevoke)) as [->|Hne].
  - apply auth_revocation; [done| |done]. apply DMS_ExpireBefore_false. by split.
  - apply auth_root; try done; [|by apply Hrev]. unfold within_depth. cbn. lia.
Qed.

(** Consuming never drops a token stored for a subject. *)
Lemma consumeTokens_grows s now origin roots ras l s' r k t :
  consumeTokens s now origin roots ras l = (s', r) →
  In t (get_list (ctx_tokens s) k) → In t (get_list (ctx_tokens s') k).
Proof.
  revert s. induction l as [|[x|] l IH]; intros s; cbn [consumeTokens]; try by intros [= <- _].
  destruct (acceptable s now origin roots ras x) as [ok s1] eqn:Ha. intros Hrec Hin.
  eapply IH; [done|].
  assert (ctx_tokens s1 = ctx_tokens s) as Heq by by eapply acceptable_tokens.
  destruct ok; [|by rewrite Heq]. destruct (Token_Verify _ _ _ _); [by rewrite Heq|].
  unfold consumeSubjectToken, get_list at 1; cbn. rewrite Heq.
  destruct (decide (Token_Subject x = k)) as [->|Hne].
  - rewrite lookup_insert_eq. apply in_app_iff. by left.
  - by rewrite lookup_insert_ne.
Qed.

Lemma consumeTokens_roots s now origin roots ras l s' r :
  consumeTokens s now origin roots ras l = (s', r) → ctx_roots s' = ctx_roots s.
Proof.
  revert s. induction l as [|[x|] l IH]; intros s; cbn [consumeTokens]; try by intros [= <- _].
  destruct (acceptable s now origin roots ras x) as [ok s1] eqn:Ha.
  apply acceptable_shrinks in Ha. intros ->%IH. rewrite <- (sh_roots _ _ Ha).
  destruct ok; [|done]. by destruct (Token_Verify _ _ _ _).
Qed.

(** Every token anchored in the origin that verifies is stored. *)
Lemma consumeTokens_stores s now origin roots ras l s' r t :
  consumeTokens s now origin roots ras l = (s', r) → ¬ In None l →
  In (Some t) l → Token_Anchor t origin = true →
  Token_Verify (ctx_trust s) t now (ctx_revoke s) = None →
  In t (get_list (ctx_tokens s') (Token_Subject t)).
Proof.
  revert s. induction l as [|[x|] l IH]; intros s; cbn [consumeTokens]; [done| |intros _ Hn; destruct Hn; by left].
  destruct (acceptable s now origin roots ras x) as [ok s1] eqn:Ha.
  pose proof (acceptable_shrinks _ _ _ _ _ _ _ _ Ha) as Hsh.
  intros Hrec Hnil Hin Hanc Hv.
  destruct Hin as [[= ->]|Hin].
  - eapply consumeTokens_grows; [done|].
    assert (ok = true) as ->.
    { revert Ha. unfold acceptable. rewrite Hanc. by destruct (Token_Anchor t (ctx_DID s)); intros [= <- _]. }
    rewrite (sh_trust _ _ Hsh), (sh_revoke _ _ Hsh), Hv. unfold consumeSubjectToken, get_list at 1; cbn.
    rewrite lookup_insert_eq. apply in_app_iff. right. by left.
  - eapply IH; [done|intros ?; apply Hnil; by right|done|done|].
    destruct ok; [|by rewrite (sh_trust _ _ Hsh), (sh_revoke _ _ Hsh)].
    destruct (Token_Verify (ctx_trust s1) x now (ctx_revoke s1)); cbn;
      by rewrite (sh_trust _ _ Hsh), (sh_revoke _ _ Hsh).
Qed.

(** The state a delegation signs from: the one it started with, up to expired tokens. *)
Lemma selfsigned_invocation s now nonces target subject audience expire provide l s' :
  Ctx_DelegateInvocation s now nonces target subject audience expire provide SelfSignAlso = (inl l, s') →
  provide ≠ [] →
  ∃ k l1 l2 s2, shrinks s s2 ∧ l = l1 ++ l2 ∧
    Grant s2 (nonces k) ActInvoke subject audience [] expire 0 provide = inl l2.
Proof.
  unfold Ctx_DelegateInvocation. intros Hd Hne. revert Hd.
  rewrite bool_decide_false by (by destruct provide).
  destruct (getSubjectTokens s now (ctx_DID s)) as [tl s0] eqn:H0.
  apply getSubjectTokens_spec in H0 as [Hs0 _].
  destruct (delegateInvocation _ _ _ _ _ _ _ _ _) as [l0 k0].
  rewrite bool_decide_false by done.
  destruct (overProvideAnchors _ _ _ _ _) as [[l1 k] s1] eqn:Ho.
  apply overProvideAnchors_shrinks in Ho. rewrite bool_decide_false by done.
  destruct (Grant s1 _ _ _ _ _ _ _ _) as [l2|] eqn:Hg; [|done]. intros [= <- _].
  exists k, (l0 ++ l1), l2, s1. split_and!; [by etrans|done|done].
Qed.

(** What the bytes [Provide] returns hold. *)
Lemma Provide_inv s now n1 n2 target subject audience expire invoke provide b s' sd ad :
  Provide s now n1 n2 target subject audience expire invoke provide = (inl b, s') →
  FromID subject = Some sd → FromID audience = Some ad → 
  ∃ l1 l2 l3 k s2, shrinks s s2 ∧ marshal_list (map Some (l1 ++ l2 ++ l3)) = Some b ∧
    Grant s2 (n1 k) ActInvoke sd ad [] expire 0 invoke = inl l2.
Proof.
  unfold Provide. intros Hp Hsd Had. rewrite Hsd, Had in Hp.
  destruct (_ && _); [done|]. case_bool_decide as Hinv; [done|].
  destruct (Ctx_DelegateInvocation _ _ _ _ _ _ _ _ _) as [[inv|e] s1] eqn:Hi; [|done].
  apply selfsigned_invocation in Hi as (k & l1 & l2 & s2 & Hsh & -> & Hg); [|by destruct invoke].
  case_bool_decide; [done|]. unfold marshalTokens in Hp. case_bool_decide.
  - destruct (marshal_list _) as [b'|] eqn:Hm; [|done]. exists l1, l2, [], k, s2.
    rewrite app_nil_r. split_and!; [done|congruence|done].
  - destruct (Ctx_Delegate _ _ _ _ _ _ _ _ _ _) as [[del|e] s3] eqn:Hd; [|done].
    case_bool_decide; [done|]. destruct (marshal_list _) as [b'|] eqn:Hm; [|done].
    exists l1, l2, del, k, s2. rewrite app_assoc. split_and!; [done|congruence|done].
Qed.

End handover.

(** The nil pointer of a decoded token list. *)
Definition is_nil (t : option Token) : bool := match t with None => true | Some _ => false end.

(** ** Claims *)

Section claims.
  Context `{Codec : TokenCodec} `{Wire : WireCodec} `{Keys : KeyLib} `{Iter : MapIteration}.

(** C5: [Require] decides authority exactly: it grants an invocation if and only
    if both identities decode and some unexpired token stored for the subject
    allows one of the required capabilities to the audience and rests on the
    given anchor, a root, or an unexpired side chain; whatever order the maps
    are visited in.  So an empty list of required capabilities is always refused,
    where the comment of the interface calls it vacuously true. *)
Theorem Require_iff s now anchor subject audience require :
  (Require s now anchor subject audience require).1 = None ↔
  ∃ sd ad t c, FromID subject = Some sd ∧ FromID audience = Some ad ∧
    In t (get_list (ctx_tokens s) sd) ∧ live now t = true ∧ In c require ∧
    Token_AllowInvocation t sd ad c = true ∧ anchored s now anchor t.
Proof.
  split.
  - destruct (Require _ _ _ _ _ _) as [r s'] eqn:Hr. simpl. intros ->.
    apply Require_spec in Hr as [_ Hr]. auto.
  - intros (sd & ad & t & c & Hsd & Had & Ht & Hl & Hc & Ha & Hanc). by eapply Require_complete.
Qed.

(** C3: an invocation is granted only on verified authority: in every reachable
    state, failed calls included, when [Require] succeeds there is a token, verified
    now against the revocations in force, that is an invocation for the subject,
    admits the audience, implies a required capability, and is rooted in the anchor,
    in a root, or allowed by a side chain verified in the same way; and the state
    stays reachable.  In force are the revocations that every stored token was checked
    against: all of them after the constructor or [AddRoots] succeeds, until an [AddRoots]
    records some and fails or a token that was checked before is stored.  An empty list is
    never granted, where the comment of the interface calls it vacuously true. *)
Theorem Require_sound s now anchor subject audience require s' :
  reachable s → Require s now anchor subject audience require = (None, s') →
  require ≠ [] ∧ invocation_authorised s now anchor subject audience require ∧ reachable s'.
Proof.
  intros Hs Hr. pose proof (Require_authorised _ _ _ _ _ _ _ Hr) as Ha. split_and!; [|done|].
  - destruct Ha as (sd & ad & d & u & c & _ & _ & Hin & _). by intros ->.
  - eapply reachable_step; [done|by eapply step_Require].
Qed.

(** A broadcast is accepted only on verified authority: as for an
    invocation, with a broadcast token without audience whose topics imply the
    topic of the message. *)
Theorem RequireBroadcast_sound s now anchor subject topic require s' :
  reachable s → RequireBroadcast s now anchor subject topic require = (None, s') →
  broadcast_authorised s now anchor subject topic require ∧ reachable s'.
Proof.
  intros Hs Hr. split; [by eapply RequireBroadcast_authorised|].
  eapply reachable_step; [done|by eapply step_RequireBroadcast].
Qed.

(** Only the issuer revokes: in every reachable state, a token counts as
    revoked only because of a revocation of the same issuer that carries the
    issuer's valid signature (issuers are DIDs without '#'). *)
Theorem only_issuer_revokes s d :
  reachable s → DMS_Revoked d (ctx_revoke s) = true →
  (∀ k r, ctx_revoke s !! k = Some r → Contains (URI (Token_Issuer r)) "#" = false) →
  Contains (URI (Issuer d)) "#" = false →
  ∃ r, act r = ActRevoke ∧ signed (ctx_trust s) r ∧ Issuer r = Issuer d ∧
    DMS_RevocationKey r = DMS_RevocationKey d.
Proof.
  intros [R Hs]%reachable_ok Hrev Hclean Hd. unfold DMS_Revoked, Revoked in Hrev.
  apply bool_decide_eq_true in Hrev as [t Ht].
  destruct (ok_revoke _ _ Hs _ _ Ht) as [Hkey (r & Hr & Hact & Hsig)].
  pose proof (Hclean _ _ Ht) as Hti. destruct t as [d0 u]. simpl in Hr. subst d0. cbn in Hkey, Hti.
  exists r. split_and!; auto. by eapply RevocationKey_issuer.
Qed.

(** A garbage collector is never started: [Start] tests the stop function
    the wrong way round, so in every reachable state it returns without starting
    the collector and leaves the state as it is. *)
Theorem Start_never_collects s : reachable s → Start s = (false, s).
Proof. intros [R Hs]%reachable_ok. unfold Start. by rewrite (ok_stop _ _ Hs). Qed.

(** [Consume] fails in exactly these ways: too many bytes, bytes that do
    not decode, and a panic exactly when the decoded list has a nil token; a
    token that does not verify is skipped silently. *)
Theorem Consume_outcome s now origin b :
  (Consume s now origin b).2 =
  if (maxCapabilitySize <? String.length b)%nat then Err ErrTooBig
  else match unmarshal_list b with
       | None => Err ErrUnmarshal
       | Some l => if existsb is_nil l then Panic else Ok tt
       end.
Proof.
  unfold Consume. destruct (_ <? _)%nat; [done|]. destruct (unmarshal_list b) as [l|]; [|done].
  generalize (getRoots s) (getRequireAnchors s). intros roots ras.
  revert s. induction l as [|[t|] l IH]; intros s; cbn [consumeTokens].
  - done.
  - destruct (acceptable s now origin roots ras t) as [ok s1]. apply IH.
  - done.
Qed.

(** What one context provides, another one requires: when [Provide] hands
    out bytes for an invocation and the receiver consumes them with the
    provider's DID as origin, the receiver's [Require] grants every invoked
    capability to that subject and audience, provided the provider is the anchor
    or one of the receiver's roots, the bytes decode to what was encoded, the
    receiver's trust context accepts the provider's signatures, nothing of the
    provider is revoked and the expiry is not past. *)
Theorem provided_is_granted sa sa' sb sb' now now' n1 n2 target subject audience expire invoke
    provide b c anchor :
  anchor = ctx_DID sa ∨ ctx_DID sa ∈ ctx_roots sb →
  (∀ l b, marshal_list (map Some l) = Some b → unmarshal_list b = Some (map Some l)) →
  Provide sa now n1 n2 target subject audience expire invoke provide = (inl b, sa') →
  Consume sb now' (ctx_DID sa) b = (sb', Ok tt) →
  signs_for (ctx_trust sb) (ctx_provider sa) →
  (∀ d, Issuer d = ctx_DID sa → DMS_Revoked d (ctx_revoke sb) = false) →
  (now' ≤ expire)%Z → In c invoke →
  (Require sb' now' anchor subject audience [c]).1 = None.
Proof.
  intros Hroot Hcodec Hp Hcons Hsigns Hrev Hexp Hc.
  assert (∃ sd ad, FromID subject = Some sd ∧ FromID audience = Some ad) as (sd & ad & Hsd & Had).
  { revert Hp. unfold Provide. destruct (_ && _); [done|]. destruct (FromID subject); [|done].
    destruct (FromID audience); [|done]. eauto. }
  destruct (Provide_inv _ _ _ _ _ _ _ _ _ _ _ _ _ _ Hp Hsd Had)
    as (l1 & l2 & l3 & k & s2 & Hsh & Hm%Hcodec & Hg).
  apply Grant_inv in Hg as (n & data & sig & Hdata & Hsig & ->).
  assert (ctx_DID s2 = ctx_DID sa) as Hdid by (unfold ctx_DID; by rewrite (sh_provider _ _ Hsh)).
  rewrite Hdid in *. rewrite (sh_provider _ _ Hsh) in Hsig.
  set (t := mkToken _ None) in Hm.
  revert Hcons. unfold Consume. destruct (_ <? _)%nat; [done|]. rewrite Hm. intros Hcons.
  apply consumeTokens_stores with (t := t) in Hcons as Hst.
  - eapply Require_complete with (t := t) (c := c); try done; [|by left| |].
    + unfold live. cbn. by rewrite (proj2 (Z.ltb_ge _ _) Hexp).
    + cbn. unfold DMS_AllowInvocation. cbn. rewrite !DID_Equal_refl, andb_false_r.
      apply any_implies_spec. exists c. split; [done|apply Implies_refl].
    + apply consumeTokens_roots in Hcons as Hroots.
      destruct Hroot as [->|Hroot]; [left|right; left; exists (ctx_DID sa); rewrite Hroots; split; [done|]];
        cbn; by rewrite DID_Equal_refl.
  - intros Hin%in_map_iff. naive_solver.
  - apply List.in_map, in_app_iff. right. by left.
  - cbn. by rewrite DID_Equal_refl.
  - by eapply granted_verifies.
Qed.

End claims.

(** ** Concrete instances and witnesses *)

#[local] Instance sample_wire : WireCodec := {|
  marshal_list l := if bool_decide (l = []) then None else Some "tokens";
  unmarshal_list s :=
    if bool_decide (s = "leaf") then Some [Some (tok sample_leaf)]
    else if bool_decide (s = "shout") then Some [Some (tok sample_shout)]
    else if bool_decide (s = "null") then Some [None] else None
|}.

#[local] Existing Instance toy_keys.

#[local] Instance sample_iter : MapIteration := {| iter l := l; iter_perm l := reflexivity l |}.

(** alice's node, before and after it consumed carol's invocation. *)
Definition sample_new : Ctx :=
  mkCtx "node" (sample_provider alice) sample_trust ∅ ∅ ∅ ∅ ∅ false.
Definition sample_consumed : Ctx := (Consume sample_new 50 carol "leaf").1.

Lemma sample_new_settled : in_force sample_new ∅.
Proof.
  apply (force_new "node" sample_trust (Some (sample_provider alice)) 10 [] [] [] [] sample_new). vm_compute. reflexivity.
Qed.

Lemma sample_reachable s : rtc ctx_move sample_new s → reachable s.
Proof. apply reachable_moves. eexists. apply sample_new_settled. Qed.

Lemma sample_consumed_reachable b : reachable (Consume sample_new 50 carol b).1.
Proof.
  apply sample_reachable, rtc_once. left. eapply step_Consume, surjective_pairing.
Qed.

Lemma Require_sound_witness :
  ["/dms/node/peers"] ≠ [] ∧ invocation_authorised sample_consumed 50 alice "carol" "alice" ["/dms/node/peers"] ∧
  reachable (Require sample_consumed 50 alice "carol" "alice" ["/dms/node/peers"]).2.
Proof.
  eapply (Require_sound sample_consumed); [apply sample_consumed_reachable|].
  vm_compute. reflexivity.
Defined.

Definition sample_listening : Ctx := (Consume sample_new 50 carol "shout").1.

Lemma RequireBroadcast_sound_witness :
  broadcast_authorised sample_listening 60 alice "bob" "/topic/news" ["/dms/hello"] ∧
  reachable (RequireBroadcast sample_listening 60 alice "bob" "/topic/news" ["/dms/hello"]).2.
Proof.
  eapply (RequireBroadcast_sound sample_listening); [apply sample_consumed_reachable|].
  vm_compute. reflexivity.
Defined.

Definition sample_revoking : Ctx :=
  (AddRoots sample_new 50 [] [] [] [Some (tok sample_revocation)]).1.

Lemma only_issuer_revokes_witness :
  ∃ r, act r = ActRevoke ∧ signed (ctx_trust sample_revoking) r ∧ Issuer r = Issuer sample_root ∧
    DMS_RevocationKey r = DMS_RevocationKey sample_root.
Proof.
  apply (only_issuer_revokes sample_revoking).
  - apply sample_reachable, rtc_once.
    left; eapply (step_AddRoots _ 50 [] [] [] [Some (tok sample_revocation)]). apply surjective_pairing.
  - vm_compute. reflexivity.
  - change (ctx_revoke sample_revoking)
      with ({[ Token_RevocationKey (tok sample_revocation) := tok sample_revocation ]} : gmap string Token).
    intros k r [_ <-]%lookup_singleton_Some. vm_compute. reflexivity.
  - vm_compute. reflexivity.
Defined.

Lemma Start_never_collects_witness : Start sample_consumed = (false, sample_consumed).
Proof. apply Start_never_collects, sample_consumed_reachable. Defined.

(** carol's own node, and the invocation it provides. *)
Definition sample_carol : Ctx :=
  mkCtx "carol" (sample_provider carol) sample_trust ∅ ∅ ∅ ∅ ∅ false.

Definition sample_nonces (k : nat) : option bytes := Some "n5".

Definition sample_invocation : DMSToken :=
  sample_sign (mkDMSToken ActInvoke carol carol alice [] ["/public"] "n5" 90 0 None "").

#[local] Instance one_list_wire : WireCodec := {|
  marshal_list l := if bool_decide (l = [Some (tok sample_invocation)]) then Some "inv" else None;
  unmarshal_list s := if bool_decide (s = "inv") then Some [Some (tok sample_invocation)] else None
|}.

Definition sample_rooted : Ctx := addRoots sample_new [carol].

Lemma provided_is_granted_witness :
  (Require (Consume sample_rooted 60 carol "inv").1 60 alice "carol" "alice" ["/public"]).1 = None.
Proof.
  eapply (provided_is_granted sample_carol _ sample_rooted _ 50 60 sample_nonces sample_nonces alice
            "carol" "alice" 90 ["/public"] []).
  - right. apply (bool_decide_eq_true_1 _). vm_compute. reflexivity.
  - intros l b. cbn. case_bool_decide as Hl; [|done]. intros [= <-]. cbn. by rewrite Hl.
  - vm_compute. reflexivity.
  - vm_compute. reflexivity.
  - exists (sample_check carol). split; [vm_compute; reflexivity|].
    intros data sig [= <-]. unfold sample_check. by apply bool_decide_eq_true.
  - intros d _. vm_compute. reflexivity.
  - lia.
  - by left.
Defined.

(** An empty list of required capabilities is refused. *)
Example Require_empty_refused : (Require sample_consumed 50 alice "carol" "alice" []).1 ≠ None.
Proof. vm_compute. discriminate. Qed.

(** A failed [AddRoots] can leave a revoked token in use: the error return skips
    [cleanUpTokens], so a revocation consumed before the failure does not reach
    the tokens already stored. *)
Definition sample_half_revoked : Ctx :=
  (AddRoots sample_consumed 50 [] [Some (mkToken None None)] [] [Some (tok sample_revocation)]).1.

Lemma half_revoked_reachable : @reachable sample_codec sample_wire toy_keys sample_iter sample_half_revoked.
Proof.
  apply sample_reachable. eapply rtc_l; [left; eapply step_Consume, surjective_pairing|]. apply rtc_once. left. eapply step_AddRoots, surjective_pairing.
Qed.

Theorem AddRoots_error_keeps_revoked :
  (AddRoots sample_consumed 50 [] [Some (mkToken None None)] [] [Some (tok sample_revocation)]).2
    = Err ErrBadToken ∧
  Token_Verify sample_trust (tok sample_leaf) 50 (ctx_revoke sample_half_revoked)
    = Some ErrNotAuthorized ∧
  (Require sample_half_revoked 50 alice "carol" "alice" ["/dms/node/peers"]).1 = None.
Proof. vm_compute. auto. Qed.

(** carol's token is checked, then a revocation of alice's grant arrives and [AddRoots]
    succeeds, and only then is the checked token stored. *)
Definition sample_late : Ctx :=
  consumeSubjectToken (AddRoots sample_new 50 [] [] [] [Some (tok sample_revocation)]).1 (tok sample_leaf).

(** The revocation that came between the check and the store does not reach the token: it is
    stored although it is revoked, and still grants. *)
Theorem late_token_keeps_revoked :
  @reachable sample_codec sample_wire toy_keys sample_iter sample_late ∧
  (AddRoots sample_new 50 [] [] [] [Some (tok sample_revocation)]).2 = Ok tt ∧
  Token_Verify sample_trust (tok sample_leaf) 50 (ctx_revoke sample_new) = None ∧
  Token_Verify sample_trust (tok sample_leaf) 50 (ctx_revoke sample_late) = Some ErrNotAuthorized ∧
  (Require sample_late 50 alice "carol" "alice" ["/dms/node/peers"]).1 = None.
Proof.
  split; [|vm_compute; auto].
  apply sample_reachable. eapply rtc_l; [left; eapply step_AddRoots, surjective_pairing|]. apply rtc_once. right.
  exists ∅. apply (late_subject _ _ _ 50). vm_compute. reflexivity.
Qed.
