(* ===== verification/CapStore.v ===== *)
(** * Stored capability contexts and trust contexts (lib/ucan/store.go, lib/did/context.go,
    lib/did/anchor.go)

    A capability context is written to a file and read when the node starts.  The trust
    context caches the anchors it resolves for an hour after their last use; the verification
    of tokens is modelled with a function for it, and [trust_context_is_function] shows that
    the cache behaves as one. *)

From S2P Require Import Prelude GoStrings Key Capability Token TokenSpec TokenProps CapContext CapContextSpec CapContextProps.

(** ** Files *)

Record CapabilityContextView := mkView {
  view_DID : DID;
  view_Roots : list DID;
  view_Require : TokenList;
  view_Provide : TokenList;
  view_Revoke : TokenList
}.

(** [json] on views. *)
Class ViewCodec := {
  encode_view : CapabilityContextView → option string;
  decode_view : string → option CapabilityContextView
}.

(** [t.Expired()] on a nil pointer panics. *)
Fixpoint keepLive (now : Z) (l : TokenList) : outcome ucan_error TokenList :=
  match l with
  | [] => Ok []
  | None :: _ => Panic
  | Some t :: l =>
      match keepLive now l with
      | Ok rest => Ok (if Token_Expired t now then rest else Some t :: rest)
      | r => r
      end
  end.

Section store.
  Context `{Codec : TokenCodec} `{Wire : WireCodec} `{Keys : KeyLib} `{Iter : MapIteration} `{Views : ViewCodec}.

Definition viewOfContext (s : Ctx) (now : Z) : CapabilityContextView * Ctx :=
  let '((roots, require, provide, revoke), s) := ListRoots s now in
  (mkView (ctx_DID s) roots (map Some require) (map Some provide) (map Some revoke), s).

Definition saveCapabilityContext (s : Ctx) (now : Z) : outcome ucan_error string * Ctx :=
  let '(view, s) := viewOfContext s now in
  match encode_view view with Some text => (Ok text, s) | None => (Err ErrMarshal, s) end.

(** [getProvider] is the method of the trust context. *)
Definition LoadCapabilityContextWithName (name : string) (trust : TrustContext) (getProvider : DID → option Provider)
    (now : Z) (text : string) : outcome ucan_error Ctx :=
  match decode_view text with
  | None => Err ErrMarshal
  | Some view =>
      match keepLive now (view_Require view) with
      | Ok require =>
          match keepLive now (view_Provide view) with
          | Ok provide =>
              match keepLive now (view_Revoke view) with
              | Ok revoke => newCapabilityContext name trust (getProvider (view_DID view)) now (view_Roots view) require provide revoke
              | Err e => Err e
              | Panic => Panic
              end
          | Err e => Err e
          | Panic => Panic
          end
      | Err e => Err e
      | Panic => Panic
      end
  end.

Definition LoadCapabilityContext (trust : TrustContext) (getProvider : DID → option Provider) (now : Z) (text : string)
    : outcome ucan_error Ctx := LoadCapabilityContextWithName "dms" trust getProvider now text.

(** ** What is listed *)

Lemma keepLive_some now l : keepLive now (map Some l) = Ok (map Some (List.filter (live now) l)).
Proof.
  induction l as [|t l IH]; cbn; [done|]. rewrite IH. unfold live, Token_Expired. by destruct (Token_ExpireBefore t now).
Qed.

(** The tokens a pass over the anchors collects: the live ones, and all of them. *)
Lemma collect_complete (get : Ctx → Z → DID → list Token * Ctx) (m : Ctx → gmap DID (list Token)) now :
  (∀ s a l s', get s now a = (l, s') → shrinks s s' ∧ (∀ t, In t l ↔ In t (get_list (m s) a) ∧ live now t = true) ∧
     ∀ k, k ≠ a → m s' !! k = m s !! k) →
  ∀ anchors s l s' t, collectTokens get s now anchors = (l, s') →
    (In t l → ∃ s1 a, shrinks s s1 ∧ In t (get_list (m s1) a) ∧ live now t = true) ∧
    (∀ k, k ∈ anchors → In t (get_list (m s) k) → live now t = true → In t l).
Proof.
  intros Hget anchors. induction anchors as [|a anchors IH]; intros s l s' t; cbn.
  { intros [= <- <-]. split; [done|]. by intros k ?%elem_of_nil. }
  destruct (get s now a) as [l1 s1] eqn:H1. destruct (Hget _ _ _ _ H1) as (Hsh & Hin & Hne).
  destruct (collectTokens get s1 now anchors) as [l2 s2] eqn:H2. intros [= <- <-].
  destruct (IH _ _ _ t H2) as [Hs Hc]. split.
  - intros [Ht|Ht]%in_app_iff; [apply Hin in Ht as [? ?]; by exists s, a|].
    destruct (Hs Ht) as (s3 & b & Hsh' & ? & ?). exists s3, b. split; [by etrans|done].
  - intros k Hk Ht Hl. apply in_app_iff. destruct (decide (k = a)) as [->|Hka]; [left; by apply Hin|].
    right. apply (Hc k); [set_solver| |done]. unfold get_list in *. by rewrite Hne.
Qed.

Lemma require_getter s now a l s' : getRequireTokens s now a = (l, s') →
  shrinks s s' ∧ (∀ t, In t l ↔ In t (get_list (ctx_require s) a) ∧ live now t = true) ∧ ∀ k, k ≠ a → ctx_require s' !! k = ctx_require s !! k.
Proof.
  intros H. split; [by apply getRequireTokens_spec in H as [? _]|]. revert H. unfold getRequireTokens.
  destruct (getTokens _ _ _) as [l0 m] eqn:Hg. intros [= <- <-]. split; [by eapply getTokens_list|].
  intros k Hk. cbn. revert Hg. unfold getTokens. destruct (_ !! a); intros [= _ <-]; by rewrite ?lookup_insert_ne.
Qed.

Lemma provide_getter s now a l s' : getProvideTokens s now a = (l, s') →
  shrinks s s' ∧ (∀ t, In t l ↔ In t (get_list (ctx_provide s) a) ∧ live now t = true) ∧ ∀ k, k ≠ a → ctx_provide s' !! k = ctx_provide s !! k.
Proof.
  intros H. split; [by apply getProvideTokens_spec in H as [? _]|]. revert H. unfold getProvideTokens.
  destruct (getTokens _ _ _) as [l0 m] eqn:Hg. intros [= <- <-]. split; [by eapply getTokens_list|].
  intros k Hk. cbn. revert Hg. unfold getTokens. destruct (_ !! a); intros [= _ <-]; by rewrite ?lookup_insert_ne.
Qed.

Lemma collect_require_provide s now anchors l s' : collectTokens getRequireTokens s now anchors = (l, s') → ctx_provide s' = ctx_provide s.
Proof.
  revert s l s'. induction anchors as [|a anchors IH]; intros s l s'; cbn; [by intros [= _ <-]|].
  destruct (getRequireTokens s now a) as [l1 s1] eqn:H1. destruct (collectTokens _ s1 now anchors) as [l2 s2] eqn:H2.
  intros [= _ <-]. rewrite (IH _ _ _ H2). revert H1. unfold getRequireTokens. by destruct (getTokens _ _ _); intros [= _ <-].
Qed.

Lemma in_map_get m t : in_map m t ↔ ∃ k, k ∈ iter (map fst (map_to_list m)) ∧ In t (get_list m k).
Proof.
  split.
  - intros (k & l & Hk & Ht). exists k. split; [apply in_anchors; eauto|]. unfold get_list. by rewrite Hk.
  - intros (k & _ & Ht). by eapply get_list_in.
Qed.

(** The listing holds exactly the live tokens. *)
Lemma ListRoots_exact s now roots require provide revoke s' :
  ListRoots s now = ((roots, require, provide, revoke), s') →
  shrinks s s' ∧ roots = getRoots s ∧ revoke = RevocationSet_List (ctx_revoke s) now ∧
  (∀ t, In t require ↔ in_map (ctx_require s) t ∧ live now t = true) ∧
  (∀ t, In t provide ↔ in_map (ctx_provide s) t ∧ live now t = true).
Proof.
  intros H. split; [by eapply ListRoots_shrinks|]. revert H. unfold ListRoots.
  destruct (collectTokens getRequireTokens s now _) as [l1 s1] eqn:H1.
  destruct (collectTokens getProvideTokens s1 now _) as [l2 s2] eqn:H2. intros [= <- <- <- <- <-].
  pose proof (collect_complete _ ctx_require now (λ s, require_getter s now)) as C1.
  pose proof (collect_complete _ ctx_provide now (λ s, provide_getter s now)) as C2.
  assert (shrinks s s1) as Hsh1.
  { eapply collectTokens_shrinks; [|done]. by intros ? ? ? ? [? _]%getRequireTokens_spec. }
  assert (shrinks s1 s2) as Hsh2.
  { eapply collectTokens_shrinks; [|done]. by intros ? ? ? ? [? _]%getProvideTokens_spec. }
  pose proof (collect_require_provide _ _ _ _ _ H1) as Hp.
  split_and!; [done|by rewrite (sh_revoke _ _ Hsh2), (sh_revoke _ _ Hsh1)| |].
  - intros t. destruct (C1 _ _ _ _ t H1) as [Hs Hc]. split.
    + intros (s3 & a & Hsh & Ht & Hl)%Hs. split; [|done]. eapply map_sub_in; [by apply sh_require|]. by eapply get_list_in.
    + intros [(k & Hk & Ht)%in_map_get Hl]. by eapply Hc.
  - intros t. destruct (C2 _ _ _ _ t H2) as [Hs Hc]. rewrite <- Hp. split.
    + intros (s3 & a & Hsh & Ht & Hl)%Hs. split; [|done]. eapply map_sub_in; [by apply sh_provide|]. by eapply get_list_in.
    + intros [(k & Hk & Ht)%in_map_get Hl]. by eapply Hc.
Qed.

(** ** Loading *)

(** A token is below another through tokens that subsume one another. *)
Definition covered (l : list Token) (t : Token) : Prop := ∃ t', In t' l ∧ rtc (λ a b, Token_Subsumes b a = true) t t'.

Lemma anchorMerge_covers l acc t :
  match anchorMerge l acc t with
  | None => ∃ ot, In ot l ∧ Token_Subsumes ot t = true
  | Some result => In t result ∧ (∀ x, In x acc → In x result) ∧ ∀ x, In x l → In x result ∨ Token_Subsumes t x = true
  end.
Proof.
  revert acc. induction l as [|ot l IH]; intros acc; cbn.
  { split_and!; [apply in_app_iff; right; by left|intros x Hx; apply in_app_iff; by left|done]. }
  destruct (Token_Subsumes ot t) eqn:H1; [by exists ot; split; [left|]|].
  destruct (Token_Subsumes t ot) eqn:H2.
  - specialize (IH acc). destruct (anchorMerge l acc t) as [r|].
    + destruct IH as (Ht & Ha & Hl). split_and!; [done|done|]. intros x [->|Hx]; auto.
    + destruct IH as (o & Ho & Hs). exists o. split; [by right|done].
  - specialize (IH (acc ++ [ot])). destruct (anchorMerge l (acc ++ [ot]) t) as [r|].
    + destruct IH as (Ht & Ha & Hl). split_and!; [done|intros x Hx; apply Ha, in_app_iff; by left|].
      intros x [->|Hx]; [left; apply Ha, in_app_iff; right; by left|auto].
    + destruct IH as (o & Ho & Hs). exists o. split; [by right|done].
Qed.

Definition map_covered (m : gmap DID (list Token)) (t : Token) : Prop := ∃ t', in_map m t' ∧ rtc (λ a b, Token_Subsumes b a = true) t t'.

(** A token that is stored stays covered when another one is consumed, and so is this one. *)
Lemma consume_covers m t x : in_map m x ∨ x = t → map_covered (consumeAnchorToken m t) x.
Proof.
  unfold consumeAnchorToken. pose proof (anchorMerge_covers (get_list m (Token_Issuer t)) [] t) as Hm.
  destruct (anchorMerge _ _ _) as [r|].
  - destruct Hm as (Ht & _ & Hl).
    assert (Hin : ∀ y, In y r → in_map (<[Token_Issuer t := r]> m) y).
    { intros y Hy. exists (Token_Issuer t), r. by rewrite lookup_insert_eq. }
    intros [(k & l & Hk & Hx)| -> ]; [|exists t; by split; [auto|apply rtc_refl]].
    destruct (decide (k = Token_Issuer t)) as [->|Hne].
    + destruct (Hl x) as [?|Hs]; [unfold get_list; by rewrite Hk|exists x; split; [auto|apply rtc_refl]|].
      exists t. split; [auto|by apply rtc_once].
    + exists x. split; [exists k, l; by rewrite lookup_insert_ne|apply rtc_refl].
  - destruct Hm as (ot & Ho & Hs). intros [Hx| -> ]; [exists x; by split; [|apply rtc_refl]|].
    exists ot. split; [by eapply get_list_in|by apply rtc_once].
Qed.

Lemma consume_all_covers l m x : in_map m x ∨ In x l → map_covered (fold_left consumeAnchorToken l m) x.
Proof.
  assert (Hkeep : ∀ l m x, map_covered m x → map_covered (fold_left consumeAnchorToken l m) x).
  { clear. induction l as [|t l IH]; intros m x Hx; cbn; [done|]. apply IH. destruct Hx as (y & Hy & Hxy).
    destruct (consume_covers m t y (or_introl Hy)) as (z & Hz & Hyz). exists z. split; [done|by etrans]. }
  revert m. induction l as [|t l IH]; intros m; cbn; [intros [Hx|[]]; exists x; by split; [|apply rtc_refl]|].
  intros [Hx|[->|Hx]]; [apply Hkeep, consume_covers; by left|apply Hkeep, consume_covers; by right|apply IH; by right].
Qed.

Lemma consume_all_in l m x : in_map (fold_left consumeAnchorToken l m) x → in_map m x ∨ In x l.
Proof.
  revert m. induction l as [|t l IH]; intros m; cbn; [by left|]. intros [Hx|Hx]%IH; [|by right; right].
  apply consumeAnchorToken_in in Hx as [?| -> ]; auto.
Qed.

(** A loop of [AddRoots] in which every token is accepted. *)
Lemma addTokens_all (Inv : Ctx → Prop) guard store now l s :
  (∀ s t, Inv s → In t l → guard t = None ∧ Token_Verify (ctx_trust s) t now (ctx_revoke s) = None ∧ Inv (store s t)) →
  Inv s → addTokens guard store s now (map Some l) = (fold_left store l s, Ok tt) ∧ Inv (fold_left store l s).
Proof.
  revert s. induction l as [|t l IH]; intros s Hall Hs; cbn; [done|].
  destruct (Hall s t Hs) as (-> & -> & Hn); [by left|]. apply IH; [|done]. intros s' t' Hs' Ht'. apply Hall; [done|by right].
Qed.

(** Cleaning keeps what verifies. *)
Lemma cleanRequire_in now s a t :
  (in_map (ctx_require (cleanRequire now s a)) t → in_map (ctx_require s) t) ∧
  (in_map (ctx_require s) t → verifies s now t = true → in_map (ctx_require (cleanRequire now s a)) t).
Proof.
  unfold cleanRequire, getRequireTokens, getTokens. destruct (ctx_require s !! a) as [l|] eqn:Ha; cbn; split.
  - rewrite insert_insert_eq. intros [[[Ht _]%filter_In _]%filter_In|?]%in_map_insert; [by exists a, l|done].
  - intros (k & l' & Hk & Ht) Hv. rewrite insert_insert_eq. destruct (decide (k = a)) as [->|Hne].
    + simplify_eq. exists a. eexists. split; [apply lookup_insert_eq|]. apply filter_In. split; [|done].
      apply filter_In. split; [done|]. unfold live. apply bool_decide_eq_true in Hv. by rewrite (Verify_live _ _ _ _ Hv).
    + exists k, l'. by rewrite lookup_insert_ne.
  - by intros [[]|?]%in_map_insert.
  - intros (k & l' & Hk & Ht) Hv. exists k, l'. split; [|done]. rewrite lookup_insert_ne; [done|]. intros ->. congruence.
Qed.

Lemma cleanProvide_in now s a t :
  (in_map (ctx_provide (cleanProvide now s a)) t → in_map (ctx_provide s) t) ∧
  (in_map (ctx_provide s) t → verifies s now t = true → in_map (ctx_provide (cleanProvide now s a)) t).
Proof.
  unfold cleanProvide, getProvideTokens, getTokens. destruct (ctx_provide s !! a) as [l|] eqn:Ha; cbn; split.
  - rewrite insert_insert_eq. intros [[[Ht _]%filter_In _]%filter_In|?]%in_map_insert; [by exists a, l|done].
  - intros (k & l' & Hk & Ht) Hv. rewrite insert_insert_eq. destruct (decide (k = a)) as [->|Hne].
    + simplify_eq. exists a. eexists. split; [apply lookup_insert_eq|]. apply filter_In. split; [|done].
      apply filter_In. split; [done|]. unfold live. apply bool_decide_eq_true in Hv. by rewrite (Verify_live _ _ _ _ Hv).
    + exists k, l'. by rewrite lookup_insert_ne.
  - by intros [[]|?]%in_map_insert.
  - intros (k & l' & Hk & Ht) Hv. exists k, l'. split; [|done]. rewrite lookup_insert_ne; [done|]. intros ->. congruence.
Qed.

(** A pass of cleaning, for either map. *)
Lemma clean_fold (m : Ctx → gmap DID (list Token)) (step : Ctx → DID → Ctx) now t :
  (∀ s a, same_frame s (step s a)) →
  (∀ s a, (in_map (m (step s a)) t → in_map (m s) t) ∧ (in_map (m s) t → verifies s now t = true → in_map (m (step s a)) t)) →
  ∀ anchors s, same_frame s (fold_left step anchors s) ∧
    (in_map (m (fold_left step anchors s)) t → in_map (m s) t) ∧
    (in_map (m s) t → verifies s now t = true → in_map (m (fold_left step anchors s)) t).
Proof.
  intros Hf Hstep anchors. induction anchors as [|a anchors IH]; intros s; cbn; [done|].
  destruct (IH (step s a)) as (F & I & K), (Hstep s a) as [I1 K1]. split_and!; [etrans; [apply Hf|done]|auto|].
  intros Ht Hv. apply K; [auto|]. by rewrite (verifies_frame _ _ now t (Hf s a)).
Qed.

Lemma cleanUp_exact s now t :
  (∀ t, stored s t → verifies s now t = true) →
  (in_map (ctx_require (cleanUpTokens s now)) t ↔ in_map (ctx_require s) t) ∧
  (in_map (ctx_provide (cleanUpTokens s now)) t ↔ in_map (ctx_provide s) t).
Proof.
  intros Hall. unfold cleanUpTokens.
  destruct (clean_fold ctx_require (cleanRequire now) now t) with (anchors := getRequireAnchors s) (s := s) as (F1 & I1 & K1);
    [intros; apply cleanRequire_lookup|intros; apply cleanRequire_in|].
  assert (ctx_provide (fold_left (cleanRequire now) (getRequireAnchors s) s) = ctx_provide s) as Hp.
  { apply fold_untouched. intros s' a. apply cleanRequire_lookup. }
  set (s1 := fold_left (cleanRequire now) (getRequireAnchors s) s) in *.
  destruct (clean_fold ctx_provide (cleanProvide now) now t) with (anchors := getProvideAnchors s1) (s := s1) as (F2 & I2 & K2);
    [intros; apply cleanProvide_lookup|intros; apply cleanProvide_in|].
  assert (ctx_require (fold_left (cleanProvide now) (getProvideAnchors s1) s1) = ctx_require s1) as Hr.
  { apply fold_untouched. intros s' a. apply cleanProvide_lookup. }
  cbn. rewrite Hr, Hp in *. split; (split; [done|]); intros Ht.
  - apply K1; [done|]. apply Hall. by left.
  - apply K2; [done|]. rewrite (verifies_frame _ _ now t F1). apply Hall. by right; left.
Qed.

(** The loops, field by field. *)
Lemma fold_require l s :
  fold_left consumeRequireToken l s = set_require s (fold_left consumeAnchorToken l (ctx_require s)).
Proof. revert s. induction l as [|t l IH]; intros s; cbn; [by destruct s|]. by rewrite IH. Qed.

Lemma fold_provide l s :
  fold_left consumeProvideToken l s = set_provide s (fold_left consumeAnchorToken l (ctx_provide s)).
Proof. revert s. induction l as [|t l IH]; intros s; cbn; [by destruct s|]. by rewrite IH. Qed.

Lemma fold_revoke l s : fold_left consumeRevokeToken l s = set_revoke s (fold_left RevocationSet_Revoke l (ctx_revoke s)).
Proof. revert s. induction l as [|t l IH]; intros s; cbn; [by destruct s|]. by rewrite IH. Qed.

(** The revocations that come back are those that were listed. *)
Lemma revoke_all (R : RevocationSet) l m :
  (∀ t, In t l → R !! Token_RevocationKey t = Some t) → m ⊆ R →
  fold_left RevocationSet_Revoke l m ⊆ R ∧
  ∀ k t, fold_left RevocationSet_Revoke l m !! k = Some t ↔ m !! k = Some t ∨ In t l ∧ Token_RevocationKey t = k.
Proof.
  revert m. induction l as [|x l IH]; intros m Hl Hm; cbn; [split; [done|naive_solver]|].
  assert (R !! Token_RevocationKey x = Some x) as Hx by (apply Hl; by left).
  assert (RevocationSet_Revoke m x ⊆ R) as Hm' by (by apply insert_subseteq_l).
  destruct (IH (RevocationSet_Revoke m x)) as [Hsub Hk]; [intros t Ht; apply Hl; by right|done|]. split; [done|].
  intros k t. rewrite Hk. unfold RevocationSet_Revoke. rewrite lookup_insert_Some. split.
  - intros [[[<- ->]|[_ ?]]|[? ?]]; auto.
  - intros [Ht|[[->|Ht] <-]]; [|by left; left|by right].
    destruct (decide (Token_RevocationKey x = k)) as [<-|Hne]; [|left; by right].
    left. left. split; [done|]. pose proof (lookup_weaken _ _ _ _ Ht Hm). congruence.
Qed.

Lemma revocation_verifies trust t d now R :
  DMS t = Some d → act d = ActRevoke → signed trust d → live now t = true →
  isRevocation t = None ∧ Token_Verify trust t now R = None.
Proof.
  destruct t as [[d'|] u]; cbn; [|done]. intros [= ->] Hact Hs Hl. unfold isRevocation. cbn. rewrite bool_decide_true by done.
  split; [done|]. unfold Token_Verify. cbn. apply DMS_verify_None. apply negb_true_iff in Hl. cbn in Hl. auto.
Qed.

(** Loading a view of tokens that verify, with revocations that are signed, succeeds. *)
Lemma load_view name trust p now roots require provide revoke R :
  (∀ t, In t revoke → R !! Token_RevocationKey t = Some t ∧ ∃ d, DMS t = Some d ∧ act d = ActRevoke ∧ signed trust d ∧ live now t = true) →
  (∀ t, In t require ∨ In t provide → Token_Verify trust t now R = None) →
  ∃ s, newCapabilityContext name trust (Some p) now roots (map Some require) (map Some provide) (map Some revoke) = Ok s ∧
    ctx_roots s = list_to_set roots ∧ ctx_tokens s = ∅ ∧ ctx_revoke s ⊆ R ∧
    (∀ k t, ctx_revoke s !! k = Some t ↔ In t revoke ∧ Token_RevocationKey t = k) ∧
    (∀ t, in_map (ctx_require s) t → In t require) ∧ (∀ t, In t require → map_covered (ctx_require s) t) ∧
    (∀ t, in_map (ctx_provide s) t → In t provide) ∧ (∀ t, In t provide → map_covered (ctx_provide s) t).
Proof.
  intros Hrev Hver. unfold newCapabilityContext, AddRoots. set (s0 := addRoots _ roots).
  set (R1 := fold_left RevocationSet_Revoke revoke ∅).
  destruct (revoke_all R revoke ∅) as [HR1 HR1k]; [intros t Ht; by apply Hrev|apply map_empty_subseteq|]. fold R1 in HR1, HR1k.
  assert (Hold : ∀ t, In t require ∨ In t provide → Token_Verify trust t now R1 = None).
  { intros t Ht%Hver. eapply Verify_retime; [done|by eapply Verify_live|]. intros k. unfold Revoked. rewrite !bool_decide_eq_true.
    intros [x Hx]. exists x. by eapply lookup_weaken. }
  destruct (addTokens_all (λ s, ctx_trust s = trust) isRevocation consumeRevokeToken now revoke s0) as [H1 _]; [|done|].
  { intros s t Hs Ht. destruct (Hrev t Ht) as (_ & d & Hd & Ha & Hsig & Hl). rewrite Hs.
    destruct (revocation_verifies trust t d now (ctx_revoke s) Hd Ha Hsig Hl). by split_and!. }
  rewrite H1, fold_revoke. clear H1.
  destruct (addTokens_all (λ s, ctx_trust s = trust ∧ ctx_revoke s = R1) anyAction consumeRequireToken now require
    (set_revoke s0 (fold_left RevocationSet_Revoke revoke (ctx_revoke s0)))) as [H2 _]; [|by split|].
  { intros s t [E1 E2] Ht. split_and!; [done|rewrite E1, E2; by apply Hold; left|done|done]. }
  rewrite H2, fold_require. clear H2.
  match goal with |- context [addTokens anyAction consumeProvideToken ?s now _] => set (s2 := s) end.
  destruct (addTokens_all (λ s, ctx_trust s = trust ∧ ctx_revoke s = R1) anyAction consumeProvideToken now provide s2) as [H3 _]; [|by split|].
  { intros s t [E1 E2] Ht. split_and!; [done|rewrite E1, E2; by apply Hold; right|done|done]. }
  rewrite H3, fold_provide. clear H3. set (s3 := set_provide s2 _).
  eexists. split; [done|].
  assert (Hin : ∀ t, stored s3 t → In t require ∨ In t provide).
  { intros t [Ht|[Ht|(k & l & Hk & _)]]; [| |done].
    - apply consume_all_in in Ht as [(k & l & Hk & _)|?]; [done|by left].
    - apply consume_all_in in Ht as [(k & l & Hk & _)|?]; [done|by right]. }
  assert (Hall : ∀ t, stored s3 t → verifies s3 now t = true).
  { intros t Ht. apply bool_decide_eq_true. cbn. by apply Hold, Hin. }
  destruct (cleanUpTokens_clean s3 now) as [[_ _ Hrv _] _].
  assert (Hempty : ∀ t : Token, in_map ∅ t → False) by by intros t (k & l & Hk & _).
  assert (Hcov : ∀ m l t, (∀ t, in_map m t ↔ in_map (fold_left consumeAnchorToken l ∅) t) → In t l → map_covered m t).
  { intros m l t Hm Ht. destruct (consume_all_covers l ∅ t (or_intror Ht)) as (y & Hy & Hty). exists y. by rewrite Hm. }
  split_and!.
  - unfold cleanUpTokens. cbn. rewrite !(fold_untouched ctx_roots); [set_solver| |].
    + intros s a. unfold cleanRequire, getRequireTokens. by destruct (getTokens _ _ _).
    + intros s a. unfold cleanProvide, getProvideTokens. by destruct (getTokens _ _ _).
  - unfold cleanUpTokens. cbn. rewrite !(fold_untouched ctx_tokens); [apply fmap_empty| |].
    + intros s a. apply cleanRequire_lookup.
    + intros s a. apply cleanProvide_lookup.
  - by rewrite Hrv.
  - intros k t. rewrite Hrv. change (ctx_revoke s3) with R1. rewrite HR1k, lookup_empty. naive_solver.
  - intros t. rewrite (proj1 (cleanUp_exact s3 now t Hall)). intros [Ht|?]%consume_all_in; [by destruct (Hempty t)|done].
  - intros t. apply Hcov. intros x. apply (proj1 (cleanUp_exact s3 now x Hall)).
  - intros t. rewrite (proj2 (cleanUp_exact s3 now t Hall)). intros [Ht|?]%consume_all_in; [by destruct (Hempty t)|done].
  - intros t. apply Hcov. intros x. apply (proj2 (cleanUp_exact s3 now x Hall)).
Qed.

(** C6: a stored context comes back: in every reachable state whose recorded revocations are
    all in force (none was recorded by an [AddRoots] that then failed), with an encoder that is
    undone by its decoder and a keyring that knows the provider of the context, what is saved
    loads again at any later time into a context that is reachable, with all its revocations in
    force and with the same roots of trust, exactly the revocations that have not expired, and
    no other side chains and grants than before; those that have not expired are there, or one
    that subsumes them. *)
Theorem saved_context_loads s now text s1 name getProvider now' :
  in_force s (ctx_revoke s) → (∀ v x, encode_view v = Some x → decode_view x = Some v) →
  getProvider (ctx_DID s) = Some (ctx_provider s) → saveCapabilityContext s now = (Ok text, s1) →
  ∃ s', LoadCapabilityContextWithName name (ctx_trust s) getProvider now' text = Ok s' ∧ in_force s' (ctx_revoke s') ∧
    ctx_roots s' = ctx_roots s ∧
    (∀ k t, ctx_revoke s' !! k = Some t ↔ ctx_revoke s !! k = Some t ∧ live now t = true ∧ live now' t = true) ∧
    (∀ t, in_map (ctx_require s') t → in_map (ctx_require s) t) ∧
    (∀ t, in_map (ctx_provide s') t → in_map (ctx_provide s) t) ∧
    (∀ t, in_map (ctx_require s) t → live now t = true → live now' t = true → map_covered (ctx_require s') t) ∧
    (∀ t, in_map (ctx_provide s) t → live now t = true → live now' t = true → map_covered (ctx_provide s') t).
Proof.
  intros Hreach Hcodec Hprov. unfold saveCapabilityContext, viewOfContext.
  destruct (ListRoots s now) as [[[[roots require] provide] revoke] s2] eqn:Hl.
  destruct (ListRoots_exact _ _ _ _ _ _ _ Hl) as (Hsh & -> & -> & Hreq & Hpro).
  destruct (encode_view _) as [x|] eqn:He; [|done]. intros [= -> ->]. apply Hcodec in He.
  unfold LoadCapabilityContextWithName. rewrite He. cbn. rewrite !keepLive_some.
  unfold ctx_DID at 1. rewrite (sh_provider _ _ Hsh). fold (ctx_DID s). rewrite Hprov.
  pose proof (in_force_ok _ _ Hreach) as [_ Hrv _ _].
  assert (Hrevoke : ∀ t, In t (List.filter (live now') (RevocationSet_List (ctx_revoke s) now)) ↔
    ctx_revoke s !! Token_RevocationKey t = Some t ∧ live now t = true ∧ live now' t = true).
  { intros t. unfold RevocationSet_List. rewrite !filter_In, in_map_iff. split.
    - intros [[([k t'] & <- & Hk%list_elem_of_In%elem_of_map_to_list) ?] ?]. cbn. destruct (Hrv k t' Hk) as [-> _]. done.
    - intros (Hk & ? & ?). split; [split|done]; [|done]. exists (Token_RevocationKey t, t). split; [done|].
      by apply list_elem_of_In, elem_of_map_to_list. }
  destruct (load_view name (ctx_trust s) (ctx_provider s) now' (getRoots s) (List.filter (live now') require)
    (List.filter (live now') provide) (List.filter (live now') (RevocationSet_List (ctx_revoke s) now)) (ctx_revoke s))
    as (s' & Hnew & Hroots & _ & _ & Hrk & R1 & R2 & P1 & P2).
  - intros t (Hk & _ & Hlive)%Hrevoke. split; [done|]. destruct (Hrv _ _ Hk) as (_ & d & ? & ? & ?). by exists d.
  - intros t [[[Ht _]%Hreq Hlive]%filter_In|[[Ht _]%Hpro Hlive]%filter_In]; eapply in_force_verified; try done; [by left|by right; left].
  - exists s'. rewrite Hnew. split; [done|]. split; [exact (force_new _ _ _ _ _ _ _ _ _ Hnew)|].
    split_and!.
    + rewrite Hroots. unfold getRoots. apply set_eq. intros r. rewrite elem_of_list_to_set, iter_perm. apply elem_of_elements.
    + intros k t. rewrite Hrk, Hrevoke. split; [intros [(? & ? & ?) <-]; done|]. intros (Hk & ? & ?).
      destruct (Hrv k t Hk) as [-> _]. done.
    + intros t [[? _]%Hreq _]%R1%filter_In. done.
    + intros t [[? _]%Hpro _]%P1%filter_In. done.
    + intros t Ht ? ?. apply R2, filter_In. split; [by apply Hreq|done].
    + intros t Ht ? ?. apply P2, filter_In. split; [by apply Hpro|done].
Qed.

End store.

(** ** Trust contexts *)

Record Anchor := mkAnchor { anchor_DID : DID; anchor_Verify : bytes → bytes → bool }.

Definition anchorEntryTTL : Z := 3600000000000.

Record BasicTrustContext := mkTrustContext {
  tc_anchors : gmap DID (Anchor * Z);     (* with the time at which they expire *)
  tc_providers : gmap DID Provider;
  tc_stop : bool
}.

Definition NewTrustContext : BasicTrustContext := mkTrustContext ∅ ∅ false.

Definition AddProvider (c : BasicTrustContext) (p : Provider) : BasicTrustContext :=
  mkTrustContext (tc_anchors c) (<[Provider_DID p := p]> (tc_providers c)) (tc_stop c).

Definition NewTrustContextWithProvider (p : Provider) : BasicTrustContext := AddProvider NewTrustContext p.

Definition AddAnchor (c : BasicTrustContext) (now : Z) (a : Anchor) : BasicTrustContext :=
  mkTrustContext (<[anchor_DID a := (a, (now + anchorEntryTTL)%Z)]> (tc_anchors c)) (tc_providers c) (tc_stop c).

(** [getAnchor]: a use extends the life of the entry. *)
Definition getAnchor (c : BasicTrustContext) (now : Z) (d : DID) : option Anchor * BasicTrustContext :=
  match tc_anchors c !! d with
  | Some (a, _) => (Some a, mkTrustContext (<[d := (a, (now + anchorEntryTTL)%Z)]> (tc_anchors c)) (tc_providers c) (tc_stop c))
  | None => (None, c)
  end.

Definition GetProvider (c : BasicTrustContext) (d : DID) : option Provider := tc_providers c !! d.
Definition Anchors `{MapIteration} (c : BasicTrustContext) : list DID := iter (map fst (map_to_list (tc_anchors c))).
Definition Providers `{MapIteration} (c : BasicTrustContext) : list DID := iter (map fst (map_to_list (tc_providers c))).

Definition gcAnchorEntries (c : BasicTrustContext) (now : Z) : BasicTrustContext :=
  mkTrustContext (base.filter (λ x : DID * (Anchor * Z), (x.2.2 <? now)%Z = false) (tc_anchors c)) (tc_providers c) (tc_stop c).

Section trust.
  Context `{Keys : KeyLib} (makePrismAnchor : DID → option Anchor).

Definition makeKeyAnchor (d : DID) : option Anchor :=
  match PublicKeyFromDID d with
  | None => None
  | Some pubk => Some (mkAnchor d (λ data sig, default false (KeyVerify pubk data sig)))
  end.

(** The methods that are registered when the program starts. *)
Definition GetAnchorForDID (d : DID) : option Anchor :=
  if bool_decide (Method d = "key") then makeKeyAnchor d
  else if bool_decide (Method d = "prism") then makePrismAnchor d
  else None.

(** [GetAnchor] of the trust context. *)
Definition ctx_GetAnchor (c : BasicTrustContext) (now : Z) (d : DID) : option Anchor * BasicTrustContext :=
  match getAnchor c now d with
  | (Some a, c) => (Some a, c)
  | (None, c) =>
      match GetAnchorForDID d with
      | None => (None, c)
      | Some a => (Some a, AddAnchor c now a)
      end
  end.

(** ** The cache is a function *)

(** An anchor is the anchor of the DID it was resolved for. *)
Hypothesis prism_DID : ∀ d a, makePrismAnchor d = Some a → anchor_DID a = d.

Inductive trust_step (c : BasicTrustContext) : BasicTrustContext → Prop :=
| trust_get now d a c' : ctx_GetAnchor c now d = (a, c') → trust_step c c'
| trust_provider p : trust_step c (AddProvider c p)
| trust_gc now : trust_step c (gcAnchorEntries c now).

Definition cache_ok (c : BasicTrustContext) : Prop :=
  ∀ d a e, tc_anchors c !! d = Some (a, e) → GetAnchorForDID d = Some a.

Lemma resolved_DID d a : GetAnchorForDID d = Some a → anchor_DID a = d.
Proof.
  unfold GetAnchorForDID, makeKeyAnchor. case_bool_decide; [destruct (PublicKeyFromDID d); [by intros [= <-]|done]|].
  case_bool_decide; [apply prism_DID|done].
Qed.

Lemma GetAnchor_exact c now d : cache_ok c → (ctx_GetAnchor c now d).1 = GetAnchorForDID d ∧ cache_ok (ctx_GetAnchor c now d).2.
Proof.
  intros Hc. unfold ctx_GetAnchor, getAnchor. destruct (tc_anchors c !! d) as [[a e]|] eqn:Hd.
  - pose proof (Hc _ _ _ Hd) as Ha. split; [done|]. intros d' a' e'. cbn. rewrite lookup_insert_Some.
    intros [[<- [= <- _]]|[_ ?]]; [done|by eapply Hc].
  - destruct (GetAnchorForDID d) as [a|] eqn:Ha; [|by split]. split; [done|]. intros d' a' e'. cbn. rewrite (resolved_DID _ _ Ha), lookup_insert_Some.
    intros [[<- [= <- _]]|[_ ?]]; [done|by eapply Hc].
Qed.

(** The cached trust context implements the function that the verification of tokens is
    modelled with: whatever was resolved, used or collected before, and at any time, it
    answers what resolving the identifier anew would. *)
Theorem trust_context_is_function c now d :
  rtc trust_step NewTrustContext c →
  anchor_Verify <$> (ctx_GetAnchor c now d).1 = Token.GetAnchor (mkTrust (λ d, anchor_Verify <$> GetAnchorForDID d)) d.
Proof.
  intros Hr. assert (cache_ok c) as Hc; [|by rewrite (proj1 (GetAnchor_exact c now d Hc))].
  assert (cache_ok NewTrustContext) as H0 by done. revert H0. induction Hr as [|c1 c2 c3 Hs _ IH]; intros Hc; [done|]. apply IH.
  destruct Hs as [now' d' a c' Hg|p|now'].
  - replace c' with (ctx_GetAnchor c1 now' d').2 by (by rewrite Hg). by apply GetAnchor_exact.
  - done.
  - intros d' a e. cbn. rewrite map_lookup_filter_Some. intros [? _]. by eapply Hc.
Qed.

End trust.

(** ** A file *)

#[local] Existing Instance sample_codec.
#[local] Existing Instance sample_wire.
#[local] Existing Instance toy_keys.
#[local] Existing Instance sample_iter.

#[local] Instance CapabilityContextView_eq_dec : EqDecision CapabilityContextView.
Proof. solve_decision. Defined.

(** alice's node trusts bob, accepts a chain that carol starts, and knows a revocation. *)
Definition sample_side : DMSToken := sample_sign (mkDMSToken ActDelegate carol bob DID_empty ["/topic"] ["/jobs"] "n9" 65 3 None "").

Definition sample_trusting : Ctx := (AddRoots sample_new 50 [bob] [Some (tok sample_side)] [] [Some (tok sample_revocation)]).1.

Lemma sample_trusting_settled : in_force sample_trusting (ctx_revoke sample_trusting).
Proof.
  apply (force_AddRoots sample_new ∅ 50 [bob] [Some (tok sample_side)] [] [Some (tok sample_revocation)]); [exact sample_new_settled|].
  vm_compute. reflexivity.
Qed.

Definition sample_view : CapabilityContextView := (viewOfContext sample_trusting 60).1.

(** A codec for one view. *)
#[local] Instance one_view : ViewCodec := {|
  encode_view v := if bool_decide (v = sample_view) then Some "file" else None;
  decode_view s := if bool_decide (s = "file") then Some sample_view else None
|}.

(** The file is read when the side chain is still good. *)
Lemma saved_context_loads_witness :
  ∃ s', LoadCapabilityContextWithName "dms" sample_trust (λ _, Some (sample_provider alice)) 62 "file" = Ok s' ∧
    ctx_roots s' = ctx_roots sample_trusting ∧ map_covered (ctx_require s') (tok sample_side).
Proof.
  destruct (saved_context_loads sample_trusting 60 "file" (viewOfContext sample_trusting 60).2 "dms" (λ _, Some (sample_provider alice)) 62)
    as (s' & Hl & _ & Hr & _ & _ & _ & Hc & _).
  - exact sample_trusting_settled.
  - intros v x. cbn. case_bool_decide as Hv; [|done]. intros [= <-]. rewrite Hv. by rewrite bool_decide_true.
  - vm_compute. reflexivity.
  - unfold saveCapabilityContext. destruct (viewOfContext sample_trusting 60) as [v s1] eqn:Hv.
    assert (v = sample_view) as -> by (unfold sample_view; by rewrite Hv). cbn. by rewrite bool_decide_true.
  - exists s'. split; [exact Hl|]. split; [exact Hr|]. apply Hc; [|by vm_compute|by vm_compute].
    exists carol, [tok sample_side]. split; [vm_compute; reflexivity|by left].
Defined.

(** Later the side chain has expired and is left out; the revocation stays. *)
Example expired_chain_is_left_out :
  match LoadCapabilityContextWithName "dms" sample_trust (λ _, Some (sample_provider alice)) 70 "file" with
  | Ok s' => get_list (ctx_require s') carol = [] ∧ Revoked (ctx_revoke s') (DMS_RevocationKey sample_root) = true
  | _ => False
  end.
Proof. by vm_compute. Qed.

(** ** After a failed [AddRoots] *)

(** carol revokes her chain, but the call that brings the revocation also brings a bad token:
    the revocation is recorded, the call fails, and the chain stays. *)
Definition sample_side_revocation : DMSToken :=
  sample_sign (mkDMSToken ActRevoke carol bob DID_empty [] [] "n9" 100 0 None "").

Definition sample_half_trusting : Ctx :=
  (AddRoots sample_trusting 55 [] [Some (mkToken None None)] [] [Some (tok sample_side_revocation)]).1.

Definition sample_half_view : CapabilityContextView := (viewOfContext sample_half_trusting 60).1.

(** What is saved then does not load again: the constructor checks the saved chain against the
    saved revocation and fails. *)
Theorem failed_roots_break_the_file :
  reachable sample_half_trusting ∧
  newCapabilityContext "dms" sample_trust (Some (sample_provider alice)) 62 (view_Roots sample_half_view)
    (view_Require sample_half_view) (view_Provide sample_half_view) (view_Revoke sample_half_view) = Err ErrNotAuthorized.
Proof.
  split; [|vm_compute; reflexivity].
  eapply reachable_step; [eexists; exact sample_trusting_settled|]. eapply step_AddRoots, surjective_pairing.
Qed.
