(* ===== verification/DispatchSpec.v ===== *)
(** * The steps of a dispatch and their invariants

    A [System] is a dispatch together with what its goroutines hold: messages
    between the queues, reactions waiting for the limiter, handlers in flight;
    [invoked] is the history of handler invocations.  The limiter is shared with
    other actors, whose messages in flight are [others], and so is the capability
    context, which others may change by any of its methods, also while a message is
    being authorised. *)

From S2P Require Import Prelude GoStrings Key Capability Token TokenSpec Envelope Limiter CapContext Security Dispatch CapContextSpec.

(** ** What the security context promises

    Every method goes through methods of the capability context, so reachable
    contexts stay reachable; a successful [Require] or [RequireBroadcast] means
    verified authority; what [Sign] signs, [Verify] accepts. *)

Section security_spec.
  Context `{Codec : TokenCodec} `{Wire : WireCodec} `{Keys : KeyLib} `{Iter : MapIteration}.
  Context `{Msgs : EnvelopeCodec}.
  Implicit Types (s : BasicSecurityContext) (m : Envelope).

(** A method that leaves the identity alone and moves the capability context by
    its own methods. *)
Record sec_step s s' : Prop := {
  ss_id : sc_id s' = sc_id s;
  ss_privk : sc_privk s' = sc_privk s;
  ss_cap : rtc ctx_move (sc_cap s) (sc_cap s')
}.

#[export] Instance sec_step_preorder : PreOrder sec_step.
Proof.
  split; [by intros s; split|]. intros s1 s2 s3 [] []. split; [congruence..|by etrans].
Qed.

Lemma sec_step_cap s c : ctx_step (sc_cap s) c → sec_step s (set_cap s c).
Proof. intros Hc. split; [done|done|]. apply rtc_once. by left. Qed.

Lemma sec_step_reachable s s' : sec_step s s' → reachable (sc_cap s) → reachable (sc_cap s').
Proof.
  intros [_ _ Hc] Hr. by eapply reachable_moves.
Qed.

Lemma sec_Discard_step s m s' : sec_Discard s m = Ok s' → sec_step s s'.
Proof.
  unfold sec_Discard. destruct (Discard _ _) as [c| |] eqn:Hd; intros [= <-].
  apply sec_step_cap. by eapply step_Discard.
Qed.

Lemma refuse_step s m e s' r : refuse s m e = (s', r) → sec_step s s' ∧ r ≠ Ok tt.
Proof.
  unfold refuse. destruct (sec_Discard s m) as [s1| |] eqn:Hd; intros [= <- <-]; [|by split..].
  split; [by eapply sec_Discard_step|done].
Qed.

(** What others do to the shared context. *)
Definition moves (between : Ctx → Ctx) : Prop := ∀ c, rtc ctx_move c (between c).

(** The context a decision is taken in. *)
Definition consumed between s (now : Z) m : Ctx :=
  between (Consume (sc_cap s) now (Handle_DID (From m)) (env_Capability m)).1.

Lemma Consume_sec_step s now m : sec_step s (set_cap s (Consume (sc_cap s) now (Handle_DID (From m)) (env_Capability m)).1).
Proof. apply sec_step_cap. destruct (Consume _ _ _ _) as [c r] eqn:Hc. by eapply step_Consume. Qed.

Lemma consumed_step between s now m : moves between → sec_step s (set_cap s (consumed between s now m)).
Proof.
  intros Hb. etrans; [apply Consume_sec_step|]. split; [done|done|]. cbn. apply Hb.
Qed.

Lemma sec_Require_spec between s now m invoke s' r :
  moves between → sec_Require between s now m invoke = (s', r) →
  sec_step s s' ∧
  (r = Ok tt → reachable (sc_cap s) →
   selfMessage s m = true ∨
   reachable (consumed between s now m) ∧
   invocation_authorised (consumed between s now m) now (ctx_DID (consumed between s now m)) (Handle_ID (From m))
     (sc_id s) invoke).
Proof.
  intros Hb. unfold sec_Require. destruct (selfMessage s m) eqn:Hself; [intros [= <- <-]; split; [done|by left]|].
  pose proof (consumed_step _ s now m Hb) as Hstep. pose proof (Consume_sec_step s now m) as Hfail. unfold consumed in *.
  destruct (Consume _ _ _ _) as [c0 [[]|e|]]; cbn [fst] in *; [|by intros [= <- <-]..]. cbv zeta. set (c := between c0) in *.
  destruct (Require c _ _ _ _ _) as [[e|] c'] eqn:Hq.
  - intros [Hr Hne]%refuse_step. split; [|done]. etrans; [exact Hstep|].
    etrans; [|exact Hr]. split; [done|done|]. apply rtc_once. left. by eapply step_Require.
  - intros [= <- <-]. split.
    + etrans; [exact Hstep|]. split; [done|done|]. apply rtc_once. left. by eapply step_Require.
    + intros _ Hreach. apply (sec_step_reachable _ _ Hstep) in Hreach. right.
      split; [done|]. by eapply Require_authorised.
Qed.

Lemma sec_RequireBroadcast_spec between s now m topic broadcast s' r :
  moves between → sec_RequireBroadcast between s now m topic broadcast = (s', r) →
  sec_step s s' ∧
  (r = Ok tt → reachable (sc_cap s) →
   IsBroadcast m = true ∧ topic = opt_Topic (Options m) ∧ reachable (consumed between s now m) ∧
   broadcast_authorised (consumed between s now m) now (ctx_DID (consumed between s now m)) (Handle_ID (From m))
     topic broadcast).
Proof.
  intros Hb. unfold sec_RequireBroadcast. destruct (IsBroadcast m); [|by intros [= <- <-]].
  case_bool_decide as Htopic; [|by intros [= <- <-]]. cbn [negb].
  pose proof (consumed_step _ s now m Hb) as Hstep. pose proof (Consume_sec_step s now m) as Hfail. unfold consumed in *.
  destruct (Consume _ _ _ _) as [c0 [[]|e|]]; cbn [fst] in *; [|by intros [= <- <-]..]. cbv zeta. set (c := between c0) in *.
  destruct (RequireBroadcast c _ _ _ _ _) as [[e|] c'] eqn:Hq.
  - intros [Hr Hne]%refuse_step. split; [|done]. etrans; [exact Hstep|].
    etrans; [|exact Hr]. split; [done|done|]. apply rtc_once. left. by eapply step_RequireBroadcast.
  - intros [= <- <-]. split.
    + etrans; [exact Hstep|]. split; [done|done|]. apply rtc_once. left. by eapply step_RequireBroadcast.
    + intros _ Hreach. apply (sec_step_reachable _ _ Hstep) in Hreach.
      split_and!; try done. by eapply RequireBroadcast_authorised.
Qed.

(** What [Sign] signs, [Verify] accepts until it expires. *)
Lemma sec_Sign_verifies s m m' pubk later :
  sec_Sign s m = inl m' →
  PublicKeyFromID (sc_id s) = Some pubk →
  (∀ data sig, sc_privk s data = Some sig → KeyVerify pubk data sig = Some true) →
  Expired m later = false →
  sec_Verify m' later = None ∧ ∃ sig, m' = set_Signature m (Some sig).
Proof.
  intros Hs Hk Hsig Hexp. unfold sec_Sign in Hs.
  destruct (ID_Equal _ _) eqn:Hid; [|done]. cbn [negb] in Hs. apply bool_decide_eq_true in Hid.
  destruct (env_SignatureData _) as [data|] eqn:Hdata; [|done].
  destruct (sc_privk s data) as [sig|] eqn:Hsg; [|done]. simplify_eq. split; [|by exists sig].
  unfold sec_Verify. change (Expired (set_Signature _ _) later) with (Expired m later). rewrite Hexp.
  cbn. rewrite <- Hid, Hk. change (env_SignatureData (set_Signature ?x _)) with (env_SignatureData x).
  rewrite Hdata. cbn. by rewrite (Hsig _ _ Hsg).
Qed.

(** The envelope [Provide] returns is the given one with tokens and a signature. *)
Lemma sec_Provide_inv s now n1 n2 m invoke delegate m' s' :
  sec_Provide s now n1 n2 m invoke delegate = (inl m', s') →
  ∃ tokens, sec_Sign s (set_Capability m tokens) = inl m'.
Proof.
  unfold sec_Provide. destruct (selfMessage s m).
  - intros [= Hs _]. exists (env_Capability m). by destruct m.
  - destruct (Provide _ _ _ _ _ _ _ _ _ _) as [[tk|e] c]; intros [= Hs _]. eauto.
Qed.

End security_spec.

(** A behaviour chosen for a message, with the capability context and the time the
    decision was taken in. *)
Record Reaction {Cont : Type} := mkReaction {
  re_msg : Envelope;
  re_beh : BehaviorState Cont;
  re_id : ID;
  re_ctx : Ctx;
  re_now : Z
}.
Arguments Reaction : clear implicits.

Record System {Cont L : Type} := mkSystem {
  kern : Dispatch Cont L;
  hands : list Envelope;             (* taken off q by recv *)
  taken : list Envelope;             (* taken off vq by dispatch *)
  claimed : list (Reaction Cont);    (* past the lock, not yet acquired *)
  handlers : list (Reaction Cont);   (* running *)
  others : list Envelope;            (* in flight in other actors *)
  invoked : list (Reaction Cont)     (* every handler that was started *)
}.
Arguments System : clear implicits.

Section steps.
  Context `{Codec : TokenCodec} `{Wire : WireCodec} `{Keys : KeyLib} `{Iter : MapIteration}.
  Context `{Msgs : EnvelopeCodec} {Cont L : Type} `{Lim : RateLimiter L}.
  Implicit Types (k : Dispatch Cont L) (s : System Cont L).

Definition initial (sec : BasicSecurityContext) (l : L) : System Cont L :=
  mkSystem _ _ (NewDispatch sec l) [] [] [] [] [] [].

(** A reaction is decided in the context that has consumed the message's tokens, after
    what others did to it. *)
Definition react (between : Ctx → Ctx) (k : Dispatch Cont L) (now : Z) (m : Envelope) (r : option (BehaviorState Cont))
    (l : list (Reaction Cont)) : list (Reaction Cont) :=
  match r with
  | Some b => mkReaction _ m b (sc_id (sctx k)) (consumed between (sctx k) now m) now :: l
  | None => l
  end.

Inductive sys_step : System Cont L → System Cont L → Prop :=
| s_receive k k' h t c hd o i m pick r :
    Receive k m pick = (k', r) → r ≠ Panic →
    sys_step (mkSystem _ _ k h t c hd o i) (mkSystem _ _ k' h t c hd o i)
| s_take k h t c hd o i m q' :
    q k = m :: q' → sys_step (mkSystem _ _ k h t c hd o i) (mkSystem _ _ (set_q k q') (m :: h) t c hd o i)
| s_recv k l1 l2 t c hd o i m now :
    sys_step (mkSystem _ _ k (l1 ++ m :: l2) t c hd o i) (mkSystem _ _ (recv k now m) (l1 ++ l2) t c hd o i)
| s_dequeue k h t c hd o i m vq' :
    vq k = m :: vq' → sys_step (mkSystem _ _ k h t c hd o i) (mkSystem _ _ (set_vq k vq') h (m :: t) c hd o i)
| s_dispatch between k k' h l1 l2 c hd o i m now r :
    moves between → dispatch between k now m = (k', Ok r) →
    sys_step (mkSystem _ _ k h (l1 ++ m :: l2) c hd o i)
             (mkSystem _ _ k' h (l1 ++ l2) (react between k now m r c) hd o i)
| s_acquire k k' h t l1 l2 hd o i r run :
    dispatch_acquire k (re_msg r) = (k', Ok run) →
    sys_step (mkSystem _ _ k h t (l1 ++ r :: l2) hd o i)
      (if run then mkSystem _ _ k' h t (l1 ++ l2) (r :: hd) o (r :: i)
       else mkSystem _ _ k' h t (l1 ++ l2) hd o i)
| s_done k h t c l1 l2 o i r :
    sys_step (mkSystem _ _ k h t c (l1 ++ r :: l2) o i)
             (mkSystem _ _ (handler_done k (re_msg r)) h t c (l1 ++ l2) o i)
| s_add k k' h t c hd o i name f opt r :
    AddBehavior k name f opt = (k', r) →
    sys_step (mkSystem _ _ k h t c hd o i) (mkSystem _ _ k' h t c hd o i)
| s_remove k h t c hd o i name :
    sys_step (mkSystem _ _ k h t c hd o i) (mkSystem _ _ (RemoveBehavior k name) h t c hd o i)
| s_gc k h t c hd o i now :
    sys_step (mkSystem _ _ k h t c hd o i) (mkSystem _ _ (Dispatch_gc k now) h t c hd o i)
| s_start k h t c hd o i :
    sys_step (mkSystem _ _ k h t c hd o i) (mkSystem _ _ (Dispatch_Start k) h t c hd o i)
| s_stop k h t c hd o i :
    sys_step (mkSystem _ _ k h t c hd o i) (mkSystem _ _ (Dispatch_Stop k) h t c hd o i)
| s_update k h t c hd o i sec :
    reachable (sc_cap sec) →
    sys_step (mkSystem _ _ k h t c hd o i) (mkSystem _ _ (UpdateSecurityContext k sec) h t c hd o i)
| s_cap k h t c hd o i ctx :
    ctx_move (sc_cap (sctx k)) ctx →
    sys_step (mkSystem _ _ k h t c hd o i)
             (mkSystem _ _ (set_sctx k (set_cap (sctx k) ctx)) h t c hd o i)
| s_nonce k h t c hd o i :
    sys_step (mkSystem _ _ k h t c hd o i)
             (mkSystem _ _ (set_sctx k (sec_Nonce (sctx k)).2) h t c hd o i)
| s_other_acquire k h t c hd o i l m :
    Acquire (limiter k) m = (l, None) →
    sys_step (mkSystem _ _ k h t c hd o i) (mkSystem _ _ (set_limiter k l) h t c hd (m :: o) i)
| s_other_release k h t c hd l1 l2 i m :
    sys_step (mkSystem _ _ k h t c hd (l1 ++ m :: l2) i)
             (mkSystem _ _ (set_limiter k (Release (limiter k) m)) h t c hd (l1 ++ l2) i).

Definition sys_reachable (l : L) (s : System Cont L) : Prop :=
  ∃ sec, reachable (sc_cap sec) ∧ rtc sys_step (initial sec l) s.

(** An invariant of the steps holds in every reachable system. *)
Lemma sys_invariant (P : System Cont L → Prop) l s :
  (∀ sec, reachable (sc_cap sec) → P (initial sec l)) →
  (∀ s s', sys_step s s' → P s → P s') →
  sys_reachable l s → P s.
Proof.
  intros Hinit Hstep (sec & Hsec & Hrun). specialize (Hinit _ Hsec).
  induction Hrun as [|s1 s2 s3 H12 _ IH]; eauto.
Qed.

(** ** What the methods change *)

Lemma dispatch_spec between k now m k' r :
  dispatch between k now m = (k', r) →
  q k' = q k ∧ vq k' = vq k ∧ limiter k' = limiter k ∧ nextRef k' = nextRef k ∧
  (moves between → sec_step (sctx k) (sctx k')) ∧
  (behaviors k' = behaviors k ∨ behaviors k' = delete (Behavior m) (behaviors k)).
Proof.
  unfold dispatch. destruct (behaviors k !! Behavior m) as [b|]; [|intros [= <- _]; split_and!; auto; done].
  destruct (behaviorExpired b now); [intros [= <- _]; cbn; split_and!; auto; done|].
  set (p := if IsBroadcast m then _ else _). destruct p as [s o] eqn:Hp.
  assert (moves between → sec_step (sctx k) s) as Hs.
  { intros Hb. subst p. destruct (IsBroadcast m); [by eapply sec_RequireBroadcast_spec|by eapply sec_Require_spec]. }
  destruct o; [|intros [= <- _]; cbn; split_and!; auto..].
  destruct (bo_OneShot _); intros [= <- _]; cbn; split_and!; auto.
Qed.

(** When [dispatch] chooses a behaviour. *)
Lemma dispatch_Some between k now m k' b :
  dispatch between k now m = (k', Ok (Some b)) →
  behaviors k !! Behavior m = Some b ∧ behaviorExpired b now = false ∧
  (bo_OneShot (bs_opt b) = true → behaviors k' = delete (Behavior m) (behaviors k)) ∧
  if IsBroadcast m
  then ∃ sec, sec_RequireBroadcast between (sctx k) now m (bo_Topic (bs_opt b)) (bo_Capability (bs_opt b)) = (sec, Ok tt)
  else ∃ sec, sec_Require between (sctx k) now m (bo_Capability (bs_opt b)) = (sec, Ok tt).
Proof.
  unfold dispatch. destruct (behaviors k !! Behavior m) as [b'|]; [|done].
  destruct (behaviorExpired b' now) eqn:Hexp; [done|].
  destruct (IsBroadcast m);
    [destruct (sec_RequireBroadcast _ _ _ _ _ _) as [sec [[]|e|]] eqn:Hq
    |destruct (sec_Require _ _ _ _ _) as [sec [[]|e|]] eqn:Hq]; try done;
    intros [= <- <-]; (split_and!; [done|done| |by exists sec]); by intros ->.
Qed.

Lemma dispatch_acquire_spec k m k' run :
  dispatch_acquire k m = (k', Ok run) →
  q k' = q k ∧ vq k' = vq k ∧ nextRef k' = nextRef k ∧ behaviors k' = behaviors k ∧
  sec_step (sctx k) (sctx k') ∧
  (if run then Acquire (limiter k) m = (limiter k', None)
   else ∃ e, Acquire (limiter k) m = (limiter k', Some e)).
Proof.
  unfold dispatch_acquire. destruct (Acquire (limiter k) m) as [l [e|]].
  - destruct (sec_Discard (sctx k) m) as [s| |] eqn:Hd; intros [= <- <-]; cbn;
      split_and!; eauto; try done. by eapply sec_Discard_step.
  - intros [= <- <-]. cbn. by split_and!.
Qed.

(** ** Safety: reactions are verified and authorised *)

Definition verified (m : Envelope) : Prop := ∃ now, sec_Verify m now = None.

(** The authority a message had when its behaviour was chosen. *)
Definition message_authorised (id : ID) (c : Ctx) (now : Z) (m : Envelope) (o : BehaviorOptions) : Prop :=
  if IsBroadcast m
  then bo_Topic o = opt_Topic (Options m) ∧ reachable c ∧
       broadcast_authorised c now (ctx_DID c) (Handle_ID (From m)) (bo_Topic o) (bo_Capability o)
  else (Handle_ID (From m) = id ∧ Handle_ID (To m) = id) ∨
       reachable c ∧
       invocation_authorised c now (ctx_DID c) (Handle_ID (From m)) id (bo_Capability o).

Record reaction_ok (r : Reaction Cont) : Prop := {
  ro_verified : verified (re_msg r);
  ro_alive : behaviorExpired (re_beh r) (re_now r) = false;
  ro_authorised : message_authorised (re_id r) (re_ctx r) (re_now r) (re_msg r) (bs_opt (re_beh r))
}.

Record safe (s : System Cont L) : Prop := {
  safe_ctx : reachable (sc_cap (sctx (kern s)));
  safe_vq : ∀ m, In m (vq (kern s)) ∨ In m (taken s) → verified m;
  safe_reactions : ∀ r, In r (claimed s) ∨ In r (invoked s) → reaction_ok r
}.

Lemma dispatch_reaction between k now m k' b :
  moves between → dispatch between k now m = (k', Ok (Some b)) → reachable (sc_cap (sctx k)) → verified m →
  reaction_ok (mkReaction _ m b (sc_id (sctx k)) (consumed between (sctx k) now m) now).
Proof.
  intros Hb (_ & Hexp & _ & Hauth)%dispatch_Some Hreach Hv. split; [done|done|].
  cbn. unfold message_authorised. destruct (IsBroadcast m); destruct Hauth as [s' Hs].
  - apply sec_RequireBroadcast_spec in Hs as [_ Hs]; [|done].
    destruct (Hs eq_refl Hreach) as (_ & Htopic & ? & ?). auto.
  - apply sec_Require_spec in Hs as [_ Hs]; [|done]. destruct (Hs eq_refl Hreach) as [Hself|?]; [left|by right].
    unfold selfMessage, ID_Equal in Hself. apply andb_true_iff in Hself as [H1 H2].
    by apply bool_decide_eq_true in H1, H2.
Qed.

Lemma in_middle {A} (x y : A) l1 l2 : In x (l1 ++ l2) → In x (l1 ++ y :: l2).
Proof. rewrite !in_app_iff. simpl. tauto. Qed.

Lemma in_mid {A} (x : A) l1 l2 : In x (l1 ++ x :: l2).
Proof. rewrite in_app_iff. simpl. tauto. Qed.
#[local] Hint Resolve in_middle in_mid : core.

(** The safety invariant only looks at the capability context, the verified
    messages and the reactions. *)
Lemma safe_frame k k' h h' t t' c c' hd hd' o o' i i' :
  safe (mkSystem _ _ k h t c hd o i) →
  reachable (sc_cap (sctx k')) →
  (∀ m, In m (vq k') ∨ In m t' → In m (vq k) ∨ In m t ∨ verified m) →
  (∀ r, In r c' ∨ In r i' → In r c ∨ In r i ∨ reaction_ok r) →
  safe (mkSystem _ _ k' h' t' c' hd' o' i').
Proof.
  intros [Hc Hv Hr] Hc' Hv' Hr'. cbn in *. split; cbn; [done| |].
  - intros m Hm. destruct (Hv' m Hm) as [?|[?|?]]; auto.
  - intros r Hin. destruct (Hr' r Hin) as [?|[?|?]]; auto.
Qed.

Lemma recv_vq k now m x : In x (vq (recv k now m)) → In x (vq k) ∨ verified x.
Proof.
  unfold recv. destruct (sec_Verify m now) eqn:Hv; [by left|].
  destruct (_ <? _)%nat; [|by left]. cbn. rewrite in_app_iff. intros [?|[<-|[]]]; [by left|right].
  by exists now.
Qed.

Lemma Receive_frame k m pick k' r :
  Receive k m pick = (k', r) →
  sctx k' = sctx k ∧ vq k' = vq k ∧ limiter k' = limiter k ∧ nextRef k' = nextRef k ∧
  behaviors k' = behaviors k ∧ (q k' = q k ∨ length (q k) < queueSize ∧ q k' = q k ++ [m]).
Proof.
  unfold Receive. destruct (runctx k); [by intros [= <- _]; auto 10| |];
    (destruct (Nat.ltb_spec (length (q k)) queueSize); cbn [andb];
       [|intros [= <- _]; split_and!; by auto]).
  - intros [= <- _]. cbn. split_and!; by auto.
  - destruct pick; intros [= <- _]; cbn; split_and!; by auto.
Qed.

Lemma AddBehavior_frame k name f opt k' r :
  AddBehavior k name f opt = (k', r) →
  sctx k' = sctx k ∧ vq k' = vq k ∧ q k' = q k ∧ limiter k' = limiter k ∧ nextRef k' = S (nextRef k) ∧
  (behaviors k' = behaviors k ∨
   ∃ o, behaviors k' = <[name := mkBehavior _ (nextRef k) f o]> (behaviors k)).
Proof.
  unfold AddBehavior. destruct (applyBehaviorOptions _ _) as [o|e]; intros [= <- _]; cbn;
    split_and!; eauto.
Qed.

Lemma safe_step s s' : sys_step s s' → safe s → safe s'.
Proof.
  intros Hstep Hsafe. pose proof (safe_ctx _ Hsafe) as Hc. pose proof (safe_vq _ Hsafe) as Hv.
  destruct Hstep as [k k' h t c hd o i m pick r Hrec _ | k h t c hd o i m q' Hq
    | k l1 l2 t c hd o i m now | k h t c hd o i m vq' Hvq | between k k' h l1 l2 c hd o i m now r Hbt Hd
    | k k' h t l1 l2 hd o i r run Ha | k h t c l1 l2 o i r | k k' h t c hd o i name f opt r Hadd
    | | | k | k | k h t c hd o i sec Hsec | k h t c hd o i ctx Hctx | | |]; cbn in Hc, Hv.
  - apply Receive_frame in Hrec as (Hs & Hq & _).
    eapply safe_frame; [done|by rewrite Hs|rewrite Hq|]; naive_solver.
  - eapply safe_frame; [done|done|..]; naive_solver.
  - eapply safe_frame; [done| | |naive_solver].
    + unfold recv. by repeat case_match.
    + intros x [[?|?]%recv_vq|?]; auto.
  - eapply safe_frame; [done|done| |naive_solver]. cbn. rewrite Hvq. simpl. naive_solver.
  - pose proof (dispatch_spec _ _ _ _ _ _ Hd) as (_ & Hvq & _ & _ & Hsec & _). specialize (Hsec Hbt).
    eapply safe_frame; [done|by eapply sec_step_reachable|rewrite Hvq; naive_solver|].
    intros x [Hx|Hx]; [|by auto]. destruct r as [b|]; [|by auto]. destruct Hx as [<-|Hx]; [|by auto].
    right; right. eapply dispatch_reaction; eauto.
  - apply dispatch_acquire_spec in Ha as (_ & Hvq & _ & _ & Hsec & _).
    destruct run; (eapply safe_frame; [done|by eapply sec_step_reachable|rewrite Hvq; naive_solver|]).
    + intros x [?|[<-|?]]; auto.
    + intros x [?|?]; auto.
  - eapply safe_frame; [done|done|..]; naive_solver.
  - apply AddBehavior_frame in Hadd as (Hs & Hq & _).
    eapply safe_frame; [done|by rewrite Hs|rewrite Hq|]; naive_solver.
  - eapply safe_frame; [done|done|..]; naive_solver.
  - eapply safe_frame; [done|done|..]; naive_solver.
  - unfold Dispatch_Start. destruct (running k); (eapply safe_frame; [done|done|..]); naive_solver.
  - unfold Dispatch_Stop. destruct (running k); (eapply safe_frame; [done|done|..]); naive_solver.
  - eapply safe_frame; [done|done|..]; naive_solver.
  - eapply safe_frame; [done|by eapply reachable_move|..]; naive_solver.
  - eapply safe_frame; [done|done|..]; naive_solver.
  - eapply safe_frame; [done|done|..]; naive_solver.
  - eapply safe_frame; [done|done|..]; naive_solver.
Qed.

Lemma reachable_safe l s : sys_reachable l s → safe s.
Proof.
  apply sys_invariant; [|apply safe_step]. intros sec Hsec. split; cbn; [done|tauto|tauto].
Qed.

(** ** The queues stay within their capacity *)

Definition queues_ok s : Prop :=
  length (q (kern s)) ≤ queueSize ∧ length (vq (kern s)) ≤ queueSize.

Lemma recv_length k now m : length (vq k) ≤ queueSize → length (vq (recv k now m)) ≤ queueSize.
Proof.
  unfold recv. destruct (sec_Verify m now); [done|].
  destruct (Nat.ltb_spec (length (vq k)) queueSize); [|done]. cbn. rewrite length_app. simpl. lia.
Qed.

Lemma queues_step s s' : sys_step s s' → queues_ok s → queues_ok s'.
Proof.
  intros Hstep [Hq Hv]. unfold queues_ok in *.
  destruct Hstep as [k k' h t c hd o i m pick r Hrec _ | k h t c hd o i m q' Hmq
    | k l1 l2 t c hd o i m now | k h t c hd o i m vq' Hmvq | between k k' h l1 l2 c hd o i m now r Hbt Hd
    | k k' h t l1 l2 hd o i r run Ha | k h t c l1 l2 o i r | k k' h t c hd o i name f opt r Hadd
    | | | k | k | | | | |]; cbn in *; try done.
  - apply Receive_frame in Hrec as (_ & -> & _ & _ & _ & [->|[? ->]]); [done|].
    rewrite length_app. simpl. lia.
  - rewrite Hmq in Hq. simpl in Hq. lia.
  - split; [|by apply recv_length]. unfold recv. by repeat case_match.
  - rewrite Hmvq in Hv. simpl in Hv. lia.
  - by apply dispatch_spec in Hd as (-> & -> & _).
  - apply dispatch_acquire_spec in Ha as (Hq' & Hv' & _). by destruct run; cbn; rewrite Hq', Hv'.
  - by apply AddBehavior_frame in Hadd as (_ & -> & -> & _).
  - unfold Dispatch_Start. by destruct (running k).
  - unfold Dispatch_Stop. by destruct (running k).
Qed.

(** ** The limiter sees every handler in flight *)

Definition in_flight s : list Envelope := map re_msg (handlers s) ++ others s.

(** A relation between the limiter and the messages in flight that acquiring and
    releasing keep is an invariant. *)
Section limiter_invariant.
  Variable P : L → list Envelope → Prop.
  Hypothesis P_perm : ∀ l ms ms', ms ≡ₚ ms' → P l ms → P l ms'.
  Hypothesis P_acquire : ∀ l l' m ms, Acquire l m = (l', None) → P l ms → P l' (m :: ms).
  Hypothesis P_reject : ∀ l l' m e ms, Acquire l m = (l', Some e) → P l ms → P l' ms.
  Hypothesis P_release : ∀ l m ms, P l (m :: ms) → P (Release l m) ms.

Lemma limiter_step s s' :
  sys_step s s' → P (limiter (kern s)) (in_flight s) → P (limiter (kern s')) (in_flight s').
Proof.
  intros Hstep HP. unfold in_flight in *.
  destruct Hstep as [k k' h t c hd o i m pick r Hrec _ | k h t c hd o i m q' Hmq
    | k l1 l2 t c hd o i m now | k h t c hd o i m vq' Hmvq | between k k' h l1 l2 c hd o i m now r Hbt Hd
    | k k' h t l1 l2 hd o i r run Ha | k h t c l1 l2 o i r | k k' h t c hd o i name f opt r Hadd
    | | | k | k | | | | k h t c hd o i l m Hacq|k h t c hd l1 l2 i m]; cbn in *; try done.
  - by apply Receive_frame in Hrec as (_ & _ & -> & _).
  - unfold recv. by repeat case_match.
  - by apply dispatch_spec in Hd as (_ & _ & -> & _).
  - apply dispatch_acquire_spec in Ha as (_ & _ & _ & _ & _ & Hrun). destruct run; cbn.
    + by eapply P_acquire.
    + destruct Hrun as [e He]. by eapply P_reject.
  - apply P_release. eapply P_perm; [|done]. by rewrite !map_app, map_cons, <- Permutation_middle.
  - by apply AddBehavior_frame in Hadd as (_ & _ & _ & -> & _).
  - unfold Dispatch_Start. by destruct (running k).
  - unfold Dispatch_Stop. by destruct (running k).
  - eapply P_perm; [|by eapply P_acquire]. by rewrite Permutation_middle.
  - apply P_release. eapply P_perm; [|done]. by rewrite app_assoc, <- Permutation_middle, app_assoc.
Qed.

End limiter_invariant.

(** ** One-shot behaviours react at most once *)

(** The pointers of the one-shot behaviours of some reactions. *)
Definition oneshot_refs (l : list (Reaction Cont)) : list nat :=
  omap (λ r, if bo_OneShot (bs_opt (re_beh r)) then Some (bs_ref (re_beh r)) else None) l.

Definition history s : list nat := oneshot_refs (claimed s ++ invoked s).

Record once s : Prop := {
  on_bound : ∀ x b, behaviors (kern s) !! x = Some b → bs_ref b < nextRef (kern s);
  on_inj : ∀ x y b b', behaviors (kern s) !! x = Some b → behaviors (kern s) !! y = Some b' →
    bs_ref b = bs_ref b' → x = y;
  on_nodup : NoDup (history s);
  on_gone : ∀ x b, behaviors (kern s) !! x = Some b → bs_ref b ∉ history s;
  on_hist : ∀ n, n ∈ history s → n < nextRef (kern s)
}.

(** Dropping behaviours and reordering or dropping reactions keep it. *)
Lemma once_frame s s' :
  once s → behaviors (kern s') ⊆ behaviors (kern s) → nextRef (kern s') = nextRef (kern s) →
  history s' ⊆+ history s → once s'.
Proof.
  intros [H1 H2 H3 H4 H5] Hb Hn Hh.
  assert (∀ n, n ∈ history s' → n ∈ history s) as Hin by (intros n ?; by eapply elem_of_submseteq).
  split; rewrite ?Hn.
  - intros x b Hx. by eapply H1, lookup_weaken.
  - intros x y b b' Hx Hy. eapply H2; by eapply lookup_weaken.
  - by eapply submseteq_NoDup.
  - intros x b Hx ?%Hin. eapply H4; [|done]. by eapply lookup_weaken.
  - intros n ?%Hin. by apply H5.
Qed.

Lemma oneshot_refs_app l1 l2 : oneshot_refs (l1 ++ l2) = oneshot_refs l1 ++ oneshot_refs l2.
Proof. apply omap_app. Qed.

Lemma oneshot_refs_perm l1 l2 : l1 ≡ₚ l2 → oneshot_refs l1 ≡ₚ oneshot_refs l2.
Proof. intros Hp. unfold oneshot_refs. by rewrite Hp. Qed.

(** Choosing a behaviour: a one-shot one leaves the map and enters the history. *)
Lemma once_dispatch between k k' h l1 l2 c hd o i m now r :
  dispatch between k now m = (k', Ok r) →
  once (mkSystem _ _ k h (l1 ++ m :: l2) c hd o i) →
  once (mkSystem _ _ k' h (l1 ++ l2) (react between k now m r c) hd o i).
Proof.
  intros Hd Hon. pose proof (dispatch_spec _ _ _ _ _ _ Hd) as (_ & _ & _ & Hn & _ & Hb).
  assert (behaviors k' ⊆ behaviors k) as Hsub.
  { destruct Hb as [->| ->]; [done|apply delete_subseteq]. }
  destruct r as [b|]; [|by eapply once_frame].
  apply dispatch_Some in Hd as (Hlook & _ & Hone & _).
  destruct (bo_OneShot (bs_opt b)) eqn:Hos.
  2: { eapply once_frame; [done..|]. unfold history; cbn. unfold oneshot_refs. cbn. by rewrite Hos. }
  destruct Hon as [H1 H2 H3 H4 H5]. specialize (Hone eq_refl).
  assert (history (mkSystem _ _ k' h (l1 ++ l2) (react between k now m (Some b) c) hd o i) =
          bs_ref b :: history (mkSystem _ _ k h (l1 ++ m :: l2) c hd o i)) as Hh.
  { unfold history, oneshot_refs. cbn. by rewrite Hos. }
  split; rewrite ?Hh; cbn in *.
  - rewrite Hn. intros x b' Hx. by eapply H1, lookup_weaken.
  - intros x y b1 b2 Hx Hy. eapply H2; by eapply lookup_weaken.
  - apply NoDup_cons. split; [by eapply H4|done].
  - intros x b' Hx. rewrite Hone in Hx. apply lookup_delete_Some in Hx as [Hne Hx].
    rewrite elem_of_cons. intros [Href|Hin]; [|by eapply H4]. by apply Hne, (H2 _ _ b b').
  - rewrite Hn. intros n [->|Hin]%elem_of_cons; eauto.
Qed.

Lemma once_add k k' h t c hd o i name f opt r :
  AddBehavior k name f opt = (k', r) →
  once (mkSystem _ _ k h t c hd o i) → once (mkSystem _ _ k' h t c hd o i).
Proof.
  intros (_ & _ & _ & _ & Hn & Hb)%AddBehavior_frame [H1 H2 H3 H4 H5]. cbn in *.
  assert (∀ x b, behaviors k' !! x = Some b →
    (x = name ∧ bs_ref b = nextRef k) ∨ behaviors k !! x = Some b) as Hlook.
  { intros x b. destruct Hb as [->|[o' ->]]; [by right|].
    intros [[<- <-]|[_ ?]]%lookup_insert_Some; [by left|by right]. }
  split; cbn; rewrite ?Hn.
  - intros x b [[_ ->]|Hx%H1]%Hlook; lia.
  - intros x y b b' [[-> Hx]|Hx]%Hlook [[-> Hy]|Hy]%Hlook Heq; [done| | |by eapply H2].
    + apply H1 in Hy. lia.
    + apply H1 in Hx. lia.
  - done.
  - intros x b [[_ ->]|Hx]%Hlook; [|by eapply H4]. intros Hin%H5. cbn in Hin. lia.
  - intros n Hin%H5. cbn in Hin. lia.
Qed.

Lemma once_step s s' : sys_step s s' → once s → once s'.
Proof.
  intros Hstep Hon.
  destruct Hstep as [k k' h t c hd o i m pick r Hrec _ | k h t c hd o i m q' Hmq
    | k l1 l2 t c hd o i m now | k h t c hd o i m vq' Hmvq | between k k' h l1 l2 c hd o i m now r Hbt Hd
    | k k' h t l1 l2 hd o i r run Ha | k h t c l1 l2 o i r | k k' h t c hd o i name f opt r Hadd
    | | | k | k | | | | |]; try by (eapply once_frame; [exact Hon|..]).
  - apply Receive_frame in Hrec as (_ & _ & _ & Hn & Hb & _).
    eapply once_frame; [done|cbn; by rewrite Hb|done|done].
  - eapply once_frame; [done|..]; unfold recv; by repeat case_match.
  - by eapply once_dispatch.
  - apply dispatch_acquire_spec in Ha as (_ & _ & Hn & Hb & _).
    destruct run; (eapply once_frame; [done|cbn; by rewrite Hb|done|]); unfold history; cbn.
    + apply Permutation_submseteq, oneshot_refs_perm. by rewrite <- !Permutation_middle.
    + rewrite (oneshot_refs_perm ((l1 ++ r :: l2) ++ i) (r :: (l1 ++ l2) ++ i))
        by (by rewrite <- Permutation_middle).
      change (r :: (l1 ++ l2) ++ i) with ([r] ++ (l1 ++ l2) ++ i). rewrite (oneshot_refs_app [r]).
      apply submseteq_inserts_l. done.
  - by eapply once_add.
  - eapply once_frame; [done|apply delete_subseteq|done|done].
  - eapply once_frame; [done|apply map_filter_subseteq|done|done].
  - unfold Dispatch_Start. by destruct (running k); (eapply once_frame; [exact Hon|..]).
  - unfold Dispatch_Stop. by destruct (running k); (eapply once_frame; [exact Hon|..]).
Qed.

Lemma reachable_once l s : sys_reachable l s → once s.
Proof.
  apply sys_invariant; [|apply once_step]. intros sec _. split; cbn.
  - intros x b. by rewrite lookup_empty.
  - intros x y b b'. by rewrite lookup_empty.
  - constructor.
  - intros x b. by rewrite lookup_empty.
  - intros n Hn. by apply elem_of_nil in Hn.
Qed.

End steps.
