(* ===== verification/DispatchProps.v ===== *)
(** * Properties of the dispatch

    The claims about actor/dispatch.go and actor/security.go: a handler only runs
    for verified and authorised messages, one-shot behaviours react at most once,
    the handlers in flight stay within the limits, the queues within their
    capacity, and what the kernel does with malformed tokens. *)

From S2P Require Import Prelude GoStrings Key Capability Token Envelope Limiter CapContext Security.
From S2P Require Import Dispatch TokenSpec CapContextSpec DispatchSpec.

Section claims.
  Context `{Codec : TokenCodec} `{Wire : WireCodec} `{Keys : KeyLib} `{Iter : MapIteration}.
  Context `{Msgs : EnvelopeCodec} {Cont L : Type} `{Lim : RateLimiter L}.

(** C1: a handler runs only for a verified and authorised message: whatever the
    interleaving of the goroutines and the calls others make on the shared
    capability context, failed ones and ones between the check, the storing and the use of
    a token included, every invocation in the history is for a message whose
    signature was verified with the sender's key before it expired, under a
    behaviour that was not expired, and either the actor sent the message to
    itself or a token that at that moment verified against the revocations in force
    gave the sender one of the behaviour's capabilities (for a broadcast, on the
    behaviour's topic).  A revocation is in force when every stored token was checked
    against it: all recorded ones are after a successful [AddRoots], but not those a
    failed [AddRoots] recorded. *)
Theorem invoked_authorised (l : L) (s : System Cont L) r :
  sys_reachable l s → In r (invoked s) →
  verified (re_msg r) ∧ behaviorExpired (re_beh r) (re_now r) = false ∧
  message_authorised (re_id r) (re_ctx r) (re_now r) (re_msg r) (bs_opt (re_beh r)).
Proof.
  intros Hs Hin. apply reachable_safe in Hs as [_ _ Hr].
  destruct (Hr r) as [H1 H2 H3]; auto.
Qed.

(** A one-shot behaviour reacts at most once: in every reachable state no
    pointer of a one-shot behaviour occurs twice among the invocations. *)
Theorem oneshot_at_most_once (l : L) (s : System Cont L) :
  sys_reachable l s → NoDup (oneshot_refs (invoked s)).
Proof.
  intros Hs%reachable_once. pose proof (on_nodup _ Hs) as Hn. unfold history in Hn.
  rewrite oneshot_refs_app in Hn. by apply NoDup_app in Hn as (_ & _ & ?).
Qed.

(** Neither queue ever holds more than its capacity, so a flood of messages
    is dropped and never piles up. *)
Theorem queues_bounded (l : L) (s : System Cont L) :
  sys_reachable l s → length (q (kern s)) ≤ queueSize ∧ length (vq (kern s)) ≤ queueSize.
Proof.
  apply (sys_invariant queues_ok); [|apply queues_step]. intros sec _. split; cbn; lia.
Qed.

(** One message with a nil token stops the whole process: when a message for
    a registered and unexpired behaviour carries token bytes that decode to a
    list that starts with a nil pointer, [dispatch] panics, for every sender
    other than the actor itself and without any capability. *)
Theorem nil_token_panics between (k : Dispatch Cont L) now m b l :
  behaviors k !! Behavior m = Some b → behaviorExpired b now = false →
  (IsBroadcast m = true → bo_Topic (bs_opt b) = opt_Topic (Options m)) →
  Handle_ID (From m) ≠ sc_id (sctx k) →
  String.length (env_Capability m) ≤ maxCapabilitySize →
  unmarshal_list (env_Capability m) = Some (None :: l) →
  (dispatch between k now m).2 = Panic.
Proof.
  intros Hb Hexp Htopic Hid Hlen Hnil. unfold dispatch. rewrite Hb, Hexp.
  assert (Consume (sc_cap (sctx k)) now (Handle_DID (From m)) (env_Capability m)
          = (sc_cap (sctx k), Panic)) as Hc.
  { unfold Consume. destruct (Nat.ltb_spec maxCapabilitySize (String.length (env_Capability m))); [lia|].
    by rewrite Hnil. }
  destruct (IsBroadcast m) eqn:Hbc.
  - unfold sec_RequireBroadcast. rewrite Hbc, Htopic, Hc by done. by rewrite bool_decide_true.
  - unfold sec_Require, selfMessage, ID_Equal. by rewrite bool_decide_false, Hc by congruence.
Qed.

(** A rejection by the limiter loses a one-shot behaviour: it was removed under the
    lock and is not put back. *)
Theorem rejected_oneshot_lost between (k : Dispatch Cont L) now m k1 b l e k2 run :
  dispatch between k now m = (k1, Ok (Some b)) → bo_OneShot (bs_opt b) = true →
  Acquire (limiter k) m = (l, Some e) → dispatch_acquire k1 m = (k2, Ok run) →
  run = false ∧ behaviors k2 !! Behavior m = None.
Proof.
  intros Hd Hone Hacq Ha. pose proof (dispatch_spec _ _ _ _ _ _ Hd) as (_ & _ & Hl & _).
  apply dispatch_Some in Hd as (_ & _ & Hdel & _).
  apply dispatch_acquire_spec in Ha as (_ & _ & _ & Hb & _ & Hrun).
  rewrite Hl, Hacq in Hrun. destruct run; [done|]. split; [done|].
  rewrite Hb, (Hdel Hone). apply lookup_delete_eq.
Qed.

(** What an actor signs, any other verifies: an envelope that [Provide]
    returns is the given one with tokens and a signature, and [Verify] accepts it
    until it expires, when the actor's identity is the key its private key
    belongs to. *)
Theorem provided_envelope_verifies s now n1 n2 m invoke delegate m' s' pubk later :
  sec_Provide s now n1 n2 m invoke delegate = (inl m', s') →
  PublicKeyFromID (sc_id s) = Some pubk →
  (∀ data sig, sc_privk s data = Some sig → KeyVerify pubk data sig = Some true) →
  Expired m later = false →
  sec_Verify m' later = None ∧
  ∃ tokens sig, m' = set_Signature (set_Capability m tokens) (Some sig).
Proof.
  intros [tokens Hs]%sec_Provide_inv Hk Hsig Hexp.
  destruct (sec_Sign_verifies _ _ _ _ later Hs Hk Hsig Hexp) as (Hv & sig & ->). eauto.
Qed.

End claims.

Section limits.
  Context `{Codec : TokenCodec} `{Wire : WireCodec} `{Keys : KeyLib} `{Iter : MapIteration}.
  Context `{Msgs : EnvelopeCodec} {Cont : Type}.

(** C30: the handlers in flight respect the limits: starting from a fresh limiter,
    in every reachable state the limiter's counters are exactly the messages in
    flight, here and in the other actors of the node, and no more public
    messages, broadcasts, or broadcasts of one topic run than are configured. *)
Theorem handlers_within_limits c (s : System Cont BasicRateLimiter) :
  nonneg_limits c → sys_reachable (NewRateLimiter c) s →
  counts (limiter (kern s)) (in_flight s) ∧ within_limits c (in_flight s).
Proof.
  intros Hnn Hs.
  assert (counts (limiter (kern s)) (in_flight s) ∧ within_limits (cfg (limiter (kern s))) (in_flight s) ∧
          cfg (limiter (kern s)) = c) as (? & ? & <-); [|done].
  revert Hs. apply (sys_invariant (λ s, counts (limiter (kern s)) (in_flight s) ∧
    within_limits (cfg (limiter (kern s))) (in_flight s) ∧ cfg (limiter (kern s)) = c)).
  { intros sec _. split_and!; [by split|by apply within_limits_nil|done]. }
  intros s1 s2 Hstep.
  apply (limiter_step (λ l ms, counts l ms ∧ within_limits (cfg l) ms ∧ cfg l = c)); [..|exact Hstep].
  - intros l ms ms' Hp (? & ? & ?). split_and!; [by apply (tracks_perm (RateLimiterLaws := BasicRateLimiter_laws) l ms)|by eapply within_limits_perm|done].
  - intros l l' m ms Ha (Hc & Hw & Hcfg). assert (cfg l' = cfg l) as Heq.
    { pose proof (Acquire_cfg l m) as H. by rewrite Ha in H. }
    rewrite Heq. split_and!; [by apply (tracks_acquire (RateLimiterLaws := BasicRateLimiter_laws) l)|by eapply within_limits_acquire|done].
  - intros l l' m e ms Ha. apply (tracks_reject (RateLimiterLaws := BasicRateLimiter_laws)) in Ha. by subst l'.
  - intros l m ms (Hc & Hw & Hcfg). rewrite Release_cfg.
    split_and!; [by apply (tracks_release (RateLimiterLaws := BasicRateLimiter_laws))|by eapply within_limits_release|done].
Qed.

End limits.

(** ** A concrete run: carol asks alice's node for its peers. *)

#[local] Existing Instance toy_keys.
#[local] Instance sample_iter : MapIteration := {| iter l := l; iter_perm l := reflexivity l |}.
#[local] Instance sample_wire : WireCodec := {|
  marshal_list l := None;
  unmarshal_list s :=
    if bool_decide (s = "leaf") then Some [Some (tok sample_leaf)]
    else if bool_decide (s = "null") then Some [None] else None
|}.
#[local] Instance sample_msgs : EnvelopeCodec := {|
  marshal_msg m := Some (Behavior m +:+ ("|" +:+ env_Capability m));
  unmarshal_msg _ := None
|}.

Definition alice_sec : BasicSecurityContext :=
  mkSec "alice" (λ data, Some ("alice" +:+ data))
    (mkCtx "node" (sample_provider alice) sample_trust ∅ ∅ ∅ ∅ ∅ false) 7.

Definition alice_handle : Handle := mkHandle "alice" alice (mkAddress "host1" "root").
Definition carol_handle : Handle := mkHandle "carol" carol (mkAddress "host2" "root").

Definition peers : string := "/dms/node/peers".
Definition request (caps : bytes) : Envelope :=
  mkEnvelope alice_handle peers carol_handle 1 (mkOptions 90 "" "") "" caps
    (Some ("carol" +:+ ("dms:msg:" +:+ (peers +:+ ("|" +:+ caps))))).

Definition sample_listener : Dispatch unit BasicRateLimiter :=
  (AddBehavior (Dispatch_Start (NewDispatch alice_sec (NewRateLimiter DefaultRateLimiterConfig)))
     peers tt [WithBehaviorOneShot true]).1.
Definition sample_received : Dispatch unit BasicRateLimiter := (Receive sample_listener (request "leaf") true).1.
Definition sample_verified : Dispatch unit BasicRateLimiter := recv (set_q sample_received []) 50 (request "leaf").
Definition sample_chosen : Dispatch unit BasicRateLimiter :=
  (dispatch id (set_vq sample_verified []) 50 (request "leaf")).1.
Definition sample_acquired : Dispatch unit BasicRateLimiter := (dispatch_acquire sample_chosen (request "leaf")).1.

Definition sample_reaction : Reaction unit :=
  mkReaction _ (request "leaf")
    (mkBehavior _ 0 tt (mkBehaviorOptions [peers] 0 true "")) "alice"
    (consumed id alice_sec 50 (request "leaf")) 50.

Definition sample_system : System unit BasicRateLimiter :=
  mkSystem _ _ sample_acquired [] [] [] [sample_reaction] [] [sample_reaction].

Lemma sample_system_reachable : sys_reachable (NewRateLimiter DefaultRateLimiterConfig) sample_system.
Proof.
  exists alice_sec. split.
  { eexists. apply (force_new "node" sample_trust (Some (sample_provider alice)) 10 [] [] [] []). vm_compute. reflexivity. }
  eapply rtc_l; [apply s_start|].
  eapply rtc_l; [eapply (s_add _ sample_listener _ _ _ _ _ _ peers tt [WithBehaviorOneShot true]); vm_compute; reflexivity|].
  eapply rtc_l; [eapply (s_receive _ sample_received _ _ _ _ _ _ (request "leaf") true (Ok tt)); [vm_compute; reflexivity|done]|].
  eapply rtc_l; [eapply (s_take _ _ _ _ _ _ _ (request "leaf") []); vm_compute; reflexivity|].
  eapply rtc_l; [apply (s_recv _ [] [] _ _ _ _ _ _ 50)|].
  eapply rtc_l; [eapply (s_dequeue _ _ _ _ _ _ _ (request "leaf") []); vm_compute; reflexivity|].
  eapply rtc_l; [eapply (s_dispatch id _ sample_chosen _ [] [] _ _ _ _ _ 50
    (Some (mkBehavior _ 0 tt (mkBehaviorOptions [peers] 0 true "")))); [by intros c; apply rtc_refl|vm_compute; reflexivity]|].
  eapply rtc_l; [eapply (s_acquire _ sample_acquired _ _ [] [] _ _ _ _ true); vm_compute; reflexivity|].
  apply rtc_refl.
Qed.

Lemma invoked_authorised_witness :
  verified (re_msg sample_reaction) ∧ behaviorExpired (re_beh sample_reaction) (re_now sample_reaction) = false ∧
  message_authorised (re_id sample_reaction) (re_ctx sample_reaction) (re_now sample_reaction)
    (re_msg sample_reaction) (bs_opt (re_beh sample_reaction)).
Proof. apply (invoked_authorised _ _ _ sample_system_reachable). by left. Defined.

Lemma oneshot_at_most_once_witness : NoDup (oneshot_refs (invoked sample_system)).
Proof. exact (oneshot_at_most_once _ _ sample_system_reachable). Defined.

Lemma queues_bounded_witness :
  length (q (kern sample_system)) ≤ queueSize ∧ length (vq (kern sample_system)) ≤ queueSize.
Proof. exact (queues_bounded _ _ sample_system_reachable). Defined.

Lemma nil_token_panics_witness : (dispatch id sample_listener 50 (request "null")).2 = Panic.
Proof.
  eapply (nil_token_panics id sample_listener 50 (request "null")).
  - vm_compute. reflexivity.
  - vm_compute. reflexivity.
  - vm_compute. discriminate.
  - vm_compute. discriminate.
  - vm_compute. lia.
  - vm_compute. reflexivity.
Defined.

Lemma provided_envelope_verifies_witness :
  ∃ m' s', sec_Provide alice_sec 50 (λ _, None) (λ _, None)
    (mkEnvelope alice_handle peers alice_handle 1 (mkOptions 90 "" "") "" "" None) [peers] [] = (inl m', s') ∧
  sec_Verify m' 60 = None.
Proof.
  eexists _, _. split; [vm_compute; reflexivity|].
  eapply (provided_envelope_verifies alice_sec 50 (λ _, None) (λ _, None)
    (mkEnvelope alice_handle peers alice_handle 1 (mkOptions 90 "" "") "" "" None) [peers] [] _ _ _ 60).
  - vm_compute. reflexivity.
  - reflexivity.
  - intros data sig [= <-]. cbn. by rewrite bool_decide_true.
  - vm_compute. reflexivity.
Defined.

Lemma handlers_within_limits_witness :
  counts (limiter (kern sample_system)) (in_flight sample_system) ∧
  within_limits DefaultRateLimiterConfig (in_flight sample_system).
Proof.
  apply (handlers_within_limits DefaultRateLimiterConfig); [|exact sample_system_reachable].
  split_and!; [vm_compute; discriminate..|]. intros topic. vm_compute. discriminate.
Defined.
