(* ===== verification/ActorProps.v ===== *)
(** * Properties of actors

    The claims about actor/basic.go: which network messages reach the dispatch,
    which broadcasts are accepted, that a sent message is received and verified,
    and what becomes of the children of an actor. *)

From S2P Require Import Prelude GoStrings Key Capability Token Envelope Limiter CapContext Security.
From S2P Require Import TokenSpec Dispatch Actor DispatchSpec DispatchProps.

Section claims.
  Context `{Codec : TokenCodec} `{Wire : WireCodec} `{Keys : KeyLib} `{Iter : MapIteration}.
  Context `{Msgs : EnvelopeCodec} {C L : Type} `{Lim : RateLimiter L}.
  Implicit Types (a b : BasicActor C L) (m : Envelope).

(** A dispatch that accepts one more message. *)
Definition accepting (k : Dispatch (Continuation C) L) : Prop :=
  runctx k = CtxLive ∧ length (q k) < queueSize.

Lemma Receive_accepting k m pick :
  accepting k → Receive k m pick = (set_q k (q k ++ [m]), Ok tt).
Proof.
  intros [Hrun Hroom]. unfold Receive. rewrite Hrun.
  by destruct (Nat.ltb_spec (length (q k)) queueSize); [|lia].
Qed.

(** A network message is queued exactly when it should be: for a running
    actor with room in the queue, [handleMessage] adds the decoded envelope when it is
    addressed to the actor, comes from the peer it names as its host and the
    limiter allows it, and otherwise changes nothing. *)
Theorem handleMessage_queues a data peer pick :
  accepting (act_dispatch a) →
  handleMessage a data peer pick =
  match unmarshal_msg data with
  | Some m =>
      if bool_decide (Handle_ID (To m) = Handle_ID (act_self a) ∧
                      HostID (Handle_Address (From m)) = peer ∧
                      Allow (limiter (act_dispatch a)) m = true)
      then (set_dispatch a (set_q (act_dispatch a) (q (act_dispatch a) ++ [m])), Ok tt)
      else (a, Ok tt)
  | None => (a, Ok tt)
  end.
Proof.
  intros Hacc. unfold handleMessage. destruct (unmarshal_msg data) as [m|]; [|done].
  unfold ID_Equal. case_bool_decide as Hid; cbn [negb].
  2: { rewrite bool_decide_false; [done|]. intros (? & _). congruence. }
  case_bool_decide as Hhost; cbn [negb].
  2: { rewrite bool_decide_false; [done|]. by intros (_ & ? & _). }
  destruct (Allow (limiter (act_dispatch a)) m) eqn:Hallow; cbn [negb].
  2: { rewrite bool_decide_false; [done|]. by intros (_ & _ & ?). }
  rewrite bool_decide_true by auto. unfold Actor_Receive, ID_Equal.
  rewrite bool_decide_true by done. by rewrite Receive_accepting.
Qed.

(** A broadcast that was not validated before is accepted exactly when it
    decodes to a broadcast on the subscribed topic that is alive, whose
    signature matches its sender's key, and that the limiter allows. *)
Theorem validateBroadcast_accepts a topic data now m :
  validateBroadcast a topic data VNil now = (ValidationAccept, VEnvelope m) ↔
  unmarshal_msg data = Some m ∧ IsBroadcast m = true ∧ opt_Topic (Options m) = topic ∧
  sec_Verify m now = None ∧ Allow (limiter (act_dispatch a)) m = true.
Proof.
  unfold validateBroadcast. destruct (unmarshal_msg data) as [m'|]; [|naive_solver].
  destruct (IsBroadcast m') eqn:Hb; cbn [negb]; [|naive_solver congruence].
  case_bool_decide as Ht; cbn [negb]; [|naive_solver].
  destruct (Expired m' now) eqn:He; cbn [negb].
  { split; [done|]. intros ([= <-] & _ & _ & Hv & _). unfold sec_Verify in Hv. by rewrite He in Hv. }
  case_bool_decide as Hv; cbn [negb]; [|naive_solver].
  destruct (Allow _ m') eqn:Ha; cbn [negb]; naive_solver congruence.
Qed.

Lemma prepare_inv s m provide m' s' :
  prepare s m provide = (inl m', s') → env_Signature m = None →
  ∃ n s1, sc_id s1 = sc_id s ∧ sc_privk s1 = sc_privk s ∧
    provide s1 (set_env_Nonce m n) = (inl m', s').
Proof.
  unfold prepare. intros Hp Hs. rewrite Hs in Hp. case_bool_decide.
  - cbn in Hp. eexists _, _. split_and!; [| |exact Hp]; done.
  - exists (env_Nonce m), s. split_and!; try done. by destruct m.
Qed.

(** The envelope [sec_Provide] signs. *)
Lemma sec_Provide_verifies s now n1 n2 m invoke delegate m' s' pubk later :
  sec_Provide s now n1 n2 m invoke delegate = (inl m', s') →
  PublicKeyFromID (sc_id s) = Some pubk →
  (∀ data sig, sc_privk s data = Some sig → KeyVerify pubk data sig = Some true) →
  Expired m later = false →
  sec_Verify m' later = None ∧ To m' = To m ∧ From m' = From m ∧ Options m' = Options m.
Proof.
  intros [tokens Hs]%sec_Provide_inv Hk Hsig Hexp.
  by destruct (sec_Sign_verifies _ _ _ _ later Hs Hk Hsig Hexp) as (Hv & sig & ->).
Qed.

(** A sent message arrives: when [Send] hands an unsigned message to the
    network and the bytes decode to what was encoded, the receiver the message
    names, running, with room and under its limit, queues an envelope on the
    protocol it listens to, and its signature verifies until the message
    expires. *)
Theorem sent_is_received a a' b m now n1 n2 pick pick' host proto data exp pubk later :
  Send a m now n1 n2 pick true = (a', [EffSend host proto data exp], Ok tt) →
  env_Signature m = None →
  (∀ m data, marshal_msg m = Some data → unmarshal_msg data = Some m) →
  PublicKeyFromID (sc_id (act_security a)) = Some pubk →
  (∀ data sig, sc_privk (act_security a) data = Some sig → KeyVerify pubk data sig = Some true) →
  Expired m later = false →
  act_self b = To m → accepting (act_dispatch b) →
  (∀ m', Allow (limiter (act_dispatch b)) m' = true) →
  ∃ m', handleMessage b data (HostID (Handle_Address (From m))) pick' =
          (set_dispatch b (set_q (act_dispatch b) (q (act_dispatch b) ++ [m'])), Ok tt) ∧
        sec_Verify m' later = None ∧
        (Actor_Start b true).1.2 = [EffHandle proto].
Proof.
  intros Hsend Hns Hcodec Hk Hsig Hexp Hself Hacc Hallow. revert Hsend. unfold Send.
  destruct (ID_Equal _ _).
  { destruct (Actor_Receive a m pick). by intros [= _ ?]. }
  destruct (prepare _ _ _) as [[m'|e] s'] eqn:Hp; [|done].
  apply prepare_inv in Hp as (n & s1 & Hid & Hpriv & Hp); [|done]. rewrite <- Hid in Hk. rewrite <- Hpriv in Hsig.
  destruct (sec_Provide_verifies _ _ _ _ _ _ _ _ _ _ later Hp Hk Hsig Hexp) as (Hv & Hto & Hfrom & _).
  cbn in Hto, Hfrom. destruct (marshal_msg m') as [data'|] eqn:Hm; [|done].
  intros [= _ _ <- -> _]. exists m'. split_and!; [|done|].
  - unfold handleMessage. rewrite (Hcodec _ _ Hm), Hto, Hfrom, Hself. unfold ID_Equal.
    rewrite !bool_decide_true by done. rewrite Hallow. cbn [negb].
    unfold Actor_Receive, ID_Equal. rewrite Hto, Hself, bool_decide_true by done.
    by rewrite Receive_accepting.
  - cbn. by rewrite Hself, Hto.
Qed.

(** An actor keeps one child only: every child gets the DID of the shared
    capability context, which is the key of the map of children, so after any
    successful [CreateChild] the entry of every earlier child is overwritten. *)
Theorem CreateChild_overwrites a id super pubk privk now nonce a' child :
  CreateChild a id super pubk privk now nonce = (a', Ok child) →
  (∀ d, is_Some (act_children a !! d) → d = sec_DID (act_security a)) →
  act_children a' = {[ sec_DID (act_security a) := act_self child ]}.
Proof.
  unfold CreateChild, NewBasicSecurityContext. destruct (IDFromPublicKey pubk) as [i|]; [|done].
  intros Hc Hone. revert Hc. unfold New.
  destruct (grantSupervisorCapabilities _ _ _ _ _) as [s [[]|e|]] eqn:Hg; [|done..].
  intros [= <- <-]. cbn. apply map_eq. intros d.
  change (sec_DID (mkSec i privk (sc_cap (act_security a)) (u64 now))) with (sec_DID (act_security a)).
  destruct (decide (d = sec_DID (act_security a))) as [->|Hne].
  - by rewrite lookup_insert_eq, lookup_singleton_eq.
  - rewrite lookup_insert_ne, lookup_singleton_ne by done. apply eq_None_not_Some.
    intros Hs%Hone. done.
Qed.

End claims.

(** ** A concrete exchange: alice asks bob for his peers. *)

#[local] Existing Instance toy_keys.
#[local] Instance exchange_iter : MapIteration := {| iter l := l; iter_perm l := reflexivity l |}.
#[local] Instance exchange_wire : WireCodec := {|
  marshal_list _ := Some "cap"; unmarshal_list _ := None
|}.

Definition bob_handle : Handle := mkHandle "bob" bob (mkAddress "host3" "root").
Definition question : Envelope :=
  mkEnvelope bob_handle peers alice_handle 1 (mkOptions 90 "" "") "" "" None.
Definition unsigned : Envelope := set_Capability question "cap".
Definition sent : Envelope := set_Signature unsigned (Some "alicedms:msg:u").

#[local] Instance exchange_msgs : EnvelopeCodec := {|
  marshal_msg m :=
    if bool_decide (m = unsigned) then Some "u" else if bool_decide (m = sent) then Some "s" else None;
  unmarshal_msg d :=
    if bool_decide (d = "u") then Some unsigned else if bool_decide (d = "s") then Some sent else None
|}.

Definition sample_actor (sec : BasicSecurityContext) (h : Handle) : BasicActor unit unit :=
  mkActor _ _ (Dispatch_Start (NewDispatch sec tt)) ∅ Handle_zero Handle_zero ∅ h ∅.

Definition bob_sec : BasicSecurityContext :=
  mkSec "bob" (λ data, Some ("bob" +:+ data))
    (mkCtx "node" (sample_provider bob) sample_trust ∅ ∅ ∅ ∅ ∅ false) 7.

Lemma sample_actor_accepting sec h : accepting (act_dispatch (sample_actor sec h)).
Proof. split; [done|]. vm_compute. lia. Qed.

Lemma handleMessage_queues_witness :
  handleMessage (sample_actor bob_sec bob_handle) "s" "host1" true =
  (set_dispatch (sample_actor bob_sec bob_handle)
     (set_q (act_dispatch (sample_actor bob_sec bob_handle)) [sent]), Ok tt).
Proof.
  rewrite (handleMessage_queues (sample_actor bob_sec bob_handle)); [|apply sample_actor_accepting].
  vm_compute. reflexivity.
Defined.

Lemma exchange_roundtrip m data : marshal_msg m = Some data → unmarshal_msg data = Some m.
Proof. cbn. repeat case_bool_decide; intros; simplify_eq; done. Qed.

Lemma sent_is_received_witness :
  ∃ m', handleMessage (sample_actor bob_sec bob_handle) "s" "host1" true =
    (set_dispatch (sample_actor bob_sec bob_handle)
       (set_q (act_dispatch (sample_actor bob_sec bob_handle)) [m']), Ok tt) ∧
    sec_Verify m' 60 = None ∧
    (Actor_Start (sample_actor bob_sec bob_handle) true).1.2 = [EffHandle "actor/root/messages/0.0.1"].
Proof.
  eapply (sent_is_received (sample_actor alice_sec alice_handle) _ (sample_actor bob_sec bob_handle)
            question 50 (λ _, Some "n") (λ _, Some "n") true true).
  - vm_compute. reflexivity.
  - reflexivity.
  - apply exchange_roundtrip.
  - reflexivity.
  - intros data sig [= <-]. cbn. by rewrite bool_decide_true.
  - vm_compute. reflexivity.
  - reflexivity.
  - apply sample_actor_accepting.
  - reflexivity.
Defined.

Lemma CreateChild_overwrites_witness :
  ∃ a' child, CreateChild (sample_actor bob_sec bob_handle) "child" Handle_zero "kid" (λ _, None) 50 None
      = (a', Ok child) ∧
    act_children a' = {[ bob := act_self child ]}.
Proof.
  eexists _, _. split; [vm_compute; reflexivity|].
  eapply (CreateChild_overwrites (sample_actor bob_sec bob_handle) "child" Handle_zero _ _ 50 None).
  - vm_compute. reflexivity.
  - intros d [h Hd]. cbn in Hd. by rewrite lookup_empty in Hd.
Defined.
