(* ===== verification/ResourceSpec.v ===== *)
(** * The books of the resource manager

    RAM and disk are accounted for in the same way: both are measures of a
    resource, added with wrap-around and subtracted with an underflow check.  The
    lemmas are proved once for any measure. *)

From S2P Require Import Prelude GoNumbers Hardware ResourceManager.

(** ** Properties of comparisons and GPU matching

    The claims about types/comparison.go and types/hardware.go. *)

(** ** Combining comparisons *)

Lemma And_Worse_l c : And Worse c = Worse.
Proof. by destruct c. Qed.

(** Folding from any start: a Worse anywhere decides. *)
Lemma fold_And l c :
  NoComparison ∉ l → c ≠ NoComparison →
  fold_left And l c =
    if bool_decide (Worse ∈ c :: l) then Worse
    else if bool_decide (Better ∈ c :: l) then Better else Equal.
Proof.
  revert c. induction l as [|x l IH]; intros c Hn Hc; simpl.
  - repeat case_bool_decide; destruct c; set_solver.
  - rewrite IH; [|set_solver|destruct c, x; set_solver].
    destruct c, x; simpl; repeat case_bool_decide; set_solver.
Qed.

(** Combining comparable results does not depend on the order the map is
    visited in: the result is Worse when one result is, else Better when one is,
    else Equal. *)
Theorem Result_decides l :
  NoComparison ∉ l →
  ComplexComparison_Result l =
    if bool_decide (Worse ∈ l) then Worse
    else if bool_decide (Better ∈ l) then Better else Equal.
Proof.
  intros Hn. unfold ComplexComparison_Result. rewrite fold_And by done.
  repeat case_bool_decide; set_solver.
Qed.

Lemma Result_decides_witness : ComplexComparison_Result [Better; Worse; Equal] = Worse.
Proof. rewrite Result_decides; [vm_compute; reflexivity|set_solver]. Defined.

(** With an incomparable part the order decides: the table documented for [And]
    has Worse AND None = None, the code returns Worse. *)
Theorem Result_order_matters :
  ComplexComparison_Result [Worse; NoComparison] = Worse ∧
  ComplexComparison_Result [NoComparison; Worse] = NoComparison.
Proof. vm_compute. auto. Qed.

(** ** Matching GPUs *)

Lemma bestMatchFrom_spec i l best :
  bestMatchFrom i l best = best ∨
  ∃ j, l !! j = Some (bestMatchFrom i l best).1 ∧ (bestMatchFrom i l best).2 = (i + Z.of_nat j)%Z.
Proof.
  revert i best. induction l as [|v l IH]; intros i best; [by left|]. cbn [bestMatchFrom].
  assert (∀ b, bestMatchFrom (i + 1) l b = b →
    b = best ∨ b = (v, i) → bestMatchFrom (i + 1) l b = best ∨
    ∃ j, (v :: l) !! j = Some (bestMatchFrom (i + 1) l b).1 ∧
         (bestMatchFrom (i + 1) l b).2 = (i + Z.of_nat j)%Z) as Hkeep.
  { intros b Heq [->| ->]; [by left|right]. rewrite Heq. exists 0. split; [done|]. simpl. lia. }
  assert (∀ b, (∃ j, l !! j = Some (bestMatchFrom (i + 1) l b).1 ∧
         (bestMatchFrom (i + 1) l b).2 = (i + 1 + Z.of_nat j)%Z) →
    ∃ j, (v :: l) !! j = Some (bestMatchFrom (i + 1) l b).1 ∧
         (bestMatchFrom (i + 1) l b).2 = (i + Z.of_nat j)%Z) as Hshift.
  { intros b (j & Hj & Hi). exists (S j). split; [done|lia]. }
  destruct v.
  - case_bool_decide; [destruct (IH (i + 1)%Z (Worse, i))|destruct (IH (i + 1)%Z best)]; auto.
  - case_bool_decide; [destruct (IH (i + 1)%Z best)|destruct (IH (i + 1)%Z (Better, i))]; auto.
  - right. exists 0. split; [done|]. simpl. lia.
  - destruct (IH (i + 1)%Z best); auto.
Qed.

Lemma bestMatchFrom_some i l best :
  NoComparison ∉ l → (l ≠ [] ∨ best.1 ≠ NoComparison) → (bestMatchFrom i l best).1 ≠ NoComparison.
Proof.
  revert i best. induction l as [|v l IH]; intros i best Hn Hor; cbn [bestMatchFrom]; [naive_solver|].
  destruct v; [| |done|set_solver]; (apply IH; [set_solver|right]); case_bool_decide; simpl; congruence.
Qed.

(** On a row without incomparable entries the match is an entry of the row. *)
Lemma returnBestMatch_spec c b index :
  returnBestMatch c = (b, index) → NoComparison ∉ c → c ≠ [] →
  ∃ j, c !! j = Some b ∧ index = Z.of_nat j.
Proof.
  unfold returnBestMatch. intros Hr Hn Hne.
  pose proof (bestMatchFrom_some 0 c (NoComparison, (-1)%Z) Hn (or_introl Hne)) as Hb.
  destruct (bestMatchFrom_spec 0 c (NoComparison, (-1)%Z)) as [Heq|(j & Hj & Hi)]; [by rewrite Heq in Hb|].
  rewrite Hr in *. simpl in *. exists j. split; [done|lia].
Qed.

(** The comparison matrix of required GPUs (rows) and own GPUs (columns). *)
Definition matrix (cols req : list GPU) : list (list Comparison) :=
  map (λ r, map (λ o, GPU_Compare o r) cols) req.

Lemma map_delete {A B} (f : A → B) i l : map f (delete i l) = delete i (map f l).
Proof. revert i. induction l as [|x l IH]; intros [|i]; simpl; [done..|]. by rewrite <- IH. Qed.

Lemma removeIndex_matrix cols req j :
  j < length cols → removeIndex (matrix cols req) (Z.of_nat j) = matrix (delete j cols) req.
Proof.
  intros Hj. unfold removeIndex, matrix. rewrite map_map. apply map_ext. intros r.
  rewrite length_map. destruct (Z.ltb_spec (Z.of_nat j) 0); [lia|].
  destruct (Z.leb_spec (Z.of_nat (length cols)) (Z.of_nat j)); [lia|]. cbn.
  by rewrite Nat2Z.id, map_delete.
Qed.

Lemma GPU_Compare_row r cols : NoComparison ∉ map (λ o, GPU_Compare o r) cols.
Proof.
  rewrite list_elem_of_In, in_map_iff. intros (o & Ho & _). revert Ho. unfold GPU_Compare.
  destruct (_ <? _)%Z; [done|]. by destruct (_ <? _)%Z.
Qed.

Lemma delete_length {A} j (l : list A) : j < length l → length (delete j l) = length l - 1.
Proof. intros. apply length_delete. by apply lookup_lt_is_Some. Qed.

(** A required GPU is covered by an own one with as much memory. *)
Definition covers (r g : GPU) : Prop := (GPU_VRAM r ≤ GPU_VRAM g)%Z.

Lemma matchLoop_sound req n i cols :
  length req = i + n → (n = 0 ∨ 1 ≤ length cols ∧ i + 2 * n ≤ length cols + 2) →
  Worse ∉ matchLoop n i (matrix cols req) →
  ∃ ms, Forall2 covers (drop i req) ms ∧ ms ⊆+ cols.
Proof.
  revert i cols. induction n as [|n IH]; intros i cols Hlen Hroom Hw.
  { exists []. rewrite drop_ge by lia. split; [done|apply submseteq_nil_l]. }
  destruct Hroom as [|[Hpos Hroom]]; [done|].
  destruct (lookup_lt_is_Some_2 req i) as [r Hr]; [lia|].
  cbn [matchLoop] in Hw. unfold matrix in Hw at 1. rewrite list_lookup_fmap, Hr in Hw. cbn [fmap option_fmap option_map] in Hw.
  rewrite length_map in Hw. destruct (Nat.ltb_spec (length cols) i); [lia|].
  destruct (returnBestMatch _) as [b index] eqn:Hbest.
  apply returnBestMatch_spec in Hbest as (j & Hj & ->);
    [|apply GPU_Compare_row|by destruct cols; simpl in *; [lia|]].
  rewrite list_lookup_fmap in Hj. destruct (cols !! j) as [g|] eqn:Hg; [|done]. simpl in Hj. injection Hj as <-.
  pose proof (lookup_lt_Some _ _ _ Hg) as Hjl. rewrite removeIndex_matrix in Hw by done.
  apply not_elem_of_cons in Hw as [Hb Hw].
  destruct (IH (S i) (delete j cols)) as (ms & Hms & Hsub); [lia| |done|].
  { rewrite delete_length by done. destruct n; [by left|right]. lia. }
  exists (g :: ms). split.
  - rewrite (drop_S _ _ _ Hr). constructor; [|done].
    unfold covers. revert Hb. unfold GPU_Compare.
    destruct (Z.ltb_spec (GPU_VRAM r) (GPU_VRAM g)); [lia|].
    destruct (Z.ltb_spec (GPU_VRAM g) (GPU_VRAM r)); [done|lia].
  - rewrite (delete_Permutation cols j g Hg). by apply submseteq_skip.
Qed.

(** A GPU requirement judged met is met when the machine has enough GPUs: if
    [Compare] does not answer Worse and the machine has at least twice the
    number of required GPUs less two, distinct own GPUs with enough memory cover
    all the required ones. *)
Theorem GPUs_Compare_sound own req :
  GPUs_Compare own req ≠ Worse → own ≠ [] → 2 * length req ≤ length own + 2 →
  ∃ ms, Forall2 covers req ms ∧ ms ⊆+ own.
Proof.
  intros Hc Hne Hlen. destruct own as [|o own]; [done|]. destruct req as [|r req].
  { exists []. split; [constructor|apply submseteq_nil_l]. }
  unfold GPUs_Compare in Hc. set (final := matchLoop _ 0 _) in Hc.
  case_bool_decide as Hw; [done|].
  apply (matchLoop_sound (r :: req) (length (r :: req)) 0 (o :: own)); [done|right; simpl in *; lia|].
  intros Hin. apply Hw. subst final. rewrite length_map. exact Hin.
Qed.

Definition gpu (index vram : Z) : GPU := mkGPU index "NVIDIA" "" "" vram 0 "".

Lemma GPUs_Compare_sound_witness :
  ∃ ms, Forall2 covers [gpu 0 4; gpu 1 8] ms ∧ ms ⊆+ [gpu 0 8; gpu 1 8].
Proof.
  apply GPUs_Compare_sound; [vm_compute; discriminate|discriminate|simpl; lia].
Defined.

(** Beyond that the matching stops early: one GPU counts as equal to two, and a
    small fourth GPU for a large one. *)
Theorem GPUs_Compare_ignores :
  GPUs_Compare [gpu 0 8] [gpu 0 8; gpu 1 8] = Equal ∧
  GPUs_Compare [gpu 0 8; gpu 1 8; gpu 2 8; gpu 3 8] [gpu 0 8; gpu 1 8; gpu 2 8; gpu 3 16] = Equal.
Proof. vm_compute. auto. Qed.

(** ** Measures *)

Record measure (size : Resources → Z) : Prop := {
  ms_zero : size Resources_zero = 0%Z;
  ms_add r o : size (Resources_Add r o) = u64 (size r + size o);
  ms_sub r o r' : Resources_Subtract r o = (r', None) →
    (size o ≤ size r)%Z ∧ size r' = u64 (size r - size o);
  ms_gpus r g : size (set_GPUs r g) = size r
}.

Definition ram_size (r : Resources) : Z := RAM_Size (res_RAM r).
Definition disk_size (r : Resources) : Z := Disk_Size (res_Disk r).

Lemma ram_measure : measure ram_size.
Proof.
  split; [done..| |done]. intros r o r'. unfold Resources_Subtract, RAM_Subtract, ram_size.
  destruct (CPU_Subtract _ _) as [cpu [e|]]; [done|].
  destruct (Z.ltb_spec (RAM_Size (res_RAM r)) (RAM_Size (res_RAM o))); [done|].
  destruct (Disk_Subtract _ _) as [disk [e|]]; [done|].
  destruct (GPUs_Subtract _ _) as [g e]. by intros [= <- _].
Qed.

Lemma disk_measure : measure disk_size.
Proof.
  split; [done..| |done]. intros r o r'. unfold Resources_Subtract, Disk_Subtract, disk_size.
  destruct (CPU_Subtract _ _) as [cpu [e|]]; [done|].
  destruct (RAM_Subtract _ _) as [ram [e|]]; [done|].
  destruct (Z.ltb_spec (Disk_Size (res_Disk r)) (Disk_Size (res_Disk o))); [done|].
  destruct (GPUs_Subtract _ _) as [g e]. by intros [= <- _].
Qed.

(** A value the program can hold: the sizes are uint64. *)
Definition res_valid (r : Resources) : Prop := is_u64 (ram_size r) ∧ is_u64 (disk_size r).

Definition map_valid (m : gmap string Resources) : Prop := map_Forall (λ _, res_valid) m.

Section books.
  Context `{Visit : MapVisit}.

(** ** Totals *)

Section totals.
  Variable size : Resources → Z.
  Hypothesis Hms : measure size.
  Hypothesis size_valid : ∀ r, res_valid r → is_u64 (size r).

Definition total (m : gmap string Resources) : Z := map_fold (λ _ r acc, (size r + acc)%Z) 0%Z m.

Lemma total_insert m k r : m !! k = None → total (<[k := r]> m) = (size r + total m)%Z.
Proof. intros Hk. unfold total. rewrite map_fold_insert_L; [done| |done]. intros. lia. Qed.

Lemma total_delete m k r : m !! k = Some r → total m = (size r + total (delete k m))%Z.
Proof. intros Hk. rewrite <- (insert_delete_id m k r Hk) at 1. apply total_insert, lookup_delete_eq. Qed.

Lemma total_nonneg m : map_valid m → (0 ≤ total m)%Z.
Proof.
  intros Hv. unfold total. revert Hv. apply (map_fold_weak_ind (λ acc m, map_valid m → 0 ≤ acc)%Z); [done|].
  intros k r m' acc Hk IH Hv. apply map_Forall_insert in Hv as [Hr Hm]; [|done].
  specialize (IH Hm). apply size_valid in Hr. unfold is_u64 in Hr. lia.
Qed.

Lemma total_delete_le m k : map_valid m → (total (delete k m) ≤ total m)%Z.
Proof.
  intros Hv. destruct (m !! k) as [r|] eqn:Hk; [|by rewrite delete_id].
  rewrite (total_delete _ _ _ Hk). apply Hv, size_valid in Hk. unfold is_u64 in Hk. lia.
Qed.

(** Overwriting an entry counts the new one at most in addition. *)
Lemma total_insert_le m k r :
  map_valid m → (total (<[k := r]> m) ≤ size r + total m)%Z.
Proof.
  intros Hv. rewrite <- insert_delete_eq, total_insert by apply lookup_delete_eq.
  pose proof (total_delete_le m k Hv). lia.
Qed.

Definition sum_list (l : list Resources) : Z := foldr (λ r acc, (size r + acc)%Z) 0%Z l.

Lemma sum_list_perm l l' : l ≡ₚ l' → sum_list l = sum_list l'.
Proof. induction 1; simpl; lia. Qed.

Lemma fold_size l acc :
  is_u64 (size acc) → size (fold_left Resources_Add l acc) = u64 (size acc + sum_list l).
Proof.
  revert acc. induction l as [|r l IH]; intros acc Hacc; simpl.
  - by rewrite Z.add_0_r, u64_small.
  - rewrite IH; rewrite ms_add by done; [|apply u64_range].
    unfold u64. rewrite Zplus_mod_idemp_l. f_equal. lia.
Qed.

(** The wrapped sum the code computes. *)
Lemma size_sumResources m : size (sumResources m) = u64 (total m).
Proof.
  unfold sumResources. rewrite fold_size by (rewrite ms_zero by done; unfold is_u64; lia).
  rewrite ms_zero by done. rewrite (sum_list_perm _ (map snd (map_to_list m)) (visit_perm _)).
  f_equal. unfold total. rewrite map_fold_foldr. unfold sum_list.
  induction (map_to_list m) as [|[k r] l IH]; [done|]. simpl in *. lia.
Qed.

(** ** Free resources *)

(** The resources of the books fit the machine's integers. *)
Definition fits (d : Manager) : Prop := (total (committedResources d) + total (allocations d) < 2 ^ 64)%Z.

Record books_valid (d : Manager) : Prop := {
  bv_committed : map_valid (committedResources d);
  bv_allocations : map_valid (allocations d);
  bv_onboarded : ∀ r, onboardedResources d = Some r → res_valid r;
  bv_db : ∀ r, db_onboarded d = Some r → res_valid r
}.

(** Reading the free resources changes the cache only, and there the GPUs only. *)
Record same_books (d d' : Manager) : Prop := {
  sb_committed : committedResources d' = committedResources d;
  sb_allocations : allocations d' = allocations d;
  sb_db : db_onboarded d' = db_onboarded d;
  sb_db_alloc : db_allocations d' = db_allocations d;
  sb_cache : ∀ r', onboardedResources d' = Some r' →
    ∃ r g, (onboardedResources d = Some r ∨ onboardedResources d = None ∧ db_onboarded d = Some r) ∧
      r' = set_GPUs r g
}.

Lemma set_GPUs_id r : set_GPUs r (res_GPUs r) = r.
Proof. by destruct r. Qed.

Lemma GetOnboardedResources_spec d x d' :
  GetOnboardedResources d = (x, d') →
  same_books d d' ∧ (∀ r, x = inl r → onboardedResources d' = Some r ∧
    (onboardedResources d = Some r ∨ onboardedResources d = None ∧ db_onboarded d = Some r)).
Proof.
  unfold GetOnboardedResources. destruct (onboardedResources d) as [r|] eqn:Hc.
  - intros [= <- <-]. split; [split; try done|by intros ? [= <-]; auto].
    intros r' Hr'. rewrite Hc in Hr'. injection Hr' as <-. exists r, (res_GPUs r). rewrite set_GPUs_id. auto.
  - destruct (db_onboarded d) as [r|] eqn:Hdb; intros [= <- <-].
    + split; [split; try done|by intros ? [= <-]; auto]. cbn. intros r' [= <-].
      exists r, (res_GPUs r). rewrite set_GPUs_id. auto.
    + split; [split; try done; congruence|done].
Qed.

Lemma GetFreeResources_spec d x d' :
  GetFreeResources d = (x, d') →
  same_books d d' ∧
  (∀ free, x = inl free → ∃ onb, onboardedResources d' = Some onb ∧
     ∃ f1, (∃ onb0, size onb0 = size onb ∧
       (onboardedResources d = Some onb0 ∨ onboardedResources d = None ∧ db_onboarded d = Some onb0) ∧
       Resources_Subtract onb0 (sumResources (allocations d)) = (f1, None)) ∧
     Resources_Subtract f1 (sumResources (committedResources d)) = (free, None)).
Proof.
  unfold GetFreeResources. destruct (GetOnboardedResources d) as [[onb|e] d1] eqn:Ho.
  2: { apply GetOnboardedResources_spec in Ho as [Hs _]. intros [= <- <-]. by split. }
  apply GetOnboardedResources_spec in Ho as [Hs Hr]. destruct (Hr onb eq_refl) as [Hc Hsrc].
  assert (∀ g, same_books d (set_onboarded d1 (set_GPUs onb g))) as Hsb.
  { intros g. destruct Hs as [H1 H2 H3 H4 H5]. split; cbn; try done. intros r' [= <-]. eauto. }
  unfold freeFrom, subtractShared, GetTotalAllocation. rewrite (sb_allocations _ _ Hs), (sb_committed _ _ Hs).
  destruct (Resources_Subtract onb (sumResources (allocations d))) as [f1 [e|]] eqn:H1.
  { intros [= <- <-]. by split. }
  destruct (Resources_Subtract f1 _) as [f2 [e|]] eqn:H2; intros [= <- <-]; (split; [apply (Hsb (res_GPUs f2))|]).
  { done. }
  intros free [= <-]. exists (set_GPUs onb (res_GPUs f2)). split; [done|]. exists f1.
  split; [|done]. exists onb. by rewrite ms_gpus.
Qed.

(** What the free resources amount to, when the books fit. *)
Lemma free_size d free d' :
  GetFreeResources d = (inl free, d') → books_valid d → fits d →
  ∃ onb, onboardedResources d' = Some onb ∧ res_valid onb ∧
    size free = (size onb - total (allocations d) - total (committedResources d))%Z ∧
    (0 ≤ size free)%Z.
Proof.
  intros Hf [Hc Ha Ho Hdb] Hfit. apply GetFreeResources_spec in Hf as [Hs Hf].
  destruct (Hf free eq_refl) as (onb & Honb & f1 & (onb0 & Hsz & Hsrc & H1) & H2).
  destruct (sb_cache _ _ Hs _ Honb) as (r & g & Hsrc' & ->).
  assert (res_valid r) as Hr by naive_solver.
  assert (res_valid onb0) as Hv0 by naive_solver. apply size_valid in Hv0 as Hu.
  pose proof (total_nonneg _ Hc). pose proof (total_nonneg _ Ha).
  unfold fits, is_u64 in *.
  apply (ms_sub _ Hms) in H1 as [L1 S1]. apply (ms_sub _ Hms) in H2 as [L2 S2].
  rewrite size_sumResources in *. rewrite (u64_small (total (allocations d))) in * by (unfold is_u64; lia).
  rewrite (u64_small (total (committedResources d))) in * by (unfold is_u64; lia).
  rewrite (u64_small (size onb0 - _)) in S1 by (unfold is_u64; lia).
  rewrite S1, u64_small in S2 by (unfold is_u64; lia).
  exists (set_GPUs r g). split_and!; [done|by destruct r|lia|lia].
Qed.

Lemma checkCapacity_spec d r x d' :
  checkCapacity d r = (x, d') → books_valid d → fits d → res_valid r →
  same_books d d' ∧
  (x = None → ∃ onb, onboardedResources d' = Some onb ∧
     (total (committedResources d) + total (allocations d) + size r ≤ size onb)%Z).
Proof.
  unfold checkCapacity. intros Hck Hbv Hfit Hr.
  destruct (GetFreeResources d) as [[free|e] d1] eqn:Hf.
  2: { injection Hck as <- <-. by apply GetFreeResources_spec in Hf as [? _]. }
  pose proof (free_size _ _ _ Hf Hbv Hfit) as (onb & Honb & Hvo & Hsz & Hpos).
  apply GetFreeResources_spec in Hf as [Hs _]. rewrite Honb in Hck. unfold subtractShared in Hck.
  destruct (sb_cache _ _ Hs _ Honb) as (r0 & g & Hsrc & ->).
  destruct (Resources_Subtract free r) as [f2 [e|]] eqn:H2; injection Hck as <- <-.
  - split; [|done]. destruct Hs as [S1 S2 S3 S4 S5]. split; cbn; try done. intros r' [= <-].
    exists r0, (res_GPUs f2). split; [done|by destruct r0].
  - split; [destruct Hs as [S1 S2 S3 S4 S5]; split; cbn; try done; intros r' [= <-];
      exists r0, (res_GPUs f2); split; [done|by destruct r0]|].
    intros _. exists (set_GPUs (set_GPUs r0 g) (res_GPUs f2)). split; [done|].
    apply (ms_sub _ Hms) in H2 as [L2 _]. rewrite !ms_gpus in * by done. lia.
Qed.

End totals.
End books.
