(* ===== verification/ResourceProps.v ===== *)
(** * Properties of the resource manager

    The claims about dms/resources: no over-commitment of RAM and disk, what the
    operations do to the books, and what sharing the GPU slice, updating the
    onboarded resources and interleaving allocation with commitment do. *)

From S2P Require Import Prelude GoNumbers Hardware ResourceManager ResourceSpec.

Section reachability.
  Context `{Visit : MapVisit}.

(** One completed call, with any answers of the database. *)
Inductive rm_step (d : Manager) : Manager → Prop :=
| rm_commit id r e d' : res_valid r → CommitResources d id r = (e, d') → rm_step d d'
| rm_uncommit id e d' : UncommitResources d id = (e, d') → rm_step d d'
| rm_allocate id ok e d' : AllocateResources d id ok = (e, d') → rm_step d d'
| rm_deallocate id ok e d' : DeallocateResources d id ok = (e, d') → rm_step d d'
| rm_free x d' : GetFreeResources d = (x, d') → rm_step d d'
| rm_onboarded x d' : GetOnboardedResources d = (x, d') → rm_step d d'
| rm_update r ok e d' : res_valid r → UpdateOnboardedResources d r ok = (e, d') → rm_step d d'.

Definition rm_reachable (d : Manager) : Prop :=
  ∃ onboarded stored, (∀ r, onboarded = Some r → res_valid r) ∧
    rtc rm_step (NewResourceManager onboarded stored) d.

Record rm_ok (d : Manager) : Prop := {
  rm_valid : books_valid d;
  rm_ram : fits ram_size d;
  rm_disk : fits disk_size d
}.

Lemma ram_u64 r : res_valid r → is_u64 (ram_size r).
Proof. by intros [? _]. Qed.
Lemma disk_u64 r : res_valid r → is_u64 (disk_size r).
Proof. by intros [_ ?]. Qed.

(** Subtracting leaves valid sizes. *)
Lemma Resources_Subtract_valid r o r' :
  Resources_Subtract r o = (r', None) → res_valid r'.
Proof.
  intros H. split.
  - destruct (ms_sub _ ram_measure _ _ _ H) as [_ ->]. apply u64_range.
  - destruct (ms_sub _ disk_measure _ _ _ H) as [_ ->]. apply u64_range.
Qed.

Lemma same_books_valid d d' : same_books d d' → books_valid d → books_valid d'.
Proof.
  intros [H1 H2 H3 _ H5] [V1 V2 V3 V4]. split; rewrite ?H1, ?H2, ?H3; try done.
  intros r (r0 & g & Hsrc & ->)%H5. assert (res_valid r0) as Hr0 by naive_solver. by destruct r0.
Qed.

Lemma same_books_ok d d' : same_books d d' → rm_ok d → rm_ok d'.
Proof.
  intros Hs [V F1 F2]. split; [by eapply same_books_valid|..]; unfold fits;
    by rewrite (sb_committed _ _ Hs), (sb_allocations _ _ Hs).
Qed.

(** A successful commitment, measured. *)
Lemma commit_spec size d id r d' :
  measure size → (∀ r, res_valid r → is_u64 (size r)) →
  CommitResources d id r = (None, d') → books_valid d → fits size d → res_valid r →
  committedResources d' = <[id := r]> (committedResources d) ∧ allocations d' = allocations d ∧
  ∃ onb, onboardedResources d' = Some onb ∧
    (total size (committedResources d') + total size (allocations d') ≤ size onb)%Z.
Proof.
  intros Hms Hsv Hc Hbv Hfit Hr. revert Hc. unfold CommitResources.
  case_bool_decide; [done|]. destruct (IsCommitted d id) eqn:Hic; [done|].
  apply bool_decide_eq_false, eq_None_not_Some in Hic.
  destruct (checkCapacity d r) as [[e|] d1] eqn:Hck; [done|]. intros [= <-]. cbn.
  destruct (checkCapacity_spec size Hms Hsv _ _ _ _ Hck Hbv Hfit Hr) as [Hs Hcap].
  destruct (Hcap eq_refl) as (onb & Honb & Hle).
  rewrite (sb_committed _ _ Hs), (sb_allocations _ _ Hs). split_and!; [done|done|].
  exists onb. split; [done|]. rewrite total_insert by done. lia.
Qed.

Lemma commit_error d id r e d' :
  CommitResources d id r = (Some e, d') → books_valid d → fits ram_size d → res_valid r → same_books d d'.
Proof.
  unfold CommitResources. intros Hc Hbv Hfit Hr. revert Hc.
  assert (same_books d d) as Hrefl.
  { split; try done. intros r' Hr'. exists r', (res_GPUs r'). rewrite set_GPUs_id. auto. }
  case_bool_decide; [by intros [= _ <-]|]. destruct (IsCommitted d id); [by intros [= _ <-]|].
  destruct (checkCapacity d r) as [[e'|] d1] eqn:Hck; [|done]. intros [= _ <-].
  by apply (checkCapacity_spec ram_size ram_measure ram_u64) in Hck as [Hs _].
Qed.

Lemma map_valid_insert m k r : map_valid m → res_valid r → map_valid (<[k := r]> m).
Proof. intros. by apply map_Forall_insert_2. Qed.
Lemma map_valid_delete m k : map_valid m → map_valid (delete k m).
Proof. apply map_Forall_delete. Qed.

(** Moving a commitment to the allocations keeps the totals. *)
Lemma allocate_total size d id r :
  committedResources d !! id = Some r → allocations d !! id = None →
  (total size (delete id (committedResources d)) + total size (<[id := r]> (allocations d)) =
   total size (committedResources d) + total size (allocations d))%Z.
Proof. intros Hc Ha. rewrite total_insert, (total_delete size _ _ _ Hc) by done. lia. Qed.

Lemma commit_ok d id r d' : CommitResources d id r = (None, d') → res_valid r → rm_ok d → rm_ok d'.
Proof.
  intros Hc Hr [Hbv F1 F2].
  pose proof (commit_spec _ _ _ _ _ ram_measure ram_u64 Hc Hbv F1 Hr) as (H1 & H2 & onb & Ho & L1).
  pose proof (commit_spec _ _ _ _ _ disk_measure disk_u64 Hc Hbv F2 Hr) as (_ & _ & onb' & Ho' & L2).
  rewrite Ho in Ho'. injection Ho' as <-.
  assert (same_books d (set_committed d' (committedResources d))) as Hs.
  { revert Hc. unfold CommitResources. case_bool_decide; [done|]. destruct (IsCommitted d id); [done|].
    destruct (checkCapacity d r) as [[e|] d1] eqn:Hck; [done|]. intros [= <-]. cbn.
    by apply (checkCapacity_spec ram_size ram_measure ram_u64) in Hck as [[S1 S2 S3 S4 S5] _]. }
  pose proof (same_books_valid _ _ Hs Hbv) as [V1 V2 V3 V4]. cbn in *.
  assert (res_valid onb) as [U1 U2] by auto. unfold is_u64 in *.
  split; [split; try done|unfold fits; lia|unfold fits; lia].
  rewrite H1. by apply map_valid_insert.
Qed.

Lemma step_rm_ok d d' : rm_step d d' → rm_ok d → rm_ok d'.
Proof.
  intros Hstep Hok. destruct Hok as [Hbv F1 F2] eqn:E. clear E.
  destruct Hstep as [id r e d' Hr Hc|id e d' Hu|id ok e d' Ha|id ok e d' Hd|x d' Hf|x d' Ho|r ok e d' Hr Hu].
  - destruct e as [e|]; [eapply same_books_ok; [by eapply commit_error|done]|by eapply commit_ok].
  - revert Hu. unfold UncommitResources. destruct (negb _); intros [= _ <-]; [done|].
    destruct Hbv as [V1 V2 V3 V4].
    pose proof (total_delete_le ram_size ram_u64 _ id V1). pose proof (total_delete_le disk_size disk_u64 _ id V1).
    split; [split; cbn; try done; by apply map_valid_delete|unfold fits in *; cbn; lia..].
  - revert Ha. unfold AllocateResources, storeAllocation. destruct (committedResources d !! id) as [r|] eqn:Hc;
      [|by intros [= _ <-]].
    destruct (IsAllocated d id) eqn:Hia; [by intros [= _ <-]|].
    apply bool_decide_eq_false, eq_None_not_Some in Hia.
    destruct (negb ok); intros [= _ <-]; [done|]. destruct Hbv as [V1 V2 V3 V4].
    split; [split; cbn; try done|unfold fits in *; cbn; rewrite allocate_total; done..].
    + by apply map_valid_delete.
    + apply map_valid_insert; [done|]. by eapply V1.
  - revert Hd. unfold DeallocateResources, deleteAllocation. destruct (negb _); [by intros [= _ <-]|].
    destruct (db_allocations d !! id); [|by intros [= _ <-]]. destruct (negb ok); intros [= _ <-]; [done|].
    destruct Hbv as [V1 V2 V3 V4].
    pose proof (total_delete_le ram_size ram_u64 _ id V2). pose proof (total_delete_le disk_size disk_u64 _ id V2).
    split; [split; cbn; try done; by apply map_valid_delete|unfold fits in *; cbn; lia..].
  - apply (GetFreeResources_spec ram_size ram_measure) in Hf as [Hs _]. by eapply same_books_ok.
  - apply GetOnboardedResources_spec in Ho as [Hs _]. by eapply same_books_ok.
  - revert Hu. unfold UpdateOnboardedResources.
    destruct (Resources_Subtract r _) as [r' [e'|]] eqn:Hsub; [by intros [= _ <-]|].
    destruct (negb ok); intros [= _ <-]; [done|]. apply Resources_Subtract_valid in Hsub.
    destruct Hbv as [V1 V2 V3 V4]. split; [split; cbn; naive_solver|done..].
Qed.

Lemma rm_reachable_ok d : rm_reachable d → rm_ok d.
Proof.
  intros (onb & stored & Hv & Hrun).
  assert (rm_ok (NewResourceManager onb stored)) as Hinit.
  { split; [split; cbn; [apply map_Forall_empty..|done|done]|unfold fits, total; cbn; rewrite map_fold_empty; lia..]. }
  induction Hrun as [|d1 d2 d3 H12 _ IH]; [done|]. by eapply IH, step_rm_ok.
Qed.

End reachability.

(** ** The ledger: what the operations mean *)

(** The abstract state: the committed and the allocated resources. *)
Abbreviation ledger := (gmap string Resources * gmap string Resources)%type (only parsing).

Definition books (d : Manager) : ledger := (committedResources d, allocations d).

Inductive ledger_op :=
| OpCommit (id : string) (r : Resources)
| OpUncommit (id : string)
| OpAllocate (id : string)
| OpDeallocate (id : string).

(** An identifier is committed, then moved to the allocations, then removed. *)
Inductive ledger_step : ledger → ledger_op → ledger → Prop :=
| ls_commit c a id r : id ≠ "" → c !! id = None → ledger_step (c, a) (OpCommit id r) (<[id := r]> c, a)
| ls_uncommit c a id r : c !! id = Some r → ledger_step (c, a) (OpUncommit id) (delete id c, a)
| ls_allocate c a id r : c !! id = Some r → a !! id = None →
    ledger_step (c, a) (OpAllocate id) (delete id c, <[id := r]> a)
| ls_deallocate c a id r : a !! id = Some r → ledger_step (c, a) (OpDeallocate id) (c, delete id a).

Section claims.
  Context `{Visit : MapVisit}.

(** The implementation of an operation; [ok] is the answer of the database. *)
Definition run (d : Manager) (op : ledger_op) (ok : bool) : option rm_error * Manager :=
  match op with
  | OpCommit id r => CommitResources d id r
  | OpUncommit id => UncommitResources d id
  | OpAllocate id => AllocateResources d id ok
  | OpDeallocate id => DeallocateResources d id ok
  end.

Definition op_valid (op : ledger_op) : Prop :=
  match op with OpCommit _ r => res_valid r | _ => True end.

(** C29: commitments never exceed the machine: in every reachable state of the
    manager, a successful [CommitResources] leaves the RAM and the disk of all
    commitments and allocations together within the onboarded resources. *)
Theorem commit_no_overcommit d id r d' :
  rm_reachable d → res_valid r → CommitResources d id r = (None, d') →
  ∃ onb, onboardedResources d' = Some onb ∧
    (total ram_size (committedResources d') + total ram_size (allocations d') ≤ ram_size onb)%Z ∧
    (total disk_size (committedResources d') + total disk_size (allocations d') ≤ disk_size onb)%Z.
Proof.
  intros [Hbv F1 F2]%rm_reachable_ok Hr Hc.
  destruct (commit_spec _ _ _ _ _ ram_measure ram_u64 Hc Hbv F1 Hr) as (_ & _ & onb & Ho & L1).
  destruct (commit_spec _ _ _ _ _ disk_measure disk_u64 Hc Hbv F2 Hr) as (_ & _ & onb' & Ho' & L2).
  rewrite Ho in Ho'. injection Ho' as <-. eauto.
Qed.

(** C31: the manager implements the ledger: every operation either succeeds and
    makes the transition of the abstract ledger, or fails and leaves the
    commitments and the allocations as they were. *)
Theorem manager_refines_ledger d op ok e d' :
  rm_reachable d → op_valid op → run d op ok = (e, d') →
  match e with
  | None => ledger_step (books d) op (books d')
  | Some _ => books d' = books d
  end.
Proof.
  intros Hreach Hv Hrun. unfold books. destruct op as [id r|id|id|id]; cbn in Hrun.
  - destruct (rm_reachable_ok _ Hreach) as [Hbv F1 F2]. destruct e as [e|].
    { apply commit_error in Hrun as [-> -> _ _ _]; done. }
    destruct (commit_spec _ _ _ _ _ ram_measure ram_u64 Hrun Hbv F1 Hv) as (-> & -> & _).
    revert Hrun. unfold CommitResources. case_bool_decide; [done|].
    destruct (IsCommitted d id) eqn:Hic; [done|]. intros _. constructor; [done|].
    by apply bool_decide_eq_false, eq_None_not_Some in Hic.
  - revert Hrun. unfold UncommitResources. destruct (IsCommitted d id) eqn:Hic; intros [= <- <-]; [|done].
    apply bool_decide_eq_true in Hic as [r Hr]. by eapply ls_uncommit.
  - revert Hrun. unfold AllocateResources, storeAllocation.
    destruct (committedResources d !! id) as [r|] eqn:Hc; [|by intros [= <- <-]].
    destruct (IsAllocated d id) eqn:Hia; [by intros [= <- <-]|].
    apply bool_decide_eq_false, eq_None_not_Some in Hia.
    destruct (negb ok); intros [= <- <-]; [done|]. by eapply ls_allocate.
  - revert Hrun. unfold DeallocateResources, deleteAllocation.
    destruct (IsAllocated d id) eqn:Hia; [|by intros [= <- <-]]. cbn [negb].
    destruct (db_allocations d !! id) as [rdb|]; [|by intros [= <- <-]].
    destruct (negb ok); intros [= <- <-]; [done|].
    apply bool_decide_eq_true in Hia as [r0 Hr0]. by eapply ls_deallocate.
Qed.

(** Updating the onboarded resources counts the allocations twice: the
    manager stores the given resources less the allocations, and
    [GetFreeResources] subtracts the allocations again, so right after an update
    the free RAM is the given RAM less the commitments and twice the
    allocations. *)
Theorem update_double_counts d r d' free d'' :
  rm_reachable d → res_valid r → UpdateOnboardedResources d r true = (None, d') →
  GetFreeResources d' = (inl free, d'') →
  ram_size free =
    (ram_size r - 2 * total ram_size (allocations d) - total ram_size (committedResources d))%Z.
Proof.
  intros Hreach Hr Hu Hf.
  assert (rm_ok d') as [Hbv F1 _].
  { eapply step_rm_ok; [by eapply rm_update|]. by apply rm_reachable_ok. }
  pose proof (rm_reachable_ok _ Hreach) as [[V1 V2 _ _] F0 _].
  revert Hu. unfold UpdateOnboardedResources.
  destruct (Resources_Subtract r _) as [r' [e|]] eqn:Hsub; [done|]. intros [= <-].
  pose proof (free_size _ ram_measure ram_u64 _ _ _ Hf Hbv F1) as (onb & Honb & _ & -> & _).
  apply (GetFreeResources_spec _ ram_measure) in Hf as [Hs _].
  destruct (sb_cache _ _ Hs _ Honb) as (r0 & g & Hsrc & ->). cbn in *.
  assert (r0 = r') as -> by naive_solver.
  rewrite (ms_gpus _ ram_measure). apply (ms_sub _ ram_measure) in Hsub as [L ->].
  unfold GetTotalAllocation in *. rewrite (size_sumResources _ ram_measure) in *.
  pose proof (total_nonneg _ ram_u64 _ V1). pose proof (total_nonneg _ ram_u64 _ V2).
  apply ram_u64 in Hr. unfold fits, is_u64 in *.
  rewrite (u64_small (total ram_size (allocations d))) in * by (unfold is_u64; lia).
  rewrite u64_small by (unfold is_u64; lia). lia.
Qed.

End claims.

(** ** Concrete states *)

#[local] Instance visit_in_order : MapVisit := {| visit A l := l; visit_perm A l := reflexivity l |}.

(** Resources without CPU: RAM, disk and GPUs. *)
Definition machine (ram disk : Z) (gpus : list GPU) : Resources :=
  mkResources (res_CPU Resources_zero) gpus (mkRAM ram 0) (mkDisk disk).

Definition sample_manager : Manager := NewResourceManager (Some (machine 10 10 [gpu 0 8])) ∅.
Definition sample_committed : Manager := (CommitResources sample_manager "A" (machine 6 6 [])).2.

Lemma machine_valid ram disk gpus : is_u64 ram → is_u64 disk → res_valid (machine ram disk gpus).
Proof. by split. Qed.

Lemma sample_manager_reachable d : rtc rm_step sample_manager d → rm_reachable d.
Proof.
  intros Hrun. exists (Some (machine 10 10 [gpu 0 8])), ∅. split; [|done].
  intros r [= <-]. by apply machine_valid; unfold is_u64.
Qed.

Lemma sample_committed_reachable : rm_reachable sample_committed.
Proof.
  apply sample_manager_reachable, rtc_once, (rm_commit _ "A" (machine 6 6 []) None).
  - by apply machine_valid; unfold is_u64.
  - vm_compute. reflexivity.
Qed.

Lemma commit_no_overcommit_witness :
  ∃ onb, onboardedResources (CommitResources sample_committed "B" (machine 4 4 [])).2 = Some onb ∧
    (total ram_size (committedResources (CommitResources sample_committed "B" (machine 4 4 [])).2) +
     total ram_size (allocations (CommitResources sample_committed "B" (machine 4 4 [])).2) ≤ ram_size onb)%Z ∧
    (total disk_size (committedResources (CommitResources sample_committed "B" (machine 4 4 [])).2) +
     total disk_size (allocations (CommitResources sample_committed "B" (machine 4 4 [])).2) ≤ disk_size onb)%Z.
Proof.
  eapply (commit_no_overcommit sample_committed "B" (machine 4 4 [])).
  - apply sample_committed_reachable.
  - by apply machine_valid; unfold is_u64.
  - vm_compute. reflexivity.
Defined.

Lemma manager_refines_ledger_witness :
  ledger_step (books sample_committed) (OpAllocate "A") (books (AllocateResources sample_committed "A" true).2).
Proof.
  apply (manager_refines_ledger sample_committed (OpAllocate "A") true None).
  - apply sample_committed_reachable.
  - exact I.
  - vm_compute. reflexivity.
Defined.

Definition sample_allocated : Manager := (AllocateResources sample_committed "A" true).2.

Lemma update_double_counts_witness :
  ∃ d' free d'', UpdateOnboardedResources sample_allocated (machine 20 20 []) true = (None, d') ∧
    GetFreeResources d' = (inl free, d'') ∧ ram_size free = 8%Z.
Proof.
  eexists _, _, _. split; [vm_compute; reflexivity|]. split; [vm_compute; reflexivity|].
  eapply eq_trans; [eapply (update_double_counts sample_allocated (machine 20 20 []))|].
  - eapply sample_manager_reachable, rtc_l; [eapply (rm_commit _ "A" (machine 6 6 []) None)|].
    + by apply machine_valid; unfold is_u64.
    + vm_compute. reflexivity.
    + apply rtc_once, (rm_allocate _ "A" true None). vm_compute. reflexivity.
  - by apply machine_valid; unfold is_u64.
  - vm_compute. reflexivity.
  - vm_compute. reflexivity.
  - vm_compute. reflexivity.
Defined.

(** Reading the free resources consumes GPUs: the value computed with shares
    its GPU slice with the cached onboarded resources, so with an allocation of 4
    on a GPU of 8 three readings in a row give 4, 0 and an underflow. *)
Theorem GetFreeResources_drains_GPUs :
  let d0 := mkManager (Some (machine 10 10 [gpu 0 8])) ∅ {[ "A" := machine 0 0 [gpu 0 4] ]} None ∅ in
  let '(f1, d1) := GetFreeResources d0 in
  let '(f2, d2) := GetFreeResources d1 in
  let '(f3, d3) := GetFreeResources d2 in
  f1 = inl (machine 10 10 [gpu 0 4]) ∧ f2 = inl (machine 10 10 [gpu 0 0]) ∧
  f3 = inr (ErrHardware ErrUnderflow) ∧ onboardedResources d3 = Some (machine 10 10 [gpu 0 0]).
Proof. vm_compute. auto. Qed.

(** Allocating while another commitment is being checked over-commits: the
    check reads the allocations before and the commitments after
    [AllocateResources] moved "A" from one to the other, so it misses "A" and
    12 of 10 units of RAM end up promised. *)
Theorem commit_races_with_allocate :
  let '(total0, d1) := (GetTotalAllocation sample_committed, (AllocateResources sample_committed "A" true).2) in
  ∃ onb free d2,
    GetOnboardedResources sample_committed = (inl onb, sample_committed) ∧
    freeFrom d1 onb total0 (sumResources (committedResources d1)) = (inl free, d2) ∧
    (Resources_Subtract free (machine 6 6 [])).2 = None ∧
    let d3 := set_committed d2 (<["B" := machine 6 6 []]> (committedResources d2)) in
    (ram_size onb < total ram_size (committedResources d3) + total ram_size (allocations d3))%Z.
Proof.
  eexists _, _, _. split; [vm_compute; reflexivity|]. split; [vm_compute; reflexivity|].
  split; vm_compute; reflexivity.
Qed.
