(* ===== verification/Ports.v ===== *)
(** * The port allocator (portAllocator of dms/node/allocator.go)

    The ports of the machine handed out to allocations: which ports each allocation
    holds and which ports are reserved.  Whether the system has a port free
    ([netutils.IsFreePort]) is an argument: a loop of the code asks about every
    port at most once, so one function of the port stands for the answers given
    during one loop, and loops that ask again take another function. *)

From S2P Require Import Prelude.

Record PortConfig := mkPortConfig {
  AvailableRangeFrom : Z;
  AvailableRangeTo : Z
}.

Record portAllocator := mkPortAllocator {
  pa_config : PortConfig;
  pa_allocations : gmap string (list Z);
  pa_reserved : gset Z
}.

Inductive port_error :=
| ErrPortOutsideRange
| ErrPortReserved
| ErrPortNotFree
| ErrNoPortsRequested
| ErrTooFewPorts
| ErrPortAllocationNotFound.

#[export] Instance port_error_eq_dec : EqDecision port_error.
Proof. solve_decision. Defined.

Definition set_reserved (pa : portAllocator) (r : gset Z) : portAllocator :=
  mkPortAllocator (pa_config pa) (pa_allocations pa) r.
Definition set_pa_allocations (pa : portAllocator) (m : gmap string (list Z)) : portAllocator :=
  mkPortAllocator (pa_config pa) m (pa_reserved pa).

Definition newPortAllocator (config : PortConfig) : portAllocator := mkPortAllocator config ∅ ∅.

(** [allocate]: the helper that reserves one port. *)
Definition portAllocator_allocate (free : Z → bool) (pa : portAllocator) (port : Z)
    : option port_error * portAllocator :=
  if (port <? AvailableRangeFrom (pa_config pa))%Z || (AvailableRangeTo (pa_config pa) <? port)%Z
  then (Some ErrPortOutsideRange, pa)
  else if bool_decide (port ∈ pa_reserved pa) then (Some ErrPortReserved, pa)
  else if negb (free port) then (Some ErrPortNotFree, pa)
  else (None, set_reserved pa ({[port]} ∪ pa_reserved pa)).

(** [release]: the helper that gives ports back. *)
Fixpoint portAllocator_release (pa : portAllocator) (ports : list Z) : portAllocator :=
  match ports with
  | [] => pa
  | p :: ports =>
      if negb (bool_decide (p ∈ pa_reserved pa)) then portAllocator_release pa ports
      else portAllocator_release (set_reserved pa (pa_reserved pa ∖ {[p]})) ports
  end.

(** The loop over the ports, up to the first one that cannot be reserved. *)
Fixpoint allocateLoop (free : Z → bool) (pa : portAllocator) (ports : list Z)
    : option port_error * portAllocator :=
  match ports with
  | [] => (None, pa)
  | port :: ports =>
      match portAllocator_allocate free pa port with
      | (Some e, pa) => (Some e, pa)
      | (None, pa) => allocateLoop free pa ports
      end
  end.

(** [Allocate]: on an error all requested ports are released. *)
Definition portAllocator_Allocate (free : Z → bool) (pa : portAllocator) (allocationID : string)
    (ports : list Z) : option port_error * portAllocator :=
  if (length ports =? 0)%nat then (None, pa)
  else match allocateLoop free pa ports with
  | (Some e, pa) => (Some e, portAllocator_release pa ports)
  | (None, pa) => (None, set_pa_allocations pa (<[allocationID := ports]> (pa_allocations pa)))
  end.

(** The loop of [getAvailablePorts] over the range, [steps] ports from [port] on. *)
Fixpoint availableLoop (free : Z → bool) (reserved : gset Z) (numPorts : Z) (steps : nat) (port : Z)
    (ports : list Z) : list Z :=
  match steps with
  | O => ports
  | S steps =>
      if negb (Z.of_nat (length ports) <? numPorts)%Z then ports
      else if bool_decide (port ∈ reserved) then
        availableLoop free reserved numPorts steps (port + 1) ports
      else if free port then availableLoop free reserved numPorts steps (port + 1) (ports ++ [port])
      else availableLoop free reserved numPorts steps (port + 1) ports
  end.

(** The number of ports of the range; the loop makes at most that many rounds. *)
Definition rangeSize (c : PortConfig) : nat := Z.to_nat (AvailableRangeTo c - AvailableRangeFrom c + 1).

(** [make] panics on a negative capacity. *)
Definition getAvailablePorts (free : Z → bool) (pa : portAllocator) (numPorts : Z)
    : outcome port_error (list Z) :=
  if (numPorts <? 0)%Z then Panic
  else Ok (availableLoop free (pa_reserved pa) numPorts (rangeSize (pa_config pa))
             (AvailableRangeFrom (pa_config pa)) []).

(** [AllocateRandom]: [scan] answers while the ports are looked for, [free] while
    they are reserved. *)
Definition portAllocator_AllocateRandom (scan free : Z → bool) (pa : portAllocator)
    (allocationID : string) (numPorts : Z) : outcome port_error (list Z) * portAllocator :=
  if (numPorts =? 0)%Z then (Err ErrNoPortsRequested, pa)
  else match getAvailablePorts scan pa numPorts with
  | Panic => (Panic, pa)
  | Err e => (Err e, pa)
  | Ok portsToAllocate =>
      if negb (Z.of_nat (length portsToAllocate) =? numPorts)%Z then
        (Err ErrTooFewPorts, portAllocator_release pa portsToAllocate)
      else match allocateLoop free pa portsToAllocate with
      | (Some e, pa) => (Err e, portAllocator_release pa portsToAllocate)
      | (None, pa) =>
          (Ok portsToAllocate,
           set_pa_allocations pa (<[allocationID := portsToAllocate]> (pa_allocations pa)))
      end
  end.

Definition portAllocator_Release (pa : portAllocator) (allocationID : string) : portAllocator :=
  match pa_allocations pa !! allocationID with
  | None => pa
  | Some allocated =>
      let pa := portAllocator_release pa allocated in
      set_pa_allocations pa (delete allocationID (pa_allocations pa))
  end.

Definition portAllocator_GetAllocation (pa : portAllocator) (allocationID : string)
    : outcome port_error (list Z) :=
  match pa_allocations pa !! allocationID with
  | None => Err ErrPortAllocationNotFound
  | Some ports => Ok ports
  end.

Fixpoint isAllocated (pa : portAllocator) (ports : list Z) : bool :=
  match ports with
  | [] => false
  | port :: ports => if bool_decide (port ∈ pa_reserved pa) then true else isAllocated pa ports
  end.

Definition portsAvailable (free : Z → bool) (pa : portAllocator) (numPorts : Z)
    : outcome port_error bool :=
  match getAvailablePorts free pa numPorts with
  | Ok ports => Ok (Z.of_nat (length ports) =? numPorts)%Z
  | Err e => Err e
  | Panic => Panic
  end.

(** ** What the port allocator promises

    Each operation as a set operation on the reserved ports, the search for free
    ports as a filter of the range, and the invariant of allocations that do not
    share ports. *)

(** ** Reference definitions *)

Definition in_range (c : PortConfig) (p : Z) : Prop := (AvailableRangeFrom c ≤ p ≤ AvailableRangeTo c)%Z.

(** A port that can be reserved. *)
Definition usable (free : Z → bool) (pa : portAllocator) (p : Z) : Prop :=
  in_range (pa_config pa) p ∧ p ∉ pa_reserved pa ∧ free p = true.

#[export] Instance in_range_dec c p : Decision (in_range c p).
Proof. unfold in_range. solve_decision. Defined.
#[export] Instance usable_dec free pa p : Decision (usable free pa p).
Proof. unfold usable. solve_decision. Defined.

(** All usable ports, in order. *)
Definition usable_ports (free : Z → bool) (pa : portAllocator) : list Z :=
  filter (usable free pa) (seqZ (AvailableRangeFrom (pa_config pa)) (Z.of_nat (rangeSize (pa_config pa)))).

(** ** The operations *)

Lemma set_reserved_id pa : set_reserved pa (pa_reserved pa) = pa.
Proof. by destruct pa. Qed.

Lemma release_spec pa ports :
  portAllocator_release pa ports = set_reserved pa (pa_reserved pa ∖ list_to_set ports).
Proof.
  revert pa. induction ports as [|p ports IH]; intros pa; simpl.
  - rewrite difference_empty_L. symmetry. apply set_reserved_id.
  - case_bool_decide as Hp; simpl; rewrite IH; unfold set_reserved; simpl; f_equal; set_solver.
Qed.

Lemma allocate_ok free pa p pa' :
  portAllocator_allocate free pa p = (None, pa') ↔
  usable free pa p ∧ pa' = set_reserved pa ({[p]} ∪ pa_reserved pa).
Proof.
  unfold portAllocator_allocate, usable, in_range.
  destruct (Z.ltb_spec p (AvailableRangeFrom (pa_config pa))),
    (Z.ltb_spec (AvailableRangeTo (pa_config pa)) p); simpl; try (split; [done|lia]).
  case_bool_decide; [naive_solver|]. destruct (free p); simpl; [|naive_solver].
  split; [intros [= <-]; split; [split; [lia|done]|done]|by intros [_ ->]].
Qed.

Lemma allocate_err free pa p e pa' : portAllocator_allocate free pa p = (Some e, pa') → pa' = pa.
Proof.
  unfold portAllocator_allocate. destruct (_ || _); [by intros [= _ <-]|].
  case_bool_decide; [by intros [= _ <-]|]. destruct (negb _); [by intros [= _ <-]|done].
Qed.

Lemma usable_reserve free pa p q :
  usable free (set_reserved pa ({[p]} ∪ pa_reserved pa)) q ↔ usable free pa q ∧ q ≠ p.
Proof. unfold usable. simpl. set_solver. Qed.

Lemma allocateLoop_ok free pa ports pa' :
  allocateLoop free pa ports = (None, pa') ↔
  NoDup ports ∧ Forall (usable free pa) ports ∧
  pa' = set_reserved pa (list_to_set ports ∪ pa_reserved pa).
Proof.
  revert pa. induction ports as [|p ports IH]; intros pa; simpl.
  - rewrite union_empty_l_L, set_reserved_id. split; [|naive_solver].
    intros [= <-]. split_and!; [apply NoDup_nil_2|done|done].
  - destruct (portAllocator_allocate free pa p) as [[e|] pa1] eqn:Ha.
    + split; [done|]. rewrite Forall_cons. intros (_ & [Hp _] & _).
      destruct (allocate_ok free pa p (set_reserved pa ({[p]} ∪ pa_reserved pa))) as [_ H].
      rewrite H in Ha by done. done.
    + apply allocate_ok in Ha as [Hp ->]. rewrite IH, NoDup_cons, Forall_cons.
      assert (Forall (usable free (set_reserved pa ({[p]} ∪ pa_reserved pa))) ports ↔
        Forall (usable free pa) ports ∧ p ∉ ports) as ->.
      { rewrite !Forall_forall. setoid_rewrite usable_reserve. naive_solver. }
      simpl.
      assert (list_to_set ports ∪ ({[p]} ∪ pa_reserved pa) = {[p]} ∪ list_to_set ports ∪ pa_reserved pa)
        as -> by set_solver.
      naive_solver.
Qed.

(** A failed loop has reserved some of the ports, none of them reserved before. *)
Lemma allocateLoop_err free pa ports e pa' :
  allocateLoop free pa ports = (Some e, pa') →
  ∃ done rest, ports = done ++ rest ∧ Forall (usable free pa) done ∧
    pa' = set_reserved pa (list_to_set done ∪ pa_reserved pa).
Proof.
  revert pa. induction ports as [|p ports IH]; intros pa; simpl; [done|].
  destruct (portAllocator_allocate free pa p) as [[e'|] pa1] eqn:Ha.
  - intros [= _ <-]. apply allocate_err in Ha as ->. exists [], (p :: ports). simpl.
    by rewrite union_empty_l_L, set_reserved_id.
  - apply allocate_ok in Ha as [Hp ->]. intros (done & rest & -> & Hd & ->)%IH.
    exists (p :: done), rest. split_and!; [done|constructor; [done|]|].
    + eapply Forall_impl; [done|]. by intros q [? _]%usable_reserve.
    + unfold set_reserved. simpl. f_equal. set_solver.
Qed.

Lemma Allocate_ok free pa id ports pa' :
  portAllocator_Allocate free pa id ports = (None, pa') ↔
  ports = [] ∧ pa' = pa ∨
  ports ≠ [] ∧ NoDup ports ∧ Forall (usable free pa) ports ∧
    pa' = mkPortAllocator (pa_config pa) (<[id := ports]> (pa_allocations pa))
            (list_to_set ports ∪ pa_reserved pa).
Proof.
  unfold portAllocator_Allocate. destruct (Nat.eqb_spec (length ports) 0) as [->%nil_length_inv|Hne].
  { naive_solver. }
  assert (ports ≠ []) by by intros ->.
  destruct (allocateLoop free pa ports) as [[e|] pa1] eqn:Hl.
  - split; [done|]. intros [[? _]|(_ & Hn & Hf & _)]; [done|].
    assert (allocateLoop free pa ports = (None, set_reserved pa (list_to_set ports ∪ pa_reserved pa)))
      as H' by by apply allocateLoop_ok.
    by rewrite H' in Hl.
  - apply allocateLoop_ok in Hl as (Hn & Hf & ->). split; [intros [= <-]; right; done|].
    intros [[? _]|(_ & _ & _ & ->)]; done.
Qed.

Lemma Allocate_err free pa id ports e pa' :
  portAllocator_Allocate free pa id ports = (Some e, pa') →
  pa' = set_reserved pa (pa_reserved pa ∖ list_to_set ports).
Proof.
  unfold portAllocator_Allocate. destruct (_ =? 0)%nat; [done|].
  destruct (allocateLoop free pa ports) as [[e'|] pa1] eqn:Hl; [|done]. intros [= _ <-].
  apply allocateLoop_err in Hl as (done & rest & -> & _ & ->). rewrite release_spec.
  unfold set_reserved. simpl. f_equal. set_solver.
Qed.

Lemma isAllocated_false pa ports : isAllocated pa ports = false ↔ ∀ p, p ∈ ports → p ∉ pa_reserved pa.
Proof.
  induction ports as [|p ports IH]; simpl; [set_solver|].
  case_bool_decide; [split; [done|set_solver]|]. rewrite IH. set_solver.
Qed.

(** A failed request for ports that are not reserved changes nothing. *)
Lemma Allocate_err_id free pa id ports e pa' :
  isAllocated pa ports = false → portAllocator_Allocate free pa id ports = (Some e, pa') → pa' = pa.
Proof.
  rewrite isAllocated_false. intros Hf ->%Allocate_err.
  assert (pa_reserved pa ∖ list_to_set ports = pa_reserved pa) as -> by set_solver.
  apply set_reserved_id.
Qed.

(** ** Looking for ports *)

Lemma availableLoop_spec free pa n steps port acc :
  (0 ≤ n)%Z → (Z.of_nat (length acc) ≤ n)%Z →
  (AvailableRangeFrom (pa_config pa) ≤ port)%Z →
  (port + Z.of_nat steps ≤ AvailableRangeTo (pa_config pa) + 1)%Z →
  availableLoop free (pa_reserved pa) n steps port acc =
  take (Z.to_nat n) (acc ++ filter (usable free pa) (seqZ port (Z.of_nat steps))).
Proof.
  intros Hn. revert port acc. induction steps as [|steps IH]; intros port acc Hacc Hlo Hhi; simpl.
  - rewrite app_nil_r, take_ge by lia. done.
  - destruct (Z.ltb_spec (Z.of_nat (length acc)) n); simpl.
    2:{ rewrite take_app_le, take_ge by lia. done. }
    rewrite seqZ_cons by lia. rewrite filter_cons. unfold Z.succ.
    replace (Z.pred (Z.of_nat (S steps))) with (Z.of_nat steps) by lia.
    assert (in_range (pa_config pa) port) by (unfold in_range; lia).
    case_bool_decide as Hres; [|destruct (free port) eqn:Hfree].
    + rewrite decide_False by (unfold usable; naive_solver). apply IH; lia.
    + rewrite decide_True by done. rewrite IH by (rewrite ?length_app; simpl; lia).
      by rewrite <- app_assoc.
    + rewrite decide_False by (unfold usable; naive_solver congruence). apply IH; lia.
Qed.

(** The search finds the first usable ports. *)
Lemma getAvailablePorts_spec free pa n :
  (0 ≤ n)%Z → getAvailablePorts free pa n = Ok (take (Z.to_nat n) (usable_ports free pa)).
Proof.
  intros Hn. unfold getAvailablePorts. destruct (Z.ltb_spec n 0); [lia|]. f_equal.
  destruct (Z_le_dec (AvailableRangeFrom (pa_config pa)) (AvailableRangeTo (pa_config pa) + 1)).
  - rewrite availableLoop_spec; [done|simpl; unfold rangeSize; lia..].
  - unfold usable_ports, rangeSize. replace (Z.to_nat _) with 0%nat by lia. rewrite seqZ_nil by lia. by destruct (Z.to_nat n).
Qed.

Lemma usable_ports_NoDup free pa : NoDup (usable_ports free pa).
Proof. apply NoDup_filter, NoDup_seqZ. Qed.

Lemma usable_ports_elem free pa p : p ∈ usable_ports free pa ↔ usable free pa p.
Proof.
  unfold usable_ports. rewrite list_elem_of_filter, elem_of_seqZ. unfold usable, in_range, rangeSize.
  split; [naive_solver|]. intros H. split; [done|lia].
Qed.

Lemma take_usable free pa n p : p ∈ take n (usable_ports free pa) → usable free pa p.
Proof. intros H. apply usable_ports_elem. by eapply (subseteq_take n). Qed.

(** ** Dynamic ports *)

Lemma AllocateRandom_spec scan free pa id n :
  (0 < n)%Z →
  let l := take (Z.to_nat n) (usable_ports scan pa) in
  portAllocator_AllocateRandom scan free pa id n =
  (if decide (length l = Z.to_nat n ∧ Forall (λ p, free p = true) l) then
     (Ok l, mkPortAllocator (pa_config pa) (<[id := l]> (pa_allocations pa)) (list_to_set l ∪ pa_reserved pa))
   else ((portAllocator_AllocateRandom scan free pa id n).1, pa)).
Proof.
  intros Hn l. unfold portAllocator_AllocateRandom. destruct (Z.eqb_spec n 0); [lia|].
  rewrite getAvailablePorts_spec by lia. fold l.
  assert (∀ p, p ∈ l → usable scan pa p) as Hl by (intros p; apply take_usable).
  assert (NoDup l) as Hnd by (eapply sublist_NoDup; [apply usable_ports_NoDup|apply sublist_take]).
  assert (∀ p, p ∈ l → p ∉ pa_reserved pa) as Hdis by (unfold usable in Hl; naive_solver).
  clearbody l.
  destruct (Z.eqb_spec (Z.of_nat (length l)) n) as [Hlen|Hlen]; simpl.
  2:{ rewrite decide_False by lia. rewrite release_spec.
      assert (pa_reserved pa ∖ list_to_set l = pa_reserved pa) as -> by set_solver.
      by rewrite set_reserved_id. }
  destruct (allocateLoop free pa l) as [[e|] pa1] eqn:Hloop; simpl.
  - assert (portAllocator_release pa1 l = pa) as ->.
    { apply allocateLoop_err in Hloop as (done & rest & Heq & _ & ->). rewrite release_spec.
      transitivity (set_reserved pa (pa_reserved pa)); [|apply set_reserved_id].
      unfold set_reserved. simpl. f_equal. subst l. set_solver. }
    rewrite decide_False; [done|]. intros [_ Hfree].
    assert (allocateLoop free pa l = (None, set_reserved pa (list_to_set l ∪ pa_reserved pa))) as H'.
    { apply allocateLoop_ok. rewrite Forall_forall in *. split_and!; [done| |done].
      intros p Hp. destruct (Hl p Hp) as (? & ? & _). by split_and!; auto. }
    by rewrite H' in Hloop.
  - apply allocateLoop_ok in Hloop as (_ & Hf & ->). rewrite decide_True; [done|]. split; [lia|].
    eapply Forall_impl; [done|]. by intros p (_ & _ & ?).
Qed.

(** ** Exclusive ports *)

(** Every reserved port is in the range, and what an allocation holds is reserved, listed once
    and held by no other one.  A reserved port need not be held: what an allocation held is
    forgotten, and not released, when ports are allocated for it again. *)
Record ports_ok (pa : portAllocator) : Prop := {
  po_range p : p ∈ pa_reserved pa → in_range (pa_config pa) p;
  po_held id l p : pa_allocations pa !! id = Some l → p ∈ l → p ∈ pa_reserved pa;
  po_nodup id l : pa_allocations pa !! id = Some l → NoDup l;
  po_disjoint id id' l l' p :
    pa_allocations pa !! id = Some l → pa_allocations pa !! id' = Some l' → p ∈ l → p ∈ l' → id = id'
}.

Lemma ports_ok_new c : ports_ok (newPortAllocator c).
Proof. split; simpl; set_solver. Qed.

(** Giving usable ports to an allocation, which may hold others, keeps the ports exclusive. *)
Lemma ports_ok_assign free pa id ports :
  ports_ok pa → NoDup ports → Forall (usable free pa) ports →
  ports_ok (mkPortAllocator (pa_config pa) (<[id := ports]> (pa_allocations pa))
              (list_to_set ports ∪ pa_reserved pa)).
Proof.
  intros [R O N D] Hn Hu. rewrite Forall_forall in Hu. unfold usable in Hu. split; simpl.
  - intros p [Hp%elem_of_list_to_set|Hp]%elem_of_union; [by apply Hu|by apply R].
  - intros id' l p [[-> <-]|[_ Hl]]%lookup_insert_Some Hp; rewrite elem_of_union, elem_of_list_to_set; eauto.
  - intros id' l [[-> <-]|[_ Hl]]%lookup_insert_Some; eauto.
  - intros i i' l l' p [[<- <-]|[? Hl]]%lookup_insert_Some [[<- <-]|[? Hl']]%lookup_insert_Some Hp Hp'; eauto;
      exfalso; [apply (Hu p Hp)|apply (Hu p Hp')]; eauto.
Qed.

Lemma ports_ok_Release pa id : ports_ok pa → ports_ok (portAllocator_Release pa id).
Proof.
  intros Hok. unfold portAllocator_Release. destruct (pa_allocations pa !! id) as [l|] eqn:Hl; [|done].
  rewrite release_spec. destruct Hok as [R O N D]. split; simpl.
  - intros p [Hp _]%elem_of_difference. by apply R.
  - intros id' l' p [Hne Hl']%lookup_delete_Some Hp. rewrite elem_of_difference, elem_of_list_to_set. split; [eauto|].
    intros Hp'. by eapply Hne, D.
  - intros id' l' [_ Hl']%lookup_delete_Some. eauto.
  - intros i i' l1 l2 p [_ H1]%lookup_delete_Some [_ H2]%lookup_delete_Some. eauto.
Qed.

(** Releasing what was just given out is the identity. *)
Lemma Release_assign free pa id ports :
  pa_allocations pa !! id = None → Forall (usable free pa) ports →
  portAllocator_Release (mkPortAllocator (pa_config pa) (<[id := ports]> (pa_allocations pa))
              (list_to_set ports ∪ pa_reserved pa)) id = pa.
Proof.
  intros Hid Hu. rewrite Forall_forall in Hu. unfold portAllocator_Release. simpl.
  rewrite lookup_insert_eq, release_spec. destruct pa as [c m r]. unfold set_pa_allocations. simpl in *.
  rewrite delete_insert_id by done. f_equal. unfold usable in Hu. set_solver.
Qed.

(** Calls for any allocation, whether it holds ports or not; the ports that are named are not
    reserved at the time. *)
Inductive port_step (pa : portAllocator) : portAllocator → Prop :=
| ps_allocate free id ports :
    isAllocated pa ports = false → port_step pa (portAllocator_Allocate free pa id ports).2
| ps_random scan free id n : port_step pa (portAllocator_AllocateRandom scan free pa id n).2
| ps_release id : port_step pa (portAllocator_Release pa id).

Definition ports_reachable (pa : portAllocator) : Prop :=
  ∃ c, rtc port_step (newPortAllocator c) pa.

(** [AllocateRandom] changes nothing or gives usable ports. *)
Lemma AllocateRandom_cases scan free pa id n r pa' :
  portAllocator_AllocateRandom scan free pa id n = (r, pa') →
  pa' = pa ∧ (∀ l, r ≠ Ok l) ∨
  ∃ l, r = Ok l ∧ Z.of_nat (length l) = n ∧ NoDup l ∧ Forall (usable free pa) l ∧
    pa' = mkPortAllocator (pa_config pa) (<[id := l]> (pa_allocations pa)) (list_to_set l ∪ pa_reserved pa).
Proof.
  destruct (Z_lt_dec 0 n) as [Hn|Hn].
  - rewrite AllocateRandom_spec by done. case_decide as Hd.
    + intros [= <- <-]. right. eexists. destruct Hd as [Hlen Hf].
      split_and!; [done|lia|eapply sublist_NoDup; [apply usable_ports_NoDup|apply sublist_take]| |done].
      rewrite Forall_forall in *. intros p Hp. pose proof (take_usable _ _ _ _ Hp) as (? & ? & _).
      split_and!; auto.
    + intros [= <- <-]. left. split; [done|]. intros l Hl. apply Hd. clear Hd. revert Hl.
      unfold portAllocator_AllocateRandom. destruct (Z.eqb_spec n 0); [lia|].
      rewrite getAvailablePorts_spec by lia. set (l0 := take (Z.to_nat n) (usable_ports scan pa)).
      destruct (Z.eqb_spec (Z.of_nat (length l0)) n); [|done]. simpl.
      destruct (allocateLoop free pa l0) as [[e'|] pa1] eqn:Hl; [done|]. intros _.
      apply allocateLoop_ok in Hl as (_ & Hf & _). split; [lia|].
      eapply Forall_impl; [done|]. by intros p (_ & _ & ?).
  - unfold portAllocator_AllocateRandom, getAvailablePorts.
    destruct (Z.eqb_spec n 0); [by intros [= <- <-]; left|].
    destruct (Z.ltb_spec n 0); [by intros [= <- <-]; left|lia].
Qed.

Lemma step_ports_ok pa pa' : port_step pa pa' → ports_ok pa → ports_ok pa'.
Proof.
  intros [free id ports Hf|scan free id n|id] Hok; [..|by apply ports_ok_Release].
  - destruct (portAllocator_Allocate free pa id ports) as [[e|] pa1] eqn:Ha; simpl.
    + by apply Allocate_err_id in Ha as ->.
    + apply Allocate_ok in Ha as [[_ ->]|(_ & Hn & Hu & ->)]; [done|]. by eapply ports_ok_assign.
  - destruct (portAllocator_AllocateRandom scan free pa id n) as [r pa1] eqn:Ha; simpl.
    apply AllocateRandom_cases in Ha as [[-> _]|(l & _ & _ & Hn & Hu & ->)]; [done|].
    by eapply ports_ok_assign.
Qed.

Lemma ports_reachable_ok pa : ports_reachable pa → ports_ok pa.
Proof.
  intros [c Hrun]. assert (ports_ok (newPortAllocator c)) as Hinit by apply ports_ok_new.
  induction Hrun as [|pa1 pa2 pa3 H12 _ IH]; [done|]. by eapply IH, step_ports_ok.
Qed.
