(* ===== verification/Allocation.v ===== *)
(** * Allocations (dms/jobs/allocation.go, dms/jobs/behaviors_allocation.go)

    The life cycle of one allocation: its status, its actor, the execution behind
    it, its liveness reporter and the contract events it pushes.  An operation is a
    state transformer that also lists what it did to the outside, in order.  The
    answers of the executor, of the file system, of the actor and of the contract
    store are arguments.

    Fields that the code only passes on to the executor (engine specification,
    provision scripts, keys) are left out. *)

From S2P Require Import Prelude Hardware ResourceManager.

Inductive AllocationStatus :=
| AllocationPending
| AllocationRunning
| AllocationRestarting
| AllocationStopped
| AllocationFailed
| AllocationCompleted
| AllocationTerminated
| AllocationStandby.

#[export] Instance AllocationStatus_eq_dec : EqDecision AllocationStatus.
Proof. solve_decision. Defined.

Inductive ExecutionStatus :=
| ExecutionStatusPending
| ExecutionStatusRunning
| ExecutionStatusPaused
| ExecutionStatusFailed
| ExecutionStatusSuccess.

#[export] Instance ExecutionStatus_eq_dec : EqDecision ExecutionStatus.
Proof. solve_decision. Defined.

Definition AllocationTypeService : string := "service".
Definition AllocationTypeTask : string := "task".

Record ContractConfig := mkContractConfig {
  cc_DID : string;
  cc_Host : string;
  cc_Provider : string;
  cc_Requestor : string
}.

Definition ContractConfig_zero : ContractConfig := mkContractConfig "" "" "" "".

Record VolumeConfig := mkVolumeConfig {
  vol_Type : string;
  vol_Name : string;
  vol_MountDestination : string;
  vol_ReadOnly : bool
}.

Record Job := mkJob {
  job_Resources : Resources;
  job_Volume : list VolumeConfig
}.

Record AllocationNetState := mkNetState {
  SubnetIP : string;
  GatewayIP : string;
  PortMapping : gmap Z Z
}.

(** What an allocation is created with and never changes. *)
Record AllocationDetails := mkDetails {
  al_ID : string;
  al_allocType : string;
  al_executionID : string;
  al_Job : Job;
  al_orchestratorHost : string;       (* orchestrator.Address.HostID *)
  al_workDir : string;
  al_DeploymentID : string;
  al_computeProviderDID : string
}.

(** [reporters] counts the goroutines that report liveness and were not
    cancelled, [waiters] those that wait for the exit of a task's execution;
    [liveness_cancel] says whether the cancel function is set. *)
Record Allocation := mkAllocation {
  details : AllocationDetails;
  Contracts : gmap string ContractConfig;
  actorRunning : bool;
  status : AllocationStatus;
  NetState : AllocationNetState;
  ports : gmap Z Z;
  dynamicPortsNum : Z;
  startedAt : option Z;
  liveness_enabled : bool;
  liveness_cancel : bool;
  reporters : nat;
  waiters : nat
}.

Definition set_al_contracts a v := mkAllocation (details a) v (actorRunning a) (status a) (NetState a)
  (ports a) (dynamicPortsNum a) (startedAt a) (liveness_enabled a) (liveness_cancel a) (reporters a) (waiters a).
Definition set_al_actor a v := mkAllocation (details a) (Contracts a) v (status a) (NetState a)
  (ports a) (dynamicPortsNum a) (startedAt a) (liveness_enabled a) (liveness_cancel a) (reporters a) (waiters a).
Definition set_al_status a v := mkAllocation (details a) (Contracts a) (actorRunning a) v (NetState a)
  (ports a) (dynamicPortsNum a) (startedAt a) (liveness_enabled a) (liveness_cancel a) (reporters a) (waiters a).
Definition set_al_net a n p := mkAllocation (details a) (Contracts a) (actorRunning a) (status a) n
  p (dynamicPortsNum a) (startedAt a) (liveness_enabled a) (liveness_cancel a) (reporters a) (waiters a).
Definition set_al_ports a p n := mkAllocation (details a) (Contracts a) (actorRunning a) (status a) (NetState a)
  p n (startedAt a) (liveness_enabled a) (liveness_cancel a) (reporters a) (waiters a).
Definition set_al_started a t := mkAllocation (details a) (Contracts a) (actorRunning a) (status a) (NetState a)
  (ports a) (dynamicPortsNum a) (Some t) (liveness_enabled a) (liveness_cancel a) (reporters a) (waiters a).
Definition set_al_liveness a c n := mkAllocation (details a) (Contracts a) (actorRunning a) (status a) (NetState a)
  (ports a) (dynamicPortsNum a) (startedAt a) (liveness_enabled a) c n (waiters a).
Definition set_al_waiters a n := mkAllocation (details a) (Contracts a) (actorRunning a) (status a) (NetState a)
  (ports a) (dynamicPortsNum a) (startedAt a) (liveness_enabled a) (liveness_cancel a) (reporters a) n.

(** ** Effects *)

Inductive EventType := StartAllocationEvent | StopAllocationEvent | CompleteAllocationEvent.

Record PortsToBind := mkBind { bind_IP : string; HostPort : Z; ExecutorPort : Z }.

(** A volume handed to the executor; its source is [volume.HostPath] of the first
    three. *)
Record VolumeInput := mkInput {
  src_workDir : string;
  src_owner : string;
  src_volume : VolumeConfig;
  input_Target : string;
  input_ReadOnly : bool
}.

Record ExecutionRequest := mkRequest {
  req_JobID : string;
  req_ExecutionID : string;
  req_Resources : Resources;
  req_GatewayIP : string;
  req_Inputs : list VolumeInput;
  req_PortsToBind : list PortsToBind
}.

Inductive alloc_effect :=
| StatusUpdate (id : string) (old new : AllocationStatus)
| ExecutorStart (req : ExecutionRequest)
| ExecutorCancel (executionID : string)
| ExecutorRemove (executionID : string)
| ContractEvent (type : EventType) (id contractHost contractDID headDID : string)
| TaskTermination (id : string) (st : AllocationStatus) (exitCode : Z) (failed killed : bool)
| ActorStart (id : string)
| ActorStop (id : string).

Inductive alloc_error :=
| ErrNilDependency
| ErrExecutionID
| ErrResultsDirectory
| ErrVolumeDirectory
| ErrStartExecutor
| ErrStopExecution
| ErrStopAndCleanup
| ErrCleanup
| ErrAddBehavior
| ErrStartActor
| ErrNoSubnetIP.

#[export] Instance alloc_error_eq_dec : EqDecision alloc_error.
Proof. solve_decision. Defined.

(** State and output: the monad of the operations. *)
Definition alloc_M (A : Type) : Type := Allocation → A * Allocation * list alloc_effect.

#[export] Instance alloc_ret : MRet alloc_M := λ _ x a, (x, a, []).
#[export] Instance alloc_bind : MBind alloc_M := λ _ _ k m a,
  let '(x, a, o) := m a in
  let '(y, a, o') := k x a in
  (y, a, o ++ o').

Definition get {A} (f : Allocation → A) : alloc_M A := λ a, (f a, a, []).
Definition modify (f : Allocation → Allocation) : alloc_M () := λ a, ((), f a, []).
Definition emit (o : list alloc_effect) : alloc_M () := λ a, ((), a, o).

(** ** Answers from outside *)

Record Answers := mkAnswers {
  MkdirAll_ok : bool;
  CreateDir_ok : VolumeConfig → bool;
  Start_ok : bool;                               (* executor.Start *)
  GetStatus_answer : option ExecutionStatus;     (* executor.GetStatus *)
  Cancel_ok : bool;                              (* executor.Cancel *)
  Remove_ok : bool;                              (* executor.Remove *)
  AddBehavior_ok : bool;                         (* Actor.AddBehavior, for every behavior *)
  ActorStart_ok : bool;                          (* Actor.Start *)
  FindTailContract : ContractConfig → option ContractConfig;
  now : Z
}.

Section allocation.
  Context `{Visit : MapVisit}.

(** [NewAllocation]; [deps] says that network, actor and executor are not nil. *)
Definition NewAllocation (d : AllocationDetails) (deps uuid_ok : bool) : outcome alloc_error Allocation :=
  if negb deps then Err ErrNilDependency
  else if negb uuid_ok then Err ErrExecutionID
  else Ok (mkAllocation d ∅ false AllocationPending (mkNetState "" "" ∅) ∅ 0 None true false 0 0).

Definition SetCommittedPorts (p : gmap Z Z) (n : Z) : alloc_M () := modify (λ a, set_al_ports a p n).

(** Every change of the status is reported to the orchestrator and to the node. *)
Definition setStatus (ns : AllocationStatus) (notify : bool) : alloc_M () := λ a,
  ((), set_al_status a ns,
   if notify && bool_decide (status a ≠ ns) then [StatusUpdate (al_ID (details a)) (status a) ns] else []).

(** The first contract a range visits, or the zero value. *)
Definition headContract (m : gmap string ContractConfig) : ContractConfig :=
  match visit (map snd (map_to_list m)) with [] => ContractConfig_zero | c :: _ => c end.

(** The tail contract of a chain, or all contracts of the ensemble. *)
Definition contractsToNotify (w : Answers) (m : gmap string ContractConfig) : list ContractConfig :=
  let head := headContract m in
  if bool_decide (cc_DID head ≠ "") then
    match FindTailContract w head with
    | None => visit (map snd (map_to_list m))
    | Some tail => [tail]
    end
  else visit (map snd (map_to_list m)).

Definition pushContractEvents (w : Answers) (t : EventType) : alloc_M () := λ a,
  ((), a, map (λ c, ContractEvent t (al_ID (details a)) (cc_Host c) (cc_DID c)
                      (cc_DID (headContract (Contracts a))))
            (contractsToNotify w (Contracts a))).

Definition startLivenessReporting : alloc_M () := λ a,
  if bool_decide (al_allocType (details a) = AllocationTypeTask) then ((), a, [])
  else if negb (liveness_enabled a) then ((), a, [])
  else ((), set_al_liveness a true (S (reporters a)), []).

Definition stopLivenessReporting : alloc_M () := λ a,
  if liveness_cancel a then ((), set_al_liveness a false (pred (reporters a)), []) else ((), a, []).

Definition volumeInputs (a : Allocation) : list VolumeInput :=
  map (λ v, mkInput (al_workDir (details a)) (al_orchestratorHost (details a)) v
              (if bool_decide (vol_MountDestination v = "") then "/" +:+ vol_Name v
               else vol_MountDestination v)
              (vol_ReadOnly v))
    (job_Volume (al_Job (details a))).

Definition executionRequest (a : Allocation) (subnetIP gatewayIP : string) (portMapping : gmap Z Z)
    : ExecutionRequest :=
  mkRequest (al_ID (details a)) (al_executionID (details a)) (job_Resources (al_Job (details a))) gatewayIP
    (volumeInputs a)
    (map (λ '(host, exec), mkBind subnetIP host exec) (visit (map_to_list portMapping))).

(** The body of [Run], up to the deferred change of the status. *)
Definition runBody (w : Answers) (subnetIP gatewayIP : string) (portMapping : gmap Z Z)
    : alloc_M (option alloc_error) :=
  modify (λ a, set_al_net a (mkNetState subnetIP gatewayIP portMapping)
                 (if bool_decide (portMapping ≠ ∅) then portMapping else ports a));;
  st ← get status;
  if bool_decide (st = AllocationRunning) then mret None
  else if negb (MkdirAll_ok w) then mret (Some ErrResultsDirectory)
  else
    volumes ← get (λ a, job_Volume (al_Job (details a)));
    if negb (forallb (CreateDir_ok w) volumes) then mret (Some ErrVolumeDirectory)
    else
      req ← get (λ a, executionRequest a subnetIP gatewayIP portMapping);
      emit [ExecutorStart req];;
      if negb (Start_ok w) then mret (Some ErrStartExecutor)
      else
        modify (λ a, set_al_started a (now w));;
        pushContractEvents w StartAllocationEvent;;
        t ← get (λ a, al_allocType (details a));
        (if bool_decide (t = AllocationTypeTask) then modify (λ a, set_al_waiters a (S (waiters a)))
         else startLivenessReporting);;
        mret None.

Definition Run (w : Answers) (subnetIP gatewayIP : string) (portMapping : gmap Z Z)
    : alloc_M (option alloc_error) :=
  e ← runBody w subnetIP gatewayIP portMapping;
  setStatus AllocationRunning true;;
  mret e.

Definition stopExecution (w : Answers) : alloc_M (option alloc_error) :=
  st ← get status;
  if bool_decide (st ≠ AllocationRunning) then mret None
  else match GetStatus_answer w with
  | None => mret None
  | Some stat =>
      if bool_decide (stat = ExecutionStatusFailed) || bool_decide (stat = ExecutionStatusSuccess)
      then mret None
      else
        x ← get (λ a, al_executionID (details a));
        emit [ExecutorCancel x];;
        if negb (Cancel_ok w) then
          setStatus AllocationFailed true;;
          mret (Some ErrStopExecution)
        else mret None
  end.

Definition Cleanup (w : Answers) : alloc_M (option alloc_error) :=
  x ← get (λ a, al_executionID (details a));
  emit [ExecutorRemove x];;
  mret (if negb (Remove_ok w) then Some ErrCleanup else None).

(** Stopping the actor is tried once: its error is only logged. *)
Definition stopActor : alloc_M () := λ a,
  if actorRunning a then ((), set_al_actor a false, [ActorStop (al_ID (details a))]) else ((), a, []).

Definition Allocation_Stop (w : Answers) : alloc_M (option alloc_error) :=
  stopLivenessReporting;;
  stopActor;;
  e ← stopExecution w;
  match e with
  | Some e =>
      setStatus AllocationFailed true;;
      mret (Some e)
  | None =>
      st ← get status;
      (if bool_decide (st ≠ AllocationRestarting) then setStatus AllocationStopped true else mret ());;
      mret None
  end.

Definition Terminate (w : Answers) : alloc_M (option alloc_error) :=
  pushContractEvents w StopAllocationEvent;;
  st ← get status;
  stopError ← (if bool_decide (st ≠ AllocationStopped) && bool_decide (st ≠ AllocationCompleted) then
      e ← Allocation_Stop w;
      match e with
      | Some e => mret (Some e)
      | None => setStatus AllocationTerminated true;; mret None
      end
    else mret None);
  c ← Cleanup w;
  mret (match c, stopError with
        | Some _, Some _ => Some ErrStopAndCleanup
        | _, _ => None
        end).

(** [Start]: the behaviors are added, then the actor is started. *)
Definition Allocation_Start (w : Answers) : alloc_M (option alloc_error) :=
  r ← get actorRunning;
  if (r : bool) then mret None
  else if negb (AddBehavior_ok w) then mret (Some ErrAddBehavior)
  else if negb (ActorStart_ok w) then mret (Some ErrStartActor)
  else
    modify (λ a, set_al_actor a true);;
    id ← get (λ a, al_ID (details a));
    emit [ActorStart id];;
    mret None.

(** [Restart]; [w], [w'] and [w''] answer the stop, the start and run, and the stop after
    a failed run. *)
Definition Restart (w w' w'' : Answers) : alloc_M (option alloc_error) :=
  setStatus AllocationRestarting true;;
  net ← get NetState;
  if bool_decide (SubnetIP net = "") then mret (Some ErrNoSubnetIP)
  else
    Allocation_Stop w;;
    e ← Allocation_Start w';
    match e with
    | Some e => mret (Some e)
    | None =>
        e ← Run w' (SubnetIP net) (GatewayIP net) (PortMapping net);
        match e with
        | None => mret None
        | Some e =>
            Allocation_Stop w'';;
            setStatus AllocationFailed true;;
            mret (Some e)
        end
    end.

(** ** The exit of a task *)

Record ExecutionResult := mkResult { ExitCode : Z; Killed : bool }.

(** The first part of [handleTransience]: status and notification. *)
Definition taskExit (r : option ExecutionResult) (err : bool) : alloc_M () :=
  id ← get (λ a, al_ID (details a));
  if err then
    setStatus AllocationFailed true;;
    st ← get status;
    emit [TaskTermination id st (match r with Some r => ExitCode r | None => 0%Z end) true false]
  else match r with
  | None => mret ()
  | Some r =>
      if negb (ExitCode r =? 0)%Z then
        setStatus AllocationFailed true;;
        st ← get status;
        emit [TaskTermination id st (ExitCode r) true false]
      else if negb (Killed r) then
        setStatus AllocationCompleted true;;
        st ← get status;
        emit [TaskTermination id st 0 false false]
      else
        setStatus AllocationFailed true;;
        st ← get status;
        emit [TaskTermination id st (ExitCode r) true true]
  end.

(** Its last part, after the allocation released itself: contracts are told. *)
Definition taskComplete (w : Answers) : alloc_M () :=
  cs ← get Contracts;
  if bool_decide (cs = ∅) then mret ()
  else pushContractEvents w CompleteAllocationEvent.

(** ** Behaviors *)

(** The [OK] of the replies to the start and restart requests. *)
Definition handleAllocationStart (w : Answers) (subnetIP gatewayIP : string) (portMapping : gmap Z Z)
    : alloc_M bool :=
  e ← Run w subnetIP gatewayIP portMapping;
  mret (match e with None => true | Some _ => false end).

Definition handleAllocationRestart (w w' w'' : Answers) : alloc_M bool :=
  e ← Restart w w' w'';
  mret (match e with None => true | Some _ => false end).

End allocation.
