(* ===== verification/AllocationProps.v ===== *)
(** * Properties of allocations

    What stopping, terminating and running leave behind, on every branch, and the
    invariant that an allocation has at most one liveness reporter. *)

From S2P Require Import Prelude Hardware ResourceManager Allocation.

(** [alloc_crush H] runs the operation in [H : m a = (r, a', o)] branch by branch. *)
Ltac alloc_unfold :=
  unfold mbind, mret, alloc_bind, alloc_ret, get, modify, emit, setStatus, stopActor,
    stopLivenessReporting, startLivenessReporting, pushContractEvents in *.

Ltac alloc_cases :=
  repeat (simpl in *; first
    [ progress simplify_eq
    | match goal with
      | H : negb _ = true |- _ => apply negb_true_iff in H
      | H : negb _ = false |- _ => apply negb_false_iff in H
      end
    | case_bool_decide
    | match goal with
      | H : context [match ?x with _ => _ end] |- _ =>
          lazymatch x with context [match _ with _ => _ end] => fail | _ => destruct x eqn:? end
      | |- context [match ?x with _ => _ end] =>
          lazymatch x with context [match _ with _ => _ end] => fail | _ => destruct x eqn:? end
      end ]).

Ltac alloc_crush := alloc_unfold; alloc_cases.

Section lemmas.
  Context `{Visit : MapVisit}.

(** [Stop] always stops the actor and the reporter; it fails exactly when a
    running execution cannot be cancelled. *)
Lemma Stop_spec w a e a' o :
  Allocation_Stop w a = (e, a', o) →
  actorRunning a' = false ∧ liveness_cancel a' = false ∧ NetState a' = NetState a ∧
  details a' = details a ∧
  reporters a' = (if liveness_cancel a then pred (reporters a) else reporters a) ∧
  (e = None ∧ status a' = (if decide (status a = AllocationRestarting) then AllocationRestarting
                            else AllocationStopped) ∨
   e = Some ErrStopExecution ∧ status a = AllocationRunning ∧ status a' = AllocationFailed ∧
     Cancel_ok w = false).
Proof.
  unfold Allocation_Stop, stopExecution. intros H. alloc_unfold.
  destruct (liveness_cancel a) eqn:Hc, (actorRunning a) eqn:Hr; alloc_cases; naive_solver.
Qed.

(** Terminating a completed allocation only tells the contracts and removes the
    execution. *)
Lemma Terminate_completed w a :
  status a = AllocationCompleted →
  Terminate w a = (None, a, (pushContractEvents w StopAllocationEvent a).2 ++
                             [ExecutorRemove (al_executionID (details a))]).
Proof.
  intros Hs. unfold Terminate, Cleanup. alloc_unfold. simpl. rewrite Hs. simpl.
  by destruct (negb (Remove_ok w)).
Qed.

(** ** At most one reporter *)

(** A live reporter belongs to a running allocation that knows its subnet address,
    and never to a task; only tasks wait for an exit. *)
Record al_inv (a : Allocation) : Prop := {
  inv_reporters : reporters a = if liveness_cancel a then 1%nat else 0%nat;
  inv_cancel : liveness_cancel a = true → status a = AllocationRunning ∧ SubnetIP (NetState a) ≠ "" ∧
    al_allocType (details a) ≠ AllocationTypeTask;
  inv_waiters : waiters a ≠ 0%nat → al_allocType (details a) = AllocationTypeTask
}.

Lemma Stop_inv w a e a' o :
  reporters a = (if liveness_cancel a then 1 else 0)%nat →
  (waiters a ≠ 0%nat → al_allocType (details a) = AllocationTypeTask) →
  Allocation_Stop w a = (e, a', o) → al_inv a' ∧ liveness_cancel a' = false.
Proof.
  intros Hrep Hw H. assert (waiters a' = waiters a) as Hwa.
  { revert H. unfold Allocation_Stop, stopExecution. intros H. alloc_unfold.
    destruct (liveness_cancel a), (actorRunning a); alloc_cases; done. }
  apply Stop_spec in H as (_ & Hc & _ & Hd & Hr & _). split; [|done].
  split; rewrite ?Hc, ?Hr, ?Hrep, ?Hd, ?Hwa; try done. by destruct (liveness_cancel a).
Qed.

Lemma Run_inv w ip gw pm a e a' o :
  ip ≠ "" → al_inv a → Run w ip gw pm a = (e, a', o) → al_inv a'.
Proof.
  intros Hip [I1 I2 I3]. unfold Run, runBody. intros H. alloc_unfold.
  destruct a as [d cs ar st net p n sa le lc rp wt]. simpl in *. subst.
  destruct lc; [destruct I2 as (-> & Hn & Ht); [done|]|];
    alloc_cases; split; simpl in *; try done; naive_solver.
Qed.

Lemma setStatus_inv st a : al_inv a → liveness_cancel a = false → al_inv (set_al_status a st).
Proof. intros [I1 I2 I3] Hc. split; simpl; [done|congruence|done]. Qed.

Lemma Start_inv w a e a' o :
  al_inv a → Allocation_Start w a = (e, a', o) → al_inv a' ∧ NetState a' = NetState a.
Proof.
  intros Hinv. unfold Allocation_Start. intros H.
  destruct (actorRunning a) eqn:Hr; alloc_crush; (split; [by destruct Hinv; split|done]).
Qed.

Lemma Terminate_inv w a e a' o :
  al_inv a → Terminate w a = (e, a', o) → al_inv a' ∧ liveness_cancel a' = false.
Proof.
  intros [I1 I2 I3]. unfold Terminate, Cleanup. intros H. alloc_unfold. simpl in H.
  destruct (bool_decide (status a ≠ AllocationStopped) && bool_decide (status a ≠ AllocationCompleted)) eqn:Hst.
  - destruct (Allocation_Stop w a) as [[e1 a1] o1] eqn:Hstop.
    apply Stop_inv in Hstop as [Hinv Hc]; [|done..].
    destruct e1; simpl in H; simplify_eq; [done|]. split; [by apply setStatus_inv|done].
  - simpl in H. simplify_eq. split; [done|]. destruct (liveness_cancel a') eqn:Hc; [|done].
    destruct (I2 eq_refl) as [Hs _]. rewrite Hs in Hst. done.
Qed.

Lemma Restart_inv w w' w'' a e a' o :
  al_inv a → Restart w w' w'' a = (e, a', o) → al_inv a'.
Proof.
  intros [I1 I2 I3]. unfold Restart. intros H. unfold mbind, alloc_bind, setStatus, get, mret, alloc_ret in H.
  simpl in H. case_bool_decide as Hip; [simplify_eq; simpl in *|].
  { split; simpl; [done| |done]. intros Hc. by destruct (I2 Hc) as (_ & ? & _). }
  destruct (Allocation_Stop w _) as [[e1 a1] o1] eqn:Hstop.
  pose proof (Stop_spec _ _ _ _ _ Hstop) as (_ & _ & Hnet & _).
  apply Stop_inv in Hstop as [Hinv _]; [|done..].
  destruct (Allocation_Start w' a1) as [[[e2|] a2] o2] eqn:Hstart;
    apply Start_inv in Hstart as [Hinv2 _]; try done; [by simplify_eq|].
  destruct (Run w' _ _ _ a2) as [[[e3|] a3] o3] eqn:Hrun; apply Run_inv in Hrun as Hinv3; try done;
    [|by simplify_eq].
  destruct (Allocation_Stop w'' a3) as [[e4 a4] o4] eqn:Hstop'.
  apply Stop_inv in Hstop' as [Hinv4 Hc4]; [|apply Hinv3..]. simplify_eq. by apply setStatus_inv.
Qed.

Lemma taskExit_inv r err a a' o : al_inv a → waiters a ≠ 0%nat → taskExit r err a = ((), a', o) → al_inv a'.
Proof.
  intros Hinv Hw. assert (liveness_cancel a = false) as Hc.
  { destruct (liveness_cancel a) eqn:Hc; [|done]. destruct (inv_cancel _ Hinv Hc) as (_ & _ & Ht).
    by apply (inv_waiters _ Hinv) in Hw. }
  assert (∀ st, al_inv (set_al_status a st)) as Hset by (intros; by apply setStatus_inv).
  unfold taskExit. intros H. alloc_unfold. destruct err; [|destruct r as [r|]]; simpl in H.
  - simplify_eq. apply Hset.
  - destruct (negb (ExitCode r =? 0)%Z); [|destruct (negb (Killed r))]; simplify_eq; apply Hset.
  - by simplify_eq.
Qed.

(** One operation on an allocation, with any answers; an allocation is run with a
    subnet address. *)
Inductive al_step (a : Allocation) : Allocation → Prop :=
| al_run w ip gw pm e a' o : ip ≠ "" → Run w ip gw pm a = (e, a', o) → al_step a a'
| al_stop w e a' o : Allocation_Stop w a = (e, a', o) → al_step a a'
| al_terminate w e a' o : Terminate w a = (e, a', o) → al_step a a'
| al_start w e a' o : Allocation_Start w a = (e, a', o) → al_step a a'
| al_restart w w' w'' e a' o : Restart w w' w'' a = (e, a', o) → al_step a a'
| al_exit r err a' o : waiters a ≠ 0%nat →
    taskExit r err a = ((), a', o) → al_step a (set_al_waiters a' (pred (waiters a')))
| al_ports p n : al_step a (set_al_ports a p n)
| al_contracts cs : al_step a (set_al_contracts a cs).

Definition al_reachable (a : Allocation) : Prop :=
  ∃ d a0, NewAllocation d true true = Ok a0 ∧ rtc al_step a0 a.

Lemma step_al_inv a a' : al_step a a' → al_inv a → al_inv a'.
Proof.
  intros Hstep Hinv. destruct Hstep as [w ip gw pm e a' o Hip H|w e a' o H|w e a' o H|w e a' o H
    |w w' w'' e a' o H|r err a' o Hw H|p n|cs].
  - by eapply Run_inv.
  - by apply Stop_inv in H as [? _]; [|apply Hinv..].
  - by apply Terminate_inv in H as [? _].
  - by apply Start_inv in H as [? _].
  - by eapply Restart_inv.
  - apply taskExit_inv in H as [I1 I2 I3]; [|done..]. split; simpl; [done..|]. intros ?. apply I3. lia.
  - by destruct Hinv.
  - by destruct Hinv.
Qed.

Lemma al_reachable_inv a : al_reachable a → al_inv a.
Proof.
  intros (d & a0 & [= <-] & Hrun). assert (al_inv (mkAllocation d ∅ false AllocationPending
    (mkNetState "" "" ∅) ∅ 0 None true false 0 0)) as Hinit by done.
  induction Hrun as [|a1 a2 a3 H12 _ IH]; [done|]. by eapply IH, step_al_inv.
Qed.

End lemmas.

Section claims.
  Context `{Visit : MapVisit}.

(** What [Terminate] leaves behind, on every branch: no liveness reporter in
    any case; an allocation that was not stopped or completed has its actor
    stopped and is terminated, or failed when its execution could not be
    cancelled, and only then, when removing the execution fails too, the call
    fails; a stopped or completed allocation keeps its status, and its actor is
    left as it is. *)
Theorem Terminate_outcome w a e a' o :
  al_reachable a → Terminate w a = (e, a', o) →
  reporters a' = 0%nat ∧
  if decide (status a = AllocationStopped ∨ status a = AllocationCompleted)
  then e = None ∧ status a' = status a ∧ actorRunning a' = actorRunning a
  else actorRunning a' = false ∧
    (status a' = AllocationTerminated ∧ e = None ∨
     status a' = AllocationFailed ∧ Cancel_ok w = false ∧ (e = None ↔ Remove_ok w = true)).
Proof.
  intros Hinv%al_reachable_inv H. pose proof (Terminate_inv _ _ _ _ _ Hinv H) as [Hi Hc].
  split; [by rewrite (inv_reporters _ Hi), Hc|].
  revert H. unfold Terminate, Cleanup. intros H. alloc_unfold. simpl in H.
  destruct (bool_decide (status a ≠ AllocationStopped) && bool_decide (status a ≠ AllocationCompleted)) eqn:Hst;
    brefl.
  - rewrite decide_False by naive_solver. destruct (Allocation_Stop w a) as [[e1 a1] o1] eqn:Hstop.
    apply Stop_spec in Hstop as (Hr & _ & _ & _ & _ & Hs).
    destruct e1, (Remove_ok w) eqn:Hrem; simpl in H; simplify_eq; naive_solver.
  - rewrite decide_True by (destruct Hst as [?%dec_stable|?%dec_stable]; auto). by destruct (negb (Remove_ok w)); simplify_eq.
Qed.

(** A run that fails is reported as running: [Run] sets the status to running
    whatever happened, so the orchestrator is told that the allocation runs, and
    every later start request is answered OK without asking the executor. *)
Theorem failed_Run_reports_running w ip gw pm a e a' o :
  Run w ip gw pm a = (Some e, a', o) →
  status a' = AllocationRunning ∧
  StatusUpdate (al_ID (details a)) (status a) AllocationRunning ∈ o ∧
  ∀ w' ip' gw' pm', ∃ a'', handleAllocationStart w' ip' gw' pm' a' = (true, a'', []).
Proof.
  intros H. assert (status a' = AllocationRunning ∧
    StatusUpdate (al_ID (details a)) (status a) AllocationRunning ∈ o) as [Hs Ho].
  { revert H. unfold Run, runBody. intros H. alloc_crush; set_solver. }
  split_and!; [done..|]. intros w' ip' gw' pm'. clear -Hs. unfold handleAllocationStart, Run, runBody.
  alloc_unfold. simpl. rewrite bool_decide_eq_true_2 by done. simpl. eexists. do 2 f_equal.
  case_bool_decide; done.
Qed.

End claims.

(** ** Concrete states *)

#[local] Instance visit_sorted : MapVisit := {| visit A l := l; visit_perm A l := reflexivity l |}.

Definition sample_details : AllocationDetails :=
  mkDetails "ens_node.web" AllocationTypeService "exec-1" (mkJob Resources_zero []) "host" "/work" "dep" "did:key:z1".

(** The executor refuses to start, to cancel and to remove. *)
Definition refusing : Answers :=
  mkAnswers true (λ _, true) false (Some ExecutionStatusRunning) false false true true (λ _, None) 0.
Definition agreeing : Answers :=
  mkAnswers true (λ _, true) true (Some ExecutionStatusRunning) true true true true (λ _, None) 0.

Definition sample_alloc : Allocation :=
  mkAllocation sample_details ∅ false AllocationPending (mkNetState "" "" ∅) ∅ 0 None true false 0 0.
Definition sample_started : Allocation := (Allocation_Start agreeing sample_alloc).1.2.
Definition sample_running : Allocation := (Run agreeing "10.0.0.2" "10.0.0.1" ∅ sample_started).1.2.

Lemma sample_running_reachable : al_reachable sample_running.
Proof.
  exists sample_details, sample_alloc. split; [done|].
  eapply rtc_l; [by eapply (al_start _ agreeing)|].
  apply rtc_once. by eapply (al_run _ agreeing "10.0.0.2" "10.0.0.1" ∅).
Qed.

Lemma Terminate_outcome_witness :
  reporters sample_running = 1%nat ∧
  reporters (Terminate refusing sample_running).1.2 = 0%nat ∧
  (Terminate refusing sample_running).1.1 = Some ErrStopAndCleanup.
Proof.
  split; [done|].
  destruct (Terminate_outcome refusing sample_running (Some ErrStopAndCleanup)
    (Terminate refusing sample_running).1.2 (Terminate refusing sample_running).2
    sample_running_reachable) as [H _]; done.
Defined.

Lemma failed_Run_reports_running_witness :
  (Run refusing "10.0.0.2" "10.0.0.1" ∅ sample_started).1.1 = Some ErrStartExecutor ∧
  status (Run refusing "10.0.0.2" "10.0.0.1" ∅ sample_started).1.2 = AllocationRunning.
Proof.
  split; [done|].
  destruct (failed_Run_reports_running refusing "10.0.0.2" "10.0.0.1" ∅ sample_started ErrStartExecutor
    (Run refusing "10.0.0.2" "10.0.0.1" ∅ sample_started).1.2
    (Run refusing "10.0.0.2" "10.0.0.1" ∅ sample_started).2) as [H _]; done.
Defined.
