(* ===== verification/Allocator.v ===== *)
(** * The node's allocator (dms/node/allocator.go)

    The allocator promises resources and ports to allocations (commitments) and
    turns commitments into running allocations.  It sits on the resource manager,
    the port allocator and the allocations.  The measurements of the hardware
    manager, the answers of the system about ports, of the volumes and of the
    database, and the clock are arguments.  Operations that let allocations act
    also list the effects of the allocations.

    The operations are atomic steps here, as under the allocator's lock; [Uncommit],
    [RestoreAllocCommit] and [CheckAvailability] take that lock in part or not at
    all, and what other operations do in between is not modelled. *)

From S2P Require Import Prelude GoStrings AllocationID Hardware ResourceManager Ports Allocation.

Inductive allocator_error :=
| ErrCheckHardware
| ErrNoHardwareCapacity
| ErrResources (e : rm_error)
| ErrPorts (e : port_error)
| ErrNotCommitted
| ErrMount
| ErrUnmount
| ErrAllocation (e : alloc_error)
| ErrPortsBusy
| ErrDynamicPortsNotAvailable
| ErrResourcesNotAvailable
| ErrAllocationNotFound.

#[export] Instance allocator_error_eq_dec : EqDecision allocator_error.
Proof. solve_decision. Defined.

(** ** The hardware manager (lib/hardware/hardware.go) *)

(** What the machine answers: [GetUsage] and [GetMachineResources]. *)
Record Measurement := mkMeasurement {
  hw_usage : option Resources;
  hw_machine : option Resources
}.

Definition hardware_GetFreeResources (h : Measurement) : option Resources :=
  match hw_usage h with
  | None => None
  | Some usage =>
      match hw_machine h with
      | None => None
      | Some available =>
          match Resources_Subtract available usage with
          | (free, None) => Some free
          | (_, Some _) => None
          end
      end
  end.

(** [CheckCapacity]: [None] is an error. *)
Definition hardware_CheckCapacity (h : Measurement) (expected : Resources) : option bool :=
  match hardware_GetFreeResources h with
  | None => None
  | Some free =>
      match Resources_Subtract free expected with
      | (_, Some _) => None
      | (_, None) => Some true
      end
  end.

(** ** The state *)

Record allocator := mkAllocator {
  a_ports : portAllocator;
  a_resources : Manager;
  a_allocations : gmap string Allocation;
  monitoredEnsembles : gset string;
  commits : gmap string Z;
  commitPorts : gmap string (gmap Z Z);
  commitDynamicPorts : gmap string Z
}.

Definition newAllocator (p : portAllocator) (d : Manager) : allocator :=
  mkAllocator p d ∅ ∅ ∅ ∅ ∅.

Definition set_a_ports (a : allocator) v := mkAllocator v (a_resources a) (a_allocations a)
  (monitoredEnsembles a) (commits a) (commitPorts a) (commitDynamicPorts a).
Definition set_a_resources (a : allocator) v := mkAllocator (a_ports a) v (a_allocations a)
  (monitoredEnsembles a) (commits a) (commitPorts a) (commitDynamicPorts a).
Definition set_a_allocations (a : allocator) v := mkAllocator (a_ports a) (a_resources a) v
  (monitoredEnsembles a) (commits a) (commitPorts a) (commitDynamicPorts a).
Definition set_a_monitored (a : allocator) v := mkAllocator (a_ports a) (a_resources a) (a_allocations a)
  v (commits a) (commitPorts a) (commitDynamicPorts a).

Definition storeCommit (a : allocator) (id : string) (expiry : Z) (p : gmap Z Z) (n : Z) : allocator :=
  mkAllocator (a_ports a) (a_resources a) (a_allocations a) (monitoredEnsembles a)
    (<[id := expiry]> (commits a)) (<[id := p]> (commitPorts a)) (<[id := n]> (commitDynamicPorts a)).
Definition dropCommit (a : allocator) (id : string) : allocator :=
  mkAllocator (a_ports a) (a_resources a) (a_allocations a) (monitoredEnsembles a)
    (delete id (commits a)) (delete id (commitPorts a)) (delete id (commitDynamicPorts a)).

(** What the outside answers to an operation that creates or ends an allocation. *)
Record Env := mkEnv {
  env_hw : Measurement;
  env_volume_new : VolumeConfig → bool;      (* volume.New *)
  env_volume_dir : VolumeConfig → bool;      (* utils.CreateDirIfNotExists *)
  env_mount : VolumeConfig → bool;
  env_unmount : VolumeConfig → bool;
  env_db_ok : bool;
  env_deps : bool;                    (* network, actor and executor are not nil *)
  env_uuid_ok : bool;
  env_alloc : Answers
}.

(** The volumes are mounted one after the other, up to the first failure. *)
Fixpoint mountVolumeOnHost (v : Env) (volumes : list VolumeConfig) : bool :=
  match volumes with
  | [] => true
  | vol :: volumes =>
      if negb (env_volume_new v vol) then false
      else if negb (env_volume_dir v vol) then false
      else if negb (env_mount v vol) then false
      else mountVolumeOnHost v volumes
  end.

Fixpoint unmountVolumeOnHost (v : Env) (volumes : list VolumeConfig) : bool :=
  match volumes with
  | [] => true
  | vol :: volumes =>
      if negb (env_volume_new v vol) then false
      else if negb (env_unmount v vol) then false
      else unmountVolumeOnHost v volumes
  end.

Section allocator.
  Context `{Visit : MapVisit}.

(** ** Commitments *)

(** [probe1] answers about the static ports, [scan] and [probe2] about the dynamic
    ones; [expiry] is the Unix time of the expiry.  The resources carry an
    identifier of their own. *)
Definition allocator_Commit (h : Measurement) (probe1 scan probe2 : Z → bool) (a : allocator)
    (allocationID : string) (resourcesID : string) (resources : Resources) (ports : gmap Z Z)
    (numDynamicPorts expiry : Z) : outcome allocator_error () * allocator :=
  match hardware_CheckCapacity h resources with
  | None => (Err ErrCheckHardware, a)
  | Some false => (Err ErrNoHardwareCapacity, a)
  | Some true =>
      match CommitResources (a_resources a) resourcesID resources with
      | (Some e, d) => (Err (ErrResources e), set_a_resources a d)
      | (None, d) =>
          let a := set_a_resources a d in
          let revertResourceCommit a :=
            set_a_resources a (UncommitResources (a_resources a) allocationID).2 in
          let static :=
            if bool_decide (ports ≠ ∅) then
              portAllocator_Allocate probe1 (a_ports a) allocationID (visit (map fst (map_to_list ports)))
            else (None, a_ports a) in
          match static with
          | (Some e, p) => (Err (ErrPorts e), revertResourceCommit (set_a_ports a p))
          | (None, p) =>
              let a := set_a_ports a p in
              let dynamic :=
                if (0 <? numDynamicPorts)%Z then
                  portAllocator_AllocateRandom scan probe2 (a_ports a) allocationID numDynamicPorts
                else (Ok [], a_ports a) in
              match dynamic with
              | (Panic, p) => (Panic, set_a_ports a p)
              | (Err e, p) =>
                  let a := revertResourceCommit (set_a_ports a p) in
                  (Err (ErrPorts e), set_a_ports a (portAllocator_Release (a_ports a) allocationID))
              | (Ok _, p) => (Ok (), storeCommit (set_a_ports a p) allocationID expiry ports numDynamicPorts)
              end
          end
      end
  end.

(** The commitment of an allocation that is restored; its ports are not reserved. *)
Definition RestoreAllocCommit (h : Measurement) (a : allocator) (allocationID : string)
    (resources : Resources) (ports : gmap Z Z) (numDynamicPorts expiry : Z)
    : outcome allocator_error () * allocator :=
  match hardware_CheckCapacity h resources with
  | None => (Err ErrCheckHardware, a)
  | Some false => (Err ErrNoHardwareCapacity, a)
  | Some true =>
      match CommitResources (a_resources a) allocationID resources with
      | (Some e, d) => (Err (ErrResources e), set_a_resources a d)
      | (None, d) => (Ok (), storeCommit (set_a_resources a d) allocationID expiry ports numDynamicPorts)
      end
  end.

Definition Uncommit (a : allocator) (allocationID : string) : outcome allocator_error () * allocator :=
  let a := set_a_ports a (portAllocator_Release (a_ports a) allocationID) in
  match commits a !! allocationID with
  | None => (Ok (), a)
  | Some _ =>
      match UncommitResources (a_resources a) allocationID with
      | (Some e, d) => (Err (ErrResources e), set_a_resources a d)
      | (None, d) => (Ok (), dropCommit (set_a_resources a d) allocationID)
      end
  end.

(** ** Allocations *)

(** The allocation is created under the identifier of the commitment. *)
Definition with_ID (d : AllocationDetails) (id : string) : AllocationDetails :=
  mkDetails id (al_allocType d) (al_executionID d) (al_Job d) (al_orchestratorHost d) (al_workDir d)
    (al_DeploymentID d) (al_computeProviderDID d).

Definition allocator_Allocate (v : Env) (a : allocator) (allocationID : string) (d : AllocationDetails)
    (contracts : gmap string ContractConfig)
    : outcome allocator_error Allocation * allocator * list alloc_effect :=
  match commits a !! allocationID with
  | None => (Err ErrNotCommitted, a, [])
  | Some _ =>
      match hardware_CheckCapacity (env_hw v) (job_Resources (al_Job d)) with
      | None => (Err ErrCheckHardware, a, [])
      | Some false => (Err ErrNoHardwareCapacity, a, [])
      | Some true =>
          if negb (mountVolumeOnHost v (job_Volume (al_Job d))) then (Err ErrMount, a, [])
          else match AllocateResources (a_resources a) allocationID (env_db_ok v) with
          | (Some e, m) => (Err (ErrResources e), set_a_resources a m, [])
          | (None, m) =>
              let a := set_a_resources a m in
              match NewAllocation (with_ID d allocationID) (env_deps v) (env_uuid_ok v) with
              | Panic => (Panic, a, [])
              | Err e => (Err (ErrAllocation e), a, [])
              | Ok allocation =>
                  let allocation := set_al_contracts
                    (set_al_ports allocation (default ∅ (commitPorts a !! allocationID))
                       (default 0%Z (commitDynamicPorts a !! allocationID))) contracts in
                  match Allocation_Start (env_alloc v) allocation with
                  | (Some e, _, o) => (Err (ErrAllocation e), a, o)
                  | (None, allocation, o) =>
                      let a := dropCommit a allocationID in
                      let a := set_a_allocations a (<[allocationID := allocation]> (a_allocations a)) in
                      (Ok allocation,
                       set_a_monitored a
                         ({[EnsembleIDFromAllocationID (al_ID (details allocation))]} ∪ monitoredEnsembles a),
                       o)
                  end
              end
          end
      end
  end.

Definition allocator_Release (v : Env) (a : allocator) (allocationID : string)
    : outcome allocator_error () * allocator * list alloc_effect :=
  let a := set_a_ports a (portAllocator_Release (a_ports a) allocationID) in
  match a_allocations a !! allocationID with
  | None => (Ok (), a, [])
  | Some allocation =>
      let '(e, allocation, o) := Terminate (env_alloc v) allocation in
      let a := set_a_allocations a (<[allocationID := allocation]> (a_allocations a)) in
      match e with
      | Some e => (Err (ErrAllocation e), a, o)
      | None =>
          match DeallocateResources (a_resources a) allocationID (env_db_ok v) with
          | (Some e, d) => (Err (ErrResources e), set_a_resources a d, o)
          | (None, d) =>
              let a := set_a_resources a d in
              if negb (unmountVolumeOnHost v (job_Volume (al_Job (details allocation))))
              then (Err ErrUnmount, a, o)
              else (Ok (), set_a_allocations a (delete allocationID (a_allocations a)), o)
          end
      end
  end.

(** The exit of a task: status and notification, release, contract events. *)
Definition handleTransience (v : Env) (a : allocator) (allocationID : string)
    (r : option ExecutionResult) (err : bool) : allocator * list alloc_effect :=
  match a_allocations a !! allocationID with
  | None => (a, [])
  | Some allocation =>
      let '(_, allocation, o1) := taskExit r err allocation in
      let allocation := set_al_waiters allocation (pred (waiters allocation)) in
      let a := set_a_allocations a (<[allocationID := allocation]> (a_allocations a)) in
      let '(_, a, o2) := allocator_Release v a allocationID in
      let '(_, _, o3) := taskComplete (env_alloc v) allocation in
      (a, o1 ++ o2 ++ o3)
  end.

(** ** Availability and housekeeping *)

Definition CheckAvailability (probe : Z → bool) (a : allocator) (ports : list Z) (numDynamicPorts : Z)
    (resources : Resources) : outcome allocator_error () * allocator :=
  if isAllocated (a_ports a) ports then (Err ErrPortsBusy, a)
  else match portsAvailable probe (a_ports a) numDynamicPorts with
  | Panic => (Panic, a)
  | Err e => (Err (ErrPorts e), a)
  | Ok false => (Err ErrDynamicPortsNotAvailable, a)
  | Ok true =>
      match GetFreeResources (a_resources a) with
      | (inr e, d) => (Err (ErrResources e), set_a_resources a d)
      | (inl free, d) =>
          match onboardedResources d with
          | None => (Ok (), set_a_resources a d)   (* not reached: free resources need the cache *)
          | Some onboarded =>
              match subtractShared d onboarded free resources with
              | (_, Some _, d) => (Err ErrResourcesNotAvailable, set_a_resources a d)
              | (_, None, d) => (Ok (), set_a_resources a d)
              end
          end
      end
  end.

(** One tick of [clearCommits] at the Unix time [now]. *)
Definition clearCommits (now : Z) (a : allocator) : allocator :=
  fold_left (λ a '(allocationID, expiry), if (expiry <? now)%Z then (Uncommit a allocationID).2 else a)
    (visit (map_to_list (commits a))) a.

Definition isDone (st : AllocationStatus) : bool :=
  bool_decide (st = AllocationCompleted) || bool_decide (st = AllocationTerminated).

(** One tick of the monitor: an ensemble whose allocations are all done is released. *)
Definition ensembleAllocations (a : allocator) (ensembleID : string) : list (string * Allocation) :=
  List.filter (λ '(id, _), bool_decide (EnsembleIDFromAllocationID id = ensembleID))
    (visit (map_to_list (a_allocations a))).

Definition ensembleRunning (a : allocator) (ensembleID : string) : bool :=
  existsb (λ '(_, alloc), negb (isDone (status alloc))) (ensembleAllocations a ensembleID).

Definition releaseAll (v : Env) (a : allocator) (ids : list string) : allocator :=
  fold_left (λ a id, (allocator_Release v a id).1.2) ids a.

Definition monitorTick (v : Env) (a0 : allocator) : allocator :=
  fold_left
    (λ a ensembleID,
       if ensembleRunning a0 ensembleID then a
       else let a := releaseAll v a (map fst (ensembleAllocations a0 ensembleID)) in
            set_a_monitored a (monitoredEnsembles a ∖ {[ensembleID]}))
    (visit (elements (monitoredEnsembles a0))) a0.

(** [Stop]: the allocations are stopped, then the commitments are dropped. *)
Definition allocator_Stop (w : Answers) (a0 : allocator) : allocator * list alloc_effect :=
  let '(a, o) := fold_left
    (λ '(a, o) '(id, alloc),
       let '(_, alloc, o') := Allocation_Stop w alloc in
       (set_a_allocations a (<[id := alloc]> (a_allocations a)), o ++ o'))
    (visit (map_to_list (a_allocations a0))) (a0, []) in
  (fold_left (λ a id, (Uncommit a id).2) (map fst (visit (map_to_list (commits a)))) a, o).

Definition allocator_GetAllocation (a : allocator) (allocationID : string)
    : outcome allocator_error Allocation :=
  match a_allocations a !! allocationID with
  | None => Err ErrAllocationNotFound
  | Some allocation => Ok allocation
  end.

End allocator.
