(* ===== verification/AllocatorProps.v ===== *)
(** * Properties of the port allocator and of the allocator

    The claims about dms/node/allocator.go. *)

From S2P Require Import Prelude GoNumbers Hardware ResourceManager ResourceSpec ResourceProps Ports Allocation AllocationProps Allocator.

(** ** What the allocator does to the parts below it

    Every operation of the allocator reaches the resource manager through a
    sequence of the manager's own operations, so what holds of the manager's
    reachable states holds under the allocator; and a failed commitment undoes
    what it did. *)

Section spec.
  Context `{Visit : MapVisit}.

(** ** Steps of the manager *)

Abbreviation rm_steps a a' := (rtc rm_step (a_resources a) (a_resources a')).

Lemma Uncommit_steps a id : rm_steps a (Uncommit a id).2.
Proof.
  unfold Uncommit. cbn. destruct (commits a !! id); [|done].
  destruct (UncommitResources (a_resources a) id) as [[e|] d] eqn:Hu; cbn;
    by eapply rtc_once, rm_uncommit.
Qed.

Lemma Commit_steps h f1 f2 f3 a id rid r p n ex :
  res_valid r → rm_steps a (allocator_Commit h f1 f2 f3 a id rid r p n ex).2.
Proof.
  intros Hr. unfold allocator_Commit. destruct (hardware_CheckCapacity h r) as [[|]|]; [|done..].
  destruct (CommitResources (a_resources a) rid r) as [[e|] d] eqn:Hc; cbn.
  { by eapply rtc_once, rm_commit. }
  assert (rm_step (a_resources a) d) as Hstep by by eapply rm_commit.
  assert (rtc rm_step (a_resources a) (UncommitResources d id).2) as Hrevert.
  { eapply rtc_l; [done|]. destruct (UncommitResources d id) eqn:Hu. by eapply rtc_once, rm_uncommit. }
  destruct (if bool_decide (p ≠ ∅) then _ else _) as [[e|] pa]; [done|]. cbn.
  destruct (if (0 <? n)%Z then _ else _) as [[l|e|] pa']; cbn; [by apply rtc_once|done|by apply rtc_once].
Qed.

Lemma Restore_steps h a id r p n ex :
  res_valid r → rm_steps a (RestoreAllocCommit h a id r p n ex).2.
Proof.
  intros Hr. unfold RestoreAllocCommit. destruct (hardware_CheckCapacity h r) as [[|]|]; [|done..].
  destruct (CommitResources (a_resources a) id r) as [[e|] d] eqn:Hc; cbn; by eapply rtc_once, rm_commit.
Qed.

Lemma Allocate_steps v a id d cs : rm_steps a (allocator_Allocate v a id d cs).1.2.
Proof.
  unfold allocator_Allocate. destruct (commits a !! id); [|done].
  destruct (hardware_CheckCapacity _ _) as [[|]|]; [|done..]. destruct (negb (mountVolumeOnHost _ _)); [done|].
  destruct (AllocateResources (a_resources a) id (env_db_ok v)) as [[e|] m] eqn:Ha; cbn.
  { by eapply rtc_once, rm_allocate. }
  destruct (NewAllocation _ _ _) as [al|e|]; cbn; [|by eapply rtc_once, rm_allocate..].
  destruct (Allocation_Start _ _) as [[[e|] al'] o]; cbn; by eapply rtc_once, rm_allocate.
Qed.

Lemma Release_steps v a id : rm_steps a (allocator_Release v a id).1.2.
Proof.
  unfold allocator_Release. cbn. destruct (a_allocations a !! id) as [al|]; [|done].
  destruct (Terminate _ al) as [[[e|] al'] o]; cbn; [done|].
  destruct (DeallocateResources (a_resources a) id (env_db_ok v)) as [[e|] d] eqn:Hd; cbn.
  { by eapply rtc_once, rm_deallocate. }
  destruct (negb (unmountVolumeOnHost _ _)); cbn; by eapply rtc_once, rm_deallocate.
Qed.

Lemma fold_steps {B} (f : allocator → B → allocator) (l : list B) a :
  (∀ a x, rm_steps a (f a x)) → rm_steps a (fold_left f l a).
Proof.
  intros Hf. revert a. induction l as [|x l IH]; intros a; simpl; [done|].
  etrans; [apply (Hf a x)|apply IH].
Qed.

(** The checks reach the manager only through the reading of the free resources
    and a subtraction from the shared copy: the books stay the same. *)
Lemma CheckAvailability_books probe a ports n r :
  same_books (a_resources a) (a_resources (CheckAvailability probe a ports n r).2).
Proof.
  assert (∀ d, same_books d d) as Hrefl.
  { intros d. split; try done. intros r' Hr'. exists r', (res_GPUs r'). rewrite set_GPUs_id. auto. }
  unfold CheckAvailability. destruct (isAllocated _ _); [apply Hrefl|].
  destruct (portsAvailable _ _ _) as [[|]|e|]; try apply Hrefl.
  destruct (GetFreeResources (a_resources a)) as [[free|e] d] eqn:Hf;
    apply (GetFreeResources_spec _ ram_measure) in Hf as [Hs _]; cbn; [|done].
  destruct (onboardedResources d) as [onb|] eqn:Honb; [|done]. unfold subtractShared.
  destruct (Resources_Subtract free r) as [free' e]. assert (same_books (a_resources a)
    (set_onboarded d (set_GPUs onb (res_GPUs free')))) as Hs'.
  { destruct Hs as [S1 S2 S3 S4 S5]. split; try done. cbn. intros r' [= <-].
    destruct (S5 _ Honb) as (r0 & g & Hsrc & ->). exists r0, (res_GPUs free'). split; [done|]. by destruct r0. }
  by destruct e; cbn.
Qed.

(** ** Commitments *)

Lemma commit_fresh d id r d' :
  CommitResources d id r = (None, d') → committedResources d !! id = None.
Proof.
  unfold CommitResources. case_bool_decide; [done|]. destruct (IsCommitted d id) eqn:Hic; [done|].
  intros _. by apply bool_decide_eq_false, eq_None_not_Some in Hic.
Qed.

(** Taking a commitment back restores the books. *)
Lemma commit_uncommit d id r d' :
  rm_ok d → res_valid r → CommitResources d id r = (None, d') →
  ∃ d'', UncommitResources d' id = (None, d'') ∧ books d'' = books d.
Proof.
  intros [Hbv F1 _] Hr Hc. pose proof (commit_fresh _ _ _ _ Hc) as Hfresh.
  destruct (commit_spec _ _ _ _ _ ram_measure ram_u64 Hc Hbv F1 Hr) as (H1 & H2 & _).
  unfold UncommitResources, IsCommitted. rewrite H1, lookup_insert_eq, bool_decide_eq_true_2 by done.
  eexists. split; [done|]. unfold books. cbn. rewrite delete_insert_id by done. by rewrite H2.
Qed.

(** The ports a commitment names. *)
Definition static_ports (p : gmap Z Z) : list Z := visit (map fst (map_to_list p)).

Lemma static_ports_elem p x : x ∈ static_ports p ↔ x ∈ dom p.
Proof.
  unfold static_ports. rewrite (visit_perm (map fst (map_to_list p))), elem_of_dom.
  change (map fst) with (fmap (M:=list) (fst (A:=Z) (B:=Z))). rewrite list_elem_of_fmap. split.
  - intros ([k v] & -> & Hin%elem_of_map_to_list). simpl. by exists v.
  - intros [v Hv]. exists (x, v). by rewrite elem_of_map_to_list.
Qed.

(** Reserving the static ports of a new allocation: all of them or an error. *)
Definition allocateStatic (probe : Z → bool) (pa : portAllocator) (id : string) (p : gmap Z Z) :=
  if bool_decide (p ≠ ∅) then portAllocator_Allocate probe pa id (static_ports p) else (None, pa).

Lemma allocateStatic_ok probe pa id p pa' :
  allocateStatic probe pa id p = (None, pa') →
  (p = ∅ ∨ static_ports p = []) ∧ pa' = pa ∨
  Forall (usable probe pa) (static_ports p) ∧
    pa' = mkPortAllocator (pa_config pa) (<[id := static_ports p]> (pa_allocations pa))
            (list_to_set (static_ports p) ∪ pa_reserved pa).
Proof.
  unfold allocateStatic. case_bool_decide as Hp; [|intros [= <-]; left; split; [left; by destruct (decide (p = ∅)) as [?|[]]|done]].
  intros [[H ->]|(_ & _ & Hu & ->)]%Allocate_ok; auto.
Qed.

Lemma allocateStatic_err probe pa id p e pa' :
  (∀ x, x ∈ dom p → x ∉ pa_reserved pa) →
  allocateStatic probe pa id p = (Some e, pa') → pa' = pa.
Proof.
  intros Hf. unfold allocateStatic. case_bool_decide; [|done]. apply Allocate_err_id.
  rewrite isAllocated_false. intros x Hx%static_ports_elem. auto.
Qed.

(** Releasing after the static ports were reserved. *)
Lemma allocateStatic_Release probe pa id p pa' :
  pa_allocations pa !! id = None → allocateStatic probe pa id p = (None, pa') →
  portAllocator_Release pa' id = pa.
Proof.
  intros Hid [[_ ->]|[Hu ->]]%allocateStatic_ok; [|by eapply Release_assign].
  unfold portAllocator_Release. by rewrite Hid.
Qed.

(** The reserved ports after the static ones, and what a later dynamic assignment
    under the same identifier leaves reserved when it is released. *)
Lemma allocateStatic_reserved probe pa id p pa' :
  allocateStatic probe pa id p = (None, pa') →
  pa_config pa' = pa_config pa ∧ pa_reserved pa' = dom p ∪ pa_reserved pa ∧
  delete id (pa_allocations pa') = delete id (pa_allocations pa).
Proof.
  intros [[Hp ->]|[_ ->]]%allocateStatic_ok; cbn.
  - assert (dom p = ∅) as ->; [|by rewrite union_empty_l_L].
    destruct Hp as [->|Hs]; [set_solver|]. apply set_eq. intros x.
    rewrite <- static_ports_elem, Hs. set_solver.
  - rewrite delete_insert_eq. split_and!; [done| |done]. f_equal. apply set_eq. intros x.
    by rewrite elem_of_list_to_set, static_ports_elem.
Qed.

Lemma dynamic_Release scan probe pa id n l pa' :
  portAllocator_AllocateRandom scan probe pa id n = (Ok l, pa') →
  portAllocator_Release pa' id = mkPortAllocator (pa_config pa) (delete id (pa_allocations pa)) (pa_reserved pa).
Proof.
  intros [[_ Hno]|(l' & [= <-] & _ & _ & Hu & ->)]%AllocateRandom_cases; [by destruct (Hno l)|].
  unfold portAllocator_Release. cbn. rewrite lookup_insert_eq, release_spec. unfold set_pa_allocations. cbn.
  rewrite delete_insert_eq. f_equal. rewrite Forall_forall in Hu. unfold usable in Hu. set_solver.
Qed.

(** ** Reachable allocators *)

Inductive ar_step (a : allocator) : allocator → Prop :=
| ar_commit h f1 f2 f3 id rid r p n ex : res_valid r →
    ar_step a (allocator_Commit h f1 f2 f3 a id rid r p n ex).2
| ar_restore h id r p n ex : res_valid r → ar_step a (RestoreAllocCommit h a id r p n ex).2
| ar_uncommit id : ar_step a (Uncommit a id).2
| ar_allocate v id d cs : ar_step a (allocator_Allocate v a id d cs).1.2
| ar_release v id : ar_step a (allocator_Release v a id).1.2
| ar_exit v id r err : ar_step a (handleTransience v a id r err).1
| ar_check probe ports n r : ar_step a (CheckAvailability probe a ports n r).2
| ar_clear now : ar_step a (clearCommits now a)
| ar_monitor v : ar_step a (monitorTick v a)
| ar_stop w : ar_step a (allocator_Stop w a).1
| ar_alloc id al al' : a_allocations a !! id = Some al → al_step al al' →
    ar_step a (set_a_allocations a (<[id := al']> (a_allocations a))).

Definition ar_reachable (a : allocator) : Prop :=
  ∃ c onboarded stored, (∀ r, onboarded = Some r → res_valid r) ∧
    rtc ar_step (newAllocator (newPortAllocator c) (NewResourceManager onboarded stored)) a.

Lemma steps_rm_ok d d' : rtc rm_step d d' → rm_ok d → rm_ok d'.
Proof. induction 1 as [|d1 d2 d3 H12 _ IH]; [done|]. intros H. by eapply IH, step_rm_ok. Qed.

Lemma stop_resources w l (a : allocator) (o : list alloc_effect) :
  a_resources (fold_left
    (λ '(a, o) '(id, alloc), let '(_, alloc, o') := Allocation_Stop w alloc in
       (set_a_allocations a (<[id := alloc]> (a_allocations a)), o ++ o')) l (a, o)).1 = a_resources a.
Proof.
  revert a o. induction l as [|[id al] l IH]; intros a o; simpl; [done|].
  destruct (Allocation_Stop w al) as [[e al'] o']. by rewrite IH.
Qed.

Lemma step_ar_ok a a' : ar_step a a' → rm_ok (a_resources a) → rm_ok (a_resources a').
Proof.
  intros Hstep Hok. destruct Hstep as [h f1 f2 f3 id rid r p n ex Hr|h id r p n ex Hr|id|v id d cs|v id
    |v id r err|probe ports n r|now|v|w|id al al' _ _].
  - eapply steps_rm_ok; [by apply Commit_steps|done].
  - eapply steps_rm_ok; [by apply Restore_steps|done].
  - eapply steps_rm_ok; [by apply Uncommit_steps|done].
  - eapply steps_rm_ok; [by apply Allocate_steps|done].
  - eapply steps_rm_ok; [by apply Release_steps|done].
  - unfold handleTransience. destruct (a_allocations a !! id) as [al|]; [|done].
    destruct (taskExit r err al) as [[u al1] o1].
    set (a1 := set_a_allocations a _). pose proof (Release_steps v a1 id) as Hs.
    destruct (allocator_Release v a1 id) as [[x a2] o2].
    destruct (taskComplete _ _) as [[u' al2] o3]. cbn in *. by eapply steps_rm_ok.
  - eapply same_books_ok; [apply CheckAvailability_books|done].
  - eapply steps_rm_ok; [|done]. apply fold_steps. intros a1 [id ex]. destruct (_ <? _)%Z; [|done].
    apply Uncommit_steps.
  - eapply steps_rm_ok; [|done]. apply fold_steps. intros a1 ens. destruct (ensembleRunning _ _); [done|].
    cbn. apply fold_steps. intros. apply Release_steps.
  - unfold allocator_Stop. pose proof (stop_resources w (visit (map_to_list (a_allocations a))) a []) as Hs.
    destruct (fold_left _ _ (a, [])) as [a1 o1]. cbn in *. eapply steps_rm_ok; [|by rewrite <- Hs in Hok].
    apply fold_steps. intros. apply Uncommit_steps.
  - done.
Qed.

Lemma ar_reachable_ok a : ar_reachable a → rm_ok (a_resources a).
Proof.
  intros (c & onb & stored & Hv & Hrun).
  assert (rm_ok (NewResourceManager onb stored)) as Hinit.
  { apply rm_reachable_ok. exists onb, stored. split; [done|apply rtc_refl]. }
  revert Hinit. change (NewResourceManager onb stored)
    with (a_resources (newAllocator (newPortAllocator c) (NewResourceManager onb stored))).
  induction Hrun as [|a1 a2 a3 H12 _ IH]; [done|]. intros H. by eapply IH, step_ar_ok.
Qed.

(** *** The ports *)











End spec.

(** ** Ports *)

(** [Allocate] reserves all requested ports or fails: it succeeds exactly when
    the ports are distinct, in the range, not reserved and free on the system, and
    then they are reserved and listed under the allocation; when it fails, every
    requested port is given back, also one that was reserved before. *)
Theorem ports_Allocate_outcome free pa id ports e pa' :
  ports ≠ [] → portAllocator_Allocate free pa id ports = (e, pa') →
  (e = None ↔ NoDup ports ∧ Forall (usable free pa) ports) ∧
  pa' = match e with
        | None => mkPortAllocator (pa_config pa) (<[id := ports]> (pa_allocations pa))
                    (list_to_set ports ∪ pa_reserved pa)
        | Some _ => set_reserved pa (pa_reserved pa ∖ list_to_set ports)
        end.
Proof.
  intros Hne H. destruct e as [e|].
  - split; [|by eapply Allocate_err]. split; [done|]. intros [Hn Hu].
    destruct (Allocate_ok free pa id ports (mkPortAllocator (pa_config pa)
      (<[id := ports]> (pa_allocations pa)) (list_to_set ports ∪ pa_reserved pa))) as [_ Hok].
    rewrite Hok in H by by right. done.
  - by apply Allocate_ok in H as [[? _]|(_ & Hn & Hu & ->)].
Qed.


(** Asking twice for a taken port succeeds: the first request for a port that
    another allocation holds fails and releases the port, so the second one is
    granted, and both allocations hold it. *)
Theorem retry_takes_busy_port free pa id id' l p :
  ports_reachable pa → pa_allocations pa !! id = Some l → p ∈ l → id ≠ id' → free p = true →
  let '(e1, pa1) := portAllocator_Allocate free pa id' [p] in
  let '(e2, pa2) := portAllocator_Allocate free pa1 id' [p] in
  e1 = Some ErrPortReserved ∧ e2 = None ∧
  pa_allocations pa2 !! id = Some l ∧ pa_allocations pa2 !! id' = Some [p].
Proof.
  intros [R O N D]%ports_reachable_ok Hl Hp Hne Hfree.
  assert (p ∈ pa_reserved pa) as Hres by eauto. pose proof (R p Hres) as Hr.
  destruct (portAllocator_Allocate free pa id' [p]) as [e1 pa1] eqn:H1.
  assert (e1 = Some ErrPortReserved ∧ pa1 = set_reserved pa (pa_reserved pa ∖ {[p]})) as [-> ->].
  { split; [|destruct e1 as [e1|]].
    - revert H1. unfold portAllocator_Allocate, allocateLoop, portAllocator_allocate, in_range in *. simpl.
      destruct (Z.ltb_spec p (AvailableRangeFrom (pa_config pa))), (Z.ltb_spec (AvailableRangeTo (pa_config pa)) p);
        simpl; try lia. rewrite bool_decide_eq_true_2 by done. by intros [= <- _].
    - apply Allocate_err in H1 as ->. unfold set_reserved. f_equal. set_solver.
    - apply Allocate_ok in H1 as [[? _]|(_ & _ & Hu & _)]; [done|].
      apply Forall_cons in Hu as [(_ & ? & _) _]. done. }
  assert (portAllocator_Allocate free (set_reserved pa (pa_reserved pa ∖ {[p]})) id' [p] =
    (None, mkPortAllocator (pa_config pa) (<[id' := [p]]> (pa_allocations pa))
       (list_to_set [p] ∪ pa_reserved pa ∖ {[p]}))) as ->.
  { apply Allocate_ok. right. split_and!; [done|apply NoDup_singleton| |done].
    constructor; [|constructor]. unfold usable. simpl. split_and!; [done|set_solver|done]. }
  simpl. by rewrite lookup_insert_ne, lookup_insert_eq.
Qed.

(** ** The allocator *)

Section claims.
  Context `{Visit : MapVisit}.

(** The allocator never over-commits the machine: in every state its
    operations can reach, failed ones and housekeeping included, a successful
    [Commit] leaves the RAM and the disk of all commitments and allocations within
    the onboarded resources. *)
Theorem allocator_no_overcommit h f1 f2 f3 a id rid r p n ex a' :
  ar_reachable a → res_valid r → allocator_Commit h f1 f2 f3 a id rid r p n ex = (Ok (), a') →
  let d := a_resources a' in
  ∃ onb, onboardedResources d = Some onb ∧
    (total ram_size (committedResources d) + total ram_size (allocations d) ≤ ram_size onb)%Z ∧
    (total disk_size (committedResources d) + total disk_size (allocations d) ≤ disk_size onb)%Z.
Proof.
  intros [Hbv F1 F2]%ar_reachable_ok Hr H. cbv zeta.
  assert (CommitResources (a_resources a) rid r = (None, a_resources a')) as Hc.
  { revert H. unfold allocator_Commit. destruct (hardware_CheckCapacity h r) as [[|]|]; [|done..].
    destruct (CommitResources (a_resources a) rid r) as [[e|] d]; [done|]. cbv zeta.
    destruct (if bool_decide (p ≠ ∅) then _ else _) as [[e|] pa]; [done|].
    destruct (if (0 <? n)%Z then _ else _) as [[l|e|] pa']; [|done..]. by intros [= <-]. }
  destruct (commit_spec _ _ _ _ _ ram_measure ram_u64 Hc Hbv F1 Hr) as (_ & _ & onb & Ho & L1).
  destruct (commit_spec _ _ _ _ _ disk_measure disk_u64 Hc Hbv F2 Hr) as (_ & _ & onb' & Ho' & L2).
  rewrite Ho in Ho'. injection Ho' as <-. eauto.
Qed.

(** A failed commitment changes nothing: when the allocation holds no ports and
    none of the named ports is reserved, [Commit] that returns an error, wherever it
    failed, leaves the ports, the books of the manager, the commitments and the
    allocations as they were. *)
Theorem Commit_error_atomic h f1 f2 f3 a id r p n ex e a' :
  ar_reachable a → res_valid r → pa_allocations (a_ports a) !! id = None →
  (∀ x, x ∈ dom p → x ∉ pa_reserved (a_ports a)) →
  allocator_Commit h f1 f2 f3 a id id r p n ex = (Err e, a') →
  ∃ d, a' = set_a_resources a d ∧ books d = books (a_resources a).
Proof.
  intros Hok%ar_reachable_ok Hr Hid Hfree. unfold allocator_Commit.
  assert (∃ d, a = set_a_resources a d ∧ books d = books (a_resources a)) as Hsame
    by (exists (a_resources a); by destruct a).
  destruct (hardware_CheckCapacity h r) as [[|]|]; [|by intros [= _ <-]..].
  destruct (CommitResources (a_resources a) id r) as [[e'|] d] eqn:Hc.
  { intros [= _ <-]. exists d. split; [done|]. destruct Hok as [Hbv F1 _].
    apply commit_error in Hc as Hs; [|done..]. unfold books. by rewrite (sb_committed _ _ Hs), (sb_allocations _ _ Hs). }
  destruct (commit_uncommit _ _ _ _ Hok Hr Hc) as (d'' & Hu & Hb). cbv zeta. cbn.
  fold (static_ports p). fold (allocateStatic f1 (a_ports a) id p).
  destruct (allocateStatic f1 (a_ports a) id p) as [[e'|] pa] eqn:Hs.
  { intros [= _ <-]. apply allocateStatic_err in Hs as ->; [|done]. cbn. rewrite Hu.
    exists d''. split; [by destruct a|done]. }
  destruct (Z.ltb_spec 0 n) as [Hn|Hn]; [|done].
  destruct (portAllocator_AllocateRandom f2 f3 pa id n) as [[l|e'|] pa'] eqn:Hd; [done| |done].
  intros [= _ <-]. apply AllocateRandom_cases in Hd as [[-> _]|(l & ? & _)]; [|done].
  cbn. rewrite Hu, (allocateStatic_Release _ _ _ _ _ Hid Hs). exists d''. split; [by destruct a|done].
Qed.

(** [Uncommit] takes a commitment back: after a successful [Commit] it succeeds
    and restores the ports, the books and the commitments, except that a
    commitment with both static and dynamic ports loses its static ports: they
    stay reserved and no allocation holds them. *)
Theorem Commit_Uncommit h f1 f2 f3 a id r p n ex a' :
  ar_reachable a → res_valid r → pa_allocations (a_ports a) !! id = None →
  allocator_Commit h f1 f2 f3 a id id r p n ex = (Ok (), a') →
  let lost := if (0 <? n)%Z then dom p else ∅ in
  ∃ d, books d = books (a_resources a) ∧
    Uncommit a' id =
      (Ok (), set_a_ports (set_a_resources (dropCommit a id) d)
                (set_reserved (a_ports a) (lost ∪ pa_reserved (a_ports a)))).
Proof.
  intros Hok%ar_reachable_ok Hr Hid. unfold allocator_Commit.
  destruct (hardware_CheckCapacity h r) as [[|]|]; [|done..].
  destruct (CommitResources (a_resources a) id r) as [[e'|] d] eqn:Hc; [done|].
  destruct (commit_uncommit _ _ _ _ Hok Hr Hc) as (d'' & Hu & Hb). cbv zeta. cbn.
  fold (static_ports p). fold (allocateStatic f1 (a_ports a) id p).
  destruct (allocateStatic f1 (a_ports a) id p) as [[e'|] pa] eqn:Hs; [done|].
  intros H. exists d''. split; [done|].
  assert (∃ pa', a' = storeCommit (set_a_ports (set_a_resources a d) pa') id ex p n ∧
    portAllocator_Release pa' id = set_reserved (a_ports a)
      ((if (0 <? n)%Z then dom p else ∅) ∪ pa_reserved (a_ports a))) as (pa' & -> & Hrel).
  { destruct (Z.ltb_spec 0 n) as [Hn|Hn].
    - destruct (portAllocator_AllocateRandom f2 f3 pa id n) as [[l|e'|] pa'] eqn:Hd; [|done..].
      exists pa'. split; [by injection H as <-|]. rewrite (dynamic_Release _ _ _ _ _ _ _ Hd).
      apply allocateStatic_reserved in Hs as (-> & -> & ->). by rewrite delete_id.
    - exists pa. split; [by injection H as <-|]. rewrite (allocateStatic_Release _ _ _ _ _ Hid Hs).
      by rewrite union_empty_l_L, set_reserved_id. }
  unfold Uncommit. cbn. rewrite lookup_insert_eq, Hu, Hrel. unfold dropCommit, set_a_ports, set_a_resources.
  cbn. by rewrite !delete_insert_eq.
Qed.

(** An allocation that fails to start keeps its resources for good: when
    [Allocate] fails in creating or starting the allocation, its resources are
    counted as allocated, [Release] succeeds without giving them back, and
    [Uncommit] fails. *)
Theorem failed_start_leaks v a id d cs e a' o :
  a_allocations a !! id = None →
  allocator_Allocate v a id d cs = (Err (ErrAllocation e), a', o) →
  is_Some (allocations (a_resources a') !! id) ∧
  (∀ v', ∃ a'', allocator_Release v' a' id = (Ok (), a'', []) ∧ a_resources a'' = a_resources a') ∧
  ∃ a'', Uncommit a' id = (Err (ErrResources ErrResourcesNotCommitted), a'') ∧
    a_resources a'' = a_resources a'.
Proof.
  intros Hna. unfold allocator_Allocate. destruct (commits a !! id) as [ex|] eqn:Hex; [|done].
  destruct (hardware_CheckCapacity _ _) as [[|]|]; [|done..]. destruct (negb (mountVolumeOnHost _ _)); [done|].
  destruct (AllocateResources (a_resources a) id (env_db_ok v)) as [[e'|] m] eqn:Ha; [done|]. intros H.
  assert (a' = set_a_resources a m) as ->.
  { revert H. cbv zeta. destruct (NewAllocation _ _ _) as [al|e'|]; [|by intros [= _ <- _]|done].
    destruct (Allocation_Start _ _) as [[[e'|] al'] o']; [by intros [= _ <- _]|done]. }
  clear H. revert Ha. unfold AllocateResources, storeAllocation.
  destruct (committedResources (a_resources a) !! id) as [r|]; [|done]. destruct (IsAllocated _ _); [done|].
  destruct (negb (env_db_ok v)); [done|]. intros [= <-]. split_and!.
  - cbn. rewrite lookup_insert_eq. eauto.
  - intros v'. unfold allocator_Release. cbn. rewrite Hna. eauto.
  - unfold Uncommit. cbn. rewrite Hex. unfold UncommitResources, IsCommitted. cbn.
    rewrite bool_decide_eq_false_2 by (rewrite lookup_delete_eq; by intros []). cbn. eauto.
Qed.

(** A task that ends well is released: its exit is reported as completed, its
    execution is removed, and the allocation, its resources and its ports are
    given back when the database and the volumes agree; its actor is not
    stopped. *)
Theorem completed_task_released v a id al a' o :
  a_allocations a !! id = Some al → status al ≠ AllocationCompleted →
  is_Some (allocations (a_resources a) !! id) → is_Some (db_allocations (a_resources a) !! id) →
  env_db_ok v = true → unmountVolumeOnHost v (job_Volume (al_Job (details al))) = true →
  handleTransience v a id (Some (mkResult 0 false)) false = (a', o) →
  a_allocations a' = delete id (a_allocations a) ∧
  allocations (a_resources a') = delete id (allocations (a_resources a)) ∧
  a_ports a' = portAllocator_Release (a_ports a) id ∧
  StatusUpdate (al_ID (details al)) (status al) AllocationCompleted ∈ o ∧
  TaskTermination (al_ID (details al)) AllocationCompleted 0 false false ∈ o ∧
  ExecutorRemove (al_executionID (details al)) ∈ o ∧
  ∀ x, ActorStop x ∉ o.
Proof.
  intros Hal Hst Hra [rdb Hdb] Hok Hun. unfold handleTransience. rewrite Hal.
  assert (taskExit (Some (mkResult 0 false)) false al = ((), set_al_status al AllocationCompleted,
    [StatusUpdate (al_ID (details al)) (status al) AllocationCompleted;
     TaskTermination (al_ID (details al)) AllocationCompleted 0 false false])) as ->.
  { unfold taskExit. alloc_unfold. simpl. rewrite bool_decide_eq_true_2 by done. done. }
  set (al1 := set_al_waiters _ _). cbv zeta.
  unfold allocator_Release. cbn. rewrite lookup_insert_eq, Terminate_completed by done.
  unfold DeallocateResources, deleteAllocation, IsAllocated. cbn -[unmountVolumeOnHost].
  rewrite bool_decide_eq_true_2, Hdb, Hok by done. cbn -[unmountVolumeOnHost]. rewrite Hun. cbn.
  destruct (taskComplete (env_alloc v) al1) as [[u al2] o3] eqn:Hco. intros [= <- <-]. cbn.
  split_and!; [by rewrite insert_insert_eq, delete_insert_eq|done|done|set_solver|set_solver|set_solver|].
  revert Hco. unfold taskComplete. alloc_unfold. cbn. intros Hco x Hx.
  assert (∀ t l, ActorStop x ∉ map (λ c : ContractConfig, ContractEvent t (al_ID (details al)) (cc_Host c)
    (cc_DID c) (cc_DID (headContract (Contracts al)))) l) as Hmap.
  { intros t l. induction l; simpl; set_solver. }
  assert (ActorStop x ∉ o3) by (case_bool_decide; simplify_eq; [set_solver|apply Hmap]).
  pose proof (Hmap StopAllocationEvent (contractsToNotify (env_alloc v) (Contracts al))). set_solver.
Qed.

End claims.

(** ** Concrete states *)

#[local] Instance visit_plain : MapVisit := {| visit A l := l; visit_perm A l := reflexivity l |}.

Definition all_free (p : Z) : bool := true.
Definition sample_ports : portAllocator := newPortAllocator (mkPortConfig 16384 16390).
Definition sample_held : portAllocator := (portAllocator_Allocate all_free sample_ports "A" [16385%Z; 16386%Z]).2.

Lemma sample_held_reachable : ports_reachable sample_held.
Proof. exists (mkPortConfig 16384 16390). by apply rtc_once, ps_allocate. Qed.

Lemma ports_Allocate_outcome_witness :
  pa_reserved sample_held = {[16385%Z; 16386%Z]} ∧
  (portAllocator_Allocate all_free sample_held "B" [16386%Z; 16387%Z]).1 = Some ErrPortReserved ∧
  (portAllocator_Allocate all_free sample_held "B" [16386%Z; 16387%Z]).2 =
    set_reserved sample_held (pa_reserved sample_held ∖ list_to_set [16386%Z; 16387%Z]).
Proof.
  split; [vm_compute; reflexivity|]. split; [vm_compute; reflexivity|].
  apply (ports_Allocate_outcome all_free sample_held "B" [16386%Z; 16387%Z] (Some ErrPortReserved));
    [done|vm_compute; reflexivity].
Defined.

Lemma retry_takes_busy_port_witness :
  let pa1 := (portAllocator_Allocate all_free sample_held "B" [16385%Z]).2 in
  pa_allocations (portAllocator_Allocate all_free pa1 "B" [16385%Z]).2 !! "A" = Some [16385%Z; 16386%Z] ∧
  pa_allocations (portAllocator_Allocate all_free pa1 "B" [16385%Z]).2 !! "B" = Some [16385%Z].
Proof.
  destruct (retry_takes_busy_port all_free sample_held "A" "B" [16385%Z; 16386%Z] 16385) as (_ & _ & H1 & H2).
  - apply sample_held_reachable.
  - vm_compute. reflexivity.
  - by left.
  - discriminate.
  - reflexivity.
  - split; [exact H1|exact H2].
Defined.

(** A machine of 10 units with nothing in use. *)
Definition idle : Measurement := mkMeasurement (Some (machine 0 0 [])) (Some (machine 10 10 [])).
Definition sample_allocator : allocator :=
  newAllocator sample_ports (NewResourceManager (Some (machine 10 10 [])) ∅).

Lemma sample_allocator_reachable a : rtc ar_step sample_allocator a → ar_reachable a.
Proof.
  intros Hrun. exists (mkPortConfig 16384 16390), (Some (machine 10 10 [])), ∅. split; [|done].
  intros r [= <-]. by apply machine_valid; unfold is_u64.
Qed.

Lemma sample_job_valid : res_valid (machine 4 4 []).
Proof. by apply machine_valid; unfold is_u64. Qed.

(** A commitment of one static and two dynamic ports. *)
Definition sample_commit (a : allocator) :=
  allocator_Commit idle all_free all_free all_free a "ens_n.web" "ens_n.web" (machine 4 4 [])
    {[ 16384%Z := 80%Z ]} 2 100.

Lemma allocator_no_overcommit_witness :
  let d := a_resources (sample_commit sample_allocator).2 in
  ∃ onb, onboardedResources d = Some onb ∧
    (total ram_size (committedResources d) + total ram_size (allocations d) ≤ ram_size onb)%Z ∧
    (total disk_size (committedResources d) + total disk_size (allocations d) ≤ disk_size onb)%Z.
Proof.
  apply (allocator_no_overcommit idle all_free all_free all_free sample_allocator "ens_n.web" "ens_n.web"
    (machine 4 4 []) {[ 16384%Z := 80%Z ]} 2 100).
  - by apply sample_allocator_reachable.
  - apply sample_job_valid.
  - vm_compute. reflexivity.
Defined.

Lemma Commit_error_atomic_witness :
  ∃ d, (allocator_Commit idle all_free (λ _, false) all_free sample_allocator "ens_n.web" "ens_n.web"
          (machine 4 4 []) {[ 16384%Z := 80%Z ]} 2 100).2 = set_a_resources sample_allocator d ∧
    books d = books (a_resources sample_allocator).
Proof.
  apply (Commit_error_atomic idle all_free (λ _, false) all_free sample_allocator "ens_n.web"
    (machine 4 4 []) {[ 16384%Z := 80%Z ]} 2 100 (ErrPorts ErrTooFewPorts)).
  - by apply sample_allocator_reachable.
  - apply sample_job_valid.
  - reflexivity.
  - intros x _. apply not_elem_of_empty.
  - vm_compute. reflexivity.
Defined.



(** The static port is lost. *)
Lemma Commit_Uncommit_witness :
  (Uncommit (sample_commit sample_allocator).2 "ens_n.web").1 = Ok () ∧
  pa_reserved (a_ports (Uncommit (sample_commit sample_allocator).2 "ens_n.web").2) = {[16384%Z]}.
Proof.
  destruct (Commit_Uncommit idle all_free all_free all_free sample_allocator "ens_n.web"
    (machine 4 4 []) {[ 16384%Z := 80%Z ]} 2 100 (sample_commit sample_allocator).2) as (d & _ & H).
  - by apply sample_allocator_reachable.
  - apply sample_job_valid.
  - reflexivity.
  - vm_compute. reflexivity.
  - rewrite H. split; [reflexivity|vm_compute; reflexivity].
Defined.

Definition task_details (execution : string) : AllocationDetails :=
  mkDetails "ens_n.web" AllocationTypeTask execution (mkJob (machine 4 4 []) []) "host" "/work" "dep" "did:key:z1".

(** Everything agrees, but the actor may refuse to start. *)
Definition sample_env (actor_ok : bool) : Env :=
  mkEnv idle (λ _, true) (λ _, true) (λ _, true) (λ _, true) true true true
    (mkAnswers true (λ _, true) true (Some ExecutionStatusRunning) true true true actor_ok (λ _, None) 0).

Lemma failed_start_leaks_witness :
  let a := (sample_commit sample_allocator).2 in
  let '(e, a', _) := allocator_Allocate (sample_env false) a "ens_n.web" (task_details "x") ∅ in
  e = Err (ErrAllocation ErrStartActor) ∧
  ∃ a'', Uncommit a' "ens_n.web" = (Err (ErrResources ErrResourcesNotCommitted), a'') ∧
    a_resources a'' = a_resources a'.
Proof.
  cbv zeta. destruct (allocator_Allocate (sample_env false) (sample_commit sample_allocator).2 "ens_n.web"
    (task_details "x") ∅) as [[e a'] o] eqn:H.
  assert (e = Err (ErrAllocation ErrStartActor)) as -> by (vm_compute in H; congruence). split; [done|].
  by eapply (failed_start_leaks (sample_env false) (sample_commit sample_allocator).2 "ens_n.web"
    (task_details "x") ∅ ErrStartActor a' o).
Defined.

Definition sample_task : allocator :=
  (allocator_Allocate (sample_env true) (sample_commit sample_allocator).2 "ens_n.web" (task_details "x") ∅).1.2.

Lemma completed_task_released_witness :
  a_allocations (handleTransience (sample_env true) sample_task "ens_n.web" (Some (mkResult 0 false)) false).1 =
  delete "ens_n.web" (a_allocations sample_task).
Proof.
  destruct (handleTransience (sample_env true) sample_task "ens_n.web" (Some (mkResult 0 false)) false)
    as [a' o] eqn:H.
  eapply (completed_task_released (sample_env true) sample_task "ens_n.web") in H as [H _]; [exact H|..].
  - vm_compute. reflexivity.
  - discriminate.
  - vm_compute. eauto.
  - vm_compute. eauto.
  - reflexivity.
  - reflexivity.
Defined.
