(* ===== verification/Ensemble.v ===== *)
(** * Ensembles, bids and manifests (dms/jobs/types)

    ensemble.go, bid.go and manifest.go: the configuration of an ensemble with its
    nodes and allocations, the requests for bids and the bids, and the manifest of a
    deployment.  The methods on a configuration are those of its version 1; a
    missing version makes them panic, [EnsembleConfig_Validate] refuses it. *)

From S2P Require Import Prelude GoStrings GoNumbers AllocationID Key Envelope.
From S2P Require Import Hardware ResourceManager Allocation.

Definition ExecutorDocker : string := "docker".
Definition ExecutorContainerd : string := "containerd".
Definition ExecutorNull : string := "null".

(** ** Locations *)

Record Location := mkLocation {
  Continent : string;
  Country : string;
  City : string;
  ASN : Z;
  ISP : string
}.

#[export] Instance Location_eq_dec : EqDecision Location.
Proof. solve_decision. Defined.

Record LocationConstraints := mkLocationConstraints {
  Accept : list Location;
  Reject : list Location
}.

(** The fields that are not set match everything, except the continent. *)
Definition Location_Equal (l other : Location) : bool :=
  if bool_decide (Continent l ≠ Continent other) then false
  else if bool_decide (Country l ≠ "") && bool_decide (Country l ≠ Country other) then false
  else if bool_decide (City l ≠ "") && bool_decide (City l ≠ City other) then false
  else if (0 <? ASN l)%Z && negb (ASN l =? ASN other)%Z then false
  else if bool_decide (ISP l ≠ "") && bool_decide (ISP l ≠ ISP other) then false
  else true.

(** A list of accepted locations takes precedence. *)
Definition Satisfies (l : Location) (c : LocationConstraints) : bool :=
  if (0 <? length (Accept c))%nat then existsb (λ a, Location_Equal a l) (Accept c)
  else forallb (λ r, negb (Location_Equal r l)) (Reject c).

(** ** Configurations *)

Record EnsemblePort := mkEnsemblePort {
  port_Public : Z;
  port_Private : Z;
  port_Allocation : string
}.

Record NodeConfig := mkNodeConfig {
  node_Allocations : list string;
  node_Ports : list EnsemblePort;
  node_Location : LocationConstraints;
  node_Peer : string;
  node_Redundancy : Z;
  node_FailureRecovery : string
}.

Definition set_node_Peer n v := mkNodeConfig (node_Allocations n) (node_Ports n) (node_Location n) v
  (node_Redundancy n) (node_FailureRecovery n).
Definition set_node_Allocations n v := mkNodeConfig v (node_Ports n) (node_Location n) (node_Peer n)
  (node_Redundancy n) (node_FailureRecovery n).
Definition set_node_Ports n v := mkNodeConfig (node_Allocations n) v (node_Location n) (node_Peer n)
  (node_Redundancy n) (node_FailureRecovery n).

Record EdgeConstraint := mkEdge {
  edge_S : string;
  edge_T : string;
  edge_RTT : Z;
  edge_BW : Z
}.

#[export] Instance EdgeConstraint_eq_dec : EqDecision EdgeConstraint.
Proof. solve_decision. Defined.

Record HealthCheckManifest := mkHealthCheck {
  hc_Type : string;
  hc_Exec : list string;
  hc_Endpoint : string;
  hc_Response : string * string;   (* type, value *)
  hc_Interval : Z
}.

Definition HealthCheckManifest_zero : HealthCheckManifest := mkHealthCheck "" [] "" ("", "") 0.

Record AllocationKey := mkAllocationKey {
  key_Type : string;
  key_File : string;
  key_Dest : string
}.

(** The specification of an execution: whether docker decodes it and whether it asks
    for privileges is all that is read of it here. *)
Record AllocationConfig := mkAllocationConfig {
  acfg_Executor : string;
  acfg_Type : string;
  acfg_Resources : Resources;
  acfg_Execution : string;
  acfg_DNSName : string;
  acfg_Keys : list AllocationKey;
  acfg_Provision : list string;
  acfg_HealthCheck : HealthCheckManifest;
  acfg_Volume : list VolumeConfig;
  acfg_FailureRecovery : string;
  acfg_DependsOn : list string
}.

Definition AllocationConfig_zero : AllocationConfig :=
  mkAllocationConfig "" "" Resources_zero "" "" [] [] HealthCheckManifest_zero [] "" [].

(** A tree of supervisors. *)
Inductive SupervisorConfig : Type :=
| mkSupervisor (strategy : string) (allocations : list string) (children : list SupervisorConfig).

Definition sup_Strategy (s : SupervisorConfig) : string := match s with mkSupervisor x _ _ => x end.
Definition sup_Allocations (s : SupervisorConfig) : list string := match s with mkSupervisor _ x _ => x end.
Definition sup_Children (s : SupervisorConfig) : list SupervisorConfig := match s with mkSupervisor _ _ x => x end.

Record EnsembleConfigV1 := mkConfig {
  EscalationStrategy : string;
  cfg_Allocations : gmap string AllocationConfig;
  cfg_Nodes : gmap string NodeConfig;
  cfg_Edges : list EdgeConstraint;
  cfg_Supervisor : SupervisorConfig;
  cfg_ExcludePeers : list string;
  cfg_SubnetJoin : bool;
  cfg_Metadata : gmap string string;
  cfg_Contracts : gmap string ContractConfig;
  cfg_Keys : gmap string string;
  cfg_Scripts : gmap string string
}.

Definition set_cfg_nodes c v := mkConfig (EscalationStrategy c) (cfg_Allocations c) v (cfg_Edges c)
  (cfg_Supervisor c) (cfg_ExcludePeers c) (cfg_SubnetJoin c) (cfg_Metadata c) (cfg_Contracts c)
  (cfg_Keys c) (cfg_Scripts c).
Definition set_cfg_allocations c v := mkConfig (EscalationStrategy c) v (cfg_Nodes c) (cfg_Edges c)
  (cfg_Supervisor c) (cfg_ExcludePeers c) (cfg_SubnetJoin c) (cfg_Metadata c) (cfg_Contracts c)
  (cfg_Keys c) (cfg_Scripts c).

Record EnsembleConfig := mkEnsembleConfig { ecfg_V1 : option EnsembleConfigV1 }.

Definition EnsembleConfig_Validate (e : EnsembleConfig) : bool :=
  bool_decide (is_Some (ecfg_V1 e)).

Definition Contract (e : EnsembleConfigV1) (contractID : string) : option ContractConfig :=
  cfg_Contracts e !! contractID.
Definition cfg_Allocation (e : EnsembleConfigV1) (name : string) : option AllocationConfig :=
  cfg_Allocations e !! name.

Section ensemble.
  Context `{Visit : MapVisit} `{NodeGen : NodeIDGenerator}.

(** The standby nodes of one node: as many as its redundancy, without its peer. *)
Definition standbysOf (nodeID : string) (nodeConfig : NodeConfig) : list (string * NodeConfig) :=
  if (node_Redundancy nodeConfig =? 0)%Z then []
  else omap (λ i, match GenerateStandbyNodeID nodeID i with
                  | Ok standbyNodeID =>
                      Some (standbyNodeID,
                            mkNodeConfig (node_Allocations nodeConfig) (node_Ports nodeConfig)
                              (node_Location nodeConfig) "" 0 (node_FailureRecovery nodeConfig))
                  | _ => None
                  end)
         (seqZ 1 (node_Redundancy nodeConfig)).

Definition buildStandbyNodes (nodes : gmap string NodeConfig) : gmap string NodeConfig :=
  fold_left (λ m '(nodeID, nodeConfig),
               fold_left (λ m '(id, c), <[id := c]> m) (standbysOf nodeID nodeConfig) m)
    (visit (map_to_list nodes)) ∅.

(** All nodes: a standby node replaces a primary node of the same name. *)
Definition Nodes (e : EnsembleConfigV1) : gmap string NodeConfig :=
  buildStandbyNodes (cfg_Nodes e) ∪ cfg_Nodes e.

Definition PrimaryNodes (e : EnsembleConfigV1) : gmap string NodeConfig := cfg_Nodes e.

(** One node, primary or standby; a standby has the configuration of its primary. *)
Definition Node (e : EnsembleConfigV1) (nodeID : string) : option NodeConfig :=
  match cfg_Nodes e !! nodeID with
  | Some n => Some n
  | None =>
      match ParseNodeID nodeID with
      | Ok (true, primaryNodeID, standbyIndex) =>
          match cfg_Nodes e !! primaryNodeID with
          | None => None
          | Some primaryNode =>
              if (standbyIndex <? 1)%Z || (node_Redundancy primaryNode <? standbyIndex)%Z then None
              else Some primaryNode
          end
      | _ => None
      end
  end.

Definition AllocationsForNode (e : EnsembleConfigV1) (node : string) : gmap string AllocationConfig :=
  match Node e node with
  | None => ∅
  | Some nodeConfig =>
      fold_left (λ m name, match cfg_Allocation e name with Some a => <[name := a]> m | None => m end)
        (node_Allocations nodeConfig) ∅
  end.

Definition PortsForAllocation (e : EnsembleConfigV1) (allocation : string) : list EnsemblePort :=
  flat_map (λ n, List.filter (λ p, bool_decide (port_Allocation p = allocation)) (node_Ports n))
    (visit (map snd (map_to_list (Nodes e)))).

Definition AddNodeAndAllocations (e : EnsembleConfigV1) (name : string) (node : NodeConfig)
    (allocs : gmap string AllocationConfig) : EnsembleConfigV1 :=
  let e := set_cfg_nodes e (<[name := node]> (cfg_Nodes e)) in
  set_cfg_allocations e
    (filter (λ kv, kv.1 ∈ node_Allocations node) allocs ∪ cfg_Allocations e).

Definition RemoveNodeAndAllocations (e : EnsembleConfigV1) (nodeName : string) : EnsembleConfigV1 :=
  match Node e nodeName with
  | None => e
  | Some nodeCfg =>
      let e := set_cfg_nodes e (delete nodeName (cfg_Nodes e)) in
      set_cfg_allocations e
        (fold_left (λ m a, delete a m) (node_Allocations nodeCfg) (cfg_Allocations e))
  end.

End ensemble.

(** ** Bids *)

Record BidRequestV1 := mkBidRequest {
  br_NodeID : string;
  br_Executors : list string;
  br_Resources : Resources;
  br_Location : LocationConstraints;
  br_Static : list Z;
  br_Dynamic : Z;
  br_PrivilegedDocker : bool;
  br_Contracts : gmap string ContractConfig
}.

Record EnsembleBidRequest := mkEnsembleBidRequest {
  ebr_ID : string;
  ebr_Request : list BidRequestV1;
  ebr_Nonce : Z;
  ebr_PeerExclusion : list string
}.

Definition EnsembleBidRequest_Validate (b : option EnsembleBidRequest) : bool :=
  match b with
  | None => false
  | Some b => if bool_decide (ebr_ID b = "") then false
              else negb (length (ebr_Request b) =? 0)%nat
  end.

Record BidV1 := mkBidV1 {
  bid_EnsembleID : string;
  bid_NodeID : string;
  bid_Peer : string;
  bid_Location : Location;
  bid_Handle : Handle;
  bid_PubAddress : string;
  bid_Contracts : gmap string ContractConfig;
  bid_Signature : string;
  bid_PromiseBid : bool
}.

Definition set_bid_Signature b s := mkBidV1 (bid_EnsembleID b) (bid_NodeID b) (bid_Peer b) (bid_Location b)
  (bid_Handle b) (bid_PubAddress b) (bid_Contracts b) s (bid_PromiseBid b).

Record Bid := mkBid { bid_V1 : option BidV1 }.

(** The encoding of bids and the keys of peers (package peer of libp2p). *)
Class BidLib := {
  marshal_bid : BidV1 → option string;
  peer_key : string → option string;
  peer_verify : string → string → string → option bool
}.

Section bids.
  Context `{BidLib}.

Definition bidPrefix : string := "dms-bid-".

Definition Bid_SignatureData (b : BidV1) : option string :=
  match marshal_bid (set_bid_Signature b "") with
  | None => None
  | Some data => Some (bidPrefix +:+ data)
  end.

(** [sign] is the provider's signature. *)
Definition Bid_Sign (sign : string → option string) (b : BidV1) : option BidV1 :=
  match Bid_SignatureData b with
  | None => None
  | Some data => match sign data with None => None | Some sig => Some (set_bid_Signature b sig) end
  end.

Definition Bid_Validate (b : Bid) : bool :=
  match bid_V1 b with
  | None => false
  | Some v =>
      match peer_key (bid_Peer v) with
      | None => false
      | Some key =>
          match Bid_SignatureData v with
          | None => false
          | Some data =>
              match peer_verify key data (bid_Signature v) with
              | Some ok => ok
              | None => false
              end
          end
      end
  end.

End bids.

(** ** Manifests *)

(** Strings, empty before they are set. *)
Definition NodeStatusActive : string := "active".
Definition NodeStatusStandby : string := "standby".
Definition RolePrimary : string := "primary".
Definition RoleStandby : string := "standby".

Record AllocationManifest := mkAllocationManifest {
  amf_ID : string;
  amf_NodeID : string;
  amf_Type : string;
  amf_Handle : Handle;
  amf_DNSName : string;
  amf_PrivAddr : string;
  amf_Ports : gmap Z Z;
  amf_Healthcheck : HealthCheckManifest;
  amf_Status : AllocationStatus;
  amf_RedundancyGroup : string;
  amf_IsStandby : bool
}.

Record NodeManifest := mkNodeManifest {
  nmf_ID : string;
  nmf_Peer : string;
  nmf_Handle : Handle;
  nmf_PubAddress : list string;
  nmf_Location : Location;
  nmf_Allocations : list string;
  nmf_RedundancyRole : string;
  nmf_PrimaryNode : string;
  nmf_StandbyNodes : list string;
  nmf_StandbyIndex : Z;
  nmf_Status : string
}.

Definition Location_zero : Location := mkLocation "" "" "" 0 "".

Definition AllocationManifest_zero : AllocationManifest :=
  mkAllocationManifest "" "" "" Handle_zero "" "" ∅ HealthCheckManifest_zero AllocationPending "" false.
Definition NodeManifest_zero : NodeManifest :=
  mkNodeManifest "" "" Handle_zero [] Location_zero [] "" "" [] 0 "".

Definition set_amf_Status a v := mkAllocationManifest (amf_ID a) (amf_NodeID a) (amf_Type a) (amf_Handle a)
  (amf_DNSName a) (amf_PrivAddr a) (amf_Ports a) (amf_Healthcheck a) v (amf_RedundancyGroup a) (amf_IsStandby a).
Definition set_amf_PrivAddr a v := mkAllocationManifest (amf_ID a) (amf_NodeID a) (amf_Type a) (amf_Handle a)
  (amf_DNSName a) v (amf_Ports a) (amf_Healthcheck a) (amf_Status a) (amf_RedundancyGroup a) (amf_IsStandby a).
Definition set_nmf_Handle n v := mkNodeManifest (nmf_ID n) (nmf_Peer n) v (nmf_PubAddress n) (nmf_Location n)
  (nmf_Allocations n) (nmf_RedundancyRole n) (nmf_PrimaryNode n) (nmf_StandbyNodes n) (nmf_StandbyIndex n) (nmf_Status n).
Definition set_nmf_Allocations n v := mkNodeManifest (nmf_ID n) (nmf_Peer n) (nmf_Handle n) (nmf_PubAddress n)
  (nmf_Location n) v (nmf_RedundancyRole n) (nmf_PrimaryNode n) (nmf_StandbyNodes n) (nmf_StandbyIndex n) (nmf_Status n).

Record EnsembleManifest := mkManifest {
  mf_ID : string;
  mf_Metadata : gmap string string;
  mf_Orchestrator : Handle;
  mf_Allocations : gmap string AllocationManifest;
  mf_Nodes : gmap string NodeManifest;
  mf_SubnetJoin : bool;
  mf_Contracts : gmap string (string * string * string)   (* id, DID, host *)
}.

Definition set_mf_allocations m v := mkManifest (mf_ID m) (mf_Metadata m) (mf_Orchestrator m) v (mf_Nodes m)
  (mf_SubnetJoin m) (mf_Contracts m).
Definition set_mf_nodes m v := mkManifest (mf_ID m) (mf_Metadata m) (mf_Orchestrator m) (mf_Allocations m) v
  (mf_SubnetJoin m) (mf_Contracts m).

Definition UpdateAllocation (mf : EnsembleManifest) (name : string)
    (update : AllocationManifest → AllocationManifest) : option EnsembleManifest :=
  match mf_Allocations mf !! name with
  | None => None
  | Some alloc => Some (set_mf_allocations mf (<[name := update alloc]> (mf_Allocations mf)))
  end.

Definition IsTerminatedTask (mf : EnsembleManifest) (name : string) : bool :=
  match mf_Allocations mf !! name with
  | None => false
  | Some a => bool_decide (amf_Type a = AllocationTypeTask) && bool_decide (amf_Status a ≠ AllocationRunning)
  end.
