(* ===== verification/BidCoordinator.v ===== *)
(** * Collecting bids and choosing candidates (dms/orchestrator/bid.go)

    The orchestrator asks for bids for the nodes of an ensemble, keeps at most
    [MaxBidMultiplier] bids per node and one bid per peer, and draws random
    combinations of bids until one satisfies the constraints between nodes.

    Random numbers, the bids that arrive, how often a loop runs before the deadline,
    the answers of the peers about an edge, and the geographic estimate of a round
    trip are arguments.  Two slices share their elements in [makeResidualBidRequest]:
    the bids that are iterated over and the bids of the node that shrink meanwhile;
    the model keeps the array they share. *)

From S2P Require Import Prelude GoStrings GoNumbers AllocationID Key Envelope.
From S2P Require Import Hardware ResourceManager Allocation Ensemble.

Definition MaxBidMultiplier : nat := 8.
Definition MaxPermutations : Z := 1000000.

Inductive bid_error :=
| ErrCandidateNotFound
| ErrBidRequest
| ErrDockerSpec.

#[export] Instance bid_error_eq_dec : EqDecision bid_error.
Proof. solve_decision. Defined.

(** The bids by node and the peers that may not bid any more. *)
Record BidState := mkBidState {
  bidMap : gmap string (list BidV1);
  peerExclusion : gset string
}.

Section bidding.
  Context `{Visit : MapVisit} `{NodeGen : NodeIDGenerator} `{Bids : BidLib}.

(** ** Which bids are kept *)

Definition nodeForTargetPeer (cfg : EnsembleConfigV1) : gmap string string :=
  fold_left (λ m '(nodeID, node), if bool_decide (node_Peer node ≠ "") then <[node_Peer node := nodeID]> m else m)
    (visit (map_to_list (Nodes cfg))) ∅.

Definition bidsOf (st : BidState) (nodeID : string) : list BidV1 := default [] (bidMap st !! nodeID).

(** The peers the configuration excludes; a pinned peer among them keeps the bid of
    an earlier candidate. *)
Definition excludePeer (cfg : EnsembleConfigV1) (candidates : gmap string BidV1) (st : BidState)
    (peerID : string) : BidState :=
  let st := mkBidState (bidMap st) ({[peerID]} ∪ peerExclusion st) in
  match nodeForTargetPeer cfg !! peerID with
  | None => st
  | Some nodeID =>
      match candidates !! nodeID with
      | None => st
      | Some b => mkBidState (<[nodeID := bidsOf st nodeID ++ [b]]> (bidMap st)) (peerExclusion st)
      end
  end.

Definition initialBids (cfg : EnsembleConfigV1) (candidates : gmap string BidV1) : BidState :=
  fold_left (excludePeer cfg candidates) (cfg_ExcludePeers cfg) (mkBidState ∅ ∅).

Definition acceptPeerLocation (cfg : EnsembleConfigV1) (nodeID peerID : string) (loc : Location) : bool :=
  match Node cfg nodeID with
  | None => false
  | Some n => if bool_decide (node_Peer n ≠ "") then bool_decide (node_Peer n = peerID)
              else Satisfies loc (node_Location n)
  end.

Definition addBid (cfg : EnsembleConfigV1) (st : BidState) (b : BidV1) : bool * BidState :=
  let reserved := match nodeForTargetPeer cfg !! bid_Peer b with
                  | Some nodeID => bool_decide (nodeID ≠ bid_NodeID b)
                  | None => false
                  end in
  if reserved then (false, st)
  else if bool_decide (bid_Peer b ∈ peerExclusion st) then (false, st)
  else if negb (Bid_Validate (mkBid (Some b))) then (false, st)
  else match Node cfg (bid_NodeID b) with
  | None => (false, st)
  | Some _ =>
      if negb (acceptPeerLocation cfg (bid_NodeID b) (bid_Peer b) (bid_Location b)) then (false, st)
      else if (MaxBidMultiplier <=? length (bidsOf st (bid_NodeID b)))%nat then (false, st)
      else (true, mkBidState (<[bid_NodeID b := bidsOf st (bid_NodeID b) ++ [b]]> (bidMap st))
                    ({[bid_Peer b]} ∪ peerExclusion st))
  end.

(** The bids that arrive before the deadline, in order; what is logged about a bid is
    read before it is validated. *)
Fixpoint collectBids (cfg : EnsembleConfigV1) (eid : string) (maxBids : Z) (bids : list Bid)
    (bidCount : Z) (st : BidState) : outcome bid_error BidState :=
  match bids with
  | [] => Ok st
  | b :: bids =>
      match bid_V1 b with
      | None => Panic
      | Some v =>
          if negb (Bid_Validate b) then collectBids cfg eid maxBids bids bidCount st
          else if bool_decide (bid_EnsembleID v ≠ eid) then collectBids cfg eid maxBids bids bidCount st
          else match addBid cfg st v with
          | (false, st) => collectBids cfg eid maxBids bids bidCount st
          | (true, st) =>
              if (maxBids <=? bidCount + 1)%Z then Ok st
              else collectBids cfg eid maxBids bids (bidCount + 1) st
          end
      end
  end.

(** ** Residual requests *)

Fixpoint indexOfPeer (peerID : string) (bids : list BidV1) : option nat :=
  match bids with
  | [] => None
  | b :: bids => if bool_decide (bid_Peer b = peerID) then Some O else S <$> indexOfPeer peerID bids
  end.

(** Deleting element [j] of the slice of length [cur] at the head of the array. *)
Definition shiftOut (arr : list BidV1) (cur j : nat) : list BidV1 :=
  take j arr ++ drop (S j) (take cur arr) ++ drop (pred cur) arr.

(** [k] rounds of the loop over the array from element [i] on: the first ones are
    kept, the others removed from the slice and from the excluded peers. *)
Fixpoint dropLoop (k i desiredSize : nat) (arr : list BidV1) (cur : nat) (excl : gset string)
    (kept : list BidV1) : list BidV1 * gset string * list BidV1 :=
  match k with
  | O => (take cur arr, excl, kept)
  | S k =>
      match arr !! i with
      | None => (take cur arr, excl, kept)
      | Some b =>
          if (desiredSize <? i)%nat then
            let excl := excl ∖ {[bid_Peer b]} in
            match indexOfPeer (bid_Peer b) (take cur arr) with
            | None => dropLoop k (S i) desiredSize arr cur excl kept
            | Some j => dropLoop k (S i) desiredSize (shiftOut arr cur j) (pred cur) excl kept
            end
          else dropLoop k (S i) desiredSize arr cur excl (kept ++ [b])
      end
  end.

(** What happens to the bids of one node; [r] is the random number, [shuffle] the random
    order. *)
Definition dropBids (shuffle : list BidV1 → list BidV1) (r : nat) (excl : gset string) (bids : list BidV1)
    : list BidV1 * gset string * list BidV1 :=
  let arr := shuffle bids in
  let desiredSize := Nat.div (r mod length arr)%nat 2 in
  dropLoop (length arr) 0 desiredSize arr (length arr) excl [].

(** All nodes in turn: the new state and the bids that were kept. *)
Definition dropAll (shuffle : list BidV1 → list BidV1) (rand : string → nat) (st : BidState)
    : BidState * gmap string (list BidV1) :=
  fold_left
    (λ '(st, kept) '(n, bids),
       let '(bids, excl, newBids) := dropBids shuffle (rand n) (peerExclusion st) bids in
       (mkBidState (<[n := bids]> (bidMap st)) excl,
        if (0 <? length newBids)%nat then <[n := newBids]> kept else kept))
    (visit (map_to_list (bidMap st))) (st, ∅).

(** ** Requests *)

Definition containsExecutor (executors : list string) (executor : string) : bool :=
  existsb (λ e, bool_decide (e = executor)) executors.

(** What one allocation of a node adds to the request; [docker] decodes its
    specification and says whether it is privileged. *)
Definition addAllocation (docker : string → option bool) (ports : list EnsemblePort)
    (req : BidRequestV1) (name : string) (a : AllocationConfig) : option BidRequestV1 :=
  let executors := if containsExecutor (br_Executors req) (acfg_Executor a) then br_Executors req
                   else br_Executors req ++ [acfg_Executor a] in
  let privileged :=
    if bool_decide (acfg_Executor a = ExecutorDocker) then
      match docker (acfg_Execution a) with
      | None => None
      | Some p => Some (br_PrivilegedDocker req || p)
      end
    else Some (br_PrivilegedDocker req) in
  match privileged with
  | None => None
  | Some privileged =>
      let mine := List.filter (λ p, bool_decide (port_Allocation p = name)) ports in
      Some (mkBidRequest (br_NodeID req) executors
              (Resources_Add (br_Resources req) (acfg_Resources a)) (br_Location req)
              (br_Static req ++ map port_Public (List.filter (λ p, negb (port_Public p =? 0)%Z) mine))
              (br_Dynamic req + Z.of_nat (length (List.filter (λ p, (port_Public p =? 0)%Z) mine)))
              privileged (br_Contracts req))
  end.

Fixpoint addAllocations (docker : string → option bool) (cfg : EnsembleConfigV1) (ports : list EnsemblePort)
    (req : BidRequestV1) (names : list string) : option BidRequestV1 :=
  match names with
  | [] => Some req
  | name :: names =>
      match cfg_Allocations cfg !! name with
      | None => addAllocations docker cfg ports req names
      | Some a =>
          match addAllocation docker ports req name a with
          | None => None
          | Some req => addAllocations docker cfg ports req names
          end
      end
  end.

Definition nodeRequest (docker : string → option bool) (cfg : EnsembleConfigV1) (nodeID : string)
    (node : NodeConfig) : option BidRequestV1 :=
  addAllocations docker cfg (node_Ports node)
    (mkBidRequest nodeID [] Resources_zero (node_Location node) [] 0 false (cfg_Contracts cfg))
    (node_Allocations node).

Fixpoint nodeRequests (docker : string → option bool) (cfg : EnsembleConfigV1)
    (nodes : list (string * NodeConfig)) : option (list BidRequestV1) :=
  match nodes with
  | [] => Some []
  | (nodeID, node) :: nodes =>
      match nodeRequest docker cfg nodeID node with
      | None => None
      | Some req => cons req <$> nodeRequests docker cfg nodes
      end
  end.

(** [nonce] is the counter of the coordinator, increased before. *)
Definition ensembleConfigToBidRequest (docker : string → option bool) (eid : string) (nonce : Z)
    (cfg : EnsembleConfigV1) : outcome bid_error EnsembleBidRequest :=
  match nodeRequests docker cfg (visit (map_to_list (Nodes cfg))) with
  | None => Err ErrDockerSpec
  | Some reqs => Ok (mkEnsembleBidRequest eid reqs nonce [])
  end.

(** The nodes that have no kept bid, with their allocations: reading a missing one
    from a map gives the zero configuration. *)
Definition residualAllocation (cfg : EnsembleConfigV1) (a : string) : AllocationConfig :=
  default AllocationConfig_zero (cfg_Allocations cfg !! a).

Definition residualConfig (cfg : EnsembleConfigV1) (kept : gmap string (list BidV1)) : EnsembleConfigV1 :=
  let nodes := filter (λ kv, kept !! kv.1 = None) (Nodes cfg) in
  let names := flat_map (λ kv, node_Allocations kv.2) (map_to_list nodes) in
  mkConfig "" (fold_left (λ m a, <[a := residualAllocation cfg a]> m) names ∅) nodes [] (mkSupervisor "" [] [])
    [] false ∅ (cfg_Contracts cfg) ∅ ∅.

Definition makeResidualBidRequest (docker : string → option bool) (eid : string) (nonce : Z)
    (shuffle : list BidV1 → list BidV1) (rand : string → nat) (cfg : EnsembleConfigV1) (st : BidState)
    : outcome bid_error EnsembleBidRequest * BidState :=
  let '(st, kept) := dropAll shuffle rand st in
  match ensembleConfigToBidRequest docker eid nonce (residualConfig cfg kept) with
  | Ok req =>
      (Ok (mkEnsembleBidRequest (ebr_ID req) (ebr_Request req) (ebr_Nonce req)
             (map bid_Peer (flat_map snd (map_to_list kept)))), st)
  | Err e => (Err e, st)
  | Panic => (Panic, st)
  end.

(** The requests for pinned nodes and those that are broadcast. *)
Definition splitRequests (cfg : EnsembleConfigV1) (reqs : list BidRequestV1)
    : list BidRequestV1 * list BidRequestV1 :=
  let pinned r := match Node cfg (br_NodeID r) with Some n => bool_decide (node_Peer n ≠ "") | None => false end in
  let open r := match Node cfg (br_NodeID r) with Some n => bool_decide (node_Peer n = "") | None => false end in
  (List.filter pinned reqs, List.filter open reqs).

(** ** Candidates *)

(** The order of the permutation: each node with the product of the sizes before it,
    as an int64, and the product of all sizes. *)
Fixpoint permutatorsFrom (modulus : Z) (l : list (string * list BidV1))
    : list (Z * string * list BidV1) * Z :=
  match l with
  | [] => ([], modulus)
  | (node, bids) :: l =>
      let '(ps, m) := permutatorsFrom (s64 (modulus * Z.of_nat (length bids))) l in
      ((modulus, node, bids) :: ps, m)
  end.

(** The same with unbounded integers. *)
Fixpoint permutatorsBig (modulus : Z) (l : list (string * list BidV1))
    : list (Z * string * list BidV1) * Z :=
  match l with
  | [] => ([], modulus)
  | (node, bids) :: l =>
      let '(ps, m) := permutatorsBig (modulus * Z.of_nat (length bids)) l in
      ((modulus, node, bids) :: ps, m)
  end.

(** A combination by its index; [None] is a panic: a division by zero or an index
    out of range. *)
Fixpoint getPermutation (ps : list (Z * string * list BidV1)) (index : Z) : option (gmap string BidV1) :=
  match ps with
  | [] => Some ∅
  | (m, node, bids) :: ps =>
      if (m =? 0)%Z || (length bids =? 0)%nat then None
      else let selection := Z.rem (Z.quot index m) (Z.of_nat (length bids)) in
           if (selection <? 0)%Z then None
           else match bids !! Z.to_nat selection, getPermutation ps index with
           | Some b, Some rest => Some (<[node := b]> rest)
           | _, _ => None
           end
  end.

(** The first nodes come first, as in the loop: a later one replaces an earlier one
    of the same name, which the keys of a map never have. *)
Record Generator := mkGenerator {
  gen_permutators : list (Z * string * list BidV1);
  gen_nperm : Z;
  gen_space : Z                 (* indices are drawn below this *)
}.

Definition permutationBits (bids : gmap string (list BidV1)) : Z :=
  fold_left (λ acc b, acc + Z.log2_up (Z.of_nat (length b)))%Z (map snd (map_to_list bids)) 0%Z.

Definition makeCandidateDeploymentSmall (bids : gmap string (list BidV1)) : Generator :=
  let '(ps, modulus) := permutatorsFrom 1 (visit (map_to_list bids)) in
  let nperm := if (MaxPermutations <? modulus)%Z then MaxPermutations else modulus in
  mkGenerator ps nperm nperm.

Definition makeCandidateDeploymentBig (bids : gmap string (list BidV1)) : Generator :=
  let '(ps, modulus) := permutatorsBig 1 (visit (map_to_list bids)) in
  mkGenerator ps MaxPermutations (256 ^ ((Z.log2 modulus + 1 + 7) / 8)).

Definition makeCandidateDeployments (shuffle : list BidV1 → list BidV1) (cfg : EnsembleConfigV1)
    (bids : gmap string (list BidV1)) : option Generator :=
  if negb (size (Nodes cfg) =? size bids)%nat then None
  else
    let bids := shuffle <$> bids in
    if (63 <? permutationBits bids)%Z then Some (makeCandidateDeploymentBig bids)
    else Some (makeCandidateDeploymentSmall bids).

(** ** Constraints between nodes *)

(** [rtt_ok] compares the least round trip between two locations with a bound in
    milliseconds; [None] when a location has no coordinates. *)
Fixpoint checkEdges (rtt_ok : Location → Location → Z → option bool) (edges : list EdgeConstraint)
    (candidate : gmap string BidV1) : bool :=
  match edges with
  | [] => true
  | cst :: edges =>
      if (edge_RTT cst =? 0)%Z then checkEdges rtt_ok edges candidate
      else match candidate !! edge_S cst, candidate !! edge_T cst with
      | Some bidS, Some bidT =>
          match rtt_ok (bid_Location bidS) (bid_Location bidT) (edge_RTT cst) with
          | Some false => false
          | _ => checkEdges rtt_ok edges candidate
          end
      | _, _ => false
      end
  end.

Definition edgeKey (bidS bidT : BidV1) : string := bid_Peer bidS +:+ (":" +:+ bid_Peer bidT).

(** The constraints the cache does not know; [Err] when it knows one to fail, a panic when
    a node of the edge has no bid. *)
Fixpoint edgesToVerify (edges : list EdgeConstraint) (candidate : gmap string BidV1)
    (cache : gmap string bool) : outcome () (list EdgeConstraint) :=
  match edges with
  | [] => Ok []
  | cst :: edges =>
      match candidate !! edge_S cst, candidate !! edge_T cst with
      | Some bidS, Some bidT =>
          match cache !! edgeKey bidS bidT with
          | Some false => Err ()
          | Some true => edgesToVerify edges candidate cache
          | None =>
              match edgesToVerify edges candidate cache with
              | Ok l => Ok (cst :: l)
              | r => r
              end
          end
      | _, _ => Panic
      end
  end.

(** One finished verification: its result is cached and accumulated. *)
Definition verifyOne (answer : EdgeConstraint → BidV1 → BidV1 → bool) (candidate : gmap string BidV1)
    (acc : bool * gmap string bool) (cst : EdgeConstraint) : bool * gmap string bool :=
  match candidate !! edge_S cst, candidate !! edge_T cst with
  | Some bidS, Some bidT =>
      let result := answer cst bidS bidT in
      (acc.1 && result, <[edgeKey bidS bidT := result]> acc.2)
  | _, _ => acc
  end.

(** The verifications run concurrently and finish in any order. *)
Definition verifyEdgeConstraints (answer : EdgeConstraint → BidV1 → BidV1 → bool)
    (edges : list EdgeConstraint) (candidate : gmap string BidV1) (cache : gmap string bool)
    : outcome () bool * gmap string bool :=
  match edgesToVerify edges candidate cache with
  | Panic => (Panic, cache)
  | Err _ => (Ok false, cache)
  | Ok toVerify =>
      let '(accept, cache) := fold_left (verifyOne answer candidate) (visit toVerify) (true, cache) in
      (Ok accept, cache)
  end.

(** ** Drawing candidates *)

(** At most [k] more draws, from the [count]th on: the next combination that passes the
    geographic check.  [Panic] when a combination cannot be built. *)
Fixpoint nextCandidate (rtt_ok : Location → Location → Z → option bool) (edges : list EdgeConstraint)
    (g : Generator) (draw : Z → Z) (k : nat) (count : Z) : outcome () (option (gmap string BidV1) * Z) :=
  match k with
  | O => Ok (None, count)
  | S k =>
      match getPermutation (gen_permutators g) (draw count mod gen_space g)%Z with
      | None => Panic
      | Some perm =>
          if checkEdges rtt_ok edges perm then Ok (Some perm, (count + 1)%Z)
          else nextCandidate rtt_ok edges g draw k (count + 1)
      end
  end.

Definition drawsLeft (g : Generator) (count : Z) : nat := Z.to_nat (gen_nperm g - count).

(** The loop over the candidates; it is entered [times] times before the deadline.
    After the deadline the candidate drawn last is returned as it is. *)
Fixpoint selectCandidate (rtt_ok : Location → Location → Z → option bool)
    (answer : EdgeConstraint → BidV1 → BidV1 → bool) (edges : list EdgeConstraint) (g : Generator)
    (draw : Z → Z) (times : nat) (count : Z) (cache : gmap string bool) (candidate : gmap string BidV1)
    : outcome bid_error (gmap string BidV1) :=
  match times with
  | O => Ok candidate
  | S times =>
      match nextCandidate rtt_ok edges g draw (drawsLeft g count) count with
      | Panic => Panic
      | Err _ => Panic
      | Ok (None, _) => Err ErrCandidateNotFound
      | Ok (Some candidate, count) =>
          match verifyEdgeConstraints answer edges candidate cache with
          | (Ok true, _) => Ok candidate
          | (Ok false, cache) => selectCandidate rtt_ok answer edges g draw times count cache candidate
          | (_, _) => Panic
          end
      end
  end.

(** ** The whole process *)

(** What happens in one round: whether the requests were sent, the random choices and
    the bids that arrive. *)
Record Round := mkRound {
  round_sent : bool;
  round_shuffle : list BidV1 → list BidV1;
  round_rand : string → nat;
  round_bids : list Bid
}.

(** Rounds until every node has a bid; the list ends with the deadline. *)
Fixpoint bidRounds (docker : string → option bool) (cfg : EnsembleConfigV1) (eid : string) (nonce : Z)
    (shuffle : list BidV1 → list BidV1) (rounds : list Round) (st : BidState)
    : outcome bid_error (Generator * BidState) :=
  match rounds with
  | [] => Err ErrCandidateNotFound
  | r :: rounds =>
      match makeCandidateDeployments shuffle cfg (bidMap st) with
      | Some g => Ok (g, st)
      | None =>
          match makeResidualBidRequest docker eid nonce (round_shuffle r) (round_rand r) cfg st with
          | (Panic, _) => Panic
          | (Err e, _) => Err e
          | (Ok _, st) =>
              if negb (round_sent r) then Err ErrBidRequest
              else
                let maxBids := (Z.of_nat MaxBidMultiplier *
                                (Z.of_nat (size (Nodes cfg)) - Z.of_nat (size (bidMap st))))%Z in
                match collectBids cfg eid maxBids (round_bids r) 0 st with
                | Ok st => bidRounds docker cfg eid (u64 (nonce + 1)) shuffle rounds st
                | Err e => Err e
                | Panic => Panic
                end
          end
      end
  end.

Definition bid (docker : string → option bool) (rtt_ok : Location → Location → Z → option bool)
    (answer : EdgeConstraint → BidV1 → BidV1 → bool) (cfg : EnsembleConfigV1) (eid : string) (nonce : Z)
    (candidates : gmap string BidV1) (sent : bool) (received : list Bid)
    (shuffle : list BidV1 → list BidV1) (rounds : list Round) (draw : Z → Z) (times : nat)
    : outcome bid_error (gmap string BidV1) :=
  match ensembleConfigToBidRequest docker eid nonce cfg with
  | Err e => Err e
  | Panic => Panic
  | Ok _ =>
      if negb sent then Err ErrBidRequest
      else match collectBids cfg eid (Z.of_nat MaxBidMultiplier * Z.of_nat (size (Nodes cfg)))%Z received 0
                   (initialBids cfg candidates) with
      | Err e => Err e
      | Panic => Panic
      | Ok st =>
          match bidRounds docker cfg eid (u64 (nonce + 1)) shuffle rounds st with
          | Err e => Err e
          | Panic => Panic
          | Ok (g, _) => selectCandidate rtt_ok answer (cfg_Edges cfg) g draw times 0 ∅ ∅
          end
      end
  end.

End bidding.
