(* ===== verification/BidProps.v ===== *)
(** * Bids and candidates: properties (dms/orchestrator/bid.go)

    What is known of the bids the coordinator keeps ([BidInv]), whatever arrives and
    whatever the random choices; that the permutation generator enumerates the
    combinations of bids; and that a candidate that survives the selection meets
    every constraint. *)

From S2P Require Import Prelude GoStrings GoNumbers AllocationID Key Envelope.
From S2P Require Import Hardware ResourceManager Allocation Ensemble BidCoordinator.

(** ** Slices that lose an element *)

Lemma shiftOut_lookup arr cur j k :
  (j < cur)%nat → (cur ≤ length arr)%nat →
  shiftOut arr cur j !! k = arr !! (if (j <=? k)%nat && (k <? pred cur)%nat then S k else k).
Proof.
  intros Hj Hc. unfold shiftOut. rewrite lookup_app, lookup_take.
  destruct (Nat.leb_spec j k); simpl.
  - rewrite decide_False by lia. rewrite length_take, Nat.min_l by lia.
    rewrite lookup_app, lookup_drop, lookup_take, length_drop, length_take, Nat.min_l by lia.
    destruct (Nat.ltb_spec k (pred cur)).
    + rewrite decide_True by lia. replace (S j + (k - j))%nat with (S k) by lia.
      destruct (lookup_lt_is_Some_2 arr (S k)) as [x ->]; [lia|done].
    + rewrite decide_False by lia. rewrite lookup_drop. f_equal. lia.
  - rewrite decide_True by lia. destruct (lookup_lt_is_Some_2 arr k) as [x ->]; [lia|done].
Qed.

Lemma take_shiftOut arr cur j :
  (j < cur)%nat → (cur ≤ length arr)%nat →
  take (pred cur) (shiftOut arr cur j) = delete j (take cur arr).
Proof.
  intros Hj Hc. rewrite delete_take_drop, take_take, Nat.min_l by lia.
  unfold shiftOut. rewrite app_assoc, take_app_le, take_ge; [done| |];
    rewrite !length_app, length_take, length_drop, length_take; lia.
Qed.

Lemma length_shiftOut arr cur j :
  (j < cur)%nat → (cur ≤ length arr)%nat → length (shiftOut arr cur j) = length arr.
Proof.
  intros Hj Hc. unfold shiftOut. rewrite !length_app, !length_drop, !length_take. lia.
Qed.

Lemma indexOfPeer_Some p l j :
  indexOfPeer p l = Some j → ∃ b, l !! j = Some b ∧ bid_Peer b = p.
Proof.
  revert j. induction l as [|b l IH]; simpl; [done|]; intros j.
  case_bool_decide; [intros [= <-]; eauto|].
  destruct (indexOfPeer p l) as [k|]; [|done]. intros [= <-]. simpl. eauto.
Qed.

Lemma indexOfPeer_None p l : indexOfPeer p l = None → p ∉ map bid_Peer l.
Proof.
  induction l as [|b l IH]; simpl; [set_solver|].
  case_bool_decide; [done|]. destruct (indexOfPeer p l); [done|]. set_solver.
Qed.

(** ** Dropping bids of one node *)

(** The loop over the array [arr], of which the first [cur] elements are the bids of the
    node; [bids] are those at the start, [e] the peers excluded then. *)
Record DropInv (bids : list BidV1) (e : gset string) (arr : list BidV1) (cur : nat) (excl : gset string) : Prop := {
  drop_len : (1 ≤ cur ≤ length arr)%nat;
  drop_sub : ∀ b, b ∈ arr → b ∈ bids;
  drop_nodup : NoDup (map bid_Peer (take cur arr));
  drop_head : ∀ b0 k b, arr !! O = Some b0 → arr !! S k = Some b → bid_Peer b ≠ bid_Peer b0;
  drop_in : ∀ b, b ∈ take cur arr → bid_Peer b ∈ excl;
  drop_keep : ∀ p, p ∈ e → p ∉ map bid_Peer bids → p ∈ excl
}.

Lemma DropInv_skip bids e arr cur excl b :
  DropInv bids e arr cur excl → b ∈ arr → bid_Peer b ∉ map bid_Peer (take cur arr) →
  DropInv bids e arr cur (excl ∖ {[bid_Peer b]}).
Proof.
  intros [] Hb Hn. split; auto.
  - intros b' Hb'. apply elem_of_difference. split; [auto|].
    intros Heq%elem_of_singleton. apply Hn. rewrite <- Heq. by apply list_elem_of_fmap_2.
  - intros p Hp Hnp. apply elem_of_difference. split; [auto|].
    intros ->%elem_of_singleton. apply Hnp, list_elem_of_fmap_2. auto.
Qed.

Lemma DropInv_remove bids e arr cur excl j b :
  DropInv bids e arr cur excl → take cur arr !! j = Some b → j ≠ O →
  DropInv bids e (shiftOut arr cur j) (pred cur) (excl ∖ {[bid_Peer b]}).
Proof.
  intros [Hl Hs Hd Hh Hi Hk] Hj Hj0.
  pose proof (lookup_lt_Some _ _ _ Hj) as Hlt. rewrite length_take, Nat.min_l in Hlt by lia.
  assert (Hdel : map bid_Peer (take cur arr) ≡ₚ bid_Peer b :: map bid_Peer (delete j (take cur arr))).
  { change (bid_Peer b :: map bid_Peer (delete j (take cur arr))) with (map bid_Peer (b :: delete j (take cur arr))).
    apply fmap_Permutation, delete_Permutation, Hj. }
  rewrite Hdel in Hd. apply NoDup_cons in Hd as [Hnb Hd].
  split.
  - rewrite length_shiftOut; lia.
  - intros x [k Hx]%list_elem_of_lookup. rewrite shiftOut_lookup in Hx by lia.
    apply Hs. by eapply list_elem_of_lookup_2.
  - by rewrite take_shiftOut by lia.
  - intros b0 k x H0 Hx. rewrite shiftOut_lookup in H0, Hx by lia.
    destruct (j <=? 0)%nat eqn:E0; [apply Nat.leb_le in E0; lia|]. simpl in H0.
    destruct (_ && _) in Hx; eauto.
  - rewrite take_shiftOut by lia. intros x Hx. apply elem_of_difference. split.
    + apply Hi. rewrite delete_Permutation by exact Hj. by right.
    + intros Heq%elem_of_singleton. apply Hnb. rewrite <- Heq. by apply list_elem_of_fmap_2.
  - intros p Hp Hnp. apply elem_of_difference. split; [auto|].
    intros ->%elem_of_singleton. apply Hnp, list_elem_of_fmap_2, Hs.
    apply list_elem_of_lookup_2 in Hj. rewrite <- (take_drop cur arr). apply elem_of_app. by left.
Qed.

Lemma dropLoop_inv k i desired bids e arr cur excl kept bids' excl' kept' :
  DropInv bids e arr cur excl →
  dropLoop k i desired arr cur excl kept = (bids', excl', kept') →
  ∃ arr' cur', bids' = take cur' arr' ∧ (cur' ≤ cur)%nat ∧ DropInv bids e arr' cur' excl'.
Proof.
  revert i arr cur excl kept. induction k as [|k IH]; simpl; intros i arr cur excl kept HI Hl; simplify_eq.
  { exists arr, cur. auto. }
  destruct (arr !! i) as [b|] eqn:Hb; [|simplify_eq; exists arr, cur; auto].
  destruct (Nat.ltb_spec desired i); [|eapply IH; [|exact Hl]; done].
  destruct (indexOfPeer (bid_Peer b) (take cur arr)) as [j|] eqn:Hj.
  - apply indexOfPeer_Some in Hj as (x & Hx & Hp).
    assert (j ≠ O).
    { intros ->. destruct i as [|i]; [lia|].
      assert (arr !! O = Some x) as H0 by (rewrite lookup_take in Hx; by destruct (decide _)).
      by eapply (drop_head _ _ _ _ _ HI). }
    rewrite <- Hp in Hl. apply IH in Hl as (a & c & ? & ? & ?); [|by eapply DropInv_remove].
    exists a, c. repeat split; try apply H3; auto. lia.
  - apply indexOfPeer_None in Hj. eapply IH; [|exact Hl].
    apply DropInv_skip; auto. by eapply list_elem_of_lookup_2.
Qed.

(** ** The bids that are kept *)

Section kept.
  Context `{Visit : MapVisit} `{NodeGen : NodeIDGenerator} `{Bids : BidLib}.
  Context (cfg : EnsembleConfigV1) (eid : string).

(** A bid the coordinator may keep for a node: signed by its peer, for this ensemble
    and node, from an accepted place, from a peer that is neither excluded nor
    reserved for another node. *)
Record accepted (node : string) (b : BidV1) : Prop := {
  acc_valid : Bid_Validate (mkBid (Some b)) = true;
  acc_ensemble : bid_EnsembleID b = eid;
  acc_node : bid_NodeID b = node;
  acc_known : is_Some (Node cfg node);
  acc_location : acceptPeerLocation cfg node (bid_Peer b) (bid_Location b) = true;
  acc_excluded : bid_Peer b ∉ cfg_ExcludePeers cfg;
  acc_reserved : ∀ n, nodeForTargetPeer cfg !! bid_Peer b = Some n → n = node
}.

Record BidInv (st : BidState) : Prop := {
  bi_length : ∀ n l, bidMap st !! n = Some l → (1 ≤ length l ≤ MaxBidMultiplier)%nat;
  bi_accepted : ∀ n l b, bidMap st !! n = Some l → b ∈ l → accepted n b;
  bi_nodup : ∀ n l, bidMap st !! n = Some l → NoDup (map bid_Peer l);
  bi_disjoint : ∀ n n' l l' b b', bidMap st !! n = Some l → bidMap st !! n' = Some l' →
    b ∈ l → b' ∈ l' → bid_Peer b = bid_Peer b' → n = n';
  bi_excluded : ∀ n l b, bidMap st !! n = Some l → b ∈ l → bid_Peer b ∈ peerExclusion st;
  bi_config : ∀ p, p ∈ cfg_ExcludePeers cfg → p ∈ peerExclusion st
}.

(** Replacing the bids of one node. *)
Lemma BidInv_update st n l e :
  BidInv st →
  (1 ≤ length l ≤ MaxBidMultiplier)%nat →
  (∀ b, b ∈ l → accepted n b) →
  NoDup (map bid_Peer l) →
  (∀ b, b ∈ l → bid_Peer b ∈ e) →
  (∀ n' l' b b', n' ≠ n → bidMap st !! n' = Some l' → b' ∈ l' → bid_Peer b' ∈ e ∧ (b ∈ l → bid_Peer b ≠ bid_Peer b')) →
  (∀ p, p ∈ cfg_ExcludePeers cfg → p ∈ e) →
  BidInv (mkBidState (<[n := l]> (bidMap st)) e).
Proof.
  intros HI Hlen Hacc Hnd He Hoth Hcfg.
  split; simpl; auto.
  - intros n' l' [[<- <-]|[? ?]]%lookup_insert_Some; [done|by eapply bi_length].
  - intros n' l' b [[<- <-]|[? ?]]%lookup_insert_Some; [auto|by eapply bi_accepted].
  - intros n' l' [[<- <-]|[? ?]]%lookup_insert_Some; [done|by eapply bi_nodup].
  - intros n1 n2 l1 l2 b1 b2 [[<- <-]|[? ?]]%lookup_insert_Some [[<- <-]|[? ?]]%lookup_insert_Some Hb1 Hb2 Heq; auto.
    + edestruct (Hoth n2 l2 b1 b2) as [_ Hn]; eauto. exfalso. by apply Hn.
    + edestruct (Hoth n1 l1 b2 b1) as [_ Hn]; eauto. exfalso. by apply Hn.
    + eapply bi_disjoint; eauto.
  - intros n' l' b [[<- <-]|[? ?]]%lookup_insert_Some Hb; [auto|]. edestruct (Hoth n' l' b b); eauto.
Qed.

Lemma initialBids_inv candidates :
  (∀ p n, p ∈ cfg_ExcludePeers cfg → nodeForTargetPeer cfg !! p = Some n → candidates !! n = None) →
  BidInv (initialBids cfg candidates).
Proof.
  intros Hc.
  assert (H : ∀ ps st, (∀ p, p ∈ ps → p ∈ cfg_ExcludePeers cfg) →
    fold_left (excludePeer cfg candidates) ps st = mkBidState (bidMap st) (list_to_set ps ∪ peerExclusion st)).
  { induction ps as [|p ps IH]; intros st Hps; simpl.
    - destruct st; simpl. f_equal. set_solver.
    - rewrite IH by set_solver. unfold excludePeer.
      destruct (nodeForTargetPeer cfg !! p) as [n|] eqn:En; simpl; [rewrite (Hc p n) by set_solver|]; simpl;
        f_equal; set_solver. }
  unfold initialBids. rewrite H by done. simpl.
  split; simpl; try (intros *; rewrite lookup_empty; done).
  set_solver.
Qed.

Lemma bidsOf_elem st n b : b ∈ bidsOf st n → ∃ l, bidMap st !! n = Some l ∧ b ∈ l.
Proof. unfold bidsOf. destruct (bidMap st !! n); simpl; [eauto|set_solver]. Qed.

(** What a bid that is added went through. *)
Lemma addBid_true st b st' :
  BidInv st → bid_EnsembleID b = eid → addBid cfg st b = (true, st') →
  accepted (bid_NodeID b) b ∧ bid_Peer b ∉ peerExclusion st ∧
  (length (bidsOf st (bid_NodeID b)) < MaxBidMultiplier)%nat ∧
  st' = mkBidState (<[bid_NodeID b := bidsOf st (bid_NodeID b) ++ [b]]> (bidMap st)) ({[bid_Peer b]} ∪ peerExclusion st).
Proof.
  intros HI He. unfold addBid.
  set (reserved := match nodeForTargetPeer cfg !! bid_Peer b with Some _ => _ | None => _ end).
  destruct reserved eqn:Er; [done|]. unfold reserved in Er.
  case_bool_decide as Hx; [done|]. destruct (Bid_Validate _) eqn:Ev; [cbn [negb]|done].
  destruct (Node cfg (bid_NodeID b)) eqn:En; [|done].
  destruct (acceptPeerLocation _ _ _ _) eqn:Ea; [cbn [negb]|done].
  destruct (Nat.leb_spec MaxBidMultiplier (length (bidsOf st (bid_NodeID b)))); [done|].
  intros [= <-]. assert (is_Some (Node cfg (bid_NodeID b))) by by rewrite En.
  repeat split; auto.
  - intros Hin%(bi_config _ HI). by apply Hx.
  - intros n0 Hn. rewrite Hn in Er. apply bool_decide_eq_false in Er. by apply dec_stable in Er.
Qed.

Lemma addBid_false st b st' : addBid cfg st b = (false, st') → st' = st.
Proof. unfold addBid. intros H. simpl in H. repeat case_match; simplify_eq; done. Qed.

Lemma addBid_inv st b r st' :
  BidInv st → bid_EnsembleID b = eid → addBid cfg st b = (r, st') → BidInv st'.
Proof.
  intros HI He. destruct r; [|by intros ->%addBid_false].
  intros (Ha & Hx & Hlen & ->)%addBid_true; auto.
  apply BidInv_update; auto.
  - rewrite length_app. simpl. lia.
  - intros x [(l & Hl & Hx')%bidsOf_elem| ->%list_elem_of_singleton]%elem_of_app; [by eapply bi_accepted|done].
  - rewrite map_app. simpl. apply NoDup_app. repeat split; [|set_unfold|apply NoDup_singleton].
    + unfold bidsOf. destruct (bidMap st !! _) eqn:E; [by eapply bi_nodup|constructor].
    + intros x (y & -> & (l & Hl & Hy)%bidsOf_elem) Heq. apply Hx.
      destruct Heq as [Heq|[]]. rewrite <- Heq. by eapply bi_excluded.
  - intros x [(l & Hl & Hx')%bidsOf_elem| ->%list_elem_of_singleton]%elem_of_app; [|set_solver].
    apply elem_of_union_r. by eapply bi_excluded.
  - intros n' l' x x' Hn Hl' Hx'. split; [apply elem_of_union_r; by eapply bi_excluded|].
    intros [(l & Hl & Hxl)%bidsOf_elem| ->%list_elem_of_singleton]%elem_of_app Heq.
    + apply Hn. symmetry. by eapply (bi_disjoint _ HI).
    + apply Hx. rewrite Heq. by eapply bi_excluded.
  - intros p Hp. apply elem_of_union_r. by apply (bi_config _ HI).
Qed.

Lemma collectBids_inv maxBids bids count st st' :
  BidInv st → collectBids cfg eid maxBids bids count st = Ok st' → BidInv st'.
Proof.
  revert count st. induction bids as [|b bids IH]; simpl; intros count st HI H; [by simplify_eq|].
  destruct (bid_V1 b) as [v|]; [|done]. destruct (Bid_Validate b); cbn [negb] in H; [|by eauto].
  case_bool_decide as He; [by eauto|].
  destruct (addBid cfg st v) as [[] st1] eqn:Ea; pose proof (addBid_inv _ _ _ _ HI He Ea).
  - destruct (_ <=? _)%Z; [by simplify_eq|by eauto].
  - by eauto.
Qed.

(** ** Dropping bids *)

Lemma dropBids_inv shuffle r n l st bids' excl' kept' :
  BidInv st → shuffle l ≡ₚ l → bidMap st !! n = Some l →
  dropBids shuffle r (peerExclusion st) l = (bids', excl', kept') →
  BidInv (mkBidState (<[n := bids']> (bidMap st)) excl').
Proof.
  intros HI Hs Hn Hd. unfold dropBids in Hd.
  pose proof (bi_length _ HI _ _ Hn) as Hlen.
  pose proof (bi_nodup _ HI _ _ Hn) as Hnd. rewrite <- Hs in Hnd.
  eapply (dropLoop_inv _ _ _ l (peerExclusion st)) in Hd.
  2: { split; rewrite ?firstn_all; auto.
    - rewrite Hs. lia.
    - intros b. by rewrite Hs.
    - intros b0 k b H0 Hk Heq. 
      assert (O = S k) by (eapply (NoDup_lookup _ _ _ (bid_Peer b0) Hnd); rewrite list_lookup_fmap; [rewrite H0|rewrite Hk; simpl; rewrite Heq]; done).
      done.
    - intros b. rewrite Hs. by eapply bi_excluded. }
  destruct Hd as (arr' & cur' & -> & Hle & [Hl' Hsub Hnd' _ Hin Hkeep]).
  rewrite Hs in Hle.
  assert (Hel : ∀ b, b ∈ take cur' arr' → b ∈ l).
  { intros b Hb. apply Hsub. rewrite <- (take_drop cur' arr'). apply elem_of_app. by left. }
  apply BidInv_update; auto.
  - rewrite length_take. lia.
  - intros b Hb. eapply bi_accepted; eauto.
  - intros n' l' b b' Hne Hl'' Hb'. split.
    + apply Hkeep; [by eapply bi_excluded|]. intros (x & Hx & Hxl)%list_elem_of_fmap_1.
      apply Hne. by eapply (bi_disjoint _ HI).
    + intros Hb%Hel Heq. apply Hne. symmetry. by eapply (bi_disjoint _ HI).
  - intros p Hp. apply Hkeep; [by apply (bi_config _ HI)|].
    intros (x & -> & Hxl)%list_elem_of_fmap_1. by eapply acc_excluded; [eapply bi_accepted|].
Qed.

Lemma dropAll_inv shuffle rand st st' kept :
  BidInv st → (∀ l, shuffle l ≡ₚ l) → dropAll shuffle rand st = (st', kept) → BidInv st'.
Proof.
  intros HI Hs. unfold dropAll.
  assert (Hnd : NoDup (map fst (visit (map_to_list (bidMap st))))).
  { rewrite visit_perm. apply NoDup_fst_map_to_list. }
  assert (Hin : ∀ n l, (n, l) ∈ visit (map_to_list (bidMap st)) → bidMap st !! n = Some l).
  { intros n l. rewrite visit_perm. apply elem_of_map_to_list. }
  revert Hnd Hin. generalize (visit (map_to_list (bidMap st))). intros L.
  generalize (∅ : gmap string (list BidV1)). revert st HI.
  induction L as [|[n l] L IH]; simpl; intros st HI kept0 Hnd Hin; [by intros [= <- <-]|].
  apply NoDup_cons in Hnd as [Hn Hnd].
  destruct (dropBids _ _ _ _) as [[bids' excl'] newBids] eqn:Ed.
  apply IH; auto.
  - eapply dropBids_inv; eauto. apply Hin. by left.
  - intros n' l' Hin'. simpl. rewrite lookup_insert_ne; [apply Hin; by right|].
    intros ->. apply Hn. apply list_elem_of_fmap. by exists (n', l').
Qed.

Lemma bidRounds_inv docker nonce shuffle rounds st g st' :
  BidInv st → Forall (λ r, ∀ l, round_shuffle r l ≡ₚ l) rounds →
  bidRounds docker cfg eid nonce shuffle rounds st = Ok (g, st') →
  BidInv st' ∧ makeCandidateDeployments shuffle cfg (bidMap st') = Some g.
Proof.
  revert nonce st. induction rounds as [|r rounds IH]; simpl; intros nonce st HI Hr H; [done|].
  apply Forall_cons in Hr as [Hr Hrs].
  destruct (makeCandidateDeployments shuffle cfg (bidMap st)) eqn:Em; [simplify_eq; auto|].
  unfold makeResidualBidRequest in H.
  destruct (dropAll _ _ _) as [st1 kept] eqn:Ed.
  destruct (ensembleConfigToBidRequest _ _ _ _); try done.
  destruct (round_sent r); cbn [negb] in H; [|done].
  destruct (collectBids _ _ _ _ _ _) as [st2| |] eqn:Ec; try done.
  apply (IH _ st2) in H; auto. eapply collectBids_inv; [|exact Ec]. eapply dropAll_inv; eauto.
Qed.
End kept.
