(* ===== verification/CandidateProps.v ===== *)
(** * Candidates: the permutation generator and the selection (dms/orchestrator/bid.go)

    The generator numbers the combinations of bids in mixed radix; this file compares it
    with the plain notion of a choice of one bid per node ([picks]), shows that the
    selection loop ends, and what holds of the candidate it returns. *)

From S2P Require Import Prelude GoStrings GoNumbers AllocationID Key Envelope.
From S2P Require Import Hardware ResourceManager Allocation Ensemble BidCoordinator BidProps.

(** ** Choices *)

(** One bid per node, out of the bids of the node. *)
Definition picks (bids : gmap string (list BidV1)) (c : gmap string BidV1) : Prop :=
  ∀ n, match bids !! n with
       | Some l => ∃ b, c !! n = Some b ∧ b ∈ l
       | None => c !! n = None
       end.

Definition product (l : list (string * list BidV1)) : Z :=
  foldr (λ kv p, Z.of_nat (length kv.2) * p)%Z 1%Z l.

Definition combinations (bids : gmap string (list BidV1)) : Z := product (map_to_list bids).

Lemma product_perm l l' : l ≡ₚ l' → product l = product l'.
Proof. induction 1; simpl; lia. Qed.

Lemma product_pos l : Forall (λ kv, kv.2 ≠ []) l → (1 ≤ product l)%Z.
Proof.
  induction 1 as [|[n bids] l Hb _ IH]; simpl in *; [lia|]. destruct bids; simpl in *; [done|]. nia.
Qed.

Lemma picks_cons n bids l c :
  NoDup (map fst ((n, bids) :: l)) →
  picks (list_to_map ((n, bids) :: l)) c ↔
  ∃ b c', b ∈ bids ∧ picks (list_to_map l) c' ∧ c = <[n := b]> c'.
Proof.
  simpl. intros [Hn Hnd]%NoDup_cons.
  assert (Hfresh : (list_to_map l : gmap string (list BidV1)) !! n = None) by by apply not_elem_of_list_to_map_1.
  split.
  - intros H. pose proof (H n) as H0. rewrite lookup_insert_eq in H0. destruct H0 as (b & Hb & Hin).
    exists b, (delete n c). split_and!; [done| |by rewrite insert_delete_eq, insert_id].
    intros m. specialize (H m). destruct (decide (n = m)) as [<-|Hne].
    + by rewrite Hfresh, lookup_delete_eq.
    + rewrite lookup_insert_ne in H by done. by rewrite lookup_delete_ne.
  - intros (b & c' & Hin & H & ->) m. specialize (H m). destruct (decide (n = m)) as [<-|Hne].
    + rewrite !lookup_insert_eq. eauto.
    + by rewrite !lookup_insert_ne.
Qed.

(** ** Mixed radix *)

Lemma permutatorsBig_modulus m l : (permutatorsBig m l).2 = (m * product l)%Z.
Proof.
  revert m. induction l as [|[n bids] l IH]; intros m; simpl; [lia|].
  specialize (IH (m * Z.of_nat (length bids))%Z). destruct (permutatorsBig _ l). simpl in *. lia.
Qed.

Lemma permutatorsFrom_small m l :
  (1 ≤ m)%Z → Forall (λ kv, kv.2 ≠ []) l → (m * product l < 2 ^ 63)%Z →
  permutatorsFrom m l = permutatorsBig m l.
Proof.
  intros Hm Hl. revert m Hm. induction Hl as [|[n bids] l Hb Hl IH]; intros m Hm Hp; simpl in *; [done|].
  pose proof (product_pos l Hl).
  assert (1 ≤ Z.of_nat (length bids))%Z by (destruct bids; simpl in *; [done|lia]).
  rewrite s64_small by (unfold is_s64; nia). rewrite IH; [done|nia|nia].
Qed.

Lemma s64_mul a b : s64 (s64 a * b) = s64 (a * b).
Proof.
  unfold s64. f_equal.
  replace (((a + 2 ^ 63) mod 2 ^ 64 - 2 ^ 63) * b + 2 ^ 63)%Z
    with ((a + 2 ^ 63) mod 2 ^ 64 * b + (2 ^ 63 - 2 ^ 63 * b))%Z by lia.
  rewrite <- Zplus_mod_idemp_l, Zmult_mod_idemp_l, Zplus_mod_idemp_l. f_equal. lia.
Qed.

Lemma permutatorsFrom_modulus m l : s64 m = m → (permutatorsFrom m l).2 = s64 (m * product l).
Proof.
  revert m. induction l as [|[n bids] l IH]; intros m Hm; simpl; [by rewrite Z.mul_1_r|].
  specialize (IH (s64 (m * Z.of_nat (length bids))) (s64_small _ (s64_range _))).
  destruct (permutatorsFrom _ l). simpl in *. rewrite IH, s64_mul. f_equal. lia.
Qed.

Lemma permutators_names m l :
  map (λ p, (p.1.2, p.2)) (permutatorsBig m l).1 = l ∧ map (λ p, (p.1.2, p.2)) (permutatorsFrom m l).1 = l.
Proof.
  split; revert m; induction l as [|[n bids] l IH]; intros m; simpl; [done| |done|];
    [specialize (IH (m * Z.of_nat (length bids))%Z); destruct (permutatorsBig _ l)
    |specialize (IH (s64 (m * Z.of_nat (length bids)))); destruct (permutatorsFrom _ l)]; simpl in *; by rewrite IH.
Qed.

(** A combination is a choice, whatever the moduli are. *)
Lemma getPermutation_picks ps i c :
  NoDup (map fst (map (λ p : Z * string * list BidV1, (p.1.2, p.2)) ps)) →
  getPermutation ps i = Some c → picks (list_to_map (map (λ p, (p.1.2, p.2)) ps)) c.
Proof.
  revert c. induction ps as [|[[m n] bids] ps IH]; intros c Hnd; simpl map; cbn [getPermutation].
  { intros [= <-] n. by rewrite !lookup_empty. }
  destruct (_ || _); [done|]. destruct (_ <? _)%Z; [done|].
  destruct (bids !! _) as [b|] eqn:Eb; [|done].
  destruct (getPermutation ps i) as [c'|]; [|done]. intros [= <-].
  apply picks_cons; [done|]. exists b, c'. split_and!; [by eapply list_elem_of_lookup_2| |done].
  apply IH; [|done]. simpl in Hnd. by apply NoDup_cons in Hnd as [_ ?].
Qed.

(** Every index gives a combination, and every choice has an index. *)
Lemma getPermutation_total m l i :
  (1 ≤ m)%Z → Forall (λ kv, kv.2 ≠ []) l → (0 ≤ i)%Z →
  is_Some (getPermutation (permutatorsBig m l).1 i).
Proof.
  intros Hm Hl Hi. revert m Hm. induction Hl as [|[n bids] l Hb Hl IH]; intros m Hm; simpl in *; [eauto|].
  assert (1 ≤ Z.of_nat (length bids))%Z by (destruct bids; simpl in *; [done|lia]).
  destruct (IH (m * Z.of_nat (length bids))%Z ltac:(nia)) as [c Hc].
  destruct (permutatorsBig _ l) as [ps mm]. cbn [fst getPermutation] in *. rewrite Hc.
  rewrite (proj2 (Z.eqb_neq m 0)) by lia. rewrite (proj2 (Nat.eqb_neq (length bids) 0)) by lia. cbn [orb].
  set (s := Z.rem _ _).
  assert (0 ≤ s < Z.of_nat (length bids))%Z as Hs.
  { apply Z.rem_bound_pos; [apply Z.quot_pos; lia|lia]. }
  rewrite (proj2 (Z.ltb_ge s 0)) by lia.
  destruct (lookup_lt_is_Some_2 bids (Z.to_nat s)) as [b ->]; [lia|eauto].
Qed.

Lemma getPermutation_index m l c r :
  (1 ≤ m)%Z → Forall (λ kv, kv.2 ≠ []) l → NoDup (map fst l) → picks (list_to_map l) c → (0 ≤ r < m)%Z →
  ∃ i, (0 ≤ i < product l)%Z ∧ getPermutation (permutatorsBig m l).1 (m * i + r) = Some c.
Proof.
  intros Hm Hl. revert m r c Hm.
  induction Hl as [|[n bids] l Hb Hl IH]; intros m r c Hm Hnd Hc Hr; simpl in *.
  { exists 0%Z. split; [lia|]. f_equal. symmetry. apply map_eq. intros k. specialize (Hc k).
    by rewrite lookup_empty in *. }
  apply picks_cons in Hc as (b & c' & Hin & Hc & ->); [|done].
  apply NoDup_cons in Hnd as [_ Hnd].
  apply list_elem_of_lookup in Hin as [j Hj]. pose proof (lookup_lt_Some _ _ _ Hj) as Hlt.
  set (L := Z.of_nat (length bids)). assert (Z.of_nat j < L)%Z by (unfold L; lia).
  destruct (IH (m * L)%Z (m * Z.of_nat j + r)%Z c') as (i & Hi & Hg); [nia|done|done|nia|].
  exists (L * i + Z.of_nat j)%Z. split; [fold L; nia|].
  fold L. destruct (permutatorsBig (m * L) l) as [ps mm]. cbn [fst getPermutation] in *.
  replace (m * (L * i + Z.of_nat j) + r)%Z with (m * L * i + (m * Z.of_nat j + r))%Z by lia.
  rewrite Hg, (proj2 (Z.eqb_neq m 0)), (proj2 (Nat.eqb_neq (length bids) 0)) by lia. cbn [orb]. fold L.
  replace (m * L * i + (m * Z.of_nat j + r))%Z with ((L * i + Z.of_nat j) * m + r)%Z by lia.
  rewrite Z.quot_div_nonneg by nia. rewrite Z.div_add_l, (Z.div_small r m), Z.add_0_r by lia.
  rewrite Z.rem_mod_nonneg by nia. rewrite (Z.mul_comm L i), Z.add_comm, Z.mod_add, Z.mod_small by lia.
  rewrite (proj2 (Z.ltb_ge _ 0)) by lia. by rewrite Nat2Z.id, Hj.
Qed.

(** ** The generator *)

Section generator.
  Context `{Visit : MapVisit} `{NodeGen : NodeIDGenerator}.

Definition nonempty (bids : gmap string (list BidV1)) : Prop := ∀ n l, bids !! n = Some l → l ≠ [].

Lemma visited_bids (bids : gmap string (list BidV1)) :
  list_to_map (visit (map_to_list bids)) = bids ∧ NoDup (map fst (visit (map_to_list bids))).
Proof.
  assert (NoDup (map fst (visit (map_to_list bids)))).
  { rewrite visit_perm. apply NoDup_fst_map_to_list. }
  split; [|done]. rewrite <- (list_to_map_to_list bids) at 2. apply list_to_map_proper; [done|apply visit_perm].
Qed.

Lemma visited_nonempty bids : nonempty bids → Forall (λ kv, kv.2 ≠ []) (visit (map_to_list bids)).
Proof.
  intros H. rewrite visit_perm. apply Forall_forall. intros [n l] Hin%elem_of_map_to_list. by eapply H.
Qed.

Lemma picks_shuffle shuffle bids c :
  (∀ l, shuffle l ≡ₚ l) → picks (shuffle <$> bids) c ↔ picks bids c.
Proof.
  intros Hs. apply forall_proper. intros n. rewrite lookup_fmap. destruct (bids !! n) as [l|]; simpl; [|done].
  by setoid_rewrite (Hs l).
Qed.

Lemma nonempty_shuffle (shuffle : list BidV1 → list BidV1) bids :
  (∀ l, shuffle l ≡ₚ l) → nonempty bids → nonempty (shuffle <$> bids).
Proof.
  intros Hs Hb n l Hl. rewrite lookup_fmap in Hl. apply fmap_Some in Hl as (l' & Hl & ->).
  intros He. apply (Hb _ _ Hl). apply Permutation_nil_r. by rewrite <- (Hs l'), He.
Qed.

Lemma product_bits bids :
  nonempty bids → (combinations bids ≤ 2 ^ permutationBits bids ∧ 0 ≤ permutationBits bids)%Z.
Proof.
  intros Hb. unfold combinations, permutationBits.
  assert (Hl : Forall (λ kv, kv.2 ≠ []) (map_to_list bids)).
  { apply Forall_forall. intros [n l] Hin%elem_of_map_to_list. by eapply Hb. }
  assert (H : ∀ l acc, Forall (λ kv : string * list BidV1, kv.2 ≠ []) l → (0 ≤ acc)%Z →
    let r := fold_left (λ acc b, acc + Z.log2_up (Z.of_nat (length b)))%Z (map snd l) acc in
    (2 ^ acc * product l ≤ 2 ^ r ∧ 0 ≤ r)%Z).
  { clear. intros l acc Hl. revert acc. induction Hl as [|[n bs] l Hb Hl IH]; intros acc Hacc; simpl in *; [lia|].
    assert (0 < Z.of_nat (length bs))%Z as Hpos by (destruct bs; simpl in *; [done|lia]).
    pose proof (Z.log2_up_nonneg (Z.of_nat (length bs))).
    destruct (IH (acc + Z.log2_up (Z.of_nat (length bs)))%Z) as [H1 H2]; [lia|]. split; [|done].
    etrans; [|exact H1]. rewrite Z.pow_add_r by done.
    pose proof (product_pos l Hl). pose proof (Z.pow_pos_nonneg 2 acc).
    assert (Z.of_nat (length bs) ≤ 2 ^ Z.log2_up (Z.of_nat (length bs)))%Z.
    { destruct (decide (Z.of_nat (length bs) = 1)%Z) as [->|]; [done|]. apply Z.log2_up_spec. lia. }
    nia. }
  destruct (H _ 0%Z Hl) as [H1 H2]; [done|]. simpl in *. lia.
Qed.

Lemma combinations_visited bids : product (visit (map_to_list bids)) = combinations bids.
Proof. apply product_perm, visit_perm. Qed.

Lemma combinations_shuffle (shuffle : list BidV1 → list BidV1) bids :
  (∀ l, shuffle l ≡ₚ l) → combinations (shuffle <$> bids) = combinations bids.
Proof.
  intros Hs. unfold combinations. rewrite map_to_list_fmap.
  induction (map_to_list bids) as [|[n l] L IH]; [done|].
  rewrite fmap_cons. unfold product in *.
  cbn [foldr]. by rewrite IH; simpl; rewrite Hs.
Qed.

(** The two generators: the small one is exact unless there are 2^63 combinations, when
    it draws nothing. *)
Lemma small_generator bids :
  nonempty bids → (permutationBits bids ≤ 63)%Z →
  let g := makeCandidateDeploymentSmall bids in
  (combinations bids = 2 ^ 63 ∧ gen_nperm g < 0)%Z ∨
  (combinations bids < 2 ^ 63)%Z ∧
  gen_permutators g = (permutatorsBig 1 (visit (map_to_list bids))).1 ∧
  gen_nperm g = Z.min MaxPermutations (combinations bids) ∧ gen_space g = gen_nperm g.
Proof.
  intros Hb Hbits. pose proof (product_bits bids Hb) as [Hp H0].
  assert (combinations bids ≤ 2 ^ 63)%Z by (etrans; [done|]; apply Z.pow_le_mono_r; lia).
  pose proof (visited_nonempty _ Hb) as Hv. unfold makeCandidateDeploymentSmall.
  destruct (decide (combinations bids = 2 ^ 63)%Z) as [Heq|Hne].
  - left. split; [done|].
    pose proof (permutatorsFrom_modulus 1 (visit (map_to_list bids)) eq_refl) as Hm.
    rewrite combinations_visited, Heq in Hm. destruct (permutatorsFrom _ _) as [ps mm]. cbn [snd] in Hm.
    by subst mm.
  - right. split; [lia|].
    rewrite permutatorsFrom_small by (rewrite ?combinations_visited; (done || lia)).
    pose proof (permutatorsBig_modulus 1 (visit (map_to_list bids))) as Hm.
    rewrite combinations_visited, Z.mul_1_l in Hm.
    destruct (permutatorsBig _ _) as [ps mm]. cbn [snd] in Hm. subst mm. simpl.
    repeat split. unfold MaxPermutations. destruct (Z.ltb_spec 1000000 (combinations bids)); lia.
Qed.

Lemma log2_space m : (1 ≤ m)%Z → (m ≤ 256 ^ ((Z.log2 m + 1 + 7) / 8))%Z.
Proof.
  intros Hm. pose proof (Z.log2_nonneg m). change 256%Z with (2 ^ 8)%Z.
  rewrite <- Z.pow_mul_r by (try apply Z.div_pos; lia).
  pose proof (Z.log2_spec m ltac:(lia)) as [_ Hlt].
  apply Z.lt_le_incl. eapply Z.lt_le_trans; [exact Hlt|]. apply Z.pow_le_mono_r; [lia|].
  pose proof (Z.div_mod (Z.log2 m + 1 + 7) 8). pose proof (Z.mod_pos_bound (Z.log2 m + 1 + 7) 8). lia.
Qed.

(** What a generator is: nothing is ever drawn from it, or its indices number the
    combinations and it draws among all of them when they are few or very many. *)
Lemma generator_spec shuffle cfg bids g :
  nonempty bids → (∀ l, shuffle l ≡ₚ l) → makeCandidateDeployments shuffle cfg bids = Some g →
  (gen_nperm g ≤ MaxPermutations)%Z ∧
  ((combinations bids = 2 ^ 63 ∧ gen_nperm g < 0)%Z ∨
   gen_permutators g = (permutatorsBig 1 (visit (map_to_list (shuffle <$> bids)))).1 ∧ (0 < gen_space g)%Z ∧
   ((combinations bids ≤ MaxPermutations)%Z ∨ (63 < permutationBits (shuffle <$> bids))%Z → combinations bids ≤ gen_space g)%Z).
Proof.
  intros Hb Hs. unfold makeCandidateDeployments. destruct (_ =? _)%nat; cbn [negb]; [|done].
  pose proof (nonempty_shuffle _ _ Hs Hb) as Hb'. rewrite <- (combinations_shuffle _ _ Hs).
  pose proof (product_pos _ (visited_nonempty _ Hb')) as Hp. rewrite combinations_visited in Hp.
  destruct (Z.ltb_spec 63 (permutationBits (shuffle <$> bids))) as [Hbits|Hbits]; intros [= <-].
  - unfold makeCandidateDeploymentBig.
    pose proof (permutatorsBig_modulus 1 (visit (map_to_list (shuffle <$> bids)))) as Hm.
    rewrite combinations_visited, Z.mul_1_l in Hm.
    destruct (permutatorsBig _ _) as [ps mm]. cbn [snd] in Hm. subst mm.
    pose proof (log2_space _ Hp). cbn [gen_nperm gen_space gen_permutators fst]. split; [done|]. right.
    split; [done|]. split; [lia|done].
  - destruct (small_generator _ Hb' Hbits) as [[H1 H2]|(Hlt & -> & Hn & ->)].
    + split; [unfold MaxPermutations; lia|auto].
    + rewrite Hn. unfold MaxPermutations in *. split; [lia|]. right. split; [done|]. lia.
Qed.

(** Whatever is drawn is a choice. *)
Lemma generator_picks shuffle cfg bids g c i :
  (∀ l, shuffle l ≡ₚ l) → makeCandidateDeployments shuffle cfg bids = Some g →
  getPermutation (gen_permutators g) i = Some c → picks bids c.
Proof.
  intros Hs Hm Hg. destruct (visited_bids (shuffle <$> bids)) as [Hv Hnd].
  assert (Hn : map (λ p, (p.1.2, p.2)) (gen_permutators g) = visit (map_to_list (shuffle <$> bids))).
  { destruct (permutators_names 1 (visit (map_to_list (shuffle <$> bids)))) as [H1 H2].
    unfold makeCandidateDeployments, makeCandidateDeploymentBig, makeCandidateDeploymentSmall in Hm.
    destruct (negb _); [done|].
    destruct (_ <? _)%Z; [destruct (permutatorsBig _ _)|destruct (permutatorsFrom _ _)]; by simplify_eq. }
  rewrite <- (picks_shuffle shuffle) by done. rewrite <- Hv, <- Hn.
  eapply getPermutation_picks; [by rewrite Hn|done].
Qed.
End generator.

(** ** Edges *)

Section edges.
  Context `{Visit : MapVisit} `{NodeGen : NodeIDGenerator} `{Bids : BidLib}.
  Context (cfg : EnsembleConfigV1) (eid : string) (st : BidState) (HI : BidInv cfg eid st).
  Context (edges : list EdgeConstraint) (answer : EdgeConstraint → BidV1 → BidV1 → bool).

(** Peers of valid bids are peer IDs, which have no colon. *)
  Context (peer_no_colon : ∀ p k, peer_key p = Some k → Contains p ":" = false).
  Context (edges_nodup : NoDup (map (λ e, (edge_S e, edge_T e)) edges)).

Definition pool (n : string) (b : BidV1) : Prop := ∃ l, bidMap st !! n = Some l ∧ b ∈ l.

Definition edge_holds (c : gmap string BidV1) (e : EdgeConstraint) : Prop :=
  ∃ bs bt, c !! edge_S e = Some bs ∧ c !! edge_T e = Some bt ∧ answer e bs bt = true.

(** The cache tells what the peers answered. *)
Definition cache_ok (cache : gmap string bool) : Prop :=
  ∀ e bs bt r, e ∈ edges → pool (edge_S e) bs → pool (edge_T e) bt →
    cache !! edgeKey bs bt = Some r → answer e bs bt = r.

Lemma pool_unique n n' b b' : pool n b → pool n' b' → bid_Peer b = bid_Peer b' → n = n' ∧ b = b'.
Proof using HI.
  intros (l & Hl & Hb) (l' & Hl' & Hb') Hp.
  assert (n = n') as <- by by eapply (bi_disjoint _ _ _ HI). split; [done|]. simplify_eq.
  eapply NoDup_map_inj; [by eapply (bi_nodup _ _ _ HI)|by apply list_elem_of_In..|done].
Qed.

Lemma pool_colon n b : pool n b → Contains (bid_Peer b) ":" = false.
Proof using HI peer_no_colon.
  intros (l & Hl & Hb). pose proof (acc_valid _ _ _ _ (bi_accepted _ _ _ HI _ _ _ Hl Hb)) as Hv.
  unfold Bid_Validate in Hv. simpl in Hv. destruct (peer_key (bid_Peer b)) eqn:E; [|done]. by eapply peer_no_colon.
Qed.

Lemma picks_pool c n b : picks (bidMap st) c → c !! n = Some b → pool n b.
Proof.
  intros Hc Hb. specialize (Hc n). unfold pool. destruct (bidMap st !! n) as [l|].
  - destruct Hc as (b' & Hb' & Hin). simplify_eq. eauto.
  - by rewrite Hb in Hc.
Qed.

Lemma cache_insert cache e bs bt :
  cache_ok cache → e ∈ edges → pool (edge_S e) bs → pool (edge_T e) bt →
  cache_ok (<[edgeKey bs bt := answer e bs bt]> cache).
Proof using HI peer_no_colon edges_nodup.
  intros Hc He Hs Ht e' bs' bt' r He' Hs' Ht'. destruct (decide (edgeKey bs bt = edgeKey bs' bt')) as [Hk|Hk].
  - unfold edgeKey in Hk. rewrite !string_app_cons, !string_app_nil_l in Hk.
    destruct (sep_app_inj _ _ _ _ _ (pool_colon _ _ Hs) (pool_colon _ _ Hs') Hk) as [Hp1 Hp2].
    destruct (pool_unique _ _ _ _ Hs Hs' Hp1) as [HS <-], (pool_unique _ _ _ _ Ht Ht' Hp2) as [HT <-].
    rewrite lookup_insert_eq. intros [= <-].
    assert (e = e') as ->; [|done].
    eapply NoDup_map_inj; [exact edges_nodup|by apply list_elem_of_In..|]. simpl. congruence.
  - rewrite lookup_insert_ne by done. by apply Hc.
Qed.

Lemma edgesToVerify_spec c cache es r :
  cache_ok cache → picks (bidMap st) c → (∀ e, e ∈ es → e ∈ edges) → edgesToVerify es c cache = r →
  match r with
  | Ok l => (∀ e, e ∈ l → e ∈ es ∧ is_Some (c !! edge_S e) ∧ is_Some (c !! edge_T e)) ∧
            (∀ e, e ∈ es → e ∈ l ∨ edge_holds c e)
  | Err _ => ∃ e, e ∈ es ∧ ¬ edge_holds c e
  | Panic => ∃ e, e ∈ es ∧ (c !! edge_S e = None ∨ c !! edge_T e = None)
  end.
Proof.
  intros Hc Hp. revert r. induction es as [|e es IH]; simpl; intros r Hes <-.
  { split; set_solver. }
  specialize (IH _ ltac:(set_solver) eq_refl).
  destruct (c !! edge_S e) as [bs|] eqn:ES; [|exists e; split; [set_solver|auto]].
  destruct (c !! edge_T e) as [bt|] eqn:ET; [|exists e; split; [set_solver|auto]].
  assert (Hans : ∀ b, cache !! edgeKey bs bt = Some b → answer e bs bt = b).
  { intros b. apply Hc; [set_solver|by eapply picks_pool..]. }
  destruct (cache !! edgeKey bs bt) as [[]|] eqn:Ek.
  - destruct (edgesToVerify es c cache) as [l|u|].
    + destruct IH as [H1 H2]. split; [set_solver|]. intros x [->|Hx]%elem_of_cons; [|by auto].
      right. exists bs, bt. auto.
    + destruct IH as (x & Hx & ?). exists x. split; [set_solver|done].
    + destruct IH as (x & Hx & ?). exists x. split; [set_solver|done].
  - exists e. split; [set_solver|]. intros (bs' & bt' & ? & ? & Ha). simplify_eq. by rewrite (Hans false) in Ha.
  - destruct (edgesToVerify es c cache) as [l|u|].
    + destruct IH as [H1 H2]. split.
      * intros x [->|Hx]%elem_of_cons; [rewrite ES, ET; split; [set_solver|eauto]|].
        destruct (H1 x Hx) as (? & ? & ?). split; [set_solver|done].
      * intros x [->|Hx]%elem_of_cons; [left; set_solver|]. destruct (H2 x Hx); [left; set_solver|auto].
    + destruct IH as (x & Hx & ?). exists x. split; [set_solver|done].
    + destruct IH as (x & Hx & ?). exists x. split; [set_solver|done].
Qed.

Lemma verifyAll c es acc cache :
  cache_ok cache → picks (bidMap st) c →
  (∀ e, e ∈ es → e ∈ edges ∧ is_Some (c !! edge_S e) ∧ is_Some (c !! edge_T e)) →
  let r := fold_left (verifyOne answer c) es (acc, cache) in
  cache_ok r.2 ∧ (r.1 = true ↔ acc = true ∧ ∀ e, e ∈ es → edge_holds c e).
Proof using HI peer_no_colon edges_nodup.
  revert acc cache. induction es as [|e es IH]; simpl; intros acc cache Hc Hp Hes.
  { split; [done|]. set_solver. }
  destruct (Hes e ltac:(set_solver)) as (He & [bs ES] & [bt ET]).
  unfold verifyOne at 2 4. rewrite ES, ET. simpl.
  destruct (IH (acc && answer e bs bt) (<[edgeKey bs bt := answer e bs bt]> cache)) as [H1 H2].
  { apply cache_insert; auto; by eapply picks_pool. }
  { done. }
  { set_solver. }
  split; [exact H1|]. rewrite H2, andb_true_iff. split.
  - intros [[Ha Hans] Hr]. split; [done|]. intros x [->|Hx]%elem_of_cons; [by exists bs, bt|auto].
  - intros [Ha Hr]. split; [|intros; apply Hr; set_solver]. split; [done|].
    destruct (Hr e ltac:(set_solver)) as (? & ? & ? & ? & ?). by simplify_eq.
Qed.

Lemma verifyEdgeConstraints_spec c cache r cache' :
  cache_ok cache → picks (bidMap st) c →
  verifyEdgeConstraints answer edges c cache = (r, cache') →
  cache_ok cache' ∧
  match r with
  | Ok b => b = true ↔ ∀ e, e ∈ edges → edge_holds c e
  | Err _ => False
  | Panic => ∃ e, e ∈ edges ∧ (c !! edge_S e = None ∨ c !! edge_T e = None)
  end.
Proof using HI peer_no_colon edges_nodup.
  intros Hc Hp. unfold verifyEdgeConstraints.
  pose proof (edgesToVerify_spec c cache edges _ Hc Hp ltac:(auto) eq_refl) as He.
  destruct (edgesToVerify edges c cache) as [l|u|]; [|intros [= <- <-]; split; [done|]..].
  - destruct He as [H1 H2].
    destruct (fold_left _ _ _) as [b cache1] eqn:Ef. intros [= <- <-].
    destruct (verifyAll c (visit l) true cache Hc Hp) as [Hc' Hr].
    { intros e. rewrite visit_perm. apply H1. }
    rewrite Ef in *. simpl in *. split; [done|]. rewrite Hr. split.
    + intros [_ Hall] e Hin. destruct (H2 e Hin) as [Hl|Hh]; [|done]. apply Hall. by rewrite visit_perm.
    + intros Hall. split; [done|]. intros e. rewrite visit_perm. intros Hin. by apply Hall, H1.
  - split; [done|]. intros Hall. destruct He as (e & Hin & Hn). by destruct Hn; apply Hall.
  - done.
Qed.
End edges.

(** ** The selection *)

Lemma nextCandidate_Some rtt_ok edges g draw k count c count' :
  nextCandidate rtt_ok edges g draw k count = Ok (Some c, count') →
  checkEdges rtt_ok edges c = true ∧ (∃ i, getPermutation (gen_permutators g) i = Some c) ∧
  (count < count' ≤ count + Z.of_nat k)%Z.
Proof.
  revert count. induction k as [|k IH]; simpl; intros count; [done|].
  destruct (getPermutation _ _) as [p|] eqn:Ep; [|done].
  destruct (checkEdges _ _ p) eqn:Ec.
  - intros [= <- <-]. split_and!; [done|by eauto|lia|lia].
  - intros (? & ? & ?)%IH. split_and!; auto; lia.
Qed.

Lemma nextCandidate_total rtt_ok edges g draw k count :
  (0 < gen_space g)%Z ∧ (∀ i, (0 ≤ i)%Z → is_Some (getPermutation (gen_permutators g) i)) ∨ k = O →
  ∃ r, nextCandidate rtt_ok edges g draw k count = Ok r.
Proof.
  intros [[Hs Hp]| ->]; [|by eauto]. revert count. induction k as [|k IH]; simpl; intros count; [eauto|].
  destruct (Hp (draw count mod gen_space g)%Z) as [c ->]; [apply Z.mod_pos_bound; lia|].
  destruct (checkEdges _ _ c); [by eauto|apply IH].
Qed.

Lemma drawsLeft_next g count count' :
  (count < count' ≤ count + Z.of_nat (drawsLeft g count))%Z → (drawsLeft g count' < drawsLeft g count)%nat.
Proof. unfold drawsLeft. lia. Qed.

Lemma edgesToVerify_panic edges c cache :
  edgesToVerify edges c cache = Panic → ∃ e, e ∈ edges ∧ (c !! edge_S e = None ∨ c !! edge_T e = None).
Proof.
  induction edges as [|e es IH]; simpl; [done|].
  destruct (c !! edge_S e) eqn:ES; [|intros _; exists e; split; [set_solver|auto]].
  destruct (c !! edge_T e) eqn:ET; [|intros _; exists e; split; [set_solver|auto]].
  intros H. assert (edgesToVerify es c cache = Panic) as (x & Hx & ?)%IH.
  { destruct (cache !! _) as [[]|]; [done|done|]. by destruct (edgesToVerify es c cache). }
  exists x. split; [set_solver|done].
Qed.

Section selection.
  Context `{Visit : MapVisit} `{NodeGen : NodeIDGenerator} `{Bids : BidLib}.
  Context (cfg : EnsembleConfigV1) (eid : string) (st : BidState) (HI : BidInv cfg eid st).
  Context (shuffle : list BidV1 → list BidV1) (Hshuffle : ∀ l, shuffle l ≡ₚ l).
  Context (g : Generator) (Hg : makeCandidateDeployments shuffle cfg (bidMap st) = Some g).
  Context (rtt_ok : Location → Location → Z → option bool) (answer : EdgeConstraint → BidV1 → BidV1 → bool).
  Context (edges : list EdgeConstraint) (draw : Z → Z).

Lemma bids_nonempty : nonempty (bidMap st).
Proof using HI. intros n l Hl ->. apply (bi_length _ _ _ HI) in Hl. simpl in Hl. lia. Qed.

Lemma select_verified times count cache cand c :
  (∀ p k, peer_key p = Some k → Contains p ":" = false) →
  NoDup (map (λ e, (edge_S e, edge_T e)) edges) →
  cache_ok st edges answer cache → (drawsLeft g count < times)%nat →
  selectCandidate rtt_ok answer edges g draw times count cache cand = Ok c →
  picks (bidMap st) c ∧ checkEdges rtt_ok edges c = true ∧ ∀ e, e ∈ edges → edge_holds answer c e.
Proof using HI Hshuffle Hg.
  intros Hcol Hnd. revert count cache cand.
  induction times as [|times IH]; simpl; intros count cache cand Hc Ht Hsel; [lia|].
  destruct (nextCandidate _ _ _ _ _ _) as [[[p|] count']| |] eqn:En; try done.
  apply nextCandidate_Some in En as (Hce & [i Hi] & Hcount).
  pose proof (generator_picks _ _ _ _ _ _ Hshuffle Hg Hi) as Hp.
  destruct (verifyEdgeConstraints _ _ _ _) as [r cache'] eqn:Ev.
  eapply verifyEdgeConstraints_spec in Ev as [Hc' Hr]; eauto.
  destruct r as [[]| |]; try done.
  - simplify_eq. split_and!; auto. by apply Hr.
  - apply IH in Hsel; auto. apply drawsLeft_next in Hcount. lia.
Qed.

Lemma draws_total : (0 < gen_space g)%Z ∧ (∀ i, (0 ≤ i)%Z → is_Some (getPermutation (gen_permutators g) i)) ∨
  ∀ count, (0 ≤ count)%Z → drawsLeft g count = O.
Proof using HI Hshuffle Hg.
  destruct (generator_spec _ _ _ _ bids_nonempty Hshuffle Hg) as [_ [[_ Hneg]|(-> & Hs & _)]].
  - right. intros count Hcount. unfold drawsLeft. lia.
  - left. split; [done|]. intros i Hi. apply getPermutation_total; [lia| |done].
    apply visited_nonempty, nonempty_shuffle; [done|apply bids_nonempty].
Qed.

(** With as many rounds as there are draws the deadline plays no role, and nothing panics. *)
Lemma select_total times count cache cand :
  (∀ e, e ∈ edges → is_Some (bidMap st !! edge_S e) ∧ is_Some (bidMap st !! edge_T e)) →
  (drawsLeft g count < times)%nat → (0 ≤ count)%Z →
  let r := selectCandidate rtt_ok answer edges g draw times count cache cand in
  r ≠ Panic ∧ ∀ times', (times ≤ times')%nat → selectCandidate rtt_ok answer edges g draw times' count cache cand = r.
Proof using HI Hshuffle Hg.
  intros Hnodes. revert count cache cand.
  induction times as [|times IH]; simpl; intros count cache cand Ht H0; [lia|].
  assert (Hnext : ∀ times', (S times ≤ times')%nat → ∃ t, times' = S t ∧ (times ≤ t)%nat)
    by (intros [|t] ?; [lia|exists t; lia]).
  destruct (nextCandidate_total rtt_ok edges g draw (drawsLeft g count) count) as [[[p|] count'] En].
  { destruct draws_total as [?|Hd]; auto. }
  2: { rewrite En. split; [done|]. intros ? (t & -> & ?)%Hnext. simpl. by rewrite En. }
  pose proof (nextCandidate_Some _ _ _ _ _ _ _ _ En) as (_ & [i Hi] & Hcount).
  pose proof (generator_picks _ _ _ _ _ _ Hshuffle Hg Hi) as Hp.
  destruct (verifyEdgeConstraints answer edges p cache) as [r cache'] eqn:Ev.
  assert (∃ b, r = Ok b) as [b ->].
  { unfold verifyEdgeConstraints in Ev. destruct (edgesToVerify edges p cache) as [l| |] eqn:Ee.
    - destruct (fold_left _ _ _). simplify_eq. eauto.
    - simplify_eq. eauto.
    - apply edgesToVerify_panic in Ee as (e & He & Hnone). exfalso.
      destruct (Hnodes e He) as [[l Hl] [l' Hl']]. pose proof (Hp (edge_S e)). pose proof (Hp (edge_T e)).
      rewrite Hl, Hl' in *. naive_solver. }
  rewrite En, Ev. destruct b.
  - split; [done|]. intros ? (t & -> & ?)%Hnext. simpl. by rewrite En, Ev.
  - pose proof (drawsLeft_next _ _ _ Hcount). destruct (IH count' cache' p) as [H1 H2]; [lia|lia|].
    split; [done|]. intros ? (t & -> & Hle)%Hnext. simpl. rewrite En, Ev. by apply H2.
Qed.
End selection.

(** ** Claims *)

Section claims.
  Context `{Visit : MapVisit} `{NodeGen : NodeIDGenerator} `{Bids : BidLib}.

(** C7: a candidate the bidding returns while its deadline leaves time for all draws (more
    than the bound of 1,000,000 on them), when no two edge constraints have the same
    endpoints (the cache of confirmed edges is keyed by them), no bid is given beforehand
    for a node that is pinned to an excluded peer, and identifiers of peers have no colon:
    one bid for as many nodes as the ensemble has, each signed by its peer for this
    ensemble and node, from an accepted place and from a peer that is neither excluded nor
    reserved for another node; no peer serves two nodes; the geographic check passes, and
    every edge was confirmed by its source.  Whatever bids arrive, whatever bids the residual
    requests drop, whatever is drawn and however often results come from the cache. *)
Theorem bid_sound docker rtt_ok answer cfg eid nonce candidates sent received shuffle rounds draw times c :
  (∀ p k, peer_key p = Some k → Contains p ":" = false) →
  (∀ l, shuffle l ≡ₚ l) → Forall (λ r, ∀ l, round_shuffle r l ≡ₚ l) rounds →
  (∀ p n, p ∈ cfg_ExcludePeers cfg → nodeForTargetPeer cfg !! p = Some n → candidates !! n = None) →
  NoDup (map (λ e, (edge_S e, edge_T e)) (cfg_Edges cfg)) →
  (MaxPermutations < Z.of_nat times)%Z →
  bid docker rtt_ok answer cfg eid nonce candidates sent received shuffle rounds draw times = Ok c →
  size c = size (Nodes cfg) ∧
  (∀ n b, c !! n = Some b → accepted cfg eid n b) ∧
  (∀ n n' b b', c !! n = Some b → c !! n' = Some b' → bid_Peer b = bid_Peer b' → n = n') ∧
  checkEdges rtt_ok (cfg_Edges cfg) c = true ∧
  (∀ e, e ∈ cfg_Edges cfg → edge_holds answer c e).
Proof.
  intros Hcol Hs Hr Hcand Hnd Ht. unfold bid.
  destruct (ensembleConfigToBidRequest _ _ _ _); try done.
  destruct sent; cbn [negb]; [|done].
  destruct (collectBids _ _ _ _ _ _) as [st| |] eqn:Ec; try done.
  apply (collectBids_inv cfg eid) in Ec; [|by apply initialBids_inv].
  destruct (bidRounds _ _ _ _ _ _ _) as [[g st']| |] eqn:Eb; try done.
  apply bidRounds_inv in Eb as [HI Hg]; [|done..]. intros Hsel.
  pose proof (proj1 (generator_spec _ _ _ _ (bids_nonempty _ _ _ HI) Hs Hg)) as Hn.
  eapply select_verified in Hsel as (Hp & Hce & He); eauto.
  - split_and!; auto.
    + unfold makeCandidateDeployments in Hg. destruct (Nat.eqb_spec (size (Nodes cfg)) (size (bidMap st'))) as [->|]; [|done].
      rewrite <- !size_dom. f_equal. apply set_eq. intros n. rewrite !elem_of_dom. specialize (Hp n).
      destruct (bidMap st' !! n); [destruct Hp as (b & -> & _); split; eauto|by rewrite Hp].
    + intros n b Hb. destruct (picks_pool _ _ _ _ Hp Hb) as (l & Hl & Hin). by eapply bi_accepted.
    + intros n n' b b' Hb Hb' Heq. by apply (pool_unique _ _ _ HI _ _ _ _ (picks_pool _ _ _ _ Hp Hb) (picks_pool _ _ _ _ Hp Hb') Heq).
  - intros e bs bt r _ _ _. by rewrite lookup_empty.
  - unfold drawsLeft, MaxPermutations in *. lia.
Qed.

(** The search for a candidate ends after as many rounds as combinations are drawn,
    at most a million: with more rounds the result is the same, and it is a candidate or
    the error that there is none; an edge between nodes with bids never makes it
    panic. *)
Theorem selection_terminates cfg eid st shuffle g rtt_ok answer edges draw times :
  BidInv cfg eid st → (∀ l, shuffle l ≡ₚ l) → makeCandidateDeployments shuffle cfg (bidMap st) = Some g →
  (∀ e, e ∈ edges → is_Some (bidMap st !! edge_S e) ∧ is_Some (bidMap st !! edge_T e)) →
  (0 ≤ gen_nperm g < Z.of_nat times)%Z →
  (gen_nperm g ≤ MaxPermutations)%Z ∧
  let r := selectCandidate rtt_ok answer edges g draw times 0 ∅ ∅ in
  (r = Err ErrCandidateNotFound ∨ ∃ c, r = Ok c) ∧
  ∀ times', (times ≤ times')%nat → selectCandidate rtt_ok answer edges g draw times' 0 ∅ ∅ = r.
Proof.
  intros HI Hs Hg Hnodes Ht. split; [by eapply generator_spec, Hg; [eapply bids_nonempty|]|].
  destruct (select_total cfg eid st HI shuffle Hs g Hg rtt_ok answer edges draw times 0 ∅ ∅ Hnodes) as [H1 H2].
  { unfold drawsLeft. lia. }
  { done. }
  split; [|exact H2]. destruct (selectCandidate _ _ _ _ _ _ _ _ _) as [c|[]|] eqn:E; eauto; try done;
    exfalso; revert E; clear; generalize (∅ : gmap string bool) (∅ : gmap string BidV1) 0%Z;
    induction times as [|times IH]; simpl; intros cache cand count E; [done| |done|];
    repeat case_match; simplify_eq; eauto.
Qed.

(** The generator is the set of choices: every index gives a choice of one bid per
    node, and when there are at most a million combinations, or so many that the big
    generator is used, every choice has an index that is drawn. *)
Theorem generator_enumerates cfg shuffle bids g :
  nonempty bids → (∀ l, shuffle l ≡ₚ l) → makeCandidateDeployments shuffle cfg bids = Some g →
  combinations bids ≠ (2 ^ 63)%Z →
  (∀ i, (0 ≤ i)%Z → ∃ c, getPermutation (gen_permutators g) i = Some c ∧ picks bids c) ∧
  ((combinations bids ≤ MaxPermutations)%Z ∨ (63 < permutationBits (shuffle <$> bids))%Z →
   ∀ c, picks bids c → ∃ i, (0 ≤ i < gen_space g)%Z ∧ getPermutation (gen_permutators g) i = Some c).
Proof.
  intros Hb Hs Hg Hne. pose proof (generator_picks shuffle cfg bids g) as Hpick.
  destruct (generator_spec _ _ _ _ Hb Hs Hg) as [_ [[? _]|(Hps & Hsp & Hle)]]; [done|].
  pose proof (visited_nonempty _ (nonempty_shuffle _ _ Hs Hb)) as Hv. rewrite Hps in *. split.
  - intros i Hi. destruct (getPermutation_total 1 _ i ltac:(lia) Hv Hi) as [c Hc]. eauto.
  - intros Hor c Hc. destruct (visited_bids (shuffle <$> bids)) as [Hm Hnd].
    destruct (getPermutation_index 1 _ c 0 ltac:(lia) Hv Hnd) as (i & Hi & Hgp); [|lia|].
    { rewrite Hm. by apply picks_shuffle. }
    rewrite combinations_visited, combinations_shuffle in Hi by done.
    exists i. split; [specialize (Hle Hor); lia|]. by rewrite <- Hgp; f_equal; lia.
Qed.

(** ** Pinned nodes *)

Lemma nodeForTargetPeer_fold (l : list (string * NodeConfig)) (m : gmap string string) p :
  (∀ n, fold_left (λ m '(nodeID, node), if bool_decide (node_Peer node ≠ "") then <[node_Peer node := nodeID]> m else m) l m !! p = Some n →
    m !! p = Some n ∨ ∃ nd, (n, nd) ∈ l ∧ node_Peer nd = p ∧ p ≠ "") ∧
  ((is_Some (m !! p) ∨ ∃ n nd, (n, nd) ∈ l ∧ node_Peer nd = p ∧ p ≠ "") →
   is_Some (fold_left (λ m '(nodeID, node), if bool_decide (node_Peer node ≠ "") then <[node_Peer node := nodeID]> m else m) l m !! p)).
Proof.
  revert m. induction l as [|[n nd] l IH]; intros m; simpl.
  { split; [by auto|]. intros [?|(? & ? & Hin & _)]; [done|by apply elem_of_nil in Hin]. }
  case_bool_decide as Hp; [destruct (IH (<[node_Peer nd := n]> m)) as [H1 H2]|destruct (IH m) as [H1 H2]]; split.
  - intros n' [Hm|(nd' & Hin & ? & ?)]%H1; [|right; exists nd'; split; [by right|done]].
    apply lookup_insert_Some in Hm as [[Heq <-]|[_ Hm]]; [|by auto]. right. exists nd. split; [left|].
    split; [done|congruence].
  - intros Hor. apply H2. destruct (decide (node_Peer nd = p)) as [<-|Hne].
    + left. by rewrite lookup_insert_eq.
    + destruct Hor as [Hm|(n' & nd' & [Heq|Hin]%elem_of_cons & ? & ?)]; [left; by rewrite lookup_insert_ne|by simplify_eq|].
      right. by exists n', nd'.
  - intros n' [Hm|(nd' & Hin & ? & ?)]%H1; [by auto|right; exists nd'; split; [by right|done]].
  - intros Hor. apply H2. destruct Hor as [Hm|(n' & nd' & [Heq|Hin]%elem_of_cons & ? & ?)]; [by auto|simplify_eq; congruence|].
    right. by exists n', nd'.
Qed.

Lemma nodeForTargetPeer_Some cfg p n :
  nodeForTargetPeer cfg !! p = Some n → ∃ nd, Nodes cfg !! n = Some nd ∧ node_Peer nd = p ∧ p ≠ "".
Proof.
  intros [Hm|(nd & Hin & ?)]%nodeForTargetPeer_fold; [by rewrite lookup_empty in Hm|].
  exists nd. split; [|done]. rewrite visit_perm in Hin. by apply elem_of_map_to_list in Hin.
Qed.

Lemma nodeForTargetPeer_pinned cfg n nd :
  Nodes cfg !! n = Some nd → node_Peer nd ≠ "" → is_Some (nodeForTargetPeer cfg !! node_Peer nd).
Proof.
  intros Hn Hp. apply nodeForTargetPeer_fold. right. exists n, nd. split; [|done].
  rewrite visit_perm. by apply elem_of_map_to_list.
Qed.

Lemma standby_unpinned nodes k c : buildStandbyNodes nodes !! k = Some c → node_Peer c = "".
Proof.
  unfold buildStandbyNodes. revert c.
  assert (Hins : ∀ (L : list (string * NodeConfig)) m, (∀ k c, m !! k = Some c → node_Peer c = "") →
    (∀ k c, (k, c) ∈ L → node_Peer c = "") →
    ∀ k c, fold_left (λ (m : gmap string NodeConfig) '(id, c), <[id := c]> m) L m !! k = Some c → node_Peer c = "").
  { induction L as [|[id x] L IH]; simpl; intros m Hm HL; [done|]. apply IH; [|set_solver].
    intros k' c' [[<- <-]|[_ ?]]%lookup_insert_Some; [apply (HL id); set_solver|eauto]. }
  assert (Hs : ∀ L (m : gmap string NodeConfig), (∀ k c, m !! k = Some c → node_Peer c = "") →
    ∀ k c, fold_left (λ m '(nodeID, nodeConfig), fold_left (λ m '(id, c), <[id := c]> m) (standbysOf nodeID nodeConfig) m) L m !! k = Some c →
    node_Peer c = "").
  { induction L as [|[id x] L IH]; simpl; intros m Hm; [done|]. apply IH. apply Hins; [done|].
    intros k' c'. unfold standbysOf. destruct (_ =? _)%Z; [set_solver|].
    intros (i & _ & Hi)%list_elem_of_omap. destruct (GenerateStandbyNodeID id i); by simplify_eq/=. }
  intros c. eapply Hs. intros k' c'. by rewrite lookup_empty.
Qed.

(** No bid for a standby of a node that is pinned to a peer is ever accepted: the
    standby inherits the pin, and the pinned peer may only bid for the primary.  Such an
    ensemble never gets all the bids it needs. *)
Theorem pinned_standby_refused cfg st b n i node :
  ParseNodeID (bid_NodeID b) = Ok (true, n, i) → cfg_Nodes cfg !! bid_NodeID b = None →
  cfg_Nodes cfg !! n = Some node → Nodes cfg !! n = Some node → node_Peer node ≠ "" →
  addBid cfg st b = (false, st).
Proof.
  intros Hparse Hno Hn Hnodes Hpin. unfold addBid.
  set (reserved := match nodeForTargetPeer cfg !! bid_Peer b with Some _ => _ | None => _ end).
  destruct reserved eqn:Er; [done|]. unfold reserved in Er.
  destruct (bool_decide _); [done|]. destruct (negb _); [done|].
  destruct (Node cfg (bid_NodeID b)) as [nd|] eqn:En; [|done].
  assert (nd = node) as ->.
  { unfold Node in En. rewrite Hno, Hparse, Hn in En. destruct (_ || _); [done|]. by injection En. }
  unfold acceptPeerLocation. rewrite En, bool_decide_true by done.
  destruct (decide (node_Peer node = bid_Peer b)) as [Hp|Hp]; [|by rewrite bool_decide_false].
  exfalso. destruct (nodeForTargetPeer_pinned _ _ _ Hnodes Hpin) as [n' Hn'].
  rewrite <- Hp, Hn' in Er. apply bool_decide_eq_false, dec_stable in Er. subst n'.
  apply nodeForTargetPeer_Some in Hn' as (nd & Hnd & Hpeer & _).
  unfold Nodes in Hnd. rewrite lookup_union_Some_raw in Hnd. destruct Hnd as [Hs|[_ Hnd]].
  - apply standby_unpinned in Hs. congruence.
  - congruence.
Qed.

(** ** Overflow *)

(** An ensemble of 21 nodes each of which has received the most bids it can, 8, is
    never deployed: the number of combinations, 2^63, overflows to a negative number
    and no combination is drawn. *)
Theorem saturated_ensemble_fails cfg shuffle bids g rtt_ok answer edges draw times :
  (∀ l, shuffle l ≡ₚ l) → size bids = 21%nat → (∀ n l, bids !! n = Some l → length l = MaxBidMultiplier) →
  makeCandidateDeployments shuffle cfg bids = Some g →
  selectCandidate rtt_ok answer edges g draw (S times) 0 ∅ ∅ = Err ErrCandidateNotFound.
Proof.
  intros Hs Hsz Hl Hg.
  assert (Hb : nonempty bids) by (intros n l H ->; by apply Hl in H).
  assert (Hall : Forall (λ kv : string * list BidV1, length kv.2 = 8%nat) (map_to_list bids)).
  { apply Forall_forall. intros [n l] Hin%elem_of_map_to_list. by eapply Hl. }
  assert (Hprod : ∀ l : list (string * list BidV1), Forall (λ kv, length kv.2 = 8%nat) l → product l = (8 ^ Z.of_nat (length l))%Z).
  { clear. induction 1 as [|x l Hx _ IH]; [done|]. cbn [product foldr length]. fold (product l).
    rewrite IH, Nat2Z.inj_succ, Z.pow_succ_r, Hx by lia. done. }
  assert (Hbits : (permutationBits (shuffle <$> bids) = 63)%Z).
  { unfold permutationBits. rewrite map_to_list_fmap.
    replace 63%Z with (0 + 3 * Z.of_nat (length (map_to_list bids)))%Z by (rewrite length_map_to_list, Hsz; done).
    generalize 0%Z. clear -Hall Hs. induction Hall as [|[n l] L Hx _ IH]; simpl; intros acc; [lia|].
    simpl in IH. rewrite IH, Hs. simpl in Hx. rewrite Hx. change (Z.log2_up (Z.of_nat 8)) with 3%Z. lia. }
  destruct (generator_spec _ _ _ _ Hb Hs Hg) as [_ [[_ Hneg]|(_ & _ & _)]].
  { cbn [selectCandidate]. replace (drawsLeft g 0) with O by (unfold drawsLeft; lia). done. }
  assert (combinations bids = 2 ^ 63)%Z as Hc.
  { unfold combinations. by rewrite Hprod, length_map_to_list, Hsz. }
  unfold makeCandidateDeployments in Hg. destruct (negb _); [done|]. rewrite Hbits in Hg. simplify_eq/=.
  destruct (small_generator _ (nonempty_shuffle _ _ Hs Hb)) as [[_ Hneg]|[Hlt _]]; [lia| |].
  - cbn [selectCandidate]. replace (drawsLeft _ 0) with O by (unfold drawsLeft; lia). done.
  - rewrite combinations_shuffle in Hlt by done. lia.
Qed.
End claims.

(** ** Samples *)

#[local] Instance bid_visit : MapVisit := {| visit A l := l; visit_perm A l := reflexivity l |}.

(** Peer IDs are the strings without a colon; a bid is signed "ok". *)
#[local] Instance sample_BidLib : BidLib := {|
  marshal_bid b := Some (bid_Peer b +:+ bid_NodeID b);
  peer_key p := if Contains p ":" then None else Some p;
  peer_verify k data sig := Some (bool_decide (sig = "ok"))
|}.

Definition sample_place : Location := mkLocation "Europe" "GR" "Athens" 0 "".
Definition sample_bidder (node peer : string) : BidV1 :=
  mkBidV1 "e1" node peer sample_place (mkHandle "" (mkDID "") (mkAddress "" "")) "" ∅ "ok" false.

Definition sample_node (redundancy : Z) (peer : string) : NodeConfig :=
  mkNodeConfig [] [] (mkLocationConstraints [sample_place] []) peer redundancy "".

Definition sample_ensemble (nodes : list (string * NodeConfig)) (edges : list EdgeConstraint)
    (excluded : list string) : EnsembleConfigV1 :=
  mkConfig "" ∅ (list_to_map nodes) edges (mkSupervisor "" [] []) excluded false ∅ ∅ ∅ ∅.

Definition pair_ensemble : EnsembleConfigV1 :=
  sample_ensemble [("a", sample_node 0 ""); ("b", sample_node 0 "")] [mkEdge "a" "b" 10 0] ["evil"].

Definition sample_rtt (l l' : Location) (rtt : Z) : option bool := Some true.
Definition only_p3 (e : EdgeConstraint) (bs bt : BidV1) : bool := bool_decide (bid_Peer bt = "p3").

(** Bids for two nodes, one of them from an excluded peer; the edge is confirmed only
    with the last bid. *)
Definition sample_received : list Bid :=
  map (λ b, mkBid (Some b)) [sample_bidder "a" "evil"; sample_bidder "a" "p1"; sample_bidder "b" "p2"; sample_bidder "b" "p3"].

Definition sample_round : Round := mkRound true id (λ _, O) [].

Lemma colon_free p k : peer_key p = Some k → Contains p ":" = false.
Proof. simpl. by destruct (Contains p ":"). Qed.

Lemma bid_sound_witness :
  ∃ c, c !! "a" = Some (sample_bidder "a" "p1") ∧ c !! "b" = Some (sample_bidder "b" "p3") ∧
  size c = size (Nodes pair_ensemble) ∧
  (∀ n b, c !! n = Some b → accepted pair_ensemble "e1" n b) ∧
  (∀ n n' b b', c !! n = Some b → c !! n' = Some b' → bid_Peer b = bid_Peer b' → n = n') ∧
  checkEdges sample_rtt (cfg_Edges pair_ensemble) c = true ∧
  (∀ e, e ∈ cfg_Edges pair_ensemble → edge_holds only_p3 c e).
Proof.
  exists (<["a" := sample_bidder "a" "p1"]> (<["b" := sample_bidder "b" "p3"]> ∅)).
  split; [reflexivity|]. split; [reflexivity|].
  apply (bid_sound (λ _, Some false) sample_rtt only_p3 pair_ensemble "e1" 0 ∅ true sample_received id
    [sample_round] (λ n, n) (Z.to_nat 1000001)).
  - apply colon_free.
  - intros l. reflexivity.
  - constructor; [intros l; reflexivity|constructor].
  - intros p n _ _. apply lookup_empty.
  - repeat constructor; set_solver.
  - unfold MaxPermutations. lia.
  - vm_compute. reflexivity.
Defined.

Lemma selection_terminates_witness :
  ∃ g st, BidInv pair_ensemble "e1" st ∧ makeCandidateDeployments id pair_ensemble (bidMap st) = Some g ∧ gen_nperm g = 2%Z ∧
  (selectCandidate sample_rtt only_p3 [] g (λ n, n) 3 0 ∅ ∅ = Err ErrCandidateNotFound ∨
   ∃ c, selectCandidate sample_rtt only_p3 [] g (λ n, n) 3 0 ∅ ∅ = Ok c).
Proof.
  destruct (collectBids pair_ensemble "e1" 16 sample_received 0 (initialBids pair_ensemble ∅)) as [st| |] eqn:E;
    [|exfalso; vm_compute in E; discriminate..].
  assert (HI : BidInv pair_ensemble "e1" st).
  { eapply collectBids_inv; [|exact E]. apply initialBids_inv. intros p n _ _. apply lookup_empty. }
  destruct (makeCandidateDeployments id pair_ensemble (bidMap st)) as [g|] eqn:Eg;
    [|exfalso; vm_compute in E; injection E as <-; vm_compute in Eg; discriminate].
  assert (Hn : gen_nperm g = 2%Z).
  { vm_compute in E. injection E as <-. vm_compute in Eg. injection Eg as <-. reflexivity. }
  exists g, st. split; [exact HI|]. split; [exact Eg|]. split; [exact Hn|].
  apply (selection_terminates pair_ensemble "e1" st id g sample_rtt only_p3 [] (λ n, n) 3 HI).
  - intros l. reflexivity.
  - exact Eg.
  - intros e He. inversion He.
  - rewrite Hn. lia.
Defined.

Definition sample_bids : gmap string (list BidV1) :=
  <["a" := [sample_bidder "a" "p1"]]> {["b" := [sample_bidder "b" "p2"; sample_bidder "b" "p3"]]}.

Lemma generator_enumerates_witness :
  ∃ g, makeCandidateDeployments id pair_ensemble sample_bids = Some g ∧
  ∀ c, picks sample_bids c → ∃ i, (0 ≤ i < gen_space g)%Z ∧ getPermutation (gen_permutators g) i = Some c.
Proof.
  destruct (makeCandidateDeployments id pair_ensemble sample_bids) as [g|] eqn:E;
    [|exfalso; vm_compute in E; discriminate].
  exists g. split; [reflexivity|].
  apply (generator_enumerates pair_ensemble id sample_bids g).
  - intros n l. unfold sample_bids. rewrite lookup_insert_Some, lookup_singleton_Some. naive_solver.
  - intros l. reflexivity.
  - exact E.
  - vm_compute. discriminate.
  - left. vm_compute. discriminate.
Defined.

(** 21 nodes with 8 bids each. *)
Definition many_names : list string := map (λ i, Itoa (Z.of_nat i)) (seq 1 21).
Definition many_ensemble : EnsembleConfigV1 :=
  sample_ensemble (map (λ n, (n, sample_node 0 "")) many_names) [] [].
Definition many_bids : gmap string (list BidV1) :=
  list_to_map (map (λ n, (n, map (λ i, sample_bidder n (n +:+ "-" +:+ Itoa (Z.of_nat i))) (seq 1 8))) many_names).

Lemma saturated_ensemble_fails_witness :
  ∃ g, makeCandidateDeployments id many_ensemble many_bids = Some g ∧
  selectCandidate sample_rtt only_p3 [] g (λ n, n) 100 0 ∅ ∅ = Err ErrCandidateNotFound.
Proof.
  destruct (makeCandidateDeployments id many_ensemble many_bids) as [g|] eqn:E;
    [|exfalso; vm_compute in E; discriminate].
  exists g. split; [reflexivity|].
  apply (saturated_ensemble_fails many_ensemble id many_bids g sample_rtt only_p3 [] (λ n, n) 99).
  - intros l. reflexivity.
  - vm_compute. reflexivity.
  - intros n l Hl. apply elem_of_list_to_map_2 in Hl.
    apply list_elem_of_fmap in Hl as (n' & [= -> ->] & _). reflexivity.
  - exact E.
Defined.

Definition pinned_ensemble : EnsembleConfigV1 :=
  sample_ensemble [("a", sample_node 1 "p1")] [] [].

Lemma pinned_standby_refused_witness :
  dom (Nodes pinned_ensemble) = {["a"; "a-standby-1"]} ∧
  addBid pinned_ensemble (initialBids pinned_ensemble ∅) (sample_bidder "a-standby-1" "p1")
  = (false, initialBids pinned_ensemble ∅).
Proof.
  split; [vm_compute; reflexivity|].
  apply (pinned_standby_refused pinned_ensemble _ (sample_bidder "a-standby-1" "p1") "a" 1 (sample_node 1 "p1"));
    vm_compute; reflexivity || discriminate.
Defined.

(** ** What the code does where it does not do what it means to *)

(** The deadline in the selection loop: the candidate drawn last is returned without an
    error though an edge was denied, and before the first draw no candidate at all. *)
Example deadline_returns_unverified :
  bid (λ _, Some false) sample_rtt (λ _ _ _, false) pair_ensemble "e1" 0 ∅ true sample_received id [sample_round] (λ n, n) 1
  = Ok (<["a" := sample_bidder "a" "p1"]> {["b" := sample_bidder "b" "p2"]}) ∧
  bid (λ _, Some false) sample_rtt (λ _ _ _, true) pair_ensemble "e1" 0 ∅ true sample_received id [sample_round] (λ n, n) 0
  = Ok ∅.
Proof. split; vm_compute; reflexivity. Qed.

(** A bid without content stops the process. *)
Example empty_bid_panics :
  collectBids pair_ensemble "e1" 16 [mkBid None] 0 (initialBids pair_ensemble ∅) = Panic.
Proof. reflexivity. Qed.

(** Of four bids one is to be kept; removing while iterating keeps two, and only
    the first of them is told to the peers as excluded. *)
Example dropping_skips_bids :
  let bids := map (sample_bidder "a") ["p1"; "p2"; "p3"; "p4"] in
  dropBids id 0 {["p1"; "p2"; "p3"; "p4"]} bids =
  (map (sample_bidder "a") ["p1"; "p3"], {["p1"; "p3"]}, [sample_bidder "a" "p1"]).
Proof. vm_compute. reflexivity. Qed.

(** A bid for a name that reads as a standby but is not one the ensemble has. *)
Example alias_of_standby_accepted :
  let cfg := sample_ensemble [("a", sample_node 1 "")] [] [] in
  "a-standby-01" ∉ dom (Nodes cfg) ∧
  (addBid cfg (initialBids cfg ∅) (sample_bidder "a-standby-01" "p1")).1 = true.
Proof. split; [|vm_compute; reflexivity]. intros H. vm_compute in H. discriminate. Qed.
