(* ===== verification/ManifestDiff.v ===== *)
(** * Updates of a deployed ensemble (dms/orchestrator/manifest_diff.go)

    What an update adds and removes, the configuration that is deployed for it, and
    which updates are refused.  The keys of a map become a slice in the order the
    range visits them. *)

From S2P Require Import Prelude GoStrings GoNumbers AllocationID Key Envelope.
From S2P Require Import Hardware ResourceManager Allocation Ensemble.

Inductive diff_error :=
| ErrAllocationNotFound (name : string)
| ErrNodeNotFound (name : string)
| ErrSupervisorRemoved
| ErrLocationChanged (name : string)
| ErrPortsChanged (name : string)
| ErrEdgeAdded (s t : string)
| ErrStrategyChanged.

#[export] Instance diff_error_eq_dec : EqDecision diff_error.
Proof. solve_decision. Defined.

Definition contains (l : list string) (x : string) : bool := existsb (λ y, bool_decide (y = x)) l.

Section diff.
  Context `{Visit : MapVisit} `{NodeGen : NodeIDGenerator}.

Definition MapKeysToSlice {A} (m : gmap string A) : list string := visit (map fst (map_to_list m)).

(** ** What changes *)

Fixpoint newAllocationsOf (modified : EnsembleConfigV1) (current names : list string)
    (allocations : gmap string AllocationConfig) : outcome diff_error (gmap string AllocationConfig) :=
  match names with
  | [] => Ok allocations
  | alloc :: names =>
      if contains current alloc then newAllocationsOf modified current names allocations
      else match cfg_Allocation modified alloc with
      | Some a => newAllocationsOf modified current names (<[alloc := a]> allocations)
      | None => Err (ErrAllocationNotFound alloc)
      end
  end.

Definition currentAllocations (current : EnsembleConfigV1) (node : string) : list string :=
  match Node current node with Some n => node_Allocations n | None => [] end.

Definition identifyNewAllocations (current modified : EnsembleConfigV1) (node : string)
    : outcome diff_error (gmap string AllocationConfig) :=
  match Node modified node with
  | None => Ok ∅
  | Some ncfg => newAllocationsOf modified (currentAllocations current node) (node_Allocations ncfg) ∅
  end.

Definition identifyRemovedAllocations (current modified : EnsembleConfigV1) (node : string)
    : gmap string AllocationConfig :=
  match Node modified node, Node current node with
  | Some ncfg, Some cfg =>
      fold_left
        (λ m alloc, if contains (node_Allocations ncfg) alloc then m
                    else match cfg_Allocation current alloc with
                         | Some a => <[alloc := a]> m
                         | None => m
                         end)
        (node_Allocations cfg) ∅
  | _, _ => ∅
  end.

Definition identifyRemovedNodes (current modified : EnsembleConfigV1) : gmap string NodeConfig :=
  filter (λ kv, Node modified kv.1 = None) (Nodes current).

Definition relocated (modified : EnsembleConfigV1) (name : string) (currCfg : NodeConfig) : bool :=
  match Node modified name with
  | Some modCfg => bool_decide (node_Peer currCfg ≠ node_Peer modCfg)
  | None => false
  end.

Definition identifyRelocatedNodes (current modified : EnsembleConfigV1) : gmap string NodeConfig :=
  filter (λ kv, relocated modified kv.1 kv.2 = true) (Nodes current).

(** ** Configurations of an update *)

(** What is deployed of one node: the new allocations with their ports, on the peer it is
    on already; a peer without new allocations is excluded. *)
Definition updateNode (existingNodes : gmap string string) (n : string) (ncfg : NodeConfig)
    (new : gmap string AllocationConfig) (exclude : list string) : NodeConfig * list string :=
  let '(ncfg, exclude) :=
    match existingNodes !! n with
    | Some peer => (set_node_Peer ncfg peer, if (size new =? 0)%nat then exclude ++ [peer] else exclude)
    | None => (ncfg, exclude)
    end in
  let ncfg := set_node_Allocations ncfg (MapKeysToSlice new) in
  (set_node_Ports ncfg (List.filter (λ p, contains (node_Allocations ncfg) (port_Allocation p)) (node_Ports ncfg)),
   exclude).

Fixpoint updateNodes (old modified : EnsembleConfigV1) (existingNodes : gmap string string)
    (l : list (string * NodeConfig))
    (acc : gmap string NodeConfig * gmap string AllocationConfig * list string)
    : outcome diff_error (gmap string NodeConfig * gmap string AllocationConfig * list string) :=
  match l with
  | [] => Ok acc
  | (n, ncfg) :: l =>
      match identifyNewAllocations old modified n with
      | Err e => Err e
      | Panic => Panic
      | Ok new =>
          let '(nodes, allocations, exclude) := acc in
          let '(ncfg, exclude) := updateNode existingNodes n ncfg new exclude in
          updateNodes old modified existingNodes l (<[n := ncfg]> nodes, new ∪ allocations, exclude)
      end
  end.

(** The contracts of the modified configuration are not among the fields that are
    copied. *)
Definition newConfigForDeploymentUpdate (old modified : EnsembleConfigV1) (existingNodes : gmap string string)
    : outcome diff_error EnsembleConfigV1 :=
  match updateNodes old modified existingNodes (visit (map_to_list (Nodes modified)))
          (∅, ∅, cfg_ExcludePeers modified) with
  | Err e => Err e
  | Panic => Panic
  | Ok (nodes, allocations, exclude) =>
      Ok (mkConfig (EscalationStrategy modified) allocations nodes (cfg_Edges modified) (cfg_Supervisor modified)
            exclude (cfg_SubnetJoin modified) (cfg_Metadata modified) ∅ (cfg_Keys modified) (cfg_Scripts modified))
  end.

Fixpoint lookupAllocations (cfg : EnsembleConfigV1) (names : list string)
    (allocations : gmap string AllocationConfig) : outcome diff_error (gmap string AllocationConfig) :=
  match names with
  | [] => Ok allocations
  | name :: names =>
      match cfg_Allocation cfg name with
      | None => Err (ErrAllocationNotFound name)
      | Some a => lookupAllocations cfg names (<[name := a]> allocations)
      end
  end.

Definition newConfigForRemovedNodes (old modified : EnsembleConfigV1) : outcome diff_error EnsembleConfigV1 :=
  let nodes := identifyRelocatedNodes old modified ∪ identifyRemovedNodes old modified in
  let nodesCfg := mkConfig "" ∅ nodes (cfg_Edges modified) (cfg_Supervisor modified) [] false ∅ ∅
                    (cfg_Keys modified) (cfg_Scripts modified) in
  let names := flat_map (λ kv, node_Allocations kv.2) (visit (map_to_list (Nodes nodesCfg))) in
  match lookupAllocations old names ∅ with
  | Err e => Err e
  | Panic => Panic
  | Ok allocations => Ok (set_cfg_allocations nodesCfg allocations)
  end.

(** ** Manifests *)

Fixpoint manifestAllocations (mf : EnsembleManifest) (names : list string)
    (acc : gmap string AllocationManifest) : outcome diff_error (gmap string AllocationManifest) :=
  match names with
  | [] => Ok acc
  | name :: names =>
      match mf_Allocations mf !! name with
      | None => Err (ErrAllocationNotFound name)
      | Some a => manifestAllocations mf names (<[name := a]> acc)
      end
  end.

Fixpoint manifestNodes (mf : EnsembleManifest) (nodes : list string)
    (acc : gmap string NodeManifest * gmap string AllocationManifest)
    : outcome diff_error (gmap string NodeManifest * gmap string AllocationManifest) :=
  match nodes with
  | [] => Ok acc
  | name :: nodes =>
      match mf_Nodes mf !! name with
      | None => Err (ErrNodeNotFound name)
      | Some nmf =>
          match manifestAllocations mf (nmf_Allocations nmf) acc.2 with
          | Ok allocations => manifestNodes mf nodes (<[name := nmf]> acc.1, allocations)
          | Err e => Err e
          | Panic => Panic
          end
      end
  end.

Definition manifestOnlyForNodes (mf : EnsembleManifest) (nodes : list string)
    : outcome diff_error EnsembleManifest :=
  match manifestNodes mf nodes (∅, ∅) with
  | Ok (ns, allocations) => Ok (mkManifest (mf_ID mf) ∅ (mf_Orchestrator mf) allocations ns (mf_SubnetJoin mf) ∅)
  | Err e => Err e
  | Panic => Panic
  end.

(** ** Which updates are allowed *)

Definition covers (super sub : list Location) : bool :=
  forallb (λ loc, existsb (λ candidate, Location_Equal candidate loc) super) sub.

Definition validateLocationConstraintsUpdate (current newLoc : LocationConstraints) : bool :=
  let hasNewAccept := (0 <? length (Accept newLoc))%nat in
  let hasCurrentAccept := (0 <? length (Accept current))%nat in
  let hasNewReject := (0 <? length (Reject newLoc))%nat in
  let hasCurrentReject := (0 <? length (Reject current))%nat in
  if hasNewAccept && (negb hasCurrentAccept || negb (covers (Accept newLoc) (Accept current))) then false
  else if negb hasNewAccept && hasCurrentAccept && hasNewReject then false
  else if hasNewReject && (negb hasCurrentReject || negb (covers (Reject current) (Reject newLoc))) then false
  else true.

Definition samePort (p q : EnsemblePort) : bool :=
  bool_decide (port_Allocation q = port_Allocation p) && (port_Public q =? port_Public p)%Z &&
  (port_Private q =? port_Private p)%Z.

(** The ports of an existing node: one of an allocation that is neither new nor removed
    has to be there still. *)
Definition validatePorts (currNode modNode : NodeConfig) : bool :=
  let newAllocs := List.filter (λ a, negb (contains (node_Allocations currNode) a)) (node_Allocations modNode) in
  forallb (λ currPort,
      if contains newAllocs (port_Allocation currPort) then true
      else if negb (contains (node_Allocations modNode) (port_Allocation currPort)) then true
      else existsb (samePort currPort) (node_Ports modNode))
    (node_Ports currNode).

Fixpoint validateNodes (modified : EnsembleConfigV1) (l : list (string * NodeConfig)) : option diff_error :=
  match l with
  | [] => None
  | (name, currNode) :: l =>
      match Node modified name with
      | None => validateNodes modified l
      | Some modNode =>
          if bool_decide (node_Peer modNode ≠ node_Peer currNode) then validateNodes modified l
          else if negb (validateLocationConstraintsUpdate (node_Location currNode) (node_Location modNode))
          then Some (ErrLocationChanged name)
          else if negb (validatePorts currNode modNode) then Some (ErrPortsChanged name)
          else validateNodes modified l
      end
  end.

Definition sameEdge (e e' : EdgeConstraint) : bool :=
  bool_decide (edge_S e' = edge_S e) && bool_decide (edge_T e' = edge_T e) ||
  bool_decide (edge_S e' = edge_T e) && bool_decide (edge_T e' = edge_S e).

Fixpoint validateEdges (current : EnsembleConfigV1) (moved : gmap string NodeConfig) (edges : list EdgeConstraint)
    : option diff_error :=
  match edges with
  | [] => None
  | edge :: edges =>
      let exists_ n := bool_decide (is_Some (Nodes current !! n)) in
      let reloc n := bool_decide (is_Some (moved !! n)) in
      if negb (exists_ (edge_S edge)) || negb (exists_ (edge_T edge)) || reloc (edge_S edge) || reloc (edge_T edge)
      then validateEdges current moved edges
      else if existsb (sameEdge edge) (cfg_Edges current) then validateEdges current moved edges
      else Some (ErrEdgeAdded (edge_S edge) (edge_T edge))
  end.

Definition validateEnsembleUpdate (current modified : EnsembleConfigV1) : option diff_error :=
  if (0 <? length (sup_Allocations (cfg_Supervisor current)))%nat &&
     (length (sup_Allocations (cfg_Supervisor modified)) =? 0)%nat
  then Some ErrSupervisorRemoved
  else match validateNodes modified (visit (map_to_list (Nodes current))) with
  | Some e => Some e
  | None =>
      match validateEdges current (identifyRelocatedNodes current modified) (cfg_Edges modified) with
      | Some e => Some e
      | None =>
          if bool_decide (sup_Strategy (cfg_Supervisor current) ≠ sup_Strategy (cfg_Supervisor modified))
          then Some ErrStrategyChanged
          else None
      end
  end.

End diff.
