(* ===== verification/ManifestDiffProps.v ===== *)
(** * Updates of a deployed ensemble: properties (dms/orchestrator/manifest_diff.go) *)

From S2P Require Import Prelude GoStrings GoNumbers AllocationID Key Envelope.
From S2P Require Import Hardware ResourceManager Allocation Ensemble ManifestDiff.

Lemma contains_iff l x : contains l x = true ↔ x ∈ l.
Proof. unfold contains. rewrite existsb_exists. setoid_rewrite bool_decide_eq_true. rewrite list_elem_of_In. naive_solver. Qed.

Lemma contains_false l x : contains l x = false ↔ x ∉ l.
Proof. rewrite <- contains_iff. by destruct (contains l x). Qed.

(** ** Locations *)

(** A location matches the ones that are more precise. *)
Lemma Location_Equal_iff a b : Location_Equal a b = true ↔
  Continent a = Continent b ∧ (Country a = "" ∨ Country a = Country b) ∧ (City a = "" ∨ City a = City b) ∧
  ((ASN a ≤ 0)%Z ∨ ASN a = ASN b) ∧ (ISP a = "" ∨ ISP a = ISP b).
Proof.
  unfold Location_Equal. repeat case_bool_decide; simpl; try (split; [done|intuition congruence]);
    destruct (Z.ltb_spec 0 (ASN a)); simpl; try destruct (Z.eqb_spec (ASN a) (ASN b)); simpl;
    split; intuition (congruence || lia || auto).
Qed.

Lemma Location_Equal_trans a b c : Location_Equal a b = true → Location_Equal b c = true → Location_Equal a c = true.
Proof. rewrite !Location_Equal_iff. intuition (congruence || lia || auto). Qed.

Lemma covers_spec super sub l :
  covers super sub = true → existsb (λ a, Location_Equal a l) sub = true → existsb (λ a, Location_Equal a l) super = true.
Proof.
  unfold covers. rewrite forallb_forall, !existsb_exists. intros Hc (a & Ha & Hal).
  apply Hc, existsb_exists in Ha as (s & Hs & Hsa). exists s. split; [done|]. by eapply Location_Equal_trans.
Qed.

Lemma reject_existsb l c : forallb (λ r, negb (Location_Equal r l)) c = negb (existsb (λ r, Location_Equal r l) c).
Proof. induction c as [|r c IH]; simpl; [done|]. by rewrite IH, negb_orb. Qed.

(** An accepted change of the constraints of a node only broadens them. *)
Lemma location_update_broadens current new l :
  validateLocationConstraintsUpdate current new = true → Satisfies l current = true → Satisfies l new = true.
Proof.
  unfold validateLocationConstraintsUpdate, Satisfies.
  rewrite !reject_existsb.
  destruct (Nat.ltb_spec 0 (length (Accept new))) as [Hna|Hna], (Nat.ltb_spec 0 (length (Accept current))) as [Hca|Hca];
    simpl; try done.
  - destruct (covers (Accept new) (Accept current)) eqn:Ec; [|done]. intros _. by apply covers_spec.
  - intros H _. destruct (Nat.ltb_spec 0 (length (Reject new))) as [Hnr|Hnr]; [done|].
    destruct (Reject new); [done|simpl in Hnr; lia].
  - destruct (Nat.ltb_spec 0 (length (Reject new))) as [Hnr|Hnr]; simpl.
    + destruct (_ <? _)%nat; [simpl|done]. destruct (covers (Reject current) (Reject new)) eqn:Ec; [|done].
      intros _. rewrite !negb_true_iff. intros Hc. destruct (existsb _ (Reject new)) eqn:En; [|done].
      by rewrite (covers_spec _ _ _ Ec En) in Hc.
    + intros _ _. destruct (Reject new); [done|simpl in Hnr; lia].
Qed.

Section diff.
  Context `{Visit : MapVisit} `{NodeGen : NodeIDGenerator}.

(** ** New allocations *)

Definition is_new (current modified : EnsembleConfigV1) (n a : string) : Prop :=
  ∃ m, Node modified n = Some m ∧ a ∈ node_Allocations m ∧ a ∉ currentAllocations current n.

Lemma newAllocationsOf_spec modified cur names acc :
  match newAllocationsOf modified cur names acc with
  | Ok r => ∀ a, (a ∈ names → a ∉ cur → r !! a = cfg_Allocation modified a ∧ is_Some (r !! a)) ∧
                 (r !! a = acc !! a ∨ a ∈ names ∧ a ∉ cur)
  | Err e => ∃ a, e = ErrAllocationNotFound a ∧ a ∈ names ∧ a ∉ cur ∧ cfg_Allocation modified a = None
  | Panic => False
  end.
Proof.
  revert acc. induction names as [|x names IH]; intros acc; simpl.
  { split; [set_solver|auto]. }
  destruct (contains cur x) eqn:Ex.
  - apply contains_iff in Ex. specialize (IH acc). destruct (newAllocationsOf _ _ _ _) as [r|e|]; [|set_solver..].
    intros a. destruct (IH a) as [H1 H2]. split; [|set_solver].
    intros [->|Ha]%elem_of_cons; [done|auto].
  - apply contains_false in Ex. destruct (cfg_Allocation modified x) as [ac|] eqn:Ea; [|set_solver].
    specialize (IH (<[x := ac]> acc)). destruct (newAllocationsOf _ _ _ _) as [r|e|]; [|set_solver..].
    intros a. destruct (IH a) as [H1 H2]. destruct (decide (a = x)) as [->|Hne].
    + rewrite lookup_insert_eq in H2. split; [|right; set_solver]. intros _ _.
      destruct H2 as [->|[? ?]]; [by rewrite Ea|auto].
    + rewrite lookup_insert_ne in H2 by done. split; [|set_solver].
      intros [->|Ha]%elem_of_cons; [done|auto].
Qed.

Lemma identifyNewAllocations_spec current modified n :
  match identifyNewAllocations current modified n with
  | Ok r => ∀ a, (is_new current modified n a → r !! a = cfg_Allocation modified a ∧ is_Some (r !! a)) ∧
                 (is_Some (r !! a) → is_new current modified n a)
  | Err e => ∃ a, e = ErrAllocationNotFound a ∧ is_new current modified n a ∧ cfg_Allocation modified a = None
  | Panic => False
  end.
Proof.
  unfold identifyNewAllocations, is_new. destruct (Node modified n) as [m|].
  - pose proof (newAllocationsOf_spec modified (currentAllocations current n) (node_Allocations m) ∅) as H.
    destruct (newAllocationsOf _ _ _ _) as [r|e|]; [|naive_solver|done].
    intros a. destruct (H a) as [H1 H2]. split.
    + intros (m' & [= <-] & Ha & Hn). auto.
    + rewrite lookup_empty in H2. intros [x Hx]. destruct H2 as [H2|[? ?]]; [congruence|eauto].
  - intros a. split; [by intros (m & ? & _)|]. rewrite lookup_empty. by intros [? ?].
Qed.

(** ** The configuration of an update *)

(** What the configuration says of one node. *)
Record node_updated (old modified : EnsembleConfigV1) (existing : gmap string string) (n : string)
    (ncfg ncfg' : NodeConfig) : Prop := {
  nu_allocations : ∀ a, a ∈ node_Allocations ncfg' ↔ is_new old modified n a;
  nu_nodup : NoDup (node_Allocations ncfg');
  nu_peer : node_Peer ncfg' = default (node_Peer ncfg) (existing !! n);
  nu_ports : ∀ p, In p (node_Ports ncfg') ↔ In p (node_Ports ncfg) ∧ is_new old modified n (port_Allocation p);
  nu_location : node_Location ncfg' = node_Location ncfg
}.

Lemma MapKeysToSlice_elem {A} (m : gmap string A) k : k ∈ MapKeysToSlice m ↔ is_Some (m !! k).
Proof.
  unfold MapKeysToSlice. rewrite visit_perm, list_elem_of_fmap. split.
  - intros ([k' x] & -> & Hin%elem_of_map_to_list). simpl. by rewrite Hin.
  - intros [x Hx%elem_of_map_to_list]. by exists (k, x).
Qed.

Lemma MapKeysToSlice_NoDup {A} (m : gmap string A) : NoDup (MapKeysToSlice m).
Proof. unfold MapKeysToSlice. rewrite visit_perm. apply NoDup_fst_map_to_list. Qed.

Lemma updateNode_spec old modified existing n ncfg new exclude :
  identifyNewAllocations old modified n = Ok new →
  let r := updateNode existing n ncfg new exclude in
  node_updated old modified existing n ncfg r.1 ∧
  ∀ p, p ∈ r.2 ↔ p ∈ exclude ∨ (existing !! n = Some p ∧ ∀ a, ¬ is_new old modified n a).
Proof.
  intros Hid. pose proof (identifyNewAllocations_spec old modified n) as Hn. rewrite Hid in Hn.
  assert (Hk : ∀ a, a ∈ MapKeysToSlice new ↔ is_new old modified n a).
  { intros a. rewrite MapKeysToSlice_elem. split; [apply Hn|]. intros H. by apply Hn in H as [_ ?]. }
  unfold updateNode.
  destruct (existing !! n) as [peer|] eqn:Ex; simpl; (split; [split; simpl; auto using MapKeysToSlice_NoDup|]).
  - by rewrite Ex.
  - intros p. rewrite filter_In, contains_iff, Hk. done.
  - intros p. destruct (Nat.eqb_spec (size new) 0) as [He|He].
    + apply map_size_empty_inv in He. rewrite elem_of_app, list_elem_of_singleton.
      assert (∀ a, ¬ is_new old modified n a).
      { intros a [_ Ha]%Hn. rewrite He, lookup_empty in Ha. by destruct Ha. }
      naive_solver.
    + split; [auto|]. intros [?|[_ Hall]]; [done|]. exfalso. apply He. apply map_size_empty_iff, map_empty.
      intros a. destruct (new !! a) eqn:Ea; [|done]. exfalso. apply (Hall a), Hn. by rewrite Ea.
  - by rewrite Ex.
  - intros p. rewrite filter_In, contains_iff, Hk. done.
  - intros p. naive_solver.
Qed.

Lemma updateNodes_spec old modified existing l acc :
  NoDup (map fst l) →
  match updateNodes old modified existing l acc with
  | Ok (nodes, allocations, exclude) =>
      (∀ n ncfg, (n, ncfg) ∈ l → ∃ ncfg', nodes !! n = Some ncfg' ∧ node_updated old modified existing n ncfg ncfg') ∧
      (∀ n, n ∉ map fst l → nodes !! n = acc.1.1 !! n) ∧
      (∀ a, ((∃ n, n ∈ map fst l ∧ is_new old modified n a) →
             allocations !! a = cfg_Allocation modified a ∧ is_Some (allocations !! a)) ∧
            (allocations !! a = acc.1.2 !! a ∨ ∃ n, n ∈ map fst l ∧ is_new old modified n a)) ∧
      (∀ p, p ∈ exclude ↔ p ∈ acc.2 ∨ ∃ n, n ∈ map fst l ∧ existing !! n = Some p ∧ ∀ a, ¬ is_new old modified n a)
  | Err e => ∃ n a, e = ErrAllocationNotFound a ∧ n ∈ map fst l ∧ is_new old modified n a ∧ cfg_Allocation modified a = None
  | Panic => False
  end.
Proof.
  revert acc. induction l as [|[x xc] l IH]; intros [[ns als] ex]; simpl.
  { intros _. split_and!; [set_solver|done|set_solver|set_solver]. }
  intros [Hx Hnd]%NoDup_cons.
  pose proof (identifyNewAllocations_spec old modified x) as Hid.
  destruct (identifyNewAllocations old modified x) as [new|e|] eqn:Eid; [|set_solver..].
  pose proof (updateNode_spec old modified existing x xc new ex Eid) as [Hu He].
  destruct (updateNode existing x xc new ex) as [xc' ex']. simpl in Hu, He.
  specialize (IH (<[x := xc']> ns, new ∪ als, ex') Hnd).
  destruct (updateNodes _ _ _ _ _) as [[[nodes als'] ex'']|e|]; [|set_solver..].
  destruct IH as (H1 & H2 & H3 & H4). simpl in H2, H3, H4. split_and!.
  - intros n ncfg [[= -> ->]|Hin]%elem_of_cons; [|auto]. exists xc'. split; [|done].
    by rewrite H2, lookup_insert_eq by done.
  - intros n [Hne Hn]%not_elem_of_cons. by rewrite H2, lookup_insert_ne by done.
  - intros a. destruct (H3 a) as [Ha Hb]. split.
    + intros (n & [->|Hn]%elem_of_cons & Hnew); [|apply Ha; eauto].
      destruct Hb as [Hb|Hb]; [|by apply Ha]. destruct (Hid a) as [Hi _]. destruct (Hi Hnew) as [Heq [v Hv]].
      rewrite Hb, (lookup_union_Some_l _ _ _ _ Hv), <- Heq, Hv. eauto.
    + destruct Hb as [Hb|(n & Hn & Hnew)]; [|right; set_solver].
      rewrite Hb. destruct (new !! a) as [v|] eqn:Ev.
      * right. exists x. split; [by left|]. apply Hid. by rewrite Ev.
      * left. by rewrite lookup_union_r.
  - intros p. rewrite H4, He. set_solver.
Qed.

(** The configuration an update deploys: every node of the modified ensemble with
    exactly the allocations it did not have, on the peer it is on already, with the ports
    of those allocations; the allocations are exactly these, as the modified ensemble
    configures them; the peers that get nothing new are excluded, and no others than
    the ensemble's own.  It fails exactly when one of the new allocations has no
    configuration. *)
Theorem update_config_exact old modified existing :
  match newConfigForDeploymentUpdate old modified existing with
  | Ok cfg =>
      dom (cfg_Nodes cfg) = dom (Nodes modified) ∧
      (∀ n ncfg, Nodes modified !! n = Some ncfg →
         ∃ ncfg', cfg_Nodes cfg !! n = Some ncfg' ∧ node_updated old modified existing n ncfg ncfg') ∧
      (∀ a, is_Some (cfg_Allocations cfg !! a) ↔ ∃ n, n ∈ dom (Nodes modified) ∧ is_new old modified n a) ∧
      (∀ a c, cfg_Allocations cfg !! a = Some c → cfg_Allocation modified a = Some c) ∧
      (∀ p, p ∈ cfg_ExcludePeers cfg ↔ p ∈ cfg_ExcludePeers modified ∨
         ∃ n, n ∈ dom (Nodes modified) ∧ existing !! n = Some p ∧ ∀ a, ¬ is_new old modified n a)
  | Err e => ∃ n a, e = ErrAllocationNotFound a ∧ n ∈ dom (Nodes modified) ∧ is_new old modified n a ∧
                    cfg_Allocation modified a = None
  | Panic => False
  end.
Proof.
  unfold newConfigForDeploymentUpdate.
  assert (Hdom : ∀ n, n ∈ map fst (visit (map_to_list (Nodes modified))) ↔ n ∈ dom (Nodes modified)).
  { intros n. rewrite visit_perm, elem_of_dom, list_elem_of_fmap. split.
    - intros ([n' c] & -> & Hin%elem_of_map_to_list). simpl. by rewrite Hin.
    - intros [c Hc%elem_of_map_to_list]. by exists (n, c). }
  pose proof (updateNodes_spec old modified existing (visit (map_to_list (Nodes modified))) (∅, ∅, cfg_ExcludePeers modified)) as H.
  assert (Hin : ∀ kv, kv ∈ visit (map_to_list (Nodes modified)) ↔ kv ∈ map_to_list (Nodes modified))
    by (intros kv; by rewrite visit_perm).
  assert (Hnd : NoDup (map fst (visit (map_to_list (Nodes modified))))) by (rewrite visit_perm; apply NoDup_fst_map_to_list).
  specialize (H Hnd).
  destruct (updateNodes _ _ _ _ _) as [[[nodes als] ex]|e|]; [|by setoid_rewrite Hdom in H|done].
  simpl in *. setoid_rewrite Hdom in H. setoid_rewrite Hin in H. setoid_rewrite elem_of_map_to_list in H.
  destruct H as (H1 & H2 & H3 & H4). split_and!; auto.
  - apply set_eq. intros n. rewrite !elem_of_dom. split.
    + intros Hn. destruct (Nodes modified !! n) eqn:E; [eauto|]. rewrite H2, lookup_empty in Hn; [done|].
      by apply not_elem_of_dom.
    + intros [c Hc]. destruct (H1 n c Hc) as (c' & -> & _). eauto.
  - intros a. destruct (H3 a) as [Ha Hb]. split; [|intros ?; by apply Ha].
    intros [v Hv]. destruct Hb as [Hb|Hb]; [by rewrite Hb, lookup_empty in Hv|done].
  - intros a c Hc. destruct (H3 a) as [Ha Hb]. destruct Hb as [Hb|Hb]; [by rewrite Hb, lookup_empty in Hc|].
    apply Ha in Hb as [<- _]. done.
Qed.
(** ** Removed nodes *)

(** The configuration of what an update tears down holds exactly the nodes of the old
    ensemble that the modified one does not have, and those it wants on another peer;
    whatever the order in which nodes are visited.  It fails only when one of the
    allocations to remove has no configuration. *)
Theorem removed_nodes_exact old modified :
  match newConfigForRemovedNodes old modified with
  | Ok cfg => ∀ n c, cfg_Nodes cfg !! n = Some c ↔
      Nodes old !! n = Some c ∧ (∀ m, Node modified n = Some m → node_Peer m ≠ node_Peer c)
  | Err e => ∃ a, e = ErrAllocationNotFound a ∧ cfg_Allocation old a = None
  | Panic => False
  end.
Proof.
  unfold newConfigForRemovedNodes. simpl.
  assert (Hl : ∀ names acc, match lookupAllocations old names acc with
    | Ok _ => True | Err e => ∃ a, e = ErrAllocationNotFound a ∧ cfg_Allocation old a = None | Panic => False end).
  { induction names as [|a names IH]; intros acc; simpl; [done|].
    destruct (cfg_Allocation old a) eqn:E; [apply IH|eauto]. }
  set (names := flat_map _ _). specialize (Hl names ∅). destruct (lookupAllocations old names ∅); [|done..].
  intros n c. simpl. unfold identifyRelocatedNodes, identifyRemovedNodes, relocated.
  rewrite lookup_union_Some_raw, map_lookup_filter_None, !map_lookup_filter_Some. simpl. split.
  - intros [[Hn Hr]|[_ [Hn Hr]]]; (split; [done|]); intros m Hm; rewrite Hm in Hr; [|done].
    apply bool_decide_eq_true in Hr. congruence.
  - intros [Hn Hr]. destruct (Node modified n) as [m|] eqn:Em.
    + left. split; [done|]. apply bool_decide_eq_true. intros Heq. by apply (Hr m).
    + right. split; [|done]. right. intros c' Hc'. done.
Qed.

(** ** Accepted updates *)

Lemma validateNodes_None modified l n curr m :
  validateNodes modified l = None → (n, curr) ∈ l → Node modified n = Some m → node_Peer m = node_Peer curr →
  validateLocationConstraintsUpdate (node_Location curr) (node_Location m) = true ∧ validatePorts curr m = true.
Proof.
  induction l as [|[x xc] l IH]; simpl; intros Hv Hin Hm Hp; [by apply elem_of_nil in Hin|].
  apply elem_of_cons in Hin as [[= -> ->]|Hin].
  - rewrite Hm, bool_decide_false in Hv by naive_solver.
    destruct (validateLocationConstraintsUpdate _ _); [|done]. by destruct (validatePorts _ _).
  - apply IH; auto. destruct (Node modified x); [|done]. destruct (bool_decide _); [done|].
    destruct (negb _); [done|]. by destruct (negb _).
Qed.

Lemma validatePorts_true curr m p :
  validatePorts curr m = true → In p (node_Ports curr) →
  port_Allocation p ∈ node_Allocations curr → port_Allocation p ∈ node_Allocations m →
  ∃ q, In q (node_Ports m) ∧ port_Allocation q = port_Allocation p ∧ port_Public q = port_Public p ∧ port_Private q = port_Private p.
Proof.
  unfold validatePorts. rewrite forallb_forall. intros Hv Hp%Hv Hc Hm.
  destruct (contains (List.filter _ _) _) eqn:E.
  - apply contains_iff, list_elem_of_In, filter_In in E as [_ E]. by rewrite (proj2 (contains_iff _ _) Hc) in E.
  - rewrite (proj2 (contains_iff _ _) Hm) in Hp. simpl in Hp. apply existsb_exists in Hp as (q & Hq & Hs).
    exists q. unfold samePort in Hs. rewrite !andb_true_iff, bool_decide_eq_true, !Z.eqb_eq in Hs. naive_solver.
Qed.

Lemma validateEdges_None current moved edges e :
  validateEdges current moved edges = None → e ∈ edges →
  is_Some (Nodes current !! edge_S e) → is_Some (Nodes current !! edge_T e) →
  moved !! edge_S e = None → moved !! edge_T e = None →
  ∃ e', e' ∈ cfg_Edges current ∧ (edge_S e' = edge_S e ∧ edge_T e' = edge_T e ∨ edge_S e' = edge_T e ∧ edge_T e' = edge_S e).
Proof.
  induction edges as [|x edges IH]; simpl; intros Hv Hin Hs Ht Hms Hmt; [by apply elem_of_nil in Hin|].
  apply elem_of_cons in Hin as [<-|Hin].
  - rewrite !bool_decide_true in Hv by done. rewrite Hms, Hmt in Hv. simpl in Hv.
    destruct (existsb _ _) eqn:E; [|done]. apply existsb_exists in E as (e' & He' & Hse).
    exists e'. rewrite list_elem_of_In. split; [done|].
    unfold sameEdge in Hse. rewrite orb_true_iff, !andb_true_iff, !bool_decide_eq_true in Hse. done.
  - apply IH; auto. destruct (_ || _); [done|]. by destruct (existsb _ _).
Qed.

(** An update that is accepted keeps what was promised to the nodes that stay where they
    are: a location that was accepted still is, a port of an allocation that stays is
    still mapped the same way, no constraint appears between two of them that had
    none, and the supervisor keeps its strategy. *)
Theorem accepted_update_compatible current modified :
  validateEnsembleUpdate current modified = None →
  (∀ n curr m, Nodes current !! n = Some curr → Node modified n = Some m → node_Peer m = node_Peer curr →
     (∀ loc, Satisfies loc (node_Location curr) = true → Satisfies loc (node_Location m) = true) ∧
     (∀ p, In p (node_Ports curr) → port_Allocation p ∈ node_Allocations curr → port_Allocation p ∈ node_Allocations m →
        ∃ q, In q (node_Ports m) ∧ port_Allocation q = port_Allocation p ∧
             port_Public q = port_Public p ∧ port_Private q = port_Private p)) ∧
  (∀ e, e ∈ cfg_Edges modified →
     (∀ n, n = edge_S e ∨ n = edge_T e →
        ∃ c, Nodes current !! n = Some c ∧ ∀ m, Node modified n = Some m → node_Peer m = node_Peer c) →
     ∃ e', e' ∈ cfg_Edges current ∧
       (edge_S e' = edge_S e ∧ edge_T e' = edge_T e ∨ edge_S e' = edge_T e ∧ edge_T e' = edge_S e)) ∧
  sup_Strategy (cfg_Supervisor modified) = sup_Strategy (cfg_Supervisor current).
Proof.
  unfold validateEnsembleUpdate. destruct (_ && _); [done|].
  destruct (validateNodes _ _) eqn:Hn; [done|]. destruct (validateEdges _ _ _) eqn:He; [done|].
  case_bool_decide as Hs; [done|]. intros _. split_and!; [|intros e Hin Hnodes|by apply dec_stable in Hs || congruence].
  - intros n curr m Hc Hm Hp.
    destruct (validateNodes_None _ _ n curr m Hn) as [Hl Hports]; auto.
    { rewrite visit_perm. by apply elem_of_map_to_list. }
    split; [intros loc; by apply location_update_broadens|intros p; by apply validatePorts_true].
  - assert (Hstay : ∀ n, n = edge_S e ∨ n = edge_T e →
      is_Some (Nodes current !! n) ∧ identifyRelocatedNodes current modified !! n = None).
    { intros n Hor. destruct (Hnodes n Hor) as (c & Hc & Hm). split; [eauto|].
      apply map_lookup_filter_None. right. simpl. intros c' Hc'. simplify_eq. unfold relocated.
      destruct (Node modified n) as [m|]; [|done]. rewrite bool_decide_false; [done|]. rewrite (Hm m); auto. }
    destruct (Hstay (edge_S e)), (Hstay (edge_T e)); auto. by eapply validateEdges_None.
Qed.
End diff.

(** ** Samples *)

#[local] Instance diff_visit : MapVisit := {| visit A l := l; visit_perm A l := reflexivity l |}.

Definition old_node : NodeConfig :=
  mkNodeConfig ["web"] [mkEnsemblePort 8080 80 "web"]
    (mkLocationConstraints [mkLocation "Europe" "GR" "Athens" 0 ""] []) "p1" 0 "".
Definition new_node : NodeConfig :=
  mkNodeConfig ["web"; "db"] [mkEnsemblePort 8080 80 "web"; mkEnsemblePort 5432 5432 "db"]
    (mkLocationConstraints [mkLocation "Europe" "GR" "" 0 ""] []) "p1" 0 "".
Definition diff_config (nodes : list (string * NodeConfig)) (edges : list EdgeConstraint) : EnsembleConfigV1 :=
  mkConfig "" ∅ (list_to_map nodes) edges (mkSupervisor "OneForOne" [] []) [] false ∅ ∅ ∅ ∅.
Definition old_config := diff_config [("n1", old_node); ("n2", old_node)] [mkEdge "n1" "n2" 10 0].
Definition new_config := diff_config [("n1", new_node); ("n2", old_node)] [mkEdge "n2" "n1" 20 0].

Lemma accepted_update_compatible_witness :
  (∀ loc, Satisfies loc (node_Location old_node) = true → Satisfies loc (node_Location new_node) = true) ∧
  ∃ e', e' ∈ cfg_Edges old_config ∧
    (edge_S e' = "n2" ∧ edge_T e' = "n1" ∨ edge_S e' = "n1" ∧ edge_T e' = "n2").
Proof.
  assert (Hv : validateEnsembleUpdate old_config new_config = None) by (vm_compute; reflexivity).
  destruct (accepted_update_compatible old_config new_config Hv) as (H1 & H2 & _). split.
  - apply (H1 "n1" old_node new_node); vm_compute; reflexivity.
  - apply (H2 (mkEdge "n2" "n1" 20 0)); [vm_compute; left|].
    intros n [-> | ->]; simpl; [exists old_node|exists old_node]; (split; [vm_compute; reflexivity|]);
      intros m Hm; vm_compute in Hm; injection Hm as <-; reflexivity.
Defined.

(** New ports of an existing allocation and weaker or stronger bounds on an existing edge
    are accepted, though the documentation lists changed ports as unsupported. *)
Example port_added_to_existing_allocation :
  let with_port := mkNodeConfig ["web"] [mkEnsemblePort 8080 80 "web"; mkEnsemblePort 2222 22 "web"]
                     (node_Location old_node) "p1" 0 "" in
  validateEnsembleUpdate old_config (diff_config [("n1", with_port); ("n2", old_node)] []) = None.
Proof. vm_compute. reflexivity. Qed.
