(* ===== verification/DependencyOrder.v ===== *)
(** * The order in which allocations start (dms/orchestrator/utils.go)

    [orderByDependency] sorts the allocations of an ensemble by their dependencies into
    levels that are started one after the other; the allocations of one level start
    in parallel.  The maps are visited in any order. *)

From S2P Require Import Prelude ResourceManager.

Inductive order_error :=
| ErrMissingDependency (vertex dep : string)
| ErrCycle.

#[export] Instance order_error_eq_dec : EqDecision order_error.
Proof. solve_decision. Defined.

Section order.
  Context `{Visit : MapVisit}.

(** The vertices that depend on each vertex, and how many dependencies each has. *)
Record Graph := mkGraph {
  dependentMap : gmap string (list string);
  inDegree : gmap string Z
}.

Fixpoint addDeps (vertices : gmap string (list string)) (vertexName : string) (deps : list string)
    (dependents : gmap string (list string)) : outcome order_error (gmap string (list string)) :=
  match deps with
  | [] => Ok dependents
  | dep :: deps =>
      match vertices !! dep with
      | None => Err (ErrMissingDependency vertexName dep)
      | Some _ => addDeps vertices vertexName deps
                    (<[dep := default [] (dependents !! dep) ++ [vertexName]]> dependents)
      end
  end.

Fixpoint buildGraph (vertices : gmap string (list string)) (l : list (string * list string)) (g : Graph)
    : outcome order_error Graph :=
  match l with
  | [] => Ok g
  | (vertexName, vertex) :: l =>
      match addDeps vertices vertexName vertex (dependentMap g) with
      | Err e => Err e
      | Panic => Panic
      | Ok dependents =>
          buildGraph vertices l (mkGraph dependents (<[vertexName := Z.of_nat (length vertex)]> (inDegree g)))
      end
  end.

(** A dependency of [dependent] is done; it joins the queue when that was the last one. *)
Definition release (st : gmap string Z * list string) (dependent : string) : gmap string Z * list string :=
  let '(degree, queue) := st in
  let d := (default 0 (degree !! dependent) - 1)%Z in
  (<[dependent := d]> degree, if (d =? 0)%Z then queue ++ [dependent] else queue).

Definition processService (dependents : gmap string (list string)) (st : gmap string Z * list string)
    (service : string) : gmap string Z * list string :=
  fold_left release (default [] (dependents !! service)) st.

(** The levels, at most [fuel] of them; [None] when that is not enough. *)
Fixpoint levels (fuel : nat) (dependents : gmap string (list string)) (degree : gmap string Z)
    (queue : list string) : option (list (list string)) :=
  match queue with
  | [] => Some []
  | _ =>
      match fuel with
      | O => None
      | S fuel =>
          let '(degree, next) := fold_left (processService dependents) queue (degree, []) in
          cons queue <$> levels fuel dependents degree next
      end
  end.

(** The loop makes at most one round per vertex and one more. *)
Definition orderByDependency (vertices : gmap string (list string)) : outcome order_error (list (list string)) :=
  match buildGraph vertices (visit (map_to_list vertices)) (mkGraph ∅ ∅) with
  | Err e => Err e
  | Panic => Panic
  | Ok g =>
      let queue := map fst (List.filter (λ kv, (kv.2 =? 0)%Z) (visit (map_to_list (inDegree g)))) in
      match levels (S (size vertices)) (dependentMap g) (inDegree g) queue with
      | None => Panic
      | Some result =>
          if (length (concat result) =? size vertices)%nat then Ok result else Err ErrCycle
      end
  end.

(** ** The graph *)

Definition deps (vertices : gmap string (list string)) (v : string) : list string := default [] (vertices !! v).
Definition dependentsOf (m : gmap string (list string)) (s : string) : list string := default [] (m !! s).

Notation count := (count_occ String.string_dec).

Lemma count_app x (l l' : list string) : count (l ++ l') x = (count l x + count l' x)%nat.
Proof. apply count_occ_app. Qed.

Lemma count_pos x (l : list string) : x ∈ l ↔ (0 < count l x)%nat.
Proof. rewrite list_elem_of_In. apply count_occ_In. Qed.

Lemma addDeps_spec vertices v ds m :
  match addDeps vertices v ds m with
  | Ok m' => (∀ d, d ∈ ds → is_Some (vertices !! d)) ∧
             ∀ s x, count (dependentsOf m' s) x = (count (dependentsOf m s) x + if decide (x = v) then count ds s else 0)%nat
  | Err e => ∃ d, e = ErrMissingDependency v d ∧ d ∈ ds ∧ vertices !! d = None
  | Panic => False
  end.
Proof.
  revert m. induction ds as [|d ds IH]; intros m; simpl.
  { split; [set_solver|]. intros s x. destruct (decide _); lia. }
  destruct (vertices !! d) eqn:Ed; [|by exists d; set_solver].
  set (m1 := <[d := _]> m). specialize (IH m1).
  destruct (addDeps vertices v ds m1) as [m'|e|]; [|destruct IH as (d' & ? & ? & ?); exists d'; set_solver|done].
  destruct IH as [H1 H2]. split; [intros d' [->|?]%elem_of_cons; [by rewrite Ed|auto]|].
  intros s x. rewrite H2. unfold m1, dependentsOf. destruct (String.string_dec d s) as [<-|Hne].
  - rewrite lookup_insert_eq. simpl. rewrite count_app. simpl.
    destruct (String.string_dec v x), (decide (x = v)); subst; try done; lia.
  - rewrite lookup_insert_ne by done. done.
Qed.

(** What the built graph says of the vertices seen. *)
Lemma buildGraph_spec vertices l g :
  NoDup (map fst l) → (∀ v ds, (v, ds) ∈ l → vertices !! v = Some ds) →
  match buildGraph vertices l g with
  | Ok g' =>
      (∀ v d, v ∈ map fst l → d ∈ deps vertices v → is_Some (vertices !! d)) ∧
      (∀ s x, count (dependentsOf (dependentMap g') s) x =
              count (dependentsOf (dependentMap g) s) x + if decide (x ∈ map fst l) then count (deps vertices x) s else 0)%nat ∧
      (∀ v, inDegree g' !! v = if decide (v ∈ map fst l) then Some (Z.of_nat (length (deps vertices v))) else inDegree g !! v)
  | Err e => ∃ v d, e = ErrMissingDependency v d ∧ d ∈ deps vertices v ∧ vertices !! d = None
  | Panic => False
  end.
Proof.
  revert g. induction l as [|[v ds] l IH]; intros g Hnd Hl; cbn [buildGraph map fst].
  { split_and!; [set_solver|intros; rewrite decide_False by set_solver; lia|intros; by rewrite decide_False by set_solver]. }
  cbn [map fst] in Hnd.
  apply NoDup_cons in Hnd as [Hv Hnd].
  assert (Hds : deps vertices v = ds) by (unfold deps; by rewrite (Hl v ds) by set_solver).
  pose proof (addDeps_spec vertices v ds (dependentMap g)) as Ha.
  destruct (addDeps _ _ _ _) as [m|e|]; [|destruct Ha as (d & ? & ? & ?); exists v, d; by rewrite Hds|done].
  destruct Ha as [Ha1 Ha2]. set (g1 := mkGraph _ _). specialize (IH g1 Hnd ltac:(set_solver)).
  destruct (buildGraph vertices l g1) as [g'|e|]; [|done|done].
  destruct IH as (H1 & H2 & H3). split_and!.
  - intros x d [->|Hx]%elem_of_cons; [rewrite Hds; apply Ha1|by apply H1].
  - intros s x. rewrite H2. unfold g1. simpl. rewrite Ha2. destruct (decide (x = v)) as [->|Hne].
    + rewrite decide_False by done. rewrite decide_True by (by left). rewrite Hds. lia.
    + destruct (decide (x ∈ map fst l)); [rewrite decide_True by (by right)|rewrite decide_False by set_solver]; lia.
  - intros x. rewrite H3. unfold g1. simpl. destruct (decide (x ∈ map fst l)) as [Hx|Hx].
    + by rewrite decide_True by (by right).
    + destruct (decide (x = v)) as [->|Hne].
      * rewrite lookup_insert_eq, decide_True by (by left). by rewrite Hds.
      * rewrite lookup_insert_ne, decide_False by set_solver. done.
Qed.

(** ** Releasing vertices *)

Definition deg (d : gmap string Z) (v : string) : Z := default 0%Z (d !! v).

Lemma deg_insert d x z v : deg (<[x := z]> d) v = if decide (v = x) then z else deg d v.
Proof.
  unfold deg. destruct (decide (v = x)) as [->|]; [by rewrite lookup_insert_eq|by rewrite lookup_insert_ne].
Qed.

Lemma release_all L d q d' q' :
  fold_left release L (d, q) = (d', q') →
  (∀ v, v ∈ L → (Z.of_nat (count L v) ≤ deg d v)%Z) →
  (∀ v, deg d' v = deg d v - Z.of_nat (count L v))%Z ∧
  ∃ new, q' = q ++ new ∧ NoDup new ∧ ∀ v, v ∈ new ↔ v ∈ L ∧ deg d v = Z.of_nat (count L v).
Proof.
  revert d q. induction L as [|x L IH]; intros d q Hf Hle.
  { simpl in Hf. injection Hf as <- <-. split; [simpl; intros; lia|]. exists []. rewrite app_nil_r.
    split; [done|]. split; [constructor|set_solver]. }
  simpl in Hf. fold (deg d x) in Hf. pose proof (Hle x ltac:(by left)) as Hx. simpl in Hx.
  destruct (String.string_dec x x) as [_|]; [|done].
  apply IH in Hf as [Hd (new & -> & Hnd & Hnew)].
  2: { intros v Hv. rewrite deg_insert. specialize (Hle v ltac:(by right)). simpl in Hle.
       destruct (String.string_dec x v), (decide (v = x)); subst; try done; lia. }
  split.
  { intros v. rewrite Hd, deg_insert. simpl. destruct (String.string_dec x v), (decide (v = x)); subst; try done; lia. }
  assert (Hmem : ∀ v, v ∈ new ↔ v ∈ L ∧ (if decide (v = x) then (deg d x - 1)%Z else deg d v) = Z.of_nat (count L v))
    by (intros v; rewrite Hnew, deg_insert; done).
  clear Hnew Hd. destruct (Z.eqb_spec (deg d x - 1) 0) as [Hz|Hz].
  - exists (x :: new). rewrite <- app_assoc. split; [done|].
    assert (x ∉ L) as HxL by (rewrite count_pos; lia). split; [constructor; [rewrite Hmem; naive_solver|done]|].
    intros v. rewrite !elem_of_cons, Hmem. simpl.
    destruct (decide (v = x)) as [->|Hne]; destruct (String.string_dec x x); try done.
    + assert (count L x = 0%nat) by (rewrite count_pos in HxL; lia). split; intros; [split; [by left|lia]|by left].
    + destruct (String.string_dec x v); [congruence|]. naive_solver.
  - exists new. split; [done|]. split; [done|]. intros v. rewrite Hmem, elem_of_cons. simpl.
    destruct (decide (v = x)) as [->|Hne]; destruct (String.string_dec x x); try done.
    + split; [intros [? ?]; split; [by left|lia]|]. intros [_ Heq]. split; [rewrite count_pos; lia|lia].
    + destruct (String.string_dec x v); [congruence|]. naive_solver.
Qed.

(** ** The search *)

Section search.
  Context (V : gmap string (list string)) (dm : gmap string (list string)).
  Context (Hdm : ∀ s x, count (dependentsOf dm s) x = count (deps V x) s).
  Context (Hknown : ∀ v d, d ∈ deps V v → is_Some (V !! d)).

Definition pending (P : list string) (v : string) : list string := filter (λ x, x ∉ P) (deps V v).

(** [P] are the vertices done, [Q] those in the queue. *)
Record Search (P Q : list string) (d : gmap string Z) : Prop := {
  se_nodup : NoDup (P ++ Q);
  se_known : ∀ v, v ∈ P ++ Q → is_Some (V !! v);
  se_degree : ∀ v, deg d v = Z.of_nat (length (pending P v));
  se_ready : ∀ v, is_Some (V !! v) → deg d v = 0%Z ↔ v ∈ P ++ Q
}.

Lemma pending_step (P : list string) s l :
  s ∉ P → length (filter (λ x, x ∉ P) l) = (length (filter (λ x, x ∉ P ++ [s]) l) + count l s)%nat.
Proof.
  intros Hs. induction l as [|x l IH]; [done|]. rewrite !filter_cons. simpl.
  destruct (String.string_dec x s) as [->|Hne].
  - rewrite decide_True by done. rewrite decide_False by set_solver. simpl. lia.
  - destruct (decide (x ∉ P)); [rewrite decide_True by set_solver|rewrite decide_False by set_solver]; simpl; lia.
Qed.

Lemma count_pending (P : list string) s l :
  s ∉ P → (count l s ≤ length (filter (λ x, x ∉ P) l))%nat.
Proof. intros Hs. rewrite (pending_step P s l Hs). lia. Qed.

Lemma process_inv P s Q d d' Q' :
  Search P (s :: Q) d → processService dm (d, Q) s = (d', Q') → Search (P ++ [s]) Q' d'.
Proof using Hdm Hknown.
  intros [Hnd Hk Hd Hr] Hp. unfold processService in Hp. fold (dependentsOf dm s) in Hp.
  assert (HsP : s ∉ P) by (apply NoDup_app in Hnd as (_ & H & _); intros Hin; by apply (H s Hin); left).
  apply release_all in Hp as [Hd' (new & -> & Hnew & Hmem)].
  2: { intros v _. rewrite Hdm, Hd. pose proof (count_pending P s (deps V v) HsP). unfold pending. lia. }
  assert (Hdeg : ∀ v, deg d' v = Z.of_nat (length (pending (P ++ [s]) v))).
  { intros v. rewrite Hd', Hdm, Hd. unfold pending. rewrite (pending_step P s _ HsP). lia. }
  assert (Hin : ∀ v, v ∈ new ↔ s ∈ deps V v ∧ deg d v ≠ 0%Z ∧ deg d' v = 0%Z).
  { intros v. rewrite Hmem, count_pos, Hd', Hdm, (count_pos s). lia. }
  assert (Hvs : ∀ v, v ∈ new → is_Some (V !! v)).
  { intros v [Hs _]%Hin. unfold deps in Hs. destruct (V !! v); [eauto|by apply elem_of_nil in Hs]. }
  split; auto.
  - rewrite app_assoc. rewrite <- (app_assoc P [s] Q). apply NoDup_app. split; [done|]. split; [|done].
    intros v Hv [_ [Hne _]]%Hin. apply Hne. apply Hr; [by apply Hk|done].
  - intros v. rewrite app_assoc, <- (app_assoc P [s] Q), elem_of_app. intros [Hv|Hv]; [by apply Hk|by apply Hvs].
  - intros v Hv. rewrite app_assoc, <- (app_assoc P [s] Q), elem_of_app, <- (Hr v Hv), Hin.
    rewrite Hd', Hdm. split; [|intros [H0|(_ & _ & ?)]; [|lia]].
    + intros H. destruct (decide (deg d v = 0)%Z); [by left|]. right. rewrite (count_pos s). lia.
    + rewrite Hd in *. pose proof (count_pending P s (deps V v) HsP). unfold pending in *. lia.
Qed.

Lemma level_inv L P next d d' next' :
  Search P (L ++ next) d → fold_left (processService dm) L (d, next) = (d', next') → Search (P ++ L) next' d'.
Proof using Hdm Hknown.
  revert P next d. induction L as [|s L IH]; intros P next d HS Hf.
  { simpl in *. injection Hf as <- <-. by rewrite app_nil_r. }
  cbn [fold_left] in Hf. destruct (processService dm (d, next) s) as [d1 next1] eqn:Ep.
  assert (Hq : ∀ q, processService dm (d, q ++ next) s = (d1, q ++ next1)).
  { intros q. unfold processService in *. revert Ep. generalize (default [] (dm !! s)). intros l. clear.
    revert d next. induction l as [|x l IHl]; intros d next; simpl; [by intros [= <- <-]|].
    intros H. destruct (_ =? 0)%Z; [rewrite <- app_assoc|]; by apply IHl. }
  change (s :: L) with ([s] ++ L). rewrite app_assoc. eapply IH; [|exact Hf].
  eapply process_inv; [exact HS|]. apply Hq.
Qed.

Lemma search_size P Q d : Search P Q d → (length (P ++ Q) ≤ size V)%nat.
Proof.
  intros HS. rewrite <- size_dom. rewrite <- (size_list_to_set (C := gset string)) by apply HS.
  apply subseteq_size. intros v. rewrite elem_of_list_to_set, elem_of_dom. apply HS.
Qed.

Lemma levels_spec fuel P Q d :
  Search P Q d → (size V < fuel + length P)%nat →
  ∃ ls d', levels fuel dm d Q = Some ls ∧ Search (P ++ concat ls) [] d' ∧
    ∀ i lv v dep, ls !! i = Some lv → v ∈ lv → dep ∈ deps V v →
      dep ∈ P ∨ ∃ j lj, (j < i)%nat ∧ ls !! j = Some lj ∧ dep ∈ lj.
Proof using Hdm Hknown.
  revert P Q d. induction fuel as [|fuel IH]; intros P Q d HS Hfuel.
  { pose proof (search_size _ _ _ HS) as Hs. rewrite length_app in Hs. destruct Q; simpl in *; [|lia].
    exists [], d. split; [done|]. simpl. rewrite app_nil_r. split; [done|].
    intros i lv v dep Hi. by rewrite lookup_nil in Hi. }
  destruct Q as [|q Q].
  { exists [], d. split; [done|]. simpl. rewrite app_nil_r. split; [done|].
    intros i lv v dep Hi. by rewrite lookup_nil in Hi. }
  cbn [levels]. destruct (fold_left (processService dm) (q :: Q) (d, [])) as [d1 next] eqn:Ef.
  pose proof (level_inv (q :: Q) P [] d d1 next) as Hl. rewrite app_nil_r in Hl. specialize (Hl HS Ef).
  destruct (IH (P ++ q :: Q) next d1 Hl) as (ls & d' & Hlev & HS' & Hord).
  { rewrite length_app. simpl. lia. }
  exists ((q :: Q) :: ls), d'. rewrite Hlev. split; [done|]. cbn [concat]. rewrite app_assoc. split; [done|].
  intros [|i] lv v dep Hi Hv Hdep; simpl in Hi.
  - left. injection Hi as <-. assert (Hz : deg d v = 0%Z).
    { apply HS; [apply HS|]; apply elem_of_app; by right. }
    rewrite (se_degree _ _ _ HS) in Hz. unfold pending in Hz.
    destruct (decide (dep ∈ P)) as [|Hn]; [done|]. exfalso.
    assert (dep ∈ filter (λ x, x ∉ P) (deps V v)) as Hin by (apply list_elem_of_filter; done).
    destruct (filter _ _); [by apply elem_of_nil in Hin|simpl in Hz; lia].
  - destruct (Hord i lv v dep Hi Hv Hdep) as [[HP|HQ]%elem_of_app|(j & lj & ? & ? & ?)].
    + by left.
    + right. exists O, (q :: Q). split; [lia|done].
    + right. exists (S j), lj. split; [lia|done].
Qed.
End search.

(** ** The result *)

Lemma visited_iff (vertices : gmap string (list string)) v :
  v ∈ map fst (visit (map_to_list vertices)) ↔ is_Some (vertices !! v).
Proof.
  rewrite list_elem_of_fmap. split.
  - intros ([v' ds] & -> & H). rewrite visit_perm, elem_of_map_to_list in H. eauto.
  - intros [ds H]. exists (v, ds). by rewrite visit_perm, elem_of_map_to_list.
Qed.

Lemma visited_NoDup {A} (m : gmap string A) : NoDup (map fst (visit (map_to_list m))).
Proof. rewrite visit_perm. apply NoDup_fst_map_to_list. Qed.

Lemma deps_known (vertices : gmap string (list string)) v d : d ∈ deps vertices v → is_Some (vertices !! v).
Proof. unfold deps. destruct (vertices !! v); [eauto|by intros ?%elem_of_nil]. Qed.

(** The graph that is built, and the queue the search starts with. *)
Definition startQueue (degree : gmap string Z) : list string :=
  map fst (List.filter (λ kv, (kv.2 =? 0)%Z) (visit (map_to_list degree))).

Lemma graph_start vertices g :
  buildGraph vertices (visit (map_to_list vertices)) (mkGraph ∅ ∅) = Ok g →
  (∀ s x, count (dependentsOf (dependentMap g) s) x = count (deps vertices x) s) ∧
  (∀ v d, d ∈ deps vertices v → is_Some (vertices !! d)) ∧
  (∀ v, inDegree g !! v = (λ ds, Z.of_nat (length ds)) <$> vertices !! v).
Proof.
  intros Hb.
  pose proof (buildGraph_spec vertices _ (mkGraph ∅ ∅) (visited_NoDup vertices)) as Hg. rewrite Hb in Hg.
  destruct Hg as (H1 & H2 & H3).
  { intros v ds. by rewrite visit_perm, elem_of_map_to_list. }
  split_and!.
  - intros s x. rewrite H2. unfold dependentsOf. simpl. rewrite lookup_empty. simpl.
    destruct (decide _) as [_|Hn]; [done|]. rewrite visited_iff in Hn. unfold deps.
    destruct (vertices !! x); [by destruct Hn; eauto|done].
  - intros v d Hd. apply (H1 v); [|done]. by eapply visited_iff, deps_known.
  - intros v. rewrite H3. simpl. rewrite lookup_empty. unfold deps.
    destruct (decide _) as [[ds Hv]%visited_iff|Hn]; [by rewrite Hv|]. rewrite visited_iff in Hn.
    destruct (vertices !! v); [by destruct Hn; eauto|done].
Qed.

Lemma startQueue_iff degree v : v ∈ startQueue degree ↔ degree !! v = Some 0%Z.
Proof.
  unfold startQueue. rewrite list_elem_of_fmap. split.
  - intros ([v' z] & -> & Hv). rewrite list_elem_of_In, filter_In, Z.eqb_eq, <- list_elem_of_In in Hv.
    destruct Hv as [Hv Hz]. rewrite visit_perm, elem_of_map_to_list in Hv. simpl in *. by subst z.
  - intros Hv. exists (v, 0%Z). split; [done|].
    by rewrite list_elem_of_In, filter_In, Z.eqb_eq, <- list_elem_of_In, visit_perm, elem_of_map_to_list.
Qed.

Lemma startQueue_NoDup degree : NoDup (startQueue degree).
Proof.
  apply (submseteq_NoDup _ (map fst (visit (map_to_list degree)))); [|apply visited_NoDup].
  apply fmap_submseteq. induction (visit _) as [|x l IH]; simpl; [done|].
  destruct (_ =? _)%Z; [by apply submseteq_skip|by apply submseteq_cons].
Qed.

Lemma search_start vertices degree :
  (∀ v, degree !! v = (λ ds, Z.of_nat (length ds)) <$> vertices !! v) →
  Search vertices [] (startQueue degree) degree.
Proof.
  intros Hd.
  assert (Hdeg : ∀ v, deg degree v = Z.of_nat (length (deps vertices v))).
  { intros v. unfold deg, deps. rewrite Hd. by destruct (vertices !! v). }
  split; simpl.
  - apply startQueue_NoDup.
  - intros v Hv%startQueue_iff. rewrite Hd in Hv. destruct (vertices !! v); [eauto|done].
  - intros v. rewrite Hdeg. unfold pending. f_equal. clear.
    induction (deps vertices v) as [|x l IH]; [done|]. rewrite filter_cons, decide_True by set_solver. simpl. by f_equal.
  - intros v [ds Hv]. rewrite startQueue_iff, Hd, Hdeg, Hv. unfold deps. rewrite Hv. simpl.
    split; [by intros -> |by intros [= ->]].
Qed.

(** What is left when the queue is empty and not all are done. *)
Lemma search_stuck vertices P d :
  (∀ v d, d ∈ deps vertices v → is_Some (vertices !! d)) →
  Search vertices P [] d → length P ≠ size vertices →
  ∃ S : gset string, S ≠ ∅ ∧ S ⊆ dom vertices ∧ ∀ v, v ∈ S → ∃ d, d ∈ deps vertices v ∧ d ∈ S.
Proof.
  intros Hknown HS Hlen. pose proof (se_nodup _ _ _ _ HS) as Hnd. rewrite app_nil_r in Hnd.
  exists (dom vertices ∖ list_to_set P). split; [|split; [set_solver|]].
  - intros He. apply Hlen. rewrite <- size_dom, <- (size_list_to_set (C := gset string)) by done. f_equal.
    apply (anti_symm (⊆)); [|set_solver]. intros v. rewrite elem_of_list_to_set, elem_of_dom. intros Hv.
    apply (se_known _ _ _ _ HS). by rewrite app_nil_r.
  - intros v [Hv Hn]%elem_of_difference. rewrite elem_of_list_to_set in Hn. rewrite elem_of_dom in Hv.
    destruct (pending vertices P v) as [|x rest] eqn:Ep.
    + exfalso. apply Hn. rewrite <- (app_nil_r P). apply (se_ready _ _ _ _ HS); [done|].
      by rewrite (se_degree _ _ _ _ HS), Ep.
    + assert (x ∈ pending vertices P v) as Hx by (rewrite Ep; by left).
      apply list_elem_of_filter in Hx as [Hx1 Hx2]. exists x. split; [done|].
      rewrite elem_of_difference, elem_of_list_to_set, elem_of_dom. split; [by eapply Hknown|done].
Qed.

(** What the sort returns: levels, a dependency that is missing, or a cycle. *)
Definition answer (vertices : gmap string (list string)) (o : outcome order_error (list (list string))) : Prop :=
  match o with
  | Ok ls =>
      concat ls ≡ₚ map fst (map_to_list vertices) ∧
      ∀ i level v dep, ls !! i = Some level → v ∈ level → dep ∈ deps vertices v →
        ∃ j earlier, (j < i)%nat ∧ ls !! j = Some earlier ∧ dep ∈ earlier
  | Err (ErrMissingDependency v d) => d ∈ deps vertices v ∧ vertices !! d = None
  | Err ErrCycle =>
      ∃ S : gset string, S ≠ ∅ ∧ S ⊆ dom vertices ∧ ∀ v, v ∈ S → ∃ d, d ∈ deps vertices v ∧ d ∈ S
  | Panic => False
  end.

Lemma orderByDependency_answer vertices : answer vertices (orderByDependency vertices).
Proof.
  unfold orderByDependency, answer.
  assert (Hin : ∀ v ds, (v, ds) ∈ visit (map_to_list vertices) → vertices !! v = Some ds)
    by (intros v ds; by rewrite visit_perm, elem_of_map_to_list).
  pose proof (buildGraph_spec vertices _ (mkGraph ∅ ∅) (visited_NoDup vertices) Hin) as Hb.
  destruct (buildGraph _ _ _) as [g|e|] eqn:Eb; [|by destruct Hb as (v & d & -> & ? & ?)|done].
  clear Hb Hin. apply graph_start in Eb as (Hdm & Hknown & Hd). fold (startQueue (inDegree g)).
  destruct (levels_spec vertices _ Hdm Hknown (S (size vertices)) [] _ _ (search_start _ _ Hd)) as (ls & d' & -> & HS & Hord);
    [simpl; lia|]. simpl in HS.
  pose proof (se_nodup _ _ _ _ HS) as Hnodup. rewrite app_nil_r in Hnodup.
  destruct (Nat.eqb_spec (length (concat ls)) (size vertices)) as [Hlen|Hlen]; [|by eapply search_stuck].
  split.
  - apply submseteq_length_Permutation; [|rewrite length_fmap, length_map_to_list; lia].
    apply NoDup_submseteq; [done|]. intros v Hv. rewrite <- (visit_perm (map_to_list vertices)). apply visited_iff.
    apply (se_known _ _ _ _ HS). by rewrite app_nil_r.
  - intros i lv v dep Hi Hv Hdep. by destruct (Hord i lv v dep Hi Hv Hdep) as [?%elem_of_nil|?].
Qed.

(** C28: what the sort returns for every graph, whatever the order of the maps: levels that
    hold every allocation once, with every dependency of an allocation in an earlier
    level; or an allocation that depends on one that does not exist; or a cycle, that is
    allocations each of which depends on one of them.  The loop always ends. *)
Theorem orderByDependency_correct vertices :
  match orderByDependency vertices with
  | Ok ls =>
      concat ls ≡ₚ map fst (map_to_list vertices) ∧
      ∀ i level v dep, ls !! i = Some level → v ∈ level → dep ∈ deps vertices v →
        ∃ j earlier, (j < i)%nat ∧ ls !! j = Some earlier ∧ dep ∈ earlier
  | Err (ErrMissingDependency v d) => d ∈ deps vertices v ∧ vertices !! d = None
  | Err ErrCycle =>
      ∃ S : gset string, S ≠ ∅ ∧ S ⊆ dom vertices ∧ ∀ v, v ∈ S → ∃ d, d ∈ deps vertices v ∧ d ∈ S
  | Panic => False
  end.
Proof. exact (orderByDependency_answer vertices). Qed.
End order.

Example order_example :
  let _ : MapVisit := {| visit A l := l; visit_perm A l := reflexivity l |} in
  orderByDependency (list_to_map [("web", ["db"; "cache"]); ("cache", ["db"]); ("db", [])]) = Ok [["db"]; ["cache"]; ["web"]].
Proof. vm_compute. reflexivity. Qed.
