(* ===== verification/IPNet.v ===== *)
(** * Addresses of a subnet (network/utils/utils.go)

    IPv4 addresses as four bytes, networks as package net has them, and the choice of
    the next free address and of a network for a deployment.  Addresses of version 6 are
    outside: networks are made by [GetRandomCIDRInRange], which gives version 4. *)

From S2P Require Import Prelude GoStrings GoNumbers AllocationID.

(** ** Package net *)

Record IP := mkIP { ip0 : Z; ip1 : Z; ip2 : Z; ip3 : Z }.

#[export] Instance IP_eq_dec : EqDecision IP.
Proof. solve_decision. Defined.

Definition IP_String (ip : IP) : string :=
  Join [Itoa (ip0 ip); Itoa (ip1 ip); Itoa (ip2 ip); Itoa (ip3 ip)] ".".

(** A decimal byte without a superfluous zero: the number is written as it is printed. *)
Definition parseByte (s : string) : option Z :=
  match Atoi s with
  | Some z => if (0 <=? z)%Z && (z <=? 255)%Z && bool_decide (Itoa z = s) then Some z else None
  | None => None
  end.

(** [net.ParseIP] on the dotted form of IPv4, which all addresses of a deployment have (its
    networks are taken from 10.0.0.0/8).  IPv6 and the mapped forms of IPv4, which the library
    also reads, are refused here. *)
Definition ParseIP (s : string) : option IP :=
  match map parseByte (Split s ".") with
  | [Some a; Some b; Some c; Some d] => Some (mkIP a b c d)
  | _ => None
  end.

Record IPNet := mkIPNet { net_IP : IP; net_Ones : Z }.

(** The bits of byte [i] that a mask of [ones] bits keeps. *)
Definition maskByte (ones i : Z) : Z :=
  let k := Z.min 8 (Z.max 0 (ones - 8 * i)) in Z.land 255 (Z.shiftl 255 (8 - k)).

Definition IP_Mask (ip : IP) (ones : Z) : IP :=
  mkIP (Z.land (ip0 ip) (maskByte ones 0)) (Z.land (ip1 ip) (maskByte ones 1))
       (Z.land (ip2 ip) (maskByte ones 2)) (Z.land (ip3 ip) (maskByte ones 3)).

Definition Contains_ip (n : IPNet) (ip : IP) : bool :=
  bool_decide (IP_Mask ip (net_Ones n) = IP_Mask (net_IP n) (net_Ones n)).

(** An address, a slash and the number of bits; the network has the other bits clear. *)
Definition ParseCIDR (s : string) : option IPNet :=
  match Split s "/" with
  | [addr; bits] =>
      match ParseIP addr, Atoi bits with
      | Some ip, Some ones =>
          if (0 <=? ones)%Z && (ones <=? 32)%Z && bool_decide (Itoa ones = bits)
          then Some (mkIPNet (IP_Mask ip ones) ones) else None
      | _, _ => None
      end
  | _ => None
  end.

Definition IPNet_String (n : IPNet) : string := IP_String (net_IP n) +:+ ("/" +:+ Itoa (net_Ones n)).

(** ** The next address *)

Inductive ip_error := ErrInvalidCIDR | ErrNoAvailableIPs | ErrNoCIDR.

(** A byte counts modulo 256. *)
Definition incByte (z : Z) : Z := ((z + 1) mod 256)%Z.

(** The tests come one after the other, each on what the ones before it left; [ip] and
    [ip4] are the same four bytes. *)
Definition nextIP (ip : IP) (netmask : Z) : option IP :=
  let ip := if (netmask =? 0)%Z && (ip1 ip =? 255)%Z && (ip2 ip =? 255)%Z && (ip3 ip =? 254)%Z
            then if (ip0 ip =? 255)%Z then None else Some (mkIP (incByte (ip0 ip)) 0 0 0)
            else Some ip in
  let ip := match ip with
            | Some ip =>
                if (netmask =? 8)%Z && (ip2 ip =? 255)%Z && (ip3 ip =? 254)%Z
                then if (ip1 ip =? 255)%Z then None else Some (mkIP (ip0 ip) (incByte (ip1 ip)) 0 0)
                else Some ip
            | None => None
            end in
  let ip := match ip with
            | Some ip => if (netmask =? 16)%Z && (ip2 ip =? 255)%Z && (ip3 ip =? 254)%Z then None else Some ip
            | None => None
            end in
  let ip := match ip with
            | Some ip =>
                if ((netmask =? 16)%Z || (netmask =? 8)%Z) && (ip2 ip <? 255)%Z && (ip3 ip =? 254)%Z
                then Some (mkIP (ip0 ip) (ip1 ip) (incByte (ip2 ip)) 0) else Some ip
            | None => None
            end in
  match ip with
  | Some ip =>
      if (netmask =? 24)%Z && (ip3 ip =? 254)%Z then None
      else Some (mkIP (ip0 ip) (ip1 ip) (ip2 ip) (incByte (ip3 ip)))
  | None => None
  end.

(** The loop of [GetNextIP]; [None] when [fuel] rounds do not end it. *)
Fixpoint findIP (fuel : nat) (n : IPNet) (mask : Z) (used : gset string) (ip : IP) : option (option IP) :=
  match fuel with
  | O => None
  | S fuel =>
      if negb (Contains_ip n ip) then Some None
      else if negb (bool_decide (IP_String ip ∈ used)) then Some (Some ip)
      else match nextIP ip mask with
      | None => Some None
      | Some ip => findIP fuel n mask used ip
      end
  end.

(** Panic stands for a loop that does not end within [fuel] rounds. *)
Definition GetNextIP (fuel : nat) (cidr : string) (used : gset string) : outcome ip_error IP :=
  match Split cidr "/" with
  | [_; bits] =>
      match Atoi bits with
      | None => Err ErrInvalidCIDR
      | Some mask =>
          match ParseCIDR cidr with
          | None => Err ErrInvalidCIDR
          | Some n =>
              let networkMask := IP_Mask (net_IP n) (net_Ones n) in
              let firstHostIP := mkIP (ip0 networkMask) (ip1 networkMask) (ip2 networkMask) (incByte (ip3 networkMask)) in
              match findIP fuel n mask used firstHostIP with
              | None => Panic
              | Some None => Err ErrNoAvailableIPs
              | Some (Some ip) => Ok ip
              end
          end
      end
  | _ => Err ErrInvalidCIDR
  end.

(** ** Networks *)

(** An entry that does not parse ends the search of the list. *)
Fixpoint isOnBlacklist (cidr : string) (blacklist : list string) : bool :=
  match blacklist with
  | [] => false
  | b :: blacklist =>
      match ParseCIDR b with
      | None => false
      | Some blacklisted =>
          match ParseCIDR cidr with
          | None => false
          | Some subnet => if Contains_ip blacklisted (net_IP subnet) then true else isOnBlacklist cidr blacklist
          end
      end
  end.

(** How often the loops try: the operator in the code is the exclusive or. *)
Definition tooManyAttempts (mask breakCounter : Z) : bool :=
  (0 <? mask)%Z && (Z.lxor 2 mask <? breakCounter)%Z || (mask =? 0)%Z && (255 <? breakCounter)%Z.

(** [draws] are the addresses drawn, one per round; [None] when there are not enough. *)
Fixpoint randomCIDR (mask : Z) (blacklist : list string) (breakCounter : Z) (draws : list IP)
    : option (outcome ip_error string) :=
  if tooManyAttempts mask breakCounter then Some (Err ErrNoCIDR)
  else match draws with
  | [] => None
  | ip :: draws =>
      let candidate := IP_String ip +:+ ("/" +:+ Itoa mask) in
      if isOnBlacklist candidate blacklist then randomCIDR mask blacklist (breakCounter + 1) draws
      else match ParseCIDR candidate with
      | None => Some (Ok "")
      | Some n => Some (Ok (IPNet_String n))
      end
  end.

Definition GetRandomCIDR (mask : Z) (blacklist : list string) (draws : list IP) : option (outcome ip_error string) :=
  randomCIDR mask blacklist 0 draws.

(** A random address between two others, in the bytes the mask covers. *)
Definition inRange (mask : Z) (start stop draw : IP) : IP :=
  let pick i lo hi d := if (i <? Z.quot mask 8)%Z then (lo + d mod (hi - lo + 1))%Z else 0%Z in
  mkIP (pick 0%Z (ip0 start) (ip0 stop) (ip0 draw)) (pick 1%Z (ip1 start) (ip1 stop) (ip1 draw))
       (pick 2%Z (ip2 start) (ip2 stop) (ip2 draw)) (pick 3%Z (ip3 start) (ip3 stop) (ip3 draw)).

Definition GetRandomCIDRInRange (mask : Z) (start stop : IP) (blacklist : list string) (draws : list IP)
    : option (outcome ip_error string) :=
  randomCIDR mask blacklist 0 (map (inRange mask start stop) draws).

(** ** Ports *)

(** A port that can be listened on among a hundred drawn; [None] when none was free. *)
Fixpoint GetRandomAvailablePort (free : Z → bool) (draws : list Z) : option Z :=
  match draws with
  | [] => None
  | d :: draws =>
      let port := (10000 + d mod (65535 - 10000 + 1))%Z in
      if free port then Some port else GetRandomAvailablePort free draws
  end.

Fixpoint GetMultipleAvailablePorts (free : Z → bool) (draws : list (list Z)) : option (list Z) :=
  match draws with
  | [] => Some []
  | d :: draws =>
      match GetRandomAvailablePort free (take 100 d) with
      | None => None
      | Some p => cons p <$> GetMultipleAvailablePorts free draws
      end
  end.

(** ** Addresses of a subnet: properties (network/utils/utils.go) *)

Definition is_byte (z : Z) : Prop := (0 ≤ z ≤ 255)%Z.
Definition is_ip (ip : IP) : Prop := is_byte (ip0 ip) ∧ is_byte (ip1 ip) ∧ is_byte (ip2 ip) ∧ is_byte (ip3 ip).

(** ** Printing and parsing *)

Lemma Itoa_no_char z c : (0 ≤ z)%Z → ¬ is_digit c → Contains (Itoa z) (String c "") = false.
Proof. intros Hz Hc. apply all_digits_Contains; [by apply Itoa_digits|done]. Qed.

Lemma parseByte_Itoa z : is_byte z → parseByte (Itoa z) = Some z.
Proof.
  intros [H0 H1]. unfold parseByte. rewrite Atoi_Itoa by (unfold is_s64; lia).
  destruct (Z.leb_spec 0 z); [|lia]. destruct (Z.leb_spec z 255); [|lia]. by rewrite bool_decide_true.
Qed.

Lemma IP_String_Split ip :
  is_ip ip → Split (IP_String ip) "." = [Itoa (ip0 ip); Itoa (ip1 ip); Itoa (ip2 ip); Itoa (ip3 ip)].
Proof.
  intros (H0 & H1 & H2 & H3). unfold IP_String, Join.
  rewrite !Split_app by (apply Itoa_no_dot; apply H0 || apply H1 || apply H2).
  by rewrite Split_none by (apply Itoa_no_dot, H3).
Qed.

Lemma ParseIP_String ip : is_ip ip → ParseIP (IP_String ip) = Some ip.
Proof.
  intros Hip. unfold ParseIP. rewrite IP_String_Split by done. cbn [map].
  destruct Hip as (H0 & H1 & H2 & H3). rewrite !parseByte_Itoa by done. by destruct ip.
Qed.

Lemma IP_String_inj ip ip' : is_ip ip → is_ip ip' → IP_String ip = IP_String ip' → ip = ip'.
Proof. intros H H' E. apply (f_equal ParseIP) in E. rewrite !ParseIP_String in E by done. congruence. Qed.

Lemma IP_String_no_slash ip : is_ip ip → Contains (IP_String ip) "/" = false.
Proof.
  intros (H0 & H1 & H2 & H3). unfold IP_String, Join. rewrite !string_app_cons, !string_app_nil_l.
  assert (Hd : ¬ is_digit (Ascii.ascii_of_nat 47)) by (unfold is_digit; vm_compute; lia).
  rewrite !Contains_sep by done. by rewrite !(Itoa_no_char _ (Ascii.ascii_of_nat 47)) by (apply Hd || apply H0 || apply H1 || apply H2 || apply H3).
Qed.

(** ** Networks of 24 bits *)

(** The network a.b.c.0/24 and its hosts. *)
Definition net24 (a b c : Z) : IPNet := mkIPNet (mkIP a b c 0) 24.
Definition host (a b c k : Z) : IP := mkIP a b c k.

Lemma land_255 z : is_byte z → Z.land z 255 = z.
Proof.
  intros Hz. change 255%Z with (Z.ones 8). rewrite Z.land_ones by lia. apply Z.mod_small. unfold is_byte in Hz. lia.
Qed.

Lemma mask24 a b c k : is_byte a → is_byte b → is_byte c → IP_Mask (mkIP a b c k) 24 = mkIP a b c 0.
Proof.
  intros Ha Hb Hc. unfold IP_Mask. change (maskByte 24 0) with 255%Z. change (maskByte 24 1) with 255%Z.
  change (maskByte 24 2) with 255%Z. change (maskByte 24 3) with 0%Z. cbn [ip0 ip1 ip2 ip3].
  by rewrite !land_255, Z.land_0_r.
Qed.

Section net24.
  Context (a b c : Z) (Ha : is_byte a) (Hb : is_byte b) (Hc : is_byte c).

Lemma net24_Split : Split (IPNet_String (net24 a b c)) "/" = [IP_String (mkIP a b c 0); "24"].
Proof using Ha Hb Hc.
  unfold IPNet_String, net24. cbn [net_IP net_Ones]. apply Split_two; [|reflexivity].
  apply IP_String_no_slash. by repeat split; try apply Ha || apply Hb || apply Hc.
Qed.

Lemma ParseCIDR_net24 : ParseCIDR (IPNet_String (net24 a b c)) = Some (net24 a b c).
Proof using Ha Hb Hc.
  unfold ParseCIDR. rewrite net24_Split, ParseIP_String by (by repeat split; try apply Ha || apply Hb || apply Hc).
  change (Atoi "24") with (Some 24%Z). cbn [Z.leb Z.compare Pos.compare Pos.compare_cont andb].
  rewrite bool_decide_true by reflexivity. by rewrite mask24.
Qed.

Lemma Contains_host k : Contains_ip (net24 a b c) (host a b c k) = true.
Proof using Ha Hb Hc. unfold Contains_ip, net24, host. cbn [net_IP net_Ones]. rewrite !mask24 by done. by apply bool_decide_true. Qed.

Lemma nextIP_24 k : (1 ≤ k ≤ 253)%Z → nextIP (host a b c k) 24 = Some (host a b c (k + 1)).
Proof.
  intros Hk. unfold nextIP, host. cbn [ip0 ip1 ip2 ip3]. rewrite !andb_false_l.
  change (24 =? 0)%Z with false. change (24 =? 8)%Z with false. change (24 =? 16)%Z with false.
  change (24 =? 24)%Z with true. cbn [orb andb ip0 ip1 ip2 ip3].
  destruct (Z.eqb_spec k 254); [lia|]. unfold incByte. by rewrite Z.mod_small by lia.
Qed.

Lemma nextIP_last : nextIP (host a b c 254) 24 = None.
Proof. reflexivity. Qed.

(** The search from host [k] on. *)
Lemma findIP_24 fuel used k :
  (1 ≤ k ≤ 254)%Z → (254 - k < Z.of_nat fuel)%Z →
  match findIP fuel (net24 a b c) 24 used (host a b c k) with
  | Some (Some ip) => ∃ j, (k ≤ j ≤ 254)%Z ∧ ip = host a b c j ∧ IP_String ip ∉ used ∧
      ∀ i, (k ≤ i < j)%Z → IP_String (host a b c i) ∈ used
  | Some None => ∀ i, (k ≤ i ≤ 254)%Z → IP_String (host a b c i) ∈ used
  | None => False
  end.
Proof using Ha Hb Hc.
  revert k. induction fuel as [|fuel IH]; intros k Hk Hf; [lia|]. cbn [findIP].
  rewrite Contains_host. cbn [negb]. case_bool_decide as Hu; cbn [negb].
  - destruct (decide (k = 254)%Z) as [->|Hne].
    + rewrite nextIP_last. intros i Hi. by replace i with 254%Z by lia.
    + rewrite nextIP_24 by lia. specialize (IH (k + 1)%Z ltac:(lia) ltac:(lia)).
      destruct (findIP _ _ _ _ _) as [[ip|]|]; [|intros i Hi|done].
      * destruct IH as (j & Hj & -> & Hn & Hall). exists j. split_and!; [lia|lia|done|done|].
        intros i Hi. destruct (decide (i = k)) as [->|]; [done|]. apply Hall. lia.
      * destruct (decide (i = k)) as [->|]; [done|]. apply IH. lia.
  - exists k. split_and!; [lia|lia|done|done|lia].
Qed.

(** The next address of a deployment's network is its first host that is not in use, and
    the search fails exactly when all 254 are; it always ends. *)
Theorem GetNextIP_24 fuel used :
  (254 ≤ fuel)%nat →
  match GetNextIP fuel (IPNet_String (net24 a b c)) used with
  | Ok ip => ∃ k, (1 ≤ k ≤ 254)%Z ∧ ip = host a b c k ∧ IP_String ip ∉ used ∧
      ∀ i, (1 ≤ i < k)%Z → IP_String (host a b c i) ∈ used
  | Err e => e = ErrNoAvailableIPs ∧ ∀ i, (1 ≤ i ≤ 254)%Z → IP_String (host a b c i) ∈ used
  | Panic => False
  end.
Proof using Ha Hb Hc.
  intros Hf. unfold GetNextIP. rewrite net24_Split. change (Atoi "24") with (Some 24%Z).
  rewrite ParseCIDR_net24. cbv zeta.
  replace (IP_Mask (net_IP (net24 a b c)) (net_Ones (net24 a b c))) with (mkIP a b c 0) by (symmetry; by apply mask24).
  cbn [ip0 ip1 ip2 ip3]. change (incByte 0) with 1%Z. change (mkIP a b c 1) with (host a b c 1).
  pose proof (findIP_24 fuel used 1 ltac:(lia) ltac:(lia)) as H.
  destruct (findIP _ _ _ _ _) as [[ip|]|]; [exact H|by split|done].
Qed.
End net24.

Lemma GetNextIP_24_witness :
  GetNextIP 254 "10.1.2.0/24" {["10.1.2.1"; "10.1.2.2"; "10.1.2.255"]} = Ok (host 10 1 2 3) ∧
  match GetNextIP 254 (IPNet_String (net24 10 1 2)) {["10.1.2.1"; "10.1.2.2"; "10.1.2.255"]} with
  | Ok ip => ∃ k, (1 ≤ k ≤ 254)%Z ∧ ip = host 10 1 2 k ∧ IP_String ip ∉ ({["10.1.2.1"; "10.1.2.2"; "10.1.2.255"]} : gset string) ∧
      ∀ i, (1 ≤ i < k)%Z → IP_String (host 10 1 2 i) ∈ ({["10.1.2.1"; "10.1.2.2"; "10.1.2.255"]} : gset string)
  | Err e => e = ErrNoAvailableIPs ∧ ∀ i, (1 ≤ i ≤ 254)%Z → IP_String (host 10 1 2 i) ∈ ({["10.1.2.1"; "10.1.2.2"; "10.1.2.255"]} : gset string)
  | Panic => False
  end.
Proof.
  split; [vm_compute; reflexivity|].
  apply (GetNextIP_24 10 1 2); unfold is_byte; lia.
Defined.
