(* ===== verification/Committer.v ===== *)
(** * Committing a deployment (dms/orchestrator/commit.go)

    The two phases: commit the resources of every allocation on the nodes of the
    candidate, then create the allocations; both have to succeed on every node.  The
    answers of the nodes are arguments: [commits node id] says whether the node
    committed the allocation (a failed message, a timeout or a refusal is [false]),
    [allocates node request] gives the handles the node answered with ([None] when the
    message failed or was refused).  The requests of one phase run concurrently; what
    is sent is listed in the order the candidate is visited. *)

From S2P Require Import Prelude GoStrings GoNumbers AllocationID Key Envelope.
From S2P Require Import Hardware ResourceManager Allocation Ensemble.

Inductive commit_error :=
| ErrCommitFailed      (* failed to commit resources *)
| ErrAllocateFailed.   (* failed to allocate resources *)

#[export] Instance commit_error_eq_dec : EqDecision commit_error.
Proof. solve_decision. Defined.

Record CommitDeploymentRequest := mkCommitRequest {
  cr_EnsembleID : string;
  cr_AllocationName : string;
  cr_NodeID : string;
  cr_Resources : Resources;
  cr_PortMapping : gmap Z Z;
  cr_NumDynamicPorts : Z
}.

Record AllocationDeploymentConfig := mkDeploymentConfig {
  dc_Type : string;
  dc_Executor : string;
  dc_Resources : Resources;
  dc_Execution : string;
  dc_ProvisionScripts : gmap string string;
  dc_Keys : list AllocationKey;
  dc_Volume : list VolumeConfig;
  dc_Contracts : gmap string ContractConfig
}.

(** The messages of a commit. *)
Inductive commit_message :=
| CommitMessage (to : Handle) (req : CommitDeploymentRequest)
| AllocateMessage (to : Handle) (node : string) (allocs : gmap string AllocationDeploymentConfig).

Section committer.
  Context `{Visit : MapVisit} `{NodeGen : NodeIDGenerator} `{AllocGen : AllocationIDGenerator}.
  Context (eid : string).
  Context (commits : string → string → bool).
  Context (allocates : string → gmap string AllocationDeploymentConfig → option (gmap string Handle)).

(** ** The first phase *)

(** A standby has the configuration of its primary. *)
Definition nodeConfigFor (cfg : EnsembleConfigV1) (n : string) : option NodeConfig :=
  let '(isStandby, primaryNode, _) := ParseNodeName n in
  if isStandby then Node cfg primaryNode else Node cfg n.

Definition getAllocPortMapping (ncfg : NodeConfig) (allocName : string) : gmap Z Z :=
  fold_left (λ ports pc, if bool_decide (port_Allocation pc = allocName)
                         then <[port_Public pc := port_Private pc]> ports else ports)
    (node_Ports ncfg) ∅.

Definition getDynamicPortsNum (ncfg : NodeConfig) (allocName : string) : Z :=
  Z.of_nat (length (List.filter (λ pc, bool_decide (port_Allocation pc = allocName) && (port_Public pc =? 0)%Z)
                      (node_Ports ncfg))).

(** The request for one allocation; [None] when it cannot be made. *)
Definition commitRequest (cfg : EnsembleConfigV1) (n : string) (ncfg : NodeConfig) (allocName : string)
    : option CommitDeploymentRequest :=
  match cfg_Allocation cfg allocName with
  | None => None
  | Some allocation =>
      match GenerateFullAllocationID eid n allocName with
      | Ok fullAllocID =>
          Some (mkCommitRequest eid fullAllocID n (acfg_Resources allocation)
                  (getAllocPortMapping ncfg allocName) (getDynamicPortsNum ncfg allocName))
      | _ => None
      end
  end.

(** Whether every allocation of the node is committed, and what was sent. *)
Definition commitDeployment (cfg : EnsembleConfigV1) (n : string) (h : Handle) : bool * list commit_message :=
  match nodeConfigFor cfg n with
  | None => (false, [])
  | Some ncfg =>
      let reqs := map (commitRequest cfg n ncfg) (node_Allocations ncfg) in
      (forallb (λ r, match r with Some r => commits n (cr_AllocationName r) | None => false end) reqs,
       omap (λ r, CommitMessage h <$> r) reqs)
  end.

Definition updateNodeManifest (m : gmap string NodeManifest) (nodeName : string) (fn : NodeManifest → NodeManifest)
    : option (gmap string NodeManifest) :=
  match m !! nodeName with
  | Some node => Some (<[nodeName := fn node]> m)
  | None => None
  end.

(** The handle of a node that committed is written to the manifest. *)
Definition commitNode (cfg : EnsembleConfigV1) (acc : bool * gmap string NodeManifest * list commit_message)
    (nb : string * BidV1) : bool * gmap string NodeManifest * list commit_message :=
  let '(ok, nodes, sent) := acc in
  let '(n, b) := nb in
  let '(done, msgs) := commitDeployment cfg n (bid_Handle b) in
  if negb done then (false, nodes, sent ++ msgs)
  else match updateNodeManifest nodes n (λ m, set_nmf_Handle m (bid_Handle b)) with
  | Some nodes => (ok, nodes, sent ++ msgs)
  | None => (false, nodes, sent ++ msgs)
  end.

(** ** The second phase *)

(** What a node is asked to run; an allocation without a configuration is empty. *)
Fixpoint allocationRequests (cfg : EnsembleConfigV1) (n : string) (names : list string)
    (allocs : gmap string AllocationDeploymentConfig) : option (gmap string AllocationDeploymentConfig) :=
  match names with
  | [] => Some allocs
  | a :: names =>
      let acfg := default AllocationConfig_zero (cfg_Allocation cfg a) in
      let scripts := fold_left (λ m p, <[p := default "" (cfg_Scripts cfg !! p)]> m) (acfg_Provision acfg) ∅ in
      match GenerateFullAllocationID eid n a with
      | Ok fullAllocID =>
          allocationRequests cfg n names
            (<[fullAllocID := mkDeploymentConfig (acfg_Type acfg) (acfg_Executor acfg) (acfg_Resources acfg)
                                (acfg_Execution acfg) scripts (acfg_Keys acfg) (acfg_Volume acfg) (cfg_Contracts cfg)]> allocs)
      | _ => None
      end
  end.

(** The handles of the allocations a node created. *)
Definition allocate (cfg : EnsembleConfigV1) (n : string) (h : Handle)
    : option (gmap string Handle) * list commit_message :=
  match nodeConfigFor cfg n with
  | None => (None, [])
  | Some ncfg =>
      if (length (node_Allocations ncfg) =? 0)%nat then (Some ∅, [])
      else match allocationRequests cfg n (node_Allocations ncfg) ∅ with
      | None => (None, [])
      | Some allocs =>
          (match allocates n allocs with
           | None => None
           | Some response =>
               if bool_decide (dom allocs ⊆ dom response) then Some response else None
           end, [AllocateMessage h n allocs])
      end
  end.

Definition allocateNode (cfg : EnsembleConfigV1) (acc : bool * gmap string Handle * list commit_message)
    (nb : string * BidV1) : bool * gmap string Handle * list commit_message :=
  let '(ok, handles, sent) := acc in
  let '(n, b) := nb in
  match allocate cfg n (bid_Handle b) with
  | (None, msgs) => (false, handles, sent ++ msgs)
  | (Some allocated, msgs) => (ok, allocated ∪ handles, sent ++ msgs)
  end.

(** ** The manifest *)

(** Which node runs an allocation, and the ports of the allocations by name. *)
Definition processNodeAllocations (cfg : EnsembleConfigV1) (nodeID : string)
    (acc : gmap string string * gmap string (list EnsemblePort))
    : gmap string string * gmap string (list EnsemblePort) :=
  match nodeConfigFor cfg nodeID with
  | None => acc
  | Some nodeConfig =>
      fold_left
        (λ '(allocationNodes, ports) allocName,
           match GenerateManifestKey nodeID allocName with
           | Ok manifestKey =>
               let mine := List.filter (λ p, bool_decide (port_Allocation p = allocName)) (node_Ports nodeConfig) in
               (<[manifestKey := nodeID]> allocationNodes,
                if (length mine =? 0)%nat then ports
                else <[allocName := default [] (ports !! allocName) ++ mine]> ports)
           | _ => (allocationNodes, ports)
           end)
        (node_Allocations nodeConfig) acc
  end.

Definition committedNode (n : string) (b : BidV1) (nmf : option NodeManifest) : NodeManifest :=
  let '(isStandby, parsedPrimary, parsedIndex) := ParseNodeName n in
  let role := if isStandby then RoleStandby else RolePrimary in
  let primaryNode := if isStandby then parsedPrimary else n in
  let standbyIndex := if isStandby then parsedIndex else 0%Z in
  match nmf with
  | Some nmf =>
      mkNodeManifest (nmf_ID nmf) (bid_Peer b) (bid_Handle b) (nmf_PubAddress nmf ++ [bid_PubAddress b]) (bid_Location b)
        (nmf_Allocations nmf) role primaryNode (nmf_StandbyNodes nmf) standbyIndex (nmf_Status nmf)
  | None =>
      mkNodeManifest n (bid_Peer b) (bid_Handle b) [bid_PubAddress b] (bid_Location b) [] role primaryNode
        (if isStandby then [] else map (standbyName primaryNode) (seqZ 1 standbyIndex)) standbyIndex ""
  end.

(** One allocation of the manifest. *)
Definition committedAllocation (allocationNodes : gmap string string) (ports : gmap string (list EnsemblePort))
    (handles : gmap string Handle) (role allocKey : string) (mf : gmap string AllocationManifest)
    : gmap string AllocationManifest :=
  match ParseManifestKey allocKey eid with
  | Ok allocID =>
      match mf !! allocKey with
      | Some alloc =>
          let allocPorts := fold_left (λ m pc, <[port_Public pc := port_Private pc]> m)
                              (default [] (ports !! ConfigName allocID)) ∅ in
          <[allocKey := mkAllocationManifest (amf_ID alloc) (default "" (allocationNodes !! allocKey)) (amf_Type alloc)
                          (default Handle_zero (handles !! AID_String allocID)) (amf_DNSName alloc) (amf_PrivAddr alloc)
                          allocPorts (amf_Healthcheck alloc) (amf_Status alloc) (ConfigName allocID)
                          (bool_decide (role = RoleStandby))]> mf
      | None => mf
      end
  | _ => mf
  end.

Definition updateManifestAllocations (nodes : gmap string NodeManifest) (allocationNodes : gmap string string)
    (ports : gmap string (list EnsemblePort)) (handles : gmap string Handle) (allocs : gmap string AllocationManifest)
    : gmap string AllocationManifest :=
  fold_left
    (λ allocs nmf,
       fold_left (λ allocs key, committedAllocation allocationNodes ports handles (nmf_RedundancyRole nmf) key allocs)
         (nmf_Allocations nmf) allocs)
    (visit (map snd (map_to_list nodes))) allocs.

(** The whole commit: the manifest, also when it fails, the error and the messages. *)
Definition commit (cfg : EnsembleConfigV1) (manifest : EnsembleManifest) (candidate : gmap string BidV1)
    : EnsembleManifest * option commit_error * list commit_message :=
  let order := visit (map_to_list candidate) in
  let '(ok, nodes, sent) := fold_left (commitNode cfg) order (true, mf_Nodes manifest, []) in
  let manifest := set_mf_nodes manifest nodes in
  if negb ok then (manifest, Some ErrCommitFailed, sent)
  else
    let '(ok, handles, sent) := fold_left (allocateNode cfg) order (true, ∅, sent) in
    if negb ok then (manifest, Some ErrAllocateFailed, sent)
    else
      let nodes := fold_left (λ m '(n, b), <[n := committedNode n b (m !! n)]> m) order nodes in
      let '(allocationNodes, ports) := fold_left (λ acc '(n, _), processNodeAllocations cfg n acc) order (∅, ∅) in
      (set_mf_allocations (set_mf_nodes manifest nodes)
         (updateManifestAllocations nodes allocationNodes ports handles (mf_Allocations manifest)),
       None, sent).

End committer.
