(* ===== verification/Subnet.v ===== *)
(** * The subnet of a deployment (dms/orchestrator/subnet.go, teardown.go, provision.go)

    The addresses, routes and names of the members of a deployment's subnet.  The
    provisioner works on the maps of the orchestrator: the two hold the same maps. *)

From S2P Require Import Prelude GoStrings GoNumbers AllocationID Hardware ResourceManager Key Envelope Allocation Ensemble IPNet.

Record SubnetManifest := mkSubnet {
  sn_CIDR : string;
  sn_GatewayIP : string;
  sn_BroadcastIP : string;
  sn_UsedIPs : gset string;                    (* only ever set to true or deleted *)
  sn_RoutingTable : gmap string string;        (* ip, peer *)
  sn_IndexRoutingTable : gmap string string;   (* member, ip *)
  sn_DNSRecords : gmap string string           (* name, ip *)
}.

Inductive subnet_error :=
| ErrNoAddress
| ErrAllocationMissing (name : string)
| ErrIPMissing (name : string)
| ErrNodeMissing (name : string).

#[export] Instance subnet_error_eq_dec : EqDecision subnet_error.
Proof. solve_decision. Defined.

Definition orchSubnetName : string := "orchestrator".

(** A network of 24 bits has 254 hosts: 256 rounds are enough to find a free one. *)
Definition ip_fuel : nat := 256.

(** A random network in 10.0.0.0/8 with its gateway and broadcast addresses taken. *)
Definition newSubnetManifest (draws : list IP) : option (outcome subnet_error SubnetManifest) :=
  match GetRandomCIDRInRange 24 (mkIP 10 0 0 0) (mkIP 10 255 255 255) [] draws with
  | None => None
  | Some (Ok cidr) =>
      match Split (default "" (Split cidr "/" !! O)) "." with
      | a :: b :: c :: _ =>
          let address d := a +:+ ("." +:+ (b +:+ ("." +:+ (c +:+ ("." +:+ d))))) in
          Some (Ok (mkSubnet cidr (address "1") (address "255") {[address "1"; address "255"]} ∅ ∅ ∅))
      | _ => Some Panic
      end
  | Some (Err _) => Some (Err ErrNoAddress)
  | Some Panic => Some Panic
  end.

(** ** Members *)

(** One member with its address. *)
Definition addMember (sn : SubnetManifest) (member ip peer : string) (dns : string) : SubnetManifest :=
  mkSubnet (sn_CIDR sn) (sn_GatewayIP sn) (sn_BroadcastIP sn) ({[ip]} ∪ sn_UsedIPs sn)
    (<[ip := peer]> (sn_RoutingTable sn)) (<[member := ip]> (sn_IndexRoutingTable sn))
    (<[dns := ip]> (sn_DNSRecords sn)).

Definition dropMember (sn : SubnetManifest) (member ip : string) (records : gmap string string) : SubnetManifest :=
  mkSubnet (sn_CIDR sn) (sn_GatewayIP sn) (sn_BroadcastIP sn) (sn_UsedIPs sn ∖ {[ip]})
    (delete ip (sn_RoutingTable sn)) (delete member (sn_IndexRoutingTable sn)) records.

(** An address is looked for before the allocation is. *)
Definition addAllocationToSubnet (sn : SubnetManifest) (mf : EnsembleManifest) (allocName : string)
    : outcome subnet_error SubnetManifest :=
  match sn_IndexRoutingTable sn !! allocName with
  | Some _ => Ok sn
  | None =>
      match GetNextIP ip_fuel (sn_CIDR sn) (sn_UsedIPs sn) with
      | Err _ => Err ErrNoAddress
      | Panic => Panic
      | Ok ip =>
          match mf_Allocations mf !! allocName with
          | None => Err (ErrAllocationMissing allocName)
          | Some allocManifest =>
              let peer := nmf_Peer (default NodeManifest_zero (mf_Nodes mf !! amf_NodeID allocManifest)) in
              Ok (addMember sn allocName (IP_String ip) peer (amf_DNSName allocManifest))
          end
      end
  end.

(** The orchestrator joins once; its record of names is the same as an allocation's. *)
Definition joinOrchestrator (sn : SubnetManifest) (hostID : string) : outcome subnet_error SubnetManifest :=
  match sn_IndexRoutingTable sn !! orchSubnetName with
  | Some _ => Ok sn
  | None =>
      match GetNextIP ip_fuel (sn_CIDR sn) (sn_UsedIPs sn) with
      | Err _ => Err ErrNoAddress
      | Panic => Panic
      | Ok ip => Ok (addMember sn orchSubnetName (IP_String ip) hostID orchSubnetName)
      end
  end.

(** One allocation leaves: its records go if the manifest and the index know it. *)
Definition removeFromSubnet (mf : EnsembleManifest) (sn : SubnetManifest) (allocName : string) : SubnetManifest :=
  match mf_Allocations mf !! allocName with
  | None => sn
  | Some allocManifest =>
      match sn_IndexRoutingTable sn !! allocName with
      | None => sn
      | Some ip =>
          dropMember sn allocName ip
            (if bool_decide (amf_DNSName allocManifest ≠ "") then delete (amf_DNSName allocManifest) (sn_DNSRecords sn)
             else sn_DNSRecords sn)
      end
  end.

Definition removeAllocationsFromSubnet (sn : SubnetManifest) (mf : EnsembleManifest) (allocsNames : list string)
    : SubnetManifest := fold_left (removeFromSubnet mf) allocsNames sn.

(** The orchestrator leaves. *)
Definition revertSubnetManifest (sn : SubnetManifest) : SubnetManifest :=
  dropMember sn orchSubnetName (default "" (sn_IndexRoutingTable sn !! orchSubnetName))
    (delete orchSubnetName (sn_DNSRecords sn)).

Definition getAllocIP (sn : SubnetManifest) (allocName : string) : option string :=
  sn_IndexRoutingTable sn !! allocName.

(** ** Requests *)

Record subnetRequest := mkSubnetRequest {
  sr_handle : Handle;
  sr_ip : string;
  sr_peerID : string;
  sr_ports : gmap Z Z
}.

Section requests.
  Context `{Visit : MapVisit}.

Fixpoint subnetRequestsOf (sn : SubnetManifest) (mf : EnsembleManifest) (l : list (string * AllocationManifest))
    : outcome subnet_error (list subnetRequest) :=
  match l with
  | [] => Ok []
  | (allocName, a) :: l =>
      match sn_IndexRoutingTable sn !! allocName with
      | None => Err (ErrIPMissing allocName)
      | Some ip =>
          match mf_Nodes mf !! amf_NodeID a with
          | None => Err (ErrNodeMissing allocName)
          | Some nmf =>
              match subnetRequestsOf sn mf l with
              | Ok reqs => Ok (mkSubnetRequest (amf_Handle a) ip (nmf_Peer nmf) (amf_Ports a) :: reqs)
              | r => r
              end
          end
      end
  end.

Definition newSubnetRequests (sn : SubnetManifest) (mf : EnsembleManifest) : outcome subnet_error (list subnetRequest) :=
  subnetRequestsOf sn mf (visit (map_to_list (mf_Allocations mf))).

(** Every allocation gets an address, which is written to its manifest. *)
Fixpoint addressAllocations (sn : SubnetManifest) (mf : EnsembleManifest) (keys : list string)
    : outcome subnet_error (SubnetManifest * EnsembleManifest) * SubnetManifest :=
  match keys with
  | [] => (Ok (sn, mf), sn)
  | key :: keys =>
      match addAllocationToSubnet sn mf key with
      | Err e => (Err e, sn)
      | Panic => (Panic, sn)
      | Ok sn =>
          match UpdateAllocation mf key (λ a, set_amf_PrivAddr a (default "" (sn_IndexRoutingTable sn !! key))) with
          | None => (Err (ErrAllocationMissing key), sn)
          | Some mf => addressAllocations sn mf keys
          end
      end
  end.

(** The requests to the allocations of the nodes of a manifest. *)
Definition provisionRequests (sn : SubnetManifest) (mf : EnsembleManifest) : list subnetRequest :=
  flat_map
    (λ nmf, omap (λ allocID,
                    match mf_Allocations mf !! allocID with
                    | None => None
                    | Some a =>
                        Some (mkSubnetRequest (amf_Handle a) (default "" (sn_IndexRoutingTable sn !! allocID))
                                (nmf_Peer (default NodeManifest_zero (mf_Nodes mf !! amf_NodeID a))) (amf_Ports a))
                    end) (nmf_Allocations nmf))
    (visit (map snd (map_to_list (mf_Nodes mf)))).

End requests.

(** ** The subnet of a deployment: properties

    The invariant of the addresses of a subnet, kept by every operation on it. *)

(** ** The operations as steps *)

Inductive subnet_step : SubnetManifest → SubnetManifest → Prop :=
| step_add sn mf name sn' : addAllocationToSubnet sn mf name = Ok sn' → subnet_step sn sn'
| step_join sn hostID sn' : joinOrchestrator sn hostID = Ok sn' → subnet_step sn sn'
| step_remove sn mf names : subnet_step sn (removeAllocationsFromSubnet sn mf names)
| step_revert sn : subnet_step sn (revertSubnetManifest sn).

Inductive subnet_reachable : SubnetManifest → Prop :=
| reach_new draws sn : Forall is_ip draws → newSubnetManifest draws = Some (Ok sn) → subnet_reachable sn
| reach_step sn sn' : subnet_reachable sn → subnet_step sn sn' → subnet_reachable sn'.

(** ** The invariant *)

Record SubnetInv (a b c : Z) (sn : SubnetManifest) : Prop := {
  si_bytes : is_byte a ∧ is_byte b ∧ is_byte c;
  si_cidr : sn_CIDR sn = IPNet_String (net24 a b c);
  si_gateway : sn_GatewayIP sn = IP_String (host a b c 1);
  si_broadcast : sn_BroadcastIP sn = IP_String (host a b c 255);
  si_used : ∀ ip, ip ∈ sn_UsedIPs sn ↔
    ip = sn_GatewayIP sn ∨ ip = sn_BroadcastIP sn ∨ ∃ m, sn_IndexRoutingTable sn !! m = Some ip;
  si_host : ∀ m ip, sn_IndexRoutingTable sn !! m = Some ip → ∃ k, (2 ≤ k ≤ 254)%Z ∧ ip = IP_String (host a b c k);
  si_inj : ∀ m m' ip, sn_IndexRoutingTable sn !! m = Some ip → sn_IndexRoutingTable sn !! m' = Some ip → m = m';
  si_routes : ∀ ip, is_Some (sn_RoutingTable sn !! ip) ↔ ∃ m, sn_IndexRoutingTable sn !! m = Some ip
}.

Lemma host_is_ip a b c k : is_byte a → is_byte b → is_byte c → is_byte k → is_ip (host a b c k).
Proof. by repeat split; try apply H || apply H0 || apply H1 || apply H2. Qed.

Lemma host_inj a b c k k' :
  is_byte a → is_byte b → is_byte c → is_byte k → is_byte k' →
  IP_String (host a b c k) = IP_String (host a b c k') → k = k'.
Proof. intros Ha Hb Hc Hk Hk' E. apply IP_String_inj in E; [by injection E|by apply host_is_ip..]. Qed.

Lemma IP_String_nonempty ip : "" ≠ IP_String ip.
Proof.
  intros H. apply (f_equal String.length) in H. unfold IP_String, Join in H.
  rewrite !string_length_app in H. simpl in H. lia.
Qed.

(** The address that is looked for is a free host, never the gateway or the broadcast. *)
Lemma next_address a b c sn ip :
  SubnetInv a b c sn → GetNextIP ip_fuel (sn_CIDR sn) (sn_UsedIPs sn) = Ok ip →
  ∃ k, (2 ≤ k ≤ 254)%Z ∧ ip = host a b c k ∧ IP_String ip ∉ sn_UsedIPs sn.
Proof.
  intros [(Ha & Hb & Hc) Hci Hg Hbc Hu _ _ _] Hn. rewrite Hci in Hn.
  pose proof (GetNextIP_24 a b c Ha Hb Hc ip_fuel (sn_UsedIPs sn) ltac:(unfold ip_fuel; lia)) as H.
  rewrite Hn in H. destruct H as (k & Hk & -> & Hfree & _). exists k. split_and!; auto; try lia.
  destruct (decide (k = 1)%Z) as [->|]; [|lia]. exfalso. apply Hfree, Hu. left. by rewrite Hg.
Qed.

Lemma addMember_inv a b c sn member k peer dns :
  SubnetInv a b c sn → sn_IndexRoutingTable sn !! member = None → (2 ≤ k ≤ 254)%Z →
  IP_String (host a b c k) ∉ sn_UsedIPs sn →
  SubnetInv a b c (addMember sn member (IP_String (host a b c k)) peer dns).
Proof.
  intros HI Hm Hk Hfree. pose proof HI as [Hby Hci Hg Hbc Hu Hh Hinj Hr]. split; simpl; auto.
  - intros ip. rewrite elem_of_union, elem_of_singleton, Hu. setoid_rewrite lookup_insert_Some. split.
    + intros [->|[?|[?|[m Hip]]]]; auto.
      * right. right. exists member. by left.
      * right. right. exists m. right. split; [congruence|done].
    + intros [?|[?|[m [[_ ->]|[_ Hip]]]]]; auto. right. right. right. by exists m.
  - intros m ip [[_ <-]|[_ Hip]]%lookup_insert_Some; [by exists k|by eapply Hh].
  - intros m m' ip [[<- <-]|[? Hip]]%lookup_insert_Some [[<- ?]|[? Hip']]%lookup_insert_Some; auto.
    + exfalso. apply Hfree, Hu. right. right. by exists m'.
    + subst. exfalso. apply Hfree, Hu. right. right. by exists m.
    + by eapply Hinj.
  - intros ip. setoid_rewrite lookup_insert_Some. rewrite <- (Hr ip) || idtac. split.
    + destruct (decide (IP_String (host a b c k) = ip)) as [->|Hne]; [intros _; exists member; by left|].
      rewrite lookup_insert_ne by done. intros [m Hip]%Hr. exists m. right. split; [congruence|done].
    + intros [m [[_ <-]|[_ Hip]]]; [by rewrite lookup_insert_eq|].
      rewrite lookup_insert_is_Some'. right. apply Hr. by exists m.
Qed.

Lemma dropMember_inv a b c sn member ip records :
  SubnetInv a b c sn → sn_IndexRoutingTable sn !! member = Some ip →
  SubnetInv a b c (dropMember sn member ip records).
Proof.
  intros HI Hm. pose proof HI as [Hby Hci Hg Hbc Hu Hh Hinj Hr]. pose proof Hby as (Ha & Hb & Hc).
  assert (Hidx : ∀ x, (∃ m, delete member (sn_IndexRoutingTable sn) !! m = Some x) ↔
                      x ≠ ip ∧ ∃ m, sn_IndexRoutingTable sn !! m = Some x).
  { intros x. setoid_rewrite lookup_delete_Some. split.
    - intros (m & Hne & Hx). split; [|by exists m]. intros ->. apply Hne. by eapply Hinj.
    - intros (Hne & m & Hx). exists m. split; [congruence|done]. }
  destruct (Hh _ _ Hm) as (k & Hk & Hip).
  assert (Hne : ∀ j, is_byte j → j ≠ k → IP_String (host a b c j) ≠ ip).
  { intros j Hj Hjk Heq. rewrite Hip in Heq. apply host_inj in Heq; auto. unfold is_byte. lia. }
  split; simpl; auto.
  - intros x. rewrite elem_of_difference, elem_of_singleton, Hu, Hidx. split; [naive_solver|].
    intros [->|[->|?]]; [|..].
    + split; [auto|]. rewrite Hg. apply Hne; unfold is_byte; lia.
    + split; [auto|]. rewrite Hbc. apply Hne; unfold is_byte; lia.
    + naive_solver.
  - intros m x [_ Hx]%lookup_delete_Some. by eapply Hh.
  - intros m m' x [_ Hx]%lookup_delete_Some [_ Hx']%lookup_delete_Some. by eapply Hinj.
  - intros x. rewrite Hidx, <- Hr. rewrite lookup_delete_is_Some. naive_solver.
Qed.

Lemma removeFromSubnet_inv a b c mf sn name : SubnetInv a b c sn → SubnetInv a b c (removeFromSubnet mf sn name).
Proof.
  intros HI. unfold removeFromSubnet. destruct (mf_Allocations mf !! name); [|done].
  destruct (sn_IndexRoutingTable sn !! name) eqn:E; [|done]. by apply dropMember_inv.
Qed.

Lemma revertSubnet_inv a b c sn : SubnetInv a b c sn → SubnetInv a b c (revertSubnetManifest sn).
Proof.
  intros HI. unfold revertSubnetManifest. destruct (sn_IndexRoutingTable sn !! orchSubnetName) as [ip|] eqn:E.
  { by apply dropMember_inv. }
  pose proof HI as [Hby Hci Hg Hbc Hu Hh Hinj Hr]. cbn [default].
  assert (Hempty : ∀ ip, (∃ m, sn_IndexRoutingTable sn !! m = Some ip) → ip ≠ "").
  { intros ip (m & Hm) ->. apply Hh in Hm as (k & _ & Hk). by apply IP_String_nonempty in Hk. }
  split; simpl; rewrite ?(delete_id _ _ E); auto.
  - intros ip. rewrite elem_of_difference, elem_of_singleton, Hu. split; [by intros [? _]|].
    intros Hip. split; [done|]. intros ->. destruct Hip as [Hip|[Hip|Hip]].
    + rewrite Hg in Hip. by apply IP_String_nonempty in Hip.
    + rewrite Hbc in Hip. by apply IP_String_nonempty in Hip.
    + by apply Hempty in Hip.
  - intros ip. rewrite lookup_delete_is_Some, Hr. split; [by intros [_ ?]|]. intros Hip. split; [|done].
    intros <-. by apply Hempty in Hip.
Qed.

(** ** New subnets *)

Lemma newSubnet_inv draws sn :
  Forall is_ip draws → newSubnetManifest draws = Some (Ok sn) → ∃ b c, SubnetInv 10 b c sn.
Proof.
  intros Hd. unfold newSubnetManifest, GetRandomCIDRInRange.
  destruct draws as [|d draws]; [done|]. cbn [map randomCIDR isOnBlacklist].
  change (tooManyAttempts 24 0) with false.
  set (b := (ip1 d mod 256)%Z). set (c := (ip2 d mod 256)%Z).
  assert (Hb : is_byte b) by (unfold b, is_byte; pose proof (Z.mod_pos_bound (ip1 d) 256 eq_refl); lia).
  assert (Hc : is_byte c) by (unfold c, is_byte; pose proof (Z.mod_pos_bound (ip2 d) 256 eq_refl); lia).
  assert (Ha : is_byte 10) by (unfold is_byte; lia).
  assert (Hr : inRange 24 (mkIP 10 0 0 0) (mkIP 10 255 255 255) d = mkIP 10 b c 0).
  { unfold inRange. cbn [ip0 ip1 ip2 ip3]. change (Z.quot 24 8) with 3%Z.
    change (0 <? 3)%Z with true. change (1 <? 3)%Z with true. change (2 <? 3)%Z with true. change (3 <? 3)%Z with false.
    f_equal. change (10 - 10 + 1)%Z with 1%Z. rewrite Z.mod_1_r. done. }
  rewrite Hr. change (IP_String (mkIP 10 b c 0) +:+ ("/" +:+ Itoa 24)) with (IPNet_String (net24 10 b c)).
  rewrite ParseCIDR_net24 by done. cbv iota beta. rewrite net24_Split by done.
  change (default "" ([IP_String (mkIP 10 b c 0); "24"] !! O)) with (IP_String (mkIP 10 b c 0)).
  rewrite IP_String_Split by (by apply host_is_ip; try done; unfold is_byte; lia). cbn [ip0 ip1 ip2 ip3].
  intros [= <-]. exists b, c. split; simpl; auto; try (intros *; rewrite lookup_empty; done).
  - intros ip. setoid_rewrite lookup_empty. rewrite elem_of_union, !elem_of_singleton. naive_solver.
  - intros ip. setoid_rewrite lookup_empty. split; [by intros [? ?]|by intros (? & ?)].
Qed.

Lemma subnet_step_inv a b c sn sn' : SubnetInv a b c sn → subnet_step sn sn' → SubnetInv a b c sn'.
Proof.
  intros HI. induction 1 as [sn mf name sn' Ha|sn hostID sn' Hj|sn mf names|sn].
  - unfold addAllocationToSubnet in Ha. destruct (_ !! name) eqn:En; [by simplify_eq|].
    destruct (GetNextIP _ _ _) as [ip|e|] eqn:Eip; try done. destruct (mf_Allocations mf !! name); [|done].
    injection Ha as <-. destruct (next_address _ _ _ _ _ HI Eip) as (k & Hk & -> & Hf). by apply addMember_inv.
  - unfold joinOrchestrator in Hj. destruct (_ !! orchSubnetName) eqn:En; [by simplify_eq|].
    destruct (GetNextIP _ _ _) as [ip|e|] eqn:Eip; try done.
    injection Hj as <-. destruct (next_address _ _ _ _ _ HI Eip) as (k & Hk & -> & Hf). by apply addMember_inv.
  - unfold removeAllocationsFromSubnet. revert sn HI. induction names as [|n names IH]; simpl; intros sn HI; [done|].
    apply IH. by apply removeFromSubnet_inv.
  - by apply revertSubnet_inv.
Qed.

Lemma reachable_inv sn : subnet_reachable sn → ∃ b c, SubnetInv 10 b c sn.
Proof.
  induction 1 as [draws sn Hd Hn|sn sn' _ (b & c & HI) Hs]; [by eapply newSubnet_inv|].
  exists b, c. by eapply subnet_step_inv.
Qed.

(** ** Claims *)

(** The hosts a member can have. *)
Definition hostNames (b c : Z) : list string := map (λ k, IP_String (host 10 b c k)) (seqZ 2 253).

Lemma hostNames_NoDup b c : is_byte b → is_byte c → NoDup (hostNames b c).
Proof.
  intros Hb Hc. unfold hostNames. apply NoDup_fmap_2_strong; [|apply NoDup_seqZ].
  intros k k' Hk%elem_of_seqZ Hk'%elem_of_seqZ. apply host_inj; try done; unfold is_byte; lia.
Qed.

(** C32: in every subnet that the operations of the orchestrator reach, no two members have
    the same address, none has the address of the gateway or of the broadcast, all are
    hosts of the subnet's network, the addresses in use are exactly those of the gateway, of
    the broadcast and of the members, and routes exist for exactly the addresses of the
    members. *)
Theorem subnet_addresses_exclusive sn :
  subnet_reachable sn →
  (∀ m m' ip, sn_IndexRoutingTable sn !! m = Some ip → sn_IndexRoutingTable sn !! m' = Some ip → m = m') ∧
  (∀ m ip, sn_IndexRoutingTable sn !! m = Some ip → ip ≠ sn_GatewayIP sn ∧ ip ≠ sn_BroadcastIP sn ∧
     ∃ n h, ParseCIDR (sn_CIDR sn) = Some n ∧ ParseIP ip = Some h ∧ Contains_ip n h = true) ∧
  (∀ ip, ip ∈ sn_UsedIPs sn ↔ ip = sn_GatewayIP sn ∨ ip = sn_BroadcastIP sn ∨ ∃ m, sn_IndexRoutingTable sn !! m = Some ip) ∧
  (∀ ip, is_Some (sn_RoutingTable sn !! ip) ↔ ∃ m, sn_IndexRoutingTable sn !! m = Some ip).
Proof.
  intros (b & c & HI)%reachable_inv. pose proof HI as [(Ha & Hb & Hc) Hci Hg Hbc Hu Hh Hinj Hr].
  split_and!; auto. intros m ip Hm. destruct (Hh m ip Hm) as (k & Hk & ->). rewrite Hg, Hbc.
  split_and!; [intros E%host_inj; unfold is_byte; (done || lia)..|].
  exists (net24 10 b c), (host 10 b c k). split_and!.
  - rewrite Hci. by apply ParseCIDR_net24.
  - apply ParseIP_String, host_is_ip; done || (unfold is_byte; lia).
  - by apply Contains_host.
Qed.

(** An allocation is refused an address only when the subnet has 253 members, as many as
    a network of 24 bits has room for; the search always ends. *)
Theorem subnet_full sn mf name :
  subnet_reachable sn → addAllocationToSubnet sn mf name ≠ Panic ∧
  (addAllocationToSubnet sn mf name = Err ErrNoAddress → (253 ≤ size (sn_IndexRoutingTable sn))%nat).
Proof.
  intros (b & c & HI)%reachable_inv. pose proof HI as [(Ha & Hb & Hc) Hci Hg Hbc Hu Hh Hinj Hr].
  unfold addAllocationToSubnet. destruct (sn_IndexRoutingTable sn !! name); [done|].
  pose proof (GetNextIP_24 10 b c Ha Hb Hc ip_fuel (sn_UsedIPs sn) ltac:(unfold ip_fuel; lia)) as Hn.
  rewrite Hci. destruct (GetNextIP _ _ _) as [ip|e|]; [by destruct (mf_Allocations mf !! name)| |done].
  split; [done|]. intros _. destruct Hn as [_ Hall].
  rewrite <- (length_map_to_list (sn_IndexRoutingTable sn)), <- (length_fmap snd).
  change 253%nat with (length (hostNames b c)). apply submseteq_length, NoDup_submseteq; [by apply hostNames_NoDup|].
  intros ip (k & -> & Hk%elem_of_seqZ)%list_elem_of_fmap. specialize (Hall k ltac:(lia)).
  apply Hu in Hall as [E|[E|[m Hm]]].
  - rewrite Hg in E. apply host_inj in E; done || (unfold is_byte; lia).
  - rewrite Hbc in E. apply host_inj in E; done || (unfold is_byte; lia).
  - apply list_elem_of_fmap. exists (m, IP_String (host 10 b c k)). split; [done|]. by apply elem_of_map_to_list.
Qed.

Definition subnet_draw : IP := mkIP 7 1 2 9.
Definition subnet_manifest : EnsembleManifest :=
  mkManifest "e1" ∅ Handle_zero
    (list_to_map [("n1.web", AllocationManifest_zero); ("n1-standby-1.web", AllocationManifest_zero)]) ∅ false ∅.

(** A subnet with two members and the orchestrator. *)
Definition sample_subnet : SubnetManifest :=
  match newSubnetManifest [subnet_draw] with
  | Some (Ok sn) =>
      match addAllocationToSubnet sn subnet_manifest "n1.web" with
      | Ok sn =>
          match addAllocationToSubnet sn subnet_manifest "n1-standby-1.web" with
          | Ok sn => match joinOrchestrator sn "host" with Ok sn => sn | _ => sn end
          | _ => sn
          end
      | _ => sn
      end
  | _ => mkSubnet "" "" "" ∅ ∅ ∅ ∅
  end.

Lemma sample_subnet_reachable : subnet_reachable sample_subnet.
Proof.
  unfold sample_subnet.
  destruct (newSubnetManifest [subnet_draw]) as [[sn| |]|] eqn:E0; [|vm_compute in E0; discriminate..].
  assert (R0 : subnet_reachable sn).
  { eapply reach_new; [|exact E0]. repeat constructor; unfold is_byte; simpl; lia. }
  destruct (addAllocationToSubnet sn subnet_manifest "n1.web") as [sn1| |] eqn:E1; [|done..].
  assert (R1 : subnet_reachable sn1) by (eapply reach_step; [exact R0|by eapply step_add]).
  destruct (addAllocationToSubnet sn1 subnet_manifest "n1-standby-1.web") as [sn2| |] eqn:E2; [|done..].
  assert (R2 : subnet_reachable sn2) by (eapply reach_step; [exact R1|by eapply step_add]).
  destruct (joinOrchestrator sn2 "host") as [sn3| |] eqn:E3; [|done..].
  eapply reach_step; [exact R2|by eapply step_join].
Qed.

Lemma subnet_addresses_exclusive_witness :
  sn_IndexRoutingTable sample_subnet !! "n1.web" = Some "10.1.2.2" ∧
  sn_IndexRoutingTable sample_subnet !! "orchestrator" = Some "10.1.2.4" ∧
  ∀ m m' ip, sn_IndexRoutingTable sample_subnet !! m = Some ip → sn_IndexRoutingTable sample_subnet !! m' = Some ip → m = m'.
Proof.
  split; [vm_compute; reflexivity|]. split; [vm_compute; reflexivity|].
  apply (subnet_addresses_exclusive sample_subnet sample_subnet_reachable).
Defined.

Lemma subnet_full_witness :
  addAllocationToSubnet sample_subnet subnet_manifest "n1.web" ≠ Panic ∧
  (addAllocationToSubnet sample_subnet subnet_manifest "n1.web" = Err ErrNoAddress →
   (253 ≤ size (sn_IndexRoutingTable sample_subnet))%nat).
Proof. apply (subnet_full sample_subnet subnet_manifest "n1.web" sample_subnet_reachable). Defined.

(** The replicas of an allocation have the same name: the record of the last one added
    replaces the one of the primary, and names the standby that is not running. *)
Example standby_takes_name :
  sn_DNSRecords sample_subnet !! amf_DNSName AllocationManifest_zero = Some "10.1.2.3" ∧
  sn_IndexRoutingTable sample_subnet !! "n1-standby-1.web" = Some "10.1.2.3".
Proof. vm_compute. split; reflexivity. Qed.
