(* ===== verification/Orchestrator.v ===== *)
(** * The orchestrator of one deployment (dms/orchestrator)

    orchestrator.go, provision.go, teardown.go and behaviors_orchestrator.go: the
    manifest of a deployment, provisioning, the loop that deploys, tearing down, and the
    notifications of allocations.  The answers of the nodes, of the allocations and of
    the network are arguments; the clock is the list of attempts that begin before the
    deadline.

    Sharing: [deploy] is given the manifest of the orchestrator itself, not a copy, and
    its two maps stay shared until the orchestrator gets a new manifest.  The model
    keeps [None] for a manifest that is shared and a copy of its own otherwise. *)

From S2P Require Import Prelude GoStrings GoNumbers AllocationID Key Envelope.
From S2P Require Import Hardware ResourceManager Allocation Ensemble IPNet Subnet DependencyOrder.
From S2P Require Import BidCoordinator Committer.

Inductive DeploymentStatus :=
| DeploymentStatusPreparing
| DeploymentStatusGenerating
| DeploymentStatusCommitting
| DeploymentStatusProvisioning
| DeploymentStatusRunning
| DeploymentStatusUpdating
| DeploymentStatusFailed
| DeploymentStatusShuttingDown
| DeploymentStatusCompleted.

#[export] Instance DeploymentStatus_eq_dec : EqDecision DeploymentStatus.
Proof. solve_decision. Defined.

Inductive orch_error :=
| ErrBidding (e : bid_error)
| ErrPromise
| ErrProvisioningFailed
| ErrDependencies (e : order_error)
| ErrSubnet (e : subnet_error)
| ErrDeploymentFailed
| ErrGrantFailed.

#[export] Instance orch_error_eq_dec : EqDecision orch_error.
Proof. solve_decision. Defined.

Record AllocationInfo := mkAllocationInfo {
  ai_AllocationID : string;
  ai_Status : AllocationStatus;
  ai_HeartbeatSeq : Z;
  ai_HasHealthCheck : bool;
  ai_Health : string;
  ai_ResourceLimit : Resources;
  ai_DNSName : string;
  ai_IP : string
}.

Definition set_ai_Status i v := mkAllocationInfo (ai_AllocationID i) v (ai_HeartbeatSeq i) (ai_HasHealthCheck i)
  (ai_Health i) (ai_ResourceLimit i) (ai_DNSName i) (ai_IP i).

(** [o_stopped] says that the context was cancelled; [o_statuses] are the statuses that
    subscribers were told, the last one first; [o_events] the contract events pushed. *)
Record Orchestrator := mkOrchestrator {
  o_id : string;
  o_handle : Handle;
  o_cfg : EnsembleConfigV1;
  o_manifest : EnsembleManifest;
  o_subnet : SubnetManifest;
  o_status : DeploymentStatus;
  o_allocs : gmap string AllocationInfo;
  o_candidates : gmap string BidV1;
  o_contracts : gmap string ContractConfig;
  o_stopped : bool;
  o_statuses : list DeploymentStatus;
  o_events : list (string * ContractConfig)
}.

Definition with_manifest o v := mkOrchestrator (o_id o) (o_handle o) (o_cfg o) v (o_subnet o) (o_status o) (o_allocs o)
  (o_candidates o) (o_contracts o) (o_stopped o) (o_statuses o) (o_events o).
Definition with_subnet o v := mkOrchestrator (o_id o) (o_handle o) (o_cfg o) (o_manifest o) v (o_status o) (o_allocs o)
  (o_candidates o) (o_contracts o) (o_stopped o) (o_statuses o) (o_events o).
Definition with_allocs o v := mkOrchestrator (o_id o) (o_handle o) (o_cfg o) (o_manifest o) (o_subnet o) (o_status o) v
  (o_candidates o) (o_contracts o) (o_stopped o) (o_statuses o) (o_events o).
Definition with_candidates o v := mkOrchestrator (o_id o) (o_handle o) (o_cfg o) (o_manifest o) (o_subnet o) (o_status o)
  (o_allocs o) v (o_contracts o) (o_stopped o) (o_statuses o) (o_events o).
Definition with_stopped o v := mkOrchestrator (o_id o) (o_handle o) (o_cfg o) (o_manifest o) (o_subnet o) (o_status o)
  (o_allocs o) (o_candidates o) (o_contracts o) v (o_statuses o) (o_events o).
Definition with_events o v := mkOrchestrator (o_id o) (o_handle o) (o_cfg o) (o_manifest o) (o_subnet o) (o_status o)
  (o_allocs o) (o_candidates o) (o_contracts o) (o_stopped o) (o_statuses o) v.

(** Subscribers are told a status that is not the one before. *)
Definition orch_setStatus (st : DeploymentStatus) (o : Orchestrator) : Orchestrator :=
  mkOrchestrator (o_id o) (o_handle o) (o_cfg o) (o_manifest o) (o_subnet o) st (o_allocs o) (o_candidates o)
    (o_contracts o) (o_stopped o)
    (if bool_decide (o_status o = st) then o_statuses o else st :: o_statuses o) (o_events o).

Section orchestrator.
  Context `{Visit : MapVisit} `{NodeGen : NodeIDGenerator} `{AllocGen : AllocationIDGenerator} `{Bids : BidLib}.

(** ** Manifests *)

Definition nodeAllocationKeys (cfg : EnsembleConfigV1) (name : string) (node : NodeConfig) : list string :=
  omap (λ allocName, match cfg_Allocation cfg allocName with
                     | None => None
                     | Some _ => match GenerateManifestKey name allocName with Ok k => Some k | _ => None end
                     end) (node_Allocations node).

Definition standbyNodeIDs (name : string) (node : NodeConfig) : list string :=
  if (0 <? node_Redundancy node)%Z
  then omap (λ i, match GenerateStandbyNodeID name i with Ok id => Some id | _ => None end)
         (seqZ 1 (node_Redundancy node))
  else [].

Definition newNodeManifest (cfg : EnsembleConfigV1) (name : string) (node : NodeConfig) : NodeManifest :=
  mkNodeManifest name (node_Peer node) Handle_zero [] Location_zero (nodeAllocationKeys cfg name node) "" ""
    (standbyNodeIDs name node) 0 "".

(** The entry of one allocation; the role of its node is not known yet. *)
Definition newAllocationManifest (id : string) (cfg : EnsembleConfigV1) (nodeID : string) (nmf : NodeManifest)
    (allocKey : string) : option AllocationManifest :=
  match Split allocKey "." with
  | [_; configAllocName] =>
      match cfg_Allocation cfg configAllocName with
      | None => None
      | Some alloc =>
          match GenerateFullAllocationID id nodeID configAllocName with
          | Ok fullAllocID =>
              Some (mkAllocationManifest fullAllocID nodeID (acfg_Type alloc) Handle_zero
                      (acfg_DNSName alloc +:+ ".internal") "" ∅ (acfg_HealthCheck alloc) AllocationPending
                      configAllocName (bool_decide (nmf_RedundancyRole nmf = RoleStandby)))
          | _ => None
          end
      end
  | _ => None
  end.

Definition newManifest (id : string) (orchestrator : Handle) (cfg : EnsembleConfigV1) : EnsembleManifest :=
  let nodes := map_imap (λ name node, Some (newNodeManifest cfg name node)) (Nodes cfg) in
  let allocations :=
    fold_left
      (λ m '(nodeID, nmf),
         fold_left (λ m key, match newAllocationManifest id cfg nodeID nmf key with
                             | Some amf => <[key := amf]> m
                             | None => m
                             end) (nmf_Allocations nmf) m)
      (visit (map_to_list nodes)) ∅ in
  mkManifest id (cfg_Metadata cfg) orchestrator allocations nodes (cfg_SubnetJoin cfg)
    (map_imap (λ name c, Some (name, cc_DID c, cc_Host c)) (cfg_Contracts cfg)).

(** The statuses of the manifest are copied to the allocations the orchestrator knows. *)
Definition UpdateAllocationStatus (o : Orchestrator) : Orchestrator :=
  with_allocs o
    (fold_left (λ m a, match m !! amf_ID a with
                       | Some info => <[amf_ID a := set_ai_Status info (amf_Status a)]> m
                       | None => m
                       end)
       (visit (map snd (map_to_list (mf_Allocations (o_manifest o))))) (o_allocs o)).

Definition updateManifest (m : EnsembleManifest) (o : Orchestrator) : Orchestrator :=
  UpdateAllocationStatus (with_manifest o m).

(** ** Provisioning *)

Inductive start_answer := Started | StartRefused | StartFailed.

(** What the network and the allocations answer during provisioning. *)
Record Network := mkNetwork {
  nw_create : list Handle → bool;
  nw_join : bool;
  nw_addPeers : list subnetRequest → bool;
  nw_dns : list subnetRequest → bool;
  nw_ports : list subnetRequest → bool;
  nw_start : string → start_answer;
  nw_supervisor : Handle               (* of the actor of the orchestrator *)
}.

(** The subnet: addresses are given before anything is asked of the nodes, and stay when
    that fails. *)
Definition provisionSubnet (nw : Network) (o : Orchestrator) (mf : EnsembleManifest) (skipCreate : list string)
    : outcome orch_error EnsembleManifest * SubnetManifest :=
  match addressAllocations (o_subnet o) mf (visit (map fst (map_to_list (mf_Allocations mf)))) with
  | (Err e, sn) => (Err (ErrSubnet e), sn)
  | (Panic, sn) => (Panic, sn)
  | (Ok (sn, mf), _) =>
      let handles := omap (λ nmf, if bool_decide (nmf_ID nmf ∈ skipCreate) then None else Some (nmf_Handle nmf))
                       (visit (map snd (map_to_list (mf_Nodes mf)))) in
      let reqs := provisionRequests sn mf in
      let handles := handles ++ (if mf_SubnetJoin mf && bool_decide (sn_IndexRoutingTable sn !! orchSubnetName = None)
                                 then [nw_supervisor nw] else []) in
      let joined := if mf_SubnetJoin mf then joinOrchestrator sn (HostID (Handle_Address (o_handle o))) else Ok sn in
      match joined with
      | Err e => (Err (ErrSubnet e), sn)
      | Panic => (Panic, sn)
      | Ok sn =>
          if negb (nw_create nw handles) then (Err ErrProvisioningFailed, sn)
          else if mf_SubnetJoin mf && negb (nw_join nw) then (Err ErrProvisioningFailed, sn)
          else if negb (nw_addPeers nw reqs) then (Err ErrProvisioningFailed, sn)
          else if negb (nw_dns nw reqs) then (Err ErrProvisioningFailed, sn)
          else if negb (nw_ports nw reqs) then (Err ErrProvisioningFailed, sn)
          else (Ok mf, sn)
      end
  end.

(** The names of the allocations of a node, from its keys. *)
Definition rawNodeAllocations (nmf : NodeManifest) : list string :=
  omap (λ key, match Split key "." with [_; name] => Some name | _ => None end) (nmf_Allocations nmf).

(** One level of a node: the allocations that are on it are started, all of them; their
    statuses are recorded, and the level fails when one of them did not start. *)
Definition startLevel (nw : Network) (nodeKey : string) (nmf : NodeManifest) (mf : EnsembleManifest)
    (level : list string) : bool * EnsembleManifest :=
  fold_left
    (λ '(ok, mf) allocName,
       match GenerateManifestKey nodeKey allocName with
       | Ok key =>
           if negb (bool_decide (allocName ∈ rawNodeAllocations nmf)) then (ok, mf)
           else
             let a := default AllocationManifest_zero (mf_Allocations mf !! key) in
             let standby := amf_IsStandby a ||
               bool_decide (nmf_RedundancyRole (default NodeManifest_zero (mf_Nodes mf !! amf_NodeID a)) = RoleStandby) in
             match nw_start nw key with
             | Started =>
                 let st := if standby then AllocationStandby else AllocationRunning in
                 (ok, default mf (UpdateAllocation mf key (λ a, set_amf_Status a st)))
             | StartRefused => (false, default mf (UpdateAllocation mf key (λ a, set_amf_Status a AllocationFailed)))
             | StartFailed => (false, mf)
             end
       | _ => (ok, mf)
       end)
    level (true, mf).

Fixpoint startLevels (nw : Network) (nodeKey : string) (nmf : NodeManifest) (levels : list (list string))
    (mf : EnsembleManifest) : bool * EnsembleManifest :=
  match levels with
  | [] => (true, mf)
  | level :: levels =>
      match startLevel nw nodeKey nmf mf level with
      | (false, mf) => (false, mf)
      | (true, mf) => startLevels nw nodeKey nmf levels mf
      end
  end.

(** Nodes that are standbys are skipped. *)
Fixpoint startNodes (nw : Network) (levels : list (list string)) (nodes : list (string * NodeManifest))
    (mf : EnsembleManifest) : bool * EnsembleManifest :=
  match nodes with
  | [] => (true, mf)
  | (nodeKey, nmf) :: nodes =>
      if bool_decide (nmf_RedundancyRole nmf = RoleStandby) then startNodes nw levels nodes mf
      else match startLevels nw nodeKey nmf levels mf with
      | (false, mf) => (false, mf)
      | (true, mf) => startNodes nw levels nodes mf
      end
  end.

Definition provisionAllocations (nw : Network) (cfg : EnsembleConfigV1) (mf : EnsembleManifest)
    : outcome orch_error EnsembleManifest :=
  match orderByDependency (acfg_DependsOn <$> cfg_Allocations cfg) with
  | Err e => Err (ErrDependencies e)
  | Panic => Panic
  | Ok levels =>
      match startNodes nw levels (visit (map_to_list (mf_Nodes mf))) mf with
      | (true, mf) => Ok mf
      | (false, _) => Err ErrDeploymentFailed
      end
  end.

Definition Provision (nw : Network) (o : Orchestrator) (cfg : EnsembleConfigV1) (mf : EnsembleManifest)
    : outcome orch_error EnsembleManifest * SubnetManifest :=
  match provisionSubnet nw o mf [] with
  | (Ok mf, sn) => (provisionAllocations nw cfg mf, sn)
  | r => r
  end.

(** ** Reverting *)

(** [removeNodeFromManifest] with the addresses of the node's allocations. *)
Definition removeNodeFromManifest (name : string) (mf : EnsembleManifest) (sn : SubnetManifest)
    : EnsembleManifest * SubnetManifest :=
  match mf_Nodes mf !! name with
  | None => (mf, sn)
  | Some n =>
      (set_mf_nodes (set_mf_allocations mf (fold_left (λ m a, delete a m) (nmf_Allocations n) (mf_Allocations mf)))
         (delete name (mf_Nodes mf)),
       removeAllocationsFromSubnet sn mf (nmf_Allocations n))
  end.

(** [reverted n h] says whether the node confirmed at that handle. *)
Definition revertNodeDeployment (reverted : string → Handle → bool) (cfg : EnsembleConfigV1) (o : Orchestrator)
    (n : string) (h : Handle) : Orchestrator :=
  match Node cfg n with
  | None => o
  | Some _ =>
      if reverted n h then
        let '(mf, sn) := removeNodeFromManifest n (o_manifest o) (o_subnet o) in
        with_subnet (with_manifest o mf) sn
      else o
  end.

Definition revertNodes (reverted : string → Handle → bool) (cfg : EnsembleConfigV1) (nodes : gmap string NodeManifest)
    (o : Orchestrator) : Orchestrator :=
  fold_left (λ o '(n, nmf), revertNodeDeployment reverted cfg o n (nmf_Handle nmf)) (visit (map_to_list nodes)) o.

Definition revert (reverted : string → Handle → bool) (cfg : EnsembleConfigV1) (mf : EnsembleManifest) (o : Orchestrator)
    : Orchestrator :=
  let o := revertNodes reverted cfg (mf_Nodes mf) o in
  if mf_SubnetJoin mf then with_subnet o (revertSubnetManifest (o_subnet o)) else o.

(** ** Deploying *)

(** What happens during the bidding. *)
Record Bidding := mkBidding {
  bd_docker : string → option bool;
  bd_rtt_ok : Location → Location → Z → option bool;
  bd_answer : EdgeConstraint → BidV1 → BidV1 → bool;
  bd_sent : bool;
  bd_received : list Bid;
  bd_shuffle : list BidV1 → list BidV1;
  bd_rounds : list Round;
  bd_draw : Z → Z;
  bd_times : nat
}.

Definition runBid (bd : Bidding) (cfg : EnsembleConfigV1) (eid : string) (candidates : gmap string BidV1)
    : outcome bid_error (gmap string BidV1) :=
  bid (bd_docker bd) (bd_rtt_ok bd) (bd_answer bd) cfg eid 1 candidates (bd_sent bd) (bd_received bd)
    (bd_shuffle bd) (bd_rounds bd) (bd_draw bd) (bd_times bd).

(** What happens during one attempt to deploy. *)
Record Attempt := mkAttempt {
  at_bidding : Bidding;
  at_convert : string → BidV1 → option Bid;      (* the bid a promise becomes *)
  at_commits : string → string → bool;
  at_allocates : string → gmap string AllocationDeploymentConfig → option (gmap string Handle);
  at_reverted : string → Handle → bool;
  at_network : Network
}.

(** Promises are turned into bids; the new bid is taken as it is. *)
Fixpoint convertPromises (convert : string → BidV1 → option Bid) (l : list (string * BidV1))
    (candidate : gmap string BidV1) : outcome orch_error (gmap string BidV1) :=
  match l with
  | [] => Ok candidate
  | (key, v) :: l =>
      if negb (bid_PromiseBid v) then convertPromises convert l candidate
      else match convert key v with
      | None => Err ErrPromise
      | Some b =>
          match bid_V1 b with
          | None => Panic
          | Some v => convertPromises convert l (<[key := v]> candidate)
          end
      end
  end.

(** The resources are looked up by the identifier of the allocation, where the
    configuration has its name. *)
Definition deployedInfo (o : Orchestrator) (key : string) (a : AllocationManifest) : AllocationInfo :=
  mkAllocationInfo (amf_ID a) (amf_Status a) 0
    (negb (length (hc_Exec (amf_Healthcheck a)) =? 0)%nat && bool_decide (hc_Type (amf_Healthcheck a) ≠ ""))
    "" (acfg_Resources (default AllocationConfig_zero (cfg_Allocation (o_cfg o) (amf_ID a)))) (amf_DNSName a)
    (default "" (sn_IndexRoutingTable (o_subnet o) !! key)).

Definition recordAllocations (o : Orchestrator) : Orchestrator :=
  with_allocs o
    (fold_left (λ m '(key, a), <[amf_ID a := deployedInfo o key a]> m)
       (visit (map_to_list (mf_Allocations (o_manifest o)))) (o_allocs o)).

Inductive attempt_result :=
| Retry
| Deployed
| Stopped (e : orch_error)
| Crashed.

(** One attempt.  [partial] is the manifest to start from, shared with the orchestrator
    when it is [None]. *)
Definition attempt (cfg : EnsembleConfigV1) (at_ : Attempt) (o : Orchestrator) (partial : option EnsembleManifest)
    : attempt_result * Orchestrator * option EnsembleManifest :=
  let o := with_candidates (orch_setStatus DeploymentStatusPreparing o) ∅ in
  match runBid (at_bidding at_) cfg (o_id o) ∅ with
  | Panic => (Crashed, o, partial)
  | Err ErrCandidateNotFound => (Retry, o, partial)
  | Err e => (Stopped (ErrBidding e), o, partial)
  | Ok candidate =>
      match convertPromises (at_convert at_) (visit (map_to_list candidate)) candidate with
      | Panic => (Crashed, o, partial)
      | Err e => (Stopped e, o, partial)
      | Ok candidate =>
          let o := orch_setStatus DeploymentStatusCommitting (with_candidates o candidate) in
          let start := default (o_manifest o) partial in
          match commit (o_id o) (at_commits at_) (at_allocates at_) cfg start candidate with
          | (mf, Some _, _) => (Retry, revertNodes (at_reverted at_) cfg (mf_Nodes mf) o, partial)
          | (mf, None, _) =>
              let o := orch_setStatus DeploymentStatusProvisioning (updateManifest mf o) in
              match Provision (at_network at_) o cfg mf with
              | (Panic, sn) => (Crashed, with_subnet o sn, Some start)
              | (Err _, sn) => (Retry, revert (at_reverted at_) cfg mf (with_subnet o sn), Some start)
              | (Ok mf, sn) =>
                  let o := updateManifest mf (with_subnet o sn) in
                  (Deployed, recordAllocations (orch_setStatus DeploymentStatusRunning o), Some start)
              end
          end
      end
  end.

(** Attempts until one deploys; the list ends with the deadline. *)
Fixpoint deploy (cfg : EnsembleConfigV1) (attempts : list Attempt) (o : Orchestrator) (partial : option EnsembleManifest)
    : outcome orch_error () * Orchestrator :=
  match attempts with
  | [] => (Err ErrDeploymentFailed, o)
  | a :: attempts =>
      match attempt cfg a o partial with
      | (Retry, o, partial) => deploy cfg attempts o partial
      | (Deployed, o, _) => (Ok tt, o)
      | (Stopped e, o, _) => (Err e, o)
      | (Crashed, o, _) => (Panic, o)
      end
  end.

(** [grants] says whether an allocation could be granted its capabilities. *)
Definition Deploy (grants : DID → bool) (attempts : list Attempt) (o : Orchestrator) : outcome orch_error () * Orchestrator :=
  let failed o := if bool_decide (o_status o = DeploymentStatusRunning) then o else orch_setStatus DeploymentStatusFailed o in
  let o := orch_setStatus DeploymentStatusPreparing o in
  let o := with_manifest o (newManifest (o_id o) (o_handle o) (o_cfg o)) in
  match deploy (o_cfg o) attempts o None with
  | (Ok _, o) =>
      if negb (forallb (λ kv, grants (Handle_DID (amf_Handle kv.2))) (visit (map_to_list (mf_Allocations (o_manifest o)))))
      then (Err ErrGrantFailed, failed o)
      else
        let events := map (λ c, ("start", c)) (visit (map snd (map_to_list (o_contracts o)))) in
        (Ok tt, failed (with_events o (o_events o ++ events)))
  | (r, o) => (r, failed o)
  end.

(** ** Shutting down *)

(** [stops id] says whether an allocation confirmed that it stopped. *)
Definition Shutdown (stops : string → bool) (o : Orchestrator) : Orchestrator :=
  if bool_decide (o_status o = DeploymentStatusCompleted) || bool_decide (o_status o = DeploymentStatusShuttingDown) then o
  else
    let o := orch_setStatus DeploymentStatusShuttingDown o in
    let allocations := (λ a, if stops (amf_ID a) then set_amf_Status a AllocationCompleted else a) <$> mf_Allocations (o_manifest o) in
    let o := with_manifest o (set_mf_allocations (o_manifest o) allocations) in
    let o := with_stopped (orch_setStatus DeploymentStatusCompleted o) true in
    let events := map (λ c, ("stop", c)) (visit (map snd (map_to_list (o_contracts o)))) in
    UpdateAllocationStatus (with_events o (o_events o ++ events)).

(** Ensembles of tasks end when none of them runs any more. *)
Definition isOnlyTaskManifest (m : EnsembleManifest) : bool :=
  forallb (λ kv, bool_decide (amf_Type kv.2 = AllocationTypeTask)) (map_to_list (mf_Allocations m)).

(** One tick of the monitor, which is started when the manifest has only tasks. *)
Definition monitorTick (o : Orchestrator) : Orchestrator :=
  if o_stopped o then o
  else if forallb (IsTerminatedTask (o_manifest o)) (map fst (map_to_list (mf_Allocations (o_manifest o))))
  then with_stopped (orch_setStatus DeploymentStatusCompleted o) true
  else o.

(** ** Notifications *)

(** A status an allocation or the supervisor reports, by its full identifier. *)
Definition allocationStatus (o : Orchestrator) (allocationID : string) (st : AllocationStatus) : Orchestrator :=
  match ParseAllocationID allocationID with
  | Ok aid =>
      match UpdateAllocation (o_manifest o) (ManifestKey aid) (λ a, set_amf_Status a st) with
      | Some mf => updateManifest mf o
      | None => o
      end
  | _ => o
  end.

Definition handleAllocationStatusUpdate (o : Orchestrator) (allocationID : string) (newStatus : AllocationStatus)
    : Orchestrator := allocationStatus o allocationID newStatus.

Definition handleTaskTermination (o : Orchestrator) (allocationID : string) (st : AllocationStatus) : Orchestrator :=
  allocationStatus o allocationID st.

Definition updateAllocationStatusFromSupervisor (allocationID : string) (st : AllocationStatus) (o : Orchestrator)
    : Orchestrator :=
  let o := match o_allocs o !! allocationID with
           | Some info => with_allocs o (<[allocationID := set_ai_Status info st]> (o_allocs o))
           | None => o
           end in
  allocationStatus o allocationID st.

Definition handleAllocationLiveness (o : Orchestrator) (allocationID : string) (seq : Z) (st : AllocationStatus)
    (healthy : bool) (message : string) : Orchestrator :=
  match o_allocs o !! allocationID with
  | None => o
  | Some i =>
      let health := if ai_HasHealthCheck i then if healthy then "Healthy" else "Unhealthy: " +:+ message else ai_Health i in
      with_allocs o (<[allocationID := mkAllocationInfo (ai_AllocationID i) st seq (ai_HasHealthCheck i) health
                                         (ai_ResourceLimit i) (ai_DNSName i) (ai_IP i)]> (o_allocs o))
  end.

(** Whether a provider's view of its allocations is confirmed: it runs a node with exactly
    these, in this order. *)
Definition handleDeploymentState (o : Orchestrator) (from : Handle) (ensembleID : string) (names : list string) : bool :=
  if bool_decide (ensembleID ≠ o_id o) then false
  else existsb (λ nmf, Handle_Equal (nmf_Handle nmf) from && bool_decide (names = nmf_Allocations nmf))
         (visit (map snd (map_to_list (mf_Nodes (o_manifest o))))).

End orchestrator.
