(* ===== verification/OrchestratorProps.v ===== *)
(** * The orchestrator: properties

    The two phases of a commit, and what a failed commit does to the attempts after it. *)

From S2P Require Import Prelude GoStrings GoNumbers AllocationID Key Envelope.
From S2P Require Import Hardware ResourceManager Allocation Ensemble IPNet Subnet DependencyOrder.
From S2P Require Import BidCoordinator BidProps CandidateProps Committer Orchestrator.

Section commit.
  Context `{Visit : MapVisit} `{NodeGen : NodeIDGenerator} `{AllocGen : AllocationIDGenerator}.
  Context (eid : string) (commits : string → string → bool).
  Context (allocates : string → gmap string AllocationDeploymentConfig → option (gmap string Handle)).

(** ** The first phase *)

Definition is_commit (m : commit_message) : Prop := match m with CommitMessage _ _ => True | _ => False end.
Definition is_allocate (m : commit_message) : Prop := match m with AllocateMessage _ _ _ => True | _ => False end.

(** The node was asked, at this handle, to commit the resources of each of its allocations
    under its full identifier, and confirmed each. *)
Definition node_committed cfg (sent : list commit_message) (n : string) (h : Handle) : Prop :=
  ∃ ncfg, nodeConfigFor cfg n = Some ncfg ∧
    ∀ a, a ∈ node_Allocations ncfg → ∃ acfg r, cfg_Allocation cfg a = Some acfg ∧
      GenerateFullAllocationID eid n a = Ok (cr_AllocationName r) ∧ cr_EnsembleID r = eid ∧ cr_NodeID r = n ∧
      cr_Resources r = acfg_Resources acfg ∧ CommitMessage h r ∈ sent ∧ commits n (cr_AllocationName r) = true.

(** The node was asked to create each of its allocations, and gave a handle for each. *)
Definition node_allocated cfg (sent : list commit_message) (n : string) (h : Handle) : Prop :=
  ∃ ncfg, nodeConfigFor cfg n = Some ncfg ∧
    (node_Allocations ncfg ≠ [] → ∃ allocs handles, AllocateMessage h n allocs ∈ sent ∧ allocates n allocs = Some handles ∧
       ∀ a, a ∈ node_Allocations ncfg → ∃ id, GenerateFullAllocationID eid n a = Ok id ∧ is_Some (allocs !! id) ∧ is_Some (handles !! id)).

Lemma node_committed_mono cfg sent sent' n h : sent ⊆ sent' → node_committed cfg sent n h → node_committed cfg sent' n h.
Proof. intros Hs (ncfg & Hn & Ha). exists ncfg. split; [done|]. intros a (acfg & r & Hr)%Ha. exists acfg, r. set_solver. Qed.

Lemma node_allocated_mono cfg sent sent' n h : sent ⊆ sent' → node_allocated cfg sent n h → node_allocated cfg sent' n h.
Proof.
  intros Hs (ncfg & Hn & Ha). exists ncfg. split; [done|]. intros (allocs & hs & Hin & Hr)%Ha. exists allocs, hs. set_solver.
Qed.

Lemma commitRequest_inv cfg n ncfg a r : commitRequest eid cfg n ncfg a = Some r →
  ∃ acfg, cfg_Allocation cfg a = Some acfg ∧ GenerateFullAllocationID eid n a = Ok (cr_AllocationName r) ∧
    cr_EnsembleID r = eid ∧ cr_NodeID r = n ∧ cr_Resources r = acfg_Resources acfg.
Proof.
  unfold commitRequest. destruct (cfg_Allocation cfg a) as [acfg|]; [|done].
  destruct (GenerateFullAllocationID eid n a); [|done..]. intros [= <-]. by exists acfg.
Qed.

Lemma commitDeployment_spec cfg n h done msgs :
  commitDeployment eid commits cfg n h = (done, msgs) →
  Forall is_commit msgs ∧ (done = true → node_committed cfg msgs n h).
Proof.
  unfold commitDeployment. destruct (nodeConfigFor cfg n) as [ncfg|] eqn:Hn; [|by intros [= <- <-]].
  intros [= <- <-]. split.
  - apply Forall_forall. intros m (r & _ & Hr)%list_elem_of_omap. by destruct r; simplify_eq/=.
  - rewrite forallb_forall. intros Hall. exists ncfg. split; [done|]. intros a Ha.
    specialize (Hall (commitRequest eid cfg n ncfg a)). destruct (commitRequest eid cfg n ncfg a) as [r|] eqn:Hq.
    2: { discriminate Hall. rewrite <- Hq. by apply in_map, list_elem_of_In. }
    destruct (commitRequest_inv _ _ _ _ _ Hq) as (acfg & H1 & H2 & H3 & H4 & H5). exists acfg, r. split_and!; try done.
    + apply list_elem_of_omap. exists (Some r). split; [|done]. rewrite <- Hq. by apply list_elem_of_fmap_2.
    + apply Hall. rewrite <- Hq. by apply in_map, list_elem_of_In.
Qed.

(** Where the first phase ends well, every node has committed and is in the manifest. *)
Lemma commitNodes_spec cfg l ok nodes sent ok' nodes' sent' :
  fold_left (commitNode eid commits cfg) l (ok, nodes, sent) = (ok', nodes', sent') →
  (∃ msgs, sent' = sent ++ msgs ∧ Forall is_commit msgs) ∧ dom nodes' = dom nodes ∧
  (ok' = true → ok = true ∧ Forall (λ nb, is_Some (nodes !! nb.1) ∧ node_committed cfg sent' nb.1 (bid_Handle nb.2)) l).
Proof.
  revert ok nodes sent. induction l as [|[n b] l IH]; simpl; intros ok nodes sent Hf.
  { simplify_eq. split; [exists []; by rewrite app_nil_r|]. auto. }
  destruct (commitDeployment eid commits cfg n (bid_Handle b)) as [dn msgs] eqn:Ec.
  apply commitDeployment_spec in Ec as [Hm Hd].
  assert (Hext : ∀ m2, Forall is_commit m2 → ∃ msgs', (sent ++ msgs) ++ m2 = sent ++ msgs' ∧ Forall is_commit msgs').
  { intros m2 H2. exists (msgs ++ m2). rewrite (assoc_L (++)). split; [done|]. by apply Forall_app. }
  unfold updateNodeManifest in Hf. destruct dn; cbn [negb] in Hf.
  2: { apply IH in Hf as ((m2 & -> & H1) & H2 & H3). split; [by apply Hext|]. split; [done|]. by intros [? _]%H3. }
  destruct (nodes !! n) as [nm|] eqn:En.
  2: { apply IH in Hf as ((m2 & -> & H1) & H2 & H3). split; [by apply Hext|]. split; [done|]. by intros [? _]%H3. }
  apply IH in Hf as ((m2 & -> & H1) & H2 & H3). split; [by apply Hext|].
  split; [rewrite H2; apply dom_insert_lookup_L; by rewrite En|]. intros Hok. destruct (H3 Hok) as (-> & H4). split; [done|].
  constructor; [simpl; split; [by rewrite En|]|].
  - eapply node_committed_mono; [|by apply Hd]. set_solver.
  - eapply Forall_impl; [exact H4|]. intros [n' b'] [Hx ?]. simpl in *. split; [|done].
    by apply lookup_insert_is_Some' in Hx as [<-|?]; [rewrite En|].
Qed.

(** A node that is not in the manifest makes the commit fail. *)
Lemma commit_missing_node cfg mf candidate n b :
  candidate !! n = Some b → mf_Nodes mf !! n = None →
  (commit eid commits allocates cfg mf candidate).1.2 = Some ErrCommitFailed.
Proof.
  intros Hc Hn. unfold commit.
  destruct (fold_left (commitNode eid commits cfg) _ _) as [[ok nodes] sent] eqn:Ef.
  apply commitNodes_spec in Ef as (_ & _ & Hok).
  destruct ok; [|done]. exfalso. destruct (Hok eq_refl) as (_ & Hall).
  rewrite Forall_forall in Hall. specialize (Hall (n, b)). simpl in Hall. rewrite Hn in Hall.
  destruct Hall as [[? ?] _]; [|done]. rewrite visit_perm. by apply elem_of_map_to_list.
Qed.

(** ** The second phase *)

Lemma allocationRequests_spec cfg n names allocs allocs' :
  allocationRequests eid cfg n names allocs = Some allocs' →
  dom allocs ⊆ dom allocs' ∧ ∀ a, a ∈ names → ∃ id, GenerateFullAllocationID eid n a = Ok id ∧ is_Some (allocs' !! id).
Proof.
  revert allocs. induction names as [|a names IH]; simpl; intros allocs; [by intros [= <-]; split; [|intros a ?%elem_of_nil]|].
  destruct (GenerateFullAllocationID eid n a) as [id| |] eqn:Hg; [|done..]. intros [Hd Ha]%IH. rewrite dom_insert_L in Hd.
  split; [set_solver|]. intros x [->|Hx]%elem_of_cons; [|by apply Ha]. exists id. split; [done|]. apply elem_of_dom. set_solver.
Qed.

Lemma allocate_spec cfg n h r msgs :
  allocate eid allocates cfg n h = (r, msgs) →
  Forall is_allocate msgs ∧ (is_Some r → node_allocated cfg msgs n h).
Proof.
  unfold allocate. destruct (nodeConfigFor cfg n) as [ncfg|] eqn:Hn; [|by intros [= <- <-]; split; [|intros []]].
  destruct (length (node_Allocations ncfg) =? 0)%nat eqn:Hl.
  { intros [= <- <-]. split; [done|]. intros _. exists ncfg. split; [done|]. apply Nat.eqb_eq, nil_length_inv in Hl. by rewrite Hl. }
  destruct (allocationRequests _ _ _ _ _) as [allocs|] eqn:Hr; [|by intros [= <- <-]; split; [|intros []]].
  intros [= <- <-]. split; [by constructor|]. apply allocationRequests_spec in Hr as [_ Hr].
  destruct (allocates n allocs) as [hs|] eqn:Ha; [|by intros []]. case_bool_decide as Hdom; [|by intros []]. intros _.
  exists ncfg. split; [done|]. intros _. exists allocs, hs. split_and!; [set_solver|done|].
  intros a (id & Hid & Hsome)%Hr. exists id. split_and!; [done|done|]. apply elem_of_dom, Hdom. by apply elem_of_dom.
Qed.

Lemma allocateNodes_spec cfg l ok hs sent ok' hs' sent' :
  fold_left (allocateNode eid allocates cfg) l (ok, hs, sent) = (ok', hs', sent') →
  (∃ msgs, sent' = sent ++ msgs ∧ Forall is_allocate msgs) ∧
  (ok' = true → Forall (λ nb, node_allocated cfg sent' nb.1 (bid_Handle nb.2)) l).
Proof.
  revert ok hs sent. induction l as [|[n b] l IH]; simpl; intros ok hs sent Hf.
  { simplify_eq. split; [exists []; by rewrite app_nil_r|]. auto. }
  destruct (allocate eid allocates cfg n (bid_Handle b)) as [r msgs] eqn:Ea. apply allocate_spec in Ea as [Hm Hd].
  assert (Hext : ∀ m2, Forall is_allocate m2 → ∃ msgs', (sent ++ msgs) ++ m2 = sent ++ msgs' ∧ Forall is_allocate msgs').
  { intros m2 H2. exists (msgs ++ m2). rewrite (assoc_L (++)). split; [done|]. by apply Forall_app. }
  destruct r as [allocated|].
  - apply IH in Hf as ((m2 & -> & H1) & H2). split; [by apply Hext|]. intros Hok. constructor; [|by apply H2].
    eapply node_allocated_mono; [|by apply Hd]. set_solver.
  - assert (Hfalse : ∀ l hs sent ok' hs' sent', fold_left (allocateNode eid allocates cfg) l (false, hs, sent) = (ok', hs', sent') → ok' = false).
    { clear. induction l as [|[n b] l IH]; simpl; intros hs sent ok' hs' sent'; [by intros [= <- _ _]|].
      by destruct (allocate _ _ _ _ _) as [[]]; intros ?%IH. }
    pose proof (Hfalse _ _ _ _ _ _ Hf) as ->. apply IH in Hf as ((m2 & -> & H1) & _). split; [by apply Hext|done].
Qed.

(** C9: the two phases of a deployment.  The messages that ask for commitments all come before
    those that ask for allocations.  When any node is asked to create allocations, or the
    commit succeeds, then every node of the candidate is in the manifest and was asked to
    commit the resources of every one of its allocations, under the full identifier of the
    allocation, and confirmed each; and when the commit succeeds every node of the candidate
    that has allocations was asked to create all of them and returned a handle for each. *)
Theorem commit_two_phases cfg manifest candidate mf err sent :
  commit eid commits allocates cfg manifest candidate = (mf, err, sent) →
  (∃ first second, sent = first ++ second ∧ Forall is_commit first ∧ Forall is_allocate second) ∧
  ((∃ h n allocs, AllocateMessage h n allocs ∈ sent) ∨ err = None →
   ∀ n b, candidate !! n = Some b → n ∈ dom (mf_Nodes manifest) ∧ node_committed cfg sent n (bid_Handle b)) ∧
  (err = None → ∀ n b, candidate !! n = Some b → node_allocated cfg sent n (bid_Handle b)).
Proof.
  unfold commit. destruct (fold_left (commitNode eid commits cfg) _ _) as [[ok nodes] sent1] eqn:E1.
  apply commitNodes_spec in E1 as ((first & -> & Hc) & _ & Hok). rewrite app_nil_l in *.
  destruct ok; cbn [negb].
  2: { intros [= <- <- <-]. split; [exists first, []; by rewrite app_nil_r|]. split; [|done].
       intros [(h & n & allocs & Hin)|]; [|done]. rewrite Forall_forall in Hc. by apply Hc in Hin. }
  destruct (Hok eq_refl) as (_ & Hall). clear Hok.
  assert (Hin : ∀ n b, candidate !! n = Some b → (n, b) ∈ visit (map_to_list candidate)).
  { intros n b Hb. rewrite visit_perm. by apply elem_of_map_to_list. }
  destruct (fold_left (allocateNode eid allocates cfg) _ _) as [[ok2 handles] sent2] eqn:E2.
  apply allocateNodes_spec in E2 as ((second & -> & Ha) & Hok2).
  assert (Hphase1 : ∀ n b, candidate !! n = Some b → n ∈ dom (mf_Nodes manifest) ∧ node_committed cfg (first ++ second) n (bid_Handle b)).
  { intros n b Hb. rewrite Forall_forall in Hall. destruct (Hall _ (Hin _ _ Hb)) as [H1 H2]. cbn in H1, H2. split; [by apply elem_of_dom|].
    eapply node_committed_mono; [|exact H2]. set_solver. }
  destruct ok2; cbn [negb].
  - specialize (Hok2 eq_refl). rewrite Forall_forall in Hok2.
    destruct (fold_left _ _ (∅, ∅)). intros [= <- <- <-]. split; [by exists first, second|]. split; [done|].
    intros _ n b Hb. by apply (Hok2 (n, b)), Hin.
  - intros [= <- <- <-]. split; [by exists first, second|]. done.
Qed.
End commit.

(** ** Attempts after a failed commit *)

Section attempts.
  Context `{Visit : MapVisit} `{NodeGen : NodeIDGenerator} `{AllocGen : AllocationIDGenerator} `{Bids : BidLib}.

Lemma convertPromises_keys convert l candidate candidate' n :
  convertPromises convert l candidate = Ok candidate' → is_Some (candidate !! n) → is_Some (candidate' !! n).
Proof.
  revert candidate. induction l as [|[key v] l IH]; simpl; intros candidate Hc Hn; [by simplify_eq|].
  destruct (bid_PromiseBid v); cbn [negb] in Hc; [|by eapply IH].
  destruct (convert key v) as [b|]; [|done]. destruct (bid_V1 b); [|done].
  eapply IH; [exact Hc|]. rewrite lookup_insert_is_Some'. auto.
Qed.

Lemma removeNode_missing name mf sn n :
  mf_Nodes mf !! n = None → mf_Nodes (removeNodeFromManifest name mf sn).1 !! n = None.
Proof.
  intros Hn. unfold removeNodeFromManifest. destruct (mf_Nodes mf !! name); [|done]. simpl.
  apply lookup_delete_None. auto.
Qed.

Lemma revertNode_missing reverted cfg o name h n :
  mf_Nodes (o_manifest o) !! n = None → mf_Nodes (o_manifest (revertNodeDeployment reverted cfg o name h)) !! n = None.
Proof.
  intros Hn. unfold revertNodeDeployment. destruct (Node cfg name); [|done]. destruct (reverted name h); [|done].
  pose proof (removeNode_missing name (o_manifest o) (o_subnet o) n Hn).
  by destruct (removeNodeFromManifest _ _ _).
Qed.

(** Reverting takes a node that confirmed out of the manifest. *)
Lemma revertNodes_removes reverted cfg nodes o n nmf :
  nodes !! n = Some nmf → is_Some (Node cfg n) → reverted n (nmf_Handle nmf) = true →
  mf_Nodes (o_manifest (revertNodes reverted cfg nodes o)) !! n = None.
Proof.
  intros Hn Hcfg Hr. unfold revertNodes.
  assert (Hin : (n, nmf) ∈ visit (map_to_list nodes)) by (rewrite visit_perm; by apply elem_of_map_to_list).
  assert (Hstay : ∀ l o, mf_Nodes (o_manifest o) !! n = None →
    mf_Nodes (o_manifest (fold_left (λ o '(n, nmf), revertNodeDeployment reverted cfg o n (nmf_Handle nmf)) l o)) !! n = None).
  { induction l as [|[m x] l IH]; simpl; intros o' Ho; [done|]. apply IH. by apply revertNode_missing. }
  revert o. induction (visit (map_to_list nodes)) as [|[m x] l IH]; intros o; [by apply elem_of_nil in Hin|].
  simpl. apply elem_of_cons in Hin as [[= <- <-]|Hin]; [|by apply IH].
  apply Hstay. unfold revertNodeDeployment. destruct Hcfg as [c Hcfg]. rewrite Hcfg, Hr.
  unfold removeNodeFromManifest. destruct (mf_Nodes (o_manifest o) !! n) eqn:E; simpl; [by rewrite lookup_delete_eq|done].
Qed.

Lemma revertNodes_missing reverted cfg nodes o n :
  mf_Nodes (o_manifest o) !! n = None → mf_Nodes (o_manifest (revertNodes reverted cfg nodes o)) !! n = None.
Proof.
  unfold revertNodes. generalize (visit (map_to_list nodes)). intros l. revert o.
  induction l as [|[m x] l IH]; simpl; intros o Ho; [done|]. apply IH. by apply revertNode_missing.
Qed.

Lemma revertNodes_id reverted cfg nodes o : o_id (revertNodes reverted cfg nodes o) = o_id o.
Proof.
  unfold revertNodes. generalize (visit (map_to_list nodes)). intros l. revert o.
  induction l as [|[m x] l IH]; simpl; intros o; [done|]. rewrite IH. unfold revertNodeDeployment.
  destruct (Node cfg m); [|done]. destruct (reverted _ _); [|done]. by destruct (removeNodeFromManifest _ _ _).
Qed.

(** An attempt that starts from the shared manifest without a node it needs. *)
Lemma attempt_without_node cfg a o n :
  mf_Nodes (o_manifest o) !! n = None →
  (∀ c, runBid (at_bidding a) cfg (o_id o) ∅ = Ok c → is_Some (c !! n)) →
  let '(r, o', partial) := attempt cfg a o None in
  r ≠ Deployed ∧ (r = Retry → mf_Nodes (o_manifest o') !! n = None ∧ partial = None ∧ o_id o' = o_id o).
Proof.
  intros Hn Hb. unfold attempt. cbn [o_id with_candidates orch_setStatus].
  destruct (runBid _ _ _ _) as [c|[]|] eqn:Er; try (split; [done|]; by intros).
  destruct (Hb c eq_refl) as [b Hcn].
  destruct (convertPromises _ _ _) as [c'|e|] eqn:Ep; try (split; [done|]; by intros).
  destruct (convertPromises_keys _ _ _ _ n Ep) as [b' Hb']; [by rewrite Hcn|].
  cbn [default]. set (o1 := orch_setStatus DeploymentStatusCommitting _).
  pose proof (commit_missing_node (o_id o1) (at_commits a) (at_allocates a) cfg (o_manifest o1) c' n b' Hb' Hn) as Hc.
  destruct (commit _ _ _ _ _ _) as [[mf err] sent]. simpl in Hc. subst err.
  split; [done|]. intros _. split; [by apply revertNodes_missing|]. split; [done|]. by rewrite revertNodes_id.
Qed.

Lemma deploy_without_node cfg attempts o n :
  mf_Nodes (o_manifest o) !! n = None →
  Forall (λ a, ∀ c, runBid (at_bidding a) cfg (o_id o) ∅ = Ok c → is_Some (c !! n)) attempts →
  (deploy cfg attempts o None).1 ≠ Ok tt.
Proof.
  intros Hn Hall. revert o Hn Hall. induction attempts as [|a attempts IH]; intros o Hn Hall; [done|]. simpl.
  apply Forall_cons in Hall as [Ha Hall]. pose proof (attempt_without_node cfg a o n Hn Ha) as Hat.
  destruct (attempt cfg a o None) as [[r o'] partial]. destruct Hat as [Hr Hretry].
  destruct r; try done. destruct (Hretry eq_refl) as (Hn' & -> & Hid). apply IH; [done|]. by rewrite Hid.
Qed.

(** A deployment whose first commit fails never succeeds: the manifest it starts from is
    the orchestrator's own, and reverting a node that did commit deletes the node from it;
    the attempts until the deadline that again bid for that node all fail to commit. *)
Theorem failed_commit_is_final cfg a attempts o candidate candidate' mf e sent n nmf :
  runBid (at_bidding a) cfg (o_id o) ∅ = Ok candidate →
  convertPromises (at_convert a) (visit (map_to_list candidate)) candidate = Ok candidate' →
  commit (o_id o) (at_commits a) (at_allocates a) cfg (o_manifest o) candidate' = (mf, Some e, sent) →
  mf_Nodes mf !! n = Some nmf → is_Some (Node cfg n) → at_reverted a n (nmf_Handle nmf) = true →
  Forall (λ a, ∀ c, runBid (at_bidding a) cfg (o_id o) ∅ = Ok c → is_Some (c !! n)) attempts →
  (deploy cfg (a :: attempts) o None).1 ≠ Ok tt.
Proof.
  intros Hb Hp Hc Hn Hcfg Hr Hall. cbn [deploy]. unfold attempt.
  cbn [o_id with_candidates orch_setStatus]. rewrite Hb, Hp.
  cbn [default o_id o_manifest with_candidates orch_setStatus]. rewrite Hc.
  apply (deploy_without_node _ _ _ n); [by eapply revertNodes_removes|].
  by rewrite revertNodes_id.
Qed.
End attempts.

(** ** Samples *)

#[local] Existing Instance bid_visit.
#[local] Existing Instance sample_BidLib.

Definition web_node : NodeConfig :=
  mkNodeConfig ["web"] [] (mkLocationConstraints [sample_place] []) "" 0 "".
Definition web_config : AllocationConfig :=
  mkAllocationConfig ExecutorNull AllocationTypeService Resources_zero "" "web" [] [] HealthCheckManifest_zero [] "" [].
Definition web_ensemble : EnsembleConfigV1 :=
  mkConfig "" {["web" := web_config]} (list_to_map [("a", web_node); ("b", web_node)]) [] (mkSupervisor "" [] [])
    [] false ∅ ∅ ∅ ∅.

Definition sample_bidding : Bidding :=
  mkBidding (λ _, Some false) sample_rtt (λ _ _ _, true) true
    (map (λ b, mkBid (Some b)) [sample_bidder "a" "p1"; sample_bidder "b" "p2"]) id [sample_round] (λ n, n) 10.

Definition good_network : Network :=
  mkNetwork (λ _, true) true (λ _, true) (λ _, true) (λ _, true) (λ _, Started) Handle_zero.

(** An attempt in which the nodes of [committing] commit and create what they are asked. *)
Definition sample_attempt (committing : list string) : Attempt :=
  mkAttempt sample_bidding (λ _ _, None) (λ n _, bool_decide (n ∈ committing)) (λ _ req, Some ((λ _, Handle_zero) <$> req))
    (λ n _, bool_decide (n ∈ committing)) good_network.

Definition sample_orchestrator : Orchestrator :=
  mkOrchestrator "e1" Handle_zero web_ensemble (newManifest "e1" Handle_zero web_ensemble)
    (match newSubnetManifest [mkIP 10 1 2 3] with Some (Ok sn) => sn | _ => mkSubnet "" "" "" ∅ ∅ ∅ ∅ end)
    DeploymentStatusPreparing ∅ ∅ ∅ false [] [].

(** Alone, the second attempt would have deployed. *)
Lemma failed_commit_is_final_witness :
  (deploy web_ensemble [sample_attempt ["a"; "b"]] sample_orchestrator None).1 = Ok tt ∧
  (deploy web_ensemble [sample_attempt ["a"]; sample_attempt ["a"; "b"]] sample_orchestrator None).1 ≠ Ok tt.
Proof.
  split; [vm_compute; reflexivity|].
  pose (c := list_to_map (M := gmap string BidV1) [("a", sample_bidder "a" "p1"); ("b", sample_bidder "b" "p2")]).
  assert (Hb : ∀ l, runBid (at_bidding (sample_attempt l)) web_ensemble "e1" ∅ = Ok c) by (intros l; vm_compute; reflexivity).
  destruct (commit "e1" (at_commits (sample_attempt ["a"])) (at_allocates (sample_attempt ["a"])) web_ensemble
              (o_manifest sample_orchestrator) c) as [[mf err] sent] eqn:Ec.
  assert (Hr : err = Some ErrCommitFailed ∧ is_Some (mf_Nodes mf !! "a")).
  { vm_compute in Ec. injection Ec as <- <- _. split; [reflexivity|]. eexists. vm_compute. reflexivity. }
  destruct Hr as [-> [nmf Hn]].
  apply (failed_commit_is_final web_ensemble (sample_attempt ["a"]) [sample_attempt ["a"; "b"]] sample_orchestrator
           c c mf ErrCommitFailed sent "a" nmf).
  - apply Hb.
  - vm_compute. reflexivity.
  - exact Ec.
  - exact Hn.
  - eexists. vm_compute. reflexivity.
  - vm_compute. reflexivity.
  - constructor; [|constructor]. intros c' Hc'. change (o_id sample_orchestrator) with "e1" in Hc'. rewrite Hb in Hc'.
    injection Hc' as <-. eexists. vm_compute. reflexivity.
Defined.

Lemma commit_two_phases_witness :
  let c : gmap string BidV1 := {["a" := sample_bidder "a" "p1"]} in
  let r := commit "e1" (λ _ _, true) (λ _ req, Some ((λ _, Handle_zero) <$> req)) web_ensemble
             (newManifest "e1" Handle_zero web_ensemble) c in
  length r.2 = 2%nat ∧ node_committed "e1" (λ _ _, true) web_ensemble r.2 "a" (bid_Handle (sample_bidder "a" "p1")) ∧
  node_allocated "e1" (λ _ req, Some ((λ _, Handle_zero) <$> req)) web_ensemble r.2 "a" (bid_Handle (sample_bidder "a" "p1")).
Proof.
  cbv zeta. destruct (commit _ _ _ _ _ _) as [[mf err] sent] eqn:Ec.
  assert (He : err = None ∧ length sent = 2%nat) by (vm_compute in Ec; injection Ec as _ <- <-; split; reflexivity).
  split; [apply He|].
  destruct (commit_two_phases "e1" (λ _ _, true) _ _ _ _ mf err sent Ec) as (_ & H1 & H2). split.
  - apply H1; [right; apply He|apply lookup_singleton_eq].
  - apply H2; [apply He|apply lookup_singleton_eq].
Defined.

(** The limits of a deployed allocation are looked up by its identifier and are empty. *)
Example deployed_limits_empty :
  let big := mkResources (res_CPU Resources_zero) [] (mkRAM 1024 0) (res_Disk Resources_zero) in
  let cfg := set_cfg_allocations web_ensemble
    {["web" := mkAllocationConfig ExecutorNull AllocationTypeService big "" "web" [] [] HealthCheckManifest_zero [] "" []]} in
  let o := (deploy cfg [sample_attempt ["a"; "b"]]
              (mkOrchestrator "e1" Handle_zero cfg (newManifest "e1" Handle_zero cfg) (o_subnet sample_orchestrator)
                 DeploymentStatusPreparing ∅ ∅ ∅ false [] []) None).2 in
  (ai_ResourceLimit <$> o_allocs o !! "e1_a.web") = Some Resources_zero.
Proof. vm_compute. reflexivity. Qed.
