(* ===== verification/Supervisor.v ===== *)
(** * Supervision of a deployment (dms/orchestrator/supervisor.go)

    The supervisor of an orchestrator registers health checks with the allocations,
    performs them, counts failures and asks for restarts.  The answers of the
    allocations are arguments; what the orchestrator is told is listed. *)

From S2P Require Import Prelude GoStrings GoNumbers AllocationID Key Envelope.
From S2P Require Import Hardware ResourceManager Allocation Ensemble.

Record Supervisor := mkSupervisorState {
  sv_manifest : EnsembleManifest;
  sv_registered : gset string;             (* registeredHealthChecks *)
  sv_failures : gmap string Z;
  sv_escalations : gmap string Z
}.

Definition with_registered s v := mkSupervisorState (sv_manifest s) v (sv_failures s) (sv_escalations s).
Definition with_failures s v := mkSupervisorState (sv_manifest s) (sv_registered s) v (sv_escalations s).
Definition with_sv_manifest s v := mkSupervisorState v (sv_registered s) (sv_failures s) (sv_escalations s).

Definition NewSupervisor (id : string) : Supervisor :=
  mkSupervisorState (mkManifest id ∅ Handle_zero ∅ ∅ false ∅) ∅ ∅ ∅.

Section supervisor.
  Context `{Visit : MapVisit}.

(** ** Registration *)

(** [registers id] says whether the allocation accepted the health check. *)
Definition registerHealthCheck (registers : string → bool) (a : AllocationManifest) (s : Supervisor) : Supervisor :=
  if registers (amf_ID a) then with_registered s ({[amf_ID a]} ∪ sv_registered s) else s.

Definition unregisterHealthCheck (allocationID : string) (s : Supervisor) : Supervisor :=
  with_registered s (sv_registered s ∖ {[allocationID]}).

(** The registration phase; the loop of health checks follows. *)
Definition Supervise (registers : string → bool) (mf : EnsembleManifest) (s : Supervisor) : Supervisor :=
  let s := fold_left (λ s a, if bool_decide (hc_Type (amf_Healthcheck a) = "") then s else registerHealthCheck registers a s)
             (visit (map snd (map_to_list (mf_Allocations mf)))) s in
  with_sv_manifest s mf.

(** A new manifest.  The health check of an allocation the old manifest has is
    unregistered, the others are registered. *)
Definition updateOne (registers : string → bool) (s : Supervisor) (a : AllocationManifest) : Supervisor :=
  if bool_decide (hc_Type (amf_Healthcheck a) = "") then s
  else match mf_Allocations (sv_manifest s) !! AllocationNameFromID (amf_ID a) with
  | None => registerHealthCheck registers a s
  | Some _ => unregisterHealthCheck (amf_ID a) s
  end.

Definition Update (registers : string → bool) (mf : EnsembleManifest) (s : Supervisor) : Supervisor :=
  with_sv_manifest (fold_left (updateOne registers) (visit (map snd (map_to_list (mf_Allocations mf)))) s) mf.

(** ** Health checks *)

Inductive check_answer :=
| CheckOK
| CheckFailed
| CheckTimeout     (* no answer in time *)
| CheckBroken.     (* the message failed or the answer is not understood *)

Definition failureCount (s : Supervisor) (id : string) : Z := default 0%Z (sv_failures s !! id).

(** [restarts] says whether the allocation restarted. *)
Definition escalateFailure (restarts : bool) (id : string) (s : Supervisor) : bool * Supervisor :=
  if restarts then
    (true, mkSupervisorState (sv_manifest s) (sv_registered s) (<[id := 0%Z]> (sv_failures s))
             (<[id := (default 0 (sv_escalations s !! id) + 1)%Z]> (sv_escalations s)))
  else (false, s).

(** One more failure; the third in a row asks for a restart, which resets the count. *)
Definition countFailure (restarts : bool) (id : string) (s : Supervisor) : bool * Supervisor :=
  let n := (failureCount s id + 1)%Z in
  let s := with_failures s (<[id := n]> (sv_failures s)) in
  if (3 <=? n)%Z then
    match escalateFailure restarts id s with
    | (true, s) => (true, with_failures s (delete id (sv_failures s)))
    | (false, s) => (true, s)
    end
  else (false, s).

(** A check of one allocation: what the orchestrator is told, whether a restart was asked
    for, and the counts. *)
Definition performHealthCheck (answer : check_answer) (restarts : bool) (a : AllocationManifest) (s : Supervisor)
    : list (string * AllocationStatus) * bool * Supervisor :=
  match ParseAllocationID (amf_ID a) with
  | Ok aid =>
      if IsTerminatedTask (sv_manifest s) (ManifestKey aid) then ([], false, s)
      else match answer with
      | CheckBroken => ([], false, s)
      | CheckOK => ([(amf_ID a, AllocationRunning)], false, with_failures s (delete (amf_ID a) (sv_failures s)))
      | CheckFailed | CheckTimeout =>
          let '(asked, s) := countFailure restarts (amf_ID a) s in
          ([(amf_ID a, AllocationFailed)], asked, s)
      end
  | _ => ([], false, s)
  end.

(** One tick: every registered allocation of the manifest that has a health check. *)
Definition supervisionTick (answers : string → check_answer) (restarts : string → bool) (s : Supervisor)
    : list (string * AllocationStatus) * list string * Supervisor :=
  fold_left
    (λ '(told, asked, s) id,
       match ParseAllocationID id with
       | Ok aid =>
           match mf_Allocations (sv_manifest s) !! ManifestKey aid with
           | None => (told, asked, s)
           | Some a =>
               if bool_decide (hc_Type (amf_Healthcheck a) = "") then (told, asked, s)
               else let '(told', asked', s) := performHealthCheck (answers id) (restarts id) a s in
                    (told ++ told', if asked' then asked ++ [id] else asked, s)
           end
       | _ => (told, asked, s)
       end)
    (visit (elements (sv_registered s))) ([], [], s).

(** ** Properties *)

Lemma updateOne_manifest registers s a : sv_manifest (updateOne registers s a) = sv_manifest s.
Proof. unfold updateOne, registerHealthCheck. repeat case_match; done. Qed.

Lemma updateOne_registered registers s a id :
  id ≠ amf_ID a → id ∈ sv_registered (updateOne registers s a) ↔ id ∈ sv_registered s.
Proof.
  intros Hne. unfold updateOne, registerHealthCheck, unregisterHealthCheck.
  repeat case_match; simpl; set_solver.
Qed.

Lemma updateAll_registered registers l s id :
  id ∉ map amf_ID l → id ∈ sv_registered (fold_left (updateOne registers) l s) ↔ id ∈ sv_registered s.
Proof.
  revert s. induction l as [|a l IH]; simpl; intros s Hn; [done|].
  apply not_elem_of_cons in Hn as [Hne Hn]. rewrite IH by done. by apply updateOne_registered.
Qed.

(** An update of the manifest turns off the health checks of exactly the allocations that
    stay, and leaves on those of the allocations that are gone: the opposite of what the
    comment of the code says it does. *)
Theorem update_unregisters_kept registers mf s :
  NoDup (map amf_ID (map snd (map_to_list (mf_Allocations mf)))) →
  (∀ key a, mf_Allocations mf !! key = Some a → hc_Type (amf_Healthcheck a) ≠ "" →
     is_Some (mf_Allocations (sv_manifest s) !! AllocationNameFromID (amf_ID a)) →
     amf_ID a ∉ sv_registered (Update registers mf s)) ∧
  (∀ id, id ∈ sv_registered s → (∀ key a, mf_Allocations mf !! key = Some a → amf_ID a ≠ id) →
     id ∈ sv_registered (Update registers mf s)).
Proof.
  intros Hnd. unfold Update. simpl.
  assert (Hperm : visit (map snd (map_to_list (mf_Allocations mf))) ≡ₚ map snd (map_to_list (mf_Allocations mf))) by apply visit_perm.
  split.
  - intros key a Ha Hhc Hold.
    assert (Hin : a ∈ visit (map snd (map_to_list (mf_Allocations mf)))).
    { rewrite Hperm. apply list_elem_of_fmap. exists (key, a). split; [done|]. by apply elem_of_map_to_list. }
    assert (Hnd' : NoDup (map amf_ID (visit (map snd (map_to_list (mf_Allocations mf)))))).
    { by rewrite Hperm. }
    clear Hperm Hnd Ha. revert s Hold Hin Hnd'. generalize (visit (map snd (map_to_list (mf_Allocations mf)))).
    intros l. induction l as [|x l IH]; intros s Hold Hin Hnd; [by apply elem_of_nil in Hin|].
    simpl in Hnd. apply NoDup_cons in Hnd as [Hx Hnd]. simpl. apply elem_of_cons in Hin as [<-|Hin].
    + rewrite updateAll_registered by done. unfold updateOne. rewrite bool_decide_false by done.
      destruct Hold as [y Hy]. rewrite Hy. simpl. set_solver.
    + apply IH; auto. by rewrite updateOne_manifest.
  - intros id Hid Hgone. rewrite updateAll_registered; [done|].
    intros (a & -> & Ha)%list_elem_of_fmap. rewrite Hperm in Ha. apply list_elem_of_fmap in Ha as ([key a'] & -> & Ha).
    apply elem_of_map_to_list in Ha. by apply (Hgone key a').
Qed.

(** ** Restarts *)

(** The checks of one allocation in turn, each with whether a restart would succeed: the
    restarts asked for. *)
Fixpoint checks (a : AllocationManifest) (l : list (check_answer * bool)) (s : Supervisor) : list bool * Supervisor :=
  match l with
  | [] => ([], s)
  | (answer, restarts) :: l =>
      let '(_, asked, s) := performHealthCheck answer restarts a s in
      let '(rest, s) := checks a l s in (asked :: rest, s)
  end.

(** What is to be counted: failures since the last success or successful restart. *)
Fixpoint strikes (n : Z) (l : list (check_answer * bool)) : list bool :=
  match l with
  | [] => []
  | (CheckBroken, _) :: l => false :: strikes n l
  | (CheckOK, _) :: l => false :: strikes 0 l
  | (_, restarts) :: l =>
      if (3 <=? n + 1)%Z then true :: strikes (if restarts then 0 else n + 1) l else false :: strikes (n + 1) l
  end.

(** An allocation that is supervised is asked to restart exactly when it failed or missed
    its third check since it last passed one or restarted, and at every failure after that
    until it does. *)
Theorem restart_after_three_strikes a aid l s :
  ParseAllocationID (amf_ID a) = Ok aid → IsTerminatedTask (sv_manifest s) (ManifestKey aid) = false →
  (checks a l s).1 = strikes (failureCount s (amf_ID a)) l.
Proof.
  intros Hp. revert s. induction l as [|[answer restarts] l IH]; intros s Ht; [done|]. cbn [checks strikes].
  unfold performHealthCheck. rewrite Hp, Ht.
  assert (Hfail : ∀ restarts, let '(asked, s') := countFailure restarts (amf_ID a) s in
    sv_manifest s' = sv_manifest s ∧ asked = (3 <=? failureCount s (amf_ID a) + 1)%Z ∧
    failureCount s' (amf_ID a) = if asked && restarts then 0%Z else (failureCount s (amf_ID a) + 1)%Z).
  { intros r. unfold countFailure. destruct (3 <=? _)%Z; [destruct r|]; simpl; split_and!; auto;
      unfold failureCount; simpl; by rewrite ?lookup_delete_eq, ?lookup_insert_eq. }
  destruct answer.
  - specialize (IH (with_failures s (delete (amf_ID a) (sv_failures s))) Ht).
    destruct (checks a l _). simpl in *. rewrite IH. f_equal. f_equal. unfold failureCount. simpl.
    by rewrite lookup_delete_eq.
  - specialize (Hfail restarts). destruct (countFailure _ _ _) as [asked s']. destruct Hfail as (Hm & Ha & Hc).
    specialize (IH s'). rewrite Hm in IH. specialize (IH Ht). destruct (checks a l s'). simpl in *. rewrite IH, Hc, Ha.
    destruct (3 <=? _)%Z; simpl; [by destruct restarts|done].
  - specialize (Hfail restarts). destruct (countFailure _ _ _) as [asked s']. destruct Hfail as (Hm & Ha & Hc).
    specialize (IH s'). rewrite Hm in IH. specialize (IH Ht). destruct (checks a l s'). simpl in *. rewrite IH, Hc, Ha.
    destruct (3 <=? _)%Z; simpl; [by destruct restarts|done].
  - specialize (IH s Ht). destruct (checks a l s). simpl in *. by rewrite IH.
Qed.
End supervisor.

(** ** Samples *)

Definition checked_allocation (id : string) : AllocationManifest :=
  mkAllocationManifest id "" AllocationTypeService Handle_zero "" "" ∅ (mkHealthCheck "command" ["true"] "" ("", "") 0)
    AllocationRunning "" false.
Definition checked_manifest (l : list (string * string)) : EnsembleManifest :=
  mkManifest "e1" ∅ Handle_zero (list_to_map (map (λ kv, (kv.1, checked_allocation kv.2)) l)) ∅ false ∅.

#[local] Instance supervisor_visit : MapVisit := {| visit A l := l; visit_perm A l := reflexivity l |}.

(** A deployment of two allocations of which an update keeps one. *)
Definition before_update : Supervisor :=
  Supervise (λ _, true) (checked_manifest [("n1.web", "e1_n1.web"); ("n1.db", "e1_n1.db")]) (NewSupervisor "e1").

Lemma update_unregisters_kept_witness :
  sv_registered before_update = {["e1_n1.web"; "e1_n1.db"]} ∧
  "e1_n1.web" ∉ sv_registered (Update (λ _, true) (checked_manifest [("n1.web", "e1_n1.web")]) before_update) ∧
  "e1_n1.db" ∈ sv_registered (Update (λ _, true) (checked_manifest [("n1.web", "e1_n1.web")]) before_update).
Proof.
  split; [vm_compute; reflexivity|].
  destruct (update_unregisters_kept (λ _, true) (checked_manifest [("n1.web", "e1_n1.web")]) before_update) as [H1 H2].
  { apply (bool_decide_unpack _). vm_compute. exact I. }
  split.
  - apply (H1 "n1.web" (checked_allocation "e1_n1.web")); [vm_compute; reflexivity|discriminate|].
    eexists. vm_compute. reflexivity.
  - apply H2; [apply (bool_decide_unpack _); vm_compute; exact I|].
    intros key a Ha Heq. apply elem_of_map_to_list in Ha. vm_compute in Ha.
    apply list_elem_of_singleton in Ha. injection Ha as -> ->. discriminate.
Defined.

Lemma restart_after_three_strikes_witness :
  (checks (checked_allocation "e1_n1.web")
     [(CheckFailed, true); (CheckTimeout, true); (CheckOK, true); (CheckFailed, true); (CheckFailed, true);
      (CheckFailed, false); (CheckTimeout, true); (CheckFailed, true)] before_update).1
  = [false; false; false; false; false; true; true; false].
Proof.
  rewrite (restart_after_three_strikes (checked_allocation "e1_n1.web") (mkAID "e1" "n1" "web" false 0));
    vm_compute; reflexivity.
Defined.
