(* ===== verification/GoTime.v ===== *)
(** * Time (package time)

    A [time.Time] is an instant, in nanoseconds since the Unix epoch; a
    [time.Duration] is a 64-bit number of nanoseconds.  The functions are those that
    the billing of contracts uses. *)

From Stdlib Require Import SpecFloat Ascii.
From S2P Require Import Prelude GoStrings GoNumbers.

#[local] Ltac Zify.zify_post_hook ::= Z.to_euclidean_division_equations.

Definition Time : Type := Z.
Definition Duration : Type := Z.

Definition Second : Duration := (10 ^ 9)%Z.
Definition Minute : Duration := (60 * Second)%Z.
Definition Hour : Duration := (60 * Minute)%Z.
Definition Day : Duration := (24 * Hour)%Z.

(** The zero time is the first of January of the year 1. *)
Definition Time_zero : Time := (- 62135596800 * Second)%Z.
Definition IsZero (t : Time) : bool := (t =? Time_zero)%Z.

Definition time_Before (t u : Time) : bool := (t <? u)%Z.
Definition time_After (t u : Time) : bool := (u <? t)%Z.

(** Differences saturate. *)
Definition time_Sub (t u : Time) : Duration := Z.max (- 2 ^ 63) (Z.min (2 ^ 63 - 1) (t - u)).
Definition time_Add (t : Time) (d : Duration) : Time := (t + d)%Z.

(** [Truncate] counts from the zero time. *)
Definition Truncate (t : Time) (d : Duration) : Time :=
  if (d <=? 0)%Z then t else (t - (t - Time_zero) mod d)%Z.

Definition Unix (t : Time) : Z := (t / Second)%Z.
Definition UnixNano (t : Time) : Z := s64 t.
Definition time_Unix (sec : Z) : Time := (sec * Second)%Z.
Definition unixEpoch : Time := time_Unix 0.

(** Durations multiply with wrap-around and divide towards zero. *)
Definition dur_mul (d : Duration) (n : Z) : Duration := s64 (d * n).
Definition dur_div (d e : Duration) : Z := (d ÷ e)%Z.

Definition f64_add : float64 → float64 → float64 := SFadd 53 1024.

Definition inUnits (u : Duration) (d : Duration) : float64 :=
  f64_add (f64_of_Z (d ÷ u)) (f64_div (f64_of_Z (Z.rem d u)) (f64_of_Z u)).
Definition Seconds : Duration → float64 := inUnits Second.
Definition Minutes : Duration → float64 := inUnits Minute.
Definition Hours : Duration → float64 := inUnits Hour.

(** A conversion to [int64] drops the fraction; what is out of range becomes the least
    value, as on the machines the service is built for. *)
Definition s64_of_f64 (x : float64) : Z :=
  match x with
  | S754_zero _ => 0%Z
  | S754_finite s m e =>
      let q := if (0 <=? e)%Z then (Zpos m * 2 ^ e)%Z else (Zpos m / 2 ^ (- e))%Z in
      let v := cond_Zopp s q in
      if (- 2 ^ 63 <=? v)%Z && (v <? 2 ^ 63)%Z then v else (- 2 ^ 63)%Z
  | _ => (- 2 ^ 63)%Z
  end.

(** ** The same date a year before

    [AddDate(-1, 0, 0)] depends on the time zone of the host: 365 or 366 days before, more
    or less a change of the zone's offset. *)
Class Zone := {
  yearBefore : Time → Time;
  yearBefore_bounds t : (t - 367 * Day ≤ yearBefore t ≤ t - 364 * Day)%Z
}.

(** In UTC; years are counted from March, so that the leap day ends a year. *)
Definition days_before_year (y : Z) : Z := (365 * y + y / 4 - y / 100 + y / 400)%Z.
Definition march_year (days : Z) : Z :=
  let z := (days + 719468)%Z in
  let era := (z / 146097)%Z in
  let doe := (z mod 146097)%Z in
  ((doe - doe / 1460 + doe / 36524 - doe / 146096) / 365 + era * 400)%Z.

#[export, refine] Instance UTC : Zone := {
  yearBefore t :=
    let y := march_year (t / Day) in
    (t - (days_before_year y - days_before_year (y - 1)) * Day)%Z
}.
Proof.
  intros t. cbv zeta. generalize (march_year (t / Day)). intros y.
  assert (364 ≤ days_before_year y - days_before_year (y - 1) ≤ 367)%Z as Hd.
  { assert (0 ≤ y / 4 - (y - 1) / 4 ≤ 1)%Z by lia. assert (0 ≤ y / 100 - (y - 1) / 100 ≤ 1)%Z by lia.
    assert (0 ≤ y / 400 - (y - 1) / 400 ≤ 1)%Z by lia. unfold days_before_year. lia. }
  revert Hd. generalize (days_before_year y - days_before_year (y - 1))%Z. 
  assert (0 < Day)%Z by done. revert H. generalize Day. intros day Hday d Hd. nia.
Defined.

(** 29 February 2024, noon, becomes 1 March 2023. *)
Example leap_day : yearBefore (time_Unix 1709208000) = time_Unix 1677672000.
Proof. vm_compute. reflexivity. Qed.

(** ** Facts *)

Lemma time_Sub_exact t u : is_s64 (t - u) → time_Sub t u = (t - u)%Z.
Proof. unfold is_s64, time_Sub. lia. Qed.

Lemma time_Sub_pos t u : (0 < time_Sub t u)%Z ↔ (u < t)%Z.
Proof. unfold time_Sub. lia. Qed.

(** What is stored of an instant is the second it lies in. *)
Lemma time_Unix_Unix t : (time_Unix (Unix t) ≤ t < time_Unix (Unix t) + Second)%Z.
Proof. unfold time_Unix, Unix, Second. lia. Qed.

Lemma Unix_time_Unix s : Unix (time_Unix s) = s.
Proof. unfold time_Unix, Unix, Second. lia. Qed.

Lemma Truncate_bounds t d : (0 < d)%Z → (t - d < Truncate t d ≤ t)%Z.
Proof.
  intros Hd. unfold Truncate. destruct (Z.leb_spec d 0); [lia|].
  pose proof (Z.mod_pos_bound (t - Time_zero) d). lia.
Qed.

(** ** Decimal text of floats (packages strconv and fmt)

    [strconv.ParseFloat] with 64 bits, and the verb [%.8f] of [fmt.Sprintf], the two
    conversions that amounts of money go through.  Both are exact: a text is rounded once
    to the nearest float, a float once to eight decimals, ties to even. *)

Definition ascii_lower (c : ascii) : ascii :=
  let n := nat_of_ascii c in
  if ((65 <=? n) && (n <=? 90))%nat then ascii_of_nat (n + 32) else c.

Fixpoint string_lower (s : string) : string :=
  match s with EmptyString => EmptyString | String c s => String (ascii_lower c) (string_lower s) end.

(** The value of a digit, decimal or hexadecimal. *)
Definition digit (hex : bool) (c : ascii) : option Z :=
  let n := Z.of_nat (nat_of_ascii (ascii_lower c)) in
  if (48 <=? n)%Z && (n <=? 57)%Z then Some (n - 48)%Z
  else if hex && (97 <=? n)%Z && (n <=? 102)%Z then Some (n - 87)%Z
  else None.

(** Underscores separate digits; one may follow the prefix of a base. *)
Inductive seen := SawStart | SawDigit | SawUnderscore | SawOther.

Fixpoint underscores (hex : bool) (saw : seen) (s : string) : bool :=
  match s with
  | EmptyString => match saw with SawUnderscore => false | _ => true end
  | String c s =>
      match digit hex c with
      | Some _ => underscores hex SawDigit s
      | None =>
          if bool_decide (c = "_"%char)
          then match saw with SawDigit => underscores hex SawUnderscore s | _ => false end
          else match saw with SawUnderscore => false | _ => underscores hex SawOther s end
      end
  end.

Definition dropSign (s : string) : bool * string :=
  match s with
  | String c r =>
      if bool_decide (c = "-"%char) then (true, r)
      else if bool_decide (c = "+"%char) then (false, r) else (false, s)
  | EmptyString => (false, s)
  end.

Definition underscoreOK (s : string) : bool :=
  let s := (dropSign s).2 in
  match s with
  | String "0" (String c r) =>
      let c := ascii_lower c in
      if bool_decide (c = "x"%char) then underscores true SawDigit r
      else if bool_decide (c = "b"%char ∨ c = "o"%char) then underscores false SawDigit r
      else underscores false SawStart s
  | _ => underscores false SawStart s
  end.

Fixpoint stripUnderscores (s : string) : string :=
  match s with
  | EmptyString => EmptyString
  | String c s => if bool_decide (c = "_"%char) then stripUnderscores s else String c (stripUnderscores s)
  end.

(** The mantissa: its digits as a number, how many follow the point, whether there were
    any, and the rest of the text. *)
Fixpoint mantissa (hex sawdot sawdigits : bool) (m frac : Z) (s : string) : Z * Z * bool * string :=
  match s with
  | EmptyString => (m, frac, sawdigits, s)
  | String c r =>
      match digit hex c with
      | Some d => mantissa hex sawdot true (m * (if hex then 16 else 10) + d) (if sawdot then frac + 1 else frac)%Z r
      | None =>
          if bool_decide (c = "."%char) && negb sawdot then mantissa hex true sawdigits m frac r
          else (m, frac, sawdigits, s)
      end
  end.

(** The digits of an exponent; beyond 10000 they are not added. *)
Fixpoint exponentDigits (e : Z) (s : string) : option Z :=
  match s with
  | EmptyString => Some e
  | String c s =>
      match digit false c with
      | Some d => exponentDigits (if (e <? 10000)%Z then e * 10 + d else e)%Z s
      | None => None
      end
  end.

Definition exponent (s : string) : option Z :=
  let '(neg, s) := dropSign s in
  match s with
  | EmptyString => None
  | _ => (λ e : Z, if (neg : bool) then (- e)%Z else e) <$> exponentDigits 0 s
  end.

(** The float nearest to [n]/[d]; the last bit of the quotient says that there is a
    remainder. *)
Definition f64_of_ratio (neg : bool) (n d : Z) : float64 :=
  if (n =? 0)%Z then S754_zero neg
  else
    let k := (60 + Z.log2 d - Z.log2 n)%Z in
    let '(n, d) := if (0 <=? k)%Z then (n * 2 ^ k, d)%Z else (n, d * 2 ^ (- k))%Z in
    let q := (2 * (n / d) + if (n mod d =? 0)%Z then 0 else 1)%Z in
    binary_normalize 53 1024 (cond_Zopp neg q) (- k - 1) neg.

Definition is_infinite (x : float64) : bool := match x with S754_infinity _ => true | _ => false end.

(** The words for infinity and for what is not a number. *)
Definition special (s : string) : option float64 :=
  let '(neg, r) := dropSign s in
  let r := string_lower r in
  if bool_decide (r = "inf" ∨ r = "infinity") then Some (S754_infinity neg)
  else if bool_decide (string_lower s = "nan") then Some S754_nan
  else None.

(** A number that is too large is an error, as is a text that is no number. *)
Definition ParseFloat (s : string) : option float64 :=
  match special s with
  | Some x => Some x
  | None =>
      if negb (underscoreOK s) then None
      else
        let '(neg, r) := dropSign (stripUnderscores s) in
        let '(hex, r) :=
          match r with
          | String "0" (String c (String c' r')) =>
              if bool_decide (ascii_lower c = "x"%char) then (true, String c' r') else (false, r)
          | _ => (false, r)
          end in
        let '(m, frac, sawdigits, r) := mantissa hex false false 0 0 r in
        if negb sawdigits then None
        else
          let e := match r with
                   | EmptyString => if hex then None else Some 0%Z
                   | String c r =>
                       if bool_decide (ascii_lower c = if hex then "p"%char else "e"%char) then exponent r else None
                   end in
          match e with
          | None => None
          | Some e =>
              let e := (e - (if hex then 4 * frac else frac))%Z in
              let base := if hex then 2%Z else 10%Z in
              let x := if (0 <=? e)%Z then f64_of_ratio neg (m * base ^ e) 1 else f64_of_ratio neg m (base ^ (- e)) in
              if is_infinite x then None else Some x
          end
  end.

(** ** Eight decimals *)

Definition div_half_even (n d : Z) : Z :=
  let q := (n / d)%Z in
  let r := (n mod d)%Z in
  if (2 * r <? d)%Z then q
  else if (d <? 2 * r)%Z then (q + 1)%Z
  else if Z.even q then q else (q + 1)%Z.

Fixpoint zeros (n : nat) : string := match n with O => EmptyString | S n => String "0" (zeros n) end.

Definition padded (width : nat) (n : Z) : string :=
  let s := Itoa n in zeros (width - String.length s) +:+ s.

(** [fmt.Sprintf("%.8f", x)]. *)
Definition formatAmount (x : float64) : string :=
  match x with
  | S754_nan => "NaN"
  | S754_infinity s => if s then "-Inf" else "+Inf"
  | S754_zero s => (if s then "-" else "") +:+ "0.00000000"
  | S754_finite s m e =>
      let q := if (0 <=? e)%Z then (Zpos m * 2 ^ e * 10 ^ 8)%Z else div_half_even (Zpos m * 10 ^ 8) (2 ^ (- e)) in
      (if s then "-" else "") +:+ Itoa (q / 10 ^ 8) +:+ "." +:+ padded 8 (q mod 10 ^ 8)
  end.

(** ** Samples *)

Example parses :
  ParseFloat "1.5" = Some (f64_div (f64_of_Z 3) (f64_of_Z 2)) ∧
  ParseFloat "1_5e-1" = ParseFloat "+0x3p-1" ∧
  ParseFloat "1__5" = None ∧ ParseFloat "1e999" = None ∧ ParseFloat "" = None ∧ ParseFloat "1.2.3" = None.
Proof. vm_compute. done. Qed.

Example prints :
  formatAmount <$> ParseFloat "0.1" = Some "0.10000000" ∧
  formatAmount <$> ParseFloat "-19.999999996" = Some "-20.00000000" ∧
  formatAmount <$> ParseFloat "123456.7" = Some "123456.70000000" ∧
  formatAmount <$> ParseFloat "2.5e-9" = Some "0.00000000".
Proof. vm_compute. done. Qed.
