(* ===== verification/Contract.v ===== *)
(** * Contracts

    A contract between a provider and a requestor of compute, hosted by a solution
    enabler: the request to create one (tokenomics/contracts/contract.go, payments.go), the
    store (tokenomics/store/contract_store.go) and the actor that answers its
    participants (tokenomics/contract_host.go).

    The store is a map by the DID of the contract; whether the database answers a read
    or a write is an argument of the handlers, as is the clock.  The reply to a message is
    the value a handler returns beside the store. *)

From S2P Require Import Prelude GoNumbers Hardware ResourceManager Key Allocation GoTime.

(** ** Payments *)

Inductive PaymentModel :=
| PayPerAllocation
| PayPerDeployment
| PayPerTimeUtilization
| PayPerResourceUtilization
| FixedRental
| Periodic
| OtherModel (name : string).           (* any other text; [""] when none was given *)

#[export] Instance PaymentModel_eq_dec : EqDecision PaymentModel.
Proof. solve_decision. Defined.

Definition PaymentPeriodMinute : string := "minute".
Definition PaymentPeriodHour : string := "hour".
Definition PaymentPeriodDay : string := "day".
Definition PaymentPeriodWeek : string := "week".
Definition PaymentPeriodMonth : string := "month".

Record PaymentAddressInfo := mkPaymentAddressInfo {
  pa_Blockchain : string;
  pa_Currency : string;
  pa_RequesterAddr : string;
  pa_ProviderAddr : string
}.

Record OrchestrationFeeConfig := mkOrchestrationFee {
  of_FixedAmount : string;
  of_Percentage : string;
  of_RecipientAddress : PaymentAddressInfo
}.

Record PaymentDetails := mkPaymentDetails {
  pd_PaymentType : string;
  pd_PaymentModel : PaymentModel;
  pd_FeePerDeployment : string;
  pd_FeePerAllocation : string;
  pd_FeePerTimeUnit : string;
  pd_TimeUnit : string;
  pd_FeePerCPUCorePerTimeUnit : string;
  pd_FeePerRAMGBPerTimeUnit : string;
  pd_FeePerDiskGBPerTimeUnit : string;
  pd_FeePerGPUPerTimeUnit : string;
  pd_ResourceTimeUnit : string;
  pd_FixedRentalAmount : string;
  pd_PaymentPeriod : string;
  pd_PaymentPeriodCount : Z;
  pd_Addresses : list PaymentAddressInfo;
  pd_PricingCurrency : string;
  pd_OrchestrationFee : option OrchestrationFeeConfig
}.

Definition set_pd_period pd period count :=
  mkPaymentDetails (pd_PaymentType pd) (pd_PaymentModel pd) (pd_FeePerDeployment pd) (pd_FeePerAllocation pd)
    (pd_FeePerTimeUnit pd) (pd_TimeUnit pd) (pd_FeePerCPUCorePerTimeUnit pd) (pd_FeePerRAMGBPerTimeUnit pd)
    (pd_FeePerDiskGBPerTimeUnit pd) (pd_FeePerGPUPerTimeUnit pd) (pd_ResourceTimeUnit pd) (pd_FixedRentalAmount pd)
    period count (pd_Addresses pd) (pd_PricingCurrency pd) (pd_OrchestrationFee pd).

Definition unset (s : string) : bool := bool_decide (s = "" ∨ s = "0").

(** The fee of the orchestrator: one of its two parts, each a number, the percentage
    between 0 and 100. *)
Definition ValidateOrchestrationFee (pd : PaymentDetails) : bool :=
  match pd_OrchestrationFee pd with
  | None => true
  | Some fee =>
      if unset (of_FixedAmount fee) && unset (of_Percentage fee) then false
      else if negb (unset (of_FixedAmount fee)) && negb (bool_decide (is_Some (ParseFloat (of_FixedAmount fee)))) then false
      else if unset (of_Percentage fee) then true
      else match ParseFloat (of_Percentage fee) with
      | None => false
      | Some pct => negb (float_lt pct (f64_of_Z 0) || float_lt (f64_of_Z 100) pct)
      end
  end.

(** ** Contracts *)

Inductive ContractState :=
| ContractDraft | ContractProposed | ContractAccepted | ContractActive | ContractPaused
| ContractUpdate | ContractTerminated | ContractCompleted | ContractSettled.

#[export] Instance ContractState_eq_dec : EqDecision ContractState.
Proof. solve_decision. Defined.

Inductive ContractEvent :=
| EventPropose | EventAccepted | EventActivate | EventDispute | EventUpdate | EventTerminate
| EventComplete | EventSettle.

#[export] Instance ContractEvent_eq_dec : EqDecision ContractEvent.
Proof. solve_decision. Defined.

(** [st_FromState] is [None] when the contract had no transition before. *)
Record StateTransition := mkTransition {
  st_FromState : option ContractState;
  st_ToState : ContractState;
  st_Event : ContractEvent;
  st_Timestamp : Time;
  st_InitiatedBy : DID
}.

Record ContractParticipants := mkParticipants { Provider_DID : DID; Requestor_DID : DID }.
Record TerminationOption := mkTermination { Allowed : bool; NoticePeriod : Duration }.
Record DurationDetails := mkDurationDetails { StartDate : Time; EndDate : Time }.
Record PenaltyClause := mkPenalty { Condition : string; Penalty : float64 }.
Record ContractSignature := mkContractSignature { sig_DID : DID; sig_bytes : string }.

Record CreateContractRequest := mkCreateContract {
  ccr_Metadata : gmap string string;
  ccr_SolutionEnablerDID : DID;
  ccr_PaymentValidatorDID : DID;
  ccr_ResourceConfiguration : Resources;
  ccr_TerminationOption : option TerminationOption;
  ccr_Penalties : list PenaltyClause;
  ccr_PaymentDetails : PaymentDetails;
  ccr_ContractTerms : string;
  ccr_Participants : ContractParticipants;
  ccr_Duration : DurationDetails;
  ccr_DisableBilling : bool
}.

Record ContractDoc := mkContract {
  c_ContractDID : string;
  c_SolutionEnablerDID : DID;
  c_PaymentValidatorDID : DID;
  c_ResourceConfiguration : Resources;
  c_TerminationOption : option TerminationOption;
  c_Penalties : list PenaltyClause;
  c_Duration : option DurationDetails;
  c_Participants : ContractParticipants;
  c_PaymentDetails : PaymentDetails;
  c_Paid : bool;
  c_Signatures : list ContractSignature;
  c_CurrentState : ContractState;
  c_ContractTerms : string;
  c_Transitions : list StateTransition;
  c_DisableBilling : bool;
  c_Metadata : gmap string string
}.

Definition set_c_paid c v :=
  mkContract (c_ContractDID c) (c_SolutionEnablerDID c) (c_PaymentValidatorDID c) (c_ResourceConfiguration c)
    (c_TerminationOption c) (c_Penalties c) (c_Duration c) (c_Participants c) (c_PaymentDetails c) v
    (c_Signatures c) (c_CurrentState c) (c_ContractTerms c) (c_Transitions c) (c_DisableBilling c) (c_Metadata c).
Definition set_c_state c st tr :=
  mkContract (c_ContractDID c) (c_SolutionEnablerDID c) (c_PaymentValidatorDID c) (c_ResourceConfiguration c)
    (c_TerminationOption c) (c_Penalties c) (c_Duration c) (c_Participants c) (c_PaymentDetails c) (c_Paid c)
    (c_Signatures c) st (c_ContractTerms c) tr (c_DisableBilling c) (c_Metadata c).
Definition set_c_signatures c v :=
  mkContract (c_ContractDID c) (c_SolutionEnablerDID c) (c_PaymentValidatorDID c) (c_ResourceConfiguration c)
    (c_TerminationOption c) (c_Penalties c) (c_Duration c) (c_Participants c) (c_PaymentDetails c) (c_Paid c)
    v (c_CurrentState c) (c_ContractTerms c) (c_Transitions c) (c_DisableBilling c) (c_Metadata c).

Inductive contract_error :=
| ErrRequired (field : string)
| ErrEndBeforeStart
| ErrBadPeriod
| ErrBadPeriodCount
| ErrContractNotFound
| ErrContractStore
| ErrAlreadySigned
| ErrNotParticipant
| ErrNotTerminable
| ErrMultipleContracts
| ErrTailContract.

#[export] Instance contract_error_eq_dec : EqDecision contract_error.
Proof. solve_decision. Defined.

Definition validPeriods : list string :=
  [PaymentPeriodMinute; PaymentPeriodHour; PaymentPeriodDay; PaymentPeriodWeek; PaymentPeriodMonth].

Definition CreateContractRequest_Validate (req : CreateContractRequest) : option contract_error :=
  let pd := ccr_PaymentDetails req in
  if DID_Empty (ccr_SolutionEnablerDID req) then Some (ErrRequired "solution_enabler_did")
  else if DID_Empty (ccr_PaymentValidatorDID req) then Some (ErrRequired "payment_validator_did")
  else if DID_Empty (Provider_DID (ccr_Participants req)) then Some (ErrRequired "contract_participants.provider")
  else if DID_Empty (Requestor_DID (ccr_Participants req)) then Some (ErrRequired "contract_participants.requestor")
  else if bool_decide (pd_PaymentModel pd = OtherModel "") then Some (ErrRequired "payment_details.payment_model")
  else if IsZero (StartDate (ccr_Duration req)) then Some (ErrRequired "duration.start_date")
  else if IsZero (EndDate (ccr_Duration req)) then Some (ErrRequired "duration.end_date")
  else if negb (time_After (EndDate (ccr_Duration req)) (StartDate (ccr_Duration req))) then Some ErrEndBeforeStart
  else if bool_decide (pd_PaymentModel pd = FixedRental ∨ pd_PaymentModel pd = Periodic) then
    if bool_decide (pd_PaymentPeriod pd = "") then Some (ErrRequired "payment_details.payment_period")
    else if negb (bool_decide (pd_PaymentPeriod pd ∈ validPeriods)) then Some ErrBadPeriod
    else if (pd_PaymentPeriodCount pd <=? 0)%Z then Some ErrBadPeriodCount
    else None
  else None.

Definition SetPeriodicityDefaults (pd : PaymentDetails) : PaymentDetails :=
  set_pd_period pd
    (if bool_decide (pd_PaymentPeriod pd = "") then PaymentPeriodHour else pd_PaymentPeriod pd)
    (if (pd_PaymentPeriodCount pd <=? 0)%Z then 1%Z else pd_PaymentPeriodCount pd).

Definition NewContract (contractDID : string) (req : CreateContractRequest) : ContractDoc :=
  mkContract contractDID (ccr_SolutionEnablerDID req) (ccr_PaymentValidatorDID req) (ccr_ResourceConfiguration req)
    (ccr_TerminationOption req) (ccr_Penalties req) (Some (ccr_Duration req)) (ccr_Participants req)
    (SetPeriodicityDefaults (ccr_PaymentDetails req)) false [] ContractDraft (ccr_ContractTerms req) []
    (ccr_DisableBilling req) (ccr_Metadata req).

(** ** The store *)

Definition ContractStore : Type := gmap string ContractDoc.

Definition Upsert (s : ContractStore) (c : ContractDoc) : ContractStore := <[c_ContractDID c := c]> s.

Definition GetContract (answers : bool) (s : ContractStore) (contractDID : string) : outcome contract_error ContractDoc :=
  if bool_decide (contractDID = "") then Err (ErrRequired "contract_did")
  else if negb answers then Err ErrContractStore
  else match s !! contractDID with Some c => Ok c | None => Err ErrContractNotFound end.

(** In force: accepted or active. *)
Definition isActive (c : ContractDoc) : bool :=
  bool_decide (c_CurrentState c = ContractAccepted ∨ c_CurrentState c = ContractActive).

Definition isParticipant (c : ContractDoc) (p : DID) : bool :=
  DID_Equal (Provider_DID (c_Participants c)) p || DID_Equal (Requestor_DID (c_Participants c)) p.

(** The contract between two parties, when there is exactly one in force. *)
Definition FindContractByParticipants (docs : list ContractDoc) (p1 p2 : DID) : outcome contract_error ContractDoc :=
  match List.filter (λ c, isParticipant c p1 && isParticipant c p2 && isActive c) docs with
  | [] => Err ErrContractNotFound
  | [c] => Ok c
  | _ => Err ErrMultipleContracts
  end.

Definition FindContractsByParticipant (docs : list ContractDoc) (p : DID) : list ContractDoc :=
  List.filter (λ c, isParticipant c p && isActive c) docs.

(** The contracts between the organisation of a head contract and a compute provider. *)
Definition FilterTailContracts (head : ContractConfig) (computeProviderDID : string) (contractList : list ContractDoc)
    : outcome contract_error (list ContractDoc) :=
  if bool_decide (cc_Provider head = "") then Err ErrTailContract
  else match FromString (cc_Provider head), FromString computeProviderDID with
  | Ok organization, Ok provider =>
      Ok (List.filter
            (λ c, negb (bool_decide (c_ContractDID c = cc_DID head)) &&
                  DID_Equal (Requestor_DID (c_Participants c)) organization &&
                  DID_Equal (Provider_DID (c_Participants c)) provider && isActive c) contractList)
  | _, _ => Err ErrTailContract
  end.

Definition FindTailContractFromContracts (head : ContractConfig) (computeProviderDID : string) (contractList : list ContractDoc)
    : outcome contract_error ContractConfig :=
  match FilterTailContracts head computeProviderDID contractList with
  | Ok [] => Err ErrContractNotFound
  | Ok [c] =>
      Ok (mkContractConfig (c_ContractDID c) (DID_String (c_SolutionEnablerDID c))
            (DID_String (Provider_DID (c_Participants c))) "")
  | Ok _ => Err ErrMultipleContracts
  | Err e => Err e
  | Panic => Panic
  end.

(** ** The actor of a contract

    [r] and [w] say whether the database answers the read and the write. *)

Section actor.
  Context (contractDID : string).

(** Save a changed contract; the reply is [v] unless that fails. *)
Definition saved {A} (w : bool) (s : ContractStore) (c : ContractDoc) (v : A) : outcome contract_error A * ContractStore :=
  if w then (Ok v, Upsert s c) else (Err ErrContractStore, s).

Definition withContract {A} (r : bool) (s : ContractStore)
    (k : ContractDoc → outcome contract_error A * ContractStore) : outcome contract_error A * ContractStore :=
  match GetContract r s contractDID with
  | Ok c => k c
  | Err e => (Err e, s)
  | Panic => (Panic, s)
  end.

Definition handlePaymentValidate (r w : bool) (s : ContractStore) : outcome contract_error () * ContractStore :=
  withContract r s (λ c, saved w s (set_c_paid c true) tt).

(** Signing: once for each participant; the second signature accepts the contract and
    starts its history anew. *)
Definition addSignature (now : Time) (from : DID) (signature : string) (c : ContractDoc) : ContractDoc :=
  let c := set_c_signatures c (c_Signatures c ++ [mkContractSignature from signature]) in
  if (length (c_Signatures c) =? 2)%nat
  then set_c_state c ContractAccepted
         [mkTransition (Some ContractDraft) ContractAccepted EventAccepted now DID_empty]
  else c.

Definition handleContractSignByParticipants (r w : bool) (now : Time) (from : DID) (signature : string) (s : ContractStore)
    : outcome contract_error ContractDoc * ContractStore :=
  withContract r s (λ c,
    if existsb (λ v, bool_decide (sig_DID v = from)) (c_Signatures c) then (Err ErrAlreadySigned, s)
    else if bool_decide (Provider_DID (c_Participants c) = from) || bool_decide (Requestor_DID (c_Participants c) = from)
    then let c := addSignature now from signature c in saved w s c c
    else (Err ErrNotParticipant, s)).

Definition handleContractState (r : bool) (s : ContractStore) : outcome contract_error ContractDoc * ContractStore :=
  withContract r s (λ c, (Ok c, s)).

(** A transition from where the last one led. *)
Definition transition (to : ContractState) (e : ContractEvent) (now : Time) (from : DID) (c : ContractDoc) : ContractDoc :=
  set_c_state c to (c_Transitions c ++ [mkTransition (st_ToState <$> last (c_Transitions c)) to e now from]).

(** The option to terminate is read without looking whether there is one. *)
Definition handleContractTermination (r w : bool) (now : Time) (from : DID) (s : ContractStore)
    : outcome contract_error () * ContractStore :=
  withContract r s (λ c,
    match c_TerminationOption c with
    | None => (Panic, s)
    | Some o =>
        if negb (Allowed o) then (Err ErrNotTerminable, s)
        else saved w s (transition ContractTerminated EventTerminate now from c) tt
    end).

Definition handleCompleteContract (r w : bool) (now : Time) (from : DID) (s : ContractStore)
    : outcome contract_error () * ContractStore :=
  withContract r s (λ c, saved w s (transition ContractCompleted EventComplete now from c) tt).

Definition handleSettleContract (r w : bool) (now : Time) (from : DID) (s : ContractStore)
    : outcome contract_error () * ContractStore :=
  withContract r s (λ c, saved w s (transition ContractSettled EventSettle now from c) tt).

(** Whether the contract is in force, with its state. *)
Definition handleContractValidation (r : bool) (s : ContractStore)
    : outcome contract_error (bool * ContractState) * ContractStore :=
  withContract r s (λ c, (Ok (isActive c, c_CurrentState c), s)).

(** One tick of the goroutine that waits for the end of the contract; [true] when it goes
    on. *)
Definition expiryTick (r w : bool) (now : Time) (s : ContractStore) : outcome contract_error bool * ContractStore :=
  match GetContract r s contractDID with
  | Ok c =>
      match c_Duration c with
      | None => (Panic, s)
      | Some d =>
          if time_After now (EndDate d)
          then (Ok false, if w then Upsert s (set_c_state c ContractCompleted (c_Transitions c)) else s)
          else (Ok true, s)
      end
  | Err _ => (Ok true, s)
  | Panic => (Panic, s)
  end.
End actor.

(** ** The life of a contract

    The messages of the participants, the payment validator and the clock as steps of the
    store; what is true of every contract they reach. *)

Section life.
  Context (contractDID : string).

Inductive contract_step (s : ContractStore) : ContractStore → Prop :=
| step_pay r w : contract_step s (handlePaymentValidate contractDID r w s).2
| step_sign r w now from signature :
    contract_step s (handleContractSignByParticipants contractDID r w now from signature s).2
| step_terminate r w now from : contract_step s (handleContractTermination contractDID r w now from s).2
| step_complete r w now from : contract_step s (handleCompleteContract contractDID r w now from s).2
| step_settle r w now from : contract_step s (handleSettleContract contractDID r w now from s).2
| step_expire r w now : contract_step s (expiryTick contractDID r w now s).2.

(** The stores reachable from the creation of the contract. *)
Inductive contract_reachable (req : CreateContractRequest) : ContractStore → Prop :=
| reach_new s : contract_reachable req (Upsert s (NewContract contractDID req))
| reach_step s s' : contract_reachable req s → contract_step s s' → contract_reachable req s'.

Definition signers (c : ContractDoc) : list DID := map sig_DID (c_Signatures c).

Record ContractInv (req : CreateContractRequest) (c : ContractDoc) : Prop := mkContractInv {
  inv_did : c_ContractDID c = contractDID;
  inv_participants : c_Participants c = ccr_Participants req;
  inv_once : NoDup (signers c);
  inv_signers p : p ∈ signers c → p = Provider_DID (ccr_Participants req) ∨ p = Requestor_DID (ccr_Participants req);
  inv_states : c_CurrentState c ∈ [ContractDraft; ContractAccepted; ContractTerminated; ContractCompleted; ContractSettled];
  inv_accepted : c_CurrentState c = ContractAccepted → length (c_Signatures c) = 2%nat
}.

Lemma new_inv req : ContractInv req (NewContract contractDID req).
Proof. split; try done; [apply NoDup_nil_2|by intros p ?%elem_of_nil|set_solver]. Qed.

Lemma transition_inv req c st e now from :
  ContractInv req c → st ∈ [ContractTerminated; ContractCompleted; ContractSettled] →
  ContractInv req (transition st e now from c).
Proof. intros [] Hst. split; try done; cbn in *; [set_solver|]. intros ->. set_solver. Qed.

(** A contract that reached its end is completed without a transition. *)
Lemma expired_inv req c : ContractInv req c → ContractInv req (set_c_state c ContractCompleted (c_Transitions c)).
Proof. intros []. split; try done; cbn. set_solver. Qed.

Lemma paid_inv req c : ContractInv req c → ContractInv req (set_c_paid c true).
Proof. intros []. by split. Qed.

(** Two different signers out of two participants are both of them. *)
Lemma both_signed (l : list DID) P R :
  NoDup l → (∀ p, p ∈ l → p = P ∨ p = R) → length l = 2%nat → P ∈ l ∧ R ∈ l ∧ P ≠ R.
Proof.
  intros Hnd Hin Hl. destruct l as [|a [|b [|]]]; try done.
  apply NoDup_cons in Hnd as [Hab _]. pose proof (Hin a ltac:(set_solver)). pose proof (Hin b ltac:(set_solver)). set_solver.
Qed.

Lemma sign_inv req c now from signature :
  ContractInv req c → existsb (λ v, bool_decide (sig_DID v = from)) (c_Signatures c) = false →
  from = Provider_DID (ccr_Participants req) ∨ from = Requestor_DID (ccr_Participants req) →
  ContractInv req (addSignature now from signature c).
Proof.
  intros [Hd Hp Ho Hs Hst Ha] Hnew Hfrom. rewrite existsb_false in Hnew.
  assert (from ∉ signers c) as Hn.
  { unfold signers. rewrite list_elem_of_In, in_map_iff. intros (v & Hv & Hin). apply Hnew in Hin.
    by rewrite bool_decide_eq_false in Hin. }
  assert (NoDup (signers c ++ [from])) as Hnd.
  { apply NoDup_app. split; [done|]. split; [set_solver|apply NoDup_singleton]. }
  assert (∀ p, p ∈ signers c ++ [from] → p = Provider_DID (ccr_Participants req) ∨ p = Requestor_DID (ccr_Participants req)) as Hin
    by set_solver.
  assert (signers (set_c_signatures c (c_Signatures c ++ [mkContractSignature from signature])) = signers c ++ [from]) as Hsig
    by (unfold signers; cbn; by rewrite map_app).
  unfold addSignature. cbn [c_Signatures set_c_signatures].
  destruct (_ =? 2)%nat eqn:Hl; split; unfold signers in *; cbn in *; rewrite ?Hsig; try done.
  - set_solver.
  - intros _. by apply Nat.eqb_eq in Hl.
  - intros Hacc%Ha. exfalso. destruct (both_signed _ _ _ Ho Hs) as (? & ? & _); [by rewrite length_map|].
    destruct Hfrom as [-> | ->]; by apply Hn.
Qed.

Definition holds (req : CreateContractRequest) (s : ContractStore) : Prop :=
  ∃ c, s !! contractDID = Some c ∧ ContractInv req c.

Lemma holds_Upsert req s c : ContractInv req c → holds req (Upsert s c).
Proof. intros Hc. exists c. split; [|done]. unfold Upsert. rewrite (inv_did _ _ Hc). apply lookup_insert_eq. Qed.

Lemma holds_saved {A} req w s c (v : A) : holds req s → ContractInv req c → holds req (saved w s c v).2.
Proof. intros. unfold saved. destruct w; [by apply holds_Upsert|done]. Qed.

(** A handler preserves the invariant when what it does with the stored contract does. *)
Lemma holds_withContract {A} req r s (k : ContractDoc → outcome contract_error A * ContractStore) :
  holds req s → (∀ c, ContractInv req c → holds req (k c).2) → holds req (withContract contractDID r s k).2.
Proof.
  intros (c & Hc & Hi) Hk. unfold withContract, GetContract. rewrite Hc.
  destruct (bool_decide _), r; cbn; eauto; by exists c.
Qed.

Lemma step_inv req s s' : contract_step s s' → holds req s → holds req s'.
Proof.
  intros Hstep Hs. destruct Hstep; try (apply holds_withContract; [done|]; intros c Hc).
  - apply holds_saved; [done|by apply paid_inv].
  - destruct (existsb _ _) eqn:Hn; [done|]. destruct (_ || _) eqn:Hp; [|done].
    apply holds_saved; [done|]. apply sign_inv; [done..|].
    rewrite <- (inv_participants _ _ Hc). rewrite orb_true_iff, !bool_decide_eq_true in Hp. naive_solver.
  - destruct (c_TerminationOption c) as [o|]; [|done]. destruct (Allowed o); [|done].
    apply holds_saved; [done|]. apply transition_inv; [done|set_solver].
  - apply holds_saved; [done|]. apply transition_inv; [done|set_solver].
  - apply holds_saved; [done|]. apply transition_inv; [done|set_solver].
  - destruct Hs as (c & Hc & Hi). unfold expiryTick, GetContract. rewrite Hc.
    destruct (bool_decide _), r; cbn; try (by exists c). destruct (c_Duration c) as [d|]; [|by exists c].
    destruct (time_After now (EndDate d)), w; try (by exists c).
    apply (holds_Upsert req s (set_c_state c _ _)). by apply expired_inv.
Qed.

Lemma contract_inv req s : contract_reachable req s → holds req s.
Proof. induction 1; [apply holds_Upsert, new_inv|by eapply step_inv]. Qed.

(** C22: whatever the participants, the payment validator and the clock do with a contract through its actor, it
    is in force only when the provider and the requestor, two different parties, have both
    signed; nobody else signs and nobody twice; and of the nine states only five are
    ever reached. *)
Theorem accepted_by_both req s c :
  contract_reachable req s → s !! contractDID = Some c →
  (isActive c = true →
     Provider_DID (ccr_Participants req) ∈ signers c ∧ Requestor_DID (ccr_Participants req) ∈ signers c ∧
     Provider_DID (ccr_Participants req) ≠ Requestor_DID (ccr_Participants req)) ∧
  NoDup (signers c) ∧
  (∀ p, p ∈ signers c → p = Provider_DID (ccr_Participants req) ∨ p = Requestor_DID (ccr_Participants req)) ∧
  c_CurrentState c ∈ [ContractDraft; ContractAccepted; ContractTerminated; ContractCompleted; ContractSettled].
Proof.
  intros (c' & Hc' & [])%contract_inv Hc. simplify_eq. split; [|done]. intros Ha.
  unfold isActive in Ha. rewrite bool_decide_eq_true in Ha. apply both_signed; try done.
  unfold signers. rewrite length_map. apply inv_accepted0. destruct Ha as [|Ha]; [done|]. rewrite Ha in *. set_solver.
Qed.

(** The second signature brings back a contract that was terminated, completed or settled
    before it, and erases that from its history. *)
Theorem signature_revives s c v now from signature :
  contractDID ≠ "" → s !! contractDID = Some c → c_ContractDID c = contractDID → c_Signatures c = [v] → sig_DID v ≠ from →
  from = Provider_DID (c_Participants c) ∨ from = Requestor_DID (c_Participants c) →
  ∃ c', handleContractSignByParticipants contractDID true true now from signature s = (Ok c', <[contractDID := c']> s) ∧
        c_CurrentState c' = ContractAccepted ∧ length (c_Transitions c') = 1%nat.
Proof.
  intros Hd Hc Hid Hs Hv Hp. unfold handleContractSignByParticipants, withContract, GetContract.
  rewrite bool_decide_false, Hc by done. cbn. rewrite Hs. cbn. rewrite bool_decide_false by done. cbn.
  replace (_ || _) with true by (symmetry; rewrite orb_true_iff, !bool_decide_eq_true; naive_solver).
  unfold saved, Upsert, addSignature. cbn. rewrite Hs. cbn. rewrite Hid. eauto.
Qed.

(** Termination of a contract that was created without the option dereferences it. *)
Theorem terminate_without_option_panics s c w now from :
  contractDID ≠ "" → s !! contractDID = Some c → c_TerminationOption c = None →
  (handleContractTermination contractDID true w now from s).1 = Panic.
Proof.
  intros Hd Hc Ho. unfold handleContractTermination, withContract, GetContract.
  rewrite bool_decide_false, Hc by done. cbn. by rewrite Ho.
Qed.
End life.

(** ** Witnesses *)

Definition sample_details (m : PaymentModel) : PaymentDetails :=
  mkPaymentDetails "blockchain" m "5" "2" "0.5" "hour" "1" "1" "1" "" "hour" "20.00" "minute" 1 [] "USDT" None.

Definition sample_contract (m : PaymentModel) : CreateContractRequest :=
  mkCreateContract ∅ (mkDID "did:key:host") (mkDID "did:key:validator") Resources_zero None [] (sample_details m) ""
    (mkParticipants (mkDID "did:key:p") (mkDID "did:key:r"))
    (mkDurationDetails (time_Unix 1700000000) (time_Unix 1800000000)) false.

Definition signed_store : ContractStore :=
  let d := "did:key:c" in
  let s := Upsert ∅ (NewContract d (sample_contract FixedRental)) in
  let s := (handleContractSignByParticipants d true true (time_Unix 1700000001) (mkDID "did:key:r") "sr" s).2 in
  (handleContractSignByParticipants d true true (time_Unix 1700000002) (mkDID "did:key:p") "sp" s).2.

Lemma accepted_by_both_witness :
  ∃ c, signed_store !! "did:key:c" = Some c ∧ isActive c = true ∧ mkDID "did:key:p" ∈ signers c.
Proof.
  assert (contract_reachable "did:key:c" (sample_contract FixedRental) signed_store) as Hr.
  { eapply reach_step; [eapply reach_step; [apply (reach_new _ _ ∅)|apply step_sign]|apply step_sign]. }
  eexists. split; [reflexivity|]. split; [vm_compute; reflexivity|].
  eapply (accepted_by_both "did:key:c" _ _ _ Hr); [reflexivity|vm_compute; reflexivity].
Defined.
