(* ===== verification/UsageStore.v ===== *)
(** * The record of usage

    Events of allocations and deployments (tokenomics/events/events.go) and the store that
    keeps them with the time they arrived, and the time up to which a contract was billed
    (tokenomics/store/usage/usage.go).

    The payload of an event is JSON; [EventCodec] is what the code reads of it.  A query
    of the database returns the documents that match in any order ([visit]); whether the
    database answers is an argument. *)

From S2P Require Import Prelude Hardware ResourceManager GoTime.

(** ** Events *)

Definition CreateAllocationEvent : string := "CREATE_ALLOCATION_EVENT".
Definition StartAllocationEvent : string := "START_ALLOCATION_EVENT".
Definition StopAllocationEvent : string := "STOP_ALLOCATION_EVENT".
Definition CompleteAllocationEvent : string := "COMPLETE_ALLOCATION_EVENT".
Definition DeploymentStartEvent : string := "DEPLOYMENT_START_EVENT".
Definition DeploymentStopEvent : string := "DEPLOYMENT_STOP_EVENT".

Record AllocationBase := mkAllocationBase {
  ab_AllocationID : string;
  ab_DeploymentID : string;
  ab_ComputeProviderDID : string;
  ab_HeadContractDID : string
}.

(** [CreateAllocation] and [StartAllocation] carry resources. *)
Record AllocationEvent := mkAllocationEvent { ae_Base : AllocationBase; ae_Resources : Resources }.

Record DeploymentEvent := mkDeploymentEvent {
  de_DeploymentID : string;
  de_OrchestratorID : string;
  de_HeadContractDID : string
}.

(** The payload read as an event of each type, and as an object whose fields that are texts
    are looked up by name. *)
Class EventCodec := {
  json_type : string → option string;
  json_fields : string → option (gmap string string);
  json_create : string → option AllocationEvent;
  json_start : string → option AllocationEvent;
  json_stop : string → option AllocationBase;
  json_complete : string → option AllocationBase;
  json_depstart : string → option DeploymentEvent;
  json_depstop : string → option DeploymentEvent
}.

(** ** Documents *)

Record Usage := mkUsage {
  u_ContractDID : string;
  u_HeadContractDID : string;
  u_ProviderDID : string;
  u_EventType : string;
  u_Data : string;
  u_Timestamp : Time
}.

Record EventFilters := mkFilters {
  f_ContractDID : string;
  f_HeadContractDID : string;
  f_EventTypes : list string;
  f_StartTime : Time;
  f_EndTime : Time
}.

(** [us_docs] are the events with [created_at] as their timestamp; [us_last] the seconds
    saved under each key. *)
Record UsageStore := mkUsageStore { us_docs : list Usage; us_last : gmap string Z }.

Inductive usage_error := ErrEmptyContractDID | ErrUsageDatabase.

#[export] Instance usage_error_eq_dec : EqDecision usage_error.
Proof. solve_decision. Defined.

Section store.
  Context `{Visit : MapVisit} `{Codec : EventCodec} `{Local : Zone}.

(** The type of the event is read from the payload when it is not given. *)
Definition AddUsageEvent (answers : bool) (now : Time) (u : Usage) (s : UsageStore) : outcome usage_error () * UsageStore :=
  if bool_decide (u_ContractDID u = "") then (Err ErrEmptyContractDID, s)
  else
    let eventType :=
      if bool_decide (u_EventType u = "") && negb (bool_decide (u_Data u = "")) then default "" (json_type (u_Data u))
      else u_EventType u in
    if negb answers then (Err ErrUsageDatabase, s)
    else (Ok tt, mkUsageStore (mkUsage (u_ContractDID u) (u_HeadContractDID u) (u_ProviderDID u) eventType (u_Data u)
                                 (UnixNano now) :: us_docs s) (us_last s)).

Definition FindAll (answers : bool) (s : UsageStore) (criteria : Usage → bool) : outcome usage_error (list Usage) :=
  if answers then Ok (visit (List.filter criteria (us_docs s))) else Err ErrUsageDatabase.

(** A filter that is empty does not restrict. *)
Definition matches (f : EventFilters) (u : Usage) : bool :=
  (bool_decide (f_ContractDID f = "") || bool_decide (u_ContractDID u = f_ContractDID f)) &&
  (bool_decide (f_HeadContractDID f = "") || bool_decide (u_HeadContractDID u = f_HeadContractDID f)) &&
  (bool_decide (f_EventTypes f = []) || bool_decide (u_EventType u ∈ f_EventTypes f)) &&
  (IsZero (f_StartTime f) || (UnixNano (f_StartTime f) <=? u_Timestamp u)%Z) &&
  (IsZero (f_EndTime f) || (u_Timestamp u <=? UnixNano (f_EndTime f))%Z).

Definition QueryEvents (answers : bool) (s : UsageStore) (f : EventFilters) : outcome usage_error (list Usage) :=
  FindAll answers s (matches f).

Definition QueryEventsByProvider (answers : bool) (s : UsageStore) (contractDID providerDID : string) (f : EventFilters)
    : outcome usage_error (list Usage) :=
  FindAll answers s
    (λ u, bool_decide (u_ContractDID u = contractDID) &&
          (bool_decide (providerDID = "") || bool_decide (u_ProviderDID u = providerDID)) &&
          matches (mkFilters "" "" (f_EventTypes f) (f_StartTime f) (f_EndTime f)) u).

(** Without the provider and the time. *)
Definition untimed (u : Usage) : Usage :=
  mkUsage (u_ContractDID u) (u_HeadContractDID u) "" (u_EventType u) (u_Data u) Time_zero.

Definition GetEventsByContract (answers : bool) (s : UsageStore) (contractDID : string) : outcome usage_error (list Usage) :=
  match FindAll answers s (λ u, bool_decide (u_ContractDID u = contractDID)) with Ok l => Ok (map untimed l) | r => r end.
Definition GetEventsByHeadContract (answers : bool) (s : UsageStore) (headDID : string) : outcome usage_error (list Usage) :=
  match FindAll answers s (λ u, bool_decide (u_HeadContractDID u = headDID)) with Ok l => Ok (map untimed l) | r => r end.
Definition GetAllEvents (answers : bool) (s : UsageStore) : outcome usage_error (list Usage) :=
  match FindAll answers s (λ _, true) with Ok l => Ok (map untimed l) | r => r end.
Definition GetEventsByDateRange (answers : bool) (s : UsageStore) (start stop : Time) : outcome usage_error (list Usage) :=
  match FindAll answers s (λ u, (UnixNano start <=? u_Timestamp u)%Z && (u_Timestamp u <=? UnixNano stop)%Z) with
  | Ok l => Ok (map untimed l) | r => r end.

(** The events of two kinds of a contract, or of a head contract, since a year before the
    period. *)
Definition eventFilters (contractDID headDID : string) (types : list string) (start stop : Time) : EventFilters :=
  if bool_decide (headDID = "") then mkFilters contractDID "" types start stop else mkFilters "" headDID types start stop.

Definition queryBoth (answers : bool) (s : UsageStore) (contractDID : string) (queryStart queryEnd : Time) (headDID : string)
    (types types' : list string) : outcome usage_error (list Usage * list Usage) :=
  let bound := yearBefore queryStart in
  match QueryEvents answers s (eventFilters contractDID headDID types bound queryEnd) with
  | Ok starts =>
      match QueryEvents answers s (eventFilters contractDID headDID types' bound queryEnd) with
      | Ok ends => Ok (starts, ends)
      | Err e => Err e
      | Panic => Panic
      end
  | Err e => Err e
  | Panic => Panic
  end.

Definition QueryAllocationEvents (answers : bool) (s : UsageStore) (contractDID : string) (queryStart queryEnd : Time)
    (headDID : string) : outcome usage_error (list Usage * list Usage) :=
  queryBoth answers s contractDID queryStart queryEnd headDID
    [StartAllocationEvent] [CompleteAllocationEvent; StopAllocationEvent].

Definition QueryDeploymentEvents (answers : bool) (s : UsageStore) (contractDID : string) (queryStart queryEnd : Time)
    (headDID : string) : outcome usage_error (list Usage * list Usage) :=
  queryBoth answers s contractDID queryStart queryEnd headDID [DeploymentStartEvent] [DeploymentStopEvent].

Definition QueryCreateAllocationEvents (answers : bool) (s : UsageStore) (contractDID : string) : outcome usage_error (list Usage) :=
  QueryEvents answers s (mkFilters contractDID "" [CreateAllocationEvent] Time_zero Time_zero).

(** The part of a window that lies in the period. *)
Definition CalculateEffectiveTime (windowStart windowEnd : Time) (isComplete : bool) (queryStart queryEnd : Time)
    : option (Time * Time) :=
  let effectiveStart := if time_Before windowStart queryStart then queryStart else windowStart in
  if isComplete && negb (time_After windowEnd queryStart) then None
  else
    let effectiveEnd := if isComplete then windowEnd else queryEnd in
    if negb (time_Before effectiveStart effectiveEnd) then None else Some (effectiveStart, effectiveEnd).

(** The different identifiers of events that have one. *)
Definition distinctIDs (id : string → option string) (l : list Usage) : gset string :=
  list_to_set (omap (λ u, match id (u_Data u) with
                          | Some i => if bool_decide (i = "") then None else Some i
                          | None => None
                          end) l).

Definition startID (data : string) : option string := ab_AllocationID ∘ ae_Base <$> json_start data.
Definition depstartID (data : string) : option string := de_DeploymentID <$> json_depstart data.

Definition CountAllocationsByContractDID (answers : bool) (s : UsageStore) (contractDID : string) (start stop : Time)
    : outcome usage_error Z :=
  match QueryEvents answers s (mkFilters contractDID "" [StartAllocationEvent] start stop) with
  | Ok l => Ok (Z.of_nat (size (distinctIDs startID l))) | Err e => Err e | Panic => Panic end.

Definition CountDeploymentsByContract (answers : bool) (s : UsageStore) (contractDID : string) (start stop : Time)
    : outcome usage_error Z :=
  match QueryEvents answers s (mkFilters contractDID "" [DeploymentStartEvent] start stop) with
  | Ok l => Ok (Z.of_nat (size (distinctIDs depstartID l))) | Err e => Err e | Panic => Panic end.

(** The counts of all contracts that have an allocation. *)
Definition CountAllocationsByContract (answers : bool) (s : UsageStore) (start stop : Time)
    : outcome usage_error (gmap string Z) :=
  match QueryEvents answers s (mkFilters "" "" [StartAllocationEvent] start stop) with
  | Ok l =>
      let ids c := distinctIDs startID (List.filter (λ u, bool_decide (u_ContractDID u = c)) l) in
      Ok (fold_left (λ m u, if bool_decide (ids (u_ContractDID u) = ∅) then m
                            else <[u_ContractDID u := Z.of_nat (size (ids (u_ContractDID u)))]> m) l ∅)
  | Err e => Err e
  | Panic => Panic
  end.

(** ** Up to when a contract was billed *)

Definition lastProcessedAtKeyPrefix : string := "last_processed_at".

Definition lastKey (contractDID : string) : string :=
  if bool_decide (contractDID = "") then lastProcessedAtKeyPrefix
  else lastProcessedAtKeyPrefix +:+ (":" +:+ contractDID).

(** The instant is saved in seconds. *)
Definition SaveLastProcessedAt (answers : bool) (contractDID : string) (t : Time) (s : UsageStore)
    : outcome usage_error () * UsageStore :=
  if answers then (Ok tt, mkUsageStore (us_docs s) (<[lastKey contractDID := Unix t]> (us_last s)))
  else (Err ErrUsageDatabase, s).

Definition GetLastProcessedAt (answers : bool) (contractDID : string) (s : UsageStore) : outcome usage_error Time :=
  if answers then Ok (time_Unix (default 0%Z (us_last s !! lastKey contractDID))) else Err ErrUsageDatabase.

Definition InitializeContractMetadata (answers : bool) (contractDID : string) (s : UsageStore)
    : outcome usage_error () * UsageStore :=
  if bool_decide (contractDID = "") then (Err ErrEmptyContractDID, s)
  else if negb answers then (Err ErrUsageDatabase, s)
  else match us_last s !! lastKey contractDID with
  | Some _ => (Ok tt, s)
  | None => (Ok tt, mkUsageStore (us_docs s) (<[lastKey contractDID := Unix unixEpoch]> (us_last s)))
  end.
End store.

(** ** Facts *)

Lemma lastKey_inj c c' : lastKey c = lastKey c' → c = c'.
Proof.
  unfold lastKey. repeat case_bool_decide; try congruence; simpl; intros H'; by simplify_eq.
Qed.

(** Saving for one contract leaves the others. *)
Lemma Save_Get s contractDID t contractDID' :
  GetLastProcessedAt true contractDID' (SaveLastProcessedAt true contractDID t s).2 =
  if bool_decide (contractDID = contractDID') then Ok (time_Unix (Unix t)) else GetLastProcessedAt true contractDID' s.
Proof.
  unfold GetLastProcessedAt, SaveLastProcessedAt. cbn. case_bool_decide as He.
  - subst. by rewrite lookup_insert_eq.
  - by rewrite lookup_insert_ne by (intros ?%lastKey_inj; congruence).
Qed.
