(* ===== verification/Billing.v ===== *)
(** * Payment models

    How the usage of a contract becomes an amount: periods and units (utils/convert), the
    six payment models (tokenomics/contracts/processors), the interface they share and
    their registry (payment_processor.go), and the fee of the orchestrator
    (orchestration_fee.go).

    A processor reads the usage store; the identifiers of payments are drawn from
    [newID].  The metadata of a payment, a copy of its parts for display, is left out. *)

From S2P Require Import Prelude GoNumbers Hardware ResourceManager GoTime Contract UsageStore.

Inductive billing_error :=
| ErrBadNumber
| ErrBadUnit
| ErrBillingPeriod
| ErrPeriodNotElapsed
| ErrNoDeployments
| ErrNoElapsedTime
| ErrManualBilling
| ErrNoAutomaticBilling
| ErrUsageType
| ErrNoProcessor
| ErrMissingField
| ErrUsage (e : usage_error).

#[export] Instance billing_error_eq_dec : EqDecision billing_error.
Proof. solve_decision. Defined.

(** ** Units and periods *)

Definition StringToFloat64 (s : string) : outcome billing_error float64 :=
  if bool_decide (s = "") then Err ErrBadNumber
  else match ParseFloat s with Some x => Ok x | None => Err ErrBadNumber end.

Definition DurationToUnit (d : Duration) (unit : string) : outcome billing_error float64 :=
  if bool_decide (unit = "second") then Ok (Seconds d)
  else if bool_decide (unit = "minute") then Ok (Minutes d)
  else if bool_decide (unit = "hour") then Ok (Hours d)
  else Err ErrBadUnit.

Definition SecondsToUnit (seconds : float64) (unit : string) : outcome billing_error float64 :=
  DurationToUnit (s64_of_f64 (f64_mul seconds (f64_of_Z Second))) unit.

Definition ParsePaymentPeriod (period : string) : outcome billing_error Duration :=
  if bool_decide (period = PaymentPeriodMinute) then Ok Minute
  else if bool_decide (period = PaymentPeriodHour) then Ok Hour
  else if bool_decide (period = PaymentPeriodDay) then Ok (24 * Hour)%Z
  else if bool_decide (period = PaymentPeriodWeek) then Ok (7 * 24 * Hour)%Z
  else if bool_decide (period = PaymentPeriodMonth) then Ok (30 * 24 * Hour)%Z
  else Err ErrBillingPeriod.

Definition atLeastOne (periodCount : Z) : Z := if (periodCount <=? 0)%Z then 1%Z else periodCount.

(** The full cycles between two instants, and the span they are booked on, which starts at
    the first multiple of the period. *)
Definition CalculateElapsedPeriods (lastInvoiceAt now : Time) (periodDuration : Duration) (periodCount : Z)
    : Z * Time * Time :=
  let periodCount := atLeastOne periodCount in
  let elapsed := time_Sub now lastInvoiceAt in
  let periodsElapsed := dur_div elapsed periodDuration in
  let cycles := (periodsElapsed ÷ periodCount)%Z in
  if (cycles <? 1)%Z then (0%Z, Time_zero, Time_zero)
  else
    let periodStart := Truncate lastInvoiceAt periodDuration in
    let periodStart := if time_Before periodStart lastInvoiceAt then time_Add periodStart periodDuration else periodStart in
    (cycles, periodStart, time_Add periodStart (dur_mul periodDuration (s64 (cycles * periodCount)))).

(** ** What was used *)

Record AllocationTimeUtilization := mkAllocTime {
  atu_AllocationID : string;
  atu_Duration : Duration;
  atu_StartTime : Time;
  atu_EndTime : Time
}.

Record DeploymentTimeUtilization := mkDepTime {
  dtu_DeploymentID : string;
  dtu_Allocations : list AllocationTimeUtilization;
  dtu_TotalUtilizationSec : float64
}.

Record AllocationResourceUtilization := mkAllocRes {
  aru_AllocationID : string;
  aru_Resources : Resources;
  aru_Duration : Duration;
  aru_StartTime : Time;
  aru_EndTime : Time
}.

Record DeploymentResourceUtilization := mkDepRes {
  dru_DeploymentID : string;
  dru_Allocations : list AllocationResourceUtilization;
  dru_TotalUtilizationSec : float64
}.

Record FixedRentalUsage := mkFixedRental {
  fru_PeriodsInvoiced : Z;
  fru_PeriodStart : Time;
  fru_PeriodEnd : Time;
  fru_Amount : string;
  fru_LastInvoiceAt : Time
}.

Record PeriodicUsage := mkPeriodic {
  pu_PeriodStart : Time;
  pu_PeriodEnd : Time;
  pu_LastInvoiceAt : Time;
  pu_Deployments : list DeploymentTimeUtilization;
  pu_TotalTimeSec : float64;
  pu_Amount : string;
  pu_PeriodsInvoiced : Z
}.

Inductive usage_data :=
| CountData (n : Z)
| TimeData (deployments : list DeploymentTimeUtilization)
| ResourceData (deployments : list DeploymentResourceUtilization)
| FixedRentalData (u : FixedRentalUsage)
| PeriodicData (u : PeriodicUsage).

Record UsageData := mkUsageData {
  ud_ContractDID : string;
  ud_PaymentModel : PaymentModel;
  ud_Data : usage_data
}.

Record PaymentItem := mkPaymentItem {
  pi_UniqueID : string;
  pi_DeploymentID : string;
  pi_Amount : string;
  pi_Usages : Z;
  pi_IsOrchestrationFee : bool
}.

(** ** Windows *)

Record window := mkWindow {
  win_allocationID : string;
  win_deploymentID : string;
  win_startTime : Time;
  win_endTime : Time;
  win_isComplete : bool;
  win_resources : Resources
}.

Definition complete (t : Time) (w : window) : window :=
  mkWindow (win_allocationID w) (win_deploymentID w) (win_startTime w) t true (win_resources w).

Definition zero_f64 : float64 := f64_of_Z 0.

Section processors.
  Context `{Visit : MapVisit} `{Codec : EventCodec} `{Local : Zone}.
  Context (answers : bool) (store : UsageStore) (newID : nat → string).

Definition processAllocationEndEvent (evt : Usage) : option string :=
  if IsZero (u_Timestamp evt) then None
  else if bool_decide (u_EventType evt = CompleteAllocationEvent) then ab_AllocationID <$> json_complete (u_Data evt)
  else if bool_decide (u_EventType evt = StopAllocationEvent) then ab_AllocationID <$> json_stop (u_Data evt)
  else None.

(** A start opens the window of its allocation, in place of one there was. *)
Definition openWindow (resources : gmap string Resources) (ws : gmap string window) (evt : Usage) : gmap string window :=
  if IsZero (u_Timestamp evt) then ws
  else match json_start (u_Data evt) with
  | None => ws
  | Some d =>
      let id := ab_AllocationID (ae_Base d) in
      let own := ae_Resources d in
      let res := if float_eq (CPU_Cores (res_CPU own)) zero_f64 && (RAM_Size (res_RAM own) =? 0)%Z
                 then default own (resources !! id) else own in
      <[id := mkWindow id (ab_DeploymentID (ae_Base d)) (u_Timestamp evt) Time_zero false res]> ws
  end.

Definition closeWindow (ws : gmap string window) (evt : Usage) : gmap string window :=
  match processAllocationEndEvent evt with
  | Some id => alter (complete (u_Timestamp evt)) id ws
  | None => ws
  end.

Definition buildAllocationWindowsWithResources (starts ends : list Usage) (resources : gmap string Resources)
    : gmap string window :=
  fold_left closeWindow ends (fold_left (openWindow resources) starts ∅).

Definition buildAllocationWindows (starts ends : list Usage) : gmap string window :=
  buildAllocationWindowsWithResources starts ends ∅.

(** The time of a window in the period. *)
Definition windowTime (w : window) (queryStart queryEnd : Time) : option Duration :=
  (λ '(s, e), time_Sub e s) <$>
    CalculateEffectiveTime (win_startTime w) (win_endTime w) (win_isComplete w) queryStart queryEnd.

Definition endOf (w : window) : Time := if win_isComplete w then win_endTime w else Time_zero.

Definition addTime (queryStart queryEnd : Time) (m : gmap string DeploymentTimeUtilization) (w : window)
    : gmap string DeploymentTimeUtilization :=
  match windowTime w queryStart queryEnd with
  | None => m
  | Some d =>
      let old := default (mkDepTime (win_deploymentID w) [] zero_f64) (m !! win_deploymentID w) in
      <[win_deploymentID w :=
          mkDepTime (dtu_DeploymentID old)
            (dtu_Allocations old ++ [mkAllocTime (win_allocationID w) d (win_startTime w) (endOf w)])
            (f64_add (dtu_TotalUtilizationSec old) (Seconds d))]> m
  end.

Definition calculateDeploymentTimeUtilization (ws : gmap string window) (queryStart queryEnd : Time)
    : list DeploymentTimeUtilization :=
  visit (map snd (map_to_list
    (fold_left (addTime queryStart queryEnd) (visit (map snd (map_to_list ws))) ∅))).

Definition addResources (queryStart queryEnd : Time) (m : gmap string DeploymentResourceUtilization) (w : window)
    : gmap string DeploymentResourceUtilization :=
  match windowTime w queryStart queryEnd with
  | None => m
  | Some d =>
      let old := default (mkDepRes (win_deploymentID w) [] zero_f64) (m !! win_deploymentID w) in
      <[win_deploymentID w :=
          mkDepRes (dru_DeploymentID old)
            (dru_Allocations old ++
               [mkAllocRes (win_allocationID w) (win_resources w) d (win_startTime w) (endOf w)])
            (f64_add (dru_TotalUtilizationSec old) (Seconds d))]> m
  end.

Definition calculateDeploymentResourceUtilization (ws : gmap string window) (queryStart queryEnd : Time)
    : list DeploymentResourceUtilization :=
  visit (map snd (map_to_list
    (fold_left (addResources queryStart queryEnd) (visit (map snd (map_to_list ws))) ∅))).

(** ** The interface of a payment model *)

Record PaymentModelProcessor := mkProcessor {
  CollectUsage : string → Time → Time → string → outcome billing_error UsageData;
  CalculatePayment : UsageData → ContractDoc → outcome billing_error (list PaymentItem);
  Validate_details : PaymentDetails → bool;
  SupportsManualBilling : bool;
  SupportsAutomaticBilling : bool;
  CheckAndGenerateInvoice : ContractDoc → Time → Time → outcome billing_error UsageData
}.

Definition lift_usage {A} (o : outcome usage_error A) : outcome billing_error A :=
  match o with Ok x => Ok x | Err e => Err (ErrUsage e) | Panic => Panic end.

(** A head contract is billed by the events that name it. *)
Definition headContractDID (c : ContractDoc) : string :=
  if bool_decide (c_Metadata c !! "contract_chain_role" = Some "head") then c_ContractDID c else "".

(** The four models that collect the usage since the last invoice when a cycle has
    elapsed. *)
Definition invoiceByCollecting (collect : string → Time → Time → string → outcome billing_error UsageData)
    (c : ContractDoc) (lastInvoiceAt now : Time) : outcome billing_error UsageData :=
  let pd := c_PaymentDetails c in
  (let? period := ParsePaymentPeriod (pd_PaymentPeriod pd) in
   let '(cycles, _, _) := CalculateElapsedPeriods lastInvoiceAt now period (pd_PaymentPeriodCount pd) in
   if (cycles <? 1)%Z then Err ErrPeriodNotElapsed
   else collect (c_ContractDID c) lastInvoiceAt now (headContractDID c))%go.

(** What the models with an optional period require of it. *)
Definition validOptionalPeriod (pd : PaymentDetails) : bool :=
  (bool_decide (pd_PaymentPeriod pd = "") || is_ok (ParsePaymentPeriod (pd_PaymentPeriod pd))) &&
  (0 <=? pd_PaymentPeriodCount pd)%Z.

Definition validPeriod (pd : PaymentDetails) : bool :=
  is_ok (ParsePaymentPeriod (pd_PaymentPeriod pd)) && (0 <? pd_PaymentPeriodCount pd)%Z.

(** ** Per allocation and per deployment *)

Definition collectCount (m : PaymentModel) (eventType : string) (id : string → option string)
    (count : string → Time → Time → outcome usage_error Z)
    (contractDID : string) (lastProcessedAt now : Time) (headDID : string) : outcome billing_error UsageData :=
  (let? n :=
     (if bool_decide (headDID = "") then lift_usage (count contractDID lastProcessedAt now)
      else let? evts := lift_usage (QueryEvents answers store (mkFilters "" headDID [eventType] lastProcessedAt now)) in
           Ok (Z.of_nat (size (distinctIDs id evts)))) in
   Ok (mkUsageData contractDID m (CountData n)))%go.

Definition paymentOfCount (fee : PaymentDetails → string) (u : UsageData) (c : ContractDoc)
    : outcome billing_error (list PaymentItem) :=
  match ud_Data u with
  | CountData n =>
      if (n =? 0)%Z then Ok []
      else (let? f := StringToFloat64 (fee (c_PaymentDetails c)) in
            Ok [mkPaymentItem (newID 0) "" (formatAmount (f64_mul f (f64_of_Z n))) n false])%go
  | _ => Err ErrUsageType
  end.

Definition collectAllocations : string → Time → Time → string → outcome billing_error UsageData :=
  collectCount PayPerAllocation StartAllocationEvent startID (CountAllocationsByContractDID answers store).

Definition PayPerAllocationProcessor : PaymentModelProcessor :=
  mkProcessor collectAllocations (paymentOfCount pd_FeePerAllocation)
    (λ pd, is_ok (StringToFloat64 (pd_FeePerAllocation pd)) && validOptionalPeriod pd) true true
    (invoiceByCollecting collectAllocations).

Definition collectDeployments : string → Time → Time → string → outcome billing_error UsageData :=
  collectCount PayPerDeployment DeploymentStartEvent depstartID (CountDeploymentsByContract answers store).

Definition PayPerDeploymentProcessor : PaymentModelProcessor :=
  mkProcessor collectDeployments (paymentOfCount pd_FeePerDeployment)
    (λ pd, is_ok (StringToFloat64 (pd_FeePerDeployment pd)) && validOptionalPeriod pd) true true
    (invoiceByCollecting collectDeployments).

(** ** By time *)

Definition collectTime (contractDID : string) (lastProcessedAt now : Time) (headDID : string)
    : outcome billing_error UsageData :=
  (let? (starts, ends) := lift_usage (QueryAllocationEvents answers store contractDID lastProcessedAt now headDID) in
   Ok (mkUsageData contractDID PayPerTimeUtilization
         (TimeData (calculateDeploymentTimeUtilization (buildAllocationWindows starts ends) lastProcessedAt now))))%go.

(** One payment for each deployment. *)
Fixpoint itemsByTime (fee : float64) (unit : string) (i : nat) (l : list DeploymentTimeUtilization)
    : outcome billing_error (list PaymentItem) :=
  match l with
  | [] => Ok []
  | d :: l =>
      (let? t := SecondsToUnit (dtu_TotalUtilizationSec d) unit in
       let? items := itemsByTime fee unit (S i) l in
       Ok (mkPaymentItem (newID i) (dtu_DeploymentID d) (formatAmount (f64_mul fee t)) 1 false :: items))%go
  end.

Definition paymentByTime (pd : PaymentDetails) (l : list DeploymentTimeUtilization) : outcome billing_error (list PaymentItem) :=
  (let? fee := StringToFloat64 (pd_FeePerTimeUnit pd) in itemsByTime fee (pd_TimeUnit pd) 0 l)%go.

Definition PayPerTimeUtilizationProcessor : PaymentModelProcessor :=
  mkProcessor collectTime
    (λ u c, match ud_Data u with TimeData l => paymentByTime (c_PaymentDetails c) l | _ => Err ErrUsageType end)
    (λ pd, negb (bool_decide (pd_TimeUnit pd = "")) && is_ok (StringToFloat64 (pd_FeePerTimeUnit pd)) &&
           validOptionalPeriod pd) true true
    (invoiceByCollecting collectTime).

(** ** By resources *)

Definition collectResources (contractDID : string) (lastProcessedAt now : Time) (headDID : string)
    : outcome billing_error UsageData :=
  (let? (starts, ends) := lift_usage (QueryAllocationEvents answers store contractDID lastProcessedAt now headDID) in
   let? creates := lift_usage (QueryCreateAllocationEvents answers store contractDID) in
   let resources := fold_left (λ m evt, match json_create (u_Data evt) with
                                        | Some d => <[ab_AllocationID (ae_Base d) := ae_Resources d]> m
                                        | None => m
                                        end) creates ∅ in
   Ok (mkUsageData contractDID PayPerResourceUtilization
         (ResourceData (calculateDeploymentResourceUtilization
            (buildAllocationWindowsWithResources starts ends resources) lastProcessedAt now))))%go.

Definition bytesInGB : Z := (1024 * 1024 * 1024)%Z.

(** The cost of one allocation, given the fees of a core, a gigabyte of memory, one of disk
    and a GPU. *)
Definition allocationCost (cpu ram disk gpu : float64) (unit : string) (a : AllocationResourceUtilization)
    : outcome billing_error float64 :=
  (let? t := DurationToUnit (aru_Duration a) unit in
   let r := aru_Resources a in
   let gigabytes n := f64_div (f64_of_Z n) (f64_of_Z bytesInGB) in
   let cpuCost := f64_mul (f64_mul (f64_of_f32 (CPU_Cores (res_CPU r))) cpu) t in
   let ramCost := f64_mul (f64_mul (gigabytes (RAM_Size (res_RAM r))) ram) t in
   let diskCost := f64_mul (f64_mul (gigabytes (Disk_Size (res_Disk r))) disk) t in
   let gpus := Z.of_nat (length (res_GPUs r)) in
   let gpuCost := if (0 <? gpus)%Z && float_lt zero_f64 gpu then f64_mul (f64_mul (f64_of_Z gpus) gpu) t else zero_f64 in
   Ok (f64_add (f64_add (f64_add cpuCost ramCost) diskCost) gpuCost))%go.

Fixpoint sumCosts (cost : AllocationResourceUtilization → outcome billing_error float64) (total : float64)
    (l : list AllocationResourceUtilization) : outcome billing_error float64 :=
  match l with
  | [] => Ok total
  | a :: l => (let? c := cost a in sumCosts cost (f64_add total c) l)%go
  end.

Fixpoint itemsByResources (cost : AllocationResourceUtilization → outcome billing_error float64) (i : nat)
    (l : list DeploymentResourceUtilization) : outcome billing_error (list PaymentItem) :=
  match l with
  | [] => Ok []
  | d :: l =>
      (let? total := sumCosts cost zero_f64 (dru_Allocations d) in
       let? items := itemsByResources cost (S i) l in
       Ok (mkPaymentItem (newID i) (dru_DeploymentID d) (formatAmount total) 1 false :: items))%go
  end.

Definition paymentByResources (pd : PaymentDetails) (l : list DeploymentResourceUtilization)
    : outcome billing_error (list PaymentItem) :=
  (let? cpu := StringToFloat64 (pd_FeePerCPUCorePerTimeUnit pd) in
   let? ram := StringToFloat64 (pd_FeePerRAMGBPerTimeUnit pd) in
   let? disk := StringToFloat64 (pd_FeePerDiskGBPerTimeUnit pd) in
   let? gpu := (if bool_decide (pd_FeePerGPUPerTimeUnit pd = "") then Ok zero_f64
                else StringToFloat64 (pd_FeePerGPUPerTimeUnit pd)) in
   itemsByResources (allocationCost cpu ram disk gpu (pd_ResourceTimeUnit pd)) 0 l)%go.

Definition PayPerResourceUtilizationProcessor : PaymentModelProcessor :=
  mkProcessor collectResources
    (λ u c, match ud_Data u with ResourceData l => paymentByResources (c_PaymentDetails c) l | _ => Err ErrUsageType end)
    (λ pd, negb (bool_decide (pd_ResourceTimeUnit pd = "")) &&
           is_ok (StringToFloat64 (pd_FeePerCPUCorePerTimeUnit pd)) &&
           is_ok (StringToFloat64 (pd_FeePerRAMGBPerTimeUnit pd)) &&
           is_ok (StringToFloat64 (pd_FeePerDiskGBPerTimeUnit pd)) &&
           (bool_decide (pd_FeePerGPUPerTimeUnit pd = "") || is_ok (StringToFloat64 (pd_FeePerGPUPerTimeUnit pd))) &&
           validOptionalPeriod pd) true true
    (invoiceByCollecting collectResources).

(** ** Fixed rental *)

Definition fixedRentalInvoice (c : ContractDoc) (lastInvoiceAt now : Time) : outcome billing_error UsageData :=
  let pd := c_PaymentDetails c in
  (let? period := ParsePaymentPeriod (pd_PaymentPeriod pd) in
   let '(cycles, periodStart, periodEnd) := CalculateElapsedPeriods lastInvoiceAt now period (pd_PaymentPeriodCount pd) in
   if (cycles <? 1)%Z then Err ErrPeriodNotElapsed
   else
     let? amount := StringToFloat64 (pd_FixedRentalAmount pd) in
     let periods := if (pd_PaymentPeriodCount pd <=? 0)%Z then cycles else s64 (cycles * pd_PaymentPeriodCount pd) in
     Ok (mkUsageData (c_ContractDID c) FixedRental
           (FixedRentalData (mkFixedRental periods periodStart periodEnd
              (formatAmount (f64_mul amount (f64_of_Z cycles))) lastInvoiceAt))))%go.

(** The part of a cycle since the last invoice, when a contract is terminated. *)
Definition fixedRentalProRated (c : ContractDoc) (lastInvoiceAt now : Time) : outcome billing_error UsageData :=
  let pd := c_PaymentDetails c in
  (let? period := ParsePaymentPeriod (pd_PaymentPeriod pd) in
   let elapsed := time_Sub now lastInvoiceAt in
   if (elapsed <=? 0)%Z then Err ErrNoElapsedTime
   else
     let cycle := dur_mul period (atLeastOne (pd_PaymentPeriodCount pd)) in
     let? amount := StringToFloat64 (pd_FixedRentalAmount pd) in
     Ok (mkUsageData (c_ContractDID c) FixedRental
           (FixedRentalData (mkFixedRental 0 lastInvoiceAt now
              (formatAmount (f64_mul (f64_div (f64_of_Z elapsed) (f64_of_Z cycle)) amount)) lastInvoiceAt))))%go.

Definition FixedRentalProcessor : PaymentModelProcessor :=
  mkProcessor (λ _ _ _ _, Err ErrManualBilling)
    (λ u _, match ud_Data u with
            | FixedRentalData f => Ok [mkPaymentItem (newID 0) "" (fru_Amount f) 1 false]
            | _ => Err ErrUsageType
            end)
    (λ pd, is_ok (StringToFloat64 (pd_FixedRentalAmount pd)) && validPeriod pd) false true
    fixedRentalInvoice.

(** ** Periodic: the time deployments ran *)

(** The first start and the last stop that are returned count. *)
Definition openDeployment (ws : gmap string window) (evt : Usage) : gmap string window :=
  if negb (bool_decide (u_EventType evt = DeploymentStartEvent)) || IsZero (u_Timestamp evt) then ws
  else match json_depstart (u_Data evt) with
  | None => ws
  | Some d =>
      match ws !! de_DeploymentID d with
      | Some _ => ws
      | None => <[de_DeploymentID d := mkWindow "" (de_DeploymentID d) (u_Timestamp evt) Time_zero false Resources_zero]> ws
      end
  end.

Definition closeDeployment (ws : gmap string window) (evt : Usage) : gmap string window :=
  if negb (bool_decide (u_EventType evt = DeploymentStopEvent)) || IsZero (u_Timestamp evt) then ws
  else match json_depstop (u_Data evt) with
  | None => ws
  | Some d => alter (complete (u_Timestamp evt)) (de_DeploymentID d) ws
  end.

Definition buildDeploymentWindows (starts stops : list Usage) : gmap string window :=
  fold_left closeDeployment stops (fold_left openDeployment starts ∅).

(** A deployment that did not stop within the period ran until now. *)
Definition deploymentTime (queryStart queryEnd now : Time) (w : window) : option Duration :=
  windowTime w queryStart (if win_isComplete w then queryEnd else now).

Definition addDeployment (queryStart queryEnd now : Time) (acc : list DeploymentTimeUtilization * float64) (w : window)
    : list DeploymentTimeUtilization * float64 :=
  match deploymentTime queryStart queryEnd now w with
  | None => acc
  | Some d =>
      if float_lt zero_f64 (Seconds d)
      then (acc.1 ++ [mkDepTime (win_deploymentID w) [] (Seconds d)], f64_add acc.2 (Seconds d))
      else acc
  end.

Definition deploymentTimes (ws : gmap string window) (queryStart queryEnd now : Time)
    : list DeploymentTimeUtilization * float64 :=
  fold_left (addDeployment queryStart queryEnd now) (visit (map snd (map_to_list ws))) ([], zero_f64).

(** The invoice for the deployments of a span. *)
Definition periodicUsage (c : ContractDoc) (lastInvoiceAt periodStart periodEnd now : Time) (periods : Z)
    : outcome billing_error UsageData :=
  let pd := c_PaymentDetails c in
  (let? (starts, stops) :=
     lift_usage (QueryDeploymentEvents answers store (c_ContractDID c) periodStart periodEnd (headContractDID c)) in
   let '(deployments, total) := deploymentTimes (buildDeploymentWindows starts stops) periodStart periodEnd now in
   if bool_decide (deployments = []) || negb (float_lt zero_f64 total) then Err ErrNoDeployments
   else
     let? fee := StringToFloat64 (pd_FeePerTimeUnit pd) in
     let? t := SecondsToUnit total (pd_TimeUnit pd) in
     Ok (mkUsageData (c_ContractDID c) Periodic
           (PeriodicData (mkPeriodic periodStart periodEnd lastInvoiceAt deployments total
              (formatAmount (f64_mul fee t)) periods))))%go.

Definition periodicInvoice (c : ContractDoc) (lastInvoiceAt now : Time) : outcome billing_error UsageData :=
  let pd := c_PaymentDetails c in
  (let? period := ParsePaymentPeriod (pd_PaymentPeriod pd) in
   let '(cycles, periodStart, periodEnd) := CalculateElapsedPeriods lastInvoiceAt now period (pd_PaymentPeriodCount pd) in
   if (cycles <? 1)%Z then Err ErrPeriodNotElapsed
   else periodicUsage c lastInvoiceAt periodStart periodEnd now
          (if (pd_PaymentPeriodCount pd <=? 0)%Z then cycles else s64 (cycles * pd_PaymentPeriodCount pd)))%go.

Definition periodicProRated (c : ContractDoc) (lastInvoiceAt now : Time) : outcome billing_error UsageData :=
  periodicUsage c lastInvoiceAt lastInvoiceAt now now 0.

Definition PeriodicProcessor : PaymentModelProcessor :=
  mkProcessor (λ _ _ _ _, Err ErrManualBilling)
    (λ u c, match ud_Data u with
            | PeriodicData p => paymentByTime (c_PaymentDetails c) (pu_Deployments p)
            | _ => Err ErrUsageType
            end)
    (λ pd, negb (bool_decide (pd_TimeUnit pd = "")) && is_ok (StringToFloat64 (pd_FeePerTimeUnit pd)) && validPeriod pd)
    false true periodicInvoice.

(** ** The registry *)

(** Every model is registered when the service starts. *)
Definition GetPaymentModelProcessor (m : PaymentModel) : outcome billing_error PaymentModelProcessor :=
  match m with
  | PayPerAllocation => Ok PayPerAllocationProcessor
  | PayPerDeployment => Ok PayPerDeploymentProcessor
  | PayPerTimeUtilization => Ok PayPerTimeUtilizationProcessor
  | PayPerResourceUtilization => Ok PayPerResourceUtilizationProcessor
  | FixedRental => Ok FixedRentalProcessor
  | Periodic => Ok PeriodicProcessor
  | OtherModel _ => Err ErrNoProcessor
  end.
End processors.

(** ** The fee of the orchestrator *)

Definition parseFee (s : string) : outcome billing_error float64 :=
  if unset s then Ok zero_f64 else match ParseFloat s with Some x => Ok x | None => Err ErrBadNumber end.

Fixpoint totalAmount (total : float64) (items : list PaymentItem) : outcome billing_error float64 :=
  match items with
  | [] => Ok total
  | i :: items =>
      match ParseFloat (pi_Amount i) with
      | Some x => totalAmount (f64_add total x) items
      | None => Err ErrBadNumber
      end
  end.

(** A fixed amount and a percentage of all payments; [""] when there is none. *)
Definition CalculateFee (items : list PaymentItem) (config : option OrchestrationFeeConfig) : outcome billing_error string :=
  match config with
  | None => Ok ""
  | Some config =>
      (let? fixed := parseFee (of_FixedAmount config) in
       let? percentage := parseFee (of_Percentage config) in
       if float_eq fixed zero_f64 && float_eq percentage zero_f64 then Ok ""
       else
         let? total := totalAmount zero_f64 items in
         Ok (formatAmount (f64_add fixed (f64_div (f64_mul total percentage) (f64_of_Z 100)))))%go
  end.

Definition GenerateOrchestrationFeeItem (items : list PaymentItem) (baseUniqueID feeAmount : string) : option PaymentItem :=
  if bool_decide (feeAmount = "") then None
  else Some (mkPaymentItem (baseUniqueID +:+ "-orchestration-fee") "" feeAmount (Z.of_nat (length items)) true).
