(* ===== verification/ContractHost.v ===== *)
(** * Billing a contract

    The half of the contract's actor that records events and sends invoices
    (tokenomics/contract_host.go), and the schedule on which it is asked to
    (tokenomics/billing_scheduler.go, billing_trigger.go).

    [World] holds what is outside during one check: the clock, whether the databases
    answer, whether an invoice is forwarded, and fresh identifiers. *)

From S2P Require Import Prelude GoNumbers Hardware ResourceManager Key GoTime Contract UsageStore Billing.

(** ** Recording events *)

Section events.
  Context `{Codec : EventCodec} (contractDID : string).

(** The fields of the payload; the sender is the provider when the payload names none. *)
Definition handleContractEvents (answers : bool) (now : Time) (from : DID) (payload : string) (s : UsageStore)
    : outcome usage_error () * UsageStore :=
  let fields := default ∅ (json_fields payload) in
  let field k := default "" (fields !! k) in
  let provider := if bool_decide (field "provider_did" = "") then DID_String from else field "provider_did" in
  AddUsageEvent answers now
    (mkUsage contractDID (field "head_contract_did") provider (field "type") payload Time_zero) s.
End events.

(** ** Invoices *)

Record ContractUsageRequest := mkUsageRequest {
  cur_UniqueID : string;
  cur_Contract : ContractDoc;
  cur_Usages : Z;
  cur_Data : option usage_data
}.

Record World := mkWorld {
  w_now : Time;
  w_contracts : bool;
  w_last : bool;
  w_query : bool;
  w_save : bool;
  w_forward : option (ContractUsageRequest → bool);   (* [None]: no function was set *)
  w_uuid : nat → string
}.

(** The stores of the host, and the invoices that were forwarded. *)
Record Host := mkHost { h_contracts : ContractStore; h_usage : UsageStore; h_invoices : list ContractUsageRequest }.

Section billing.
  Context `{Visit : MapVisit} `{Codec : EventCodec} `{Local : Zone} (contractDID : string).

Definition save (w : World) (t : Time) (h : Host) : Host :=
  mkHost (h_contracts h) (SaveLastProcessedAt (w_save w) contractDID t (h_usage h)).2 (h_invoices h).

Definition forward (w : World) (req : ContractUsageRequest) (h : Host) : bool * Host :=
  match w_forward w with
  | Some f => if f req then (true, mkHost (h_contracts h) (h_usage h) (h_invoices h ++ [req])) else (false, h)
  | None => (false, h)
  end.

(** One request, after which the time is saved when it was forwarded. *)
Definition sendOne (w : World) (req : ContractUsageRequest) (now : Time) (h : Host) : Host :=
  match forward w req h with (true, h) => save w now h | (false, h) => h end.

Definition sendFixedRentalInvoice (w : World) (c : ContractDoc) (u : usage_data) (now : Time) (h : Host) : Host :=
  match u with
  | FixedRentalData f => sendOne w (mkUsageRequest (w_uuid w 0) c (fru_PeriodsInvoiced f) (Some u)) now h
  | _ => h
  end.

(** One invoice for each deployment; those that fail are skipped, and the time is saved. *)
Definition periodicRequest (w : World) (c : ContractDoc) (p : PeriodicUsage) (fee : float64) (i : nat)
    (d : DeploymentTimeUtilization) : option ContractUsageRequest :=
  let sec := dtu_TotalUtilizationSec d in
  let unit := pd_TimeUnit (c_PaymentDetails c) in
  let time := if bool_decide (unit = "second") then Some sec
              else if bool_decide (unit = "minute") then Some (f64_div sec (f64_of_Z 60))
              else if bool_decide (unit = "hour") then Some (f64_div sec (f64_of_Z 3600))
              else None in
  (λ t, mkUsageRequest (w_uuid w i) c 0
     (Some (PeriodicData (mkPeriodic (pu_PeriodStart p) (pu_PeriodEnd p) (pu_LastInvoiceAt p) [d] sec
        (formatAmount (f64_mul fee t)) (pu_PeriodsInvoiced p))))) <$> time.

Fixpoint sendPeriodics (w : World) (c : ContractDoc) (p : PeriodicUsage) (fee : float64) (i : nat)
    (l : list DeploymentTimeUtilization) (h : Host) : Host :=
  match l with
  | [] => h
  | d :: l =>
      let h := match periodicRequest w c p fee i d with Some req => (forward w req h).2 | None => h end in
      sendPeriodics w c p fee (S i) l h
  end.

Definition sendPeriodicInvoice (w : World) (c : ContractDoc) (u : usage_data) (now : Time) (h : Host) : Host :=
  match u with
  | PeriodicData p =>
      match ParseFloat (pd_FeePerTimeUnit (c_PaymentDetails c)) with
      | None => h
      | Some fee => save w now (sendPeriodics w c p fee 0 (pu_Deployments p) h)
      end
  | _ => h
  end.

Definition sendGenericInvoice (w : World) (c : ContractDoc) (u : UsageData) (now : Time) (h : Host) : Host :=
  match ud_PaymentModel u, ud_Data u with
  | PayPerAllocation, CountData n | PayPerDeployment, CountData n =>
      sendOne w (mkUsageRequest (w_uuid w 0) c n None) now h
  | PayPerTimeUtilization, TimeData l =>
      sendOne w (mkUsageRequest (w_uuid w 0) c (Z.of_nat (length l)) (Some (TimeData l))) now h
  | PayPerResourceUtilization, ResourceData l =>
      sendOne w (mkUsageRequest (w_uuid w 0) c (Z.of_nat (length l)) (Some (ResourceData l))) now h
  | _, _ => h
  end.

Definition sendInvoice (w : World) (c : ContractDoc) (u : UsageData) (now : Time) (h : Host) : Host :=
  match pd_PaymentModel (c_PaymentDetails c) with
  | FixedRental => sendFixedRentalInvoice w c (ud_Data u) now h
  | Periodic => sendPeriodicInvoice w c (ud_Data u) now h
  | OtherModel _ => h
  | _ => sendGenericInvoice w c u now h
  end.

(** When the contract was terminated, by its history; [now] when that does not say. *)
Definition terminationTime (c : ContractDoc) (now : Time) : Time :=
  match List.find (λ t, bool_decide (st_ToState t = ContractTerminated)) (rev (c_Transitions c)) with
  | Some t => if IsZero (st_Timestamp t) then now else st_Timestamp t
  | None => now
  end.

(** The last invoice of a terminated contract: for full cycles, or for a part of one where the
    model has that. *)
Definition handleTerminatedContractInvoice (w : World) (c : ContractDoc) (p : PaymentModelProcessor) (h : Host) : Host :=
  match GetLastProcessedAt (w_last w) contractDID (h_usage h) with
  | Ok lastInvoiceAt =>
      if IsZero lastInvoiceAt then h
      else
        let endTime := terminationTime c (w_now w) in
        if (time_Sub endTime lastInvoiceAt <=? 0)%Z then h
        else match CheckAndGenerateInvoice p c lastInvoiceAt endTime with
        | Ok u => sendInvoice w c u endTime h
        | Err ErrPeriodNotElapsed =>
            let proRated :=
              match pd_PaymentModel (c_PaymentDetails c) with
              | Periodic => Some (periodicProRated (w_query w) (h_usage h) c lastInvoiceAt endTime)
              | FixedRental => Some (fixedRentalProRated c lastInvoiceAt endTime)
              | _ => None
              end in
            match proRated with Some (Ok u) => sendInvoice w c u endTime h | _ => h end
        | _ => h
        end
  | _ => h
  end.

(** A cycle without deployments is skipped. *)
Definition skipCycle (w : World) (c : ContractDoc) (lastInvoiceAt : Time) (h : Host) : Host :=
  let pd := c_PaymentDetails c in
  if bool_decide (pd_PaymentModel pd = Periodic) then
    match ParsePaymentPeriod (pd_PaymentPeriod pd) with
    | Ok period => save w (time_Add lastInvoiceAt (dur_mul period (atLeastOne (pd_PaymentPeriodCount pd)))) h
    | _ => h
    end
  else h.

(** The check for a contract that goes on: the first one only sets the time billing starts
    from. *)
Definition regularCheck (w : World) (c : ContractDoc) (p : PaymentModelProcessor) (start : Time) (h : Host) : Host :=
  match GetLastProcessedAt (w_last w) contractDID (h_usage h) with
  | Ok lastInvoiceAt =>
      if IsZero lastInvoiceAt || (lastInvoiceAt =? unixEpoch)%Z then save w start h
      else match CheckAndGenerateInvoice p c lastInvoiceAt (w_now w) with
      | Ok u => sendInvoice w c u (w_now w) h
      | Err ErrNoDeployments => skipCycle w c lastInvoiceAt h
      | _ => h
      end
  | _ => h
  end.

(** [true] when billing of this contract is to stop. *)
Definition checkAndGenerateInvoice (w : World) (h : Host) : outcome billing_error bool * Host :=
  match GetContract (w_contracts w) (h_contracts h) contractDID with
  | Ok c =>
      if c_DisableBilling c then (Ok true, h)
      else match GetPaymentModelProcessor (w_query w) (h_usage h) (w_uuid w) (pd_PaymentModel (c_PaymentDetails c)) with
      | Ok p =>
          if negb (SupportsAutomaticBilling p) then (Ok true, h)
          else if bool_decide (c_CurrentState c = ContractTerminated)
          then (Ok true, handleTerminatedContractInvoice w c p h)
          else if bool_decide (c_CurrentState c = ContractCompleted) then (Ok true, h)
          else match c_Duration c with
          | None => (Panic, h)
          | Some d =>
              if time_After (w_now w) (EndDate d) then (Ok true, h)
              else (Ok false, regularCheck w c p (StartDate d) h)
          end
      | _ => (Ok true, h)
      end
  | Err _ => (Ok false, h)
  | Panic => (Panic, h)
  end.
End billing.

(** ** The schedule *)

Definition calculateBillingCycle (c : ContractDoc) : Duration :=
  let pd := c_PaymentDetails c in
  let period := match ParsePaymentPeriod (pd_PaymentPeriod pd) with Ok d => d | _ => Hour end in
  dur_mul period (atLeastOne (pd_PaymentPeriodCount pd)).

(** A tenth of the cycle, at least half a minute, at most half the cycle or a day. *)
Definition calculateCheckInterval (billingCycle : Duration) : Duration :=
  let checkInterval := dur_div billingCycle 10%Z in
  let checkInterval := if (checkInterval <? 30 * Second)%Z then (30 * Second)%Z else checkInterval in
  let maxInterval := dur_div billingCycle 2%Z in
  let maxInterval := if (24 * Hour <? maxInterval)%Z then (24 * Hour)%Z else maxInterval in
  if (maxInterval <? checkInterval)%Z then maxInterval else checkInterval.

Record BillingCycleTrigger := mkTrigger {
  tr_BillingCycle : Duration;
  tr_LastInvoiceAt : Time;
  tr_CheckInterval : Duration;
  tr_startedAt : Time;
  tr_nextCheck : Time
}.

(** [None] is a division by zero: the product of period and count can wrap to zero. *)
Definition calculateNextCheck (cycle : Duration) (lastInvoiceAt : Time) (checkInterval : Duration) (startedAt now : Time)
    : option Time :=
  let minCheck := time_Add now checkInterval in
  let notBefore next := if time_Before next minCheck then minCheck else next in
  if IsZero lastInvoiceAt then Some (notBefore (time_Add startedAt cycle))
  else if (cycle =? 0)%Z then None
  else Some (notBefore (time_Add lastInvoiceAt (dur_mul cycle (dur_div (time_Sub now lastInvoiceAt) cycle + 1)))).

Definition NewBillingCycleTrigger (cycle : Duration) (lastInvoiceAt : Time) (checkInterval : Duration) (now : Time)
    : option BillingCycleTrigger :=
  mkTrigger cycle lastInvoiceAt checkInterval now <$> calculateNextCheck cycle lastInvoiceAt checkInterval now now.

Definition IsReady (t : BillingCycleTrigger) (now : Time) : bool := (tr_nextCheck t <=? now)%Z.

(** [MarkTriggered] and [Reset]. *)
Definition MarkTriggered (t : BillingCycleTrigger) (now : Time) : option BillingCycleTrigger :=
  mkTrigger (tr_BillingCycle t) (tr_LastInvoiceAt t) (tr_CheckInterval t) now <$>
    calculateNextCheck (tr_BillingCycle t) (tr_LastInvoiceAt t) (tr_CheckInterval t) now now.

Definition UpdateLastInvoiceAt (t : BillingCycleTrigger) (invoiceTime now : Time) : option BillingCycleTrigger :=
  mkTrigger (tr_BillingCycle t) invoiceTime (tr_CheckInterval t) (tr_startedAt t) <$>
    calculateNextCheck (tr_BillingCycle t) invoiceTime (tr_CheckInterval t) (tr_startedAt t)
      (if time_After invoiceTime now then now else invoiceTime).

(** The triggers of the contracts that are billed automatically, by their DID. *)
Definition Scheduler : Type := gmap string BillingCycleTrigger.

Section scheduler.
  Context `{Visit : MapVisit} `{Codec : EventCodec} `{Local : Zone}.

Definition RegisterContract (w : World) (contractDID : string) (h : Host) (s : Scheduler)
    : outcome billing_error () * Scheduler :=
  match s !! contractDID with
  | Some _ => (Ok tt, s)
  | None =>
      match GetContract (w_contracts w) (h_contracts h) contractDID with
      | Ok c =>
          match GetPaymentModelProcessor (w_query w) (h_usage h) (w_uuid w) (pd_PaymentModel (c_PaymentDetails c)) with
          | Ok p =>
              if negb (SupportsAutomaticBilling p) then (Ok tt, s)
              else
                let cycle := calculateBillingCycle c in
                let start := StartDate <$> c_Duration c in
                let last := match GetLastProcessedAt (w_last w) contractDID (h_usage h) with
                            | Ok t => if IsZero t then start else Some t
                            | _ => start
                            end in
                match last ≫= λ last, NewBillingCycleTrigger cycle last (calculateCheckInterval cycle) (w_now w) with
                | None => (Panic, s)
                | Some t => (Ok tt, <[contractDID := t]> s)
                end
          | Err e => (Err e, s)
          | Panic => (Panic, s)
          end
      | Err _ => (Err ErrNoProcessor, s)
      | Panic => (Panic, s)
      end
  end.

Definition UnregisterContract (contractDID : string) (s : Scheduler) : Scheduler := delete contractDID s.

Definition UpdateContract (w : World) (contractDID : string) (h : Host) (s : Scheduler)
    : outcome billing_error Scheduler :=
  let last := match GetLastProcessedAt (w_last w) contractDID (h_usage h) with Ok t => t | _ => w_now w end in
  match s !! contractDID with
  | None => Ok s
  | Some t => match UpdateLastInvoiceAt t last (w_now w) with Some t => Ok (<[contractDID := t]> s) | None => Panic end
  end.
End scheduler.
