(* ===== verification/BillingProps.v ===== *)
(** * What contracts are billed

    Fixed rentals are never billed for more time than has passed; what the schedule of
    checks promises; and where billing goes wrong. *)

From S2P Require Import Prelude GoNumbers Hardware ResourceManager Key GoTime Contract UsageStore Billing ContractHost.

#[local] Ltac Zify.zify_post_hook ::= Z.to_euclidean_division_equations.

(** ** Periods *)

Lemma ParsePaymentPeriod_bounds p d :
  ParsePaymentPeriod p = Ok d → (Minute ≤ d ≤ 30 * Day)%Z ∧ ∃ n, d = (n * Second)%Z.
Proof.
  unfold ParsePaymentPeriod.
  repeat case_bool_decide; intros; simplify_eq; (split; [vm_compute; split; discriminate|]);
    [exists 60%Z|exists 3600%Z|exists 86400%Z|exists 604800%Z|exists 2592000%Z]; reflexivity.
Qed.

Lemma atLeastOne_pos k : (1 ≤ atLeastOne k)%Z.
Proof. unfold atLeastOne. destruct (Z.leb_spec k 0); lia. Qed.

(** The cycles that are counted fit between the two instants. *)
Lemma cycles_fit last now period count cycles s e :
  (0 < period)%Z → CalculateElapsedPeriods last now period count = (cycles, s, e) → (1 ≤ cycles)%Z →
  (cycles * atLeastOne count * period ≤ now - last)%Z ∧ (cycles * atLeastOne count < 2 ^ 63)%Z.
Proof.
  intros Hp. unfold CalculateElapsedPeriods. cbv zeta. pose proof (atLeastOne_pos count) as Hk.
  generalize dependent (atLeastOne count). intros k Hk.
  destruct (Z.ltb_spec (dur_div (time_Sub now last) period ÷ k) 1); intros [=] Hc; [lia|]. subst cycles. clear H2 H3.
  unfold dur_div in *. set (q := (time_Sub now last ÷ period)%Z) in *.
  assert (0 ≤ q)%Z as Hq.
  { destruct (Z_lt_le_dec q 0); [|done]. pose proof (Z.quot_pos (- q) k ltac:(lia) ltac:(lia)).
    rewrite Z.quot_opp_l in * by lia. lia. }
  assert ((q ÷ k) * k ≤ q)%Z as Hqk.
  { rewrite Z.quot_div_nonneg in * by lia. pose proof (Z.mul_div_le q k). lia. }
  assert (0 ≤ time_Sub now last)%Z as He.
  { destruct (Z_lt_le_dec (time_Sub now last) 0) as [Hn|]; [|done].
    pose proof (Z.quot_pos (- time_Sub now last) period ltac:(lia) ltac:(lia)).
    rewrite Z.quot_opp_l in * by lia. fold q in H0.
    assert (q = 0)%Z as Hz by lia. rewrite Hz in H. rewrite Z.quot_0_l in H by lia. lia. }
  assert (q * period ≤ time_Sub now last)%Z.
  { unfold q. rewrite Z.quot_div_nonneg by lia. pose proof (Z.mul_div_le (time_Sub now last) period). lia. }
  assert (time_Sub now last ≤ now - last ∧ time_Sub now last < 2 ^ 63)%Z as [] by (unfold time_Sub in *; lia).
  split; [|]; nia.
Qed.

(** ** Fixed rentals *)

Definition periods (req : ContractUsageRequest) : Z :=
  match cur_Data req with Some (FixedRentalData f) => fru_PeriodsInvoiced f | _ => 0%Z end.

(** The periods on all invoices that were forwarded. *)
Definition billed (h : Host) : Z := fold_right Z.add 0%Z (map periods (h_invoices h)).

Lemma billed_app l req : fold_right Z.add 0%Z (map periods (l ++ [req])) = (fold_right Z.add 0 (map periods l) + periods req)%Z.
Proof. rewrite map_app, fold_right_app. cbn. induction l as [|x l IH]; cbn; [lia|]. rewrite IH. lia. Qed.

Section rental.
  Context `{Visit : MapVisit} `{Codec : EventCodec} `{Local : Zone} (contractDID : string) (T : Time).

(** What happens to a host until [T]: the contract is checked, with a database that saves
    what it is told to, or an event is recorded. *)
Inductive billing_step (h : Host) : Host → Prop :=
| step_check w : w_save w = true → (w_now w ≤ T)%Z → billing_step h (checkAndGenerateInvoice contractDID w h).2
| step_event answers now from payload :
    billing_step h (mkHost (h_contracts h) (handleContractEvents contractDID answers now from payload (h_usage h)).2
                      (h_invoices h)).

Definition lastSaved (h : Host) : Z := default 0%Z (us_last (h_usage h) !! lastKey contractDID).

Lemma lastSaved_save w t h : w_save w = true → lastSaved (save contractDID w t h) = Unix t.
Proof. intros Hw. unfold lastSaved, save. cbn. rewrite Hw. cbn. by rewrite lookup_insert_eq. Qed.

Lemma lastSaved_event answers now from payload s :
  us_last (handleContractEvents contractDID answers now from payload s).2 = us_last s.
Proof.
  unfold handleContractEvents, AddUsageEvent. cbn. destruct (bool_decide (contractDID = "")); [done|]. by destruct answers.
Qed.

(** The periods of an invoice fit between the times of two invoices. *)
Lemma fixed_invoice_fits c last now u period :
  ParsePaymentPeriod (pd_PaymentPeriod (c_PaymentDetails c)) = Ok period →
  fixedRentalInvoice c last now = Ok u →
  ∃ f, ud_Data u = FixedRentalData f ∧ (1 ≤ fru_PeriodsInvoiced f)%Z ∧ (fru_PeriodsInvoiced f * period ≤ now - last)%Z.
Proof.
  intros Hp. unfold fixedRentalInvoice. rewrite Hp. destruct (ParsePaymentPeriod_bounds _ _ Hp) as [[Hmin _] _].
  assert (0 < period)%Z as Hpos by (unfold Minute, Second in *; lia).
  destruct (CalculateElapsedPeriods last now period (pd_PaymentPeriodCount (c_PaymentDetails c))) as [[cycles s] e] eqn:He.
  destruct (Z.ltb_spec cycles 1); [done|]. destruct (StringToFloat64 _); try done. intros [= <-].
  eexists. split; [done|]. cbn. destruct (cycles_fit _ _ _ _ _ _ _ Hpos He ltac:(lia)) as [Hfit Hlt].
  pose proof (atLeastOne_pos (pd_PaymentPeriodCount (c_PaymentDetails c))).
  unfold atLeastOne in *. destruct (Z.leb_spec (pd_PaymentPeriodCount (c_PaymentDetails c)) 0); [nia|].
  rewrite s64_small by (unfold is_s64; nia). nia.
Qed.

Context (c : ContractDoc) (d : DurationDetails) (period : Duration).
Context (Hc : pd_PaymentModel (c_PaymentDetails c) = FixedRental) (Hd : c_Duration c = Some d)
  (Hlive : c_CurrentState c ≠ ContractTerminated)
  (Hperiod : ParsePaymentPeriod (pd_PaymentPeriod (c_PaymentDetails c)) = Ok period)
  (Hstart : (0 < Unix (StartDate d))%Z) (HT : (StartDate d ≤ T)%Z).

(** Either billing has not begun, or what was billed lies between its beginning and the
    last invoice. *)
Definition RentalInv (h : Host) : Prop :=
  h_contracts h !! contractDID = Some c ∧
  (lastSaved h = 0%Z ∧ billed h = 0%Z ∨
   (Unix (StartDate d) ≤ lastSaved h ≤ Unix T ∧ billed h * period ≤ (lastSaved h - Unix (StartDate d)) * Second)%Z).

Lemma check_inv w h : w_save w = true → (w_now w ≤ T)%Z → RentalInv h → RentalInv (checkAndGenerateInvoice contractDID w h).2.
Proof using All.
  intros Hw Hnow [Hs HL]. unfold checkAndGenerateInvoice, GetContract.
  destruct (bool_decide _); [by split|]. destruct (w_contracts w); [|by split]. cbn. rewrite Hs.
  destruct (c_DisableBilling c); [by split|]. rewrite Hc. cbn.
  rewrite bool_decide_false by done. destruct (bool_decide _); [by split|]. rewrite Hd.
  destruct (time_After _ _); [by split|]. cbn. unfold regularCheck, GetLastProcessedAt.
  destruct (w_last w); [|by split]. fold (lastSaved h).
  assert (IsZero (time_Unix (lastSaved h)) = false) as ->.
  { apply Z.eqb_neq. assert (0 ≤ lastSaved h)%Z by (destruct HL as [[]|[]]; lia). unfold time_Unix, Time_zero, Second. lia. }
  cbn. destruct (Z.eqb_spec (time_Unix (lastSaved h)) unixEpoch) as [He|He].
  - assert (lastSaved h = 0%Z) as Hz by (unfold unixEpoch, time_Unix, Second in *; lia).
    split; [done|]. right. rewrite lastSaved_save by done. change (billed (save _ _ _ h)) with (billed h).
    assert (billed h = 0%Z) by (destruct HL as [[]|]; lia). unfold Unix, Second in *. lia.
  - destruct HL as [[Hz _]|[HL Hb]]; [by rewrite Hz in He|].
    cbn [CheckAndGenerateInvoice FixedRentalProcessor]. destruct (fixedRentalInvoice _ _ _) as [u|e|] eqn:Hu;
      [|destruct e; try (by split; [done|by right]); unfold skipCycle; rewrite Hc; cbn; by split; [done|by right]|by split; [done|by right]].
    destruct (fixed_invoice_fits _ _ _ _ _ Hperiod Hu) as (f & Hf & Hp1 & Hfit).
    unfold sendInvoice. rewrite Hc, Hf. unfold sendFixedRentalInvoice, sendOne, forward.
    destruct (w_forward w) as [fw|]; [|by split; [done|by right]]. destruct (fw _); [|by split; [done|by right]].
    split; [done|]. right. rewrite lastSaved_save by done. unfold billed in *. cbn. rewrite billed_app. cbn.
    destruct (ParsePaymentPeriod_bounds _ _ Hperiod) as [Hmin [n Hn]]. subst period.
    unfold time_Unix in Hfit. revert Hfit Hb Hp1 HL. generalize (fold_right Z.add 0%Z (map periods (h_invoices h))).
    generalize (lastSaved h) (fru_PeriodsInvoiced f). intros L p b Hfit Hb Hp1 HL.
    assert (p * n ≤ Unix (w_now w) - L)%Z as Hfl by (unfold Unix, Second in *; nia).
    assert (1 ≤ n)%Z by (unfold Minute, Second in *; lia).
    assert (Unix (w_now w) ≤ Unix T)%Z by (unfold Unix, Second in *; lia). unfold Second in *. split; nia.
Qed.

Inductive billing_reachable (h0 : Host) : Host → Prop :=
| billing_begin : billing_reachable h0 h0
| billing_next h h' : billing_reachable h0 h → billing_step h h' → billing_reachable h0 h'.

Lemma rental_inv h0 h : RentalInv h0 → billing_reachable h0 h → RentalInv h.
Proof using All.
  intros H0. induction 1 as [|h h' _ IH Hstep]; [done|]. destruct Hstep; [by apply check_inv|].
  destruct IH as [Hs HL]. split; [done|]. unfold lastSaved in *. cbn. by rewrite lastSaved_event.
Qed.
End rental.

(** C24: a fixed rental is never billed for more time than has passed: whenever the contract is
    checked and whatever invoices are refused, the periods on all invoices together fit
    between the start of the contract and the time of the last check, in whole seconds. *)
Theorem fixed_rental_never_overbills `{MapVisit} `{EventCodec} `{Zone} contractDID T c d period h0 h :
  pd_PaymentModel (c_PaymentDetails c) = FixedRental → c_Duration c = Some d → c_CurrentState c ≠ ContractTerminated →
  ParsePaymentPeriod (pd_PaymentPeriod (c_PaymentDetails c)) = Ok period →
  (0 < Unix (StartDate d))%Z → (StartDate d ≤ T)%Z →
  h_contracts h0 !! contractDID = Some c → lastSaved contractDID h0 = 0%Z → h_invoices h0 = [] →
  billing_reachable contractDID T h0 h →
  (billed h * period ≤ time_Unix (Unix T) - time_Unix (Unix (StartDate d)))%Z.
Proof.
  intros Hm Hd Hl Hp Hs HT Hc HL0 Hi Hr.
  assert (RentalInv contractDID T c d period h0) as Hinv0.
  { split; [done|]. left. split; [done|]. unfold billed. by rewrite Hi. }
  destruct (rental_inv _ _ _ _ _ Hm Hd Hl Hp Hs HT _ _ Hinv0 Hr) as [_ [[_ Hb]|[HL Hb]]].
  - rewrite Hb. unfold time_Unix, Unix, Second in *. lia.
  - unfold time_Unix. assert (0 < Second)%Z by done. nia.
Qed.

(** ** Where billing goes wrong *)

(** A fixed rental that is terminated before its first check is billed from the first of
    January 1970: the time of the last invoice is looked up, and when there is none that is
    the time it stands for. *)
Theorem terminated_billed_from_epoch `{MapVisit} `{EventCodec} `{Zone} contractDID c period amount t cycles w h f :
  contractDID ≠ "" → h_contracts h !! contractDID = Some c → pd_PaymentModel (c_PaymentDetails c) = FixedRental →
  c_DisableBilling c = false → c_CurrentState c = ContractTerminated →
  st_ToState <$> last (c_Transitions c) = Some ContractTerminated → st_Timestamp <$> last (c_Transitions c) = Some t →
  ParsePaymentPeriod (pd_PaymentPeriod (c_PaymentDetails c)) = Ok period →
  StringToFloat64 (pd_FixedRentalAmount (c_PaymentDetails c)) = Ok amount →
  pd_PaymentPeriodCount (c_PaymentDetails c) = 1%Z →
  (0 < t < 2 ^ 63)%Z → cycles = (t / period)%Z → (1 ≤ cycles)%Z →
  lastSaved contractDID h = 0%Z → w_contracts w = true → w_last w = true → w_forward w = Some f → (∀ r, f r = true) →
  ∃ u, h_invoices (checkAndGenerateInvoice contractDID w h).2 =
       h_invoices h ++ [mkUsageRequest (w_uuid w 0) c cycles (Some (FixedRentalData u))] ∧
       fru_Amount u = formatAmount (f64_mul amount (f64_of_Z cycles)) ∧ fru_LastInvoiceAt u = unixEpoch.
Proof.
  intros Hd Hc Hm Hdis Hst Hto Hts Hp Ha Hk Ht Hcyc Hc1 Hlast Hw1 Hw2 Hw3 Hf.
  destruct (ParsePaymentPeriod_bounds _ _ Hp) as [[Hmin _] _].
  assert (0 < period)%Z as Hpos by (unfold Minute, Second in *; lia).
  assert (terminationTime c (w_now w) = t) as Hterm.
  { unfold terminationTime. destruct (c_Transitions c) as [|x l] using rev_ind; [done|].
    rewrite last_snoc in *. cbn in *. simplify_eq. rewrite rev_app_distr. cbn. rewrite bool_decide_true by done.
    destruct (Z.eqb_spec (st_Timestamp x) Time_zero) as [Hz|]; unfold IsZero.
    - unfold Time_zero, Second in Hz. lia.
    - by rewrite (proj2 (Z.eqb_neq _ _)). }
  unfold checkAndGenerateInvoice, GetContract. rewrite bool_decide_false by done. rewrite Hw1. cbn. rewrite Hc, Hdis, Hm. cbn.
  rewrite bool_decide_true by done. cbn. unfold handleTerminatedContractInvoice, GetLastProcessedAt. rewrite Hw2.
  fold (lastSaved contractDID h). rewrite Hlast, Hterm. cbn [CheckAndGenerateInvoice FixedRentalProcessor].
  change (IsZero (time_Unix 0)) with false. cbv iota.
  assert (time_Sub t (time_Unix 0) = t) as Hsub by (unfold time_Sub, time_Unix, Second; lia).
  rewrite Hsub. destruct (Z.leb_spec t 0); [lia|]. unfold fixedRentalInvoice. rewrite Hp.
  unfold CalculateElapsedPeriods. rewrite Hk, Hsub. change (atLeastOne 1) with 1%Z. cbv zeta.
  unfold dur_div. rewrite Z.quot_1_r, Z.quot_div_nonneg, <- Hcyc by lia.
  destruct (Z.ltb_spec cycles 1); [lia|]. rewrite (proj2 (Z.ltb_ge cycles 1)) by lia. rewrite Ha.
  rewrite Z.mul_1_r, !s64_small by (unfold is_s64; nia). cbn [Z.leb Z.compare].
  unfold sendInvoice. rewrite Hm. cbn. unfold sendOne, forward. rewrite Hw3, Hf. cbn. eauto.
Qed.

(** A contract that nobody has signed is billed like one in force. *)
Theorem unsigned_contract_billed `{MapVisit} `{EventCodec} `{Zone} contractDID c d w h f u :
  contractDID ≠ "" → h_contracts h !! contractDID = Some c → pd_PaymentModel (c_PaymentDetails c) = FixedRental →
  c_DisableBilling c = false → c_CurrentState c = ContractDraft → c_Signatures c = [] → c_Duration c = Some d →
  (w_now w ≤ EndDate d)%Z → (0 < lastSaved contractDID h)%Z →
  fixedRentalInvoice c (time_Unix (lastSaved contractDID h)) (w_now w) = Ok u →
  w_contracts w = true → w_last w = true → w_forward w = Some f → (∀ r, f r = true) →
  ∃ req, h_invoices (checkAndGenerateInvoice contractDID w h).2 = h_invoices h ++ [req].
Proof.
  intros Hd Hc Hm Hdis Hst Hsig Hdur Hend Hl Hu Hw1 Hw2 Hw3 Hf.
  unfold checkAndGenerateInvoice, GetContract. rewrite bool_decide_false by done. rewrite Hw1. cbn. rewrite Hc, Hdis, Hm. cbn.
  rewrite Hst, Hdur. cbn. unfold time_After. rewrite (proj2 (Z.ltb_ge (EndDate d) (w_now w))) by done. cbn.
  unfold regularCheck, GetLastProcessedAt. rewrite Hw2. fold (lastSaved contractDID h).
  destruct (IsZero _ || _) eqn:Hz.
  { unfold IsZero, unixEpoch, time_Unix, Time_zero, Second in Hz. lia. }
  cbn [CheckAndGenerateInvoice FixedRentalProcessor]. rewrite Hu. unfold sendInvoice. rewrite Hm.
  destruct (ParsePaymentPeriod (pd_PaymentPeriod (c_PaymentDetails c))) as [p| |] eqn:Hp;
    try (unfold fixedRentalInvoice in Hu; rewrite Hp in Hu; done).
  destruct (fixed_invoice_fits _ _ _ _ _ Hp Hu) as (fr & -> & _). cbn. unfold sendOne, forward. rewrite Hw3, Hf. cbn. eauto.
Qed.

(** ** The schedule *)

Lemma check_interval_bounds cycle :
  (Minute ≤ cycle)%Z →
  (30 * Second ≤ calculateCheckInterval cycle ≤ 24 * Hour)%Z ∧ (2 * calculateCheckInterval cycle ≤ cycle)%Z.
Proof.
  intros Hc. assert (Second = 1000000000 ∧ Minute = 60000000000 ∧ Hour = 3600000000000)%Z as (Hs & Hm & Hh) by done.
  unfold calculateCheckInterval, dur_div. cbv zeta. rewrite Hs, Hh, !Z.quot_div_nonneg by lia.
  assert (10 * (cycle / 10) ≤ cycle < 10 * (cycle / 10) + 10 ∧ 2 * (cycle / 2) ≤ cycle < 2 * (cycle / 2) + 2)%Z by lia.
  generalize dependent (cycle / 10)%Z. generalize (cycle / 2)%Z. intros half tenth Hq.
  destruct (Z.ltb_spec tenth (30 * 1000000000)), (Z.ltb_spec (24 * 3600000000000) half);
    match goal with |- context [(?a <? ?b)%Z] => destruct (Z.ltb_spec a b) end; lia.
Qed.

(** When a contract is checked next: not before the check interval has passed and not
    later than one billing cycle; the interval is between half a minute and a day, and at
    most half a cycle.  So the interval is the least time between two checks, not the
    most. *)
Theorem check_schedule cycle lastInvoiceAt startedAt now :
  (Minute ≤ cycle)%Z → IsZero lastInvoiceAt = false → (lastInvoiceAt ≤ now)%Z → (now - lastInvoiceAt + cycle < 2 ^ 63)%Z →
  let interval := calculateCheckInterval cycle in
  (30 * Second ≤ interval ≤ 24 * Hour)%Z ∧ (2 * interval ≤ cycle)%Z ∧
  ∃ next, calculateNextCheck cycle lastInvoiceAt interval startedAt now = Some next ∧
          (now + interval ≤ next ≤ now + cycle)%Z.
Proof.
  intros Hc Hz Hl Hw. cbv zeta. destruct (check_interval_bounds cycle Hc) as [Hb Hh]. split; [done|]. split; [done|].
  assert (0 < cycle)%Z as Hpos by (unfold Minute, Second in *; lia).
  assert (0 < calculateCheckInterval cycle)%Z as Hi by (unfold Second in *; lia).
  unfold calculateNextCheck. rewrite Hz, (proj2 (Z.eqb_neq cycle 0)) by lia. eexists. split; [done|].
  rewrite time_Sub_exact by (unfold is_s64; lia). unfold dur_div. rewrite Z.quot_div_nonneg by lia.
  assert (cycle * ((now - lastInvoiceAt) / cycle) ≤ now - lastInvoiceAt < cycle * ((now - lastInvoiceAt) / cycle) + cycle)%Z
    as Hq by (pose proof (Z.div_mod (now - lastInvoiceAt) cycle); pose proof (Z.mod_pos_bound (now - lastInvoiceAt) cycle); lia).
  unfold dur_mul. rewrite s64_small by (unfold is_s64; lia).
  unfold time_Before, time_Add. destruct (Z.ltb_spec (lastInvoiceAt + cycle * ((now - lastInvoiceAt) / cycle + 1)) (now + calculateCheckInterval cycle)); lia.
Qed.

(** ** Witnesses *)

(** A host on which payloads are identifiers. *)
#[export] Instance plain_codec : EventCodec := {
  json_type _ := None;
  json_fields _ := None;
  json_create p := Some (mkAllocationEvent (mkAllocationBase p "deployment" "" "") Resources_zero);
  json_start p := Some (mkAllocationEvent (mkAllocationBase p "deployment" "" "") Resources_zero);
  json_stop p := Some (mkAllocationBase p "deployment" "" "");
  json_complete p := Some (mkAllocationBase p "deployment" "" "");
  json_depstart p := Some (mkDeploymentEvent p "" "");
  json_depstop p := Some (mkDeploymentEvent p "" "")
}.

#[export] Instance plain_visit : MapVisit := { visit A l := l; visit_perm A l := Permutation_refl l }.

Definition sample_world (now : Time) : World :=
  mkWorld now true true true true (Some (λ _, true)) (λ _, "id").

Definition host_of (c : ContractDoc) (docs : list Usage) : Host :=
  mkHost {["did:key:c" := c]} (mkUsageStore docs ∅) [].

Definition rental : ContractDoc := NewContract "did:key:c" (sample_contract FixedRental).

(** Two checks: the first sets the time, the second bills three minutes. *)
Definition two_checks : Host :=
  (checkAndGenerateInvoice "did:key:c" (sample_world (time_Unix 1700000185))
     (checkAndGenerateInvoice "did:key:c" (sample_world (time_Unix 1700000001)) (host_of rental [])).2).2.

Lemma fixed_rental_never_overbills_witness : billed two_checks = 3%Z ∧ (3 * Minute ≤ 185 * Second)%Z.
Proof.
  split; [vm_compute; reflexivity|]. change 3%Z with (billed two_checks).
  apply (fixed_rental_never_overbills "did:key:c" (time_Unix 1700000185) rental
           (mkDurationDetails (time_Unix 1700000000) (time_Unix 1800000000)) Minute (host_of rental [])); try reflexivity.
  - discriminate.
  - vm_compute. discriminate.
  - assert (∀ h now, (now ≤ time_Unix 1700000185)%Z →
      billing_step "did:key:c" (time_Unix 1700000185) h (checkAndGenerateInvoice "did:key:c" (sample_world now) h).2) as Hs.
    { intros h now Hn. by apply step_check. }
    eapply billing_next; [eapply billing_next; [apply billing_begin|]|]; apply Hs; vm_compute; discriminate.
Defined.

(** A contract of November 2023 that is terminated after a minute is billed for 28 million
    minutes. *)
Definition terminated_rental : ContractDoc :=
  transition ContractTerminated EventTerminate (time_Unix 1700000060) (mkDID "did:key:p") rental.

Lemma terminated_billed_from_epoch_witness :
  ∃ u, h_invoices (checkAndGenerateInvoice "did:key:c" (sample_world (time_Unix 1700000090)) (host_of terminated_rental [])).2 =
       [mkUsageRequest "id" terminated_rental 28333334 (Some (FixedRentalData u))] ∧
       fru_Amount u = "566666680.00000000".
Proof.
  destruct (λ H1 H2 H3, terminated_billed_from_epoch "did:key:c" terminated_rental Minute (f64_of_Z 20) (time_Unix 1700000060)
    28333334 (sample_world (time_Unix 1700000090)) (host_of terminated_rental []) (λ _, true)
    H1 eq_refl eq_refl eq_refl eq_refl eq_refl eq_refl eq_refl eq_refl eq_refl H2 eq_refl H3 eq_refl eq_refl eq_refl
    eq_refl (λ _, eq_refl)) as (u & Hu & Ha & _); [discriminate|vm_compute; split; reflexivity|discriminate|].
  exists u. split; [exact Hu|]. rewrite Ha. vm_compute. reflexivity.
Defined.

Lemma check_schedule_witness :
  ∃ next, calculateNextCheck Hour (time_Unix 1700000000) (calculateCheckInterval Hour) unixEpoch (time_Unix 1700000010) = Some next ∧
          (next ≤ time_Unix 1700000010 + Hour)%Z.
Proof.
  destruct (λ H1 H2 H3, check_schedule Hour (time_Unix 1700000000) unixEpoch (time_Unix 1700000010) H1 eq_refl H2 H3)
    as (_ & _ & next & Hn & _ & Hb); [vm_compute; discriminate|vm_compute; discriminate|vm_compute; reflexivity|].
  exists next. split; [exact Hn|exact Hb].
Defined.

(** A period count whose product with the period wraps to zero divides by zero. *)
Example period_count_overflow_panics :
  let c := NewContract "did:key:c" (sample_contract FixedRental) in
  let c := mkContract (c_ContractDID c) (c_SolutionEnablerDID c) (c_PaymentValidatorDID c) (c_ResourceConfiguration c)
    (c_TerminationOption c) (c_Penalties c) (c_Duration c) (c_Participants c)
    (set_pd_period (c_PaymentDetails c) "minute" (2 ^ 53)) false [] ContractDraft "" [] false ∅ in
  (RegisterContract (sample_world (time_Unix 1700000001)) "did:key:c" (host_of c []) ∅).1 = Panic.
Proof. vm_compute. reflexivity. Qed.
