(* ===== verification/UsageProps.v ===== *)
(** * What usage is billed

    The models that bill by time charge an allocation for the part of its run that lies in
    the period, neither more nor less; so successive invoices charge every moment once,
    but for the fraction of a second that the saved time of an invoice loses.  The proofs
    follow one allocation through the queries, the windows and the grouping by
    deployment, whatever else the store holds and in whatever order it is read. *)

From S2P Require Import Prelude GoNumbers Hardware ResourceManager GoTime Contract UsageStore Billing ContractHost BillingProps.

#[local] Ltac Zify.zify_post_hook ::= Z.to_euclidean_division_equations.

Section windows.
  Context `{Visit : MapVisit} `{Codec : EventCodec} `{Local : Zone} (a : string).

(** ** The window of an allocation *)

Definition starts (u : Usage) : Prop :=
  ∃ d, json_start (u_Data u) = Some d ∧ ab_AllocationID (ae_Base d) = a ∧ IsZero (u_Timestamp u) = false.
Definition ends (u : Usage) : bool := bool_decide (processAllocationEndEvent u = Some a).

(** The window that a start opens. *)
Definition opened (R : gmap string Resources) (u : Usage) : option window := openWindow R ∅ u !! a.

Lemma open_step R ws u :
  openWindow R ws u !! a = match opened R u with Some w => Some w | None => ws !! a end.
Proof.
  unfold opened, openWindow. destruct (IsZero _); [by rewrite lookup_empty|]. destruct (json_start _) as [d|]; [|by rewrite lookup_empty].
  destruct (decide (ab_AllocationID (ae_Base d) = a)) as [<-|]; [by rewrite !lookup_insert_eq|].
  by rewrite !lookup_insert_ne, lookup_empty by done.
Qed.

Lemma opened_starts R u w : opened R u = Some w → starts u ∧ win_startTime w = u_Timestamp u ∧ win_isComplete w = false.
Proof.
  unfold opened, openWindow, starts. destruct (IsZero _) eqn:Hz; [by rewrite lookup_empty|].
  destruct (json_start _) as [d|]; [|by rewrite lookup_empty].
  destruct (decide (ab_AllocationID (ae_Base d) = a)) as [He|]; [|by rewrite lookup_insert_ne, lookup_empty by done].
  subst a. rewrite lookup_insert_eq. intros [= <-]. cbn. eauto 6.
Qed.

Lemma starts_opened R u : starts u → is_Some (opened R u).
Proof. intros (d & Hd & Ha & Hz). unfold opened, openWindow. rewrite Hz, Hd, Ha, lookup_insert_eq. eauto. Qed.

(** With one start of the allocation, its window is the one this start opens. *)
Lemma open_all R us l ws :
  (∀ u, u ∈ l → starts u → u = us) → starts us → ws !! a = opened R us ∨ us ∈ l →
  fold_left (openWindow R) l ws !! a = opened R us.
Proof.
  intros Hone Hus. revert ws. induction l as [|u l IH]; intros ws Hin; cbn; [set_solver|].
  apply IH; [set_solver|]. rewrite open_step. destruct (opened R u) as [w|] eqn:Ho.
  - left. apply opened_starts in Ho as Hs. destruct Hs as [Hs _]. rewrite <- (Hone u) by set_solver. done.
  - destruct Hin as [|Hin]; [by left|]. apply elem_of_cons in Hin as [->|]; [|by right].
    by destruct (starts_opened R u Hus) as [? ?]; simplify_eq.
Qed.

Lemma open_none R l ws : (∀ u, u ∈ l → ¬ starts u) → fold_left (openWindow R) l ws !! a = ws !! a.
Proof.
  revert ws. induction l as [|u l IH]; intros ws Hn; cbn; [done|]. rewrite IH by set_solver. rewrite open_step.
  destruct (opened R u) eqn:Ho; [|done]. apply opened_starts in Ho as [Hs _]. by destruct (Hn u ltac:(set_solver)).
Qed.

Lemma ends_types u : ends u = true → u_EventType u ∈ [CompleteAllocationEvent; StopAllocationEvent].
Proof.
  unfold ends, processAllocationEndEvent. rewrite bool_decide_eq_true.
  destruct (IsZero _); [done|]. repeat case_bool_decide; set_solver.
Qed.

Lemma close_step ws u :
  closeWindow ws u !! a = if ends u then complete (u_Timestamp u) <$> ws !! a else ws !! a.
Proof.
  unfold closeWindow, ends. destruct (processAllocationEndEvent u) as [i|]; [|done]. case_bool_decide as He.
  - simplify_eq. by rewrite lookup_alter_eq.
  - by rewrite lookup_alter_ne by congruence.
Qed.

Lemma close_all e l ws :
  (∀ u, u ∈ l → ends u = true → u_Timestamp u = e) →
  fold_left closeWindow l ws !! a = (if existsb ends l then complete e <$> ws !! a else ws !! a).
Proof.
  revert ws. induction l as [|u l IH]; intros ws He; cbn; [done|]. rewrite IH by set_solver. rewrite close_step.
  destruct (ends u) eqn:Hu; [|done]. rewrite (He u) by set_solver.
  destruct (existsb ends l), (ws !! a); done.
Qed.

(** Windows are filed under their allocation. *)
Definition filed (ws : gmap string window) : Prop := ∀ k w, ws !! k = Some w → win_allocationID w = k.

Lemma build_filed starts_ ends_ R : filed (buildAllocationWindowsWithResources starts_ ends_ R).
Proof.
  unfold buildAllocationWindowsWithResources.
  assert (filed (fold_left (openWindow R) starts_ ∅)) as Ho.
  { assert (filed ∅) as H0 by (intros k w; by rewrite lookup_empty). revert H0. generalize (∅ : gmap string window).
    induction starts_ as [|u l IH]; intros ws Hws; cbn; [done|]. apply IH. unfold openWindow.
    destruct (IsZero _); [done|]. destruct (json_start _); [|done]. intros k w. rewrite lookup_insert_Some.
    intros [[<- <-]|[_ Hk]]; [done|by apply Hws]. }
  revert Ho. generalize (fold_left (openWindow R) starts_ ∅). induction ends_ as [|u l IH]; intros ws Hws; cbn; [done|].
  apply IH. unfold closeWindow. destruct (processAllocationEndEvent u); [|done]. intros k w.
  rewrite lookup_alter_Some. intros [(<- & w' & Hw' & ->)|[_ Hk]]; [by apply Hws in Hw'|by apply Hws].
Qed.

(** ** The entries of all deployments *)

Definition entry (L n : Time) (w : window) : option AllocationTimeUtilization :=
  (λ d, mkAllocTime (win_allocationID w) d (win_startTime w) (endOf w)) <$> windowTime w L n.

Definition entries (m : gmap string DeploymentTimeUtilization) : list AllocationTimeUtilization :=
  concat (map dtu_Allocations (map snd (map_to_list m))).

Lemma entries_delete m k d : m !! k = Some d → entries m ≡ₚ dtu_Allocations d ++ entries (delete k m).
Proof. intros Hk. unfold entries. by rewrite <- (map_to_list_delete m k d Hk). Qed.

Lemma entries_insert m k d : entries (<[k := d]> m) ≡ₚ dtu_Allocations d ++ entries (delete k m).
Proof. rewrite (entries_delete _ k d) by apply lookup_insert_eq. by rewrite delete_insert_eq. Qed.

Lemma addTime_entries L n m w : entries (addTime L n m w) ≡ₚ entries m ++ option_list (entry L n w).
Proof.
  unfold addTime, entry. destruct (windowTime w L n) as [d|]; cbn; [|by rewrite app_nil_r].
  rewrite entries_insert. cbn. destruct (m !! win_deploymentID w) as [old|] eqn:Hm; cbn.
  - rewrite (entries_delete m _ _ Hm). rewrite <- !app_assoc. apply Permutation_app_head. apply Permutation_app_comm.
  - rewrite delete_id by done. apply Permutation_cons_append.
Qed.

Lemma addTimes_entries L n l m : entries (fold_left (addTime L n) l m) ≡ₚ entries m ++ omap (entry L n) l.
Proof.
  revert m. induction l as [|w l IH]; intros m; cbn; [by rewrite app_nil_r|]. rewrite IH, addTime_entries.
  destruct (entry L n w); cbn; by rewrite <- app_assoc.
Qed.

Lemma calculate_entries L n ws :
  concat (map dtu_Allocations (calculateDeploymentTimeUtilization ws L n)) ≡ₚ omap (entry L n) (map snd (map_to_list ws)).
Proof.
  unfold calculateDeploymentTimeUtilization. rewrite visit_perm. fold (entries (fold_left (addTime L n) (visit (map snd (map_to_list ws))) ∅)).
  rewrite addTimes_entries. unfold entries at 1. rewrite map_to_list_empty. cbn. by rewrite visit_perm.
Qed.

(** ** The time of one allocation *)

Definition timeOf (l : list AllocationTimeUtilization) : list Duration :=
  map atu_Duration (List.filter (λ x, bool_decide (atu_AllocationID x = a)) l).

#[local] Instance timeOf_perm : Proper ((≡ₚ) ==> (≡ₚ)) timeOf.
Proof. intros l l' Hp. by apply Permutation_map, filter_perm. Qed.

Lemma timeOf_cons x l :
  timeOf (x :: l) = if bool_decide (atu_AllocationID x = a) then atu_Duration x :: timeOf l else timeOf l.
Proof. unfold timeOf. cbn. by destruct (bool_decide _). Qed.

Lemma timeOf_others L n (ws : gmap string window) :
  filed ws → ws !! a = None → timeOf (omap (entry L n) (map snd (map_to_list ws))) = [].
Proof.
  intros Hf Ha. assert (∀ w, w ∈ map snd (map_to_list ws) → win_allocationID w ≠ a) as Hne.
  { intros w [[k w'] [-> Hk]]%list_elem_of_fmap. apply elem_of_map_to_list in Hk. cbn. apply Hf in Hk as He. congruence. }
  induction (map snd (map_to_list ws)) as [|w l IH]; [done|]. cbn. unfold entry at 1.
  destruct (windowTime w L n); cbn; [|apply IH; set_solver]. unfold timeOf in *. cbn.
  rewrite bool_decide_false by set_solver. apply IH. set_solver.
Qed.

(** Of all entries, those of the allocation are the one of its window. *)
Lemma timeOf_calculate L n ws :
  filed ws →
  timeOf (concat (map dtu_Allocations (calculateDeploymentTimeUtilization ws L n))) =
  option_list (ws !! a ≫= λ w, windowTime w L n).
Proof.
  intros Hf. pose proof (calculate_entries L n ws) as Hp. apply timeOf_perm in Hp.
  destruct (ws !! a) as [w|] eqn:Ha; cbn.
  - rewrite <- (map_to_list_delete ws a w Ha) in Hp.
    assert (timeOf (omap (entry L n) (map snd (map_to_list (delete a ws)))) = []) as Ho.
    { apply timeOf_others; [|apply lookup_delete_eq]. intros k w' [_ Hk]%lookup_delete_Some. by apply Hf. }
    change (omap (entry L n) (map snd ((a, w) :: map_to_list (delete a ws)))) with
      (match entry L n w with
       | Some x => x :: omap (entry L n) (map snd (map_to_list (delete a ws)))
       | None => omap (entry L n) (map snd (map_to_list (delete a ws)))
       end) in Hp.
    unfold entry in Hp at 1. destruct (windowTime w L n) as [d|]; cbn [fmap option_fmap option_map] in Hp; cbn.
    + rewrite timeOf_cons, bool_decide_true, Ho in Hp by (by apply Hf).
      symmetry in Hp. by apply Permutation_singleton_inj_r in Hp || by apply Permutation_length_1_inv in Hp.
    + rewrite Ho in Hp. by apply Permutation_nil_r in Hp.
  - rewrite timeOf_others in Hp by done. by apply Permutation_nil_r in Hp.
Qed.
End windows.

(** ** Billing by time *)

(** What an allocation that runs from [s] to [e] runs between [L] and [n]; it still runs
    when [e] is [None]. *)
Definition overlap (s : Time) (e : option Time) (L n : Time) : Z := (Z.min n (default n e) - Z.max s L)%Z.

Section time.
  Context `{Visit : MapVisit} `{Codec : EventCodec} `{Local : Zone} (C a : string) (docs : list Usage) (saved : gmap string Z) (s : Time) (e : option Time).

(** The events of the contract about the allocation: one start, at [s], and at most one
    end, at [e].  Other contracts and allocations have any events. *)
Record runs_once : Prop := mkRunsOnce {
  run_start : ∃ us, us ∈ docs ∧ u_ContractDID us = C ∧ u_EventType us = StartAllocationEvent ∧ starts a us ∧
    u_Timestamp us = s ∧
    ∀ u, u ∈ docs → u_ContractDID u = C → u_EventType u = StartAllocationEvent → starts a u → u = us;
  run_end u : u ∈ docs → u_ContractDID u = C → ends a u = true → e = Some (u_Timestamp u);
  run_ended t : e = Some t → (s ≤ t)%Z ∧ ∃ u, u ∈ docs ∧ u_ContractDID u = C ∧ ends a u = true
}.

Context (Hrun : runs_once) (HC : C ≠ "").

Lemma matches_iff types L n u :
  types ≠ [] → (0 ≤ L ≤ n)%Z → (n < 2 ^ 63)%Z →
  matches (eventFilters C "" types (yearBefore L) n) u = true ↔
  u_ContractDID u = C ∧ u_EventType u ∈ types ∧ (yearBefore L ≤ u_Timestamp u ≤ n)%Z.
Proof using HC.
  intros Ht HL Hn. unfold eventFilters. rewrite bool_decide_true by done. unfold matches. cbn.
  assert (Day = 86400000000000)%Z as Hday by done.
  pose proof (yearBefore_bounds L) as Hy.
  assert (IsZero (yearBefore L) = false) as -> by (apply Z.eqb_neq; unfold Time_zero, Second; lia).
  assert (IsZero n = false) as -> by (apply Z.eqb_neq; unfold Time_zero, Second; lia).
  unfold UnixNano. rewrite !s64_small by (unfold is_s64; lia).
  rewrite (bool_decide_false (C = "")) by exact HC. rewrite (bool_decide_false (types = [])) by exact Ht. cbn.
  rewrite !andb_true_iff, !bool_decide_eq_true, !Z.leb_le. rewrite (bool_decide_true ("" = "")) by done. cbn [orb]. clear. intuition auto.
Qed.

(** The window that a query of the period sees. *)
Lemma window_seen L n starts_ ends_ :
  (0 ≤ L ≤ n)%Z → (n < 2 ^ 63)%Z → (yearBefore L ≤ s)%Z →
  QueryAllocationEvents true (mkUsageStore docs saved) C L n "" = Ok (starts_, ends_) →
  match buildAllocationWindows starts_ ends_ !! a with
  | Some w => (s ≤ n)%Z ∧ win_startTime w = s ∧
              (win_isComplete w = true ∧ e = Some (win_endTime w) ∧ (win_endTime w ≤ n)%Z ∨
               win_isComplete w = false ∧ ∀ t, e = Some t → (n < t)%Z)
  | None => (n < s)%Z
  end.
Proof using Hrun HC.
  intros HL Hn Hs. unfold QueryAllocationEvents, queryBoth, QueryEvents, FindAll. cbn. intros [= <- <-].
  destruct Hrun as [(us & Hin & HusC & Hty & Hst & Hts & Hone) Hend Hended].
  set (ss := visit (List.filter (matches (eventFilters C "" [StartAllocationEvent] (yearBefore L) n)) docs)).
  set (es := visit (List.filter (matches (eventFilters C "" [CompleteAllocationEvent; StopAllocationEvent] (yearBefore L) n)) docs)).
  assert (∀ u, u ∈ ss ↔ u ∈ docs ∧ u_ContractDID u = C ∧ u_EventType u = StartAllocationEvent ∧ (yearBefore L ≤ u_Timestamp u ≤ n)%Z) as Hss.
  { intros u. unfold ss. rewrite visit_perm, list_elem_of_In, filter_In, <- list_elem_of_In, matches_iff by done. set_solver. }
  assert (∀ u, u ∈ es ↔ u ∈ docs ∧ u_ContractDID u = C ∧ u_EventType u ∈ [CompleteAllocationEvent; StopAllocationEvent] ∧
    (yearBefore L ≤ u_Timestamp u ≤ n)%Z) as Hes.
  { intros u. unfold es. rewrite visit_perm, list_elem_of_In, filter_In, <- list_elem_of_In, matches_iff by done. set_solver. }
  clearbody ss es. unfold buildAllocationWindows, buildAllocationWindowsWithResources.
  rewrite (close_all a (default Time_zero e)).
  2: { intros u Hu He. rewrite Hes in Hu. by rewrite (Hend u) by naive_solver. }
  destruct (Z_le_gt_dec s n) as [Hsn|Hsn].
  - rewrite (open_all a ∅ us);
      [|intros u (Hu1 & Hu2 & Hu3 & _)%Hss Hu4; by apply Hone|done|right; apply Hss; by rewrite Hts].
    destruct (starts_opened a ∅ us Hst) as [w Hw]. rewrite Hw. destruct (opened_starts _ _ _ _ Hw) as (_ & Hws & Hwc).
    destruct (existsb (ends a) es) eqn:Hex; cbn.
    + apply existsb_exists in Hex as (u & Hu & Hue). rewrite <- list_elem_of_In, Hes in Hu.
      rewrite (Hend u) by naive_solver. cbn. split; [done|]. split; [congruence|]. left. naive_solver.
    + split; [done|]. split; [congruence|]. right. split; [done|]. intros t He.
      destruct (Hended t He) as [Hst' (u & Hu & HuC & Hue)]. destruct (Z_lt_le_dec n t); [done|]. exfalso.
      rewrite existsb_false in Hex. rewrite (Hex u) in Hue; [done|]. rewrite <- list_elem_of_In, Hes.
      assert (u_Timestamp u = t) as -> by (specialize (Hend u Hu HuC Hue); congruence).
      split; [done|]. split; [done|]. split; [by apply (ends_types a)|lia].
  - rewrite open_none; [rewrite lookup_empty; destruct (existsb _ _); cbn; lia|].
    intros u [Hu1 (Hu2 & Hu3 & Hu4)]%Hss Hu5. rewrite (Hone u) in Hu4 by done. lia.
Qed.

(** The time of the allocation that the usage of one period holds, and the sum over
    successive periods, each from the end of the one before. *)
Definition invoicedTime (L n : Time) : option Z :=
  match collectTime true (mkUsageStore docs saved) C L n "" with
  | Ok u =>
      match ud_Data u with
      | TimeData l => Some (foldr Z.add 0%Z (timeOf a (concat (map dtu_Allocations l))))
      | _ => None
      end
  | _ => None
  end.

Fixpoint invoicedTimes (L : Time) (ns : list Time) : option Z :=
  match ns with
  | [] => Some 0%Z
  | n :: ns => t ← invoicedTime L n; t' ← invoicedTimes n ns; Some (t + t')%Z
  end.

Lemma time_of_period L n :
  (0 ≤ L ≤ n)%Z → (n < 2 ^ 63)%Z → (n ≤ s + 364 * Day)%Z → invoicedTime L n = Some (Z.max 0 (overlap s e L n)).
Proof using Hrun HC.
  intros HL Hn Hs. pose proof (yearBefore_bounds L) as Hy. unfold invoicedTime, collectTime.
  destruct (QueryAllocationEvents true (mkUsageStore docs saved) C L n "") as [[ss es]| |] eqn:Hq; [|done..]. cbn.
  pose proof (window_seen L n ss es HL Hn ltac:(lia) Hq) as Hw.
  rewrite timeOf_calculate by apply build_filed. f_equal. unfold overlap.
  destruct (buildAllocationWindows ss es !! a) as [w|]; cbn; [|destruct e; cbn; lia].
  destruct Hw as (Hsn & Hws & Hwe). unfold windowTime, CalculateEffectiveTime, time_Before, time_After. rewrite Hws.
  destruct Hwe as [(-> & -> & He)|[-> He]]; cbn.
  - destruct (Z.ltb_spec L (win_endTime w)); cbn; [|lia].
    destruct (Z.ltb_spec s L); match goal with |- context [(?x <? ?y)%Z] => destruct (Z.ltb_spec x y) end; cbn;
      rewrite ?time_Sub_exact by (unfold is_s64; lia); lia.
  - destruct (Z.ltb_spec s L); match goal with |- context [(?x <? ?y)%Z] => destruct (Z.ltb_spec x y) end; cbn;
      rewrite ?time_Sub_exact by (unfold is_s64; lia); destruct e as [t|]; try specialize (He t eq_refl); cbn; lia.
Qed.

(** Periods that follow each other, and the end of the last. *)
Fixpoint successive (L : Time) (ns : list Time) : Prop :=
  match ns with [] => True | n :: ns => (L ≤ n)%Z ∧ successive n ns end.

Definition finish (L : Time) (ns : list Time) : Time := fold_left (λ _ n, n) ns L.

Lemma successive_finish L ns : successive L ns → (L ≤ finish L ns)%Z.
Proof using. revert L. induction ns as [|n ns IH]; intros L; [done|]. intros [Hn Hns]. apply IH in Hns. change (finish L (n :: ns)) with (finish n ns). lia. Qed.

(** C25: an allocation that runs once, for less than a year, is charged by the invoices of
    successive periods for exactly the time it ran between the first and the last, each
    moment once, whatever else the store holds and in whatever order it is read. *)
Theorem time_billed_once L ns :
  (0 ≤ L)%Z → successive L ns → (finish L ns < 2 ^ 63)%Z → (finish L ns ≤ s + 364 * Day)%Z →
  invoicedTimes L ns = Some (Z.max 0 (overlap s e L (finish L ns))).
Proof using Hrun HC.
  revert L. induction ns as [|n ns IH]; intros L HL Hns Hf Hs.
  - cbn. f_equal. unfold overlap. destruct e; cbn; lia.
  - destruct Hns as [Hn Hns]. apply successive_finish in Hns as Hl.
    change (finish L (n :: ns)) with (finish n ns) in *. cbn [invoicedTimes].
    rewrite time_of_period by lia. cbn [mbind option_bind]. rewrite IH by (done || lia). cbn [mbind option_bind]. f_equal.
    pose proof (run_ended Hrun) as He. unfold overlap. destruct e as [t|]; cbn; [specialize (He t eq_refl)|]; lia.
Qed.
End time.

(** ** Witness *)

(** An allocation that runs for ninety seconds over three invoices; another one starts
    too. *)
Definition usage_of (type data : string) (t : Z) : Usage := mkUsage "did:key:c" "" "" type data (time_Unix t).

Definition sample_usage : list Usage :=
  [usage_of StopAllocationEvent "a" 1700000100; usage_of StartAllocationEvent "b" 1700000030;
   usage_of StartAllocationEvent "a" 1700000010].

Lemma sample_runs_once : runs_once "did:key:c" "a" sample_usage (time_Unix 1700000010) (Some (time_Unix 1700000100)).
Proof.
  split.
  - exists (usage_of StartAllocationEvent "a" 1700000010). split; [set_solver|]. split; [done|]. split; [done|].
    split; [by eexists|]. split; [done|].
    intros u Hu _ Ht (d & [= <-] & Ha & _). repeat (apply elem_of_cons in Hu as [->|Hu]); [done|done|done|set_solver].
  - intros u Hu _ He. repeat (apply elem_of_cons in Hu as [->|Hu]); [done|vm_compute in He; done|vm_compute in He; done|set_solver].
  - intros t [= <-]. split; [done|]. eexists. split; [left|]. split; [done|]. vm_compute. reflexivity.
Qed.

Lemma time_billed_once_witness :
  invoicedTimes "did:key:c" "a" sample_usage ∅ (time_Unix 1700000000)
    [time_Unix 1700000050; time_Unix 1700000090; time_Unix 1700000200] = Some (90 * Second)%Z.
Proof.
  rewrite (time_billed_once "did:key:c" "a" sample_usage ∅ (time_Unix 1700000010) (Some (time_Unix 1700000100)) sample_runs_once);
    [vm_compute; reflexivity|discriminate|..]; vm_compute; repeat split; try discriminate.
Defined.
