(* ===== verification/Transfers.v ===== *)
(** * Transfers of a blockchain transaction

    How the payment validator reads the asset transfers out of a Cardano transaction
    (tokenomics/client/cardano/cardano.go, [ComputeTransfersForAsset]): it nets what each
    address puts in and takes out, and pairs those who pay with those who receive until
    one side is used up.  The fetching of the transaction is an argument.

    The theorem: every transfer is positive and from a payer to a receiver, nobody pays or
    receives more than their net, and when the transaction balances everybody pays and
    receives exactly that, in whatever order the maps are visited. *)

From Stdlib Require Import Ascii.
From S2P Require Import Prelude GoStrings GoNumbers Hardware ResourceManager GoTime.

(** ** Integers of any size (package math/big) *)

Fixpoint digitsValue (acc : Z) (s : string) : option Z :=
  match s with
  | EmptyString => Some acc
  | String c s => match digit false c with Some d => digitsValue (acc * 10 + d)%Z s | None => None end
  end.

(** [SetString] in base 10. *)
Definition SetString (s : string) : option Z :=
  let '(neg, r) := dropSign s in
  match r with
  | EmptyString => None
  | _ => (λ n : Z, if (neg : bool) then (- n)%Z else n) <$> digitsValue 0 r
  end.

(** ** Transactions *)

Record AmountItem := mkAmountItem { ai_Unit : string; ai_Quantity : string }.
Record TxUtxoEntry := mkUtxo { ut_Address : string; ut_Amount : list AmountItem }.
Record TxUtxos := mkTxUtxos { tx_Inputs : list TxUtxoEntry; tx_Outputs : list TxUtxoEntry }.
Record AssetAmount := mkAssetAmount { aa_Unit : string; aa_Quantity : Z }.
Record Transfer := mkTransfer { tf_From : string; tf_To : string; tf_Assets : list AssetAmount }.

Section transfers.
  Context `{Visit : MapVisit} (asset : string).

(** The amounts of the asset by address; [None] when a quantity is no number, which
    dereferences a nil integer. *)
Definition addAmount (addr : string) (m : option (gmap string Z)) (amt : AmountItem) : option (gmap string Z) :=
  if bool_decide (ai_Unit amt = asset) then
    m ← m; q ← SetString (ai_Quantity amt); Some (<[addr := default 0 (m !! addr) + q]> m)%Z
  else m.

Definition addEntry (m : option (gmap string Z)) (e : TxUtxoEntry) : option (gmap string Z) :=
  fold_left (addAmount (ut_Address e)) (ut_Amount e) m.

Definition aggregate (l : list TxUtxoEntry) : option (gmap string Z) := fold_left addEntry l (Some ∅).

(** What an address takes out less what it puts in. *)
Definition netOf (inputs outputs : gmap string Z) : gmap string Z :=
  merge (λ i o, match i, o with None, None => None | _, _ => Some (default 0 o - default 0 i)%Z end) inputs outputs.

Definition sendersOf (net : gmap string Z) : list (string * Z) :=
  map (λ '(a, n), (a, Z.abs n)) (List.filter (λ '(_, n), (n <? 0)%Z) (visit (map_to_list net))).
Definition receiversOf (net : gmap string Z) : list (string * Z) :=
  List.filter (λ '(_, n), (0 <? n)%Z) (visit (map_to_list net)).

(** The first payer and the first receiver settle the smaller amount; who is done leaves. *)
Fixpoint pairUp (fuel : nat) (senders receivers : list (string * Z)) : list Transfer :=
  match fuel, senders, receivers with
  | S fuel, (a, x) :: ss, (b, y) :: rs =>
      let amt := if (x <? y)%Z then x else y in
      (if (0 <? amt)%Z then [mkTransfer a b [mkAssetAmount asset amt]] else []) ++
      pairUp fuel (if (x - amt =? 0)%Z then ss else (a, x - amt)%Z :: ss)
                  (if (y - amt =? 0)%Z then rs else (b, y - amt)%Z :: rs)
  | _, _, _ => []
  end.

(** [tx] is [None] when the transaction cannot be fetched. *)
Definition ComputeTransfersForAsset (tx : option TxUtxos) : outcome () (list Transfer) :=
  match tx with
  | None => Ok []
  | Some tx =>
      match aggregate (tx_Inputs tx), aggregate (tx_Outputs tx) with
      | Some i, Some o =>
          let net := netOf i o in
          let ss := sendersOf net in
          let rs := receiversOf net in
          Ok (pairUp (length ss + length rs) ss rs)
      | _, _ => Panic
      end
  end.

(** ** Sums *)

Fixpoint sumOf (l : list Z) : Z := match l with [] => 0%Z | x :: l => (x + sumOf l)%Z end.
Definition quantity (t : Transfer) : Z := sumOf (map aa_Quantity (tf_Assets t)).

Definition sent (a : string) (l : list Transfer) : Z :=
  sumOf (map (λ t, if bool_decide (tf_From t = a) then quantity t else 0%Z) l).
Definition received (a : string) (l : list Transfer) : Z :=
  sumOf (map (λ t, if bool_decide (tf_To t = a) then quantity t else 0%Z) l).

Definition amountOf (a : string) (l : list (string * Z)) : Z :=
  sumOf (map (λ p, if bool_decide (p.1 = a) then p.2 else 0%Z) l).
Definition total (l : list (string * Z)) : Z := sumOf (map snd l).

(** What an address has of the asset in a list of entries, and all addresses together. *)
Definition itemValue (amt : AmountItem) : Z :=
  if bool_decide (ai_Unit amt = asset) then default 0%Z (SetString (ai_Quantity amt)) else 0%Z.
Definition entryValue (e : TxUtxoEntry) : Z := sumOf (map itemValue (ut_Amount e)).
Definition holding (l : list TxUtxoEntry) (a : string) : Z :=
  sumOf (map (λ e, if bool_decide (ut_Address e = a) then entryValue e else 0%Z) l).
Definition volume (l : list TxUtxoEntry) : Z := sumOf (map entryValue l).

Definition positive (l : list (string * Z)) : Prop := Forall (λ p, 0 < p.2)%Z l.

Lemma sumOf_app l l' : sumOf (l ++ l') = (sumOf l + sumOf l')%Z.
Proof. induction l as [|x l IH]; simpl; [done|]. rewrite IH. lia. Qed.

#[local] Instance sumOf_perm : Proper ((≡ₚ) ==> (=)) sumOf.
Proof. induction 1; simpl; lia. Qed.

Lemma sumOf_map_perm {A} (f : A → Z) l l' : l ≡ₚ l' → sumOf (map f l) = sumOf (map f l').
Proof. intros Hp. by rewrite (Permutation_map f Hp). Qed.

(** ** The loop settles the smaller side *)

Lemma positive_sums l : positive l → (∀ a, 0 ≤ amountOf a l)%Z ∧ (0 ≤ total l)%Z ∧ (total l ≤ 0 → l = [])%Z.
Proof.
  induction 1 as [|[n x] l Hx _ (Ha & Ht & Hn)]; [done|]. unfold amountOf, total in *. cbn in *. split_and!.
  - intros a. specialize (Ha a). case_bool_decide; lia.
  - lia.
  - lia.
Qed.

(** What a settlement has to satisfy. *)
Definition settles (ss rs : list (string * Z)) (ts : list Transfer) : Prop :=
  Forall (λ t, 0 < quantity t ∧ tf_From t ∈ map fst ss ∧ tf_To t ∈ map fst rs)%Z ts ∧
  (∀ a, sent a ts ≤ amountOf a ss ∧ received a ts ≤ amountOf a rs)%Z ∧
  (total ss ≤ total rs → ∀ a, sent a ts = amountOf a ss)%Z ∧
  (total rs ≤ total ss → ∀ a, received a ts = amountOf a rs)%Z.

Lemma settles_none ss rs : positive ss → positive rs → ss = [] ∨ rs = [] → settles ss rs [].
Proof.
  intros (Ha & Ht & Hn)%positive_sums (Ha' & Ht' & Hn')%positive_sums Hor. unfold settles, sent, received. cbn.
  split_and!; [constructor|by intros a; split| |];
    destruct Hor as [-> | ->]; intros Hle a; cbn in *; try done; by rewrite ?Hn, ?Hn' by lia.
Qed.

(** Settling an amount [amt] between the first two. *)
Lemma settles_step a x ss b y rs amt ss' rs' ts :
  (0 < amt)%Z →
  (∀ c, amountOf c ss' = amountOf c ((a, x) :: ss) - if bool_decide (a = c) then amt else 0)%Z →
  (∀ c, amountOf c rs' = amountOf c ((b, y) :: rs) - if bool_decide (b = c) then amt else 0)%Z →
  (total ss' = total ((a, x) :: ss) - amt)%Z → (total rs' = total ((b, y) :: rs) - amt)%Z →
  map fst ss' ⊆ a :: map fst ss → map fst rs' ⊆ b :: map fst rs →
  settles ss' rs' ts → settles ((a, x) :: ss) ((b, y) :: rs) (mkTransfer a b [mkAssetAmount asset amt] :: ts).
Proof.
  intros Hamt Hs Hr Hts Htr Hss Hrs (Hp & Hle & Hall & Hall'). unfold settles. split_and!.
  - constructor; [unfold quantity; cbn; split_and!; [lia|left|left]|].
    eapply Forall_impl; [exact Hp|]. intros t (? & ? & ?). split_and!; [done|by apply Hss|by apply Hrs].
  - intros c. specialize (Hle c). rewrite Hs, Hr in Hle. unfold sent, received, quantity in *. cbn -[amountOf] in *.
    repeat case_bool_decide; lia.
  - intros Ht c. assert (total ss' ≤ total rs')%Z as Ht' by lia. specialize (Hall Ht' c). rewrite Hs in Hall.
    unfold sent, quantity in *. cbn -[amountOf] in *. case_bool_decide; lia.
  - intros Ht c. assert (total rs' ≤ total ss')%Z as Ht' by lia. specialize (Hall' Ht' c). rewrite Hr in Hall'.
    unfold received, quantity in *. cbn -[amountOf] in *. case_bool_decide; lia.
Qed.

Lemma pairUp_spec fuel ss rs :
  positive ss → positive rs → (length ss + length rs ≤ fuel)%nat → settles ss rs (pairUp fuel ss rs).
Proof.
  revert ss rs. induction fuel as [|fuel IH]; intros ss rs Hs Hr Hf.
  { destruct ss; [|cbn in Hf; lia]. apply settles_none; auto. }
  destruct ss as [|[a x] ss]; [apply settles_none; auto|].
  destruct rs as [|[b y] rs]; [apply settles_none; auto|].
  apply Forall_cons in Hs as [Hx Hs]. apply Forall_cons in Hr as [Hy Hr]. cbn in Hx, Hy, Hf |- *.
  set (amt := if (x <? y)%Z then x else y). assert (amt = Z.min x y) as Hamt by (unfold amt; destruct (Z.ltb_spec x y); lia).
  clearbody amt. rewrite (proj2 (Z.ltb_lt 0 amt)) by lia. cbn.
  destruct (Z.eqb_spec (x - amt) 0), (Z.eqb_spec (y - amt) 0); try lia;
    (eapply settles_step; [lia|intros c|intros c| | | | |apply IH]);
    unfold amountOf, total; cbn; try case_bool_decide; try lia; try set_solver;
    try (constructor; [cbn; lia|]); auto.
Qed.

(** ** Sums over the maps *)

Lemma amountOf_map (h : Z → Z) (m : gmap string Z) a :
  sumOf (map (λ p : string * Z, if bool_decide (p.1 = a) then h p.2 else 0%Z) (map_to_list m)) =
  match m !! a with Some x => h x | None => 0%Z end.
Proof.
  induction m as [|k x m Hk IH] using map_ind; [by rewrite map_to_list_empty, lookup_empty|].
  rewrite (sumOf_map_perm _ _ _ (map_to_list_insert m k x Hk)). cbn. rewrite IH. case_bool_decide as He.
  - subst. rewrite lookup_insert_eq, Hk. lia.
  - by rewrite lookup_insert_ne by done.
Qed.

(** A total can be taken over any list that covers the keys. *)
Lemma total_over (m : gmap string Z) D :
  NoDup D → (∀ a, is_Some (m !! a) → a ∈ D) → total (map_to_list m) = sumOf (map (λ a, default 0%Z (m !! a)) D).
Proof.
  revert m. induction D as [|d D IH]; intros m Hd Hm; cbn.
  - assert (m = ∅) as ->; [|by rewrite map_to_list_empty].
    apply map_eq. intros a. rewrite lookup_empty. destruct (m !! a) eqn:Ha; [|done]. set_solver.
  - apply NoDup_cons in Hd as [Hn Hd].
    assert (total (map_to_list m) = (default 0 (m !! d) + total (map_to_list (delete d m)))%Z) as ->.
    { destruct (m !! d) as [x|] eqn:Hx; cbn; [|by rewrite delete_id].
      unfold total. by rewrite <- (sumOf_map_perm snd _ _ (map_to_list_delete m d x Hx)). }
    rewrite (IH (delete d m)); [f_equal|done|].
    + f_equal. apply map_ext_in. intros a Ha%list_elem_of_In. rewrite lookup_delete_ne; [done|]. by intros ->.
    + intros a [x [Hne Hx]%lookup_delete_Some]. assert (a ∈ d :: D) as Hin by eauto. set_solver.
Qed.

Lemma netOf_lookup i o a :
  netOf i o !! a = match i !! a, o !! a with None, None => None | x, y => Some (default 0 y - default 0 x)%Z end.
Proof. unfold netOf. rewrite lookup_merge. by destruct (i !! a), (o !! a). Qed.

Lemma netOf_total i o : (total (map_to_list (netOf i o)) = total (map_to_list o) - total (map_to_list i))%Z.
Proof.
  set (D := elements (dom i ∪ dom o)).
  assert (NoDup D) as Hd by apply NoDup_elements.
  rewrite !(total_over _ D Hd).
  - clear Hd. induction D as [|d D IH]; cbn; [done|]. rewrite IH, netOf_lookup. destruct (i !! d), (o !! d); cbn; lia.
  - intros a Ha. unfold D. apply elem_of_elements, elem_of_union. left. by apply elem_of_dom.
  - intros a Ha. unfold D. apply elem_of_elements, elem_of_union. right. by apply elem_of_dom.
  - intros a Ha. unfold D. apply elem_of_elements, elem_of_union. rewrite netOf_lookup in Ha. rewrite !elem_of_dom.
    destruct (i !! a), (o !! a); [eauto..|by destruct Ha].
Qed.

Lemma senders_amount net a : amountOf a (sendersOf net) = Z.max 0 (- default 0%Z (net !! a)).
Proof.
  transitivity (sumOf (map (λ p : string * Z, if bool_decide (p.1 = a) then Z.max 0 (- p.2) else 0%Z) (visit (map_to_list net)))).
  - unfold amountOf, sendersOf. induction (visit (map_to_list net)) as [|[k n] l IH]; cbn; [done|].
    destruct (Z.ltb_spec n 0); cbn; case_bool_decide; rewrite ?IH; lia.
  - rewrite (sumOf_map_perm _ _ _ (visit_perm _)), (amountOf_map (λ n, Z.max 0 (- n))). by destruct (net !! a).
Qed.

Lemma receivers_amount net a : amountOf a (receiversOf net) = Z.max 0 (default 0%Z (net !! a)).
Proof.
  transitivity (sumOf (map (λ p : string * Z, if bool_decide (p.1 = a) then Z.max 0 p.2 else 0%Z) (visit (map_to_list net)))).
  - unfold amountOf, receiversOf. induction (visit (map_to_list net)) as [|[k n] l IH]; cbn; [done|].
    destruct (Z.ltb_spec 0 n); cbn; case_bool_decide; rewrite ?IH; lia.
  - rewrite (sumOf_map_perm _ _ _ (visit_perm _)), (amountOf_map (Z.max 0)). by destruct (net !! a).
Qed.

Lemma sides_total net : (total (receiversOf net) - total (sendersOf net) = total (map_to_list net))%Z.
Proof.
  transitivity (total (visit (map_to_list net))).
  - unfold total, receiversOf, sendersOf. induction (visit (map_to_list net)) as [|[k n] l IH]; cbn; [done|].
    destruct (Z.ltb_spec n 0), (Z.ltb_spec 0 n); cbn; lia.
  - unfold total. apply sumOf_map_perm, visit_perm.
Qed.

Lemma sides_positive net : positive (sendersOf net) ∧ positive (receiversOf net).
Proof.
  unfold positive, sendersOf, receiversOf. induction (visit (map_to_list net)) as [|[k n] l [IH1 IH2]]; cbn; [done|].
  destruct (Z.ltb_spec n 0), (Z.ltb_spec 0 n); cbn; split; auto; constructor; auto; cbn; lia.
Qed.

(** ** The amounts by address *)

Lemma sum_insert (m : gmap string Z) k v : total (map_to_list (<[k := v]> m)) = (v + total (map_to_list (delete k m)))%Z.
Proof.
  rewrite <- (insert_delete_eq m k). unfold total.
  by rewrite (sumOf_map_perm snd _ _ (map_to_list_insert (delete k m) k v (lookup_delete_eq m k))).
Qed.

Lemma total_add (m : gmap string Z) k q :
  total (map_to_list (<[k := default 0 (m !! k) + q]> m)%Z) = (total (map_to_list m) + q)%Z.
Proof.
  rewrite sum_insert. destruct (m !! k) as [x|] eqn:Hk; cbn.
  - rewrite <- (insert_id m k x Hk) at 2. rewrite sum_insert. lia.
  - rewrite delete_id by done. lia.
Qed.

(** Every address gains what is added to it, and the total gains the same. *)
Definition gains (m m' : gmap string Z) (f : string → Z) (n : Z) : Prop :=
  (∀ a, default 0 (m' !! a) = default 0 (m !! a) + f a)%Z ∧ total (map_to_list m') = (total (map_to_list m) + n)%Z.

Lemma gains_trans m m' m'' f f' g n n' k :
  gains m m' f n → gains m' m'' f' n' → (∀ a, g a = f a + f' a)%Z → k = (n + n')%Z → gains m m'' g k.
Proof.
  intros [Hf Hn] [Hf' Hn'] Hg ->. split; [|rewrite Hn', Hn; lia]. intros a. rewrite Hf', Hf, Hg. lia.
Qed.

Lemma addAmount_None addr l : fold_left (addAmount addr) l None = None.
Proof. induction l as [|e l IH]; cbn; [done|]. unfold addAmount at 2. cbn. by case_bool_decide. Qed.

Lemma addAmounts_gains addr l m m' :
  fold_left (addAmount addr) l (Some m) = Some m' →
  gains m m' (λ a, if bool_decide (addr = a) then sumOf (map itemValue l) else 0%Z) (sumOf (map itemValue l)).
Proof.
  revert m. induction l as [|e l IH]; intros m; cbn.
  { intros [= ->]. split; [|lia]. intros a. case_bool_decide; lia. }
  unfold addAmount at 2, itemValue at 1 3. destruct (bool_decide (ai_Unit e = asset)); cbn.
  - destruct (SetString (ai_Quantity e)) as [q|]; cbn; [|by rewrite addAmount_None]. intros Hm%IH.
    eapply (gains_trans _ _ _ (λ a, if bool_decide (addr = a) then q else 0%Z)); [|exact Hm| |reflexivity].
    + split; [|apply total_add]. intros a. case_bool_decide as Ha; [subst; rewrite lookup_insert_eq; cbn; lia|].
      rewrite lookup_insert_ne by done. lia.
    + intros a. cbn. case_bool_decide; lia.
  - intros Hm%IH. exact Hm.
Qed.

Lemma addEntry_None l : fold_left addEntry l None = None.
Proof. induction l as [|e l IH]; cbn; [done|]. unfold addEntry at 2. by rewrite addAmount_None. Qed.

Lemma addEntries_gains l m m' :
  fold_left addEntry l (Some m) = Some m' → gains m m' (holding l) (volume l).
Proof.
  revert m. induction l as [|e l IH]; intros m; cbn.
  { intros [= ->]. split; [|unfold volume; cbn; lia]. intros a. unfold holding. cbn. lia. }
  destruct (addEntry (Some m) e) as [m1|] eqn:He; [|by rewrite addEntry_None]. intros Hm%IH.
  eapply gains_trans; [exact (addAmounts_gains _ _ _ _ He)|exact Hm| |reflexivity].
  intros a. unfold holding, entryValue. cbn. done.
Qed.

Lemma aggregate_spec l m :
  aggregate l = Some m → (∀ a, default 0%Z (m !! a) = holding l a) ∧ total (map_to_list m) = volume l.
Proof.
  intros [Hf Hn]%addEntries_gains. rewrite map_to_list_empty in Hn. cbn in Hn. split; [|done].
  intros a. rewrite Hf, lookup_empty. done.
Qed.

(** C27: the transfers of a transaction are its net flows: each is positive, nobody sends
    more than they put in beyond what they take out, nobody receives more than the
    converse, and when the transaction moves the asset without creating or destroying
    any, what every address receives less what it sends is exactly what it takes out less
    what it puts in; whatever the order in which addresses are visited. *)
Theorem transfers_are_flows tx ts :
  ComputeTransfersForAsset (Some tx) = Ok ts →
  let flow a := (holding (tx_Outputs tx) a - holding (tx_Inputs tx) a)%Z in
  Forall (λ t, 0 < quantity t)%Z ts ∧
  (∀ a, sent a ts ≤ Z.max 0 (- flow a) ∧ received a ts ≤ Z.max 0 (flow a))%Z ∧
  (volume (tx_Inputs tx) = volume (tx_Outputs tx) → ∀ a, received a ts - sent a ts = flow a)%Z.
Proof.
  intros Hts. cbv zeta. unfold ComputeTransfersForAsset in Hts.
  destruct (aggregate (tx_Inputs tx)) as [i|] eqn:Hi; [|done]. destruct (aggregate (tx_Outputs tx)) as [o|] eqn:Ho; [|done].
  injection Hts as <-. apply aggregate_spec in Hi as [Hi Hit]. apply aggregate_spec in Ho as [Ho Hot].
  set (net := netOf i o). destruct (sides_positive net) as [Hps Hpr].
  destruct (pairUp_spec _ _ _ Hps Hpr (le_n _)) as (Hpos & Hle & Hs & Hr).
  assert (∀ a, default 0%Z (net !! a) = holding (tx_Outputs tx) a - holding (tx_Inputs tx) a)%Z as Hnet.
  { intros a. rewrite <- Hi, <- Ho. unfold net. rewrite netOf_lookup. destruct (i !! a), (o !! a); cbn; lia. }
  pose proof (sides_total net) as Hst. unfold net in Hst at 3. rewrite netOf_total, Hit, Hot in Hst.
  split_and!.
  - eapply Forall_impl; [exact Hpos|]. by intros t [? _].
  - intros a. specialize (Hle a). rewrite senders_amount, receivers_amount, Hnet in Hle. exact Hle.
  - intros Hv a. rewrite (Hr ltac:(lia) a), (Hs ltac:(lia) a), senders_amount, receivers_amount, Hnet. lia.
Qed.
End transfers.

(** A payment of 30 from an input of 100, with 70 back to the payer. *)
#[local] Instance in_order : MapVisit := { visit A l := l; visit_perm A l := Permutation_refl l }.

Definition sample_tx : TxUtxos :=
  mkTxUtxos [mkUtxo "payer" [mkAmountItem "lovelace" "2000000"; mkAmountItem "ntx" "100"]]
    [mkUtxo "shop" [mkAmountItem "ntx" "30"]; mkUtxo "payer" [mkAmountItem "lovelace" "1800000"; mkAmountItem "ntx" "70"]].

Lemma transfers_are_flows_witness :
  ∃ ts, ComputeTransfersForAsset "ntx" (Some sample_tx) = Ok ts ∧ (received "shop" ts - sent "shop" ts = 30)%Z.
Proof.
  eexists. split; [vm_compute; reflexivity|].
  exact (proj2 (proj2 (transfers_are_flows "ntx" sample_tx _ eq_refl)) eq_refl "shop").
Defined.

(** A quantity that is no number stops the process. *)
Example bad_quantity_panics :
  ComputeTransfersForAsset "ntx" (Some (mkTxUtxos [mkUtxo "payer" [mkAmountItem "ntx" "1.5"]] [])) = Panic.
Proof. vm_compute. reflexivity. Qed.
