(* ===== verification/GoText.v ===== *)
(** * Text in any case (package strings)

    [EqualFold], [ToLower], [ToUpper] and [TrimSpace] on ASCII text, which addresses,
    hashes, identifiers, currencies and states are; and the decimals of package math/big. *)

From Stdlib Require Import SpecFloat Ascii.
From S2P Require Import Prelude GoStrings GoNumbers GoTime.

Definition ascii_upper (c : ascii) : ascii :=
  let n := nat_of_ascii c in
  if ((97 <=? n) && (n <=? 122))%nat then ascii_of_nat (n - 32) else c.

Fixpoint string_upper (s : string) : string :=
  match s with EmptyString => EmptyString | String c s => String (ascii_upper c) (string_upper s) end.

Definition EqualFold (s t : string) : bool := bool_decide (string_lower s = string_lower t).

Definition is_space (c : ascii) : bool :=
  let n := nat_of_ascii c in ((9 <=? n) && (n <=? 13) || (n =? 32))%nat.

Fixpoint trimLeft (s : string) : string :=
  match s with String c r => if is_space c then trimLeft r else s | EmptyString => s end.

(** A rest of spaces only is dropped. *)
Fixpoint trimRight (s : string) : string :=
  match s with
  | EmptyString => EmptyString
  | String c r =>
      match trimRight r with
      | EmptyString => if is_space c then EmptyString else String c EmptyString
      | r => String c r
      end
  end.

Definition TrimSpace (s : string) : string := trimRight (trimLeft s).

(** ** Decimals of 256 bits

    [big.ParseFloat] in base 10: the number in the text is rounded once, ties to even.
    An exponent after p is binary. *)

Definition bigfloat_of_ratio (neg : bool) (n d : Z) : spec_float :=
  if (n =? 0)%Z then S754_zero neg
  else
    let k := (264 + Z.log2 d - Z.log2 n)%Z in
    let '(n, d) := if (0 <=? k)%Z then (n * 2 ^ k, d)%Z else (n, d * 2 ^ (- k))%Z in
    let q := (2 * (n / d) + if (n mod d =? 0)%Z then 0 else 1)%Z in
    binary_normalize 256 (2 ^ 31) (cond_Zopp neg q) (- k - 1) neg.

Definition big_special (s : string) : option spec_float :=
  if bool_decide (s ∈ ["Inf"; "inf"; "+Inf"; "+inf"]) then Some (S754_infinity false)
  else if bool_decide (s ∈ ["-Inf"; "-inf"]) then Some (S754_infinity true)
  else None.

Definition big_ParseFloat (s : string) : option spec_float :=
  match big_special s with
  | Some x => Some x
  | None =>
      let '(neg, r) := dropSign s in
      let '(m, frac, sawdigits, r) := mantissa false false false 0 0 r in
      if negb sawdigits then None
      else
        let e := match r with
                 | EmptyString => Some (10%Z, 0%Z)
                 | String c r =>
                     if bool_decide (ascii_lower c = "e"%char) then pair 10%Z <$> exponent r
                     else if bool_decide (ascii_lower c = "p"%char) then pair 2%Z <$> exponent r
                     else None
                 end in
        match e with
        | None => None
        | Some (base, e) =>
            let '(n, d) := if (0 <=? e)%Z then (m * base ^ e, 10 ^ frac)%Z else (m, 10 ^ frac * base ^ (- e))%Z in
            Some (bigfloat_of_ratio neg n d)
        end
  end.

Example folds :
  EqualFold "0xAbC" "0XaBc" = true ∧ EqualFold "a" "b" = false ∧ TrimSpace "  paid
" = "paid" ∧ TrimSpace " a b " = "a b" ∧ string_upper "usdt" = "USDT".
Proof. vm_compute. done. Qed.

Example big_decimals :
  big_ParseFloat "1.50" = big_ParseFloat "15e-1" ∧ big_ParseFloat "3p-1" = big_ParseFloat "+1.5" ∧
  big_ParseFloat "1_0" = None ∧ big_ParseFloat "" = None ∧ big_ParseFloat "0.1" ≠ big_ParseFloat "0.10000000000000001".
Proof. vm_compute. repeat split; try reflexivity. discriminate. Qed.

(** ** Regular expressions

    The expressions that utils/validate/strings.go and the parser of ensembles compile, with
    the matching of the regexp package: a string matches an anchored expression when the
    whole string is in its language.  Matching is by derivatives, [fullMatch_iff] relates it
    to the language. *)

(** Characters are given by ranges, as in the brackets of the source. *)
Inductive regex :=
| Void
| Empty
| Class (ranges : list (ascii * ascii))
| Seq (r s : regex)
| Alt (r s : regex)
| Star (r : regex).

#[export] Instance regex_eq_dec : EqDecision regex.
Proof. solve_decision. Defined.

Definition in_range (c : ascii) (r : ascii * ascii) : bool :=
  (nat_of_ascii r.1 <=? nat_of_ascii c)%nat && (nat_of_ascii c <=? nat_of_ascii r.2)%nat.

Definition in_class (c : ascii) (ranges : list (ascii * ascii)) : bool := existsb (in_range c) ranges.

Definition Lit (c : ascii) : regex := Class [(c, c)].
Definition Opt (r : regex) : regex := Alt r Empty.
Definition Plus (r : regex) : regex := Seq r (Star r).

(** [r{0,n}] *)
Fixpoint UpTo (n : nat) (r : regex) : regex :=
  match n with O => Empty | S n => Opt (Seq r (UpTo n r)) end.

(** ** Language *)

Inductive lang : regex → list ascii → Prop :=
| lang_empty : lang Empty []
| lang_class ranges c : in_class c ranges = true → lang (Class ranges) [c]
| lang_seq r s u v : lang r u → lang s v → lang (Seq r s) (u ++ v)
| lang_alt_l r s u : lang r u → lang (Alt r s) u
| lang_alt_r r s u : lang s u → lang (Alt r s) u
| lang_star_nil r : lang (Star r) []
| lang_star_app r u v : lang r u → lang (Star r) v → lang (Star r) (u ++ v).

(** ** Matching *)

Fixpoint nullable (r : regex) : bool :=
  match r with
  | Void | Class _ => false
  | Empty | Star _ => true
  | Seq r s => nullable r && nullable s
  | Alt r s => nullable r || nullable s
  end.

(** Constructors that drop what matches nothing or only the empty string. *)
Definition mkSeq (r s : regex) : regex :=
  match r, s with Void, _ | _, Void => Void | Empty, s => s | r, Empty => r | _, _ => Seq r s end.

Definition mkAlt (r s : regex) : regex :=
  match r, s with
  | Void, s => s
  | r, Void => r
  | _, _ => if bool_decide (r = s) then r else Alt r s
  end.

Fixpoint deriv (c : ascii) (r : regex) : regex :=
  match r with
  | Void | Empty => Void
  | Class ranges => if in_class c ranges then Empty else Void
  | Seq r s => if nullable r then mkAlt (mkSeq (deriv c r) s) (deriv c s) else mkSeq (deriv c r) s
  | Alt r s => mkAlt (deriv c r) (deriv c s)
  | Star r => mkSeq (deriv c r) (Star r)
  end.

Fixpoint fullMatch (r : regex) (s : string) : bool :=
  match s with
  | EmptyString => nullable r
  | String c s => fullMatch (deriv c r) s
  end.

(** ** Matching is membership *)

Lemma nullable_iff r : nullable r = true ↔ lang r [].
Proof.
  split.
  - induction r; cbn; intros H; try done.
    + constructor.
    + apply andb_prop in H as [H1 H2]. change (@nil ascii) with (@nil ascii ++ []). constructor; auto.
    + apply orb_prop in H as [H|H]; [apply lang_alt_l|apply lang_alt_r]; auto.
    + constructor.
  - remember [] as w eqn:Hw. induction 1; cbn; simplify_eq; try done.
    + apply app_nil in Hw as [-> ->]. by rewrite IHlang1, IHlang2.
    + by rewrite IHlang.
    + rewrite IHlang by done. apply orb_true_r.
Qed.

Lemma lang_seq_iff r s w : lang (Seq r s) w ↔ ∃ u v, w = u ++ v ∧ lang r u ∧ lang s v.
Proof.
  split; [inversion 1; subst; eauto 6|]. intros (u & v & -> & ? & ?). by constructor.
Qed.

Lemma lang_alt_iff r s w : lang (Alt r s) w ↔ lang r w ∨ lang s w.
Proof. split; [inversion 1; auto|]. intros [H|H]; [by apply lang_alt_l|by apply lang_alt_r]. Qed.

Lemma lang_empty_iff w : lang Empty w ↔ w = [].
Proof. split; [by inversion 1|intros ->; constructor]. Qed.

Lemma lang_void w : ¬ lang Void w.
Proof. by inversion 1. Qed.

Lemma lang_class_iff ranges w : lang (Class ranges) w ↔ ∃ c, w = [c] ∧ in_class c ranges = true.
Proof. split; [inversion 1; subst; eauto|]. intros (c & -> & ?). by constructor. Qed.

Lemma lang_seq_empty_l r w : lang (Seq Empty r) w ↔ lang r w.
Proof.
  rewrite lang_seq_iff. setoid_rewrite lang_empty_iff. split; [by intros (? & v & -> & -> & ?)|]. by exists [], w.
Qed.

Lemma lang_seq_empty_r r w : lang (Seq r Empty) w ↔ lang r w.
Proof.
  rewrite lang_seq_iff. setoid_rewrite lang_empty_iff. split; [intros (u & ? & -> & ? & ->); by rewrite app_nil_r|].
  exists w, []. by rewrite app_nil_r.
Qed.

Lemma lang_seq_void r w : (lang (Seq Void r) w ↔ lang Void w) ∧ (lang (Seq r Void) w ↔ lang Void w).
Proof.
  rewrite !lang_seq_iff. split; (split; [intros (? & ? & _ & ? & ?); exfalso; by eapply lang_void|intros []%lang_void]).
Qed.

Lemma seq_lang r s w : lang (mkSeq r s) w ↔ lang (Seq r s) w.
Proof.
  destruct r, s; cbn [mkSeq]; first [done | symmetry; apply lang_seq_void | symmetry; apply lang_seq_empty_l
                                  | symmetry; apply lang_seq_empty_r].
Qed.

Lemma alt_lang r s w : lang (mkAlt r s) w ↔ lang r w ∨ lang s w.
Proof.
  assert (Hv : lang Void w ↔ False) by (split; [apply lang_void|done]).
  destruct r, s; unfold mkAlt; rewrite ?Hv; try tauto;
    (case_bool_decide as He; [rewrite He; tauto|apply lang_alt_iff]).
Qed.

Lemma lang_star_cons r c w : lang (Star r) (c :: w) ↔ ∃ u v, w = u ++ v ∧ lang r (c :: u) ∧ lang (Star r) v.
Proof.
  split.
  - remember (Star r) as t eqn:Ht. remember (c :: w) as x eqn:Hx. intros H. revert w Hx.
    induction H as [| | | | | |r' u v Hu _ Hv IH]; intros w Hx; simplify_eq.
    destruct u as [|c' u]; cbn in Hx; simplify_eq.
    + destruct (IH eq_refl w eq_refl) as (a & b & -> & ? & ?). eauto.
    + exists u, v. done.
  - intros (u & v & -> & Hu & Hv). change (c :: u ++ v) with ((c :: u) ++ v). by constructor.
Qed.

Lemma deriv_iff c r w : lang (deriv c r) w ↔ lang r (c :: w).
Proof.
  revert w. induction r as [| |ranges|r IHr s IHs|r IHr s IHs|r IHr]; intros w; cbn [deriv].
  - split; intros H; by apply lang_void in H.
  - split; [intros H; by apply lang_void in H|]. by rewrite lang_empty_iff.
  - rewrite lang_class_iff. destruct (in_class c ranges) eqn:Hc.
    + rewrite lang_empty_iff. split; [intros ->; eauto|]. by intros (? & [= -> ->] & _).
    + split; [intros H; by apply lang_void in H|]. intros (? & [= -> ->] & ?). congruence.
  - assert (Hs : lang (mkSeq (deriv c r) s) w ↔ ∃ u v, w = u ++ v ∧ lang r (c :: u) ∧ lang s v).
    { rewrite seq_lang, lang_seq_iff. by setoid_rewrite IHr. }
    rewrite lang_seq_iff. destruct (nullable r) eqn:Hn; [rewrite alt_lang, IHs|]; rewrite Hs; clear Hs IHr IHs.
    + apply nullable_iff in Hn. split.
      * intros [(u & v & -> & ? & ?)|H]; [exists (c :: u), v|exists [], (c :: w)]; done.
      * intros ([|c' u] & v & Hw & Hu & Hv); cbn in Hw; simplify_eq; [by right|left; eauto].
    + split; [intros (u & v & -> & ? & ?); by exists (c :: u), v|].
      intros ([|c' u] & v & Hw & Hu & Hv); cbn in Hw; simplify_eq; [|eauto].
      apply nullable_iff in Hu. congruence.
  - rewrite alt_lang, IHr, IHs. by rewrite lang_alt_iff.
  - rewrite seq_lang, lang_seq_iff, lang_star_cons. by setoid_rewrite IHr.
Qed.

Lemma fullMatch_iff r s : fullMatch r s = true ↔ lang r (String.list_ascii_of_string s).
Proof.
  revert r. induction s as [|c s IH]; intros r; cbn; [apply nullable_iff|]. by rewrite IH, deriv_iff.
Qed.

(** ** The expressions of the source *)

Definition alnum : list (ascii * ascii) := [("a", "z"); ("A", "Z"); ("0", "9")]%char.
Definition lowernum : list (ascii * ascii) := [("a", "z"); ("0", "9")]%char.
Definition one (c : ascii) : ascii * ascii := (c, c).

Definition dnsLabelRegex : regex :=
  Seq (Class alnum) (Opt (Seq (UpTo 61 (Class (alnum ++ [one "-"%char]))) (Class alnum))).

Definition dnsNameRegex : regex := Seq dnsLabelRegex (Star (Seq (Lit "."%char) dnsLabelRegex)).

Definition IsDNSNameValid (name : string) : bool := fullMatch dnsNameRegex name.

(** A registry, with its port, the path to a repository, the repository, and a tag. *)
Definition dockerImageRegex : regex :=
  let domain := Seq (Class alnum) (Opt (Seq (Star (Class (alnum ++ [one "-"%char]))) (Class alnum))) in
  let separators := Class [one "."; one "_"; one "-"]%char in
  let name := Seq (Plus (Class lowernum)) (Star (Seq separators (Plus (Class lowernum)))) in
  let tag := Seq (Plus (Class alnum)) (Opt (Star (Seq separators (Plus (Class alnum))))) in
  let registry := Seq domain (Seq (Star (Seq (Lit "."%char) domain)) (Opt (Seq (Lit ":"%char) (Plus (Class [("0", "9")%char]))))) in
  Seq (Opt (Seq registry (Lit "/"%char)))
    (Seq (Star (Seq name (Lit "/"%char)))
       (Seq (Seq (Plus (Class lowernum)) (Opt (Star (Seq separators (Plus (Class lowernum))))))
          (Opt (Seq (Lit ":"%char) tag)))).

Definition IsDockerImageValid (image : string) : bool := fullMatch dockerImageRegex image.

Definition envVarKeyRegex : regex :=
  Seq (Class [("a", "z"); ("A", "Z"); ("_", "_")]%char)
      (Star (Class [("a", "z"); ("A", "Z"); ("0", "9"); ("_", "_")]%char)).

Definition IsEnvVarKeyValid (key : string) : bool := fullMatch envVarKeyRegex key.

Definition IsBlank (s : string) : bool := (String.length (TrimSpace s) =? 0)%nat.
Definition IsNotBlank (s : string) : bool := negb (IsBlank s).

(** ** Names of hosts *)

Definition name_char (c : ascii) : bool := in_class c (alnum ++ [one "-"%char]).

(** A label: letters, digits and hyphens, none at either end, at most 63 of them. *)
Definition dns_label (l : list ascii) : Prop :=
  (length l ≤ 63)%nat ∧ Forall (λ c, name_char c = true) l ∧
  (∃ c, head l = Some c ∧ in_class c alnum = true) ∧ (∃ c, last l = Some c ∧ in_class c alnum = true).

Lemma lang_upto n ranges w :
  lang (UpTo n (Class ranges)) w ↔ (length w ≤ n)%nat ∧ Forall (λ c, in_class c ranges = true) w.
Proof.
  revert w. induction n as [|n IH]; intros w; cbn [UpTo].
  - rewrite lang_empty_iff. split; [by intros ->|]. intros [H _]. destruct w; cbn in H; [done|lia].
  - unfold Opt. rewrite lang_alt_iff, lang_empty_iff, lang_seq_iff. setoid_rewrite IH. setoid_rewrite lang_class_iff. split.
    + intros [(? & v & -> & (c & -> & ?) & ? & ?)| ->]; [|split; [cbn; lia|done]]. split; [cbn; lia|by constructor].
    + intros [Hl Hf]. destruct w as [|c w]; [by right|left]. apply Forall_cons in Hf as [? ?]. cbn in Hl.
      exists [c], w. split_and!; [done|eauto|lia|done].
Qed.

Lemma lang_label w : lang dnsLabelRegex w ↔ dns_label w.
Proof.
  unfold dnsLabelRegex, Opt. rewrite lang_seq_iff. setoid_rewrite lang_class_iff. setoid_rewrite lang_alt_iff.
  setoid_rewrite lang_seq_iff. setoid_rewrite lang_empty_iff. setoid_rewrite lang_upto. setoid_rewrite lang_class_iff.
  assert (Hin : ∀ c, in_class c alnum = true → name_char c = true).
  { intros c Hc. unfold name_char, in_class. rewrite existsb_app. fold (in_class c alnum). by rewrite Hc. }
  unfold dns_label. split.
  - intros (? & v & -> & (c & -> & Hc) & [(m & ? & -> & [Hl Hm] & e & -> & He)| ->]).
    + split_and!; cbn [app].
      * cbn. rewrite length_app. cbn. lia.
      * constructor; [auto|]. apply Forall_app. split; [done|]. repeat constructor. auto.
      * by exists c.
      * exists e. by rewrite app_comm_cons, last_snoc.
    + split_and!; [cbn; lia|repeat constructor; auto|by exists c..].
  - intros (Hl & Hf & (c & Hc & Hca) & (e & He & Hea)). destruct w as [|c' w]; [done|]. cbn in Hc. injection Hc as ->.
    exists [c], w. split_and!; [done|eauto|]. destruct w as [|x w _] using rev_ind; [by right|left].
    rewrite app_comm_cons, last_snoc in He. injection He as ->. exists w, [e].
    apply Forall_cons in Hf as [_ [Hf _]%Forall_app]. cbn in Hl. rewrite length_app in Hl. cbn in Hl.
    split_and!; [done|lia|done|eauto].
Qed.

Lemma in_class_lit c d : in_class c [(d, d)] = true → c = d.
Proof.
  unfold in_class, in_range. cbn [existsb fst snd]. rewrite orb_false_r, andb_true_iff, !Nat.leb_le. intros [? ?].
  rewrite <- (ascii_nat_embedding c), <- (ascii_nat_embedding d). f_equal. lia.
Qed.

Definition dotted (ls : list (list ascii)) : list ascii := concat (map (cons "."%char) ls).

Lemma lang_labels w :
  lang (Star (Seq (Lit "."%char) dnsLabelRegex)) w ↔ ∃ ls, w = dotted ls ∧ Forall dns_label ls.
Proof.
  split.
  - remember (Star _) as r eqn:Hr. induction 1 as [| | | | | |r u v Hu _ Hv IH]; simplify_eq.
    + by exists [].
    + destruct (IH eq_refl) as (ls & -> & Hls). apply lang_seq_iff in Hu as (? & l & -> & (c & -> & Hc)%lang_class_iff & Hl%lang_label).
      exists (l :: ls). split; [|by constructor]. unfold dotted. cbn. do 2 f_equal.
      by apply in_class_lit.
  - intros (ls & -> & Hls). induction Hls as [|l ls Hl _ IH]; [constructor|].
    change (dotted (l :: ls)) with (("."%char :: l) ++ dotted ls). constructor; [|done].
    apply (lang_seq _ _ ["."%char]); [by apply lang_class|by apply lang_label].
Qed.

(** The names the source accepts are the labels joined by dots; a name may be longer than
    the 253 characters a comment in the source claims as the limit. *)
Theorem IsDNSNameValid_iff name :
  IsDNSNameValid name = true ↔
  ∃ l ls, String.list_ascii_of_string name = l ++ dotted ls ∧ dns_label l ∧ Forall dns_label ls.
Proof.
  unfold IsDNSNameValid. rewrite fullMatch_iff. unfold dnsNameRegex. rewrite lang_seq_iff. setoid_rewrite lang_label.
  setoid_rewrite lang_labels. naive_solver.
Qed.

Example names_of_hosts :
  map IsDNSNameValid ["host-1.example.com"; ""; ".example.com"; "example.com."; "-a"; "a-"; "a_b"; "a..b"] =
  [true; false; false; false; false; false; false; false].
Proof. vm_compute. reflexivity. Qed.

Example names_of_images :
  map IsDockerImageValid ["nginx"; "nginx:1.25"; "localhost:5000/team/app:v1"; "Nginx"; "a//b"; "a:"; "registry.example.com/a_b/c"] =
  [true; true; true; false; false; false; true].
Proof. vm_compute. reflexivity. Qed.

Example names_of_variables : map IsEnvVarKeyValid ["PATH"; "_x1"; "1x"; ""; "a-b"] = [true; true; false; false; false].
Proof. vm_compute. reflexivity. Qed.
