(* ===== verification/Payments.v ===== *)
(** * Payments

    What is owed and what was paid.  The payment validator keeps payments
    (tokenomics/store/payment) and quotes in another currency (store/payment_quote),
    creates a payment for every item of an invoice and tells the payer
    (dms/node/payment_processor.go), and checks against the blockchain that a payment was
    made (dms/node/behaviors_contract.go); the payer keeps its transactions
    (store/transaction).

    Whether the database answers a read or a write, the clock, the answers of the
    blockchains and of other nodes are arguments.  Stores that are searched by a unique
    identifier before they are written are maps; quotes are a list of documents. *)

From Stdlib Require Import SpecFloat.
From stdpp Require Import sorting.
From S2P Require Import Prelude GoStrings GoNumbers Hardware ResourceManager Key Envelope GoTime Contract UsageStore Billing Transfers GoText.

(** ** Prices

    The exchange rates of tokenomics/pricing/oracle.go: a cache over a price service, whose
    answers are arguments.  The theorem says which rate is returned: the cached one while
    it is fresh, else the service's, else the cached one of any age. *)

Definition USDT : string := "USDT".
Definition NTX : string := "NTX".

Definition allowedConversions : gmap string string := {[USDT := NTX]}.

Record CachedRate := mkCachedRate { cr_Rate : float64; cr_Timestamp : Time }.

Record PriceCache := mkPriceCache { pc_rates : gmap string CachedRate; pc_ttl : Duration }.

Inductive price_error := ErrConversion | ErrPriceAmount | ErrFetchPrice.

Definition cache_Get (c : PriceCache) (now : Time) (key : string) : option float64 :=
  match pc_rates c !! key with
  | Some r => if (pc_ttl c <? time_Sub now (cr_Timestamp r))%Z then None else Some (cr_Rate r)
  | None => None
  end.

Definition cache_GetStale (c : PriceCache) (key : string) : option float64 := cr_Rate <$> pc_rates c !! key.

Definition cache_Set (c : PriceCache) (now : Time) (key : string) (rate : float64) : PriceCache :=
  mkPriceCache (<[key := mkCachedRate rate now]> (pc_rates c)) (pc_ttl c).

Definition normalizeCurrency (currency : string) : string := string_upper currency.

(** [fetch] is the answer of the service. *)
Definition GetPrice (fetch : string → string → option float64) (now : Time) (from to : string) (c : PriceCache)
    : outcome price_error float64 * PriceCache :=
  let from := normalizeCurrency from in
  let to := normalizeCurrency to in
  let key := from +:+ ("/" +:+ to) in
  match cache_Get c now key with
  | Some rate => (Ok rate, c)
  | None =>
      match fetch from to with
      | Some rate => (Ok rate, cache_Set c now key rate)
      | None =>
          match cache_GetStale c key with
          | Some rate => (Ok rate, c)
          | None => (Err ErrFetchPrice, c)
          end
      end
  end.

Definition ConvertAmount (fetch : string → string → option float64) (now : Time) (amount from to : string) (c : PriceCache)
    : outcome price_error string * PriceCache :=
  if negb (bool_decide (allowedConversions !! from = Some to)) then (Err ErrConversion, c)
  else match StringToFloat64 amount with
  | Ok a =>
      match GetPrice fetch now from to c with
      | (Ok rate, c) => (Ok (formatAmount (f64_mul a rate)), c)
      | (Err e, c) => (Err e, c)
      | (Panic, c) => (Panic, c)
      end
  | _ => (Err ErrPriceAmount, c)
  end.

(** When the service does not answer, a rate that was fetched once is used for ever. *)
Theorem stale_price_used fetch now from to c r :
  pc_rates c !! (normalizeCurrency from +:+ ("/" +:+ normalizeCurrency to)) = Some r →
  fetch (normalizeCurrency from) (normalizeCurrency to) = None →
  GetPrice fetch now from to c = (Ok (cr_Rate r), c).
Proof.
  intros Hr Hf. unfold GetPrice, cache_Get, cache_GetStale. rewrite Hr. cbn. destruct (_ <? _)%Z; [|done]. by rewrite Hf.
Qed.

(** A rate that was just fetched is used until its time is over. *)
Theorem fetched_price_cached fetch fetch' now now' from to c rate c' :
  GetPrice fetch now from to c = (Ok rate, c') →
  cache_Get c now (normalizeCurrency from +:+ ("/" +:+ normalizeCurrency to)) = None →
  fetch (normalizeCurrency from) (normalizeCurrency to) = Some rate →
  (time_Sub now' now ≤ pc_ttl c)%Z →
  GetPrice fetch' now' from to c' = (Ok rate, c').
Proof.
  intros HG Hc Hf Ht. unfold GetPrice in HG. rewrite Hc, Hf in HG. injection HG as <-.
  unfold GetPrice, cache_Get, cache_Set. cbn. rewrite lookup_insert_eq. cbn.
  destruct (Z.ltb_spec (pc_ttl c) (time_Sub now' now)); [lia|done].
Qed.

Inductive pay_error :=
| ErrPayDatabase
| ErrPaymentNotFound
| ErrUniqueIDRequired
| ErrQuoteNotFound
| ErrQuoteUsed
| ErrQuoteExpired
| ErrNoUnusedQuote
| ErrQuoteExists
| ErrNoConversion
| ErrNoConverter
| ErrConvert
| ErrAddressMissing
| ErrChain
| ErrRequesterAddress
| ErrProviderAddress
| ErrNotVerified
| ErrBlockchain
| ErrTransactionNotFound
| ErrPaymentProvider
| ErrContractMissing
| ErrDestination.

#[export] Instance pay_error_eq_dec : EqDecision pay_error.
Proof. solve_decision. Defined.

(** ** Payments *)

Record Payment := mkPayment {
  pay_UniqueID : string;
  pay_Contract : ContractDoc;
  pay_Usages : Z;
  pay_Amount : string;
  pay_Paid : bool;
  pay_ToAddress : list PaymentAddressInfo;
  pay_OriginalAmount : string;
  pay_PricingCurrency : string;
  pay_RequiresConversion : bool
}.

Definition set_pay_paid p v := mkPayment (pay_UniqueID p) (pay_Contract p) (pay_Usages p) (pay_Amount p) v
  (pay_ToAddress p) (pay_OriginalAmount p) (pay_PricingCurrency p) (pay_RequiresConversion p).

Definition PaymentStore : Type := gmap string Payment.

(** A payment that exists is left as it is. *)
Definition payment_Insert (r w : bool) (p : Payment) (s : PaymentStore) : outcome pay_error () * PaymentStore :=
  if negb r then (Err ErrPayDatabase, s)
  else match s !! pay_UniqueID p with
  | Some _ => (Ok tt, s)
  | None => if w then (Ok tt, <[pay_UniqueID p := p]> s) else (Err ErrPayDatabase, s)
  end.

Definition GetByUniqueID (r : bool) (uniqueID : string) (s : PaymentStore) : outcome pay_error Payment :=
  if negb r then Err ErrPayDatabase
  else match s !! uniqueID with Some p => Ok p | None => Err ErrPaymentNotFound end.

Definition payment_Update (r w : bool) (p : Payment) (s : PaymentStore) : outcome pay_error () * PaymentStore :=
  if bool_decide (pay_UniqueID p = "") then (Err ErrUniqueIDRequired, s)
  else if negb r then (Err ErrPayDatabase, s)
  else match s !! pay_UniqueID p with
  | None => (Err ErrPaymentNotFound, s)
  | Some _ => if w then (Ok tt, <[pay_UniqueID p := p]> s) else (Err ErrPayDatabase, s)
  end.

(** ** Quotes *)

Record PaymentQuote := mkQuote {
  q_QuoteID : string;
  q_UniqueID : string;
  q_OriginalAmount : string;
  q_ConvertedAmount : string;
  q_PricingCurrency : string;
  q_PaymentCurrency : string;
  q_ExchangeRate : string;
  q_CreatedAt : Time;
  q_ExpiresAt : Time;
  q_Used : bool;
  q_UsedAt : Time
}.

Definition set_q_used q t := mkQuote (q_QuoteID q) (q_UniqueID q) (q_OriginalAmount q) (q_ConvertedAmount q)
  (q_PricingCurrency q) (q_PaymentCurrency q) (q_ExchangeRate q) (q_CreatedAt q) (q_ExpiresAt q) true t.

(** A document: when it was stored, under which identifiers, and the quote. *)
Record QuoteDoc := mkQuoteDoc { qd_created : Time; qd_quote_id : string; qd_unique_id : string; qd_data : PaymentQuote }.

Definition QuoteStore : Type := list QuoteDoc.

Section quotes.
  Context `{Visit : MapVisit}.

Definition CreateQuote (w : bool) (now : Time) (q : PaymentQuote) (s : QuoteStore) : outcome pay_error () * QuoteStore :=
  if bool_decide (q_QuoteID q = "") then (Err ErrQuoteNotFound, s)
  else if bool_decide (q_UniqueID q = "") then (Err ErrUniqueIDRequired, s)
  else if w then (Ok tt, mkQuoteDoc now (q_QuoteID q) (q_UniqueID q) q :: s) else (Err ErrPayDatabase, s).

Definition findQuote (quoteID : string) (s : QuoteStore) : option PaymentQuote :=
  qd_data <$> List.find (λ d, bool_decide (qd_quote_id d = quoteID)) (visit s).

Definition GetQuote (r : bool) (quoteID : string) (s : QuoteStore) : outcome pay_error PaymentQuote :=
  if negb r then Err ErrPayDatabase
  else match findQuote quoteID s with Some q => Ok q | None => Err ErrQuoteNotFound end.

Definition ValidateQuote (r : bool) (now : Time) (quoteID : string) (s : QuoteStore) : outcome pay_error PaymentQuote :=
  match GetQuote r quoteID s with
  | Ok q =>
      if q_Used q then Err ErrQuoteUsed
      else if time_After now (q_ExpiresAt q) then Err ErrQuoteExpired
      else Ok q
  | e => e
  end.

(** All documents with the identifier get the data of the first. *)
Definition MarkQuoteAsUsed (r w : bool) (now : Time) (quoteID : string) (s : QuoteStore) : outcome pay_error () * QuoteStore :=
  match GetQuote r quoteID s with
  | Ok q =>
      if q_Used q then (Err ErrQuoteUsed, s)
      else if w then
        (Ok tt, map (λ d, if bool_decide (qd_quote_id d = quoteID)
                          then mkQuoteDoc (qd_created d) (qd_quote_id d) (qd_unique_id d) (set_q_used q now) else d) s)
      else (Err ErrPayDatabase, s)
  | Err e => (Err e, s)
  | Panic => (Panic, s)
  end.

Definition InvalidateQuote : bool → bool → Time → string → QuoteStore → outcome pay_error () * QuoteStore := MarkQuoteAsUsed.

#[local] Instance newer_dec (d d' : QuoteDoc) : Decision (qd_created d' ≤ qd_created d)%Z := _.

(** The quotes of a payment, the latest first. *)
Definition quotesOf (uniqueID : string) (s : QuoteStore) : list PaymentQuote :=
  map qd_data (merge_sort (λ d d', qd_created d' ≤ qd_created d)%Z
    (visit (List.filter (λ d, bool_decide (qd_unique_id d = uniqueID)) s))).

Definition GetQuoteByUniqueID (r : bool) (uniqueID : string) (s : QuoteStore) : outcome pay_error PaymentQuote :=
  if negb r then Err ErrPayDatabase
  else match List.find (λ q, negb (q_Used q)) (quotesOf uniqueID s) with
  | Some q => Ok q
  | None => Err ErrNoUnusedQuote
  end.

Definition HasActiveQuote (r : bool) (now : Time) (uniqueID : string) (s : QuoteStore)
    : outcome pay_error (option PaymentQuote) :=
  if negb r then Err ErrPayDatabase
  else Ok (List.find (λ q, negb (q_Used q) && time_Before now (q_ExpiresAt q)) (quotesOf uniqueID s)).

(** Documents older than the retention are deleted; [gone] says which deletions succeed. *)
Definition CleanupExpiredQuotes (r : bool) (gone : QuoteDoc → bool) (now : Time) (retention : Duration) (s : QuoteStore)
    : outcome pay_error () * QuoteStore :=
  if negb r then (Err ErrPayDatabase, s)
  else (Ok tt, List.filter (λ d, negb ((UnixNano (qd_created d) <? UnixNano (time_Add now (- retention)))%Z && gone d)) s).
End quotes.

(** ** Transactions of the payer

    [tx_Metadata] holds values as [fmt.Sprint] prints them. *)

Record Transaction := mkTransaction {
  tx_UniqueID : string;
  tx_PaymentValidatorDID : string;
  tx_ContractDID : string;
  tx_ToAddress : list PaymentAddressInfo;
  tx_Amount : string;
  tx_Status : string;
  tx_TxHash : string;
  tx_Metadata : gmap string string;
  tx_OriginalAmount : string;
  tx_PricingCurrency : string;
  tx_RequiresConversion : bool;
  tx_CreatedAt : Z
}.

Definition set_tx_status t status hash := mkTransaction (tx_UniqueID t) (tx_PaymentValidatorDID t) (tx_ContractDID t)
  (tx_ToAddress t) (tx_Amount t) status hash (tx_Metadata t) (tx_OriginalAmount t) (tx_PricingCurrency t)
  (tx_RequiresConversion t) (tx_CreatedAt t).

Definition TransactionStore : Type := gmap string Transaction.

(** A new transaction is unpaid unless it says otherwise; one that exists is left as it
    is. *)
Definition transaction_Upsert (r w : bool) (now : Time) (t : Transaction) (s : TransactionStore)
    : outcome pay_error () * TransactionStore :=
  let status := if bool_decide (tx_Status t = "") then "unpaid" else tx_Status t in
  let created := if (tx_CreatedAt t =? 0)%Z then UnixNano now else tx_CreatedAt t in
  let t := mkTransaction (tx_UniqueID t) (tx_PaymentValidatorDID t) (tx_ContractDID t) (tx_ToAddress t) (tx_Amount t) status
    (tx_TxHash t) (tx_Metadata t) (tx_OriginalAmount t) (tx_PricingCurrency t) (tx_RequiresConversion t) created in
  if negb r then (Err ErrPayDatabase, s)
  else match s !! tx_UniqueID t with
  | Some _ => (Ok tt, s)
  | None => if w then (Ok tt, <[tx_UniqueID t := t]> s) else (Err ErrPayDatabase, s)
  end.

Definition GetTransactionByUniqueID (r : bool) (uniqueID : string) (s : TransactionStore) : outcome pay_error Transaction :=
  if negb r then Err ErrPayDatabase
  else match s !! uniqueID with Some t => Ok t | None => Err ErrTransactionNotFound end.

Definition GetPaymentValidatorDID (r : bool) (uniqueID : string) (s : TransactionStore) : outcome pay_error string :=
  match GetTransactionByUniqueID r uniqueID s with
  | Ok t => Ok (tx_PaymentValidatorDID t) | Err e => Err e | Panic => Panic end.

Definition MarkAsPaid (r w : bool) (uniqueID txHash : string) (s : TransactionStore)
    : outcome pay_error string * TransactionStore :=
  match GetTransactionByUniqueID r uniqueID s with
  | Ok t =>
      if w then (Ok (tx_PaymentValidatorDID t), <[uniqueID := set_tx_status t "paid" txHash]> s)
      else (Err ErrPayDatabase, s)
  | Err e => (Err e, s)
  | Panic => (Panic, s)
  end.

(** ** From items to payments *)

(** [TransactionForServiceProviderRequest]. *)
Record TransactionRequest := mkTxRequest {
  txr_UniqueID : string;
  txr_PaymentValidatorDID : string;
  txr_ContractDID : string;
  txr_ToAddress : list PaymentAddressInfo;
  txr_Metadata : gmap string string;
  txr_Amount : string;
  txr_Status : string;
  txr_TxHash : string;
  txr_OriginalAmount : string;
  txr_PricingCurrency : string;
  txr_RequiresConversion : bool
}.

Definition set_pd_addresses pd l := mkPaymentDetails (pd_PaymentType pd) (pd_PaymentModel pd) (pd_FeePerDeployment pd)
  (pd_FeePerAllocation pd) (pd_FeePerTimeUnit pd) (pd_TimeUnit pd) (pd_FeePerCPUCorePerTimeUnit pd)
  (pd_FeePerRAMGBPerTimeUnit pd) (pd_FeePerDiskGBPerTimeUnit pd) (pd_FeePerGPUPerTimeUnit pd) (pd_ResourceTimeUnit pd)
  (pd_FixedRentalAmount pd) (pd_PaymentPeriod pd) (pd_PaymentPeriodCount pd) l (pd_PricingCurrency pd)
  (pd_OrchestrationFee pd).
Definition set_c_addresses c l := mkContract (c_ContractDID c) (c_SolutionEnablerDID c) (c_PaymentValidatorDID c)
  (c_ResourceConfiguration c) (c_TerminationOption c) (c_Penalties c) (c_Duration c) (c_Participants c)
  (set_pd_addresses (c_PaymentDetails c) l) (c_Paid c) (c_Signatures c) (c_CurrentState c) (c_ContractTerms c)
  (c_Transitions c) (c_DisableBilling c) (c_Metadata c).

(** Amounts in another currency than NTX are converted when a quote is asked for. *)
Definition needsConversion (c : ContractDoc) : bool :=
  let cur := pd_PricingCurrency (c_PaymentDetails c) in
  negb (bool_decide (cur = "")) && negb (bool_decide (cur = NTX)).

Definition savePayment (r w : bool) (c : ContractDoc) (i : PaymentItem) (s : PaymentStore) : outcome pay_error () * PaymentStore :=
  let conv := needsConversion c in
  payment_Insert r w
    (mkPayment (pi_UniqueID i) c (pi_Usages i) (pi_Amount i) false (pd_Addresses (c_PaymentDetails c))
       (if conv then pi_Amount i else "") (if conv then pd_PricingCurrency (c_PaymentDetails c) else "") conv) s.

Definition transactionRequest (c : ContractDoc) (i : PaymentItem) (meta : gmap string string) : TransactionRequest :=
  let conv := needsConversion c in
  mkTxRequest (pi_UniqueID i) (URI (c_PaymentValidatorDID c)) (c_ContractDID c) (pd_Addresses (c_PaymentDetails c)) meta
    (pi_Amount i) "unpaid" "" (if conv then pi_Amount i else "")
    (if conv then pd_PricingCurrency (c_PaymentDetails c) else "") conv.

Section processor.
  Context `{Keys : KeyLib} (peerID : PubKey → option string).
  Context (meta : PaymentItem → gmap string string).   (* what the payment model notes on an item *)

Definition forwardTransaction (c : ContractDoc) (i : PaymentItem) (m : gmap string string)
    : list (Handle * TransactionRequest) :=
  match HandleFromDID peerID (URI (Requestor_DID (c_Participants c))) with
  | inl h => [(h, transactionRequest c i m)]
  | inr _ => []
  end.

Definition set_pi_uid i v := mkPaymentItem v (pi_DeploymentID i) (pi_Amount i) (pi_Usages i) (pi_IsOrchestrationFee i).

Definition identified (uuid : nat → string) (n : nat) (i : PaymentItem) : PaymentItem :=
  if bool_decide (pi_UniqueID i = "") then set_pi_uid i (uuid n) else i.

Definition itemMetadata (i : PaymentItem) : gmap string string :=
  if bool_decide (pi_DeploymentID i = "") then meta i else <["deployment_id" := pi_DeploymentID i]> (meta i).

(** One item: only a payment that was saved is forwarded. *)
Definition processItem (r w : nat → bool) (c : ContractDoc) (n : nat) (i : PaymentItem)
    (acc : PaymentStore * list (Handle * TransactionRequest)) : PaymentStore * list (Handle * TransactionRequest) :=
  match savePayment (r n) (w n) c i acc.1 with
  | (Ok _, s) => (s, acc.2 ++ forwardTransaction c i (itemMetadata i))
  | (_, s) => (s, acc.2)
  end.

Fixpoint processItems (r w : nat → bool) (c : ContractDoc) (n : nat) (l : list PaymentItem)
    (acc : PaymentStore * list (Handle * TransactionRequest)) : PaymentStore * list (Handle * TransactionRequest) :=
  match l with [] => acc | i :: l => processItems r w c (S n) l (processItem r w c n i acc) end.

(** For the fee of the orchestrator the payer is the requestor's address on the chain of
    the recipient. *)
Definition feeContract (c : ContractDoc) (rcpt : PaymentAddressInfo) : ContractDoc :=
  let to := if bool_decide (pa_ProviderAddr rcpt = "") then pa_RequesterAddr rcpt else pa_ProviderAddr rcpt in
  let payer := match List.find (λ a, bool_decide (pa_Blockchain a = pa_Blockchain rcpt)) (pd_Addresses (c_PaymentDetails c)) with
               | Some a => pa_RequesterAddr a | None => "" end in
  set_c_addresses c [mkPaymentAddressInfo (pa_Blockchain rcpt) (pa_Currency rcpt) payer to].

Definition hasAddress (rcpt : PaymentAddressInfo) : bool :=
  negb (bool_decide (pa_RequesterAddr rcpt = "")) || negb (bool_decide (pa_ProviderAddr rcpt = "")).

Definition processFee (r w : bool) (c : ContractDoc) (items : list PaymentItem) (first : PaymentItem)
    (acc : PaymentStore * list (Handle * TransactionRequest)) : PaymentStore * list (Handle * TransactionRequest) :=
  match pd_OrchestrationFee (c_PaymentDetails c) with
  | None => acc
  | Some fee =>
      match CalculateFee items (Some fee) with
      | Ok amount =>
          match GenerateOrchestrationFeeItem items (pi_UniqueID first) amount with
          | None => acc
          | Some item =>
              let rcpt := of_RecipientAddress fee in
              match savePayment r w (if hasAddress rcpt then feeContract c rcpt else c) item acc.1 with
              | (Ok _, s) =>
                  let c := if hasAddress rcpt then set_c_addresses c [rcpt] else c in
                  (s, acc.2 ++ forwardTransaction c item (<["fee_type" := "orchestration"]> (meta item)))
              | (_, s) => (s, acc.2)
              end
          end
      | _ => acc
      end
  end.

Definition ProcessPaymentItems (r w : nat → bool) (uuid : nat → string) (c : ContractDoc) (items : list PaymentItem)
    (s : PaymentStore) : PaymentStore * list (Handle * TransactionRequest) :=
  let items := imap (identified uuid) items in
  match items with
  | [] => (s, [])
  | first :: _ => processFee (r (length items)) (w (length items)) c items first (processItems r w c 0 items (s, []))
  end.
End processor.
