(* ===== verification/PaymentValidator.v ===== *)
(** * The payment validator and the payer

    The handlers of dms/node/behaviors_contract.go that turn an invoice into payments,
    quote them in the currency they are paid in, check with the blockchains that they were
    paid, and that let the payer confirm a payment. *)

From Stdlib Require Import SpecFloat.
From S2P Require Import Prelude Key Envelope Hardware ResourceManager GoTime GoStrings GoNumbers GoText Contract UsageStore Billing ContractHost Transfers Payments.

(** ** The blockchains *)

Record ERC20Tx := mkERC20 { erc_From : string; erc_To : string; erc_Amount : string; erc_TxHash : string }.

(** [convertToDecimals]: a quantity of the smallest unit as text. *)
Definition convertToDecimals (amount : Z) (decimals : nat) : string :=
  let dec := (10 ^ Z.of_nat decimals)%Z in
  Itoa (amount / dec) +:+ ("." +:+ padded decimals (amount mod dec)).

(** What the services answer: the number of the last block, the transfers of the token to an
    address since a block, and the Cardano transaction of a hash; [ch_asset] names the
    token on Cardano. *)
Record Chains := mkChains {
  ch_block : option Z;
  ch_transfers : string → Z → option (list ERC20Tx);
  ch_cardano : string → option TxUtxos;
  ch_asset : string
}.

Definition cardanoBlockchain : string := "CARDANO".
Definition ethereumBlockchain : string := "ETHEREUM".

(** Whether the first decimal is at least the second. *)
Definition compareDecimals (a b : string) : option bool :=
  x ← big_ParseFloat a; y ← big_ParseFloat b; Some (negb (float_lt x y)).

Record ValidationRequest := mkValidation { vr_UniqueID : string; vr_TxHash : string; vr_Blockchain : string; vr_QuoteID : string }.

(** The state of a validator, and which of its database calls answer. *)
Record Validator := mkValidator { v_payments : PaymentStore; v_quotes : QuoteStore; v_rates : PriceCache }.
Record Answers := mkAnswers { an_payments : bool; an_quotes : bool; an_save : bool; an_mark : bool }.

Definition set_v_payments v x := mkValidator x (v_quotes v) (v_rates v).
Definition set_v_quotes v x := mkValidator (v_payments v) x (v_rates v).
Definition set_v_rates v x := mkValidator (v_payments v) (v_quotes v) x.

Section validator.
  Context `{Visit : MapVisit}.

(** The amount to be paid, and the quote it is taken from.  A quote that the request names
    is used whatever payment it is for and whether or not it was used or has expired. *)
Definition expectedAmount (an : Answers) (req : ValidationRequest) (p : Payment) (qs : QuoteStore)
    : outcome pay_error (string * option PaymentQuote) :=
  if bool_decide (vr_QuoteID req = "") then
    match GetQuoteByUniqueID (an_quotes an) (vr_UniqueID req) qs with
    | Ok q => Ok (q_ConvertedAmount q, Some q)
    | _ => Ok (pay_Amount p, None)
    end
  else match GetQuote (an_quotes an) (vr_QuoteID req) qs with
  | Ok q => Ok (q_ConvertedAmount q, Some q)
  | Err e => Err e
  | Panic => Panic
  end.

Definition addressOn (blockchain : string) (p : Payment) : option PaymentAddressInfo :=
  List.find (λ a, bool_decide (pa_Blockchain a = blockchain)) (pd_Addresses (c_PaymentDetails (pay_Contract p))).

(** Whether the transaction pays the amount; an error ends the request. *)
Definition verifyEthereum (ch : Chains) (txHash : string) (addr : PaymentAddressInfo) (amount : string)
    : outcome pay_error bool :=
  match ch_block ch with
  | None => Err ErrChain
  | Some block =>
      match ch_transfers ch (pa_ProviderAddr addr) (u64 (block - 45000)) with
      | None => Err ErrChain
      | Some txs =>
          match List.find (λ tx, EqualFold (erc_TxHash tx) txHash) txs with
          | None => Ok false
          | Some tx =>
              if negb (EqualFold (erc_From tx) (pa_RequesterAddr addr)) then Err ErrRequesterAddress
              else Ok (default false (compareDecimals (erc_Amount tx) amount))
          end
      end
  end.

(** The replies that are sent on the way do not end the request. *)
Definition cardanoReplies (addr : PaymentAddressInfo) (t : Transfer) : list pay_error :=
  (if bool_decide (tf_From t = pa_RequesterAddr addr) then [] else [ErrRequesterAddress]) ++
  (if bool_decide (tf_To t = pa_ProviderAddr addr) then [] else [ErrProviderAddress]).

Definition cardanoPays (asset amount : string) (t : Transfer) : bool :=
  let quantity := match List.find (λ a, bool_decide (aa_Unit a = asset)) (tf_Assets t) with
                  | Some a => Itoa (aa_Quantity a) | None => "" end in
  default false (compareDecimals quantity amount).

Definition verifyCardano (ch : Chains) (txHash : string) (addr : PaymentAddressInfo) (amount : string)
    : outcome () (list pay_error * bool) :=
  (let? ts := ComputeTransfersForAsset (ch_asset ch) (ch_cardano ch txHash) in
   Ok (concat (map (cardanoReplies addr) ts), existsb (cardanoPays (ch_asset ch) amount) ts))%go.

(** After the check: a payment that was verified is paid and its quote is used. *)
Definition settle (an : Answers) (now : Time) (p : Payment) (quote : option PaymentQuote) (verified : bool) (v : Validator)
    : outcome pay_error () * Validator :=
  if negb verified then (Err ErrNotVerified, v)
  else
    let '(o, ps) := payment_Update (an_payments an) (an_save an) (set_pay_paid p true) (v_payments v) in
    let v := set_v_payments v ps in
    match quote with
    | None => (o, v)
    | Some q => (o, set_v_quotes v (MarkQuoteAsUsed (an_quotes an) (an_mark an) now (q_QuoteID q) (v_quotes v)).2)
    end.

(** [handleContractPaymentValidationRequestFromContractHost]: the replies, in order, and the
    new state. *)
Definition handlePaymentValidation (an : Answers) (ch : Chains) (now : Time) (req : ValidationRequest) (v : Validator)
    : outcome () (list (outcome pay_error ()) * Validator) :=
  let fail e := Ok ([Err e], v) in
  match GetByUniqueID (an_payments an) (vr_UniqueID req) (v_payments v) with
  | Ok p =>
      match expectedAmount an req p (v_quotes v) with
      | Ok (amount, quote) =>
          if bool_decide (vr_Blockchain req = ethereumBlockchain) then
            match addressOn ethereumBlockchain p with
            | None => fail ErrAddressMissing
            | Some addr =>
                match verifyEthereum ch (vr_TxHash req) addr amount with
                | Ok verified => let '(o, v) := settle an now p quote verified v in Ok ([o], v)
                | Err e => fail e
                | Panic => Panic
                end
            end
          else if bool_decide (vr_Blockchain req = cardanoBlockchain) then
            match addressOn cardanoBlockchain p with
            | None => fail ErrAddressMissing
            | Some addr =>
                match verifyCardano ch (vr_TxHash req) addr amount with
                | Ok (replies, verified) =>
                    let '(o, v) := settle an now p quote verified v in Ok (map Err replies ++ [o], v)
                | _ => Panic
                end
            end
          else fail ErrBlockchain
      | Err e => fail e
      | Panic => Panic
      end
  | Err e => fail e
  | Panic => Panic
  end.

Definition handlePaymentStatus (an : Answers) (uniqueID : string) (v : Validator) : outcome pay_error bool :=
  match GetByUniqueID (an_payments an) uniqueID (v_payments v) with
  | Ok p => Ok (pay_Paid p) | Err e => Err e | Panic => Panic end.

(** ** Quotes *)

Definition defaultQuoteTTL : Duration := (10 * Minute)%Z.

(** [converter] says whether prices are configured, [ttl] the configured life of a quote. *)
Definition handleGetPaymentQuote (an : Answers) (converter : bool) (ttl : option Duration)
    (fetch : string → string → option float64) (now : Time) (uniqueID : string) (v : Validator)
    : outcome pay_error PaymentQuote * Validator :=
  match GetByUniqueID (an_payments an) uniqueID (v_payments v) with
  | Ok p =>
      if negb (pay_RequiresConversion p) || bool_decide (pay_PricingCurrency p = "") then (Err ErrNoConversion, v)
      else match HasActiveQuote (an_quotes an) now uniqueID (v_quotes v) with
      | Ok (Some _) => (Err ErrQuoteExists, v)
      | Ok None =>
          let currency := match pay_ToAddress p with a :: _ => pa_Currency a | [] => NTX end in
          if negb converter then (Err ErrNoConverter, v)
          else match ConvertAmount fetch now (pay_OriginalAmount p) (pay_PricingCurrency p) currency (v_rates v) with
          | (Ok converted, c) =>
              match GetPrice fetch now (pay_PricingCurrency p) currency c with
              | (Ok rate, c) =>
                  let q := mkQuote ("quote_" +:+ uniqueID +:+ "_" +:+ Itoa (UnixNano now)) uniqueID (pay_OriginalAmount p)
                    converted (pay_PricingCurrency p) currency (formatAmount rate) now
                    (time_Add now (default defaultQuoteTTL ttl)) false Time_zero in
                  match CreateQuote (an_save an) now q (v_quotes v) with
                  | (Ok _, qs) => (Ok q, set_v_rates (set_v_quotes v qs) c)
                  | (Err e, qs) => (Err e, set_v_rates (set_v_quotes v qs) c)
                  | (Panic, qs) => (Panic, set_v_rates (set_v_quotes v qs) c)
                  end
              | (_, c) => (Err ErrConvert, set_v_rates v c)
              end
          | (_, c) => (Err ErrConvert, set_v_rates v c)
          end
      | Err e => (Err e, v)
      | Panic => (Panic, v)
      end
  | Err e => (Err e, v)
  | Panic => (Panic, v)
  end.

Definition handleValidatePaymentQuote (an : Answers) (now : Time) (quoteID : string) (v : Validator)
    : outcome pay_error PaymentQuote := ValidateQuote (an_quotes an) now quoteID (v_quotes v).

Definition handleCancelPaymentQuote (an : Answers) (now : Time) (quoteID : string) (v : Validator)
    : outcome pay_error () * Validator :=
  match GetQuote (an_quotes an) quoteID (v_quotes v) with
  | Ok q =>
      if q_Used q then (Err ErrQuoteUsed, v)
      else let '(o, qs) := InvalidateQuote (an_quotes an) (an_mark an) now quoteID (v_quotes v) in (o, set_v_quotes v qs)
  | Err e => (Err e, v)
  | Panic => (Panic, v)
  end.

(** ** Invoices *)

(** [None]: an invoice for periods without deployments is skipped. *)
Definition convertRequestToUsageData (req : ContractUsageRequest) : outcome billing_error (option UsageData) :=
  let c := cur_Contract req in
  let m := pd_PaymentModel (c_PaymentDetails c) in
  let data d := Ok (Some (mkUsageData (c_ContractDID c) m d)) in
  match m, cur_Data req with
  | PayPerAllocation, _ | PayPerDeployment, _ => data (CountData (cur_Usages req))
  | PayPerTimeUtilization, Some (TimeData l) => data (TimeData l)
  | PayPerResourceUtilization, Some (ResourceData l) => data (ResourceData l)
  | FixedRental, Some (FixedRentalData f) => data (FixedRentalData f)
  | Periodic, Some (PeriodicData p) => if bool_decide (pu_Deployments p = []) then Ok None else data (PeriodicData p)
  | OtherModel _, _ => Err ErrNoProcessor
  | _, _ => Err ErrUsageType
  end.
End validator.

Section invoices.
  Context `{Visit : MapVisit} `{Codec : EventCodec} `{Local : Zone} `{Keys : KeyLib}.
  Context (peerID : PubKey → option string) (meta : PaymentItem → gmap string string).

(** The invoice becomes payments, and the payer is told. *)
Definition handleIncomingContractUsage (r w : nat → bool) (uuid : nat → string) (us : UsageStore)
    (req : ContractUsageRequest) (s : PaymentStore)
    : outcome billing_error () * PaymentStore * list (Handle * TransactionRequest) :=
  let c := cur_Contract req in
  match GetPaymentModelProcessor true us uuid (pd_PaymentModel (c_PaymentDetails c)) with
  | Ok p =>
      match convertRequestToUsageData req with
      | Ok None => (Ok tt, s, [])
      | Ok (Some u) =>
          match CalculatePayment p u c with
          | Ok items => let '(s, sent) := ProcessPaymentItems peerID meta r w uuid c items s in (Ok tt, s, sent)
          | Err e => (Err e, s, [])
          | Panic => (Panic, s, [])
          end
      | Err e => (Err e, s, [])
      | Panic => (Panic, s, [])
      end
  | Err e => (Err e, s, [])
  | Panic => (Panic, s, [])
  end.

(** ** The payer *)

Definition handleIncomingTransaction (r w : bool) (now : Time) (req : TransactionRequest) (s : TransactionStore)
    : outcome pay_error () * TransactionStore :=
  transaction_Upsert r w now
    (mkTransaction (txr_UniqueID req) (txr_PaymentValidatorDID req) (txr_ContractDID req) (txr_ToAddress req) (txr_Amount req)
       (txr_Status req) (txr_TxHash req) (txr_Metadata req) (txr_OriginalAmount req) (txr_PricingCurrency req)
       (txr_RequiresConversion req) 0) s.

(** [validate] is the error in the reply of the payment provider, empty also when the reply
    cannot be read; [None] when there is no reply.  [send] says whether the provider of the
    contract could be told. *)
Definition handleConfirmLocalTransaction (r w : bool) (contracts : ContractStore)
    (validate : Handle → ValidationRequest → option string) (send : Handle → TransactionRequest → bool)
    (req : ValidationRequest) (s : TransactionStore) : outcome pay_error () * TransactionStore :=
  match GetPaymentValidatorDID r (vr_UniqueID req) s with
  | Ok did =>
      match HandleFromDID peerID did with
      | inr _ => (Err ErrDestination, s)
      | inl h =>
          match validate h req with
          | None => (Err ErrPaymentProvider, s)
          | Some e =>
              if negb (bool_decide (e = "")) then (Err ErrPaymentProvider, s)
              else match MarkAsPaid r w (vr_UniqueID req) (vr_TxHash req) s with
              | (Ok _, s) =>
                  match GetTransactionByUniqueID r (vr_UniqueID req) s with
                  | Ok t =>
                      match GetContract r contracts (tx_ContractDID t) with
                      | Ok c =>
                          match HandleFromDID peerID (URI (Provider_DID (c_Participants c))) with
                          | inr _ => (Err ErrDestination, s)
                          | inl h =>
                              let paid := mkTxRequest (tx_UniqueID t) (tx_PaymentValidatorDID t) (tx_ContractDID t)
                                (tx_ToAddress t) (tx_Metadata t) (tx_Amount t) "paid" (vr_TxHash req) "" "" false in
                              if send h paid then (Ok tt, s) else (Err ErrDestination, s)
                          end
                      | _ => (Err ErrContractMissing, s)
                      end
                  | Err e => (Err e, s)
                  | Panic => (Panic, s)
                  end
              | (Err e, s) => (Err e, s)
              | (Panic, s) => (Panic, s)
              end
          end
      end
  | Err e => (Err e, s)
  | Panic => (Panic, s)
  end.
End invoices.
