(* ===== verification/PaymentProps.v ===== *)
(** * What makes a payment paid

    In every state the handlers of a validator can reach, a payment that counts as paid
    rests on a transfer the blockchain reported; and the gaps of that check: one transfer
    pays any number of payments, on Cardano between any addresses, and a quote of another
    payment sets the price. *)

From Stdlib Require Import SpecFloat.
From stdpp Require Import sorting.
From S2P Require Import Prelude Key Envelope Hardware ResourceManager GoTime GoStrings GoNumbers GoText Contract UsageStore Billing ContractHost BillingProps Transfers Payments PaymentValidator.

Section paid.
  Context `{Visit : MapVisit}.

(** The states of the blockchains that the validator has been shown. *)
  Context (shown : Chains → Prop).

(** A transfer with the hash, from the address of the payer to that of the payee, of at least
    the amount. *)
Definition ethereum_pays (ch : Chains) (txHash : string) (p : Payment) (amount : string) : Prop :=
  ∃ block txs tx addr, addressOn ethereumBlockchain p = Some addr ∧ ch_block ch = Some block ∧
    ch_transfers ch (pa_ProviderAddr addr) (u64 (block - 45000)) = Some txs ∧ In tx txs ∧
    EqualFold (erc_TxHash tx) txHash = true ∧ EqualFold (erc_From tx) (pa_RequesterAddr addr) = true ∧
    compareDecimals (erc_Amount tx) amount = Some true.

(** A transfer of at least the amount in the transaction with the hash, between any addresses. *)
Definition cardano_pays (ch : Chains) (txHash : string) (p : Payment) (amount : string) : Prop :=
  ∃ ts t, is_Some (addressOn cardanoBlockchain p) ∧
    ComputeTransfersForAsset (ch_asset ch) (ch_cardano ch txHash) = Ok ts ∧ In t ts ∧
    cardanoPays (ch_asset ch) amount t = true.

(** The transaction that the request names pays the amount on the blockchain it names. *)
Definition pays (ch : Chains) (req : ValidationRequest) (p : Payment) (amount : string) : Prop :=
  vr_Blockchain req = ethereumBlockchain ∧ ethereum_pays ch (vr_TxHash req) p amount ∨
  vr_Blockchain req = cardanoBlockchain ∧ cardano_pays ch (vr_TxHash req) p amount.

Lemma verifyEthereum_true ch txHash addr amount p :
  addressOn ethereumBlockchain p = Some addr → verifyEthereum ch txHash addr amount = Ok true → ethereum_pays ch txHash p amount.
Proof.
  intros Ha. unfold verifyEthereum. destruct (ch_block ch) as [block|] eqn:Hb; [|done].
  destruct (ch_transfers ch _ _) as [txs|] eqn:Ht; [|done].
  destruct (List.find _ txs) as [tx|] eqn:Hf; [|done]. apply find_some in Hf as [Hin Hh].
  destruct (EqualFold (erc_From tx) _) eqn:He; [|done]. cbn. intros [= Hc].
  exists block, txs, tx, addr. split_and!; try done.
  by destruct (compareDecimals _ _) as [[]|].
Qed.

Lemma verifyCardano_true ch txHash addr amount p replies :
  addressOn cardanoBlockchain p = Some addr → verifyCardano ch txHash addr amount = Ok (replies, true) →
  cardano_pays ch txHash p amount.
Proof.
  intros Ha. unfold verifyCardano. destruct (ComputeTransfersForAsset _ _) as [ts| |] eqn:Ht; [|done..].
  intros [= _ Hex]. apply existsb_exists in Hex as (t & Hin & Hp).
  exists ts, t. split_and!; done.
Qed.

(** Stores are kept by unique identifier. *)
Definition keyed (s : PaymentStore) : Prop := ∀ k p, s !! k = Some p → pay_UniqueID p = k.

Lemma settle_payments an now p quote verified v o v' :
  settle an now p quote verified v = (o, v') →
  v_payments v' = v_payments v ∨
  verified = true ∧ v_payments v' = <[pay_UniqueID p := set_pay_paid p true]> (v_payments v).
Proof.
  unfold settle. destruct verified; cbn; [|intros [= _ <-]; by left].
  destruct (payment_Update _ _ _ _) as [o1 ps] eqn:Hu. intros Hs.
  assert (v_payments v' = ps) as -> by (destruct quote; by injection Hs as <- <-).
  revert Hu. unfold payment_Update. cbn. case_bool_decide; [intros [= _ <-]; by left|].
  destruct (an_payments an); cbn; [|intros [= _ <-]; by left].
  destruct (v_payments v !! _); [|intros [= _ <-]; by left].
  destruct (an_save an); intros [= _ <-]; [by right|by left].
Qed.

(** What is to be paid.  When the request names a quote: the amount of the quote of that
    name in the store, whatever payment it is for.  Otherwise: the amount of an unused quote
    stored for the payment, and the amount of the payment itself only when there is none or
    the store of quotes does not answer. *)
Definition demanded (an : Answers) (req : ValidationRequest) (p : Payment) (qs : QuoteStore) (amount : string) : Prop :=
  if bool_decide (vr_QuoteID req = "") then
    (∃ d, d ∈ qs ∧ qd_unique_id d = vr_UniqueID req ∧ q_Used (qd_data d) = false ∧ amount = q_ConvertedAmount (qd_data d)) ∨
    amount = pay_Amount p ∧
      (an_quotes an = false ∨ ∀ d, d ∈ qs → qd_unique_id d = vr_UniqueID req → q_Used (qd_data d) = true)
  else ∃ d, d ∈ qs ∧ qd_quote_id d = vr_QuoteID req ∧ amount = q_ConvertedAmount (qd_data d).

Lemma quotesOf_elem id s q : q ∈ quotesOf id s ↔ ∃ d, d ∈ s ∧ qd_unique_id d = id ∧ q = qd_data d.
Proof.
  unfold quotesOf. rewrite list_elem_of_fmap. split.
  - intros (d & -> & Hd). rewrite merge_sort_Permutation, visit_perm, list_elem_of_In, filter_In, <- list_elem_of_In in Hd.
    destruct Hd as [Hd Hid%bool_decide_eq_true]. by exists d.
  - intros (d & Hd & Hid & ->). exists d. split; [done|].
    rewrite merge_sort_Permutation, visit_perm, list_elem_of_In, filter_In, <- list_elem_of_In. by rewrite bool_decide_eq_true.
Qed.

Lemma expectedAmount_demanded an req p qs amount quote :
  expectedAmount an req p qs = Ok (amount, quote) → demanded an req p qs amount.
Proof.
  unfold expectedAmount, demanded. case_bool_decide.
  - unfold GetQuoteByUniqueID. destruct (an_quotes an); cbn; [|intros [= <- _]; by right; auto].
    destruct (List.find _ _) as [q|] eqn:Hf; intros [= <- _].
    + apply find_some in Hf as [Hin%list_elem_of_In Hu%negb_true_iff]. apply quotesOf_elem in Hin as (d & ? & ? & ->). left. by exists d.
    + right. split; [done|]. right. intros d Hd Hid.
      eapply (find_none _ _) in Hf; [|apply list_elem_of_In, quotesOf_elem; exists d; split; [exact Hd|split; [exact Hid|done]]].
      by apply negb_false_iff in Hf.
  - unfold GetQuote, findQuote. destruct (an_quotes an); cbn; [|done].
    destruct (List.find _ _) as [d|] eqn:Hf; cbn; [|done]. intros [= <- _].
    apply find_some in Hf as [Hin Hid%bool_decide_eq_true]. rewrite <- list_elem_of_In, visit_perm in Hin. by exists d.
Qed.

(** What one request does: nothing to the payments, or it pays the one it names, with a
    transaction that it names and that pays what is demanded. *)
Lemma validation_cases an ch now req v replies v' :
  handlePaymentValidation an ch now req v = Ok (replies, v') → keyed (v_payments v) →
  v_payments v' = v_payments v ∨
  ∃ p amount, v_payments v !! vr_UniqueID req = Some p ∧
    v_payments v' = <[vr_UniqueID req := set_pay_paid p true]> (v_payments v) ∧
    demanded an req p (v_quotes v) amount ∧ pays ch req p amount.
Proof.
  intros H Hk. unfold handlePaymentValidation in H.
  destruct (GetByUniqueID _ _ _) as [p| |] eqn:Hg; [|injection H as _ <-; by left|done].
  assert (v_payments v !! vr_UniqueID req = Some p) as Hp.
  { unfold GetByUniqueID in Hg. destruct (an_payments an); [|done]. cbn in Hg. by destruct (v_payments v !! _); simplify_eq. }
  destruct (expectedAmount _ _ _ _) as [[amount quote]| |] eqn:Hx; [|injection H as _ <-; by left|done].
  apply expectedAmount_demanded in Hx. assert (pay_UniqueID p = vr_UniqueID req) as Hid by by apply Hk.
  assert (∀ verified o, settle an now p quote verified v = (o, v') → (verified = true → pays ch req p amount) →
    v_payments v' = v_payments v ∨ ∃ p amount, v_payments v !! vr_UniqueID req = Some p ∧
    v_payments v' = <[vr_UniqueID req := set_pay_paid p true]> (v_payments v) ∧
    demanded an req p (v_quotes v) amount ∧ pays ch req p amount) as Hsettle.
  { intros verified o Hs Hev. apply settle_payments in Hs as [Hs|[-> Hs]]; [by left|]. right. exists p, amount.
    rewrite Hs, Hid. by auto. }
  case_bool_decide as He; [|case_bool_decide as Hc; [|injection H as _ <-; by left]].
  - destruct (addressOn _ _) as [addr|] eqn:Ha; [|injection H as _ <-; by left].
    destruct (verifyEthereum _ _ _ _) as [b| |] eqn:Hv; [|injection H as _ <-; by left|done].
    destruct (settle _ _ _ _ _ _) as [o v1] eqn:Hs. injection H as _ <-. apply (Hsettle _ _ Hs).
    intros ->. left. split; [done|]. by eapply verifyEthereum_true.
  - destruct (addressOn _ _) as [addr|] eqn:Ha; [|injection H as _ <-; by left].
    destruct (verifyCardano _ _ _ _) as [[rs b]| |] eqn:Hv; [|done..].
    destruct (settle _ _ _ _ _ _) as [o v1] eqn:Hs. injection H as _ <-. apply (Hsettle _ _ Hs).
    intros ->. right. split; [done|]. by eapply verifyCardano_true.
Qed.

(** ** Reachable states *)

(** What is stored stays, and new payments are unpaid and under their identifier. *)
Definition grows (s s' : PaymentStore) : Prop :=
  s ⊆ s' ∧ ∀ k p, s' !! k = Some p → s !! k = Some p ∨ pay_Paid p = false ∧ pay_UniqueID p = k.

#[local] Instance grows_preorder : PreOrder grows.
Proof.
  split; [split; [done|by left]|]. intros s1 s2 s3 [S1 H1] [S2 H2]. split; [by etrans|].
  intros k p Hp. apply H2 in Hp as [Hp|Hp]; [by apply H1|by right].
Qed.

Lemma savePayment_grows r w c i s : grows s (savePayment r w c i s).2.
Proof.
  unfold savePayment, payment_Insert. destruct r; cbn; [|done]. destruct (s !! _) eqn:Hs; [done|]. destruct w; [|done]. cbn.
  split; [by apply insert_subseteq|]. intros k p [[<- <-]|[_ Hp]]%lookup_insert_Some; [right|left]; done.
Qed.

Context `{Codec : EventCodec} `{Local : Zone} `{Keys : KeyLib}.
Context (peerID : PubKey → option string) (meta : PaymentItem → gmap string string).

Lemma processItems_grows r w c n l acc : grows acc.1 (processItems peerID meta r w c n l acc).1.
Proof.
  revert n acc. induction l as [|i l IH]; intros n acc; cbn; [done|]. etrans; [|apply IH].
  unfold processItem. pose proof (savePayment_grows (r n) (w n) c i acc.1) as Hg.
  by destruct (savePayment _ _ _ _ _) as [[] s].
Qed.

Lemma processFee_grows r w c items first acc : grows acc.1 (processFee peerID meta r w c items first acc).1.
Proof.
  unfold processFee. destruct (pd_OrchestrationFee _) as [fee|]; [|done]. destruct (CalculateFee _ _); [|done..].
  destruct (GenerateOrchestrationFeeItem _ _ _) as [item|]; [|done].
  match goal with |- context [savePayment r w ?c item acc.1] => pose proof (savePayment_grows r w c item acc.1) as Hg end.
  by destruct (savePayment _ _ _ _ _) as [[] s].
Qed.

Lemma invoice_grows r w uuid us req s : grows s (handleIncomingContractUsage peerID meta r w uuid us req s).1.2.
Proof.
  unfold handleIncomingContractUsage. destruct (GetPaymentModelProcessor _ _ _ _) as [p| |]; [|done..].
  destruct (convertRequestToUsageData _) as [[u|]| |]; [|done..]. destruct (CalculatePayment _ _ _) as [items| |]; [|done..].
  assert (grows s (ProcessPaymentItems peerID meta r w uuid (cur_Contract req) items s).1) as Hg.
  { unfold ProcessPaymentItems. destruct (imap _ items) as [|first l]; [done|].
    etrans; [|apply processFee_grows]. exact (processItems_grows _ _ _ _ _ (s, [])). }
  by destruct (ProcessPaymentItems _ _ _ _ _ _ _ _).
Qed.

(** What happens at a validator. *)
Inductive validator_step (v : Validator) : Validator → Prop :=
| vs_invoice r w uuid us req :
    validator_step v (set_v_payments v (handleIncomingContractUsage peerID meta r w uuid us req (v_payments v)).1.2)
| vs_validate an ch now req replies v' :
    shown ch → handlePaymentValidation an ch now req v = Ok (replies, v') → validator_step v v'
| vs_quote an converter ttl fetch now id : validator_step v (handleGetPaymentQuote an converter ttl fetch now id v).2
| vs_cancel an now id : validator_step v (handleCancelPaymentQuote an now id v).2.

Inductive validator_reachable (ttl : Duration) : Validator → Prop :=
| vr_new : validator_reachable ttl (mkValidator ∅ [] (mkPriceCache ∅ ttl))
| vr_next v v' : validator_reachable ttl v → validator_step v v' → validator_reachable ttl v'.

(** A quote of this validator: for one of its payments, which is priced in another currency,
    the amount is its original amount at a rate. *)
Definition quote_of (ps : PaymentStore) (q : PaymentQuote) : Prop :=
  ∃ p a rate, ps !! q_UniqueID q = Some p ∧ pay_RequiresConversion p = true ∧
    q_OriginalAmount q = pay_OriginalAmount p ∧ StringToFloat64 (pay_OriginalAmount p) = Ok a ∧
    q_ConvertedAmount q = formatAmount (f64_mul a rate).

(** Payments keep all but the mark that they are paid, and that stays. *)
Definition kept (s s' : PaymentStore) : Prop :=
  ∀ k p, s !! k = Some p → s' !! k = Some p ∨ s' !! k = Some (set_pay_paid p true).

Lemma quote_kept s s' q : kept s s' → quote_of s q → quote_of s' q.
Proof. intros Hk (p & a & rate & Hp & ?). apply Hk in Hp as [Hp|Hp]; eexists _, a, rate; (split; [exact Hp|done]). Qed.

(** How the payment [p] under [k] was paid in a run that ends in [v]: by a request for it, with
    a transaction that paid what was demanded of it then. *)
Definition paid_by (ttl : Duration) (v : Validator) (k : string) (p : Payment) : Prop :=
  ∃ v1 an ch now req replies v2 amount,
    validator_reachable ttl v1 ∧ shown ch ∧ handlePaymentValidation an ch now req v1 = Ok (replies, v2) ∧ rtc validator_step v2 v ∧
    vr_UniqueID req = k ∧ v_payments v2 !! k = Some p ∧
    demanded an req p (v_quotes v1) amount ∧ (∀ d, d ∈ v_quotes v1 → quote_of (v_payments v1) (qd_data d)) ∧ pays ch req p amount.

Record validator_ok (ttl : Duration) (v : Validator) : Prop := {
  vo_keyed : keyed (v_payments v);
  vo_quotes : ∀ d, d ∈ v_quotes v → quote_of (v_payments v) (qd_data d);
  vo_paid : ∀ k p, v_payments v !! k = Some p → pay_Paid p = true → paid_by ttl v k p
}.

Lemma paid_by_step ttl v v' k p : validator_step v v' → paid_by ttl v k p → paid_by ttl v' k p.
Proof.
  intros Hs (v1 & an & ch & now & req & replies & v2 & amount & H1 & H2 & H3 & H4 & H5).
  exists v1, an, ch, now, req, replies, v2, amount. do 3 (split; [done|]). split; [by eapply rtc_r|exact H5].
Qed.

Lemma quote_payments an converter ttl fetch now id v :
  v_payments (handleGetPaymentQuote an converter ttl fetch now id v).2 = v_payments v.
Proof.
  unfold handleGetPaymentQuote. destruct (GetByUniqueID _ _ _) as [p| |]; [|done..]. destruct (_ || _); [done|].
  destruct (HasActiveQuote _ _ _ _) as [[]| |]; [done| |done..]. destruct converter; [|done]. cbn.
  destruct (ConvertAmount _ _ _ _ _ _) as [[] c]; [|done..]. destruct (GetPrice _ _ _ _ _) as [[] c']; [|done..].
  by destruct (CreateQuote _ _ _ _) as [[] qs].
Qed.

Lemma cancel_payments an now id v : v_payments (handleCancelPaymentQuote an now id v).2 = v_payments v.
Proof.
  unfold handleCancelPaymentQuote. destruct (GetQuote _ _ _) as [q| |]; [|done..]. destruct (q_Used q); [done|].
  by destruct (InvalidateQuote _ _ _ _ _).
Qed.

(** *** The quotes *)

Lemma MarkQuote_stored (P : PaymentQuote → Prop) r w now id s :
  (∀ q t, P q → P (set_q_used q t)) → (∀ d, d ∈ s → P (qd_data d)) →
  ∀ d, d ∈ (MarkQuoteAsUsed r w now id s).2 → P (qd_data d).
Proof.
  intros HP Hs d. unfold MarkQuoteAsUsed, GetQuote, findQuote. destruct r; cbn; [|apply Hs].
  destruct (List.find _ _) as [d0|] eqn:Hf; cbn; [|apply Hs]. destruct (q_Used _); [apply Hs|]. destruct w; [|apply Hs]. cbn.
  intros (x & -> & Hx)%list_elem_of_fmap. case_bool_decide; [|by apply Hs]. cbn. apply HP, Hs.
  apply find_some in Hf as [Hin _]. by rewrite <- list_elem_of_In, visit_perm in Hin.
Qed.

Lemma quote_of_used ps q t : quote_of ps q → quote_of ps (set_q_used q t).
Proof. done. Qed.

Lemma settle_quotes ps an now p quote b v o v' :
  settle an now p quote b v = (o, v') → (∀ d, d ∈ v_quotes v → quote_of ps (qd_data d)) →
  ∀ d, d ∈ v_quotes v' → quote_of ps (qd_data d).
Proof.
  unfold settle. destruct b; cbn; [|by intros [= _ <-]]. destruct (payment_Update _ _ _ _) as [o1 s1].
  destruct quote as [q|]; intros [= _ <-]; cbn; [|done]. intros Hd. apply MarkQuote_stored; [|done]. intros. by apply quote_of_used.
Qed.

Lemma validation_quotes ps an ch now req v replies v' :
  handlePaymentValidation an ch now req v = Ok (replies, v') → (∀ d, d ∈ v_quotes v → quote_of ps (qd_data d)) →
  ∀ d, d ∈ v_quotes v' → quote_of ps (qd_data d).
Proof.
  unfold handlePaymentValidation. intros H Hq.
  repeat (case_match; try discriminate); simplify_eq/=; try done; by eapply settle_quotes.
Qed.

Lemma ConvertAmount_rate fetch now amount from to c x c' :
  ConvertAmount fetch now amount from to c = (Ok x, c') → ∃ a rate, StringToFloat64 amount = Ok a ∧ x = formatAmount (f64_mul a rate).
Proof.
  unfold ConvertAmount. destruct (negb _); [done|]. destruct (StringToFloat64 amount) as [a| |]; [|done..].
  destruct (GetPrice _ _ _ _ _) as [[rate| |] c1]; [|done..]. intros [= <- _]. by exists a, rate.
Qed.

Lemma GetQuote_quotes an converter ttl fetch now id v :
  (∀ d, d ∈ v_quotes v → quote_of (v_payments v) (qd_data d)) →
  ∀ d, d ∈ v_quotes (handleGetPaymentQuote an converter ttl fetch now id v).2 → quote_of (v_payments v) (qd_data d).
Proof.
  intros Hq d. unfold handleGetPaymentQuote. destruct (GetByUniqueID _ _ _) as [p| |] eqn:Hg; [|apply Hq..].
  destruct (pay_RequiresConversion p) eqn:Hconv; cbn [negb orb]; [|apply Hq]. case_bool_decide; [apply Hq|].
  destruct (HasActiveQuote _ _ _ _) as [[]| |]; [apply Hq| |apply Hq..]. destruct converter; [|apply Hq]. cbn.
  destruct (ConvertAmount _ _ _ _ _ _) as [[converted| |] c] eqn:Hc; [|apply Hq..].
  destruct (GetPrice _ _ _ _ _) as [[rate| |] c']; [|apply Hq..]. unfold CreateQuote. cbn.
  case_bool_decide; [apply Hq|]. case_bool_decide; [apply Hq|]. destruct (an_save an); [|apply Hq]. cbn. intros [->|Hd]%elem_of_cons; [|by apply Hq].
  apply ConvertAmount_rate in Hc as (a & r & Ha & ->). exists p, a, r. split_and!; try done. cbn.
  unfold GetByUniqueID in Hg. destruct (an_payments an); [|done]. cbn in Hg. by destruct (v_payments v !! id); simplify_eq.
Qed.

Lemma cancel_quotes ps an now id v :
  (∀ d, d ∈ v_quotes v → quote_of ps (qd_data d)) → ∀ d, d ∈ v_quotes (handleCancelPaymentQuote an now id v).2 → quote_of ps (qd_data d).
Proof.
  intros Hq. unfold handleCancelPaymentQuote. destruct (GetQuote _ _ _) as [q| |]; [|done..]. destruct (q_Used q); [done|].
  pose proof (MarkQuote_stored (quote_of ps) (an_quotes an) (an_mark an) now id (v_quotes v) (quote_of_used ps) Hq) as H.
  unfold InvalidateQuote. by destruct (MarkQuoteAsUsed _ _ _ _ _).
Qed.

(** *** Every step *)

(** A step that pays nothing. *)
Lemma unpaid_step ttl v v' :
  validator_step v v' → grows (v_payments v) (v_payments v') →
  (∀ d, d ∈ v_quotes v' → quote_of (v_payments v) (qd_data d)) → validator_ok ttl v → validator_ok ttl v'.
Proof.
  intros Hs [Hsub Hg] Hq [H1 H2 H3]. split.
  - intros k p Hp. apply Hg in Hp as [Hp|[_ ?]]; [by apply H1|done].
  - intros d Hd%Hq. eapply quote_kept; [|exact Hd]. intros k p Hp. left. by eapply lookup_weaken.
  - intros k p Hp Hpaid. apply Hg in Hp as [Hp|[Hf _]]; [|congruence]. eapply paid_by_step; [done|]. by apply H3.
Qed.

Lemma validate_step ttl v an ch now req replies v' :
  validator_reachable ttl v → shown ch → handlePaymentValidation an ch now req v = Ok (replies, v') →
  validator_ok ttl v → validator_ok ttl v'.
Proof.
  intros Hr Hsh Hv Hok. pose proof (vs_validate v an ch now req replies v' Hsh Hv) as Hstep. destruct Hok as [H1 H2 H3].
  pose proof (validation_quotes (v_payments v) _ _ _ _ _ _ _ Hv H2) as Hq.
  destruct (validation_cases _ _ _ _ _ _ _ Hv H1) as [E|(p & amount & Hreq & E & Hd & Hp)].
  { apply (unpaid_step ttl v v'); [done|by rewrite E|done|by split]. }
  assert (Hkept : kept (v_payments v) (v_payments v')).
  { intros k q Hkq. rewrite E. destruct (decide (vr_UniqueID req = k)) as [<-|Hne].
    - right. assert (q = p) as -> by congruence. apply lookup_insert_eq.
    - left. apply lookup_insert_Some. by right. }
  split.
  - intros k q. rewrite E. intros [[<- <-]|[_ Hq']]%lookup_insert_Some; [cbn; by apply H1|by apply H1].
  - intros d Hd'%Hq. by eapply quote_kept.
  - intros k q Hkq Hpaid. pose proof Hkq as Hkq'. rewrite E in Hkq. apply lookup_insert_Some in Hkq as [[<- <-]|[_ Hkq]].
    + exists v, an, ch, now, req, replies, v', amount. split_and!; try done.
    + eapply paid_by_step; [done|]. by apply H3.
Qed.

Lemma validator_inv ttl v : validator_reachable ttl v → validator_ok ttl v.
Proof.
  induction 1 as [|v v' Hr IH Hstep].
  { split; [|by intros d ?%elem_of_nil|]; intros k p Hp; change ((∅ : gmap string Payment) !! k = Some p) in Hp; by rewrite lookup_empty in Hp. }
  pose proof Hstep as Hcopy. destruct Hstep as [r w uuid us req|an ch now req replies v' Hsh Hv|an converter ttl' fetch now id|an now id].
  - apply (unpaid_step ttl v); [done|apply invoice_grows|apply IH|done].
  - by eapply validate_step.
  - apply (unpaid_step ttl v); [done|by rewrite quote_payments|apply GetQuote_quotes, IH|done].
  - apply (unpaid_step ttl v); [done|by rewrite cancel_payments|apply cancel_quotes, IH|done].
Qed.

(** C26: a payment counts as paid only on evidence: whatever invoices, requests, quotes and
    cancellations a validator has seen and whichever database calls failed, every payment of
    it that is paid was paid by a request for it that this validator handled, in a state it
    was in, and the blockchain that the request named, as it was shown to the validator, then
    reported, for the transaction that the request named, a transfer of at least what was
    demanded: on Ethereum from the address of the payer to that of the payee, on Cardano
    between any addresses.  What is demanded is the amount of the quote with the given name
    that this validator had stored; without a name, that of an unused quote it had stored for
    the payment, or the amount of the payment itself when it had none (or the store of quotes
    did not answer).  The stored quotes are for payments of this validator, with their
    original amounts converted at some rate. *)
Theorem paid_was_verified ttl v k p :
  validator_reachable ttl v → v_payments v !! k = Some p → pay_Paid p = true →
  pay_UniqueID p = k ∧
  ∃ v1 an ch now req replies v2 amount,
    validator_reachable ttl v1 ∧ shown ch ∧ handlePaymentValidation an ch now req v1 = Ok (replies, v2) ∧ rtc validator_step v2 v ∧
    vr_UniqueID req = k ∧ v_payments v2 !! k = Some p ∧
    demanded an req p (v_quotes v1) amount ∧ (∀ d, d ∈ v_quotes v1 → quote_of (v_payments v1) (qd_data d)) ∧ pays ch req p amount.
Proof.
  intros Hok%validator_inv Hs Hpaid. split; [by apply (vo_keyed _ _ Hok)|]. by apply (vo_paid _ _ Hok).
Qed.
End paid.

(** ** Gaps *)

#[local] Arguments compareDecimals : simpl never.
#[local] Arguments verifyEthereum : simpl never.
#[local] Arguments verifyCardano : simpl never.
#[local] Arguments cardanoPays : simpl never.

Definition all_answer : Answers := mkAnswers true true true true.

Section gaps.
  Context `{Visit : MapVisit}.

Definition after (o : outcome () (list (outcome pay_error ()) * Validator)) (v : Validator) : Validator :=
  match o with Ok (_, v) => v | _ => v end.

(** The same transaction, given for one payment after another. *)
Fixpoint payAll (ch : Chains) (now : Time) (txHash : string) (ids : list string) (v : Validator) : Validator :=
  match ids with
  | [] => v
  | id :: ids => payAll ch now txHash ids (after (handlePaymentValidation all_answer ch now
                   (mkValidation id txHash ethereumBlockchain "") v) v)
  end.

Lemma quotesOf_nil id : quotesOf id [] = [].
Proof. unfold quotesOf. cbn. pose proof (visit_perm (@nil QuoteDoc)) as Hp. apply Permutation_nil_r in Hp. by rewrite Hp. Qed.

Lemma expectedAmount_unquoted id txHash chain p :
  expectedAmount all_answer (mkValidation id txHash chain "") p [] = Ok (pay_Amount p, None).
Proof. unfold expectedAmount, GetQuoteByUniqueID. rewrite bool_decide_true by done. cbn. by rewrite quotesOf_nil. Qed.

(** A payment that the transfer covers, paid or not. *)
Definition covered (tx : ERC20Tx) (addr : PaymentAddressInfo) (id : string) (p : Payment) : Prop :=
  pay_UniqueID p = id ∧ addressOn ethereumBlockchain p = Some addr ∧ compareDecimals (erc_Amount tx) (pay_Amount p) = Some true.

Lemma covered_paid ch now txHash block tx addr id p v :
  v_payments v !! id = Some p → covered tx addr id p → id ≠ "" → v_quotes v = [] →
  ch_block ch = Some block → ch_transfers ch (pa_ProviderAddr addr) (u64 (block - 45000)) = Some [tx] →
  EqualFold (erc_TxHash tx) txHash = true → EqualFold (erc_From tx) (pa_RequesterAddr addr) = true →
  handlePaymentValidation all_answer ch now (mkValidation id txHash ethereumBlockchain "") v =
    Ok ([Ok tt], set_v_payments v (<[id := set_pay_paid p true]> (v_payments v))).
Proof.
  intros Hp (Hid & Ha & Hc) Hne Hq Hb Ht Hh Hf. unfold handlePaymentValidation, GetByUniqueID. cbn. rewrite Hp, Hq, expectedAmount_unquoted.
  rewrite bool_decide_true, Ha by done. unfold verifyEthereum. rewrite Hb, Ht. cbn [List.find]. rewrite Hh, Hf, Hc. cbn. unfold settle, payment_Update. cbn.
  rewrite Hid, bool_decide_false by done. by rewrite Hp.
Qed.

(** Every payment named is stored and covered by the transfer. *)
Definition all_covered (tx : ERC20Tx) (addr : PaymentAddressInfo) (ids : list string) (s : PaymentStore) : Prop :=
  ∀ id, id ∈ ids → id ≠ "" ∧ ∃ p, s !! id = Some p ∧ covered tx addr id p.

Lemma all_covered_insert tx addr ids s i p :
  all_covered tx addr ids s → covered tx addr i p → all_covered tx addr ids (<[i := set_pay_paid p true]> s).
Proof.
  intros Hall Hc id Hid. destruct (Hall id Hid) as (Hne & q & Hq & Hcq). split; [done|].
  destruct (decide (i = id)) as [<-|Hni].
  - exists (set_pay_paid p true). split; [apply (lookup_insert_eq (M := gmap string))|done].
  - exists q. split; [|done]. etrans; [by apply (lookup_insert_ne (M := gmap string))|done].
Qed.

Lemma payAll_pays ch now txHash block tx addr ids v id p :
  all_covered tx addr ids (v_payments v) → v_quotes v = [] →
  ch_block ch = Some block → ch_transfers ch (pa_ProviderAddr addr) (u64 (block - 45000)) = Some [tx] →
  EqualFold (erc_TxHash tx) txHash = true → EqualFold (erc_From tx) (pa_RequesterAddr addr) = true →
  v_payments v !! id = Some p → pay_Paid p = true ∨ id ∈ ids →
  ∃ p, v_payments (payAll ch now txHash ids v) !! id = Some p ∧ pay_Paid p = true.
Proof.
  intros Hids Hq Hb Ht Hh Hf. revert v p Hids Hq. induction ids as [|i ids IH]; intros v p Hids Hq Hp Hor; cbn.
  { destruct Hor as [Hpaid|[]%not_elem_of_nil]. eauto. }
  destruct (Hids i) as (Hne & pi & Hpi & Hci); [left|].
  rewrite (covered_paid ch now txHash block tx addr i pi v) by done. cbn.
  assert (all_covered tx addr ids (<[i := set_pay_paid pi true]> (v_payments v))) as Hids'.
  { apply all_covered_insert; [|done]. intros j Hj. apply Hids. by right. }
  destruct (decide (i = id)) as [<-|Hni].
  - eapply IH; [exact Hids'|done|apply (lookup_insert_eq (M := gmap string))|by left].
  - apply (IH _ p); [exact Hids'|done| |destruct Hor as [?|[?|?]%elem_of_cons]; [by left|by subst|by right]]. etrans; [by apply (lookup_insert_ne (M := gmap string))|done].
Qed.

(** One transfer pays any number of payments: the validator does not remember which
    transactions it has accepted, so the same hash settles every payment between the same
    two addresses whose amount the transfer reaches. *)
Theorem one_transfer_pays_all ch now txHash block tx addr ids v :
  all_covered tx addr ids (v_payments v) → v_quotes v = [] →
  ch_block ch = Some block → ch_transfers ch (pa_ProviderAddr addr) (u64 (block - 45000)) = Some [tx] →
  EqualFold (erc_TxHash tx) txHash = true → EqualFold (erc_From tx) (pa_RequesterAddr addr) = true →
  ∀ id, id ∈ ids → ∃ p, v_payments (payAll ch now txHash ids v) !! id = Some p ∧ pay_Paid p = true.
Proof.
  intros Hids Hq Hb Ht Hh Hf id Hid. destruct (Hids id Hid) as (_ & p & Hp & _).
  eapply payAll_pays; eauto.
Qed.

(** On Cardano a transfer between any two addresses pays, in the smallest unit of the
    asset: the wrong addresses are reported, and the payment is settled all the same. *)
Theorem cardano_any_transfer_pays ch now txHash id p addr v ts t :
  v_payments v !! id = Some p → pay_UniqueID p = id → id ≠ "" → v_quotes v = [] →
  addressOn cardanoBlockchain p = Some addr →
  ComputeTransfersForAsset (ch_asset ch) (ch_cardano ch txHash) = Ok ts → In t ts →
  cardanoPays (ch_asset ch) (pay_Amount p) t = true →
  handlePaymentValidation all_answer ch now (mkValidation id txHash cardanoBlockchain "") v =
    Ok (map Err (concat (map (cardanoReplies addr) ts)) ++ [Ok tt],
        set_v_payments v (<[id := set_pay_paid p true]> (v_payments v))).
Proof.
  intros Hp Hid Hne Hq Ha Hts Hin Hpays. unfold handlePaymentValidation, GetByUniqueID. cbn. rewrite Hp, Hq, expectedAmount_unquoted.
  rewrite bool_decide_false, bool_decide_true, Ha by done. unfold verifyCardano. rewrite Hts. cbn. rewrite (proj2 (existsb_exists _ _)) by eauto. cbn.
  unfold settle, payment_Update. cbn. rewrite Hid, bool_decide_false by done. by rewrite Hp.
Qed.
End gaps.

(** ** Witnesses *)

#[local] Existing Instance toy_keys.

Definition sample_address : PaymentAddressInfo := mkPaymentAddressInfo "ETHEREUM" "NTX" "0xPayer" "0xPayee".

Definition paying_contract : ContractDoc :=
  NewContract "did:key:c" (mkCreateContract ∅ (mkDID "did:key:host") (mkDID "did:key:validator") Resources_zero None []
    (mkPaymentDetails "blockchain" PayPerDeployment "5" "2" "0.5" "hour" "1" "1" "1" "" "hour" "20.00" "minute" 1
       [sample_address] "" None) ""
    (mkParticipants (mkDID "did:key:p") (mkDID "did:key:r"))
    (mkDurationDetails (time_Unix 1700000000) (time_Unix 1800000000)) false).

(** The payee has received 10.5 of the token in one transfer. *)
Definition sample_chains : Chains :=
  mkChains (Some 100000%Z) (λ to _, Some [mkERC20 "0xpayer" to "10.5" "0xab"]) (λ _, None) "ntx".

(** An invoice for two deployments. *)
Definition invoiced (id : string) (v : Validator) : Validator :=
  set_v_payments v (handleIncomingContractUsage (λ _, None) (λ _, ∅) (λ _, true) (λ _, true) (λ _, id)
    (mkUsageStore [] ∅) (mkUsageRequest id paying_contract 2 None) (v_payments v)).1.2.

Definition new_validator : Validator := mkValidator ∅ [] (mkPriceCache ∅ Minute).

Definition paid_up : Validator :=
  after (handlePaymentValidation all_answer sample_chains (time_Unix 1700000500) (mkValidation "pay-1" "0xAB" "ETHEREUM" "")
    (invoiced "pay-1" new_validator)) new_validator.

Lemma paid_was_verified_witness :
  ∃ p ch req amount, v_payments paid_up !! "pay-1" = Some p ∧ ch = sample_chains ∧ vr_UniqueID req = "pay-1" ∧ pays ch req p amount.
Proof.
  assert (validator_reachable (eq sample_chains) (λ _, None) (λ _, ∅) Minute paid_up) as Hr.
  { eapply vr_next; [eapply vr_next; [apply vr_new|]|].
    - apply (vs_invoice _ _ _ _ (λ _, true) (λ _, true) (λ _, "pay-1") (mkUsageStore [] ∅)
               (mkUsageRequest "pay-1" paying_contract 2 None)).
    - eapply (vs_validate _ _ _ _ all_answer sample_chains (time_Unix 1700000500) (mkValidation "pay-1" "0xAB" "ETHEREUM" ""));
        [done|vm_compute; reflexivity]. }
  destruct (paid_was_verified _ _ _ _ _ "pay-1" _ Hr ltac:(vm_compute; reflexivity) ltac:(vm_compute; reflexivity))
    as (_ & v1 & an & ch & now & req & replies & v2 & amount & _ & Hch & _ & _ & Hid & _ & _ & _ & He).
  eexists _, ch, req, amount. split; [vm_compute; reflexivity|]. split; [symmetry; exact Hch|]. split; [exact Hid|exact He].
Defined.

(** Two invoices of 10 and one transfer of 10.5. *)
Definition two_invoices : Validator := invoiced "pay-2" (invoiced "pay-1" new_validator).

Lemma one_transfer_pays_all_witness :
  ∃ p, v_payments (payAll sample_chains (time_Unix 1700000500) "0xAB" ["pay-1"; "pay-2"] two_invoices) !! "pay-2" = Some p ∧
       pay_Paid p = true.
Proof.
  apply (one_transfer_pays_all sample_chains (time_Unix 1700000500) "0xAB" 100000 (mkERC20 "0xpayer" "0xPayee" "10.5" "0xab")
           sample_address ["pay-1"; "pay-2"] two_invoices);
    [|reflexivity|reflexivity|reflexivity|reflexivity|reflexivity|set_solver].
  intros id [->|[->|[]%not_elem_of_nil]%elem_of_cons]%elem_of_cons; (split; [done|]); eexists;
    (split; [vm_compute; reflexivity|]); (split; [|split]); vm_compute; reflexivity.
Defined.

(** A used quote of another payment sets the price. *)
Example used_quote_of_another :
  let q := mkQuote "q" "pay-7" "1" "0.5" "USDT" "NTX" "2" (time_Unix 0) (time_Unix 60) true (time_Unix 30) in
  let v := set_v_quotes (invoiced "pay-1" new_validator) (CreateQuote true (time_Unix 0) q []).2 in
  expectedAmount all_answer (mkValidation "pay-1" "0xAB" "ETHEREUM" "q")
    (mkPayment "pay-1" paying_contract 2 "10.00000000" false [] "" "" false) (v_quotes v) = Ok ("0.5", Some q).
Proof. vm_compute. reflexivity. Qed.
