(* ===== verification/TransactionList.v ===== *)
(** * The list of the payer's transactions

    [handleListLocalTransactions] of dms/node/behaviors_contract.go: the transactions that
    match the filters of a request, sorted, one page at a time.  Following the offsets that
    the replies give enumerates the list; the sum of offset and limit can overflow. *)

From Stdlib Require Import Ascii Sorted OrdersEx OrdersFacts.
From S2P Require Import Prelude GoStrings ResourceManager GoTime Contract GoText Payments.

Record ListRequest := mkListRequest {
  lr_Metadata : gmap string string;
  lr_Status : list string;
  lr_ContractDID : string;
  lr_PaymentValidatorDID : string;
  lr_UniqueID : string;
  lr_TxHash : string;
  lr_Blockchain : string;
  lr_FromAddress : string;
  lr_ToAddress : string;
  lr_Limit : Z;
  lr_Offset : Z;
  lr_SortBy : string
}.

Definition set_lr_Offset r offset := mkListRequest (lr_Metadata r) (lr_Status r) (lr_ContractDID r)
  (lr_PaymentValidatorDID r) (lr_UniqueID r) (lr_TxHash r) (lr_Blockchain r) (lr_FromAddress r) (lr_ToAddress r)
  (lr_Limit r) offset (lr_SortBy r).

Record ListResponse := mkListResponse {
  ls_Transactions : list Transaction;
  ls_Total : Z;
  ls_HasMore : bool;
  ls_NextOffset : Z
}.

(** Whether a filter that is given matches. *)
Definition given (filter value : string) : bool := bool_decide (filter = "") || EqualFold value filter.

Definition trimmedMatch (filter value : string) : bool := EqualFold (TrimSpace value) filter.

(** The flags are carried over the addresses: three addresses may match one filter each. *)
Fixpoint matchAddresses (blockchain from to : string) (b f t : bool) (l : list PaymentAddressInfo) : bool :=
  match l with
  | [] => b && f && t
  | a :: l =>
      let b := b || trimmedMatch blockchain (pa_Blockchain a) in
      let f := f || trimmedMatch from (pa_RequesterAddr a) in
      let t := t || trimmedMatch to (pa_ProviderAddr a) in
      if b && f && t then true else matchAddresses blockchain from to b f t l
  end.

Definition matchesTransactionAddressFilters (tx : Transaction) (req : ListRequest) : bool :=
  if bool_decide (lr_Blockchain req = "") && bool_decide (lr_FromAddress req = "") && bool_decide (lr_ToAddress req = "")
  then true
  else
    let blockchain := TrimSpace (lr_Blockchain req) in
    let from := TrimSpace (lr_FromAddress req) in
    let to := TrimSpace (lr_ToAddress req) in
    matchAddresses blockchain from to (bool_decide (blockchain = "")) (bool_decide (from = "")) (bool_decide (to = ""))
      (tx_ToAddress tx).

Definition shouldIncludeTransaction (tx : Transaction) (req : ListRequest) : bool :=
  given (lr_ContractDID req) (tx_ContractDID tx) &&
  given (lr_PaymentValidatorDID req) (tx_PaymentValidatorDID tx) &&
  given (lr_UniqueID req) (tx_UniqueID tx) &&
  given (lr_TxHash req) (tx_TxHash tx) &&
  matchesTransactionAddressFilters tx req &&
  (bool_decide (lr_Status req = []) || existsb (λ status, EqualFold (TrimSpace status) (tx_Status tx)) (lr_Status req)) &&
  forallb (λ kv, bool_decide (tx_Metadata tx !! kv.1 = Some kv.2)) (map_to_list (lr_Metadata req)).

Definition filterLocalTransactions (txs : list Transaction) (req : ListRequest) : list Transaction :=
  List.filter (λ tx, shouldIncludeTransaction tx req) txs.

Definition txSortLess (left right : Transaction) (field : string) : bool :=
  if bool_decide (field = "status") then String.ltb (string_lower (tx_Status left)) (string_lower (tx_Status right))
  else (tx_CreatedAt left <? tx_CreatedAt right)%Z.

(** A stable sort ([sort.SliceStable]): an entry goes before those that are not less. *)
Section stable.
  Context {A : Type} (less : A → A → bool).

Fixpoint insertStable (x : A) (l : list A) : list A :=
  match l with
  | [] => [x]
  | y :: l => if less y x then y :: insertStable x l else x :: y :: l
  end.

Fixpoint SliceStable (l : list A) : list A :=
  match l with [] => [] | x :: l => insertStable x (SliceStable l) end.
End stable.

(** The sign is looked for before the spaces are dropped. *)
Definition sortBefore (sortBy : string) (a b : Transaction) : bool :=
  let desc := HasPrefix sortBy "-" in
  let field := TrimPrefix (TrimSpace sortBy) "-" in
  let field := if bool_decide (field = "") then "created_at" else field in
  if desc then txSortLess b a field else txSortLess a b field.

Definition sortLocalTransactions (sortBy : string) (txs : list Transaction) : list Transaction :=
  SliceStable (sortBefore sortBy) txs.

(** The slice from the offset to the end panics when the end, a sum that may overflow, is
    before it. *)
Definition paginateLocalTransactions {A} (txs : list A) (offset limit : Z) : outcome () (list A) :=
  let offset := Z.max offset 0 in
  let len := Z.of_nat (length txs) in
  if (len <=? offset)%Z then Ok []
  else if (limit <=? 0)%Z then Ok (drop (Z.to_nat offset) txs)
  else
    let e := Z.min (s64 (offset + limit)) len in
    if (e <? offset)%Z then Panic
    else Ok (take (Z.to_nat (e - offset)) (drop (Z.to_nat offset) txs)).

Section list.
  Context `{Visit : MapVisit}.

Definition AllTransactions (s : TransactionStore) : list Transaction := visit (map snd (map_to_list s)).

(** What a request lists, before it is cut into pages. *)
Definition listed (req : ListRequest) (s : TransactionStore) : list Transaction :=
  sortLocalTransactions (lr_SortBy req) (filterLocalTransactions (AllTransactions s) req).

Definition handleListLocalTransactions (r : bool) (req : ListRequest) (s : TransactionStore)
    : outcome pay_error ListResponse :=
  if negb r then Err ErrPayDatabase
  else
    let txs := listed req s in
    let total := Z.of_nat (length txs) in
    match paginateLocalTransactions txs (lr_Offset req) (lr_Limit req) with
    | Ok page =>
        let next := s64 (lr_Offset req + Z.of_nat (length page)) in
        let more := (0 <? lr_Limit req)%Z && (next <? total)%Z in
        Ok (mkListResponse page total more (if more then next else 0%Z))
    | _ => Panic
    end.

(** A client that follows the offsets. *)
Fixpoint followPages (fuel : nat) (req : ListRequest) (s : TransactionStore) : outcome pay_error (list Transaction) :=
  match fuel with
  | O => Ok []
  | S fuel =>
      (let? resp := handleListLocalTransactions true req s in
       if ls_HasMore resp then
         let? rest := followPages fuel (set_lr_Offset req (ls_NextOffset resp)) s in Ok (ls_Transactions resp ++ rest)
       else Ok (ls_Transactions resp))%go
  end.
End list.

(** ** The sort *)

Section stable_facts.
  Context {A : Type} (less : A → A → bool).

Lemma insertStable_perm x l : insertStable less x l ≡ₚ x :: l.
Proof. induction l as [|y l IH]; cbn; [done|]. destruct (less y x); [|done]. rewrite IH. apply perm_swap. Qed.

Lemma SliceStable_perm l : SliceStable less l ≡ₚ l.
Proof. induction l as [|x l IH]; cbn; [done|]. by rewrite insertStable_perm, IH. Qed.

(** Entries that are not less than one another keep their order. *)
Lemma SliceStable_stable (P : A → bool) l :
  (∀ x y, P x = true → P y = true → less x y = false) → List.filter P (SliceStable less l) = List.filter P l.
Proof.
  intros HP. induction l as [|x l IH]; cbn; [done|].
  assert (∀ l, List.filter P (insertStable less x l) = List.filter P (x :: l)) as Hins.
  { clear l IH. induction l as [|y l IH]; cbn; [done|]. destruct (less y x) eqn:Hl; [|done]. cbn in *. rewrite IH.
    destruct (P x) eqn:Hx, (P y) eqn:Hy; try done. by rewrite (HP y x) in Hl. }
  rewrite Hins. cbn. by rewrite IH.
Qed.

  Context (less_asym : ∀ x y, less x y = true → less y x = false).
  Context (less_trans : ∀ x y z, less y x = false → less z y = false → less z x = false).

Lemma SliceStable_sorted l : StronglySorted (λ a b, less b a = false) (SliceStable less l).
Proof.
  induction l as [|x l IH]; cbn; [constructor|]. clear -IH less_asym less_trans.
  induction IH as [|y l' Hl IH Hy]; cbn; [repeat constructor|].
  destruct (less y x) eqn:Hxy.
  - constructor; [done|]. rewrite insertStable_perm. constructor; [by apply less_asym|done].
  - constructor; [by constructor|]. constructor; [done|]. eapply Forall_impl; [exact Hy|]. intros z Hz. by eapply less_trans.
Qed.
End stable_facts.

Lemma string_ltb_lt a b : String.ltb a b = true ↔ String_as_OT.lt a b.
Proof.
  unfold String.ltb, String_as_OT.lt. change (String_as_OT.compare a b) with (String.compare a b).
  destruct (String.compare a b); split; congruence.
Qed.

Lemma string_ltb_asym a b : String.ltb a b = true → String.ltb b a = false.
Proof.
  rewrite string_ltb_lt. intros Hab. apply not_true_is_false. rewrite string_ltb_lt. intros Hba.
  eapply (irreflexivity String_as_OT.lt a). by etrans.
Qed.

Lemma string_ltb_trans a b c : String.ltb b a = false → String.ltb c b = false → String.ltb c a = false.
Proof.
  rewrite <- !not_true_iff_false, !string_ltb_lt. intros Hba Hcb Hca.
  destruct (String_as_OT.compare_spec a b) as [Hab|Hab|Hab]; [unfold String_as_OT.eq in Hab; by subst| |done].
  apply Hcb. by etrans.
Qed.

Lemma txSortLess_asym a b field : txSortLess a b field = true → txSortLess b a field = false.
Proof. unfold txSortLess. case_bool_decide; [apply string_ltb_asym|]. rewrite Z.ltb_lt, Z.ltb_ge. lia. Qed.

Lemma txSortLess_trans a b c field :
  txSortLess b a field = false → txSortLess c b field = false → txSortLess c a field = false.
Proof. unfold txSortLess. case_bool_decide; [apply string_ltb_trans|]. rewrite !Z.ltb_ge. lia. Qed.

Lemma sortLocalTransactions_sorted sortBy txs :
  StronglySorted (λ a b, sortBefore sortBy b a = false) (sortLocalTransactions sortBy txs).
Proof.
  apply SliceStable_sorted; unfold sortBefore; intros x y; destruct (HasPrefix sortBy "-");
    eauto using txSortLess_asym, txSortLess_trans.
Qed.

(** ** The pages *)

Lemma paginate_spec {A} (txs : list A) offset limit :
  (0 ≤ offset)%Z → (0 < limit)%Z → (Z.of_nat (length txs) + limit < 2 ^ 63)%Z →
  paginateLocalTransactions txs offset limit = Ok (take (Z.to_nat limit) (drop (Z.to_nat offset) txs)).
Proof.
  intros Ho Hl Hb. unfold paginateLocalTransactions. rewrite Z.max_l by lia.
  destruct (Z.leb_spec (Z.of_nat (length txs)) offset); [rewrite drop_ge by lia; by rewrite take_nil|].
  rewrite (proj2 (Z.leb_gt limit 0)) by lia. rewrite s64_small by (unfold is_s64; lia).
  rewrite (proj2 (Z.ltb_ge _ _)) by lia. f_equal.
  destruct (Z.min_spec (offset + limit) (Z.of_nat (length txs))) as [[? ->]|[? ->]].
  - f_equal. lia.
  - rewrite !take_ge; [done|rewrite length_drop; lia..].
Qed.

(** The page that a sum which overflows gives. *)
Lemma paginate_overflow {A} (txs : list A) offset limit :
  (0 ≤ offset < Z.of_nat (length txs))%Z → (offset < 2 ^ 63)%Z → (limit < 2 ^ 63)%Z → (2 ^ 63 ≤ offset + limit)%Z →
  paginateLocalTransactions txs offset limit = Panic.
Proof.
  intros Ho Ho' Hl Hb. unfold paginateLocalTransactions. rewrite Z.max_l, (proj2 (Z.leb_gt _ _)) by lia.
  rewrite (proj2 (Z.leb_gt limit 0)) by lia.
  assert (s64 (offset + limit) = offset + limit - 2 ^ 64)%Z as ->.
  { unfold s64. replace (offset + limit + 2 ^ 63)%Z with (offset + limit - 2 ^ 63 + 1 * 2 ^ 64)%Z by lia.
    rewrite Z.mod_add, Z.mod_small by lia. lia. }
  rewrite (proj2 (Z.ltb_lt _ _)) by lia. done.
Qed.

Section pages.
  Context `{Visit : MapVisit}.

Lemma listed_offset req s offset : listed (set_lr_Offset req offset) s = listed req s.
Proof. done. Qed.

(** From any offset the pages give the rest of the list. *)
Lemma followPages_rest req s fuel :
  (0 < lr_Limit req)%Z → (Z.of_nat (length (listed req s)) + lr_Limit req < 2 ^ 63)%Z →
  (0 ≤ lr_Offset req < 2 ^ 63)%Z → length (drop (Z.to_nat (lr_Offset req)) (listed req s)) < fuel →
  followPages fuel req s = Ok (drop (Z.to_nat (lr_Offset req)) (listed req s)).
Proof.
  revert req. induction fuel as [|fuel IH]; intros req Hl Hb Ho Hf; [lia|].
  cbn [followPages]. unfold handleListLocalTransactions. cbn [negb].
  rewrite paginate_spec by lia. rewrite (proj2 (Z.ltb_lt 0 (lr_Limit req))) by done. cbn [andb].
  set (rest := drop (Z.to_nat (lr_Offset req)) (listed req s)) in *.
  assert (Z.of_nat (length rest) = Z.max 0 (Z.of_nat (length (listed req s)) - lr_Offset req)) as Hr.
  { unfold rest. rewrite length_drop. lia. }
  assert (Z.of_nat (length (take (Z.to_nat (lr_Limit req)) rest)) = Z.min (lr_Limit req) (Z.of_nat (length rest))) as Ht.
  { rewrite length_take. lia. }
  rewrite Ht. destruct (Z.le_gt_cases (Z.of_nat (length (listed req s))) (lr_Offset req)) as [Hge|Hlt].
  { rewrite Hr, Z.max_l, Z.min_r, Z.add_0_r, s64_small by (unfold is_s64; lia).
    rewrite (proj2 (Z.ltb_ge _ _)) by done. cbn. by rewrite take_ge by lia. }
  rewrite s64_small by (unfold is_s64; lia). destruct (Z.ltb_spec (lr_Offset req + Z.min (lr_Limit req) (Z.of_nat (length rest)))
    (Z.of_nat (length (listed req s)))) as [Hm|Hm]; cbn; [|by rewrite take_ge by lia].
  rewrite IH; rewrite ?listed_offset; cbn [lr_Offset lr_Limit set_lr_Offset]; [| |lia|lia|].
  - f_equal. etrans; [|apply (take_drop (Z.to_nat (lr_Limit req)) rest)]. f_equal. unfold rest at 2.
    rewrite drop_drop. f_equal. lia.
  - done.
  - rewrite length_drop. unfold rest in *. rewrite length_drop in *. lia.
Qed.

(** A client that follows the offsets of the replies from the start gets, after
    finitely many requests, exactly what its request lists: every stored transaction that
    matches the filters, once, in the order asked for, and those that are equal in it in
    the order of the store; provided the number of transactions and the limit do not
    overflow together. *)
Theorem pages_enumerate req s fuel :
  (0 < lr_Limit req)%Z → (Z.of_nat (length (listed req s)) + lr_Limit req < 2 ^ 63)%Z → lr_Offset req = 0%Z →
  length (listed req s) < fuel →
  ∃ l, followPages fuel req s = Ok l ∧
    l ≡ₚ List.filter (λ tx, shouldIncludeTransaction tx req) (map snd (map_to_list s)) ∧
    StronglySorted (λ a b, sortBefore (lr_SortBy req) b a = false) l ∧
    ∀ P, (∀ x y, P x = true → P y = true → sortBefore (lr_SortBy req) x y = false) →
      List.filter P l = List.filter P (filterLocalTransactions (AllTransactions s) req).
Proof.
  intros Hl Hb Ho Hf. exists (listed req s). split_and!.
  - rewrite followPages_rest; rewrite ?Ho, ?drop_0; try done; lia.
  - unfold listed, sortLocalTransactions. rewrite SliceStable_perm. unfold filterLocalTransactions, AllTransactions.
    apply filter_perm, visit_perm.
  - apply sortLocalTransactions_sorted.
  - intros P HP. by apply SliceStable_stable.
Qed.

(** An offset and a limit whose sum overflows stop the process. *)
Theorem list_overflow_panics req s :
  (0 ≤ lr_Offset req < Z.of_nat (length (listed req s)))%Z → is_s64 (lr_Offset req) → is_s64 (lr_Limit req) →
  (2 ^ 63 ≤ lr_Offset req + lr_Limit req)%Z → handleListLocalTransactions true req s = Panic.
Proof.
  unfold is_s64. intros Ho Ho' Hl Hs. unfold handleListLocalTransactions. cbn [negb]. rewrite paginate_overflow by lia. done.
Qed.
End pages.

(** ** Witnesses *)

#[local] Instance stored_order : MapVisit := { visit A l := l; visit_perm A l := Permutation_refl l }.

Definition tx_at (id status : string) (t : Z) : Transaction :=
  mkTransaction id "did:key:v" "did:key:c" [] "1" status "" ∅ "" "" false t.

Definition three : TransactionStore :=
  {["a" := tx_at "a" "paid" 30; "b" := tx_at "b" "unpaid" 10; "c" := tx_at "c" "Paid" 20]}.

Definition all_of (sortBy : string) (offset limit : Z) : ListRequest :=
  mkListRequest ∅ [] "" "" "" "" "" "" "" limit offset sortBy.

Lemma pages_enumerate_witness : ∃ l, followPages 4 (all_of "created_at" 0 2) three = Ok l ∧ map tx_UniqueID l = ["b"; "c"; "a"].
Proof.
  destruct (pages_enumerate (all_of "created_at" 0 2) three 4) as (l & Hl & _);
    [reflexivity|vm_compute; reflexivity|reflexivity|vm_compute; lia|].
  exists l. split; [exact Hl|]. vm_compute in Hl. injection Hl as <-. reflexivity.
Defined.

(** A space before the sign: the order is ascending. *)
Example space_before_the_sign :
  map tx_UniqueID (listed (all_of "-created_at" 0 0) three) = ["a"; "c"; "b"] ∧
  map tx_UniqueID (listed (all_of " -created_at" 0 0) three) = ["b"; "c"; "a"].
Proof. vm_compute. done. Qed.

(** A negative offset gives the first page again. *)
Example negative_offset_repeats :
  (let? l := followPages 5 (all_of "created_at" (-1) 2) three in Ok (map tx_UniqueID l))%go = Ok ["b"; "c"; "c"; "a"].
Proof. vm_compute. done. Qed.

Example limit_of_the_last_page : handleListLocalTransactions true (all_of "" 1 (2 ^ 63 - 1)) three = Panic.
Proof. vm_compute. done. Qed.
