(* ===== verification/NodeContracts.v ===== *)
(** * Contracts between nodes

    How the nodes of dms/node/behaviors_contract.go and node.go agree on a contract: its
    creation on the host or through it, the proposal to both parties, their approval, the
    lists of contracts, the verification of a chain of two contracts, and the billing that
    an operator or the schedule asks for.

    Messages to other nodes are functions that give their reply, [None] when there is none
    or it cannot be read. *)

From S2P Require Import Prelude Key Envelope Hardware ResourceManager Allocation GoTime GoStrings Contract UsageStore Billing ContractHost.

Inductive node_error :=
| ErrInvalidRequest (e : contract_error)
| ErrKeyPair | ErrPaymentModel | ErrPaymentDetails | ErrActor | ErrSaveContract | ErrUsageMetadata | ErrSaveKey
| ErrHostHandle | ErrNoReply | ErrHost | ErrSignature | ErrNotSigned | ErrNoContract | ErrNoHosts
| ErrProviderDID | ErrCaller | ErrOrchestratorDID | ErrParticipants | ErrNotInForce | ErrNoProviderContract.

#[export] Instance node_error_eq_dec : EqDecision node_error.
Proof. solve_decision. Defined.

(** What a node keeps of contracts: the store, the usage records, the private keys, the
    actors that run, and the billing schedule. *)
Record ContractNode := mkContractNode {
  cn_contracts : ContractStore;
  cn_usage : UsageStore;
  cn_keys : gmap string string;
  cn_actors : gset string;
  cn_schedule : Scheduler
}.

Definition set_cn_contracts n v := mkContractNode v (cn_usage n) (cn_keys n) (cn_actors n) (cn_schedule n).
Definition set_cn_usage n v := mkContractNode (cn_contracts n) v (cn_keys n) (cn_actors n) (cn_schedule n).
Definition set_cn_keys n v := mkContractNode (cn_contracts n) (cn_usage n) v (cn_actors n) (cn_schedule n).
Definition set_cn_actors n v := mkContractNode (cn_contracts n) (cn_usage n) (cn_keys n) v (cn_schedule n).
Definition set_cn_schedule n v := mkContractNode (cn_contracts n) (cn_usage n) (cn_keys n) (cn_actors n) v.

Record CreateContractResponse := mkCreateResponse {
  crs_Error : string;
  crs_Request : CreateContractRequest;
  crs_ContractDID : string;
  crs_PubKey : string
}.

(** What the outside answers while a contract is created: the keys of the contract (its
    DID, the public and the private key as bytes, each when it can be encoded), the start of
    its actor, and the writes of the database. *)
Record Creation := mkCreation {
  cre_keys : option (string * option string * option string);
  cre_actor : bool;
  cre_start : bool;
  cre_save : bool;
  cre_meta : bool;
  cre_savekey : bool;
  cre_world : World
}.

Definition ContractChainRoleMetadataKey : string := "contract_chain_role".
Definition ContractChainRoleHead : string := "head".
Definition ContractChainRoleTail : string := "tail".

Definition isHeadContractFromRequest (req : CreateContractRequest) : bool :=
  bool_decide (default "" (ccr_Metadata req !! ContractChainRoleMetadataKey) = ContractChainRoleHead).

Definition set_c_metadata c v :=
  mkContract (c_ContractDID c) (c_SolutionEnablerDID c) (c_PaymentValidatorDID c) (c_ResourceConfiguration c)
    (c_TerminationOption c) (c_Penalties c) (c_Duration c) (c_Participants c) (c_PaymentDetails c) (c_Paid c)
    (c_Signatures c) (c_CurrentState c) (c_ContractTerms c) (c_Transitions c) (c_DisableBilling c) v.

Section nodes.
  Context `{Visit : MapVisit} `{Codec : EventCodec} `{Local : Zone} `{Keys : KeyLib}.
  Context (peerID : PubKey → option string).

(** ** Creation *)

(** [createContractOnHost]: what was saved before a failure stays. *)
Definition createContractOnHost (cr : Creation) (req : CreateContractRequest) (n : ContractNode)
    : outcome node_error CreateContractResponse * ContractNode :=
  match cre_keys cr with
  | None => (Err ErrKeyPair, n)
  | Some (contractDID, pk, sk) =>
      match GetPaymentModelProcessor (w_query (cre_world cr)) (cn_usage n) (w_uuid (cre_world cr))
              (pd_PaymentModel (ccr_PaymentDetails req)) with
      | Ok p =>
          if negb (Validate_details p (ccr_PaymentDetails req)) then (Err ErrPaymentDetails, n)
          else if negb (cre_actor cr) then (Err ErrActor, n)
          else
            let c := NewContract contractDID req in
            let c := if isHeadContractFromRequest req
                     then set_c_metadata c (<[ContractChainRoleMetadataKey := ContractChainRoleHead]> (c_Metadata c)) else c in
            if negb (cre_save cr) then (Err ErrSaveContract, n)
            else
              let n := set_cn_contracts n (Upsert (cn_contracts n) c) in
              match InitializeContractMetadata (cre_meta cr) contractDID (cn_usage n) with
              | (Ok _, us) =>
                  let n := set_cn_usage n us in
                  match pk, sk with
                  | Some pk, Some sk =>
                      if negb (cre_savekey cr) then (Err ErrSaveKey, n)
                      else
                        let n := set_cn_keys n (<[contractDID := sk]> (cn_keys n)) in
                        if negb (cre_start cr) then (Err ErrActor, n)
                        else
                          match RegisterContract (cre_world cr) contractDID (mkHost (cn_contracts n) (cn_usage n) [])
                                  (cn_schedule n) with
                          | (Panic, sch) => (Panic, set_cn_schedule n sch)
                          | (_, sch) =>
                              (Ok (mkCreateResponse "" req contractDID pk),
                               set_cn_actors (set_cn_schedule n sch) ({[contractDID]} ∪ cn_actors n))
                          end
                  | _, _ => (Err ErrKeyPair, n)
                  end
              | (_, us) => (Err ErrUsageMetadata, set_cn_usage n us)
              end
      | Panic => (Panic, n)
      | Err _ => (Err ErrPaymentModel, n)
      end
  end.

(** [invoke] is the reply of the host; the local copy is a draft of what the host says. *)
Definition forwardContractCreateToHost (invoke : Handle → CreateContractRequest → option CreateContractResponse) (w : bool)
    (req : CreateContractRequest) (n : ContractNode) : outcome node_error CreateContractResponse * ContractNode :=
  if DID_Empty (ccr_SolutionEnablerDID req) then (Err ErrHostHandle, n)
  else match HandleFromDID peerID (DID_String (ccr_SolutionEnablerDID req)) with
  | inr _ => (Err ErrHostHandle, n)
  | inl h =>
      match invoke h req with
      | None => (Err ErrNoReply, n)
      | Some resp =>
          if negb (bool_decide (crs_Error resp = "")) then (Err ErrHost, n)
          else if w then
            (Ok resp, set_cn_contracts n (Upsert (cn_contracts n) (NewContract (crs_ContractDID resp) (crs_Request resp))))
          else (Err ErrSaveContract, n)
      end
  end.

Definition handleNewContract (self : DID) (cr : Creation)
    (invoke : Handle → CreateContractRequest → option CreateContractResponse) (w : bool) (req : CreateContractRequest)
    (n : ContractNode) : outcome node_error CreateContractResponse * ContractNode :=
  match CreateContractRequest_Validate req with
  | Some e => (Err (ErrInvalidRequest e), n)
  | None =>
      if negb (DID_Equal (ccr_SolutionEnablerDID req) self) then forwardContractCreateToHost invoke w req n
      else createContractOnHost cr req n
  end.

(** ** Proposal and approval *)

Record ProposeRequest := mkPropose { ppr_Contract : ContractDoc; ppr_Creator : Handle }.

(** [propose]: the signature in the reply, none when the reply is an error.  Both parties
    are asked, one after the other; the signatures are not verified. *)
Definition proposeContract (r : bool) (propose : Handle → ProposeRequest → option ContractSignature) (contractDID : string)
    (creator : Handle) (s : ContractStore) : outcome node_error (list ContractSignature) :=
  match GetContract r s contractDID with
  | Ok c =>
      match HandleFromDID peerID (URI (Provider_DID (c_Participants c))),
            HandleFromDID peerID (URI (Requestor_DID (c_Participants c))) with
      | inl provider, inl requester =>
          let ask h := match propose h (mkPropose c creator) with Some sig => [sig] | None => [] end in
          Ok (ask provider ++ ask requester)
      | _, _ => Err ErrHostHandle
      end
  | _ => Err ErrNoContract
  end.

(** The goroutine of the host after the creation: the signatures of the contract are those
    of the replies, and two of them accept it.  [r'] is the second read. *)
Definition proposeAndRecord (r r' w : bool) (propose : Handle → ProposeRequest → option ContractSignature) (now : Time)
    (self : DID) (contractDID : string) (creator : Handle) (before after : ContractStore) : ContractStore :=
  match proposeContract r propose contractDID creator before with
  | Ok sigs =>
      match GetContract r' after contractDID with
      | Ok c =>
          let c := set_c_signatures c sigs in
          let c := if (length sigs =? 2)%nat
                   then set_c_state c ContractAccepted
                          [mkTransition (Some ContractDraft) ContractAccepted EventAccepted now self]
                   else c in
          if w then Upsert after c else after
      | _ => after
      end
  | _ => after
  end.

(** [signer] is the identity of the node with its signature of a contract. *)
Record Signer := mkSigner { sg_DID : DID; sg_sign : ContractDoc → option string }.

Definition handleContractPropose (r w : bool) (signer : option Signer) (req : ProposeRequest) (s : ContractStore)
    : outcome node_error ContractSignature * ContractStore :=
  let c := ppr_Contract req in
  match signer with
  | None => (Err ErrSignature, s)
  | Some sg =>
      let party := DID_Equal (sg_DID sg) (Requestor_DID (c_Participants c)) ||
                   DID_Equal (sg_DID sg) (Provider_DID (c_Participants c)) in
      if DID_Equal (Handle_DID (ppr_Creator req)) (sg_DID sg) && party then
        match sg_sign sg c with
        | None => (Err ErrSignature, s)
        | Some sig =>
            if w then (Ok (mkContractSignature (sg_DID sg) sig), Upsert s c) else (Err ErrSaveContract, s)
        end
      else match GetContract r s (c_ContractDID c) with
      | Ok saved =>
          if bool_decide (c_CurrentState saved = ContractDraft) then (Err ErrNotSigned, s)
          else match sg_sign sg c with
          | None => (Err ErrSignature, s)
          | Some sig => (Ok (mkContractSignature (sg_DID sg) sig), s)
          end
      | _ => if w then (Err ErrNotSigned, Upsert s c) else (Err ErrSaveContract, s)
      end
  end.

(** The copy counts as accepted before the host is asked; [sign] sends the signature to the
    actor of the contract and gives the error of the reply. *)
Definition handleContractApprovalLocal (r w : bool) (signer : option Signer)
    (sign : Handle → string → string → option string) (contractDID : string) (s : ContractStore)
    : outcome node_error () * ContractStore :=
  match GetContract r s contractDID with
  | Ok c =>
      let c := set_c_state c ContractAccepted (c_Transitions c) in
      if negb w then (Err ErrSaveContract, s)
      else
        let s := Upsert s c in
        match FromString (c_ContractDID c) with
        | Ok d =>
            match PublicKeyFromDID d, PublicKeyFromDID (c_SolutionEnablerDID c) with
            | Some key, Some host =>
                match peerID host with
                | None => (Err ErrHostHandle, s)
                | Some pid =>
                    match HandleFromPublicKeyWithInboxAddress key (c_ContractDID c) pid with
                    | inr _ => (Err ErrHostHandle, s)
                    | inl h =>
                        match signer with
                        | None => (Err ErrSignature, s)
                        | Some sg =>
                            match sg_sign sg c with
                            | None => (Err ErrSignature, s)
                            | Some sig =>
                                match sign h (c_ContractDID c) sig with
                                | None => (Err ErrNoReply, s)
                                | Some e => if bool_decide (e = "") then (Ok tt, s) else (Err ErrHost, s)
                                end
                            end
                        end
                    end
                end
            | _, _ => (Err ErrHostHandle, s)
            end
        | _ => (Err ErrHostHandle, s)
        end
  | _ => (Err ErrNoContract, s)
  end.

(** ** Lists *)

Inductive ContractListIncomingRole := ContractRoleProvider | ContractRoleRequestor | OtherRole.

Definition GetAllContracts (s : ContractStore) : list ContractDoc := visit (map snd (map_to_list s)).

Definition hasRole (role : ContractListIncomingRole) (targetDID : string) (c : ContractDoc) : bool :=
  let provider := bool_decide (DID_String (Provider_DID (c_Participants c)) = targetDID) in
  let requestor := bool_decide (DID_String (Requestor_DID (c_Participants c)) = targetDID) in
  bool_decide (targetDID = "") ||
  match role with
  | ContractRoleProvider => provider
  | ContractRoleRequestor => requestor
  | OtherRole => bool_decide (DID_String (c_SolutionEnablerDID c) = targetDID) || provider || requestor
  end.

Definition filterContractsByRole (l : list ContractDoc) (role : ContractListIncomingRole) (targetDID : string)
    : list ContractDoc := List.filter (hasRole role targetDID) l.

Definition uniqueSolutionEnablerDIDs (l : list ContractDoc) : list string :=
  visit (elements (list_to_set (List.filter (λ host, negb (bool_decide (host = "")))
    (map (λ c, DID_String (c_SolutionEnablerDID c)) l)) : gset string)).

(** The contracts of one host are added by their DID; a host that does not answer adds none. *)
Definition addContracts (m : gmap string ContractDoc) (l : list ContractDoc) : gmap string ContractDoc :=
  fold_left (λ m c, <[c_ContractDID c := c]> m) l m.

Definition contractsOfHost (ask : Handle → ContractListIncomingRole → option (string * list ContractDoc))
    (root : string) (role : ContractListIncomingRole) (local : list ContractDoc) (host : string) : list ContractDoc :=
  if bool_decide (host = root) then local
  else match HandleFromDID peerID host with
  | inr _ => []
  | inl h =>
      match ask h role with
      | Some (e, l) => if bool_decide (e = "") then l else []
      | None => []
      end
  end.

Definition listIncomingContractsFromSolutionEnablers
    (ask : Handle → ContractListIncomingRole → option (string * list ContractDoc)) (root : string)
    (all : list ContractDoc) (role : ContractListIncomingRole) (local : list ContractDoc)
    : outcome node_error (list ContractDoc) :=
  match uniqueSolutionEnablerDIDs all with
  | [] => Err ErrNoHosts
  | hosts => Ok (visit (map snd (map_to_list
               (fold_left (λ m host, addContracts m (contractsOfHost ask root role local host)) hosts ∅))))
  end.

Definition handleListIncomingContracts (r : bool)
    (ask : Handle → ContractListIncomingRole → option (string * list ContractDoc)) (root : string) (caller : DID)
    (role : ContractListIncomingRole) (s : ContractStore) : outcome node_error (list ContractDoc) :=
  if negb r then Err ErrNoContract
  else
    let all := GetAllContracts s in
    let local := filterContractsByRole all role (DID_String caller) in
    if bool_decide (DID_String caller = root) then listIncomingContractsFromSolutionEnablers ask root all role local
    else Ok local.

(** The contract under which a provider works for the organisation of a head contract. *)
Definition FindTailContract (r : bool)
    (ask : Handle → ContractListIncomingRole → option (string * list ContractDoc)) (root : string)
    (head : ContractConfig) (computeProviderDID : string) (s : ContractStore) : outcome node_error ContractConfig :=
  if negb r then Err ErrNoContract
  else
    let all := GetAllContracts s in
    let local := filterContractsByRole all ContractRoleProvider computeProviderDID in
    let among := match listIncomingContractsFromSolutionEnablers ask root all ContractRoleProvider local with
                 | Ok merged => merged
                 | _ => all
                 end in
    match FindTailContractFromContracts head computeProviderDID among with
    | Ok c => Ok c
    | Err _ => Err ErrNoContract
    | Panic => Panic
    end.

(** The provider and the requestor of a contract. *)
Definition handleContractInfo (r : bool) (contractDID : string) (s : ContractStore) : outcome node_error (string * string) :=
  match GetContract r s contractDID with
  | Ok c => Ok (DID_String (Provider_DID (c_Participants c)), DID_String (Requestor_DID (c_Participants c)))
  | _ => Err ErrNoContract
  end.

(** ** Chains of contracts *)

Record ChainRequest := mkChainRequest {
  chq_SolutionEnablerDID : string;
  chq_ContractDID : string;
  chq_OrchestratorDID : string;
  chq_ProviderDID : string
}.

Record ChainResponse := mkChainResponse {
  chs_OrganizationDID : string;
  chs_OrchestratorContract : ContractDoc;
  chs_ProviderContract : ContractDoc
}.

(** The parties of the first contract are compared with the orchestrator only when its
    provider is the one who asks. *)
Definition handleContractChainVerification (r r' : bool) (from : DID) (req : ChainRequest) (s : ContractStore)
    : outcome node_error ChainResponse :=
  match FromString (chq_ProviderDID req) with
  | Ok provider =>
      if negb (bool_decide (from = provider)) then Err ErrCaller
      else match FromString (chq_OrchestratorDID req) with
      | Ok orchestrator =>
          match GetContract r s (chq_ContractDID req) with
          | Ok a =>
              let prov := DID_String (Provider_DID (c_Participants a)) in
              let reqs := DID_String (Requestor_DID (c_Participants a)) in
              if negb (bool_decide (reqs = DID_String orchestrator)) && bool_decide (prov = chq_ProviderDID req)
              then Err ErrParticipants
              else if negb (isActive a) then Err ErrNotInForce
              else if negb r' then Err ErrNoProviderContract
              else match FindContractByParticipants (GetAllContracts s) (Provider_DID (c_Participants a)) provider with
              | Ok b =>
                  if negb (isActive a) || negb (isActive b) then Err ErrNotInForce
                  else Ok (mkChainResponse prov a b)
              | Err _ => Err ErrNoProviderContract
              | Panic => Panic
              end
          | Err _ => Err ErrNoContract
          | Panic => Panic
          end
      | Err _ => Err ErrOrchestratorDID
      | Panic => Panic
      end
  | Err _ => Err ErrProviderDID
  | Panic => Panic
  end.

(** ** Billing on request *)

Inductive contractType := contractTypeP2P | contractTypeHeadContract | contractTypeTailContract.

Definition detectContractTypeForBilling (c : ContractDoc) : contractType :=
  match c_Metadata c !! ContractChainRoleMetadataKey with
  | Some role =>
      if bool_decide (role = ContractChainRoleHead) then contractTypeHeadContract
      else if bool_decide (role = ContractChainRoleTail) then contractTypeTailContract
      else contractTypeP2P
  | None => contractTypeP2P
  end.

Inductive usage_result_error :=
| ErrBillingDisabled | ErrUnsupportedModel | ErrAutomaticOnly | ErrCollectUsage | ErrUsageKind | ErrSaveLast.

#[export] Instance usage_result_error_eq_dec : EqDecision usage_result_error.
Proof. solve_decision. Defined.

Record ContractUsageResult := mkUsageResult {
  ur_ContractDID : string;
  ur_PaymentModel : PaymentModel;
  ur_Usages : Z;
  ur_Error : option usage_result_error;
  ur_Data : option usage_data
}.

Definition convertUsageDataToResult (u : UsageData) : ContractUsageResult :=
  let result n e d := mkUsageResult (ud_ContractDID u) (ud_PaymentModel u) n e d in
  match ud_PaymentModel u, ud_Data u with
  | PayPerAllocation, CountData n | PayPerDeployment, CountData n => result n None None
  | PayPerTimeUtilization, TimeData l => result (Z.of_nat (length l)) None (Some (TimeData l))
  | PayPerResourceUtilization, ResourceData l => result (Z.of_nat (length l)) None (Some (ResourceData l))
  | _, _ => result 0%Z (Some ErrUsageKind) None
  end.

(** One contract: its result, and what is to be paid for.  The time up to which it was
    billed is saved before anything is sent. *)
Definition collectOne (w : World) (us : UsageStore) (c : ContractDoc)
    : outcome node_error (ContractUsageResult * list (ContractDoc * Z * option usage_data)) * UsageStore :=
  let m := pd_PaymentModel (c_PaymentDetails c) in
  let failed e := (Ok (mkUsageResult (c_ContractDID c) m 0 (Some e) None, []), us) in
  if c_DisableBilling c then failed ErrBillingDisabled
  else
    let last := match GetLastProcessedAt (w_last w) (c_ContractDID c) us with Ok t => t | _ => Time_zero end in
    match GetPaymentModelProcessor (w_query w) us (w_uuid w) m with
    | Ok p =>
        if negb (SupportsManualBilling p) then failed ErrAutomaticOnly
        else
          let head := match detectContractTypeForBilling c with contractTypeHeadContract => c_ContractDID c | _ => "" end in
          match CollectUsage p (c_ContractDID c) last (w_now w) head with
          | Ok u =>
              let res := convertUsageDataToResult u in
              match ur_Error res with
              | Some _ => (Ok (res, []), us)
              | None =>
                  match SaveLastProcessedAt (w_save w) (c_ContractDID c) (w_now w) us with
                  | (Ok _, us) =>
                      let pay := (0 <? ur_Usages res)%Z || bool_decide (is_Some (ur_Data res)) in
                      (Ok (res, if pay then [(c, ur_Usages res, ur_Data res)] else []), us)
                  | (_, us) =>
                      (Ok (mkUsageResult (ur_ContractDID res) (ur_PaymentModel res) (ur_Usages res) (Some ErrSaveLast)
                             (ur_Data res), []), us)
                  end
              end
          | Err _ => failed ErrCollectUsage
          | Panic => (Panic, us)
          end
    | Err _ => failed ErrUnsupportedModel
    | Panic => (Panic, us)
    end.

Fixpoint collectAll (w : World) (us : UsageStore) (l : list ContractDoc)
    : outcome node_error (list ContractUsageResult * list (ContractDoc * Z * option usage_data)) * UsageStore :=
  match l with
  | [] => (Ok ([], []), us)
  | c :: l =>
      match collectOne w us c with
      | (Ok (res, pay), us) =>
          match collectAll w us l with
          | (Ok (ress, pays), us) => (Ok (res :: ress, pay ++ pays), us)
          | r => r
          end
      | (Err e, us) => (Err e, us)
      | (Panic, us) => (Panic, us)
      end
  end.

(** [send] says whether the payment provider answered. *)
Definition forwardUsages (send : Handle → ContractUsageRequest → bool) (uuid : nat → string)
    (pays : list (ContractDoc * Z * option usage_data)) : list (Handle * ContractUsageRequest) :=
  concat (imap (λ i '(c, n, d),
    match HandleFromDID peerID (URI (c_PaymentValidatorDID c)) with
    | inl h => let req := mkUsageRequest (uuid i) c n d in if send h req then [(h, req)] else []
    | inr _ => []
    end) pays).

(** The results of the contracts, and the requests that the payment providers answered. *)
Definition collectUsagesAndForwardToPaymentProviders (w : World) (send : Handle → ContractUsageRequest → bool)
    (contractDID : string) (s : ContractStore) (us : UsageStore)
    : outcome node_error (list ContractUsageResult * list (Handle * ContractUsageRequest)) * UsageStore :=
  let l := if bool_decide (contractDID = "") then (if w_contracts w then Ok (GetAllContracts s) else Err ErrNoContract)
           else match GetContract (w_contracts w) s contractDID with Ok c => Ok [c] | _ => Err ErrNoContract end in
  match l with
  | Ok l =>
      match collectAll w us l with
      | (Ok (ress, pays), us) => (Ok (ress, forwardUsages send (w_uuid w) pays), us)
      | (Err e, us) => (Err e, us)
      | (Panic, us) => (Panic, us)
      end
  | Err e => (Err e, us)
  | Panic => (Panic, us)
  end.

(** The reply also says whether some contract failed. *)
Definition handleContractUsagesCalculate (w : World) (send : Handle → ContractUsageRequest → bool)
    (contractDID : string) (s : ContractStore) (us : UsageStore)
    : outcome node_error (list ContractUsageResult * list (Handle * ContractUsageRequest) * bool) * UsageStore :=
  match collectUsagesAndForwardToPaymentProviders w send contractDID s us with
  | (Ok (ress, sent), us) => (Ok (ress, sent, existsb (λ res, bool_decide (is_Some (ur_Error res))) ress), us)
  | (Err e, us) => (Err e, us)
  | (Panic, us) => (Panic, us)
  end.

(** ** Billing by the schedule *)

Inductive schedule_error := ErrNoActor | ErrStopBilling | ErrBilling | ErrScheduleContract.

(** The contracts that are over get a last invoice where the model has one, and leave the
    schedule. *)
Definition executeBillingForContract (w : World) (contractDID : string) (n : ContractNode) (invoices : list ContractUsageRequest)
    : outcome schedule_error () * ContractNode * list ContractUsageRequest :=
  match GetContract (w_contracts w) (cn_contracts n) contractDID with
  | Ok c =>
      if negb (bool_decide (contractDID ∈ cn_actors n)) then (Err ErrNoActor, n, invoices)
      else
        let h := mkHost (cn_contracts n) (cn_usage n) invoices in
        let stopped := bool_decide (c_CurrentState c = ContractTerminated) || bool_decide (c_CurrentState c = ContractCompleted) in
        let m := pd_PaymentModel (c_PaymentDetails c) in
        if stopped then
          let '(o, h) := if bool_decide (m = FixedRental) || bool_decide (m = Periodic)
                         then checkAndGenerateInvoice contractDID w h else (Ok true, h) in
          let n := set_cn_usage n (h_usage h) in
          match o with
          | Panic => (Panic, n, h_invoices h)
          | _ => (Err ErrStopBilling, set_cn_schedule n (UnregisterContract contractDID (cn_schedule n)), h_invoices h)
          end
        else
          let '(o, h) := checkAndGenerateInvoice contractDID w h in
          let n := set_cn_usage n (h_usage h) in
          match o with
          | Ok false =>
              match UpdateContract w contractDID h (cn_schedule n) with
              | Ok sch => (Ok tt, set_cn_schedule n sch, h_invoices h)
              | Err _ => (Err ErrBilling, n, h_invoices h)
              | Panic => (Panic, n, h_invoices h)
              end
          | Ok true | Err _ => (Err ErrBilling, n, h_invoices h)
          | Panic => (Panic, n, h_invoices h)
          end
  | _ => (Err ErrScheduleContract, n, invoices)
  end.
End nodes.
