(* ===== verification/NodeContractProps.v ===== *)
(** * How nodes agree on a contract: properties

    That the proposal of the host, the signature of the creator and the approval of the
    other party end in an accepted contract; what a verified chain of contracts means; and
    what is not checked on the way. *)

From S2P Require Import Prelude Key Envelope Hardware ResourceManager Allocation GoTime GoStrings Contract UsageStore Billing ContractHost BillingProps NodeContracts.

Section agreement.
  Context `{Visit : MapVisit} `{Codec : EventCodec} `{Local : Zone} `{Keys : KeyLib}.
  Context (peerID : PubKey → option string).

(** ** The replies of the parties *)

Definition reply {A} (o : outcome node_error A) : option A := match o with Ok a => Some a | _ => None end.

(** Two nodes that answer proposals at their handles. *)
Definition parties (hp hr : Handle) (sp sr : Signer) (storeP storeR : ContractStore) (h : Handle) (req : ProposeRequest)
    : option ContractSignature :=
  if bool_decide (h = hp) then reply (handleContractPropose true true (Some sp) req storeP).1
  else if bool_decide (h = hr) then reply (handleContractPropose true true (Some sr) req storeR).1
  else None.

(** The actor of the contract on the host, as the approval reaches it. *)
Definition hostSigns (now : Time) (from : DID) (host : ContractStore) (h : Handle) (contractDID sig : string) : option string :=
  match (handleContractSignByParticipants contractDID true true now from sig host).1 with
  | Ok _ => Some "" | Err _ => Some "refused" | Panic => None end.

Lemma creator_signs sg req s sig :
  Handle_DID (ppr_Creator req) = sg_DID sg → isParticipant (ppr_Contract req) (sg_DID sg) = true →
  sg_sign sg (ppr_Contract req) = Some sig →
  handleContractPropose true true (Some sg) req s =
    (Ok (mkContractSignature (sg_DID sg) sig), Upsert s (ppr_Contract req)).
Proof.
  intros Hc Hp Hs. unfold handleContractPropose. rewrite Hc, DID_Equal_refl.
  assert (DID_Equal (sg_DID sg) (Requestor_DID (c_Participants (ppr_Contract req))) ||
          DID_Equal (sg_DID sg) (Provider_DID (c_Participants (ppr_Contract req))) = true) as ->.
  { unfold isParticipant in Hp. rewrite orb_true_iff, !DID_Equal_eq in Hp. rewrite orb_true_iff, !DID_Equal_eq.
    destruct Hp as [-> | ->]; [by right|by left]. }
  cbn. by rewrite Hs.
Qed.

Lemma other_party_waits sg req s :
  Handle_DID (ppr_Creator req) ≠ sg_DID sg → c_ContractDID (ppr_Contract req) ≠ "" →
  s !! c_ContractDID (ppr_Contract req) = None →
  handleContractPropose true true (Some sg) req s = (Err ErrNotSigned, Upsert s (ppr_Contract req)).
Proof.
  intros Hc Hd Hs. unfold handleContractPropose.
  assert (DID_Equal (Handle_DID (ppr_Creator req)) (sg_DID sg) = false) as ->.
  { apply not_true_iff_false. by rewrite DID_Equal_eq. }
  cbn.
  unfold GetContract. rewrite bool_decide_false by done. cbn. by rewrite Hs.
Qed.

Lemma Upsert_lookup s c : Upsert s c !! c_ContractDID c = Some c.
Proof. apply (lookup_insert_eq (M := gmap string)). Qed.

Lemma GetContract_stored s d c : d ≠ "" → s !! d = Some c → GetContract true s d = Ok c.
Proof. intros Hd Hs. unfold GetContract. rewrite bool_decide_false by done. cbn. by rewrite Hs. Qed.

(** ** Agreement *)

(** C23: a contract comes about: the host proposes a new contract to both parties, the
    requestor who created it signs, the provider who sees it for the first time does not;
    when the provider then approves its copy, the approval succeeds and the host holds the
    contract accepted, with the signatures of both. *)
Theorem agreement_reached hp hr (sp sr : Signer) host storeP storeR c creator self now now' sigR sigP kc kh pid h :
  let d := c_ContractDID c in
  let approved := set_c_state c ContractAccepted (c_Transitions c) in
  let proposal := mkPropose c creator in
  let host1 := proposeAndRecord peerID true true true (parties hp hr sp sr storeP storeR) now self d creator host host in
  let storeP1 := (handleContractPropose true true (Some sp) proposal storeP).2 in
  d ≠ "" → host !! d = Some c → storeP !! d = None → hp ≠ hr → sg_DID sp ≠ sg_DID sr →
  c_CurrentState c = ContractDraft →
  Provider_DID (c_Participants c) = sg_DID sp → Requestor_DID (c_Participants c) = sg_DID sr → Handle_DID creator = sg_DID sr →
  HandleFromDID peerID (URI (sg_DID sp)) = inl hp → HandleFromDID peerID (URI (sg_DID sr)) = inl hr →
  sg_sign sr c = Some sigR → sg_sign sp approved = Some sigP →
  FromString d = Ok (mkDID d) → PublicKeyFromDID (mkDID d) = Some kc →
  PublicKeyFromDID (c_SolutionEnablerDID c) = Some kh → peerID kh = Some pid →
  HandleFromPublicKeyWithInboxAddress kc d pid = inl h →
  (handleContractApprovalLocal peerID true true (Some sp) (hostSigns now' (sg_DID sp) host1) d storeP1).1 = Ok tt ∧
  ∃ c', (handleContractSignByParticipants d true true now' (sg_DID sp) sigP host1).2 !! d = Some c' ∧
    c_CurrentState c' = ContractAccepted ∧
    c_Signatures c' = [mkContractSignature (sg_DID sr) sigR; mkContractSignature (sg_DID sp) sigP].
Proof.
  intros d approved proposal host1 storeP1 Hd Hhost HP Hpr Hne Hdraft Hprov Hreq Hcr Hhp Hhr HsR HsP Hfrom Hkc Hkh Hpid Hh.
  assert (handleContractPropose true true (Some sp) proposal storeP = (Err ErrNotSigned, Upsert storeP c)) as Hwait.
  { apply other_party_waits; [cbn; congruence|done|done]. }
  assert (handleContractPropose true true (Some sr) proposal storeR =
    (Ok (mkContractSignature (sg_DID sr) sigR), Upsert storeR c)) as Hsign.
  { apply creator_signs; [done| |done]. unfold isParticipant. cbn. by rewrite Hreq, DID_Equal_refl, orb_true_r. }
  set (c1 := set_c_signatures c [mkContractSignature (sg_DID sr) sigR]).
  assert (host1 = Upsert host c1) as ->.
  { unfold host1, proposeAndRecord, proposeContract. rewrite (GetContract_stored host d c) by done.
    rewrite Hprov, Hreq, Hhp, Hhr. unfold parties. rewrite bool_decide_true by done. fold proposal. rewrite Hwait.
    rewrite bool_decide_false by done. rewrite bool_decide_true, Hsign by done. done. }
  assert (storeP1 = Upsert storeP c) as -> by (unfold storeP1; by rewrite Hwait).
  assert (handleContractSignByParticipants d true true now' (sg_DID sp) sigP (Upsert host c1) =
    (Ok (addSignature now' (sg_DID sp) sigP c1), Upsert (Upsert host c1) (addSignature now' (sg_DID sp) sigP c1))) as Hact.
  { unfold handleContractSignByParticipants, withContract. rewrite (GetContract_stored _ d c1); [|done|apply (Upsert_lookup host c1)].
    cbn. rewrite bool_decide_false by congruence. cbn. by rewrite Hprov, bool_decide_true by done. }
  split.
  - unfold handleContractApprovalLocal. rewrite (GetContract_stored _ d c); [|done|apply Upsert_lookup]. cbn [negb c_ContractDID c_SolutionEnablerDID set_c_state].
    fold d. rewrite Hfrom, Hkc, Hkh, Hpid, Hh. fold approved. rewrite HsP. unfold hostSigns.
    change (c_ContractDID approved) with d. by rewrite Hact.
  - rewrite Hact. exists (addSignature now' (sg_DID sp) sigP c1). split; [|done].
    exact (Upsert_lookup (Upsert host c1) (addSignature now' (sg_DID sp) sigP c1)).
Qed.

(** ** What is not checked *)

(** The host accepts a contract on whatever two signatures the replies to its proposal
    carry, whoever they name and whatever they sign, and whatever has happened to the
    contract in between: a contract that was terminated is in force again. *)
Theorem unverified_signatures_accepted propose now self d creator before after c c0 hp hr sig1 sig2 :
  d ≠ "" → before !! d = Some c0 → after !! d = Some c → c_ContractDID c = d →
  HandleFromDID peerID (URI (Provider_DID (c_Participants c0))) = inl hp →
  HandleFromDID peerID (URI (Requestor_DID (c_Participants c0))) = inl hr →
  propose hp (mkPropose c0 creator) = Some sig1 → propose hr (mkPropose c0 creator) = Some sig2 →
  ∃ c', proposeAndRecord peerID true true true propose now self d creator before after !! d = Some c' ∧
    c_CurrentState c' = ContractAccepted ∧ c_Signatures c' = [sig1; sig2].
Proof.
  intros Hd Hb Ha Hcd Hhp Hhr H1 H2. unfold proposeAndRecord, proposeContract.
  rewrite (GetContract_stored before d c0), Hhp, Hhr, H1, H2, (GetContract_stored after d c) by done. cbn [app length Nat.eqb].
  match goal with |- context [Upsert after ?x] => exists x; split; [|done]; rewrite <- Hcd; exact (Upsert_lookup after x) end.
Qed.

(** An approval that the host refuses leaves the copy of the party accepted. *)
Theorem refused_approval_stays signer sign d s c :
  d ≠ "" → s !! d = Some c → c_ContractDID c = d →
  ∃ c', (handleContractApprovalLocal peerID true true signer sign d s).2 !! d = Some c' ∧ c_CurrentState c' = ContractAccepted.
Proof.
  intros Hd Hs Hc. exists (set_c_state c ContractAccepted (c_Transitions c)). split; [|done].
  assert ((handleContractApprovalLocal peerID true true signer sign d s).2 =
          Upsert s (set_c_state c ContractAccepted (c_Transitions c))) as ->.
  { unfold handleContractApprovalLocal. rewrite (GetContract_stored s d c) by done. cbn [negb].
    repeat case_match; done. }
  rewrite <- Hc. apply (Upsert_lookup s (set_c_state c ContractAccepted (c_Transitions c))).
Qed.

(** ** Chains *)

(** A verified chain: the one who asks is the provider it names, the first contract is
    stored and in force, exactly one contract in force has both the organisation and the
    provider as parties, and the requestor of the first contract is the orchestrator if its
    provider is the one who asks. *)
Lemma chain_cases from req s resp :
  handleContractChainVerification true true from req s = Ok resp ↔
  ∃ orchestrator, FromString (chq_ProviderDID req) = Ok from ∧ FromString (chq_OrchestratorDID req) = Ok orchestrator ∧
    let a := chs_OrchestratorContract resp in
    let organisation := Provider_DID (c_Participants a) in
    chq_ContractDID req ≠ "" ∧ s !! chq_ContractDID req = Some a ∧ isActive a = true ∧
    (DID_String organisation = chq_ProviderDID req → Requestor_DID (c_Participants a) = orchestrator) ∧
    List.filter (λ c, isParticipant c organisation && isParticipant c from && isActive c) (GetAllContracts s) =
      [chs_ProviderContract resp] ∧
    chs_OrganizationDID resp = DID_String organisation.
Proof.
  unfold handleContractChainVerification, GetContract, FindContractByParticipants. split.
  - destruct (FromString (chq_ProviderDID req)) as [provider| |] eqn:Hp; [|done..]. case_bool_decide as Hf; [cbn|done].
    destruct (FromString (chq_OrchestratorDID req)) as [orch| |] eqn:Ho; [|done..].
    case_bool_decide as Hd; [done|]. cbn. destruct (s !! _) as [a|] eqn:Ha; [|done].
    destruct (negb _ && _) eqn:Hpart; [done|]. destruct (isActive a) eqn:Hact; [cbn|done].
    destruct (List.filter _ _) as [|b [|]] eqn:Hfil; [done| |done].
    destruct (isActive b) eqn:Hb; [cbn|done]. intros [= <-]. exists orch. cbn. subst provider.
    split_and!; try done. intros Heq. rewrite (bool_decide_true (DID_String _ = _) Heq), andb_true_r, negb_false_iff in Hpart.
    apply bool_decide_eq_true in Hpart. destruct (Requestor_DID _), orch. unfold DID_String in Hpart. cbn in Hpart. by subst.
  - intros (orch & Hp & Ho & Hd & Ha & Hact & Hpart & Hfil & Horg). cbn in *. rewrite Hp, bool_decide_true by done. cbn.
    rewrite Ho, bool_decide_false by done. cbn. rewrite Ha.
    replace (negb _ && _) with false.
    2: { symmetry. apply andb_false_iff. rewrite negb_false_iff. case_bool_decide; [by left|]. right.
         apply bool_decide_eq_false. intros Heq. apply H. by rewrite (Hpart Heq). }
    rewrite Hact. cbn. rewrite Hfil.
    assert (isActive (chs_ProviderContract resp) = true) as ->.
    { assert (In (chs_ProviderContract resp) [chs_ProviderContract resp]) as Hin by by left. rewrite <- Hfil in Hin.
      apply filter_In in Hin as [_ [_ ?]%andb_true_iff]. done. }
    cbn. destruct resp. cbn in *. by rewrite Horg.
Qed.

(** When the host verifies a chain of contracts, the one who asks is the provider that
    the request names, the first contract is stored and in force, and exactly one contract
    in force has both its organisation and the provider as parties.  But unless the
    organisation is the provider itself, nobody looks whether the first contract is with
    the orchestrator: the same chain is verified for every other one. *)
Theorem chain_verified from req s resp :
  handleContractChainVerification true true from req s = Ok resp →
  let a := chs_OrchestratorContract resp in
  FromString (chq_ProviderDID req) = Ok from ∧ s !! chq_ContractDID req = Some a ∧ isActive a = true ∧
  List.filter (λ c, isParticipant c (Provider_DID (c_Participants a)) && isParticipant c from && isActive c)
    (GetAllContracts s) = [chs_ProviderContract resp] ∧
  (DID_String (Provider_DID (c_Participants a)) ≠ chq_ProviderDID req →
   ∀ other, is_ok (FromString other) = true →
     handleContractChainVerification true true from
       (mkChainRequest (chq_SolutionEnablerDID req) (chq_ContractDID req) other (chq_ProviderDID req)) s = Ok resp).
Proof.
  intros (orch & Hp & Ho & Hd & Ha & Hact & Hpart & Hfil & Horg)%chain_cases. cbv zeta. split_and!; try done.
  intros Hne other Hother. destruct (FromString other) as [orch'| |] eqn:Ho'; [|done..].
  apply chain_cases. exists orch'. by split_and!.
Qed.

(** ** Billing on request *)

(** The time up to which a contract was billed is saved whether or not the payment
    provider got the request: usage that could not be sent is not billed again. *)
Theorem unsent_usage_is_lost w send send' d s us :
  (collectUsagesAndForwardToPaymentProviders peerID w send d s us).2 =
  (collectUsagesAndForwardToPaymentProviders peerID w send' d s us).2.
Proof.
  unfold collectUsagesAndForwardToPaymentProviders.
  destruct (if bool_decide (d = "") then _ else _); [|done..]. by destruct (collectAll _ _ _) as [[[]| |] ?].
Qed.
End agreement.

(** ** Witnesses *)

#[local] Existing Instance toy_keys.

Definition key_did (k : string) : DID := @FromPublicKey toy_keys k.

Definition signer_of (k : string) : Signer := mkSigner (key_did k) (λ c, Some (k +:+ c_ContractDID c)).

Definition handle_of (k : string) : Handle :=
  match @HandleFromDID toy_keys Some (URI (key_did k)) with inl h => h | inr _ => Handle_zero end.

Definition draft_between (contract provider requestor : string) : ContractDoc :=
  NewContract (URI (key_did contract)) (mkCreateContract ∅ (key_did "host") (key_did "validator") Resources_zero None []
    (sample_details FixedRental) "" (mkParticipants (key_did provider) (key_did requestor))
    (mkDurationDetails (time_Unix 1700000000) (time_Unix 1800000000)) false).

Definition host_with (c : ContractDoc) : ContractStore := Upsert ∅ c.

Lemma agreement_reached_witness :
  ∃ c', (handleContractSignByParticipants (URI (key_did "contract")) true true (time_Unix 2) (key_did "bob")
           ("bob" +:+ URI (key_did "contract"))
           (proposeAndRecord (Keys := toy_keys) Some true true true
              (parties (handle_of "bob") (handle_of "alice") (signer_of "bob") (signer_of "alice") ∅ ∅) (time_Unix 1)
              (key_did "host") (URI (key_did "contract")) (handle_of "alice")
              (host_with (draft_between "contract" "bob" "alice")) (host_with (draft_between "contract" "bob" "alice")))).2
          !! URI (key_did "contract") = Some c' ∧ c_CurrentState c' = ContractAccepted.
Proof.
  pose proof (agreement_reached (Keys := toy_keys) Some (handle_of "bob") (handle_of "alice") (signer_of "bob") (signer_of "alice")
    (host_with (draft_between "contract" "bob" "alice")) ∅ ∅ (draft_between "contract" "bob" "alice") (handle_of "alice")
    (key_did "host") (time_Unix 1) (time_Unix 2) ("alice" +:+ URI (key_did "contract")) ("bob" +:+ URI (key_did "contract"))
    "contract" "host" "host" (mkHandle "contract" (key_did "contract") (mkAddress "host" (URI (key_did "contract"))))) as H.
  destruct H as [_ (c' & Hc & Hst & _)]; try (vm_compute; (reflexivity || discriminate)).
  exists c'. split; [exact Hc|exact Hst].
Defined.

(** Two signatures of a stranger. *)
Lemma unverified_signatures_accepted_witness :
  ∃ c', proposeAndRecord (Keys := toy_keys) Some true true true
          (λ _ _, Some (mkContractSignature (key_did "mallory") "forged")) (time_Unix 1) (key_did "host")
          (URI (key_did "contract")) (handle_of "alice") (host_with (draft_between "contract" "bob" "alice"))
          (host_with (transition ContractTerminated EventTerminate (time_Unix 0) (key_did "bob")
             (draft_between "contract" "bob" "alice"))) !! URI (key_did "contract") = Some c' ∧
    c_CurrentState c' = ContractAccepted.
Proof.
  destruct (unverified_signatures_accepted (Keys := toy_keys) Some (λ _ _, Some (mkContractSignature (key_did "mallory") "forged"))
    (time_Unix 1) (key_did "host") (URI (key_did "contract")) (handle_of "alice") (host_with (draft_between "contract" "bob" "alice"))
    (host_with (transition ContractTerminated EventTerminate (time_Unix 0) (key_did "bob") (draft_between "contract" "bob" "alice")))
    (transition ContractTerminated EventTerminate (time_Unix 0) (key_did "bob") (draft_between "contract" "bob" "alice"))
    (draft_between "contract" "bob" "alice") (handle_of "bob") (handle_of "alice")
    (mkContractSignature (key_did "mallory") "forged") (mkContractSignature (key_did "mallory") "forged"))
    as (c' & Hc & Hst & _); try (vm_compute; (reflexivity || discriminate)).
  exists c'. split; [exact Hc|exact Hst].
Defined.

(** The contract of alice with org serves mallory. *)
Definition in_force (c : ContractDoc) : ContractDoc := set_c_state c ContractAccepted [].

Definition chain_store : ContractStore :=
  Upsert (host_with (in_force (draft_between "a" "org" "alice"))) (in_force (draft_between "b" "bob" "org")).

Lemma chain_verified_witness :
  handleContractChainVerification true true (key_did "bob")
    (mkChainRequest "" (URI (key_did "a")) (URI (key_did "mallory")) (URI (key_did "bob"))) chain_store =
  Ok (mkChainResponse (URI (key_did "org")) (in_force (draft_between "a" "org" "alice")) (in_force (draft_between "b" "bob" "org"))).
Proof.
  pose proof (chain_verified (Visit := plain_visit) (key_did "bob") (mkChainRequest "" (URI (key_did "a")) (URI (key_did "alice")) (URI (key_did "bob")))
    chain_store (mkChainResponse (URI (key_did "org")) (in_force (draft_between "a" "org" "alice"))
                   (in_force (draft_between "b" "bob" "org"))) ltac:(vm_compute; reflexivity)) as H.
  destruct H as (_ & _ & _ & _ & H). apply H; [vm_compute; discriminate|vm_compute; reflexivity].
Defined.
