(* ===== verification/NodeBids.v ===== *)
(** * Bids and commitments of a node

    The handlers of dms/node/behaviors_bid.go and behaviors_deployment.go: a node answers a
    request for bids with a signed bid when the contracts, its place, its executors and its
    resources allow it, remembers what it answered, and commits resources to an ensemble
    while its bid is alive. *)

From S2P Require Import Prelude GoStrings GoNumbers AllocationID Key Envelope Hardware ResourceManager Ports Allocation Allocator GoTime Ensemble BidCoordinator Contract UsageStore Billing ContractHost NodeContracts.

Record bidState := mkBidEntry { bs_expire : Time; bs_nonce : Z; bs_request : option BidRequestV1 }.

Definition bidStateTimeout : Duration := (5 * Minute)%Z.
Definition DefaultCommitTimeout : Duration := (30 * Second)%Z.

(** What is fixed while the node runs. *)
Record NodeConf := mkNodeConf {
  nc_hostID : string;
  nc_handle : Handle;
  nc_publicIP : string;
  nc_location : Location;              (* of the host *)
  nc_executors : gmap string string;   (* the type of each executor *)
  nc_gateway : bool;                   (* ComputeGateway *)
  nc_requireContracts : bool;          (* RequireContractsForDeployment *)
  nc_allowPrivileged : bool            (* AllowPrivilegedDocker *)
}.

Record BidNode := mkBidNode {
  bn_bids : gmap string bidState;
  bn_answered : gmap string (list Z);
  bn_allocator : allocator
}.

Definition set_bn_allocator n v := mkBidNode (bn_bids n) (bn_answered n) v.

(** A request as it arrives: its entries may be nil. *)
Record BidMessage := mkBidMessage {
  bm_ID : string;
  bm_Request : list (option BidRequestV1);
  bm_Nonce : Z;
  bm_PeerExclusion : list string
}.

(** What the outside answers: the clock, whether the node is ready and onboarded, the
    machine, the random order, the probes of ports, the plans of server providers, the
    provider of its identity (when there is one) and the replies of contract hosts. *)
Record BidEnv := mkBidEnv {
  be_now : Time;
  be_ready : bool;
  be_onboarded : bool;
  be_machine : option Resources;
  be_shuffle : list (option BidRequestV1) → list (option BidRequestV1);
  be_probe : Z → bool;
  be_plan : Resources → bool;
  be_sign : option (string → option string);
  be_chain : Handle → ChainRequest → option bool;
  be_validate : Handle → string → option bool
}.

Definition storeBid (now : Time) (eid : string) (nonce : Z) (req : option BidRequestV1) (n : BidNode) : BidNode :=
  mkBidNode (<[eid := mkBidEntry (time_Add now bidStateTimeout) nonce req]> (bn_bids n))
    (<[eid := default [] (bn_answered n !! eid) ++ [nonce]]> (bn_answered n)) (bn_allocator n).

Definition getBid (eid : string) (n : BidNode) : option bidState := bn_bids n !! eid.

Definition bidAnswered (eid : string) (nonce : Z) (n : BidNode) : bool :=
  match bn_answered n !! eid with Some l => bool_decide (nonce ∈ l) | None => false end.

(** One tick of the collector. *)
Definition doGCBidState (now : Time) (n : BidNode) : BidNode :=
  mkBidNode (filter (λ kb, time_Before (bs_expire kb.2) now = false) (bn_bids n))
    (filter (λ kb, match bn_bids n !! kb.1 with Some b => time_Before (bs_expire b) now | None => false end = false)
       (bn_answered n)) (bn_allocator n).

(** Autonomous system and provider are not known. *)
Definition location (cf : NodeConf) : Location :=
  mkLocation (Continent (nc_location cf)) (Country (nc_location cf)) (City (nc_location cf)) 0 "".

Section bids.
  Context `{Visit : MapVisit} `{Keys : KeyLib} `{Lib : BidLib}.
  Context (peerID : PubKey → option string) (peerKey : string → option PubKey).

(** ** Contracts of a request *)

Definition HandleFromPeerID (dest : string) : Handle + actor_error :=
  match peerKey dest with
  | None => inr ErrKey
  | Some pubk => handleFromPublicKey pubk (peerID pubk)
  end.

(** The peer of a host, and the public key it is derived from. *)
Definition hostPeer (host : string) : option (DID * string) :=
  match FromString host with
  | Ok d => match PublicKeyFromDID d with Some k => pair d <$> peerID k | None => None end
  | _ => None
  end.

Definition verifyP2PContract (env : BidEnv) (cc : ContractConfig) : bool :=
  match hostPeer (cc_Host cc) with
  | None => false
  | Some (_, pid) =>
      match FromString (cc_DID cc) with
      | Ok d =>
          match PublicKeyFromDID d with
          | None => false
          | Some k =>
              match HandleFromPublicKeyWithInboxAddress k (cc_DID cc) pid with
              | inr _ => false
              | inl h => default false (be_validate env h (cc_DID cc))
              end
          end
      | _ => false
      end
  end.

Definition verifyContractChain (cf : NodeConf) (env : BidEnv) (cc : ContractConfig) (orchestrator : DID) : bool :=
  match hostPeer (cc_Host cc) with
  | None => false
  | Some (host, pid) =>
      match HandleFromPeerID pid with
      | inr _ => false
      | inl h =>
          default false (be_chain env h (mkChainRequest (DID_String host) (cc_DID cc) (DID_String orchestrator)
                                           (DID_String (Handle_DID (nc_handle cf)))))
      end
  end.

(** Each contract is in force with this node, or through an organisation. *)
Definition verifyContract (cf : NodeConf) (env : BidEnv) (contracts : gmap string ContractConfig) (orchestrator : DID) : bool :=
  forallb (λ cc, verifyContractChain cf env cc orchestrator || verifyP2PContract env cc)
    (visit (map snd (map_to_list contracts))).

(** ** Choosing a request *)

Definition executorsFit (cf : NodeConf) (v : BidRequestV1) : bool :=
  forallb (λ e, match nc_executors cf !! e with
                | None => false
                | Some t => negb (bool_decide (t = ExecutorDocker) && br_PrivilegedDocker v && negb (nc_allowPrivileged cf))
                end) (br_Executors v).

(** The first entry that fits; a gateway gives up at the first one no provider has a plan
    for, and a request that was answered before ends the search. *)
Fixpoint findRequest (cf : NodeConf) (env : BidEnv) (machine : Resources) (n : BidNode) (req : BidMessage)
    (l : list (option BidRequestV1)) : option BidRequestV1 :=
  match l with
  | [] => None
  | None :: l => findRequest cf env machine n req l
  | Some v :: l =>
      if bidAnswered (bm_ID req) (bm_Nonce req) n then None
      else if bool_decide (HostID (Handle_Address (nc_handle cf)) ∈ bm_PeerExclusion req)
      then findRequest cf env machine n req l
      else if negb (Satisfies (location cf) (br_Location v)) then findRequest cf env machine n req l
      else if nc_gateway cf then (if be_plan env (br_Resources v) then Some v else None)
      else if negb (executorsFit cf v) then findRequest cf env machine n req l
      else if bool_decide (Resources_Compare machine (br_Resources v) = Better) then Some v
      else findRequest cf env machine n req l
  end.

(** ** The handler *)

Definition self (cf : NodeConf) (msg : Envelope) : bool :=
  bool_decide (HostID (Handle_Address (nc_handle cf)) = HostID (Handle_Address (From msg))).

(** The contracts of the first entry are those of all; a nil first entry panics. *)
Definition contractsAllow (cf : NodeConf) (env : BidEnv) (msg : Envelope) (req : BidMessage) : outcome () bool :=
  match bm_Request req with
  | [] => Ok true
  | None :: _ => Panic
  | Some v :: _ =>
      if negb (self cf msg) && nc_requireContracts cf && bool_decide (br_Contracts v = ∅) then Ok false
      else if bool_decide (br_Contracts v = ∅) then Ok true
      else Ok (verifyContract cf env (br_Contracts v) (Handle_DID (From msg)))
  end.

Definition makeBid (cf : NodeConf) (req : BidMessage) (v : BidRequestV1) : BidV1 :=
  mkBidV1 (bm_ID req) (br_NodeID v) (nc_hostID cf) (location cf) (nc_handle cf) (nc_publicIP cf) ∅ "" (nc_gateway cf).

(** [request] is [None] when the message cannot be read.  The reply is a bid or nothing. *)
Definition handleBidRequest (cf : NodeConf) (env : BidEnv) (msg : Envelope) (request : option BidMessage) (n : BidNode)
    : outcome () (option Bid) * BidNode :=
  if negb (be_ready env) then (Ok None, n)
  else if IsBroadcast msg && self cf msg then (Ok None, n)
  else if negb (nc_gateway cf) && negb (be_onboarded env) then (Ok None, n)
  else match request with
  | None => (Ok None, n)
  | Some req =>
      match contractsAllow cf env msg req with
      | Panic | Err _ => (Panic, n)
      | Ok false => (Ok None, n)
      | Ok true =>
          match be_machine env with
          | None => (Ok None, n)
          | Some machine =>
              match findRequest cf env machine n req (be_shuffle env (bm_Request req)) with
              | None => (Ok None, n)
              | Some v =>
                  let '(avail, a) :=
                    if nc_gateway cf then (Ok (), bn_allocator n)
                    else CheckAvailability (be_probe env) (bn_allocator n) (br_Static v) (br_Dynamic v) (br_Resources v) in
                  let n := set_bn_allocator n a in
                  match avail with
                  | Panic => (Panic, n)
                  | Err _ => (Ok None, n)
                  | Ok _ =>
                      match be_sign env with
                      | None => (Ok None, n)
                      | Some sign =>
                          match Bid_Sign sign (makeBid cf req v) with
                          | None => (Ok None, n)
                          | Some b => (Ok (Some (mkBid (Some b))), storeBid (be_now env) (bm_ID req) (bm_Nonce req) (Some v) n)
                          end
                      end
                  end
              end
          end
      end
  end.

(** A server that was just provisioned signs the promised bid as its own. *)
Definition handleBidSigning (cf : NodeConf) (env : BidEnv) (promised : Bid) (breq : option BidRequestV1) (nonce : Z) (n : BidNode)
    : outcome () (option Bid) * BidNode :=
  match bid_V1 promised with
  | None => (Panic, n)
  | Some v =>
      match be_sign env with
      | None => (Ok None, n)
      | Some sign =>
          match Bid_Sign sign (mkBidV1 (bid_EnsembleID v) (bid_NodeID v) (nc_hostID cf) (bid_Location v) (nc_handle cf) "" ∅ "" false) with
          | None => (Ok None, n)
          | Some b => (Ok (Some (mkBid (Some b))), storeBid (be_now env) (bid_EnsembleID v) nonce breq n)
          end
      end
  end.

(** ** Commitments *)

Inductive deploy_error := ErrNoBid | ErrBidExpired | ErrCommit (e : allocator_error).

Record CommitRequest := mkCommitRequest {
  cq_EnsembleID : string;
  cq_AllocationName : string;
  cq_ResourcesID : string;
  cq_Resources : Resources;
  cq_PortMapping : gmap Z Z;
  cq_NumDynamicPorts : Z
}.

(** What the system answers to a commitment. *)
Record CommitEnv := mkCommitEnv { ce_hw : Measurement; ce_probe1 : Z → bool; ce_scan : Z → bool; ce_probe2 : Z → bool }.

(** What is committed is not compared with what the bid was for. *)
Definition commitDeployment (ce : CommitEnv) (now : Time) (req : CommitRequest) (bidRequired : bool) (n : BidNode)
    : outcome deploy_error () * BidNode :=
  let commit :=
    match allocator_Commit (ce_hw ce) (ce_probe1 ce) (ce_scan ce) (ce_probe2 ce) (bn_allocator n) (cq_AllocationName req)
            (cq_ResourcesID req) (cq_Resources req) (cq_PortMapping req) (cq_NumDynamicPorts req)
            (Unix (time_Add now DefaultCommitTimeout)) with
    | (Ok _, a) => (Ok (), set_bn_allocator n a)
    | (Err e, a) => (Err (ErrCommit e), set_bn_allocator n a)
    | (Panic, a) => (Panic, set_bn_allocator n a)
    end in
  if bidRequired then
    match getBid (cq_EnsembleID req) n with
    | None => (Err ErrNoBid, n)
    | Some b => if time_Before (bs_expire b) now then (Err ErrBidExpired, n) else commit
    end
  else commit.

Definition handleCommitDeployment (ce : CommitEnv) (now : Time) (req : CommitRequest) (n : BidNode)
    : outcome deploy_error () * BidNode := commitDeployment ce now req true n.

(** The bid is forgotten, and every allocation is released, or its commitment taken back
    when it was not allocated. *)
Definition revertAllocation (v : Env) (a : allocator) (allocID : string) : allocator * list alloc_effect :=
  match allocator_GetAllocation a allocID with
  | Ok _ => let '(_, a, o) := allocator_Release v a allocID in (a, o)
  | _ => ((Uncommit a allocID).2, [])
  end.

Fixpoint revertAllocations (v : Env) (a : allocator) (ids : list string) : allocator * list alloc_effect :=
  match ids with
  | [] => (a, [])
  | id :: ids =>
      let '(a, o) := revertAllocation v a id in
      let '(a, o') := revertAllocations v a ids in (a, o ++ o')
  end.

Definition handleDeploymentRevert (v : Env) (ensembleID : string) (allocs : list string) (n : BidNode)
    : BidNode * list alloc_effect :=
  let '(a, o) := revertAllocations v (bn_allocator n) allocs in
  (mkBidNode (delete ensembleID (bn_bids n)) (delete ensembleID (bn_answered n)) a, o).

(** ** Edges *)

(** [handleVerifyEdgeConstraint] is not implemented: it answers only what it cannot read. *)
Definition handleVerifyEdgeConstraint (readable : bool) : option bool := if readable then None else Some false.

(** The coordinator waits for the reply: none counts as a refusal. *)
Definition verifyEdgeConstraint (sent readable : bool) : bool :=
  if sent then default false (handleVerifyEdgeConstraint readable) else false.
End bids.
