(* ===== verification/NodeBidProps.v ===== *)
(** * Bids and commitments of a node: properties

    The bid that a node sends is one the coordinator takes; a node commits resources only
    to ensembles it has bid for; and what follows from the parts that are missing: no edge
    of an ensemble is ever confirmed, a nil entry stops the node. *)

From S2P Require Import Prelude GoStrings GoNumbers AllocationID Key Envelope Hardware ResourceManager ResourceProps Ports Allocation Allocator AllocatorProps GoTime Ensemble BidCoordinator BidProps CandidateProps Contract UsageStore Billing ContractHost NodeContracts NodeBids.

Section bids.
  Context `{Visit : MapVisit} `{NodeGen : NodeIDGenerator} `{Keys : KeyLib} `{Lib : BidLib}.
  Context (peerID : PubKey → option string) (peerKey : string → option PubKey) (cf : NodeConf).

(** ** What a bid says *)

Lemma findRequest_Some env machine n req l v :
  findRequest cf env machine n req l = Some v →
  Some v ∈ l ∧ bidAnswered (bm_ID req) (bm_Nonce req) n = false ∧ Satisfies (location cf) (br_Location v) = true.
Proof.
  induction l as [|[v'|] l IH]; cbn; [done| |intros (? & ? & ?)%IH; split_and!; [by right|done..]].
  destruct (bidAnswered _ _ _) eqn:Ha; [done|].
  assert (findRequest cf env machine n req l = Some v →
    Some v ∈ Some v' :: l ∧ false = false ∧ Satisfies (location cf) (br_Location v) = true) as Hrest.
  { intros (? & ? & ?)%IH. split_and!; [by right|done..]. }
  case_bool_decide; [exact Hrest|]. destruct (Satisfies (location cf) (br_Location v')) eqn:Hs; [cbn|exact Hrest].
  destruct (nc_gateway cf).
  { destruct (be_plan env _); [|done]. intros [= ->]. split_and!; [left|done..]. }
  destruct (executorsFit cf v'); [cbn|exact Hrest]. case_bool_decide; [|exact Hrest]. intros [= ->]. split_and!; [left|done..].
Qed.

(** What the handler has done when it answers. *)
Lemma handleBidRequest_bid env msg request n b n' :
  handleBidRequest peerID peerKey cf env msg request n = (Ok (Some b), n') →
  ∃ req v sign s a, request = Some req ∧ Some v ∈ be_shuffle env (bm_Request req) ∧
    bidAnswered (bm_ID req) (bm_Nonce req) n = false ∧ Satisfies (location cf) (br_Location v) = true ∧
    be_sign env = Some sign ∧ Bid_Sign sign (makeBid cf req v) = Some s ∧ b = mkBid (Some s) ∧
    n' = storeBid (be_now env) (bm_ID req) (bm_Nonce req) (Some v) (set_bn_allocator n a).
Proof.
  unfold handleBidRequest. destruct (negb _); [done|]. destruct (_ && _); [done|]. destruct (_ && _); [done|].
  destruct request as [req|]; [|done]. destruct (contractsAllow _ _ _ _ _ _) as [[]| |]; [|done..].
  destruct (be_machine env) as [machine|]; [|done].
  destruct (findRequest _ _ _ _ _ _) as [v|] eqn:Hf; [|done]. apply findRequest_Some in Hf as (Hin & Ha & Hs).
  destruct (if nc_gateway cf then _ else _) as [[] a]; [|done..].
  destruct (be_sign env) as [sign|] eqn:Hsign; [|done]. destruct (Bid_Sign _ _) as [s|] eqn:Hb; [|done].
  intros [= <- <-]. exists req, v, sign, s, a. by split_and!.
Qed.

(** When it does not answer, at most the allocator has changed. *)
Lemma handleBidRequest_silent env msg request n o n' :
  handleBidRequest peerID peerKey cf env msg request n = (o, n') → (∀ b, o ≠ Ok (Some b)) →
  bn_bids n' = bn_bids n ∧ bn_answered n' = bn_answered n.
Proof.
  unfold handleBidRequest. intros H Ho.
  repeat (case_match; try (by simplify_eq)); simplify_eq; try done; by destruct (Ho _ eq_refl).
Qed.

(** A request that was answered is not answered again, whatever else has changed. *)
Theorem request_answered_once env msg req n b n' env' msg' :
  handleBidRequest peerID peerKey cf env msg (Some req) n = (Ok (Some b), n') →
  ∀ b', (handleBidRequest peerID peerKey cf env' msg' (Some req) n').1 ≠ Ok (Some b').
Proof.
  intros (req1 & v & sign & s & a & [= <-] & _ & _ & _ & _ & _ & _ & ->)%handleBidRequest_bid b' Hb'.
  destruct (handleBidRequest _ _ _ env' _ _ _) as [o n1] eqn:Hh. cbn in Hb'. subst o.
  apply handleBidRequest_bid in Hh as (req1 & v1 & sign1 & s1 & a1 & [= <-] & _ & Ha & _).
  unfold bidAnswered in Ha. cbn in Ha. rewrite lookup_insert_eq in Ha. apply bool_decide_eq_false in Ha. set_solver.
Qed.

(** ** The coordinator takes the bid *)

Lemma addAllocations_node docker cfg ports req names req' :
  addAllocations docker cfg ports req names = Some req' → br_NodeID req' = br_NodeID req ∧ br_Location req' = br_Location req.
Proof.
  revert req. induction names as [|name names IH]; intros req; cbn; [by intros [= ->]|].
  destruct (cfg_Allocations cfg !! name) as [a|]; [|apply IH].
  destruct (addAllocation _ _ _ _ _) as [req1|] eqn:Ha; [|done]. intros [-> ->]%IH.
  unfold addAllocation in Ha. repeat case_match; by simplify_eq.
Qed.

Lemma nodeRequests_node docker cfg nodes reqs v :
  nodeRequests docker cfg nodes = Some reqs → v ∈ reqs →
  ∃ node, (br_NodeID v, node) ∈ nodes ∧ br_Location v = node_Location node.
Proof.
  revert reqs. induction nodes as [|[id node] nodes IH]; intros reqs; cbn; [intros [= <-] []%not_elem_of_nil|].
  destruct (nodeRequest docker cfg id node) as [req|] eqn:Hr; [|done].
  destruct (nodeRequests docker cfg nodes) as [l|] eqn:Hl; [|done]. cbn. intros [= <-] [->|Hin]%elem_of_cons.
  - unfold nodeRequest in Hr. apply addAllocations_node in Hr as [-> ->]. exists node. cbn. split; [left|done].
  - destruct (IH l eq_refl Hin) as (node' & ? & ?). exists node'. split; [by right|done].
Qed.

Lemma set_signature_twice b s s' : set_bid_Signature (set_bid_Signature b s) s' = set_bid_Signature b s'.
Proof. done. Qed.

Lemma signed_validates sign key b s :
  Bid_Sign sign b = Some s → peer_key (bid_Peer b) = Some key →
  (∀ data sig, sign data = Some sig → peer_verify key data sig = Some true) →
  Bid_Validate (mkBid (Some s)) = true ∧ set_bid_Signature s "" = set_bid_Signature b "".
Proof.
  unfold Bid_Sign, Bid_Validate. destruct (Bid_SignatureData b) as [data|] eqn:Hd; [|done].
  destruct (sign data) as [sig|] eqn:Hs; [|done]. intros [= <-] Hk Hv. split; [|done]. cbn. rewrite Hk.
  unfold Bid_SignatureData in *. rewrite set_signature_twice. destruct (marshal_bid _); [|done]. injection Hd as <-.
  by rewrite (Hv _ _ Hs).
Qed.

(** C8: the bid that a node sends in answer to a request of a coordinator, for an ensemble
    without standby nodes, validates, is for the ensemble and for one of its nodes, and
    the coordinator takes it, unless the node is reserved for another peer or the peer for
    another node, the peer is excluded or has bid before, or the node has enough bids. *)
Theorem bid_is_accepted docker cfg eid nonce r env msg req n b n' key sign st :
  buildStandbyNodes (cfg_Nodes cfg) = ∅ →
  ensembleConfigToBidRequest docker eid nonce cfg = Ok r →
  (∀ v, Some v ∈ bm_Request req → v ∈ ebr_Request r) → bm_ID req = eid → (∀ l, be_shuffle env l ≡ₚ l) →
  be_sign env = Some sign → peer_key (nc_hostID cf) = Some key →
  (∀ data sig, sign data = Some sig → peer_verify key data sig = Some true) →
  handleBidRequest peerID peerKey cf env msg (Some req) n = (Ok (Some b), n') →
  ∃ v node, bid_V1 b = Some v ∧ cfg_Nodes cfg !! bid_NodeID v = Some node ∧
    ((node_Peer node = "" ∨ node_Peer node = nc_hostID cf) →
     (∀ m, nodeForTargetPeer cfg !! nc_hostID cf = Some m → m = bid_NodeID v) →
     nc_hostID cf ∉ peerExclusion st → (length (bidsOf st (bid_NodeID v)) < MaxBidMultiplier)%nat →
     ∃ st', collectBids cfg eid 1 [b] 0 st = Ok st' ∧ v ∈ bidsOf st' (bid_NodeID v)).
Proof.
  intros Hsb Hr Hsub Hid Hsh Hsign Hkey Hver (req' & v & sign' & s & a & [= <-] & Hin & _ & Hloc & Hs & Hbs & -> & _)%handleBidRequest_bid.
  rewrite Hsh in Hin. apply Hsub in Hin. simplify_eq.
  unfold ensembleConfigToBidRequest in Hr. destruct (nodeRequests _ _ _) as [reqs|] eqn:Hreqs; [|done]. injection Hr as <-.
  destruct (nodeRequests_node _ _ _ _ _ Hreqs Hin) as (node & Hnode & Hl). rewrite visit_perm, elem_of_map_to_list in Hnode.
  unfold Nodes in Hnode. rewrite Hsb, (left_id_L ∅ (∪)) in Hnode.
  destruct (signed_validates _ key _ _ Hbs Hkey Hver) as [Hval Heq]. destruct s. injection Heq as -> -> -> -> -> -> -> ->.
  eexists _, node. split; [done|]. cbn [bid_NodeID makeBid] in *. split; [done|]. intros Hpin Hres Hex Hlen.
  cbn [collectBids bid_V1]. rewrite Hval. cbn [negb bid_EnsembleID]. rewrite bool_decide_false by auto.
  unfold addBid. cbn [bid_Peer bid_NodeID bid_Location].
  assert (match nodeForTargetPeer cfg !! nc_hostID cf with Some m => bool_decide (m ≠ br_NodeID v) | None => false end = false) as ->.
  { destruct (nodeForTargetPeer cfg !! nc_hostID cf) as [m|] eqn:Hm; [|done]. rewrite (Hres m eq_refl). apply bool_decide_false. auto. }
  rewrite bool_decide_false, Hval by done. cbn [negb].
  assert (Node cfg (br_NodeID v) = Some node) as Hn by (unfold Node; by rewrite Hnode). rewrite Hn.
  assert (acceptPeerLocation cfg (br_NodeID v) (nc_hostID cf) (location cf) = true) as ->.
  { unfold acceptPeerLocation. rewrite Hn. case_bool_decide as Hne; [|by rewrite <- Hl].
    destruct Hpin as [?|?]; [done|by apply bool_decide_true]. }
  cbn [negb]. rewrite (proj2 (Nat.leb_gt _ _)) by done. cbn. eexists. split; [done|].
  unfold bidsOf. cbn. rewrite lookup_insert_eq. cbn. set_solver.
Qed.

(** ** Commitments follow bids *)

(** The bids that were sent, with the time. *)
Definition sent_of (now : Time) (o : outcome () (option Bid)) : list (Time * BidV1) :=
  match o with Ok (Some b) => match bid_V1 b with Some v => [(now, v)] | None => [] end | _ => [] end.

(** What happens at a node; the allocator is also used by others. *)
Inductive node_step (n : BidNode) : list (Time * BidV1) → BidNode → Prop :=
| ns_request env msg request :
    node_step n (sent_of (be_now env) (handleBidRequest peerID peerKey cf env msg request n).1)
      (handleBidRequest peerID peerKey cf env msg request n).2
| ns_sign env promised breq nonce :
    node_step n (sent_of (be_now env) (handleBidSigning cf env promised breq nonce n).1)
      (handleBidSigning cf env promised breq nonce n).2
| ns_gc now : node_step n [] (doGCBidState now n)
| ns_commit ce now req : node_step n [] (handleCommitDeployment ce now req n).2
| ns_revert v eid allocs : node_step n [] (handleDeploymentRevert v eid allocs n).1
| ns_allocator a : node_step n [] (set_bn_allocator n a).

Inductive node_reachable : BidNode → list (Time * BidV1) → Prop :=
| nr_new a : node_reachable (mkBidNode ∅ ∅ a) []
| nr_next n log sent n' : node_reachable n log → node_step n sent n' → node_reachable n' (log ++ sent).

(** Every bid that is remembered was sent, five minutes before it expires. *)
Definition remembered (n : BidNode) (log : list (Time * BidV1)) : Prop :=
  ∀ eid b, bn_bids n !! eid = Some b →
    ∃ t v, (t, v) ∈ log ∧ bid_EnsembleID v = eid ∧ bid_Peer v = nc_hostID cf ∧ bid_Handle v = nc_handle cf ∧
           bs_expire b = time_Add t bidStateTimeout.

Lemma remembered_sub n n' log sent :
  (∀ eid b, bn_bids n' !! eid = Some b → bn_bids n !! eid = Some b) → remembered n log → remembered n' (log ++ sent).
Proof. intros Hsub Hr eid b Hb. destruct (Hr eid b (Hsub _ _ Hb)) as (t & v & ? & ?). exists t, v. set_solver. Qed.

Lemma remembered_store n log now eid nonce req v :
  remembered n log → bid_EnsembleID v = eid → bid_Peer v = nc_hostID cf → bid_Handle v = nc_handle cf →
  remembered (storeBid now eid nonce req n) (log ++ [(now, v)]).
Proof.
  intros Hr He Hp Hh eid' b. cbn. intros [[<- <-]|[_ Hb]]%lookup_insert_Some.
  - exists now, v. split; [set_solver|]. split_and!; done.
  - destruct (Hr eid' b Hb) as (t & v' & ? & ?). exists t, v'. set_solver.
Qed.

Lemma Bid_Sign_same sign b s : Bid_Sign sign b = Some s → ∃ sig, s = set_bid_Signature b sig.
Proof. unfold Bid_Sign. repeat case_match; intros [=]; subst; eauto. Qed.

Lemma commit_bids ce now req n : bn_bids (handleCommitDeployment ce now req n).2 = bn_bids n.
Proof. unfold handleCommitDeployment, commitDeployment. by repeat case_match. Qed.

Lemma reachable_remembered n log : node_reachable n log → remembered n log.
Proof.
  induction 1 as [a|n log sent n' _ IH Hstep]; [intros eid b Hb; cbn in Hb; by rewrite lookup_empty in Hb|].
  destruct Hstep as [env msg request|env promised breq nonce|now|ce now req|v eid allocs|a].
  - destruct (handleBidRequest _ _ _ _ _ _ _) as [o n'] eqn:Hh. cbn.
    assert ((∃ b, o = Ok (Some b)) ∨ ∀ b, o ≠ Ok (Some b)) as [[b ->]|Hno] by (destruct o as [[b|]| |]; [left; eauto|by right..]).
    2: { destruct (handleBidRequest_silent _ _ _ _ _ _ Hh Hno) as [Hb _].
         apply (remembered_sub n); [intros ??; by rewrite Hb|done]. }
    apply handleBidRequest_bid in Hh as (req & v & sign & s & a & _ & _ & _ & _ & _ & Hs & -> & ->).
    apply Bid_Sign_same in Hs as [sig ->]. cbn. by apply remembered_store.
  - unfold handleBidSigning. destruct (bid_V1 promised) as [v|]; [|by apply (remembered_sub n)].
    destruct (be_sign env) as [sign|]; [|by apply (remembered_sub n)].
    destruct (Bid_Sign _ _) as [s|] eqn:Hs; [|by apply (remembered_sub n)].
    apply Bid_Sign_same in Hs as [sig ->]. cbn. by apply remembered_store.
  - apply (remembered_sub n); [|done]. cbn. intros eid b [? _]%map_lookup_filter_Some. done.
  - apply (remembered_sub n); [|done]. intros eid b. by rewrite commit_bids.
  - apply (remembered_sub n); [|done]. unfold handleDeploymentRevert. destruct (revertAllocations _ _ _). cbn.
    intros eid' b [_ ?]%lookup_delete_Some. done.
  - by apply (remembered_sub n).
Qed.

(** C10: whatever requests, signatures, collections, commitments and reverts a node has
    seen, it commits resources to an ensemble only within five minutes of a bid of its own
    for that ensemble. *)
Theorem commit_only_after_bid n log ce now req n' :
  node_reachable n log → handleCommitDeployment ce now req n = (Ok tt, n') →
  ∃ t v, (t, v) ∈ log ∧ bid_EnsembleID v = cq_EnsembleID req ∧ bid_Peer v = nc_hostID cf ∧ bid_Handle v = nc_handle cf ∧
         (now ≤ t + 5 * Minute)%Z.
Proof.
  intros Hr. unfold handleCommitDeployment, commitDeployment, getBid.
  destruct (bn_bids n !! cq_EnsembleID req) as [b|] eqn:Hb; [|done].
  destruct (time_Before (bs_expire b) now) eqn:Ht; [done|]. intros _.
  destruct (reachable_remembered n log Hr _ _ Hb) as (t & v & Hin & He & Hp & Hh & Hx). exists t, v. split_and!; try done.
  unfold time_Before in Ht. rewrite Hx in Ht. unfold time_Add, bidStateTimeout in Ht. lia.
Qed.

(** What is committed need not be what the bid was for: the request of the bid plays no
    role. *)
Theorem commit_ignores_request ce now req n eid b breq :
  bn_bids n !! eid = Some b → cq_EnsembleID req = eid →
  (handleCommitDeployment ce now req (mkBidNode (<[eid := mkBidEntry (bs_expire b) (bs_nonce b) breq]> (bn_bids n)) (bn_answered n) (bn_allocator n))).1 =
  (handleCommitDeployment ce now req n).1.
Proof.
  intros Hb He. unfold handleCommitDeployment, commitDeployment, getBid. cbn. rewrite He, lookup_insert_eq, Hb. cbn.
  destruct (time_Before _ _); [done|]. by destruct (allocator_Commit _ _ _ _ _ _ _ _ _ _ _) as [[] ?].
Qed.

(** ** Nil entries *)

(** A request whose first entry is nil stops the node, whatever it requires of contracts. *)
Theorem nil_entry_panics env msg req n l :
  be_ready env = true → IsBroadcast msg && self cf msg = false → nc_gateway cf = true ∨ be_onboarded env = true →
  bm_Request req = None :: l → (handleBidRequest peerID peerKey cf env msg (Some req) n).1 = Panic.
Proof.
  intros Hr Hs Ho Hreq. unfold handleBidRequest, contractsAllow. rewrite Hr, Hs, Hreq. cbn.
  by destruct Ho as [-> | ->]; rewrite ?andb_false_r.
Qed.

(** ** Edges *)

(** What the nodes answer to the coordinator. *)
Definition node_answer : EdgeConstraint → BidV1 → BidV1 → bool := λ _ _ _, verifyEdgeConstraint true true.

Definition all_refused (cache : gmap string bool) : Prop := ∀ k b, cache !! k = Some b → b = false.

Lemma verify_all_refused c l acc :
  all_refused acc.2 → acc.1 = false ∨ l ≠ [] → (∀ e, e ∈ l → is_Some (c !! edge_S e) ∧ is_Some (c !! edge_T e)) →
  (fold_left (verifyOne node_answer c) l acc).1 = false ∧ all_refused (fold_left (verifyOne node_answer c) l acc).2.
Proof.
  revert acc. induction l as [|e l IH]; intros [ok cache] Hc Hor Hl; cbn; [by destruct Hor|].
  destruct (Hl e) as [[bs Hs] [bt Ht]]; [left|]. unfold verifyOne at 2 4. rewrite Hs, Ht. cbn. apply IH.
  - intros k b Hk. cbn in Hk. apply lookup_insert_Some in Hk as [[_ <-]|[_ ?]]; [done|by eapply Hc].
  - left. cbn. by rewrite andb_false_r.
  - intros e' He'. apply Hl. by right.
Qed.

Lemma edges_refused c cache edges :
  all_refused cache → edges ≠ [] → ∃ r cache', verifyEdgeConstraints node_answer edges c cache = (r, cache') ∧
    r ≠ Ok true ∧ all_refused cache'.
Proof.
  intros Hc Hne. unfold verifyEdgeConstraints.
  destruct (edgesToVerify edges c cache) as [l| |] eqn:He; [|eexists _, _; by split_and!..].
  assert (l = edges ∧ ∀ e, e ∈ edges → is_Some (c !! edge_S e) ∧ is_Some (c !! edge_T e)) as [-> Hl].
  { clear Hne. revert l He. induction edges as [|e edges IH]; intros l; cbn; [intros [= <-]; split; [done|set_solver]|].
    destruct (c !! edge_S e) eqn:Hs; [|done]. destruct (c !! edge_T e) eqn:Ht; [|done].
    destruct (cache !! _) as [b'|] eqn:Hk; [apply Hc in Hk as ->; done|].
    destruct (edgesToVerify edges c cache) as [l'| |]; [|done..]. intros [= <-]. destruct (IH l' eq_refl) as [-> IHe].
    split; [done|]. intros e' [->|?]%elem_of_cons; [by rewrite Hs, Ht|by apply IHe]. }
  destruct (verify_all_refused c (visit edges) (true, cache)) as [Hf Hr]; [done| | |].
  - right. intros Hv. apply Hne. apply Permutation_nil_r. by rewrite <- (visit_perm edges), Hv.
  - intros e. rewrite visit_perm. apply Hl.
  - destruct (fold_left _ _ _) as [ok cache']. cbn in *. subst ok. eexists _, _. by split_and!.
Qed.

(** An ensemble with a constraint between two nodes is never deployed by verification:
    the nodes do not answer the question of the coordinator, so that of as many candidates
    as it may draw none is taken; only the deadline ends the search with a candidate, one
    that was not confirmed. *)
Theorem edges_never_confirmed rtt_ok edges g draw times count cache candidate c :
  edges ≠ [] → all_refused cache → (drawsLeft g count < times)%nat →
  selectCandidate rtt_ok node_answer edges g draw times count cache candidate ≠ Ok c.
Proof.
  intros Hne. revert count cache candidate. induction times as [|times IH]; intros count cache cand Hc Ht; cbn; [lia|].
  destruct (nextCandidate _ _ _ _ _ _) as [[[p|] count']| |] eqn:Hn; try done.
  apply nextCandidate_Some in Hn as (_ & _ & Hcount).
  destruct (edges_refused p cache edges Hc Hne) as (r & cache' & -> & Hr & Hc').
  destruct r as [[]| |]; try done. apply IH; [done|]. apply drawsLeft_next in Hcount. lia.
Qed.
End bids.

(** ** Witnesses *)

#[local] Existing Instance toy_keys.
#[local] Instance node_visit : MapVisit := {| visit A l := l; visit_perm A l := reflexivity l |}.
#[local] Existing Instance sample_BidLib.

Definition athens : NodeConf :=
  mkNodeConf "p1" (mkHandle "" (mkDID "") (mkAddress "p1" "root")) "10.0.0.1" sample_place ∅ false false false.

Definition idle_env (now : Time) : BidEnv :=
  mkBidEnv now true true (Some (machine 10 10 [])) id all_free (λ _, false) (Some (λ _, Some "ok")) (λ _ _, None) (λ _ _, None).

Definition one_node : EnsembleConfigV1 := sample_ensemble [("a", sample_node 0 "")] [] [].

Definition asked : EnsembleBidRequest :=
  match ensembleConfigToBidRequest (λ _, Some false) "e1" 7 one_node with Ok r => r | _ => mkEnsembleBidRequest "" [] 0 [] end.

Definition asked_message : BidMessage := mkBidMessage "e1" (map Some (ebr_Request asked)) 7 [].

Definition from_orchestrator : Envelope :=
  mkEnvelope (nc_handle athens) "" (mkHandle "" (mkDID "") (mkAddress "orch" "root")) 0 (mkOptions 0 "" "") "" "" None.

Definition fresh_node : BidNode := mkBidNode ∅ ∅ sample_allocator.

Definition bid_node (now : Time) : outcome () (option Bid) * BidNode :=
  handleBidRequest Some Some athens (idle_env now) from_orchestrator (Some asked_message) fresh_node.

Lemma bid_is_accepted_witness :
  ∃ b st', (bid_node (time_Unix 100)).1 = Ok (Some b) ∧
    collectBids one_node "e1" 1 [b] 0 (mkBidState ∅ {["p9"]}) = Ok st' ∧ (length (bidsOf st' "a") = 1)%nat.
Proof.
  destruct (bid_is_accepted (Keys := toy_keys) Some Some athens (λ _, Some false) one_node "e1" 7 asked (idle_env (time_Unix 100))
    from_orchestrator asked_message fresh_node
    (match (bid_node (time_Unix 100)).1 with Ok (Some b) => b | _ => mkBid None end) (bid_node (time_Unix 100)).2 "p1" (λ _, Some "ok")
    (mkBidState ∅ {["p9"]})) as (v & node & Hv & Hnode & H).
  - vm_compute. reflexivity.
  - vm_compute. reflexivity.
  - intros v. cbn [bm_Request asked_message]. by intros (v' & [= ->] & Hin)%list_elem_of_fmap.
  - reflexivity.
  - intros l. reflexivity.
  - reflexivity.
  - reflexivity.
  - intros data sig [= <-]. reflexivity.
  - vm_compute. reflexivity.
  - vm_compute in Hv. injection Hv as <-. vm_compute in Hnode. injection Hnode as <-.
    destruct H as (st' & Hst & _); [by left|vm_compute; discriminate|set_solver|vm_compute; lia|].
    eexists _, st'. split; [vm_compute; reflexivity|]. split; [exact Hst|]. vm_compute in Hst. injection Hst as <-. reflexivity.
Defined.

(** A commitment a minute after the bid. *)
Definition sample_request : CommitRequest := mkCommitRequest "e1" "e1_a.web" "e1_a.web" (machine 4 4 []) ∅ 0.

Lemma commit_only_after_bid_witness :
  ∃ t v, (t, v) ∈ sent_of (time_Unix 100) (bid_node (time_Unix 100)).1 ∧ bid_EnsembleID v = "e1" ∧ (time_Unix 160 ≤ t + 5 * Minute)%Z.
Proof.
  destruct (commit_only_after_bid (Keys := toy_keys) Some Some athens (bid_node (time_Unix 100)).2
    ([] ++ sent_of (time_Unix 100) (bid_node (time_Unix 100)).1) (mkCommitEnv idle all_free all_free all_free) (time_Unix 160) sample_request
    (handleCommitDeployment (mkCommitEnv idle all_free all_free all_free) (time_Unix 160) sample_request (bid_node (time_Unix 100)).2).2)
    as (t & v & Hin & He & _ & _ & Ht).
  - eapply nr_next; [apply nr_new|apply (ns_request (Keys := toy_keys) Some Some athens fresh_node (idle_env (time_Unix 100)))].
  - vm_compute. reflexivity.
  - exists t, v. split; [exact Hin|]. split; [exact He|exact Ht].
Defined.

(** Two nodes with one bid each and an edge between them. *)
Definition two_bids : gmap string (list BidV1) := {["a" := [sample_bidder "a" "p1"]; "b" := [sample_bidder "b" "p2"]]}.

Lemma edges_never_confirmed_witness :
  selectCandidate sample_rtt node_answer [mkEdge "a" "b" 10 0] (makeCandidateDeploymentSmall two_bids) id 2 0 ∅ ∅ =
  Err ErrCandidateNotFound.
Proof.
  destruct (selectCandidate sample_rtt node_answer [mkEdge "a" "b" 10 0] (makeCandidateDeploymentSmall two_bids) id 2 0 ∅ ∅)
    as [c| |] eqn:H; [|vm_compute in H; congruence|vm_compute in H; discriminate].
  destruct (edges_never_confirmed sample_rtt [mkEdge "a" "b" 10 0] (makeCandidateDeploymentSmall two_bids) id 2 0 ∅ ∅ c);
    [discriminate|by intros k b; rewrite lookup_empty|vm_compute; lia|exact H].
Defined.
