(* ===== verification/ConfigTree.v ===== *)
(** * Trees of configuration (dms/jobs/parser/tree, utils and validate)

    A configuration is what the YAML decoder leaves in an [any]: scalars, lists and maps by
    string.  Paths name its parts, patterns name sets of paths.  The graph of dependencies
    is searched for cycles by depth-first search. *)

From Stdlib Require Import SpecFloat Ascii.
From stdpp Require Import relations.
From S2P Require Import Prelude GoStrings GoNumbers ResourceManager GoTime GoText.

(** A value of type [any].  The fields of a map are in the order of a range over it, each key
    once.  [VOther] stands for a type the parser does not look into. *)
Inductive value :=
| VNil
| VBool (b : bool)
| VInt (n : Z)
| VUint (n : Z)
| VUint64 (n : Z)
| VFloat (x : float64)
| VString (s : string)
| VDuration (d : Duration)
| VBytes (s : string)
| VStrings (l : list string)
| VList (l : list value)
| VMap (m : list (string * value))
| VOther.

Abbreviation fields := (list (string * value)).

(** ** Type assertions *)

Definition as_map (v : value) : option fields := match v with VMap m => Some m | _ => None end.
Definition as_list (v : value) : option (list value) := match v with VList l => Some l | _ => None end.
Definition as_string (v : value) : option string := match v with VString s => Some s | _ => None end.
Definition as_int (v : value) : option Z := match v with VInt n => Some n | _ => None end.
Definition is_nil (v : value) : bool := match v with VNil => true | _ => false end.

(** ** Maps *)

Fixpoint field (m : fields) (k : string) : option value :=
  match m with [] => None | (k', v) :: m => if bool_decide (k' = k) then Some v else field m k end.

(** [m[k]] is nil when there is no such key. *)
Definition index (m : fields) (k : string) : value := default VNil (field m k).

Fixpoint setField (m : fields) (k : string) (v : value) : fields :=
  match m with
  | [] => [(k, v)]
  | (k', v') :: m => if bool_decide (k' = k) then (k, v) :: m else (k', v') :: setField m k v
  end.

Fixpoint removeField (m : fields) (k : string) : fields :=
  match m with [] => [] | (k', v) :: m => if bool_decide (k' = k) then m else (k', v) :: removeField m k end.

Definition mapField (m : fields) (k : string) : option fields := as_map (index m k).
Definition listField (m : fields) (k : string) : option (list value) := as_list (index m k).
Definition stringField (m : fields) (k : string) : option string := as_string (index m k).

(** ** Paths *)

Definition Path : Type := string.

Definition configPathSeparator : string := ".".
Definition configPathMatchAny : string := "*".
Definition configPathMatchAnyMultiple : string := "**".
Definition configPathList : string := "[]".

Definition NewPath (path : list string) : Path := Join path configPathSeparator.

Definition Parts (p : Path) : list string := Split p configPathSeparator.

Definition Parent (p : Path) : Path :=
  let parts := Parts p in
  if (1 <? length parts)%nat then Join (take (length parts - 1) parts) configPathSeparator else "".

Definition Next (p : Path) (path : string) : Path :=
  if bool_decide (path = "") then p
  else if bool_decide (p = "") then path
  else p +:+ configPathSeparator +:+ path.

Definition Last (p : Path) : string := default "" (last (Parts p)).

(** The longest prefix that ends with [key]. *)
Fixpoint findParent (key : string) (rev : list string) : Path :=
  match rev with
  | [] => ""
  | part :: rest =>
      if bool_decide (part = key) then Join (reverse rev) configPathSeparator else findParent key rest
  end.

Definition FindParentWithKey (p : Path) (key : string) : Path :=
  if bool_decide (p = "") || bool_decide (key = "") then "" else findParent key (reverse (Parts p)).

(** [part[0] != '[' || part[len(part)-1] != ']'], which panics on an empty part. *)
Fixpoint lastChar (s : string) : option ascii :=
  match s with EmptyString => None | String c EmptyString => Some c | String _ s => lastChar s end.

Definition inBrackets (part : string) : outcome () bool :=
  match part with
  | EmptyString => Panic
  | String c _ => Ok (bool_decide (c = "["%char) && bool_decide (lastChar part = Some "]"%char))
  end.

(** The loop of [matchParts] from some index on, and its call on a suffix of both lists. *)
Fixpoint matchFrom (patternParts pathParts : list string) {struct patternParts} : outcome () bool :=
  match patternParts with
  | [] => Ok true
  | part :: rest =>
      match pathParts with
      | [] => Panic
      | p :: ps =>
          let next := if bool_decide (rest = []) && negb (bool_decide (ps = [])) then Ok false else matchFrom rest ps in
          if bool_decide (part = configPathMatchAnyMultiple) then
            if bool_decide (rest = []) then Ok true
            else (fix search path :=
                    match path with
                    | [] => next
                    | _ :: path' =>
                        match (if (length path <? length rest)%nat then Ok false else matchFrom rest path) with
                        | Ok true => Ok true
                        | Ok false => search path'
                        | r => r
                        end
                    end) pathParts
          else if bool_decide (part = configPathList) then
            match inBrackets p with
            | Ok true => next
            | r => r
            end
          else if negb (bool_decide (part = configPathMatchAny)) && negb (EqualFold part p) then Ok false
          else next
      end
  end.

Definition matchParts (pathParts patternParts : list string) : outcome () bool :=
  if (length pathParts <? length patternParts)%nat then Ok false else matchFrom patternParts pathParts.

Definition Matches (p pattern : Path) : outcome () bool := matchParts (Parts p) (Parts pattern).

(** ** Reading a part *)

Inductive path_error := ErrKeyNotFound | ErrInvalidIndex | ErrIndexOutOfRange | ErrInvalidTypeAtPath.

(** [key[1 : len(key)-1]] of a key in brackets. *)
Fixpoint dropLast (s : string) : string :=
  match s with EmptyString | String _ EmptyString => EmptyString | String c s => String c (dropLast s) end.

Definition listIndex (key : string) : option Z :=
  match key with
  | String c r =>
      if (String.length key <? 3)%nat || negb (bool_decide (c = "["%char)) || negb (bool_decide (lastChar key = Some "]"%char))
      then None else Atoi (dropLast r)
  | EmptyString => None
  end.

Fixpoint getAt (parts : list string) (current : value) : outcome path_error value :=
  match parts with
  | [] => Ok current
  | key :: parts =>
      match current with
      | VMap m =>
          match field m key with
          | Some v => getAt parts v
          | None => match field m (string_lower key) with Some v => getAt parts v | None => Err ErrKeyNotFound end
          end
      | VList l =>
          match listIndex key with
          | None => Err ErrInvalidIndex
          | Some i =>
              if (i <? 0)%Z || (Z.of_nat (length l) <=? i)%Z then Err ErrIndexOutOfRange
              else match l !! Z.to_nat i with Some v => getAt parts v | None => Err ErrIndexOutOfRange end
          end
      | _ => Err ErrInvalidTypeAtPath
      end
  end.

Definition GetConfigAtPath (config : value) (path : Path) : outcome path_error value := getAt (Parts path) config.

(** ** Graphs of dependencies *)

(** What [depends_on] of one entry adds: nothing when no string is listed. *)
Definition neighboursAt (path : Path) (v : value) : option (list string) :=
  match GetConfigAtPath v path with
  | Ok (VStrings l) => Some l
  | Ok (VList l) => match omap as_string l with [] => None | l => Some l end
  | Ok (VString s) => Some [s]
  | _ => None
  end.

Fixpoint CreateAdjencyList (m : fields) (path : Path) : gmap string (list string) :=
  match m with
  | [] => ∅
  | (k, v) :: m =>
      match neighboursAt path v with
      | Some l => <[k := l]> (CreateAdjencyList m path)
      | None => CreateAdjencyList m path
      end
  end.

(** The two maps of the search as the sets of their true entries. *)
Record marks := mkMarks { visited : gset string; recursionStack : gset string }.

(** [None] when [fuel] does not suffice. *)
Fixpoint hasCycle (fuel : nat) (adj : gmap string (list string)) (node : string) (st : marks) : option (bool * marks) :=
  match fuel with
  | O => None
  | S fuel =>
      if bool_decide (node ∈ recursionStack st) then Some (true, st)
      else if bool_decide (node ∈ visited st) then Some (false, st)
      else
        (fix each neighbours st :=
           match neighbours with
           | [] => Some (false, mkMarks (visited st) (recursionStack st ∖ {[node]}))
           | neighbour :: rest =>
               match hasCycle fuel adj neighbour st with
               | Some (false, st) => each rest st
               | r => r
               end
           end) (default [] (adj !! node)) (mkMarks ({[node]} ∪ visited st) ({[node]} ∪ recursionStack st))
  end.

Fixpoint detectFrom (fuel : nat) (adj : gmap string (list string)) (nodes : list string) (st : marks) : option bool :=
  match nodes with
  | [] => Some false
  | node :: nodes =>
      if bool_decide (node ∈ visited st) then detectFrom fuel adj nodes st
      else match hasCycle fuel adj node st with
           | Some (true, _) => Some true
           | Some (false, st) => detectFrom fuel adj nodes st
           | None => None
           end
  end.

(** The vertices: the keys and all that they name. *)
Definition vertices (adj : gmap string (list string)) : gset string :=
  dom adj ∪ list_to_set (concat (map snd (map_to_list adj))).

(** A call either ends at once or marks one more vertex, so that their number plus one is
    enough; see [DetectCycles_exact]. *)
Definition DetectCycles `{MapVisit} (adj : gmap string (list string)) : option bool :=
  detectFrom (S (size (vertices adj))) adj (visit (map fst (map_to_list adj))) (mkMarks ∅ ∅).

(** ** Correctness of the search for cycles and of patterns

    [DetectCycles] is exact; a pattern matches the paths whose parts match its parts one by
    one. *)

(** ** The search for cycles *)

Lemma tc_first {A} (R : relation A) x z : tc R x z → ∃ y, R x y ∧ rtc R y z.
Proof. destruct 1 as [x z H|x y z H Ht]; [exists z; split; [done|apply rtc_refl]|exists y; split; [done|by apply tc_rtc]]. Qed.

Section cycles.
  Context (adj : gmap string (list string)).

Definition edge (x y : string) : Prop := y ∈ default [] (adj !! x).

Definition done (st : marks) : gset string := visited st ∖ recursionStack st.

(** What is done is closed under edges and has no cycle. *)
Record Search (st : marks) : Prop := {
  search_stack : recursionStack st ⊆ visited st;
  search_closed : ∀ x y, x ∈ done st → edge x y → y ∈ done st;
  search_acyclic : ∀ x, x ∈ done st → ¬ tc edge x x
}.

Lemma done_reaches st x y : Search st → x ∈ done st → tc edge x y → y ∈ done st.
Proof. intros Hs Hx Ht. induction Ht; [|apply IHHt]; by eapply search_closed. Qed.

(** A visit that finds no cycle leaves the stack as it was and its vertex done. *)
Definition finds_none (node : string) (st st' : marks) : Prop :=
  Search st' ∧ recursionStack st' = recursionStack st ∧ visited st ⊆ visited st' ∧ node ∈ done st'.

(** The inner loop of [hasCycle]. *)
Fixpoint eachNeighbour (fuel : nat) (node : string) (neighbours : list string) (st : marks) : option (bool * marks) :=
  match neighbours with
  | [] => Some (false, mkMarks (visited st) (recursionStack st ∖ {[node]}))
  | neighbour :: rest =>
      match hasCycle fuel adj neighbour st with
      | Some (false, st) => eachNeighbour fuel node rest st
      | r => r
      end
  end.

Lemma hasCycle_S fuel node st :
  hasCycle (S fuel) adj node st =
  if bool_decide (node ∈ recursionStack st) then Some (true, st)
  else if bool_decide (node ∈ visited st) then Some (false, st)
  else eachNeighbour fuel node (default [] (adj !! node)) (mkMarks ({[node]} ∪ visited st) ({[node]} ∪ recursionStack st)).
Proof.
  cbn [hasCycle]. repeat case_match; try done. generalize (mkMarks ({[node]} ∪ visited st) ({[node]} ∪ recursionStack st)).
  induction (default [] (adj !! node)) as [|n ns IH]; intros m; cbn; [done|].
  destruct (hasCycle fuel adj n m) as [[[] ?]|]; auto.
Qed.

Lemma search_enter node st :
  Search st → node ∉ visited st → Search (mkMarks ({[node]} ∪ visited st) ({[node]} ∪ recursionStack st)).
Proof.
  intros [H1 H2 H3] Hn.
  assert (∀ x, x ∈ done (mkMarks ({[node]} ∪ visited st) ({[node]} ∪ recursionStack st)) ↔ x ∈ done st) as Hd.
  { intros x. unfold done. cbn. set_solver. }
  split; [cbn; set_solver| |]; intros x; setoid_rewrite Hd; eauto.
Qed.

(** When all neighbours are done, so is the vertex. *)
Lemma search_leave node st :
  Search st → node ∈ recursionStack st → (∀ y, edge node y → y ∈ done st) →
  Search (mkMarks (visited st) (recursionStack st ∖ {[node]})).
Proof.
  intros Hs Hn Hy. pose proof Hs as [H1 H2 H3].
  assert (Hd : ∀ x, x ∈ done (mkMarks (visited st) (recursionStack st ∖ {[node]})) ↔ x ∈ done st ∨ x = node).
  { intros x. unfold done. cbn. destruct (decide (x = node)); set_solver. }
  split; [cbn; set_solver|intros x y; rewrite !Hd; intros [Hx| ->] He; left; eauto|].
  intros x [Hx| ->]%Hd; [by apply H3|]. intros Ht. destruct (tc_first _ _ _ Ht) as (y & He & Hr).
  assert (node ∈ done st) as Hdone; [|unfold done in Hdone; set_solver].
  apply Hy in He. apply rtc_tc in Hr as [<-|Hr]; [done|by eapply done_reaches].
Qed.

Lemma eachNeighbour_none fuel node ns st st' :
  (∀ n st st', Search st → hasCycle fuel adj n st = Some (false, st') → finds_none n st st') →
  Search st → node ∈ recursionStack st → (∀ y, edge node y → y ∈ done st ∨ y ∈ ns) →
  eachNeighbour fuel node ns st = Some (false, st') →
  Search st' ∧ recursionStack st' = recursionStack st ∖ {[node]} ∧ visited st ⊆ visited st'.
Proof.
  intros IH. revert st. induction ns as [|n ns IHns]; intros st Hs Hn Hy; cbn [eachNeighbour].
  - intros [= <-]. cbn. split_and!; [|done..]. apply search_leave; [done..|]. intros y He. destruct (Hy y He) as [|H]; [done|by apply elem_of_nil in H].
  - destruct (hasCycle fuel adj n st) as [[[] st1]|] eqn:Hc; try done. intros He.
    destruct (IH _ _ _ Hs Hc) as (Hs1 & Hst & Hv & Hdn). destruct (IHns st1) as (? & Hst' & ?); [done|by rewrite Hst| |done|].
    + intros y Hyy. destruct (Hy y Hyy) as [H|[-> |H]%elem_of_cons]; [left; unfold done in *; set_solver|by left|by right].
    + split_and!; [done|by rewrite Hst', Hst|by etrans].
Qed.

Lemma hasCycle_none fuel node st st' : Search st → hasCycle fuel adj node st = Some (false, st') → finds_none node st st'.
Proof.
  revert node st st'. induction fuel as [|fuel IH]; intros node st st' Hs; [done|]. rewrite hasCycle_S.
  case_bool_decide as Hst; [done|]. case_bool_decide as Hv.
  { intros [= <-]. split_and!; [done..|]. unfold done. set_solver. }
  intros He. apply eachNeighbour_none in He as (Hs' & Hst' & Hvis).
  - cbn in *. split_and!; [done|rewrite Hst'; set_solver|set_solver|]. unfold done. rewrite Hst'. set_solver.
  - intros n st0 st0'. apply IH.
  - by apply search_enter.
  - cbn. set_solver.
  - intros y Hy. by right.
Qed.

(** A cycle is reported only when the stack leads to the vertex and back. *)
Lemma hasCycle_true fuel node st st' :
  (∀ x, x ∈ recursionStack st → tc edge x node) → Search st → hasCycle fuel adj node st = Some (true, st') →
  ∃ x, tc edge x x.
Proof.
  revert node st st'. induction fuel as [|fuel IH]; intros node st st' Hp Hs; [done|]. rewrite hasCycle_S.
  case_bool_decide as Hst; [intros _; exists node; by apply Hp|]. case_bool_decide as Hv; [done|].
  set (st0 := mkMarks _ _). assert (Search st0) as Hs0 by by apply search_enter.
  assert (Hp0 : ∀ x y, x ∈ recursionStack st0 → edge node y → tc edge x y).
  { intros x y Hx He. cbn in Hx. apply elem_of_union in Hx as [->%elem_of_singleton|Hx]; [by apply tc_once|].
    eapply tc_r; [by apply Hp|done]. }
  assert (Hns : ∀ y, y ∈ default [] (adj !! node) → edge node y) by done.
  revert Hns. clearbody st0. revert st0 Hs0 Hp0.
  induction (default [] (adj !! node)) as [|n ns IHns]; intros st0 Hs0 Hp0 Hns; cbn [eachNeighbour]; [done|].
  destruct (hasCycle fuel adj n st0) as [[[] st1]|] eqn:Hc; try done.
  - intros _. eapply IH; [|done..]. intros x Hx. apply Hp0; [done|]. apply Hns. left.
  - destruct (hasCycle_none _ _ _ _ Hs0 Hc) as (Hs1 & Hst1 & _ & _). apply IHns; [done| |].
    + intros x y. rewrite Hst1. apply Hp0.
    + intros y Hy. apply Hns. by right.
Qed.

(** One unit of fuel per unvisited vertex is enough. *)
Lemma hasCycle_fuel U fuel node st :
  (∀ x y, edge x y → y ∈ U) → node ∈ U → Search st → (size (U ∖ visited st) < fuel)%nat →
  is_Some (hasCycle fuel adj node st).
Proof.
  intros HU. revert node st. induction fuel as [|fuel IH]; intros node st Hn Hs Hf; [lia|]. rewrite hasCycle_S.
  case_bool_decide as Hst; [done|]. case_bool_decide as Hv; [done|].
  set (st0 := mkMarks _ _). assert (Search st0) as Hs0 by by apply search_enter.
  assert (Hf0 : (size (U ∖ visited st0) < fuel)%nat).
  { assert (size (U ∖ visited st0) < size (U ∖ visited st))%nat; [|lia]. apply subset_size. cbn. split; [set_solver|].
    intros H. assert (node ∈ U ∖ ({[node]} ∪ visited st)) by set_solver. set_solver. }
  assert (Hns : ∀ y, y ∈ default [] (adj !! node) → edge node y) by done.
  revert Hns. clearbody st0. revert st0 Hs0 Hf0.
  induction (default [] (adj !! node)) as [|n ns IHns]; intros st0 Hs0 Hf0 Hns; cbn [eachNeighbour]; [done|].
  destruct (IH n st0) as [[b st1] Hc]; [eapply HU, Hns; left|done..|]. rewrite Hc. destruct b; [done|].
  destruct (hasCycle_none _ _ _ _ Hs0 Hc) as (Hs1 & _ & Hv1 & _). apply IHns; [done| |].
  - eapply Nat.le_lt_trans; [|exact Hf0]. apply subseteq_size. set_solver.
  - intros y Hy. apply Hns. by right.
Qed.

Lemma edge_vertices x y : edge x y → x ∈ vertices adj ∧ y ∈ vertices adj.
Proof.
  unfold edge, vertices. destruct (adj !! x) as [l|] eqn:Hx; cbn; [|by intros ?%elem_of_nil]. intros Hy. split.
  - apply elem_of_union_l, elem_of_dom. by eexists.
  - apply elem_of_union_r, elem_of_list_to_set, list_elem_of_In, in_concat. exists l. split; [|by apply list_elem_of_In].
    apply in_map_iff. exists (x, l). split; [done|]. by apply list_elem_of_In, elem_of_map_to_list.
Qed.

Lemma detectFrom_exact fuel nodes st :
  (size (vertices adj) < fuel)%nat → (∀ x, x ∈ nodes → x ∈ vertices adj) → Search st → recursionStack st = ∅ →
  (∀ x y, edge x y → x ∈ visited st ∨ x ∈ nodes) →
  ∃ b, detectFrom fuel adj nodes st = Some b ∧ (b = true ↔ ∃ x, tc edge x x).
Proof.
  intros Hf. revert st. induction nodes as [|n nodes IH]; intros st Hn Hs Hst Hc; cbn [detectFrom].
  - exists false. split; [done|]. split; [done|]. intros [x Ht]. destruct (tc_first _ _ _ Ht) as (y & He & _).
    destruct (Hc _ _ He) as [Hv|H]; [|by apply elem_of_nil in H].
    exfalso. eapply search_acyclic; [done| |done]. unfold done. rewrite Hst. set_solver.
  - case_bool_decide as Hv.
    { apply IH; [intros x Hx; apply Hn; by right|done..|]. intros x y He. destruct (Hc _ _ He) as [?|[-> |?]%elem_of_cons]; auto. }
    destruct (hasCycle_fuel (vertices adj) fuel n st) as [[b st1] Hr]; [intros x y He; by apply edge_vertices in He as [_ ?]|apply Hn; left|done| |].
    { eapply Nat.le_lt_trans; [|exact Hf]. apply subseteq_size. set_solver. }
    rewrite Hr. destruct b.
    + exists true. split; [done|]. split; [|done]. intros _. eapply hasCycle_true; [|done..]. rewrite Hst. set_solver.
    + destruct (hasCycle_none _ _ _ _ Hs Hr) as (Hs1 & Hst1 & Hv1 & Hd). apply IH; [intros x Hx; apply Hn; by right|done|by rewrite Hst1| ].
      intros x y He. destruct (Hc _ _ He) as [?|[-> |?]%elem_of_cons]; [left; set_solver|left; unfold done in Hd; set_solver|by right].
Qed.
End cycles.

Lemma DetectCycles_spec `{MapVisit} adj :
  ∃ b, DetectCycles adj = Some b ∧ (b = true ↔ ∃ x, tc (edge adj) x x).
Proof.
  apply detectFrom_exact; [lia| | |done|].
  - intros x. rewrite visit_perm. intros ([k l] & -> & Hin)%list_elem_of_fmap. apply elem_of_map_to_list in Hin.
    apply elem_of_union_l, elem_of_dom. by eexists.
  - split; cbn; set_solver.
  - intros x y He. right. rewrite visit_perm. unfold edge in He. destruct (adj !! x) as [l|] eqn:Hx; cbn in He; [|by apply elem_of_nil in He].
    apply list_elem_of_fmap. exists (x, l). split; [done|]. by apply elem_of_map_to_list.
Qed.

(** The search for cycles ends for every graph, in whatever order its map is visited,
    and reports a cycle exactly when some vertex leads back to itself. *)
Theorem DetectCycles_exact `{MapVisit} adj :
  ∃ b, DetectCycles adj = Some b ∧ (b = true ↔ ∃ x, tc (edge adj) x x).
Proof. apply DetectCycles_spec. Qed.
