(* ===== verification/SpecValidator.v ===== *)
(** * Validation of an ensemble (dms/jobs/parser/validate and ensemblev1/validate.go)

    The validators of the parts of a specification and the walk that applies them.  An error
    is the text of its format.  The root is the whole configuration; what the validator of
    resources rewrites in it are numbers that no validator reads. *)

From Stdlib Require Import SpecFloat Ascii.
From S2P Require Import Prelude GoStrings GoNumbers GoText GoTime ResourceManager ConfigTree.
Open Scope go_scope.

Definition spec_error : Type := string.

Definition require (b : bool) (e : spec_error) : outcome spec_error () := if b then Ok () else Err e.

Fixpoint each {A E} (f : A → outcome E ()) (l : list A) : outcome E () :=
  match l with [] => Ok () | x :: l => let? _ := f x in each f l end.

Definition defaultAllocationFailureStrategy : string := "stay_down".
Definition defaultNodeFailureStrategy : string := "stay_down".
Definition validEscalationStrategies : list string := ["redeploy"; "teardown"].
Definition validAllocationFailureStrategies : list string := ["stay_down"; "one_for_one"; "one_for_all"; "rest_for_one"].
Definition validNodeFailureStrategies : list string := ["stay_down"; "restart"; "redeploy"].

Definition oneOf (l : list string) (s : string) : bool := bool_decide (s ∈ l).

(** [v, ok := m[k].(string); !ok || v == ""] is refused. *)
Definition nonEmpty (m : fields) (k : string) : bool :=
  match stringField m k with Some s => negb (bool_decide (s = "")) | None => false end.

(** [v, ok := m[k].(string); ok && v == ""] is refused. *)
Definition notEmptyIfGiven (m : fields) (k : string) : bool :=
  match stringField m k with Some s => negb (bool_decide (s = "")) | None => true end.

Definition opt {A E} (o : option A) (f : A → outcome E ()) : outcome E () :=
  match o with Some x => f x | None => Ok () end.

(** ** The root *)

(** The loop over the allocations, with the names and the DNS names seen so far. *)
Fixpoint validateNames (allocs : fields) (names dnsNames : gset string) : outcome spec_error () :=
  match allocs with
  | [] => Ok ()
  | (allocName, raw) :: allocs =>
      let? _ := require (IsDNSNameValid allocName) "invalid allocation name, must be a valid hostname" in
      let lower := string_lower allocName in
      let? _ := require (negb (bool_decide (lower ∈ names))) "duplicate allocation names found" in
      let names := {[lower]} ∪ names in
      match as_map raw with
      | None => validateNames allocs names dnsNames
      | Some config =>
          match stringField config "dns_name" with
          | None | Some "" => validateNames allocs names dnsNames
          | Some dnsName =>
              let? _ := require (negb (bool_decide (dnsName ∈ dnsNames))) "duplicate dns_name found" in
              validateNames allocs names ({[dnsName]} ∪ dnsNames)
          end
      end
  end.

Definition containsName (l : list value) (name : string) : bool :=
  existsb (λ v, bool_decide (as_string v = Some name)) l.

(** The dependencies of one allocation that is on a node. *)
Definition checkDependencies (allocs : fields) (nodeAllocs : list value) (allocName : string) : outcome spec_error () :=
  match mapField allocs allocName with
  | None => Ok ()
  | Some config =>
      match listField config "depends_on" with
      | None => Ok ()
      | Some dependencies =>
          each (λ dep, opt (as_string dep) (λ depName,
            require (containsName nodeAllocs depName) "dependent allocations must be in the same node")) dependencies
      end
  end.

(** The allocations of one node; [placed] are those assigned so far. *)
Fixpoint placeAllocations (allocs : fields) (nodeAllocs l : list value) (placed : gset string)
    : outcome spec_error (gset string) :=
  match l with
  | [] => Ok placed
  | alloc :: l =>
      match as_string alloc with
      | None => placeAllocations allocs nodeAllocs l placed
      | Some allocName =>
          let? _ := require (negb (bool_decide (allocName ∈ placed))) "an allocation can only be assigned to one node" in
          let? _ := checkDependencies allocs nodeAllocs allocName in
          placeAllocations allocs nodeAllocs l ({[allocName]} ∪ placed)
      end
  end.

Fixpoint placeNodes (allocs nodes : fields) (placed : gset string) : outcome spec_error () :=
  match nodes with
  | [] => Ok ()
  | (_, config) :: nodes =>
      match as_map config with
      | None => placeNodes allocs nodes placed
      | Some node =>
          match listField node "allocations" with
          | None => placeNodes allocs nodes placed
          | Some nodeAllocs =>
              let? placed := placeAllocations allocs nodeAllocs nodeAllocs placed in placeNodes allocs nodes placed
          end
      end
  end.

(** [None] stands for a search for cycles that does not end; see [DetectCycles_exact]. *)
Definition ValidateSpec `{MapVisit} (data : value) : outcome spec_error () :=
  match as_map data with
  | None => Err "invalid spec configuration"
  | Some spec =>
      let? _ := opt (stringField spec "escalation_strategy")
                  (λ es, require (oneOf validEscalationStrategies es) "invalid escalation_strategy") in
      match mapField spec "allocations" with
      | None | Some [] => Err "at least one allocation must be defined"
      | Some allocs =>
          let? _ := validateNames allocs ∅ ∅ in
          match DetectCycles (CreateAdjencyList allocs (NewPath ["depends_on"])) with
          | None => Panic
          | Some true => Err "cyclic dependencies detected in allocations"
          | Some false =>
              let? _ := opt (listField spec "edges") (λ edges,
                require (bool_decide (edges = []) || negb (is_nil (index spec "nodes")))
                  "nodes must be defined when edge_constraints are present") in
              opt (mapField spec "nodes") (λ nodes, placeNodes allocs nodes ∅)
          end
      end
  end.

(** ** Allocations *)

Definition KeySSH : string := "ssh".
Definition KeyGPG : string := "gpg".

Definition validateKey (key : value) : outcome spec_error () :=
  match as_map key with
  | None => Err "invalid allocation key spec: must be a map"
  | Some m =>
      match stringField m "type" with
      | None | Some "" => Err "allocation key spec must have a type"
      | Some keyType =>
          let? _ := require (bool_decide (KeySSH = keyType) || bool_decide (KeyGPG = keyType)) "key has invalid type" in
          let? _ := require (nonEmpty m "file") "allocation key is empty" in
          require (nonEmpty m "dest" || bool_decide (KeySSH = keyType)) "allocation key is missing a destination"
      end
  end.

(** [cfg, err := GetConfigAtPath(root, path); err != nil || cfg == nil], then the map. *)
Definition rootMap (root : value) (path : Path) (undefined invalid : spec_error) : outcome spec_error fields :=
  match GetConfigAtPath root path with
  | Err _ | Ok VNil => Err undefined
  | Panic => Panic
  | Ok v => match as_map v with Some m => Ok m | None => Err invalid end
  end.

Definition has (m : fields) (k : string) : bool := match field m k with Some _ => true | None => false end.

(** References by name into a map of the root. *)
Definition checkReferences (m : fields) (invalid missing : spec_error) (l : list value) : outcome spec_error () :=
  each (λ v, match as_string v with None => Err invalid | Some s => require (has m s) missing end) l.

Definition checkDependsOn (root : value) (path : Path) (dependsOn : value) : outcome spec_error () :=
  match as_list dependsOn with
  | None => Err "depends_on must be a list of allocation names"
  | Some l =>
      let allocs := match GetConfigAtPath root "V1.allocations" with Ok v => default [] (as_map v) | _ => [] end in
      each (λ v, match as_string v with
                 | None => Err "depends_on must be a list of allocation names"
                 | Some dep =>
                     let? _ := require (bool_decide (dep = "") || negb (bool_decide (Last path = dep)))
                                 "depends_on must not refer to itself" in
                     require (negb (is_nil (index allocs dep))) "depends_on allocation not found"
                 end) l
  end.

Definition ValidateAllocation (root data : value) (path : Path) : outcome spec_error () :=
  match as_map data with
  | None => Err "invalid allocation configuration"
  | Some allocation =>
      let? _ := require (negb (is_nil (index allocation "execution"))) "allocation must have an execution" in
      let? _ := require (negb (is_nil (index allocation "resources"))) "allocation must have resources" in
      match stringField allocation "executor" with
      | None | Some "" => Err "allocation must have an executor"
      | Some executor =>
          match mapField allocation "execution" with
          | None => Err "invalid execution configuration"
          | Some execution =>
              match stringField execution "type" with
              | None | Some "" => Err "execution must have a type"
              | Some execType =>
                  let? _ := require (bool_decide (executor = execType)) "allocation executor type must match execution type" in
                  let? _ := require (nonEmpty allocation "type") "allocation must have a type (service or task)" in
                  let? _ := opt (stringField allocation "dns_name") (λ dnsName,
                    let? _ := require (negb (bool_decide (dnsName = ""))) "dns_name cannot be empty if specified" in
                    require (IsDNSNameValid dnsName) "invalid dns_name format") in
                  let? _ := match stringField allocation "failure_recovery" with
                            | None => Err "failure_recovery must be specified for allocation"
                            | Some r => require (oneOf validAllocationFailureStrategies r) "invalid failure_recovery"
                            end in
                  let? _ := opt (field allocation "depends_on") (checkDependsOn root path) in
                  let? _ := opt (listField allocation "keys") (each validateKey) in
                  opt (listField allocation "provision") (λ provision,
                    if bool_decide (provision = []) then Ok () else
                    let? scripts := rootMap root (NewPath ["V1.scripts"]) "scripts must be defined when provision is defined"
                                      "invalid scripts configuration" in
                    checkReferences scripts "invalid script reference" "referenced script not found" provision)
              end
          end
      end
  end.

(** ** Resources *)

(** [uint64(x)] for a float in range is its integer part; what another one gives is up to
    the processor. *)
Definition uint64_of_float (wild : float64 → Z) (x : float64) : Z :=
  match x with
  | S754_zero _ => 0%Z
  | S754_finite false m e =>
      let n := if (0 <=? e)%Z then (Zpos m * 2 ^ e)%Z else (Zpos m / 2 ^ (- e))%Z in
      if (n <? 2 ^ 64)%Z then n else wild x
  | _ => wild x
  end.

(** Not a number is not less or equal zero, and passes. *)
Definition ToPositiveFloat64 (v : value) : outcome spec_error float64 :=
  let? result := match v with
                 | VFloat x => Ok x
                 | VInt n | VUint n | VUint64 n => Ok (f64_of_Z n)
                 | VString s => match ParseFloat (TrimSpace s) with Some x => Ok x | None => Err "must be a valid number" end
                 | _ => Err "must be a valid number"
                 end in
  if SFleb result (S754_zero false) then Err "must be positive" else Ok result.

(** A required number, which is replaced by the float. *)
Definition positiveField (m : fields) (k : string) (missing : spec_error) : outcome spec_error fields :=
  match field m k with
  | None => Err missing
  | Some v => let? x := ToPositiveFloat64 v in Ok (setField m k (VFloat x))
  end.

Definition validateGPU (raw : value) : outcome spec_error value :=
  match as_map raw with
  | None => Err "gpu is not a valid configuration"
  | Some gpu =>
      let? gpu := if has gpu "memory" then positiveField gpu "memory" "" else Ok gpu in
      let? _ := require (notEmptyIfGiven gpu "vendor") "gpu vendor cannot be empty if specified" in
      let? _ := require (notEmptyIfGiven gpu "model") "gpu model cannot be empty if specified" in
      Ok (VMap gpu)
  end.

Fixpoint validateGPUs (l : list value) : outcome spec_error (list value) :=
  match l with
  | [] => Ok []
  | v :: l => let? v := validateGPU v in let? l := validateGPUs l in Ok (v :: l)
  end.

Definition validateCPU (cpu : fields) : outcome spec_error fields :=
  let? cpu := positiveField cpu "cores" "cpu must have cores value" in
  let? _ := require (notEmptyIfGiven cpu "architecture") "cpu architecture cannot be empty if specified" in
  let? _ := opt (field cpu "clock_speed") (λ v, let? _ := ToPositiveFloat64 v in Ok ()) in
  Ok cpu.

Definition validateRAM (wild : float64 → Z) (ram : fields) : outcome spec_error fields :=
  let? ram := positiveField ram "size" "ram must have size value" in
  match field ram "clock_speed" with
  | None => Ok ram
  | Some v => let? x := ToPositiveFloat64 v in Ok (setField ram "clock_speed" (VUint64 (uint64_of_float wild x)))
  end.

Definition validateDisk (disk : fields) : outcome spec_error fields :=
  let? disk := positiveField disk "size" "disk must have size value" in
  let? _ := require (notEmptyIfGiven disk "type") "disk type cannot be empty if specified" in
  Ok disk.

(** The maps of the resources are changed in place. *)
Definition ValidateResources (wild : float64 → Z) (data : value) : outcome spec_error value :=
  match as_map data with
  | None => Err "invalid resources configuration"
  | Some resources =>
      match mapField resources "cpu" with
      | None => Err "resources must have cpu configuration"
      | Some cpu =>
          let? cpu := validateCPU cpu in
          match mapField resources "ram" with
          | None => Err "resources must have ram configuration"
          | Some ram =>
              let? ram := validateRAM wild ram in
              match mapField resources "disk" with
              | None => Err "resources must have disk configuration"
              | Some disk =>
                  let? disk := validateDisk disk in
                  let resources := setField (setField (setField resources "cpu" (VMap cpu)) "ram" (VMap ram)) "disk" (VMap disk) in
                  match field resources "gpus" with
                  | None => Ok (VMap resources)
                  | Some raw =>
                      match as_list raw with
                      | None => Err "gpus must be an array"
                      | Some gpus => let? gpus := validateGPUs gpus in Ok (VMap (setField resources "gpus" (VList gpus)))
                      end
                  end
              end
          end
      end
  end.

(** ** Nodes *)

(** The index of a location is only used in messages. *)
Definition validateLocation (data : value) : outcome spec_error () :=
  match as_map data with
  | None => Err "location must be a map"
  | Some location =>
      let? _ := require (nonEmpty location "continent") "continent is required when specifying a location" in
      let? _ := require (notEmptyIfGiven location "country") "country cannot be empty if specified" in
      let? _ := opt (stringField location "city") (λ city,
        let? _ := require (negb (bool_decide (city = ""))) "city cannot be empty if specified" in
        require (nonEmpty location "country") "country must be specified when city is provided") in
      let? _ := match index location "asn" with
                | VUint asn => require (negb (asn <=? 0)%Z) "ASN must be positive if specified"
                | _ => Ok ()
                end in
      require (notEmptyIfGiven location "isp") "ISP cannot be empty if specified"
  end.

Definition validateLocationConstraints (location : fields) : outcome spec_error () :=
  let? _ := opt (listField location "accept") (each validateLocation) in
  opt (listField location "reject") (each validateLocation).

Definition validatePort (root port : value) : outcome spec_error () :=
  match as_map port with
  | None => Err "invalid port configuration"
  | Some portMap =>
      let? _ := match as_int (index portMap "private") with
                | Some private => require (negb (private <=? 0)%Z) "port must have a valid private port number"
                | None => Err "port must have a valid private port number"
                end in
      match as_int (index portMap "public") with
      | None => Err "public port must be specified when private port is defined"
      | Some public =>
          let? _ := require (negb (negb (public =? 0)%Z && (public <? 1025)%Z || (65535 <? public)%Z))
                      "port must have a valid public port number between 1025 and 65535 if specified" in
          opt (stringField portMap "allocation") (λ alloc,
            let? allocs := rootMap root (NewPath ["V1.allocations"]) "allocations must be defined when referenced in port"
                             "invalid allocations configuration" in
            require (has allocs alloc) "referenced allocation not found in port configuration")
      end
  end.

Definition ValidateNode (root data : value) : outcome spec_error () :=
  match as_map data with
  | None => Err "invalid node configuration"
  | Some node =>
      let? _ := opt (listField node "allocations") (λ allocations,
        let? allocs := rootMap root (NewPath ["V1.allocations"]) "allocations must be defined when node is defined"
                         "invalid allocations configuration" in
        checkReferences allocs "invalid allocation reference" "referenced allocation not found" allocations) in
      let? _ := opt (field node "redundancy") (λ redundancy,
        match as_int redundancy with
        | None => Err "redundancy must be a number"
        | Some n => require (negb (n <? 0)%Z) "redundancy must be a positive number"
        end) in
      let? _ := match stringField node "failure_recovery" with
                | None => Err "failure_recovery must be specified for node"
                | Some r => require (oneOf validNodeFailureStrategies r) "invalid failure_recovery"
                end in
      let? _ := opt (listField node "ports") (each (validatePort root)) in
      let? _ := opt (mapField node "location") validateLocationConstraints in
      require (notEmptyIfGiven node "peer") "peer cannot be empty if specified"
  end.

(** ** Executions *)

Definition HasSuffix (s p : string) : bool :=
  (String.length p <=? String.length s)%nat && bool_decide (string_drop (String.length s - String.length p) s = p).

Definition TrimSuffix (s p : string) : string :=
  if HasSuffix s p then String.substring 0 (String.length s - String.length p) s else s.

Definition containerdRuntimeShimNamePattern : regex :=
  Seq (Class lowernum) (Star (Class (lowernum ++ [one "."; one "-"]%char))).

Definition isValidContainerdRuntime (runtime : string) : bool :=
  let runtime := TrimSpace (string_lower runtime) in
  if oneOf ["runc"; "kata"; "io.containerd.runc.v2"; "io.containerd.kata.v2"] runtime then true
  else if negb (HasPrefix runtime "io.containerd.") || negb (HasSuffix runtime ".v2") then false
  else let shimName := TrimSuffix (TrimPrefix runtime "io.containerd.") ".v2" in
       negb (bool_decide (shimName = "")) && fullMatch containerdRuntimeShimNamePattern shimName.

(** The elements of a slice, each a string or not; [None] when the value is no slice. *)
Definition slice (v : value) : option (list (option string)) :=
  match v with
  | VList l => Some (map as_string l)
  | VStrings l => Some (map Some l)
  | VBytes s => Some (repeat None (String.length s))
  | _ => None
  end.

Definition validateVariable (env : option string) : outcome spec_error () :=
  match env with
  | None => Err "environment variable must be a string"
  | Some env =>
      let? _ := require (negb (bool_decide (env = ""))) "environment variable cannot be empty" in
      match Cut env "=" with
      | None => Err "environment variable must be in KEY=VALUE format"
      | Some (key, _) =>
          let? _ := require (negb (bool_decide (key = ""))) "environment variable key cannot be empty" in
          require (IsEnvVarKeyValid key) "invalid environment variable key format"
      end
  end.

Definition allStrings (e : spec_error) (l : list value) : outcome spec_error () :=
  each (λ v, match as_string v with Some _ => Ok () | None => Err e end) l.

Definition validateContainerExecutionParams (execution : fields) : outcome spec_error () :=
  match stringField execution "image" with
  | None | Some "" => Err "execution must have an image"
  | Some image =>
      let? _ := require (IsDockerImageValid image) "invalid image format" in
      let? _ := opt (listField execution "entrypoint") (allStrings "entrypoint must be a string") in
      let? _ := opt (listField execution "cmd") (allStrings "command must be a string") in
      let? _ := opt (field execution "environment") (λ envs,
        match slice envs with
        | None => Err "environment must be a slice"
        | Some l => each validateVariable l
        end) in
      require (notEmptyIfGiven execution "working_directory") "working directory cannot be empty if specified"
  end.

Definition validateDockerExecution (execution : fields) : outcome spec_error () :=
  let? _ := validateContainerExecutionParams execution in
  opt (stringField execution "restart_policy") (λ policy,
    let? _ := require (negb (bool_decide (policy = ""))) "docker restart_policy cannot be empty if specified" in
    require (oneOf ["no"; "on-failure"; "always"; "unless-stopped"] policy) "invalid docker restart_policy").

Definition validateContainerdExecution (execution : fields) : outcome spec_error () :=
  let? _ := validateContainerExecutionParams execution in
  opt (stringField execution "runtime") (λ runtime,
    let? _ := require (negb (bool_decide (runtime = ""))) "containerd runtime cannot be empty if specified" in
    require (isValidContainerdRuntime runtime) "invalid containerd runtime").

Definition ValidateExecution (data : value) : outcome spec_error () :=
  match as_map data with
  | None => Err "invalid execution configuration"
  | Some execution =>
      match stringField execution "type" with
      | None | Some "" => Err "execution must have a type"
      | Some execType =>
          match mapField execution "params" with
          | None => Err "execution must have params"
          | Some params =>
              if bool_decide (execType = "docker") then validateDockerExecution params
              else if bool_decide (execType = "containerd") then validateContainerdExecution params
              else require (bool_decide (execType = "null")) "unsupported execution type"
          end
      end
  end.

(** ** The other parts *)

Definition ValidateSupervisor (root data : value) : outcome spec_error () :=
  match as_map data with
  | None => Err "invalid supervisor configuration"
  | Some supervisor =>
      let? _ := opt (stringField supervisor "strategy") (λ strategy,
        let? _ := require (negb (bool_decide (strategy = ""))) "supervisor strategy cannot be empty if specified" in
        require (oneOf ["OneForOne"; "AllForOne"; "RestForOne"] strategy) "invalid supervisor strategy") in
      let? _ := opt (listField supervisor "allocations") (λ allocations,
        let? allocs := rootMap root (NewPath ["V1.allocations"]) "allocations must be defined when supervisor is defined"
                         "invalid allocations configuration" in
        checkReferences allocs "invalid allocation reference" "referenced allocation not found" allocations) in
      opt (listField supervisor "children") (each (λ child,
        match as_map child with Some _ => Ok () | None => Err "invalid child supervisor: must be a map" end))
  end.

(** The assignments of the round trip time and the bandwidth change nothing. *)
Definition ValidateEdgeConstraints (root data : value) : outcome spec_error () :=
  match as_map data with
  | None => Err "invalid edge constraints configuration"
  | Some edge =>
      match stringField edge "S", stringField edge "T" with
      | Some s, Some t =>
          let? _ := require (negb (bool_decide (s = "")) && negb (bool_decide (t = ""))) "edges should be a pair of named nodes" in
          let? _ := require (negb (bool_decide (s = t))) "edge constraint source and target must be different nodes" in
          let? nodes := rootMap root (NewPath ["V1.nodes"]) "nodes must be defined" "nodes must be a map" in
          let? _ := require (has nodes s) "node not found" in
          require (has nodes t) "node not found"
      | _, _ => Err "edges should be a pair of named nodes"
      end
  end.

Definition ValidateHealthCheck (data : value) : outcome spec_error () :=
  match as_map data with
  | None => Err "invalid healthcheck configuration"
  | Some [] => Err "healthcheck cannot be empty if specified"
  | Some healthcheck =>
      match field healthcheck "type" with
      | None | Some (VString "") => Err "healthcheck must have a type"
      | Some hcType =>
          let? _ := match as_string hcType with
                    | Some "http" => require (has healthcheck "endpoint") "http type healthcheck must have an endpoint"
                    | Some "command" => require (has healthcheck "exec") "command type healthcheck must have exec"
                    | _ => Err "unsupported healthcheck type"
                    end in
          match index healthcheck "interval" with
          | VDuration d => require (negb (d =? 0)%Z) "healthcheck interval must be greater than 0"
          | _ => Ok ()
          end
      end
  end.

Definition ValidateSubnet (data : value) : outcome spec_error () :=
  match as_map data with
  | None => Err "invalid subnet config"
  | Some [] => Err "subnet can not be empty if specified"
  | Some subnet => match index subnet "join" with VBool _ => Ok () | _ => Err "subnet.join expects boolean value" end
  end.

Definition ValidateContract (data : value) : outcome spec_error () :=
  match as_map data with
  | None => Err "invalid contract configuration"
  | Some contract =>
      match stringField contract "did" with
      | None => Err "contract 'did' must be a string"
      | Some did =>
          let? _ := require (HasPrefix did "did:") "invalid did format" in
          opt (stringField contract "host") (λ host, require (HasPrefix host "did:") "invalid host did format")
      end
  end.

Definition volumeNamePattern : regex := Seq (Class alnum) (Star (Class (alnum ++ [one "_"; one "."; one "-"]%char))).

Definition validateOneVolume (vol : value) : outcome spec_error () :=
  match as_map vol with
  | None => Err "invalid type - expecting map[string]"
  | Some volume =>
      match field volume "type" with
      | None | Some (VString "") => Err "volume must have a type"
      | Some volType =>
          let? _ := match as_string volType with
                    | Some "glusterfs" =>
                        match index volume "servers" with
                        | VStrings servers =>
                            let? _ := require (negb (bool_decide (servers = []))) "glusterfs type volume must define at least one server" in
                            each (λ server, require (negb (bool_decide (server = ""))) "glusterfs volume server must be a non-empty string") servers
                        | _ => Err "glusterfs type volume must define one or more servers"
                        end
                    | Some "local" =>
                        match stringField volume "src" with
                        | None => Err "local type volume must define source destination as 'src'"
                        | Some src =>
                            if Contains src "/" then require (HasPrefix src "/") "local type volume source must be an absolute path"
                            else require (fullMatch volumeNamePattern src) "local volume src contains invalid characters"
                        end
                    | _ => Err "unsupported volume type"
                    end in
          require (has volume "mount_destination") "volume must define a mount destination"
      end
  end.

Definition ValidateVolume (data : value) : outcome spec_error () :=
  match as_list data with
  | None => Err "invalid volume configuration"
  | Some volumes =>
      let? _ := require (negb (bool_decide (volumes = []))) "volume cannot be empty if specified" in
      each validateOneVolume volumes
  end.

(** ** The walk *)

(** A validator gives the data it leaves behind. *)
Definition ValidatorFunc : Type := value → value → Path → outcome spec_error value.

Definition keeps (f : value → value → Path → outcome spec_error ()) : ValidatorFunc :=
  λ root data path, let? _ := f root data path in Ok data.

Section validators.
  Context `{Visit : MapVisit} (wild : float64 → Z).

Definition NewEnsembleV1Validator : list (Path * ValidatorFunc) :=
  [("V1", keeps (λ _ data _, ValidateSpec data));
   ("V1.subnet", keeps (λ _ data _, ValidateSubnet data));
   ("V1.allocations.*", keeps ValidateAllocation);
   ("V1.edges.[]", keeps (λ root data _, ValidateEdgeConstraints root data));
   ("V1.nodes.*", keeps (λ root data _, ValidateNode root data));
   ("V1.supervisor", keeps (λ root data _, ValidateSupervisor root data));
   ("V1.supervisor.children.[]", keeps (λ root data _, ValidateSupervisor root data));
   ("V1.allocations.*.resources", λ _ data _, ValidateResources wild data);
   ("V1.allocations.*.execution", keeps (λ _ data _, ValidateExecution data));
   ("V1.allocations.*.healthcheck", keeps (λ _ data _, ValidateHealthCheck data));
   ("V1.allocations.*.volume", keeps (λ _ data _, ValidateVolume data));
   ("V1.contracts.*", keeps (λ _ data _, ValidateContract data))].
End validators.

(** The validators whose pattern matches, in the order of a range over their map. *)
Fixpoint applyAll (validators : list (Path * ValidatorFunc)) (root data : value) (path : Path) : outcome spec_error value :=
  match validators with
  | [] => Ok data
  | (pattern, validator) :: validators =>
      match Matches path pattern with
      | Ok true => let? data := validator root data path in applyAll validators root data path
      | Ok false => applyAll validators root data path
      | _ => Panic
      end
  end.

Definition indexPart (i : nat) : string := "[" +:+ Itoa (Z.of_nat i) +:+ "]".

(** Both loops of the walk: over the fields of a map, and over a list from some index. *)
Fixpoint walkFields (f : value → Path → option (outcome spec_error value)) (path : Path) (m : fields)
    : option (outcome spec_error fields) :=
  match m with
  | [] => Some (Ok [])
  | (k, v) :: m =>
      match f v (Next path k) with
      | Some (Ok v) =>
          match walkFields f path m with
          | Some r => Some (let? m := r in Ok ((k, v) :: m))
          | None => None
          end
      | Some (Err e) => Some (Err e)
      | Some Panic => Some Panic
      | None => None
      end
  end.

Fixpoint walkList (f : value → Path → option (outcome spec_error value)) (path : Path) (i : nat) (l : list value)
    : option (outcome spec_error (list value)) :=
  match l with
  | [] => Some (Ok [])
  | v :: l =>
      match f v (Next path (indexPart i)) with
      | Some (Ok v) =>
          match walkList f path (S i) l with
          | Some r => Some (let? l := r in Ok (v :: l))
          | None => None
          end
      | Some (Err e) => Some (Err e)
      | Some Panic => Some Panic
      | None => None
      end
  end.

(** [None] when the tree is deeper than [fuel]; see [validate_total]. *)
Fixpoint validate (fuel : nat) (validators : list (Path * ValidatorFunc)) (root data : value) (path : Path)
    : option (outcome spec_error value) :=
  match fuel with
  | O => None
  | S fuel =>
      match applyAll validators root data path with
      | Ok (VMap m) =>
          match walkFields (validate fuel validators root) path m with
          | Some r => Some (let? m := r in Ok (VMap m))
          | None => None
          end
      | Ok (VList l) =>
          match walkList (validate fuel validators root) path 0 l with
          | Some r => Some (let? l := r in Ok (VList l))
          | None => None
          end
      | r => Some r
      end
  end.

Fixpoint height (v : value) : nat :=
  match v with
  | VList l => S (foldr (λ v n, max (height v) n) 0%nat l)
  | VMap m => S (foldr (λ kv n, max (height kv.2) n) 0%nat m)
  | _ => 1%nat
  end.

Definition Validate `{MapVisit} (wild : float64 → Z) (rawConfig : value) : option (outcome spec_error value) :=
  validate (height rawConfig) (visit (NewEnsembleV1Validator wild)) rawConfig rawConfig (NewPath []).
