(* ===== verification/SpecProps.v ===== *)
(** * What an accepted specification guarantees

    The walk of the validator ends and applies each validator to every part its pattern
    names; an accepted ensemble can be ordered by its dependencies and placed on its nodes.
    Parts whose names contain a dot escape validation. *)

From Stdlib Require Import SpecFloat Ascii.
From stdpp Require Import relations.
From S2P Require Import Prelude GoStrings GoNumbers GoText GoTime ResourceManager DependencyOrder ConfigTree SpecValidator.
Open Scope go_scope.

(** ** Patterns *)

Definition part_matches (part p : string) : outcome () bool :=
  if bool_decide (part = configPathList) then inBrackets p
  else Ok (bool_decide (part = configPathMatchAny) || EqualFold part p).

Lemma matchFrom_cons part rest p ps :
  part ≠ configPathMatchAnyMultiple →
  matchFrom (part :: rest) (p :: ps) =
  match part_matches part p with
  | Ok true => if bool_decide (rest = []) && negb (bool_decide (ps = [])) then Ok false else matchFrom rest ps
  | r => r
  end.
Proof.
  intros Hm. cbn [matchFrom]. rewrite (bool_decide_false _ Hm). unfold part_matches.
  case_bool_decide; [by destruct (inBrackets p) as [[]| |]|].
  case_bool_decide; cbn; [done|]. by destruct (EqualFold part p).
Qed.

(** A pattern without [**] matches the paths whose parts match its parts one by one. *)
Lemma matchFrom_iff pattern path :
  configPathMatchAnyMultiple ∉ pattern → pattern ≠ [] → (length pattern ≤ length path)%nat →
  matchFrom pattern path = Ok true ↔ Forall2 (λ part p, part_matches part p = Ok true) pattern path.
Proof.
  revert path. induction pattern as [|part rest IH]; intros path Hm Hne Hl; [done|].
  destruct path as [|p ps]; [cbn in Hl; lia|]. apply not_elem_of_cons in Hm as [Hm1 Hm2].
  rewrite matchFrom_cons, Forall2_cons by done. cbn in Hl.
  destruct (part_matches part p) as [[]| |]; [|naive_solver..].
  destruct (decide (rest = [])) as [-> |Hr].
  - rewrite bool_decide_true by done. destruct ps as [|q ps]; cbn; [rewrite Forall2_nil; naive_solver|].
    split; [done|]. intros [_ H]. inversion H.
  - rewrite bool_decide_false by done. cbn. rewrite IH by (done || lia). naive_solver.
Qed.

Lemma Matches_iff p pattern :
  configPathMatchAnyMultiple ∉ Parts pattern →
  Matches p pattern = Ok true ↔ Forall2 (λ part q, part_matches part q = Ok true) (Parts pattern) (Parts p).
Proof.
  intros Hm. assert (Parts pattern ≠ []) by apply split_fuel_nonempty. unfold Matches, matchParts. case_match eqn:Hl.
  - apply Nat.ltb_lt in Hl. split; [done|]. intros Hf%Forall2_length. lia.
  - apply Nat.ltb_ge in Hl. by apply matchFrom_iff.
Qed.

(** ** The walk ends *)

Lemma height_pos v : (1 ≤ height v)%nat.
Proof. destruct v; cbn; lia. Qed.

Lemma height_map m n : (height (VMap m) ≤ S n ↔ Forall (λ kv, height kv.2 ≤ n) m)%nat.
Proof. induction m as [|kv m IH]; cbn in *; [split; [done|lia]|]. rewrite Forall_cons, <- IH. lia. Qed.

Lemma height_list l n : (height (VList l) ≤ S n ↔ Forall (λ v, height v ≤ n) l)%nat.
Proof. induction l as [|v l IH]; cbn in *; [split; [done|lia]|]. rewrite Forall_cons, <- IH. lia. Qed.

Lemma field_In m k v : field m k = Some v → (k, v) ∈ m.
Proof.
  induction m as [|[k' v'] m IH]; cbn; [done|]. case_bool_decide; [|intros; right; auto]. intros [= ->]. subst. left.
Qed.

Lemma height_field m k v : field m k = Some v → (S (height v) ≤ height (VMap m))%nat.
Proof.
  intros Hf%field_In. destruct (height (VMap m)) as [|n] eqn:Hh; [pose proof (height_pos (VMap m)); lia|].
  assert (height (VMap m) ≤ S n)%nat as H by lia. rewrite height_map, Forall_forall in H. apply H in Hf. cbn in Hf. lia.
Qed.

Lemma height_setField m k v v' :
  field m k = Some v → (height v' ≤ height v)%nat → (height (VMap (setField m k v')) ≤ height (VMap m))%nat.
Proof.
  induction m as [|[k0 v0] m IH]; cbn [field setField]; [done|]. case_bool_decide.
  - intros [= ->] Hv. cbn. lia.
  - intros Hf Hv. specialize (IH Hf Hv). cbn in *. lia.
Qed.

Lemma field_setField m k v k' : field (setField m k v) k' = if bool_decide (k = k') then Some v else field m k'.
Proof.
  induction m as [|[k0 v0] m IH]; cbn; [by repeat case_bool_decide|].
  repeat (case_bool_decide; cbn; subst); try done; naive_solver.
Qed.

Lemma mapField_field m k c : mapField m k = Some c → field m k = Some (VMap c).
Proof. unfold mapField, index. destruct (field m k) as [[]|]; cbn; naive_solver. Qed.

(** A step [let? x := m in k] that succeeds. *)
Lemma bind_Ok {E A B} (m : outcome E A) (k : A → outcome E B) b :
  (let? x := m in k x) = Ok b ↔ ∃ x, m = Ok x ∧ k x = Ok b.
Proof. destruct m; naive_solver. Qed.

Lemma require_Ok b e u : require b e = Ok u ↔ b = true.
Proof. unfold require. destruct u, b; done. Qed.

Lemma each_Ok {A E} (f : A → outcome E ()) l x : each f l = Ok () → x ∈ l → f x = Ok ().
Proof.
  intros He Hx. induction Hx as [l|x y l Hx IH]; cbn [each] in He; apply bind_Ok in He as ([] & ? & ?); auto.
Qed.

Lemma positiveField_height m k e m' : positiveField m k e = Ok m' → (height (VMap m') ≤ height (VMap m))%nat.
Proof.
  unfold positiveField. destruct (field m k) as [v|] eqn:Hf; [|done]. rewrite bind_Ok. intros (x & _ & [= <-]).
  eapply height_setField; [done|]. apply height_pos.
Qed.

Lemma validateGPUs_height l l' n : validateGPUs l = Ok l' → (height (VList l) ≤ S n)%nat → (height (VList l') ≤ S n)%nat.
Proof.
  rewrite !height_list. revert l'. induction l as [|v l IH]; cbn [validateGPUs]; [by intros ? [= <-]|].
  intros l'. setoid_rewrite bind_Ok. setoid_rewrite bind_Ok. intros (v' & Hv & l0 & Hl & [= <-]) [H1 H2]%Forall_cons.
  constructor; [|by apply IH]. revert Hv. unfold validateGPU. destruct (as_map v) as [m|] eqn:Hm; [|done].
  destruct v; try done. injection Hm as ->. rewrite !bind_Ok. intros (m' & Hp & H). apply bind_Ok in H as (_ & _ & H).
  apply bind_Ok in H as (_ & _ & [= <-]).
  destruct (has m "memory"); [apply positiveField_height in Hp; lia|by injection Hp as <-].
Qed.

Lemma validateCPU_height m m' : validateCPU m = Ok m' → (height (VMap m') ≤ height (VMap m))%nat.
Proof.
  unfold validateCPU. rewrite bind_Ok. intros (c & Hp%positiveField_height & H). apply bind_Ok in H as (_ & _ & H).
  apply bind_Ok in H as (_ & _ & [= <-]). done.
Qed.

Lemma validateRAM_height wild m m' : validateRAM wild m = Ok m' → (height (VMap m') ≤ height (VMap m))%nat.
Proof.
  unfold validateRAM. rewrite bind_Ok. intros (c & Hp%positiveField_height & H).
  destruct (field c "clock_speed") as [v|] eqn:Hf; [|by injection H as <-]. apply bind_Ok in H as (x & _ & [= <-]).
  etrans; [|exact Hp]. eapply height_setField; [done|apply height_pos].
Qed.

Lemma validateDisk_height m m' : validateDisk m = Ok m' → (height (VMap m') ≤ height (VMap m))%nat.
Proof.
  unfold validateDisk. rewrite bind_Ok. intros (c & Hp%positiveField_height & H). by apply bind_Ok in H as (_ & _ & [= <-]).
Qed.

Lemma ValidateResources_height wild v v' : ValidateResources wild v = Ok v' → (height v' ≤ height v)%nat.
Proof.
  unfold ValidateResources. destruct v as [| | | | | | | | | | |m|]; try done. cbn [as_map].
  destruct (mapField m "cpu") as [cpu|] eqn:Hc; [|done]. apply mapField_field in Hc.
  rewrite bind_Ok. intros (cpu' & H1%validateCPU_height & H). revert H.
  destruct (mapField m "ram") as [ram|] eqn:Hr; [|done]. apply mapField_field in Hr.
  rewrite bind_Ok. intros (ram' & H2%validateRAM_height & H). revert H.
  destruct (mapField m "disk") as [disk|] eqn:Hd; [|done]. apply mapField_field in Hd.
  rewrite bind_Ok. intros (disk' & H3%validateDisk_height & H). revert H. cbv zeta.
  set (m1 := setField m "cpu" (VMap cpu')). set (m2 := setField m1 "ram" (VMap ram')).
  set (m3 := setField m2 "disk" (VMap disk')).
  assert (height (VMap m1) ≤ height (VMap m))%nat as Hm1 by by eapply height_setField.
  assert (height (VMap m2) ≤ height (VMap m1))%nat as Hm2.
  { eapply height_setField; [|done]. unfold m1. by rewrite field_setField. }
  assert (height (VMap m3) ≤ height (VMap m2))%nat as Hm3.
  { eapply height_setField; [|done]. unfold m2, m1. by rewrite !field_setField. }
  destruct (field m3 "gpus") as [raw|] eqn:Hg; [|intros [= <-]; lia].
  destruct raw as [| | | | | | | | | |l| |]; try done. cbn [as_list]. rewrite bind_Ok. intros (l' & Hl & [= <-]).
  assert (height (VMap (setField m3 "gpus" (VList l'))) ≤ height (VMap m3))%nat; [|lia].
  eapply height_setField; [done|]. destruct (height (VList l)) as [|n] eqn:Hh; [pose proof (height_pos (VList l)); lia|].
  eapply validateGPUs_height; [done|lia].
Qed.

(** Every validator of the table leaves a tree that is not deeper. *)
Definition shrinks (f : ValidatorFunc) : Prop := ∀ root v p v', f root v p = Ok v' → (height v' ≤ height v)%nat.

Lemma keeps_Ok f root v p v' : keeps f root v p = Ok v' ↔ f root v p = Ok () ∧ v' = v.
Proof. unfold keeps. rewrite bind_Ok. split; [intros ([] & H & [= <-])|intros [H ->]]; eauto. Qed.

Section walk.
  Context `{Visit : MapVisit} (wild : float64 → Z).

Lemma table_shrinks : Forall (λ pf, shrinks pf.2) (visit (NewEnsembleV1Validator wild)).
Proof.
  rewrite visit_perm. unfold NewEnsembleV1Validator.
  repeat constructor; intros root v p v'; cbn [snd]; [|..]; try (intros [_ ->]%keeps_Ok; done).
  apply ValidateResources_height.
Qed.

Lemma applyAll_height vs root v p v' :
  Forall (λ pf, shrinks pf.2) vs → applyAll vs root v p = Ok v' → (height v' ≤ height v)%nat.
Proof.
  intros Hvs. revert v. induction Hvs as [|[pat f] vs Hf _ IH]; intros v; cbn; [by intros [= <-]|].
  destruct (Matches p pat) as [[]| |]; try done; [|apply IH]. rewrite bind_Ok. intros (v1 & H1%Hf & H2%IH). lia.
Qed.

Lemma walkFields_Some f path m : (∀ k v p, (k, v) ∈ m → is_Some (f v p)) → is_Some (walkFields f path m).
Proof.
  induction m as [|[k v] m IH]; intros Hf; cbn; [done|]. assert (is_Some (f v (Next path k))) as [r ->] by (apply (Hf k); left).
  destruct r; try done. destruct IH as [r ->]; [|done]. intros k' v0 p Hin. apply (Hf k'). by right.
Qed.

Lemma walkList_Some f path i l : (∀ v p, v ∈ l → is_Some (f v p)) → is_Some (walkList f path i l).
Proof.
  revert i. induction l as [|v l IH]; intros i Hf; cbn; [done|]. assert (is_Some (f v (Next path (indexPart i)))) as [r ->] by (apply Hf; left).
  destruct r; try done. destruct (IH (S i)) as [r ->]; [|done]. intros v0 p Hin. apply Hf. by right.
Qed.

Lemma validate_total fuel root v p :
  (height v ≤ fuel)%nat → is_Some (validate fuel (visit (NewEnsembleV1Validator wild)) root v p).
Proof.
  revert v p. induction fuel as [|fuel IH]; intros v p Hh; [pose proof (height_pos v); lia|]. cbn [validate].
  destruct (applyAll _ root v p) as [v'| |] eqn:Ha; [|done..].
  apply applyAll_height in Ha; [|apply table_shrinks]. assert (height v' ≤ S fuel)%nat as Hv by lia.
  destruct v' as [| | | | | | | | | |l|m|]; try done.
  - rewrite height_list, Forall_forall in Hv. destruct (walkList_Some (validate fuel (visit (NewEnsembleV1Validator wild)) root) p 0 l) as [r ->]; [|done].
    intros v0 q Hin. by apply IH, Hv.
  - rewrite height_map, Forall_forall in Hv. destruct (walkFields_Some (validate fuel (visit (NewEnsembleV1Validator wild)) root) p m) as [r ->]; [|done].
    intros k v0 q Hin. apply IH. by apply (Hv (k, v0)).
Qed.
End walk.

(** ** Where a validator applies *)

Lemma Cut_first s ch a b : Cut s (String ch "") = Some (a, b) → Contains a (String ch "") = false.
Proof.
  revert a b. induction s as [|c s IH]; intros a b; cbn [Cut strip_prefix]; [done|].
  case_bool_decide as Hc; [by intros [= <- <-]|]. destruct (Cut s _) as [[a' b']|] eqn:E; [|done].
  intros [= <- <-]. cbn [Contains HasPrefix]. rewrite (IH _ _ eq_refl), bool_decide_false by done. done.
Qed.

Lemma Parts_dot a b : Contains a "." = false → Parts (a +:+ ("." +:+ b)) = a :: Parts b.
Proof. apply Split_app. Qed.

Lemma Parts_app p k : Parts (p +:+ ("." +:+ k)) = Parts p ++ Parts k.
Proof.
  remember (String.length p) as n eqn:Hn. revert p Hn. induction n as [n IH] using lt_wf_ind. intros p ->.
  destruct (Contains p ".") eqn:Hc.
  - rewrite Cut_Contains in Hc. apply bool_decide_eq_true in Hc as [[a b] Hcut].
    pose proof (Cut_first _ _ _ _ Hcut) as Ha. apply Cut_Some in Hcut. subst p.
    rewrite <- !string_app_assoc, (Parts_dot a), (Parts_dot a) by done. rewrite <- app_comm_cons. f_equal.
    eapply IH; [|done]. rewrite !string_length_app. cbn. lia.
  - rewrite Parts_dot by done. unfold Parts, configPathSeparator. by rewrite (Split_none p).
Qed.

Lemma Parts_Next p k : p ≠ "" → k ≠ "" → Parts (Next p k) = Parts p ++ Parts k.
Proof. intros Hp Hk. unfold Next. rewrite !bool_decide_false by done. apply Parts_app. Qed.

Definition walked (vs : list (Path * ValidatorFunc)) (root v : value) (p : Path) : Prop :=
  ∃ fuel v', validate fuel vs root v p = Some (Ok v').

Lemma walkFields_Ok f p m m' :
  walkFields f p m = Some (Ok m') → ∀ k v, (k, v) ∈ m → ∃ v', f v (Next p k) = Some (Ok v').
Proof.
  revert m'. induction m as [|[k0 v0] m IH]; intros m'; cbn; [by intros _ k v ?%elem_of_nil|].
  destruct (f v0 (Next p k0)) as [[v0'| |]|] eqn:Hf; try done.
  destruct (walkFields f p m) as [r|]; [|done]. intros [= Hr]. apply bind_Ok in Hr as (m1 & -> & _).
  intros k v [[= -> ->]|Hin]%elem_of_cons; [eauto|by eapply IH].
Qed.

Lemma walkList_Ok f p i l l' :
  walkList f p i l = Some (Ok l') → ∀ j v, l !! j = Some v → ∃ v', f v (Next p (indexPart (i + j))) = Some (Ok v').
Proof.
  revert i l'. induction l as [|v0 l IH]; intros i l'; cbn; [done|].
  destruct (f v0 (Next p (indexPart i))) as [[v0'| |]|] eqn:Hf; try done.
  destruct (walkList f p (S i) l) as [r|] eqn:Hw; [|done]. intros [= Hr]. apply bind_Ok in Hr as (m1 & -> & _).
  intros [|j] v; cbn; [intros [= ->]; rewrite Nat.add_0_r; eauto|].
  intros Hj. destruct (IH _ _ Hw _ _ Hj) as [v' Hv']. exists v'. by replace (i + S j)%nat with (S i + j)%nat by lia.
Qed.

(** The validators that apply succeeded, and so did the walk of what they left. *)
Lemma walked_inv vs root v p :
  walked vs root v p →
  ∃ v', applyAll vs root v p = Ok v' ∧
    (∀ m k c, v' = VMap m → (k, c) ∈ m → walked vs root c (Next p k)) ∧
    (∀ l i c, v' = VList l → l !! i = Some c → walked vs root c (Next p (indexPart i))).
Proof.
  intros ([|fuel] & v1 & Hw); [done|]. cbn [validate] in Hw.
  destruct (applyAll vs root v p) as [v'| |] eqn:Ha; try done. exists v'. split; [done|]. split.
  - intros m k c -> Hin. destruct (walkFields _ p m) as [r|] eqn:Hf; [|done]. injection Hw as Hr.
    apply bind_Ok in Hr as (m1 & -> & _). destruct (walkFields_Ok _ _ _ _ Hf _ _ Hin) as [c' ?]. by exists fuel, c'.
  - intros l i c -> Hin. destruct (walkList _ p 0 l) as [r|] eqn:Hf; [|done]. injection Hw as Hr.
    apply bind_Ok in Hr as (m1 & -> & _). destruct (walkList_Ok _ _ _ _ _ Hf _ _ Hin) as [c' ?]. by exists fuel, c'.
Qed.

Lemma applyAll_none vs root v p :
  Forall (λ pf, Matches p pf.1 = Ok false) vs → applyAll vs root v p = Ok v.
Proof. induction 1 as [|[pat f] vs Hf _ IH]; cbn in *; [done|]. by rewrite Hf. Qed.

(** At a path that one pattern of the table matches, its validator applies. *)
Lemma applyAll_one vs vs1 vs2 pat f root v p :
  vs ≡ₚ vs1 ++ (pat, f) :: vs2 → Matches p pat = Ok true →
  Forall (λ pf, Matches p pf.1 = Ok false) (vs1 ++ vs2) → applyAll vs root v p = f root v p.
Proof.
  intros Hp Hm Hf. assert (∃ w1 w2, vs = w1 ++ (pat, f) :: w2) as (w1 & w2 & ->).
  { apply list_elem_of_split. rewrite Hp. set_solver. }
  assert (w1 ++ w2 ≡ₚ vs1 ++ vs2) as Hw.
  { apply (Permutation_cons_inv (a := (pat, f))). by rewrite !Permutation_middle. }
  rewrite <- Hw, Forall_app in Hf. destruct Hf as [H1 H2]. clear Hp Hw.
  induction H1 as [|[pat1 f1] w1 Hf1 _ IH]; cbn in *; [|by rewrite Hf1].
  rewrite Hm. destruct (f root v p) as [v'| |]; [|done..]. by apply applyAll_none.
Qed.

(** ** Accepted specifications *)

Section accepted.
  Context `{Visit : MapVisit} (wild : float64 → Z).

Notation table := (NewEnsembleV1Validator wild).

Ltac parts H := unfold Matches; cbn [fst]; rewrite H; vm_compute; reflexivity.

(** [one_validator i H]: of the table only its entry [i] matches the path with parts [H]. *)
Ltac one_validator i H :=
  match goal with
  | |- applyAll _ _ _ _ = ?f _ _ _ =>
      eapply (applyAll_one _ (take i table) (drop (S i) table) _ f);
      [apply visit_perm|parts H|repeat constructor; parts H]
  end.

Lemma at_spec root v : applyAll (visit table) root v "v1" = keeps (λ _ data _, ValidateSpec data) root v "v1".
Proof. assert (Parts "v1" = ["v1"]) as H by reflexivity. one_validator 0%nat H. Qed.

Lemma at_allocation root v p n :
  Parts p = ["v1"; "allocations"; n] → applyAll (visit table) root v p = keeps ValidateAllocation root v p.
Proof. intros H. one_validator 2%nat H. Qed.

Lemma at_node root v p n :
  Parts p = ["v1"; "nodes"; n] → applyAll (visit table) root v p = keeps (λ root data _, ValidateNode root data) root v p.
Proof. intros H. one_validator 4%nat H. Qed.

Lemma at_nothing root v p l :
  Parts p = l → l ∈ [[""]; ["v1"; "allocations"]; ["v1"; "nodes"]] → applyAll (visit table) root v p = Ok v.
Proof.
  intros H Hl. apply applyAll_none. rewrite visit_perm.
  repeat (apply elem_of_cons in Hl as [-> |Hl]; [repeat constructor; parts H|]). by apply elem_of_nil in Hl.
Qed.

(** Below an entry of the allocations whose name has a dot, nothing is looked at, unless the
    second part of the name is the name of a part. *)
Lemma at_dotted root v p n rest :
  Parts p = "v1" :: "allocations" :: n :: "b" :: rest → applyAll (visit table) root v p = Ok v.
Proof. intros H. apply applyAll_none. rewrite visit_perm. repeat constructor; parts H. Qed.

Definition ensemble (spec : fields) : value := VMap [("v1", VMap spec)].

Definition accepted (spec : fields) : Prop := ∃ r, Validate wild (ensemble spec) = Some (Ok r).

Lemma plain_parts section name :
  section ∈ ["allocations"; "nodes"] → name ≠ "" → Contains name "." = false →
  Parts (Next (Next "v1" section) name) = ["v1"; section; name].
Proof.
  intros Hs Hn Hd. assert (Next "v1" section ≠ "" ∧ Parts (Next "v1" section) = ["v1"; section]) as [Hp Hq].
  { repeat (apply elem_of_cons in Hs as [-> |Hs]; [done|]). by apply elem_of_nil in Hs. }
  rewrite Parts_Next, Hq by done. unfold Parts, configPathSeparator. by rewrite Split_none.
Qed.

Lemma mapField_In m k c : mapField m k = Some c → (k, VMap c) ∈ m.
Proof. intros H. by apply field_In, mapField_field. Qed.

(** What the walk of an accepted specification has checked. *)
Lemma accepted_inv spec :
  accepted spec →
  ValidateSpec (VMap spec) = Ok () ∧
  (∀ allocs n v, mapField spec "allocations" = Some allocs → (n, v) ∈ allocs → n ≠ "" → Contains n "." = false →
     ValidateAllocation (ensemble spec) v (Next (Next "v1" "allocations") n) = Ok ()) ∧
  (∀ nodes n v, mapField spec "nodes" = Some nodes → (n, v) ∈ nodes → n ≠ "" → Contains n "." = false →
     ValidateNode (ensemble spec) v = Ok ()).
Proof.
  intros [r Hr]. assert (walked (visit table) (ensemble spec) (ensemble spec) "") as Hw by by eexists _, _.
  apply walked_inv in Hw as (v0 & Ha & Hm & _). rewrite (at_nothing _ _ _ [""]) in Ha by (done || left). injection Ha as <-.
  specialize (Hm _ "v1" (VMap spec) eq_refl ltac:(left)). change (Next "" "v1") with "v1" in Hm.
  apply walked_inv in Hm as (v1 & Ha & Hm & _). rewrite at_spec in Ha. apply keeps_Ok in Ha as [Hspec ->].
  split; [done|]. assert (Hsec : ∀ section m n v, section ∈ ["allocations"; "nodes"] → mapField spec section = Some m → (n, v) ∈ m →
     walked (visit table) (ensemble spec) v (Next (Next "v1" section) n)).
  { intros section m n v Hs Hf Hin. specialize (Hm _ section (VMap m) eq_refl (mapField_In _ _ _ Hf)).
    apply walked_inv in Hm as (v2 & Ha & Hm & _).
    rewrite (at_nothing _ _ _ ["v1"; section]) in Ha; [injection Ha as <-; by apply (Hm m)|..];
      repeat (apply elem_of_cons in Hs as [-> |Hs]; [done || set_solver|]); by apply elem_of_nil in Hs. }
  split; intros m n v Hf Hin Hn Hd.
  - apply (Hsec "allocations") in Hin; [|left|done]. apply walked_inv in Hin as (v' & Ha & _).
    rewrite (at_allocation _ _ _ n) in Ha by (apply plain_parts; [left|done..]). by apply keeps_Ok in Ha as [? _].
  - apply (Hsec "nodes") in Hin; [|right; left|done]. apply walked_inv in Hin as (v' & Ha & _).
    rewrite (at_node _ _ _ n) in Ha by (apply plain_parts; [right; left|done..]). by apply keeps_Ok in Ha as [? _].
Qed.

(** *** Names *)

Lemma validateNames_Ok allocs names dns u :
  validateNames allocs names dns = Ok u →
  Forall (λ kv, IsDNSNameValid kv.1 = true) allocs ∧ NoDup (map (λ kv, string_lower kv.1) allocs) ∧
  Forall (λ kv, string_lower kv.1 ∉ names) allocs.
Proof.
  revert names dns u. induction allocs as [|[k v] allocs IH]; intros names dns u; cbn [validateNames map]; [intros _; split_and!; constructor|].
  intros (? & Hv%require_Ok & H)%bind_Ok. apply bind_Ok in H as (? & Hd%require_Ok & H).
  apply negb_true_iff, bool_decide_eq_false in Hd.
  assert (∃ dns' u, validateNames allocs ({[string_lower k]} ∪ names) dns' = Ok u) as (dns' & u' & H').
  { destruct (as_map v) as [c|]; [|eauto]. destruct (stringField c "dns_name") as [[|]|]; [eauto| |eauto].
    revert H. rewrite bind_Ok. intros (_ & _ & H). eauto. }
  apply IH in H' as (H1 & H2 & H3). split_and!.
  - by constructor.
  - constructor; [|done]. intros ([k' v'] & Hk & Hin)%list_elem_of_fmap. cbn in Hk.
    rewrite Forall_forall in H3. apply H3 in Hin. cbn in Hin. set_solver.
  - constructor; [done|]. eapply Forall_impl; [exact H3|]. cbn. set_solver.
Qed.

Lemma NoDup_lower (allocs : fields) : NoDup (map (λ kv, string_lower kv.1) allocs) → NoDup (map fst allocs).
Proof. rewrite <- (map_map fst string_lower). apply NoDup_fmap_1. Qed.

(** *** Dependencies *)

(** What [depends_on] of an allocation lists, in the tree the validator sees.  The decoding of
    the tree into structures, which matches the names of fields without their case, is not
    modelled: where a tree spells the field otherwise the orchestrator sees more than this. *)
Definition dependsOn (v : value) : list string := default [] (neighboursAt (NewPath ["depends_on"]) v).

Definition dependencies (allocs : fields) : gmap string (list string) :=
  list_to_map (map (λ kv, (kv.1, dependsOn kv.2)) allocs).

Lemma adjacency_lookup allocs k l :
  NoDup (map fst allocs) →
  CreateAdjencyList allocs (NewPath ["depends_on"]) !! k = Some l ↔
  ∃ v, (k, v) ∈ allocs ∧ neighboursAt (NewPath ["depends_on"]) v = Some l.
Proof.
  induction allocs as [|[k0 v0] allocs IH]; cbn [CreateAdjencyList map]; intros Hnd.
  - rewrite lookup_empty. split; [done|]. by intros (v & ?%elem_of_nil & _).
  - apply NoDup_cons in Hnd as [Hk Hnd]. specialize (IH Hnd). setoid_rewrite elem_of_cons.
    assert (∀ v, (k0, v) ∉ allocs) as Hnot by (intros v Hin; apply Hk, list_elem_of_fmap; by exists (k0, v)).
    destruct (neighboursAt _ v0) as [l0|] eqn:Hl0.
    + destruct (decide (k = k0)) as [-> |Hne].
      * rewrite lookup_insert_eq. split; [intros [= ->]; eauto|]. intros (v & [[= ->]|Hin] & Hv); [congruence|by apply Hnot in Hin].
      * rewrite lookup_insert_ne by done. rewrite IH. split; [naive_solver|]. intros (v & [[= -> ->]|Hin] & Hv); [done|eauto].
    + rewrite IH. split; [naive_solver|]. intros (v & [[= -> ->]|Hin] & Hv); [congruence|eauto].
Qed.

Lemma dependencies_lookup allocs k l :
  NoDup (map fst allocs) → dependencies allocs !! k = Some l ↔ ∃ v, (k, v) ∈ allocs ∧ l = dependsOn v.
Proof.
  intros Hnd. unfold dependencies. rewrite <- elem_of_list_to_map.
  - rewrite list_elem_of_fmap. split; [intros ([k' v] & [= -> ->] & Hin); eauto|]. intros (v & Hin & ->). by exists (k, v).
  - change (NoDup (map fst (map (λ kv : string * value, (kv.1, dependsOn kv.2)) allocs))). by rewrite map_map.
Qed.

(** The two graphs have the same edges. *)
Lemma dependencies_edge allocs x y :
  NoDup (map fst allocs) →
  y ∈ deps (dependencies allocs) x ↔ edge (CreateAdjencyList allocs (NewPath ["depends_on"])) x y.
Proof.
  intros Hnd. unfold deps, edge. split.
  - destruct (dependencies allocs !! x) as [l|] eqn:Hl; [|by intros ?%elem_of_nil].
    apply dependencies_lookup in Hl as (v & Hin & ->); [|done]. unfold dependsOn.
    destruct (neighboursAt _ v) as [l|] eqn:Hv; [|by intros ?%elem_of_nil].
    assert (CreateAdjencyList allocs (NewPath ["depends_on"]) !! x = Some l) as -> by (apply adjacency_lookup; eauto). done.
  - destruct (CreateAdjencyList _ _ !! x) as [l|] eqn:Hl; [|by intros ?%elem_of_nil].
    apply adjacency_lookup in Hl as (v & Hin & Hv); [|done].
    assert (dependencies allocs !! x = Some l) as -> by (apply dependencies_lookup; [done|]; exists v; unfold dependsOn; by rewrite Hv).
    done.
Qed.

(** A finite set in which everything has a successor holds a cycle. *)
Lemma successors_cycle (R : relation string) (X : gset string) :
  transitive _ R → X ≠ ∅ → (∀ x, x ∈ X → ∃ y, R x y ∧ y ∈ X) → ∃ x, R x x.
Proof.
  intros Htrans. remember (size X) as n eqn:Hn. revert X Hn. induction n as [n IH] using lt_wf_ind. intros X -> Hne Hsucc.
  apply set_choose_L in Hne as [v Hv]. destruct (Hsucc v Hv) as (d & Hvd & Hd).
  destruct (decide (d = v)) as [-> |Hdv]; [by exists v|]. eapply (IH (size (X ∖ {[v]}))); [|reflexivity|set_solver|].
  - by apply subset_size, subset_difference_elem_of.
  - intros x Hx. destruct (Hsucc x) as (y & Hxy & Hy); [set_solver|]. destruct (decide (y = v)) as [-> |Hyv].
    + exists d. split; [by eapply Htrans|set_solver].
    + exists y. set_solver.
Qed.

Lemma ValidateSpec_Ok spec :
  ValidateSpec (VMap spec) = Ok () →
  ∃ allocs, mapField spec "allocations" = Some allocs ∧ allocs ≠ [] ∧
    Forall (λ kv, IsDNSNameValid kv.1 = true) allocs ∧ NoDup (map (λ kv, string_lower kv.1) allocs) ∧
    (∀ x, ¬ tc (edge (CreateAdjencyList allocs (NewPath ["depends_on"]))) x x) ∧
    (∀ nodes, mapField spec "nodes" = Some nodes → placeNodes allocs nodes ∅ = Ok ()).
Proof.
  unfold ValidateSpec. cbn [as_map]. intros (_ & _ & H)%bind_Ok. revert H.
  destruct (mapField spec "allocations") as [[|kv allocs]|]; [done| |done].
  intros (_ & Hn%validateNames_Ok & H)%bind_Ok. revert H.
  destruct (DetectCycles _) as [[]|] eqn:Hc; [done| |done]. intros (_ & _ & H)%bind_Ok.
  exists (kv :: allocs). destruct Hn as (H1 & H2 & _). split_and!; [done..| |].
  - destruct (DetectCycles_spec (CreateAdjencyList (kv :: allocs) (NewPath ["depends_on"]))) as (b & Hb & Hiff).
    intros x Hx. assert (b = true) as -> by (apply Hiff; by exists x). congruence.
  - intros nodes Hnodes. rewrite Hnodes in H. exact H.
Qed.

Lemma root_allocations spec allocs :
  mapField spec "allocations" = Some allocs → GetConfigAtPath (ensemble spec) "V1.allocations" = Ok (VMap allocs).
Proof.
  intros Ha%mapField_field. unfold GetConfigAtPath. change (Parts "V1.allocations") with ["V1"; "allocations"].
  unfold ensemble. cbn [getAt]. change (field [("v1", VMap spec)] "V1") with (@None value).
  change (field [("v1", VMap spec)] (string_lower "V1")) with (Some (VMap spec)). cbn [getAt]. by rewrite Ha.
Qed.

(** What an allocation that was validated depends on is among the allocations. *)
Lemma ValidateAllocation_deps spec allocs v path dep :
  mapField spec "allocations" = Some allocs → ValidateAllocation (ensemble spec) v path = Ok () → dep ∈ dependsOn v →
  ∃ w, (dep, w) ∈ allocs.
Proof.
  intros Ha Hv Hdep. unfold ValidateAllocation in Hv. destruct v as [| | | | | | | | | | |m|]; try done. cbn [as_map] in Hv.
  assert (∀ d, field m "depends_on" = Some d → checkDependsOn (ensemble spec) path d = Ok ()) as Hd.
  { intros d Hd. rewrite Hd in Hv. apply bind_Ok in Hv as (_ & _ & Hv). apply bind_Ok in Hv as (_ & _ & Hv). revert Hv.
    destruct (stringField m "executor") as [[|]|]; [done| |done]. destruct (mapField m "execution") as [ex|]; [|done].
    destruct (stringField ex "type") as [[|]|]; [done| |done].
    intros (_ & _ & Hv)%bind_Ok. apply bind_Ok in Hv as (_ & _ & Hv). apply bind_Ok in Hv as (_ & _ & Hv).
    apply bind_Ok in Hv as (_ & _ & Hv). apply bind_Ok in Hv as ([] & Hd' & _). exact Hd'. }
  unfold dependsOn, neighboursAt, GetConfigAtPath in Hdep. change (Parts (NewPath ["depends_on"])) with ["depends_on"] in Hdep.
  cbn [getAt] in Hdep. change (string_lower "depends_on") with "depends_on" in Hdep.
  destruct (field m "depends_on") as [d|] eqn:Hf; [|by apply elem_of_nil in Hdep]. specialize (Hd d eq_refl).
  unfold checkDependsOn in Hd. destruct d as [| | | | | | | | | |l| |]; try done. cbn [as_list] in Hd.
  assert (dep ∈ omap as_string l) as Hin by (destruct (omap as_string l); [by apply elem_of_nil in Hdep|done]).
  apply list_elem_of_omap in Hin as (x & Hx & Hxs).
  rewrite (root_allocations _ _ Ha) in Hd. cbn [as_map default] in Hd. apply (each_Ok _ _ _ Hd) in Hx. rewrite Hxs in Hx.
  apply bind_Ok in Hx as (_ & _ & Hx%require_Ok). unfold index in Hx. cbn [id] in Hx.
  destruct (field allocs dep) as [w|] eqn:Hw; [|done]. exists w. by apply field_In.
Qed.

(** C37: an ensemble that the parser accepts can be deployed in order: when no name of an
    allocation has a dot, its dependencies exist and have no cycle, and the sort of the
    orchestrator returns levels that hold every allocation once, each after what it
    depends on. *)
Theorem accepted_spec_orders spec :
  accepted spec →
  ∃ allocs, mapField spec "allocations" = Some allocs ∧ allocs ≠ [] ∧ NoDup (map (λ kv, string_lower kv.1) allocs) ∧
    (Forall (λ kv, Contains kv.1 "." = false) allocs →
     ∃ ls, orderByDependency (dependencies allocs) = Ok ls ∧ concat ls ≡ₚ map fst allocs ∧
       ∀ i level v dep, ls !! i = Some level → v ∈ level → dep ∈ deps (dependencies allocs) v →
         ∃ j earlier, (j < i)%nat ∧ ls !! j = Some earlier ∧ dep ∈ earlier).
Proof.
  intros (Hs & Halloc & _)%accepted_inv. apply ValidateSpec_Ok in Hs as (allocs & Ha & Hne & Hdns & Hlow & Hcyc & _).
  exists allocs. split_and!; [done..|]. intros Hdots. pose proof (NoDup_lower _ Hlow) as Hnd.
  pose proof (orderByDependency_answer (dependencies allocs)) as Hans. unfold answer in Hans.
  destruct (orderByDependency (dependencies allocs)) as [ls|[v d|]|]; [|exfalso..].
  - exists ls. destruct Hans as [Hp Hord]. split_and!; [done| |done]. rewrite Hp. unfold dependencies.
    rewrite map_to_list_to_map; rewrite map_map; done.
  - destruct Hans as [Hd Hnone]. unfold deps in Hd. destruct (dependencies allocs !! v) as [l|] eqn:Hl; [|by apply elem_of_nil in Hd].
    apply dependencies_lookup in Hl as (x & Hin & ->); [|done]. rewrite Forall_forall in Hdots, Hdns.
    destruct (ValidateAllocation_deps spec allocs x (Next (Next "v1" "allocations") v) d Ha) as [w Hw]; [|done|].
    + apply Halloc with allocs; [done..| |by apply (Hdots (v, x))]. intros ->. by apply Hdns in Hin.
    + assert (dependencies allocs !! d = Some (dependsOn w)) as Hs by (apply dependencies_lookup; eauto). congruence.
  - destruct Hans as (X & HX & _ & Hsucc).
    destruct (successors_cycle (tc (edge (CreateAdjencyList allocs (NewPath ["depends_on"])))) X) as [x Hx]; [|done| |by apply Hcyc in Hx].
    + intros x y z. apply tc_transitive.
    + intros x Hx. destruct (Hsucc x Hx) as (d & Hd & Hin). exists d. split; [|done]. apply tc_once. by apply dependencies_edge.
  - done.
Qed.

(** *** Placement *)

(** The names a node lists. *)
Definition nodeNames (v : value) : list string :=
  match as_map v with
  | Some node => match listField node "allocations" with Some l => omap as_string l | None => [] end
  | None => []
  end.

Lemma placeAllocations_Ok allocs na l placed placed' :
  placeAllocations allocs na l placed = Ok placed' →
  NoDup (omap as_string l) ∧ Forall (λ a, a ∉ placed ∧ checkDependencies allocs na a = Ok ()) (omap as_string l) ∧
  placed' = placed ∪ list_to_set (omap as_string l).
Proof.
  revert placed. induction l as [|v l IH]; intros placed; cbn [placeAllocations omap list_omap].
  - intros [= <-]. split_and!; [constructor..|set_solver].
  - destruct (as_string v) as [a|]; [|apply IH]. intros (_ & Hn%require_Ok & H)%bind_Ok.
    apply bind_Ok in H as ([] & Hc & H). apply negb_true_iff, bool_decide_eq_false in Hn.
    apply IH in H as (H1 & H2 & ->). rewrite Forall_forall in H2. split_and!.
    + constructor; [|done]. intros Hin. apply H2 in Hin. set_solver.
    + constructor; [done|]. apply Forall_forall. intros x [Hx ?]%H2. set_solver.
    + cbn. set_solver.
Qed.

Lemma placeNodes_Ok allocs nodes placed :
  placeNodes allocs nodes placed = Ok () →
  NoDup (concat (map (λ kv, nodeNames kv.2) nodes)) ∧
  Forall (λ a, a ∉ placed) (concat (map (λ kv, nodeNames kv.2) nodes)) ∧
  ∀ n v a node l, (n, v) ∈ nodes → v = VMap node → listField node "allocations" = Some l → a ∈ omap as_string l →
    checkDependencies allocs l a = Ok ().
Proof.
  revert placed. induction nodes as [|[k v] nodes IH]; intros placed; cbn [placeNodes map concat].
  { intros _. split_and!; [constructor..|]. intros n v a node l ?%elem_of_nil. done. }
  assert (Hskip : ∀ placed, placeNodes allocs nodes placed = Ok () → nodeNames v = [] →
    (∀ node l, v = VMap node → listField node "allocations" = Some l → omap as_string l = []) →
    NoDup (nodeNames v ++ concat (map (λ kv, nodeNames kv.2) nodes)) ∧
    Forall (λ a, a ∉ placed) (nodeNames v ++ concat (map (λ kv, nodeNames kv.2) nodes)) ∧
    ∀ n v0 a node l, (n, v0) ∈ (k, v) :: nodes → v0 = VMap node → listField node "allocations" = Some l → a ∈ omap as_string l →
      checkDependencies allocs l a = Ok ()).
  { intros placed' (H1 & H2 & H3)%IH -> Hno. split_and!; [done..|].
    intros n v0 a node l [[= -> ->]|Hin]%elem_of_cons; [|by eapply H3]. intros Hv Hl Ha. rewrite (Hno _ _ Hv Hl) in Ha. by apply elem_of_nil in Ha. }
  destruct v as [| | | | | | | | | | |m|]; cbn [as_map]; try (intros H; by apply Hskip).
  destruct (listField m "allocations") as [na|] eqn:Hna.
  2:{ intros H. apply Hskip; [done| |]; [unfold nodeNames; cbn [as_map]; by rewrite Hna|]. intros node l [= <-]. congruence. }
  clear Hskip. intros (placed1 & (H1 & H2 & ->)%placeAllocations_Ok & (H3 & H4 & H5)%IH)%bind_Ok.
  cbn [snd]. assert (nodeNames (VMap m) = omap as_string na) as -> by (unfold nodeNames; cbn [as_map]; by rewrite Hna).
  rewrite Forall_forall in H2, H4. split_and!.
  - apply NoDup_app. split_and!; [done| |done]. intros x Hx Hin. apply H4 in Hin. set_solver.
  - apply Forall_app. split; apply Forall_forall; intros x Hx; [by apply H2|]. apply H4 in Hx. set_solver.
  - intros n v0 a node l [[= -> ->]|Hin]%elem_of_cons; [|by eapply H5]. intros [= <-] Hl Ha. rewrite Hna in Hl. injection Hl as <-.
    by apply H2.
Qed.

Lemma field_unique (m : fields) k v : NoDup (map fst m) → (k, v) ∈ m → field m k = Some v.
Proof.
  induction m as [|[k' v'] m IH]; cbn; [by intros _ ?%elem_of_nil|]. intros [Hk Hnd]%NoDup_cons [[= -> ->]|Hin]%elem_of_cons.
  - by rewrite bool_decide_true.
  - rewrite bool_decide_false; [by apply IH|]. intros ->. apply Hk, list_elem_of_fmap. by exists (k, v).
Qed.

(** What a node that was validated lists is among the allocations. *)
Lemma ValidateNode_names spec allocs v a :
  mapField spec "allocations" = Some allocs → ValidateNode (ensemble spec) v = Ok () → a ∈ nodeNames v →
  ∃ w, (a, w) ∈ allocs.
Proof.
  intros Ha Hv Hin. destruct v as [| | | | | | | | | | |m|]; try done. unfold nodeNames in Hin. cbn [as_map] in Hin.
  unfold ValidateNode in Hv. cbn [as_map] in Hv. apply bind_Ok in Hv as ([] & Hv & _).
  destruct (listField m "allocations") as [l|]; [|by apply elem_of_nil in Hin]. cbn [opt] in Hv.
  unfold rootMap in Hv. change (NewPath ["V1.allocations"]) with "V1.allocations" in Hv. rewrite (root_allocations _ _ Ha) in Hv.
  apply list_elem_of_omap in Hin as (x & Hx & Hxs). apply (each_Ok _ _ _ Hv) in Hx. rewrite Hxs in Hx. apply require_Ok in Hx.
  unfold has in Hx. destruct (field allocs a) as [w|] eqn:Hw; [|done]. exists w. by apply field_In.
Qed.

(** C38: in an ensemble that the parser accepts every allocation is on at most one node, a node
    whose name is not empty and has no dot lists only allocations that exist (the validator
    of a node is not run for another name), and an allocation is on the same node as those it
    depends on. *)
Theorem accepted_placement spec allocs nodes :
  accepted spec → mapField spec "allocations" = Some allocs → mapField spec "nodes" = Some nodes →
  NoDup (concat (map (λ kv, nodeNames kv.2) nodes)) ∧
  ∀ n v, (n, v) ∈ nodes →
    (n ≠ "" → Contains n "." = false → ∀ a, a ∈ nodeNames v → ∃ w, (a, w) ∈ allocs) ∧
    ∀ a c l dep, a ∈ nodeNames v → (a, VMap c) ∈ allocs → listField c "depends_on" = Some l → dep ∈ omap as_string l →
      dep ∈ nodeNames v.
Proof.
  intros (Hs & _ & Hnode)%accepted_inv Ha Hn. apply ValidateSpec_Ok in Hs as (allocs' & Ha' & _ & _ & Hlow & _ & Hp).
  rewrite Ha in Ha'. injection Ha' as <-. destruct (placeNodes_Ok _ _ _ (Hp nodes Hn)) as (Hnd & _ & Hdeps). split; [done|].
  intros n v Hin. split.
  - intros Hne Hdot a Hna. eapply ValidateNode_names; [done| |done]. by eapply Hnode.
  - intros a c l dep Hna Hc Hl Hdep. apply NoDup_lower in Hlow. apply (field_unique _ _ _ Hlow) in Hc.
    destruct v as [| | | | | | | | | | |m|]; try (by apply elem_of_nil in Hna). unfold nodeNames in *. cbn [as_map] in *.
    destruct (listField m "allocations") as [na|] eqn:Hl'; [|by apply elem_of_nil in Hna].
    specialize (Hdeps _ _ _ _ _ Hin eq_refl Hl' Hna). unfold checkDependencies, mapField, index in Hdeps. rewrite Hc in Hdeps.
    cbn [default as_map id] in Hdeps. rewrite Hl in Hdeps.
    apply list_elem_of_omap in Hdep as (x & Hx & Hxs). apply (each_Ok _ _ _ Hdeps) in Hx. rewrite Hxs in Hx. cbn [opt] in Hx.
    apply require_Ok in Hx. unfold containsName in Hx. apply existsb_exists in Hx as (y & Hy & Hb).
    apply bool_decide_eq_true in Hb. apply list_elem_of_omap. exists y. split; [by apply list_elem_of_In|done].
Qed.

(** *** What escapes *)

Lemma walkFields_keep f p m : (∀ k v, (k, v) ∈ m → f v (Next p k) = Some (Ok v)) → walkFields f p m = Some (Ok m).
Proof.
  induction m as [|[k v] m IH]; intros Hf; cbn; [done|]. rewrite (Hf k v), IH by (left || (intros; apply Hf; by right)). done.
Qed.

Lemma walkList_keep f p i l : (∀ j v, v ∈ l → f v (Next p (indexPart j)) = Some (Ok v)) → walkList f p i l = Some (Ok l).
Proof.
  revert i. induction l as [|v l IH]; intros i Hf; cbn; [done|]. rewrite (Hf i v), IH by (left || (intros; apply Hf; by right)). done.
Qed.

Lemma walk_map fuel vs root m p :
  applyAll vs root (VMap m) p = Ok (VMap m) → (∀ k v, (k, v) ∈ m → validate fuel vs root v (Next p k) = Some (Ok v)) →
  validate (S fuel) vs root (VMap m) p = Some (Ok (VMap m)).
Proof. intros Ha Hf. cbn [validate]. by rewrite Ha, walkFields_keep. Qed.

Lemma walk_dotted fuel root v p n rest :
  Parts p = "v1" :: "allocations" :: n :: "b" :: rest → (height v ≤ fuel)%nat →
  validate fuel (visit (NewEnsembleV1Validator wild)) root v p = Some (Ok v).
Proof.
  revert v p rest. induction fuel as [|fuel IH]; intros v p rest Hp Hh; [pose proof (height_pos v); lia|]. cbn [validate].
  rewrite (at_dotted _ _ _ _ _ Hp). assert (p ≠ "") as Hne by (intros ->; done).
  assert (Hn : ∀ k, ∃ rest, Parts (Next p k) = "v1" :: "allocations" :: n :: "b" :: rest).
  { intros k. destruct (decide (k = "")) as [-> |Hk]; [by exists rest|]. rewrite Parts_Next, Hp by done. cbn. eauto. }
  destruct v as [| | | | | | | | | |l|m|]; try done.
  - apply height_list in Hh. rewrite Forall_forall in Hh. rewrite walkList_keep; [done|]. intros j v Hv.
    destruct (Hn (indexPart j)) as [rest' Hr]. apply (IH _ _ _ Hr). by apply Hh.
  - apply height_map in Hh. rewrite Forall_forall in Hh. rewrite walkFields_keep; [done|]. intros k v Hv.
    destruct (Hn k) as [rest' Hr]. apply (IH _ _ _ Hr). by apply (Hh (k, v)).
Qed.

(** An allocation whose name has a dot is not validated, although a comment asks for
    names that are fully qualified: whatever its configuration is, with or without an
    executor, an execution or resources, a specification with such an allocation is accepted
    as it is. *)
Theorem dotted_allocation_unchecked m :
  field m "depends_on" = None →
  let spec := [("allocations", VMap [("a.b", VMap m)])] in
  Validate wild (ensemble spec) = Some (Ok (ensemble spec)).
Proof.
  intros Hdep spec. assert (ValidateSpec (VMap spec) = Ok ()) as Hspec.
  { unfold ValidateSpec. cbn [as_map].
    change (stringField spec "escalation_strategy") with (@None string).
    change (mapField spec "allocations") with (Some [("a.b", VMap m)]). cbn [opt].
    assert (validateNames [("a.b", VMap m)] ∅ ∅ = Ok ()) as ->.
    { cbn [validateNames]. change (IsDNSNameValid "a.b") with true. cbn [require as_map]. rewrite bool_decide_false by set_solver. cbn [negb require].
      destruct (stringField m "dns_name") as [[|c s0]|]; [done| |done]. by rewrite bool_decide_false by set_solver. }
    assert (CreateAdjencyList [("a.b", VMap m)] (NewPath ["depends_on"]) = ∅) as ->.
    { cbn [CreateAdjencyList]. unfold neighboursAt, GetConfigAtPath. change (Parts (NewPath ["depends_on"])) with ["depends_on"].
      cbn [getAt]. change (string_lower "depends_on") with "depends_on". by rewrite Hdep. }
    destruct (DetectCycles_spec ∅) as (b & -> & Hb). destruct b; [|done]. destruct Hb as [Hb _].
    destruct (Hb eq_refl) as [x Hx]. apply tc_first in Hx as (y & Hy & _). unfold edge in Hy. rewrite lookup_empty in Hy.
    by apply elem_of_nil in Hy. }
  unfold Validate. assert (∃ n, height (ensemble spec) = S (S (S n)) ∧ (height (VMap m) ≤ n)%nat) as (n & -> & Hn).
  { exists (height (VMap m)). cbn. lia. }
  apply walk_map; [by apply (at_nothing _ _ _ [""]); [|left]|]. intros k v [[= -> ->]|[]%elem_of_nil]%elem_of_cons.
  apply walk_map; [rewrite at_spec; by apply keeps_Ok|]. intros k v [[= -> ->]|[]%elem_of_nil]%elem_of_cons.
  apply walk_map; [by apply (at_nothing _ _ _ ["v1"; "allocations"]); [|right; left]|].
  intros k v [[= -> ->]|[]%elem_of_nil]%elem_of_cons. by apply (walk_dotted _ _ _ _ "a" []).
Qed.

(** A key of a single dot makes a path with an empty part, which the pattern for the entries
    of a list reads without looking: the parser stops with a panic. *)
Theorem dot_key_panics : Matches "v1.edges.." "V1.edges.[]" = Panic.
Proof. reflexivity. Qed.

Theorem Validate_ends v : is_Some (Validate wild v).
Proof. by apply validate_total. Qed.
End accepted.

(** ** A sample *)

#[local] Instance spec_visit : MapVisit := {| visit A l := l; visit_perm A l := reflexivity l |}.

Definition sample_allocation (image : string) (dependsOn : list string) : value :=
  VMap [("type", VString "service"); ("executor", VString "docker"); ("failure_recovery", VString "stay_down");
        ("execution", VMap [("type", VString "docker");
           ("params", VMap [("image", VString image); ("environment", VStrings ["PORT=80"; "EMPTY="])])]);
        ("resources", VMap [("cpu", VMap [("cores", VInt 1)]); ("ram", VMap [("size", VUint64 1073741824)]);
           ("disk", VMap [("size", VUint64 1073741824)])]);
        ("depends_on", VList (map VString dependsOn))].

Definition sample_spec : fields :=
  [("allocations", VMap [("web", sample_allocation "nginx:1.25" ["db"]); ("db", sample_allocation "postgres" [])]);
   ("nodes", VMap [("n1", VMap [("allocations", VList [VString "db"; VString "web"]); ("failure_recovery", VString "restart");
      ("redundancy", VInt 0);
      ("ports", VList [VMap [("private", VInt 80); ("public", VInt 8080); ("allocation", VString "web")]]);
      ("location", VMap [("accept", VList [VMap [("continent", VString "Europe")]])])])])].

Definition no_wild (x : float64) : Z := 0%Z.

Lemma sample_accepted : accepted no_wild sample_spec.
Proof. eexists. vm_compute. reflexivity. Qed.

Lemma accepted_spec_orders_witness :
  ∃ allocs, mapField sample_spec "allocations" = Some allocs ∧ Forall (λ kv, Contains kv.1 "." = false) allocs ∧
    ∃ ls, orderByDependency (dependencies allocs) = Ok ls ∧ concat ls ≡ₚ ["web"; "db"].
Proof.
  destruct (accepted_spec_orders no_wild sample_spec sample_accepted) as (allocs & Ha & _ & _ & H). exists allocs.
  vm_compute in Ha. injection Ha as <-. split; [reflexivity|]. split; [repeat constructor|].
  destruct H as (ls & H1 & H2 & _); [repeat constructor|]. exists ls. split; [exact H1|exact H2].
Defined.

Lemma accepted_placement_witness :
  accepted no_wild sample_spec ∧
  ∃ allocs nodes, mapField sample_spec "allocations" = Some allocs ∧ mapField sample_spec "nodes" = Some nodes ∧
    NoDup (concat (map (λ kv, nodeNames kv.2) nodes)) ∧ concat (map (λ kv, nodeNames kv.2) nodes) = ["db"; "web"].
Proof.
  split; [exact sample_accepted|]. eexists _, _. split; [reflexivity|]. split; [reflexivity|]. split; [|reflexivity].
  eapply (accepted_placement no_wild sample_spec _ _ sample_accepted); reflexivity.
Defined.

Lemma dotted_allocation_unchecked_witness :
  Validate no_wild (ensemble [("allocations", VMap [("a.b", VMap [("executor", VInt 5)])])]) =
  Some (Ok (ensemble [("allocations", VMap [("a.b", VMap [("executor", VInt 5)])])])).
Proof. apply (dotted_allocation_unchecked no_wild [("executor", VInt 5)]). reflexivity. Defined.

(** The servers of a volume are a list of any values when they come from YAML, and the
    validator asks for a list of strings: such a volume is always refused. *)
Example glusterfs_refused :
  validateOneVolume (VMap [("type", VString "glusterfs"); ("servers", VList [VString "s1"]); ("mount_destination", VString "/m")]) =
  Err "glusterfs type volume must define one or more servers".
Proof. reflexivity. Qed.

(** Not a number counts as a positive number of cores. *)
Example nan_is_positive : ToPositiveFloat64 (VString "NaN") = Ok S754_nan.
Proof. vm_compute. reflexivity. Qed.

(** A private port has no upper bound. *)
Example private_port_unbounded :
  validatePort VNil (VMap [("private", VInt 70000); ("public", VInt 0)]) = Ok ().
Proof. reflexivity. Qed.

(** The supervisors below the children of the root are not validated. *)
Example grandchild_unchecked : Matches "v1.supervisor.children.[0].children.[0]" "V1.supervisor.children.[]" = Ok false.
Proof. reflexivity. Qed.

(** The sample without the second allocation is refused, as is one with a cycle. *)
Example missing_dependency :
  Validate no_wild (ensemble [("allocations", VMap [("web", sample_allocation "nginx" ["db"])])]) =
  Some (Err "depends_on allocation not found").
Proof. vm_compute. reflexivity. Qed.

Example cyclic_dependency :
  ValidateSpec (VMap [("allocations", VMap [("a", sample_allocation "x" ["b"]); ("b", sample_allocation "y" ["a"])])]) =
  Err "cyclic dependencies detected in allocations".
Proof. vm_compute. reflexivity. Qed.
