(* ===== verification/Resolver.v ===== *)
(** * Placeholders (dms/jobs/parser/resolve and ensemblev1/resolve.go)

    Strings of a configuration may hold expressions [${source:key:-default}] that are replaced
    by the value of an environment variable or the content of a file, until none is left. *)

From Stdlib Require Import SpecFloat Ascii DecimalString DecimalN.
From S2P Require Import Prelude GoStrings GoNumbers ResourceManager GoTime GoText ConfigTree SpecValidator.
Open Scope go_scope.

Inductive resolve_error := ErrNotExist | ErrUnknownSource | ErrRead.

(** A source of values. *)
Definition Handler : Type := string → outcome resolve_error string.

(** [read] is the file system: the content of a path, whether it exists, or an error. *)
Definition FileResolver (join : string → string → string) (read : string → outcome resolve_error string) (basePath : string) : Handler :=
  λ path, read (join basePath path).

Definition EnvResolver (getenv : string → string) : Handler :=
  λ key, let val := getenv key in if bool_decide (val = "") then Err ErrNotExist else Ok val.

(** What follows [${] up to the brace that closes it: at least one character, no braces. *)
Fixpoint content (s : string) : option string :=
  match s with
  | EmptyString => None
  | String c s =>
      if bool_decide (c = "}"%char) then Some ""
      else if bool_decide (c = "{"%char) then None
      else String c <$> content s
  end.

(** The leftmost match of [\${([^{}]+?)}]: its group. *)
Fixpoint findExpression (s : string) : option string :=
  match s with
  | EmptyString => None
  | String _ r =>
      match strip_prefix s "${" with
      | Some t => match content t with
                  | Some (String c x) => Some (String c x)
                  | _ => findExpression r
                  end
      | None => findExpression r
      end
  end.

Definition expression (x : string) : string := "${" +:+ x +:+ "}".

(** [bytes.Replace(s, old, new, 1)] *)
Definition replaceFirst (s old new : string) : string :=
  match Cut s old with Some (a, b) => a +:+ new +:+ b | None => s end.

(** The two sources of an ensemble. *)
Definition sources (getenv : string → string) (file : Handler) : gmap string Handler :=
  <["env" := EnvResolver getenv]> {["file" := file]}.

Section resolver.
  Context (SourceHandlers : gmap string Handler).

(** Modifiers after a bar are ignored, and a source that is not known is an error even when
    there is a default. *)
Definition resolveContent (content : string) : outcome resolve_error string :=
  let '(mainPart, defaultValue) := match Cut content ":-" with Some (m, d) => (m, Some d) | None => (content, None) end in
  let sourceAndKey := default "" (head (Split mainPart "|")) in
  let '(source, key) := match Cut sourceAndKey ":" with Some (s, k) => (s, k) | None => ("env", sourceAndKey) end in
  match SourceHandlers !! source with
  | None => Err ErrUnknownSource
  | Some handler =>
      match handler key with
      | Err e => match defaultValue with Some d => Ok d | None => Err e end
      | r => r
      end
  end.

(** [None] while the loop has not ended after [fuel] rounds. *)
Fixpoint Process (fuel : nat) (input : string) : option (outcome resolve_error string) :=
  match fuel with
  | O => None
  | S fuel =>
      match findExpression input with
      | None => Some (Ok input)
      | Some content =>
          match resolveContent content with
          | Ok v => Process fuel (replaceFirst input (expression content) v)
          | Err e => Some (Err e)
          | Panic => Some Panic
          end
      end
  end.

(** The walk over the configuration: the strings are processed where they are. *)
Fixpoint resolvePlaceholders (fuel : nat) (data : value) : option (outcome resolve_error value) :=
  match data with
  | VString s =>
      match Process fuel s with
      | Some r => Some (let? s := r in Ok (VString s))
      | None => None
      end
  | VMap m =>
      match (fix go m :=
               match m with
               | [] => Some (Ok [])
               | (k, v) :: m =>
                   match resolvePlaceholders fuel v with
                   | Some (Ok v) => match go m with Some r => Some (let? m := r in Ok ((k, v) :: m)) | None => None end
                   | Some (Err e) => Some (Err e)
                   | Some Panic => Some Panic
                   | None => None
                   end
               end) m with
      | Some r => Some (let? m := r in Ok (VMap m))
      | None => None
      end
  | VList l =>
      match (fix go l :=
               match l with
               | [] => Some (Ok [])
               | v :: l =>
                   match resolvePlaceholders fuel v with
                   | Some (Ok v) => match go l with Some r => Some (let? l := r in Ok (v :: l)) | None => None end
                   | Some (Err e) => Some (Err e)
                   | Some Panic => Some Panic
                   | None => None
                   end
               end) l with
      | Some r => Some (let? l := r in Ok (VList l))
      | None => None
      end
  | v => Some (Ok v)
  end.

(** ** Termination *)

Fixpoint dollars (s : string) : nat :=
  match s with
  | EmptyString => 0
  | String c s => if bool_decide (c = "$"%char) then S (dollars s) else dollars s
  end.

Lemma dollars_app a b : dollars (a +:+ b) = (dollars a + dollars b)%nat.
Proof.
  induction a as [|c a IH]; [done|]. rewrite string_app_cons. cbn [dollars]. rewrite IH. by case_bool_decide.
Qed.

Lemma Contains_app a sub b : Contains (a +:+ (sub +:+ b)) sub = true.
Proof.
  induction a as [|c a IH].
  - rewrite string_app_nil_l. assert (HasPrefix (sub +:+ b) sub = true) as H by (apply HasPrefix_spec; by exists b).
    destruct (sub +:+ b); cbn [Contains]; by rewrite H.
  - rewrite string_app_cons. cbn [Contains]. rewrite IH. apply orb_true_r.
Qed.

Lemma content_Some s x : content s = Some x → ∃ r, s = x +:+ ("}" +:+ r).
Proof.
  revert x. induction s as [|c s IH]; intros x; cbn [content]; [done|].
  case_bool_decide as Hc; [intros [= <-]; exists s; by subst|]. case_bool_decide; [done|].
  destruct (content s) as [y|]; [|done]. intros [= <-]. destruct (IH y eq_refl) as [r ->]. exists r. by rewrite string_app_cons.
Qed.

Lemma findExpression_Some s x : findExpression s = Some x → ∃ a b, s = a +:+ (expression x +:+ b).
Proof.
  induction s as [|c s IH]; cbn [findExpression]; [done|].
  assert (Hrec : findExpression s = Some x → ∃ a b, String c s = a +:+ (expression x +:+ b)).
  { intros (a & b & ->)%IH. exists (String c a), b. by rewrite string_app_cons. }
  destruct (strip_prefix (String c s) "${") as [t|] eqn:Ht; [|done].
  destruct (content t) as [[|d y]|] eqn:Hy; [done| |done]. intros [= <-].
  apply strip_prefix_Some in Ht. apply content_Some in Hy as [r ->]. exists "", r. rewrite Ht. unfold expression.
  by rewrite string_app_nil_l, <- !string_app_assoc.
Qed.

Lemma Cut_dollars s sep a b : Cut s sep = Some (a, b) → (dollars b ≤ dollars s)%nat.
Proof. intros ->%Cut_Some. rewrite !dollars_app. lia. Qed.

Lemma expression_dollars x : dollars (expression x) = S (dollars x).
Proof.
  unfold expression. rewrite !dollars_app. change (dollars "${") with 1%nat. change (dollars "}") with 0%nat. lia.
Qed.

(** Each round removes the dollar sign of an expression. *)
Lemma replace_dollars s x v :
  findExpression s = Some x → (dollars v ≤ dollars x)%nat → (dollars (replaceFirst s (expression x) v) < dollars s)%nat.
Proof.
  intros (a & b & Hs)%findExpression_Some Hv. unfold replaceFirst.
  assert (Contains s (expression x) = true) as Hc by (rewrite Hs; apply Contains_app).
  rewrite Cut_Contains in Hc. apply bool_decide_eq_true in Hc as [[a' b'] Hc]. rewrite Hc. apply Cut_Some in Hc. rewrite Hc.
  rewrite !dollars_app, expression_dollars. lia.
Qed.

Lemma resolveContent_dollars x v :
  (∀ source h key w, SourceHandlers !! source = Some h → h key = Ok w → dollars w = 0%nat) →
  resolveContent x = Ok v → (dollars v ≤ dollars x)%nat.
Proof.
  intros Hh. unfold resolveContent. destruct (Cut x ":-") as [[m d]|] eqn:Hc.
  all: repeat case_match; intros; simplify_eq; try (by erewrite Hh; [lia|..]).
  all: try (by eapply Cut_dollars).
Qed.

(** When no variable and no file holds a dollar sign, the replacement of the
    placeholders of a string ends, after at most one round per dollar sign of the string,
    and leaves no placeholder. *)
Theorem Process_ends input :
  (∀ source h key w, SourceHandlers !! source = Some h → h key = Ok w → dollars w = 0%nat) →
  ∃ r, Process (S (dollars input)) input = Some r ∧ ∀ s, r = Ok s → findExpression s = None.
Proof.
  intros Hh. assert (∀ n input, (dollars input < n)%nat → ∃ r, Process n input = Some r ∧ ∀ s, r = Ok s → findExpression s = None)
    as H; [|apply H; lia]. clear input. induction n as [|n IH]; intros input Hn; [lia|]. cbn [Process].
  destruct (findExpression input) as [x|] eqn:Hf; [|exists (Ok input); split; [done|]; by intros ? [= <-]].
  destruct (resolveContent x) as [v|e|] eqn:Hr; [|by eexists..]. apply IH.
  pose proof (replace_dollars _ _ _ Hf (resolveContent_dollars _ _ Hh Hr)). lia.
Qed.
End resolver.

(** A variable that holds a placeholder for itself makes the replacement run forever,
    whatever the number of rounds. *)
Theorem self_reference_diverges getenv file fuel :
  getenv "X" = "${X}" → Process (sources getenv file) fuel "${X}" = None.
Proof.
  intros HX. assert (resolveContent (sources getenv file) "X" = Ok "${X}") as Hr.
  { assert (sources getenv file !! "env" = Some (EnvResolver getenv)) as Hm by apply lookup_insert_eq.
    etransitivity; [exact (f_equal (λ o : option Handler,
      match o with None => Err ErrUnknownSource | Some handler => match handler "X" with Err e => Err e | r => r end end) Hm)|].
    unfold EnvResolver. by rewrite HX. }
  induction fuel as [|fuel IH]; [done|]. cbn [Process]. change (findExpression "${X}") with (Some "X"). cbv iota beta. rewrite Hr. cbv iota beta.
  change (replaceFirst "${X}" (expression "X") "${X}") with "${X}". exact IH.
Qed.

(** ** Samples *)

Definition sample_env (key : string) : string := if bool_decide (key = "HOST") then "db" else "".

Definition sample_handlers : gmap string Handler :=
  sources sample_env (λ path, if bool_decide (path = "motd") then Ok "hi" else Err ErrNotExist).

Lemma Process_ends_witness :
  Process sample_handlers 4 "${HOST}:${PORT:-5432} ${file:motd}" = Some (Ok "db:5432 hi").
Proof.
  destruct (Process_ends sample_handlers "${HOST}:${PORT:-5432} ${file:motd}") as (r & Hr & _).
  - intros source h key w. unfold sample_handlers, sources. rewrite lookup_insert_Some. intros [[_ <-]|[_ H]].
    + unfold EnvResolver, sample_env. case_bool_decide; [done|]. intros [= <-]. by case_bool_decide.
    + apply lookup_singleton_Some in H as [_ <-].
      case_bool_decide; intros [= <-]; reflexivity.
  - vm_compute in Hr. injection Hr as <-. vm_compute. reflexivity.
Defined.

Lemma self_reference_diverges_witness :
  Process (sources (λ _, "${X}") (λ _, Err ErrNotExist)) 1000 "${X}" = None.
Proof. apply self_reference_diverges. reflexivity. Defined.

(** Placeholders nest: the inner one is replaced first. *)
Example nested : Process sample_handlers 5 "${file:${NAME:-motd}}" = Some (Ok "hi").
Proof. vm_compute. reflexivity. Qed.

Example unknown_source : Process sample_handlers 2 "${vault:key:-x}" = Some (Err ErrUnknownSource).
Proof. vm_compute. reflexivity. Qed.

(** ** Numbers with units (utils/convert/numbers.go) and durations (package time)

    The parsing of sizes and frequencies of a specification.  The package humanize, which
    knows the units, and the shortest decimal of a float are parameters. *)

Definition isDigit (c : ascii) : bool := in_class c [("0", "9")%char].
Definition isLetter (c : ascii) : bool := in_class c [("a", "z"); ("A", "Z")]%char.

(** The longest prefix of characters with [f], and the rest. *)
Fixpoint spanString (f : ascii → bool) (s : string) : string * string :=
  match s with
  | EmptyString => ("", "")
  | String c r => if f c then let '(a, b) := spanString f r in (String c a, b) else ("", s)
  end.

(** An optional sign as it is written. *)
Definition sign (s : string) : string * string :=
  match s with
  | String c r => if bool_decide (c = "+"%char) || bool_decide (c = "-"%char) then (String c "", r) else ("", s)
  | EmptyString => ("", s)
  end.

(** [[+-]?\d*\.?\d+] at the start. *)
Definition decimal (s : string) : option (string * string) :=
  let '(sg, s) := sign s in
  let '(whole, s) := spanString isDigit s in
  let '(frac, s') := match s with String "." r => spanString isDigit r | _ => ("", s) end in
  if negb (bool_decide (frac = "")) then Some (sg +:+ whole +:+ "." +:+ frac, s')
  else if negb (bool_decide (whole = "")) then Some (sg +:+ whole, s)
  else None.

(** [(?:[eE][+-]?\d+)?] *)
Definition exponentPart (s : string) : string * string :=
  match s with
  | String c r =>
      if bool_decide (c = "e"%char) || bool_decide (c = "E"%char) then
        let '(sg, r) := sign r in
        let '(digits, r) := spanString isDigit r in
        if bool_decide (digits = "") then ("", s) else (String c sg +:+ digits, r)
      else ("", s)
  | EmptyString => ("", s)
  end.

(** The two groups of [numberWithUnitRegex]. *)
Definition numberWithUnit (s : string) : option (string * string) :=
  match decimal s with
  | None => None
  | Some (num, s) =>
      let '(e, s) := exponentPart s in
      let '(_, s) := spanString (λ c, in_class c [one " "; ("009", "010"); ("012", "013")]%char) s in
      let '(unit, s) := spanString isLetter s in
      if bool_decide (s = "") then Some (num +:+ e, unit) else None
  end.

(** [fmt.Sprintf("%.<n>f", x)] *)
Definition formatFixed (n : nat) (x : float64) : string :=
  let p := (10 ^ Z.of_nat n)%Z in
  match x with
  | S754_nan => "NaN"
  | S754_infinity s => if s then "-Inf" else "+Inf"
  | S754_zero s => (if s then "-" else "") +:+ "0." +:+ zeros n
  | S754_finite s m e =>
      let q := if (0 <=? e)%Z then (Zpos m * 2 ^ e * p)%Z else div_half_even (Zpos m * p) (2 ^ (- e)) in
      (if s then "-" else "") +:+ Itoa (q / p) +:+ "." +:+ padded n (q mod p)
  end.

Section units.
  Context (shortest : float64 → string) (durationString : Duration → string).
  Context (humanize_ParseBytes : string → option Z) (humanize_ParseSI : string → option float64).
  Context (humanize_BigBytes : Z → string) (humanize_SI : float64 → string → string).

(** [fmt.Sprintf("%v", v)]; what is no scalar prints with brackets, which is all that matters
    here. *)
Definition sprint (v : value) : string :=
  match v with
  | VNil => "<nil>"
  | VBool b => if b then "true" else "false"
  | VInt n | VUint n | VUint64 n => Itoa n
  | VFloat x => shortest x
  | VString s => s
  | VDuration d => durationString d
  | VBytes _ | VStrings _ | VList _ => "[]"
  | VMap _ => "map[]"
  | VOther => "{}"
  end.

Definition extractValueAndUnit (v : value) : outcome spec_error (float64 * string) :=
  match numberWithUnit (TrimSpace (sprint v)) with
  | None => Err "invalid numeric value"
  | Some (num, unit) =>
      match ParseFloat num with Some x => Ok (x, unit) | None => Err "invalid numeric value" end
  end.

Definition ParseBytesWithDefaultUnit (v : value) (defaultUnit : string) : outcome spec_error Z :=
  let? (num, unit) := extractValueAndUnit v in
  let unit := if bool_decide (unit = "") then defaultUnit else unit in
  match humanize_ParseBytes (formatFixed 10 num +:+ unit) with Some n => Ok n | None => Err "humanize" end.

(** [unit[1:]] of a unit, which is not empty here. *)
Definition sameButFirst (unit defaultUnit : string) : bool :=
  (String.length unit =? String.length defaultUnit)%nat && EqualFold (string_drop 1 unit) (string_drop 1 defaultUnit).

Definition ParseSIWithDefaultUnit (v : value) (defaultUnit : string) : outcome spec_error float64 :=
  let? (num, unit) := extractValueAndUnit v in
  let? unit :=
    if bool_decide (unit = "") then Ok defaultUnit
    else if negb (bool_decide (defaultUnit = "")) && negb (HasSuffix (string_lower unit) (string_lower defaultUnit)) &&
            negb (HasSuffix (string_lower defaultUnit) (string_lower unit)) && negb (sameButFirst unit defaultUnit)
    then Err "invalid unit" else Ok unit in
  match humanize_ParseSI (formatFixed 10 num +:+ unit) with Some x => Ok x | None => Err "humanize" end.

(** [strconv.ParseUint(s, 10, 64)] *)
Definition ParseUint (s : string) : option Z :=
  if bool_decide (s = "") || negb (bool_decide ((spanString isDigit s).2 = "")) then None
  else match NilZero.uint_of_string s with
       | Some u => let n := Z.of_N (N.of_uint u) in if (n <? 2 ^ 64)%Z then Some n else None
       | None => None
       end.

Definition ToBytesFormat (v : value) : outcome spec_error string :=
  match ParseUint (sprint v) with Some n => Ok (humanize_BigBytes n) | None => Err "strconv" end.

Definition ToSIFormatWithUnit (v : value) (unit : string) : outcome spec_error string :=
  match ParseFloat (sprint v) with Some x => Ok (humanize_SI x unit) | None => Err "strconv" end.
End units.

(** ** Durations *)

Definition nanosecondsOf (unit : string) : option Z :=
  if bool_decide (unit = "ns") then Some 1%Z
  else if bool_decide (unit = "us") || bool_decide (unit = String "194" (String "181" "s")) || bool_decide (unit = String "206" (String "188" "s"))
  then Some 1000%Z
  else if bool_decide (unit = "ms") then Some 1000000%Z
  else if bool_decide (unit = "s") then Some Second
  else if bool_decide (unit = "m") then Some Minute
  else if bool_decide (unit = "h") then Some Hour
  else None.

Definition digitValue (c : ascii) : Z := (Z.of_nat (nat_of_ascii c) - 48)%Z.

(** [leadingInt]: [None] when the number exceeds 2^63. *)
Fixpoint leadingInt (x : Z) (s : string) : option (Z * string) :=
  match s with
  | String c r =>
      if isDigit c then
        if (2 ^ 63 / 10 <? x)%Z then None
        else let x := (x * 10 + digitValue c)%Z in if (2 ^ 63 <? x)%Z then None else leadingInt x r
      else Some (x, s)
  | EmptyString => Some (x, s)
  end.

(** [leadingFraction]: digits that do not fit are dropped. *)
Fixpoint leadingFraction (overflow : bool) (x : Z) (scale : float64) (s : string) : Z * float64 * string :=
  match s with
  | String c r =>
      if isDigit c then
        if overflow then leadingFraction true x scale r
        else if ((2 ^ 63 - 1) / 10 <? x)%Z then leadingFraction true x scale r
        else let y := (x * 10 + digitValue c)%Z in
             if (2 ^ 63 <? y)%Z then leadingFraction true x scale r
             else leadingFraction false y (f64_mul scale (f64_of_Z 10)) r
      else (x, scale, s)
  | EmptyString => (x, scale, s)
  end.

(** One number and its unit. *)
Definition durationTerm (s : string) : option (Z * string) :=
  match leadingInt 0 s with
  | None => None
  | Some (v, r) =>
      let pre := negb (String.length r =? String.length s)%nat in
      let '(f, scale, post, r) :=
        match r with
        | String "." t => let '(f, scale, u) := leadingFraction false 0 (f64_of_Z 1) t in
                          (f, scale, negb (String.length u =? String.length t)%nat, u)
        | _ => (0%Z, f64_of_Z 1, false, r)
        end in
      if negb pre && negb post then None
      else
        let '(u, r) := spanString (λ c, negb (bool_decide (c = "."%char)) && negb (isDigit c)) r in
        match nanosecondsOf u with
        | None => None
        | Some unit =>
            if (2 ^ 63 / unit <? v)%Z then None
            else
              let v := (v * unit)%Z in
              let v := if (0 <? f)%Z
                       then (v + uint64_of_float (λ _, 0%Z) (f64_mul (f64_of_Z f) (f64_div (f64_of_Z unit) scale)))%Z else v in
              if (2 ^ 63 <? v)%Z then None else Some (v, r)
        end
  end.

(** The terms are added up; each consumes a character, so the length is enough fuel. *)
Fixpoint durationTerms (fuel : nat) (d : Z) (s : string) : option Z :=
  match s with
  | EmptyString => Some d
  | _ =>
      match fuel with
      | O => None
      | S fuel =>
          match durationTerm s with
          | None => None
          | Some (v, r) => if (2 ^ 63 <? d + v)%Z then None else durationTerms fuel (d + v) r
          end
      end
  end.

Definition ParseDuration (s : string) : option Duration :=
  let '(neg, r) := dropSign s in
  if bool_decide (r = "0") then Some 0%Z
  else if bool_decide (r = "") then None
  else match durationTerms (String.length r) 0 r with
       | None => None
       | Some d => if (neg : bool) then Some (- d)%Z else if (2 ^ 63 - 1 <? d)%Z then None else Some d
       end.

Example durations :
  map ParseDuration ["300ms"; "-1.5h"; "2h45m"; "0"; ""; "5"; ".5s"; "1s2"; "9223372036s"; "9223372037s"] =
  [Some 300000000; Some (-5400000000000); Some 9900000000000; Some 0; None; None; Some 500000000; None;
   Some 9223372036000000000; None]%Z.
Proof. vm_compute. reflexivity. Qed.

Example numbers_with_units :
  map numberWithUnit ["4"; "1.5 GiB"; "-2e3MHz"; ".5"; "5."; "1e"; "GB"; "1 2"] =
  [Some ("4", ""); Some ("1.5", "GiB"); Some ("-2e3", "MHz"); Some (".5", ""); None; Some ("1", "e"); None; None].
Proof. vm_compute. reflexivity. Qed.
