(* ===== verification/SpecDecoder.v ===== *)
(** * Decoding and encoding of an ensemble (dms/jobs/parser/transform, ensemblev1/decode.go
    and encode.go, types/parser.go)

    The transformers change maps and lists in place, and allocations that name a common set
    of resources or a common volume share one map: the configuration is kept on a heap. *)

From Stdlib Require Import SpecFloat Ascii.
From S2P Require Import Prelude GoStrings GoNumbers ResourceManager GoTime GoText ConfigTree SpecValidator Resolver.
Open Scope go_scope.

(** ** The heap *)

(** A scalar, or a reference to a map or a list. *)
Inductive hval :=
| HVal (v : value)
| HMap (loc : nat)
| HList (loc : nat).

Inductive obj :=
| OMap (m : list (string * hval))
| OList (l : list hval).

Abbreviation heap := (list obj).

(** A computation on the heap; [None] when the fuel of a walk did not suffice. *)
Definition M (A : Type) : Type := heap → option (outcome spec_error A * heap).

Definition ret {A} (x : A) : M A := λ h, Some (Ok x, h).
Definition fail {A} (e : spec_error) : M A := λ h, Some (Err e, h).
Definition panic {A} : M A := λ h, Some (Panic, h).
Definition out {A} : M A := λ _, None.

Definition bind {A B} (m : M A) (k : A → M B) : M B :=
  λ h, match m h with
       | Some (Ok x, h) => k x h
       | Some (Err e, h) => Some (Err e, h)
       | Some (Panic, h) => Some (Panic, h)
       | None => None
       end.

Notation "'do' x <- m ; k" := (bind m (λ x, k)) (at level 200, x name, m at level 100, k at level 200) : go_scope.

Definition lift {A} (o : outcome spec_error A) : M A := λ h, Some (o, h).

Definition new (o : obj) : M nat := λ h, Some (Ok (length h), h ++ [o]).

Definition newMap (m : list (string * hval)) : M hval := do l <- new (OMap m); ret (HMap l).
Definition newList (l : list hval) : M hval := do l <- new (OList l); ret (HList l).

(** References are never dangling. *)
Definition readMap (l : nat) : M (list (string * hval)) :=
  λ h, match h !! l with Some (OMap m) => Some (Ok m, h) | _ => Some (Panic, h) end.
Definition readList (l : nat) : M (list hval) :=
  λ h, match h !! l with Some (OList l) => Some (Ok l, h) | _ => Some (Panic, h) end.

Definition write (l : nat) (o : obj) : M () := λ h, Some (Ok (), <[l := o]> h).

Fixpoint hfield (m : list (string * hval)) (k : string) : option hval :=
  match m with [] => None | (k', v) :: m => if bool_decide (k' = k) then Some v else hfield m k end.

Definition hindex (m : list (string * hval)) (k : string) : hval := default (HVal VNil) (hfield m k).

Fixpoint hset (m : list (string * hval)) (k : string) (v : hval) : list (string * hval) :=
  match m with
  | [] => [(k, v)]
  | (k', v') :: m => if bool_decide (k' = k) then (k, v) :: m else (k', v') :: hset m k v
  end.

Fixpoint hremove (m : list (string * hval)) (k : string) : list (string * hval) :=
  match m with [] => [] | (k', v) :: m => if bool_decide (k' = k) then m else (k', v) :: hremove m k end.

(** [m[k] = v] and [delete(m, k)] *)
Definition setKey (l : nat) (k : string) (v : hval) : M () := do m <- readMap l; write l (OMap (hset m k v)).
Definition deleteKey (l : nat) (k : string) : M () := do m <- readMap l; write l (OMap (hremove m k)).

Definition is_hnil (v : hval) : bool := match v with HVal VNil => true | _ => false end.
Definition hstring (v : hval) : option string := match v with HVal (VString s) => Some s | _ => None end.

(** [maps.Copy(dst, src)] *)
Definition copyFields (dst src : list (string * hval)) : list (string * hval) :=
  fold_left (λ m kv, hset m kv.1 kv.2) src dst.

(** A loop over a list whose body may fail. *)
Fixpoint forM {A} (l : list A) (f : A → M ()) : M () :=
  match l with [] => ret () | x :: l => do _ <- f x; forM l f end.

Fixpoint mapM' {A B} (l : list A) (f : A → M B) : M (list B) :=
  match l with [] => ret [] | x :: l => do y <- f x; do ys <- mapM' l f; ret (y :: ys) end.

(** The tree that the YAML decoder builds: every map and list of its own. *)
Fixpoint store (v : value) : M hval :=
  match v with
  | VMap m =>
      do m <- (fix go m := match m with [] => ret [] | (k, v) :: m => do v <- store v; do m <- go m; ret ((k, v) :: m) end) m;
      newMap m
  | VList l =>
      do l <- (fix go l := match l with [] => ret [] | v :: l => do v <- store v; do l <- go l; ret (v :: l) end) l;
      newList l
  | v => ret (HVal v)
  end.

(** What a reference stands for, read to a depth. *)
Fixpoint load (fuel : nat) (h : heap) (v : hval) : option value :=
  match fuel with
  | O => None
  | S fuel =>
      match v with
      | HVal v => Some v
      | HMap l =>
          match h !! l with
          | Some (OMap m) => VMap <$> mapM (λ kv, pair kv.1 <$> load fuel h kv.2) m
          | _ => None
          end
      | HList l =>
          match h !! l with
          | Some (OList l) => VList <$> mapM (load fuel h) l
          | _ => None
          end
      end
  end.

(** ** The transformers of every format *)

Definition TransformerFunc : Type := nat → hval → Path → M hval.

Definition ToSpecConfigTransformer (specName : string) : TransformerFunc := λ _ data _,
  match data with
  | HVal VNil => ret (HVal VNil)
  | HMap l =>
      do spec <- readMap l;
      do params <- newMap (List.filter (λ kv, negb (bool_decide (kv.1 = "type"))) spec);
      newMap [("type", hindex spec "type"); ("params", params)]
  | _ => fail "invalid configuration"
  end.

(** The assertion that the parameters are a map has no check. *)
Definition FlattenSpecConfigTransformer (specName : string) : TransformerFunc := λ _ data _,
  match data with
  | HVal VNil => ret (HVal VNil)
  | HMap l =>
      do spec <- readMap l;
      match hindex spec "params" with
      | HMap p => do params <- readMap p; newMap (copyFields [("type", hindex spec "type")] params)
      | _ => panic
      end
  | _ => fail "invalid configuration"
  end.

Definition MapToNamedSliceTransformer (name : string) : TransformerFunc := λ _ data _,
  match data with
  | HVal VNil => ret (HVal VNil)
  | HMap l =>
      do m <- readMap l;
      do entries <- mapM' m (λ kv,
        do v <- if is_hnil kv.2 then newMap [] else ret kv.2;
        match v with
        | HMap e => do _ <- setKey e "name" (HVal (VString kv.1)); ret v
        | _ => ret v
        end);
      newList entries
  | _ => fail "invalid configuration"
  end.

(** The entries of [NamedSliceToMapTransformer] from index [i] on. *)
Fixpoint namedEntries (name : string) (i : nat) (l : list hval) (result : list (string * hval)) : M (list (string * hval)) :=
  match l with
  | [] => ret result
  | v :: l =>
      do v <- if is_hnil v then newMap [] else ret v;
      match v with
      | HMap e =>
          do m <- readMap e;
          match hstring (hindex m "name") with
          | None | Some "" => namedEntries name (S i) l (hset result (name +:+ "_" +:+ Itoa (Z.of_nat (S i))) v)
          | Some k => do _ <- deleteKey e "name"; namedEntries name (S i) l (hset result k v)
          end
      | _ => fail "invalid configuration"
      end
  end.

Definition NamedSliceToMapTransformer (name : string) : TransformerFunc := λ _ data _,
  match data with
  | HVal VNil => ret (HVal VNil)
  | HList l => do l <- readList l; do m <- namedEntries name 0 l []; newMap m
  | _ => fail "invalid configuration"
  end.

(** The value of a scalar for a conversion; maps and lists are no numbers. *)
Definition scalar (v : hval) : value := match v with HVal v => v | HMap _ => VMap [] | HList _ => VList [] end.

Definition ParseDurationTransformer : TransformerFunc := λ _ data _,
  match hstring data with
  | None | Some "" => fail "invalid value"
  | Some s => match ParseDuration s with Some d => ret (HVal (VDuration d)) | None => fail "time" end
  end.

(** ** The walk *)

(** The transformers whose pattern matches, one after the other. *)
Fixpoint transformAll (transformers : list (Path * TransformerFunc)) (root : nat) (data : hval) (path : Path) : M hval :=
  match transformers with
  | [] => ret data
  | (pattern, transformer) :: transformers =>
      match Matches path pattern with
      | Ok true => do data <- transformer root data path; transformAll transformers root data path
      | Ok false => transformAll transformers root data path
      | _ => panic
      end
  end.

(** A map keeps its place and its keys, and so does a list: each entry is read, transformed
    and written back. *)
Fixpoint transform (fuel : nat) (transformers : list (Path * TransformerFunc)) (root : nat) (data : hval) (path : Path) : M hval :=
  match fuel with
  | O => out
  | S fuel =>
      do data <- transformAll transformers root data path;
      match data with
      | HMap l =>
          do m <- readMap l;
          do _ <- forM (map fst m) (λ key,
            do m <- readMap l;
            do v <- transform fuel transformers root (hindex m key) (Next path key);
            setKey l key v);
          ret (HMap l)
      | HList l =>
          do xs <- readList l;
          do _ <- forM (seq 0 (length xs)) (λ i,
            do xs <- readList l;
            do v <- transform fuel transformers root (default (HVal VNil) (xs !! i)) (Next path (indexPart i));
            do xs <- readList l;
            write l (OList (<[i := v]> xs)));
          ret (HList l)
      | v => ret v
      end
  end.

(** The stages of a transformer; the root stays the map of the caller. *)
Fixpoint Transform (fuel : nat) (stages : list (list (Path * TransformerFunc))) (root : nat) (data : hval) : M hval :=
  match stages with
  | [] => ret data
  | transformers :: stages =>
      do data <- transform fuel transformers root data (NewPath []);
      Transform fuel stages root data
  end.

(** ** The transformers of an ensemble *)

Definition TransformStringToBytes : TransformerFunc := λ _ data _,
  match data with
  | HVal (VBytes s) | HVal (VString s) => ret (HVal (VBytes s))
  | _ => fail "invalid data type"
  end.

(** [m[k] == nil] gets a default. *)
Definition setDefault (l : nat) (k : string) (v : value) : M () :=
  do m <- readMap l; if is_hnil (hindex m k) then setKey l k (HVal v) else ret ().

(** The sections of the root that are present must be maps: the assertions have no check. *)
Definition forSection (spec : list (string * hval)) (section : string) (f : string → nat → M ()) : M () :=
  match hfield spec section with
  | None => ret ()
  | Some (HMap l) => do m <- readMap l; forM m (λ kv, match kv.2 with HMap e => f kv.1 e | _ => ret () end)
  | Some _ => panic
  end.

Definition TransformSpec : TransformerFunc := λ _ data _,
  match data with
  | HMap l =>
      do spec <- readMap l;
      do _ <- forSection spec "allocations" (λ name e,
        do _ <- setDefault e "dns_name" (VString name);
        setDefault e "failure_recovery" (VString defaultAllocationFailureStrategy));
      do _ <- forSection spec "nodes" (λ _ e,
        do _ <- setDefault e "failure_recovery" (VString defaultNodeFailureStrategy);
        setDefault e "redundancy" (VInt 0));
      do spec <- readMap l;
      do _ <- match hfield spec "edge_constraints" with
              | None => ret ()
              | Some v => do _ <- setKey l "edges" v; deleteKey l "edge_constraints"
              end;
      newMap [("v1", HMap l)]
  | _ => fail "invalid spec configuration"
  end.

Definition TransformEdgeConstraint : TransformerFunc := λ _ data _,
  match data with
  | HMap l =>
      do m <- readMap l;
      match hfield m "edges" with
      | None => ret data
      | Some (HList e) =>
          do xs <- readList e;
          match xs with
          | [s; t] => do _ <- setKey l "S" s; do _ <- setKey l "T" t; do _ <- deleteKey l "edges"; ret data
          | _ => fail "invalid edges parameter"
          end
      | Some _ => fail "invalid edges parameter"
      end
  | _ => fail "invalid edge constraints"
  end.

(** The entries of a section of the root have names that are strings: what is inherited is
    the entry with the same name, changed in place and then shared. *)
Fixpoint inherit (entries : list hval) (config : nat) : M nat :=
  match entries with
  | [] => ret config
  | HMap e :: entries =>
      do m <- readMap e;
      do c <- readMap config;
      match hstring (hindex m "name"), hstring (hindex c "name") with
      | Some x, Some y =>
          if bool_decide (x = y) then do _ <- write e (OMap (copyFields m c)); inherit entries e else inherit entries config
      | _, _ => inherit entries config
      end
  | _ :: entries => inherit entries config
  end.

(** The section of the root, and the assertion that it is a list. *)
Definition inheritFrom (root : nat) (section : string) (config : nat) : M nat :=
  do r <- readMap root;
  match hfield r section with
  | None => ret config
  | Some (HList l) => do entries <- readList l; inherit entries config
  | Some _ => panic
  end.

Definition TransformVolume : TransformerFunc := λ root data path,
  do config <- match data with
               | HVal (VString s) =>
                   match Split s ":" with
                   | [name; mountpoint] => new (OMap [("name", HVal (VString name)); ("mountpoint", HVal (VString mountpoint))])
                   | _ => fail "invalid volume configuration"
                   end
               | HMap l => ret l
               | _ => fail "invalid volume configuration"
               end;
  match Matches path "allocations.*.volumes.[]" with
  | Ok true => do c <- inheritFrom root "volumes" config; ret (HMap c)
  | Ok false => ret (HMap config)
  | _ => panic
  end.

Definition TransformResources : TransformerFunc := λ root data path,
  do config <- match data with
               | HVal (VString s) => new (OMap [("name", HVal (VString s))])
               | HMap l => ret l
               | _ => fail "invalid resources configuration"
               end;
  match Matches path "allocations.*.resources" with
  | Ok true => do c <- inheritFrom root "resources" config; ret (HMap c)
  | Ok false => ret (HMap config)
  | _ => panic
  end.

Section ensembles.
  Context (shortest : float64 → string) (durationString : Duration → string) (spellOther : hval → string).
  Context (humanize_ParseBytes : string → option Z) (humanize_ParseSI : string → option float64).
  Context (humanize_BigBytes : Z → string) (humanize_SI : float64 → string → string).

(** [fmt.Sprintf("%s", v)] of a value of a map: what is no string is spelled as a mistake of
    the format. *)
Definition spell (v : hval) : string :=
  match v with
  | HVal (VString s) => s
  | HVal VNil => "<nil>"
  | HVal (VBool b) => "%!s(bool=" +:+ (if b then "true" else "false") +:+ ")"
  | HVal (VInt n) => "%!s(int=" +:+ Itoa n +:+ ")"
  | HVal (VUint n) => "%!s(uint=" +:+ Itoa n +:+ ")"
  | HVal (VUint64 n) => "%!s(uint64=" +:+ Itoa n +:+ ")"
  | HVal (VFloat x) => "%!s(float64=" +:+ shortest x +:+ ")"
  | v => spellOther v
  end.

Definition TransformEnvironment : TransformerFunc := λ _ data _,
  match data with
  | HMap l => do m <- readMap l; ret (HVal (VStrings (map (λ kv, kv.1 +:+ "=" +:+ spell kv.2) m)))
  | HVal (VStrings _) | HList _ => ret data
  | _ => fail "invalid environment configuration"
  end.

Definition ParseWithDefaultUnit (name unit : string) : TransformerFunc := λ _ data _,
  do x <- lift (ParseSIWithDefaultUnit shortest durationString humanize_ParseSI (scalar data) unit); ret (HVal (VFloat x)).

Definition ParseBytesTransformer (name unit : string) : TransformerFunc := λ _ data _,
  do n <- lift (ParseBytesWithDefaultUnit shortest durationString humanize_ParseBytes (scalar data) unit); ret (HVal (VUint64 n)).

Definition ToBytesFormatTransformer (name : string) : TransformerFunc := λ _ data _,
  do s <- lift (ToBytesFormat shortest durationString humanize_BigBytes (scalar data)); ret (HVal (VString s)).

Definition ToSIFormatTransformer (name unit : string) : TransformerFunc := λ _ data _,
  do s <- lift (ToSIFormatWithUnit shortest durationString humanize_SI (scalar data) unit); ret (HVal (VString s)).

Definition NewEnsemblev1Decoder : list (list (Path * TransformerFunc)) :=
  [[("allocations.*.volumes", MapToNamedSliceTransformer "volume");
    ("volumes", MapToNamedSliceTransformer "volume");
    ("resources", MapToNamedSliceTransformer "resource")];
   [("allocations.*.volumes.[]", TransformVolume);
    ("allocations.*.resources", TransformResources);
    ("scripts.*", TransformStringToBytes);
    ("allocations.*.execution.environment", TransformEnvironment)];
   [("allocations.*.resources.cpu.clock_speed", ParseWithDefaultUnit "cpu clock_speed" "GHz");
    ("allocations.*.resources.ram.clock_speed", ParseWithDefaultUnit "ram clock_speed" "GHz");
    ("allocations.*.resources.ram.size", ParseBytesTransformer "ram size" "GiB");
    ("allocations.*.resources.disk.size", ParseBytesTransformer "disk size" "GiB");
    ("allocations.*.resources.gpu.[].vram", ParseBytesTransformer "gpu vram" "GiB");
    ("allocations.*.healthcheck.interval", ParseDurationTransformer)];
   [("allocations.*.execution", ToSpecConfigTransformer "execution");
    ("allocations.*.volumes.[].remote", ToSpecConfigTransformer "remote volume");
    ("edge_constraints.[]", TransformEdgeConstraint)];
   [("", TransformSpec)]].

Definition FormatSpec : TransformerFunc := λ _ data _,
  match data with
  | HMap l =>
      do spec <- readMap l;
      match hindex spec "v1" with
      | HMap v1 => do _ <- setKey v1 "version" (HVal (VString "v1")); ret (HMap v1)
      | _ => fail "invalid spec configuration"
      end
  | _ => fail "invalid spec configuration"
  end.

Definition NewEnsemblev1Encoder : list (list (Path * TransformerFunc)) :=
  [[("", FormatSpec)];
   [("allocations.*.execution", FlattenSpecConfigTransformer "execution");
    ("allocations.*.volumes.[].remote", FlattenSpecConfigTransformer "volume remote")];
   [("allocations.*.resources.cpu.clock_speed", ToSIFormatTransformer "cpu clock_speed" "Hz");
    ("allocations.*.resources.ram.clock_speed", ToSIFormatTransformer "ram clock_speed" "Hz");
    ("allocations.*.resources.ram.size", ToBytesFormatTransformer "ram size");
    ("allocations.*.resources.disk.size", ToBytesFormatTransformer "disk size");
    ("allocations.*.resources.gpu.[].vram", ToBytesFormatTransformer "gpu vram")];
   [("allocations.*.volumes", NamedSliceToMapTransformer "volumes")]].

(** ** The parser *)

(** A configuration on a fresh heap, transformed and read back. *)
Definition runTransform (fuel : nat) (stages : list (list (Path * TransformerFunc))) (rawConfig : value)
    : option (outcome spec_error value) :=
  match store rawConfig [] with
  | Some (Ok (HMap root), h) =>
      match Transform fuel stages root (HMap root) h with
      | Some (Ok v, h) => Ok <$> load fuel h v
      | Some (Err e, _) => Some (Err e)
      | Some (Panic, _) => Some Panic
      | None => None
      end
  | _ => Some (Err "failed to parse config")
  end.

(** [unmarshal] and [decode] are the YAML decoder and mapstructure. *)
Definition Decode {A} `{MapVisit} (wild : float64 → Z) (handlers : gmap string Handler) (unmarshal : string → option value)
    (decode : value → option A) (fuel : nat) (data : string) : option (outcome spec_error A) :=
  match unmarshal data with
  | None => Some (Err "failed to parse config")
  | Some rawConfig =>
      match resolvePlaceholders handlers fuel rawConfig with
      | None => None
      | Some (Err _) => Some (Err "failed to resolve config")
      | Some Panic => Some Panic
      | Some (Ok rawConfig) =>
          match runTransform fuel NewEnsemblev1Decoder rawConfig with
          | Some (Ok (VMap m)) =>
              match Validate wild (VMap m) with
              | Some (Ok v) => Some (match decode v with Some x => Ok x | None => Err "failed to decode spec" end)
              | Some (Err e) => Some (Err e)
              | Some Panic => Some Panic
              | None => None
              end
          | Some (Ok _) => Some (Err "transformed config is not a map")
          | Some (Err e) => Some (Err e)
          | Some Panic => Some Panic
          | None => None
          end
      end
  end.

Definition Encode {A} (marshal : A + value → option string) (unmarshal : string → option value) (fuel : nat) (data : A)
    : option (outcome spec_error string) :=
  match marshal (inl data) with
  | None => Some (Err "failed to encode spec")
  | Some raw =>
      match unmarshal raw with
      | None => Some (Err "failed to encode spec")
      | Some config =>
          match runTransform fuel NewEnsemblev1Encoder config with
          | Some (Ok v) => Some (match marshal (inr v) with Some s => Ok s | None => Err "marshal" end)
          | Some (Err e) => Some (Err e)
          | Some Panic => Some Panic
          | None => None
          end
      end
  end.
End ensembles.

(** ** Properties of the decoder

    What the transformers do to shared maps, which sections stop the process, and that the
    encoder undoes the decoding of an execution. *)

(** ** Executions *)

Lemma hfield_hset m k v k' : hfield (hset m k v) k' = if bool_decide (k = k') then Some v else hfield m k'.
Proof.
  induction m as [|[k0 v0] m IH]; cbn; [by repeat case_bool_decide|].
  repeat (case_bool_decide; cbn; subst); try done; naive_solver.
Qed.

Lemma hfield_None m k : hfield m k = None ↔ k ∉ map fst m.
Proof.
  induction m as [|[k0 v0] m IH]; cbn; [split; [intros _ ?%elem_of_nil|]; done|]. rewrite not_elem_of_cons.
  case_bool_decide; subst; naive_solver.
Qed.

Lemma copyFields_lookup dst src k :
  NoDup (map fst src) → hfield (copyFields dst src) k = match hfield src k with Some v => Some v | None => hfield dst k end.
Proof.
  unfold copyFields. revert dst. induction src as [|[k0 v0] src IH]; intros dst; cbn; [done|].
  intros [Hk Hnd]%NoDup_cons. rewrite IH, hfield_hset by done. case_bool_decide; subst; [|done].
  apply hfield_None in Hk. by rewrite Hk.
Qed.

Lemma hfield_filter m k0 k :
  hfield (List.filter (λ kv, negb (bool_decide (kv.1 = k0))) m) k = if bool_decide (k = k0) then None else hfield m k.
Proof.
  induction m as [|[k1 v1] m IH]; cbn; [by case_bool_decide|].
  repeat (case_bool_decide; cbn; subst); rewrite ?IH; repeat case_bool_decide; naive_solver.
Qed.

Lemma NoDup_filter_keys (m : list (string * hval)) f : NoDup (map fst m) → NoDup (map fst (List.filter f m)).
Proof.
  induction m as [|[k v] m IH]; cbn; [done|]. intros [Hk Hnd]%NoDup_cons. destruct (f (k, v)); cbn; [|by apply IH].
  constructor; [|by apply IH]. intros Hin. apply Hk. apply list_elem_of_In, in_map_iff in Hin as (x & Hx & Hin).
  apply list_elem_of_In, in_map_iff. exists x. split; [done|]. by apply filter_In in Hin as [? _].
Qed.

(** The encoder undoes what the decoder does to an execution: a map with a type, whatever
    else it holds, becomes its type and its parameters, and these become a map with the same
    fields again. *)
Theorem execution_roundtrip name root path h l m :
  h !! l = Some (OMap m) → NoDup (map fst m) → is_Some (hfield m "type") →
  ∃ l' h' m', (do v <- ToSpecConfigTransformer name root (HMap l) path; FlattenSpecConfigTransformer name root v path) h =
              Some (Ok (HMap l'), h') ∧ h' !! l' = Some (OMap m') ∧ ∀ k, hfield m' k = hfield m k.
Proof.
  intros Hl Hnd [t Ht]. set (p := List.filter (λ kv, negb (bool_decide (kv.1 = "type"))) m).
  set (h1 := h ++ [OMap p]). set (s := [("type", hindex m "type"); ("params", HMap (length h))]). set (h2 := h1 ++ [OMap s]).
  set (m' := copyFields [("type", hindex s "type")] p).
  exists (length h2), (h2 ++ [OMap m']), m'. split_and!.
  - assert (h2 !! length h1 = Some (OMap s)) as H1 by (unfold h2; by rewrite lookup_app_r, Nat.sub_diag).
    assert (h2 !! length h = Some (OMap p)) as H2.
    { unfold h2. rewrite lookup_app_l by (unfold h1; rewrite length_app; cbn; lia). unfold h1. by rewrite lookup_app_r, Nat.sub_diag. }
    unfold bind, ToSpecConfigTransformer, readMap, newMap, bind, new, ret. rewrite Hl. fold p. fold h1. fold s. fold h2.
    unfold FlattenSpecConfigTransformer, bind, readMap. rewrite H1. change (hindex s "params") with (HMap (length h)). cbv beta iota. by rewrite H2.
  - by rewrite lookup_app_r, Nat.sub_diag.
  - intros k. unfold m'. rewrite copyFields_lookup by (by apply NoDup_filter_keys). unfold p. rewrite hfield_filter.
    case_bool_decide as Hk; [subst|].
    + cbn. rewrite bool_decide_true by done. change (hindex s "type") with (hindex m "type"). unfold hindex. by rewrite Ht.
    + cbn. rewrite bool_decide_false by done. by destruct (hfield m k).
Qed.

(** ** Shared resources *)

(** A unit is a gibibyte or, without one, a byte. *)
Definition sample_ParseBytes (s : string) : option Z :=
  match Cut s "." with
  | Some (a, r) => match Atoi a with Some n => Some (if HasSuffix r "GiB" then n * 2 ^ 30 else n)%Z | None => None end
  | None => None
  end.

Notation decoder := (NewEnsemblev1Decoder (λ _, "") (λ _, "") (λ _, "") sample_ParseBytes (λ _, None)).

Definition template_spec (names : list string) : value :=
  VMap [("resources", VMap [("small", VMap [("ram", VMap [("size", VInt 4)])])]);
        ("allocations", VMap (map (λ n, (n, VMap [("resources", VString "small")])) names))].

Definition ramOf (v : value) (name : string) : option value :=
  match GetConfigAtPath v (NewPath ["v1"; "allocations"; name; "resources"; "ram"; "size"]) with Ok x => Some x | _ => None end.

(** Allocations that name the same set of resources share one map, and each of them
    converts the sizes in it: with one allocation four gibibytes are 2^32 bytes, with two
    each of them asks for 2^62. *)
Theorem shared_resources_converted_twice :
  (∃ v, runTransform 20 decoder (template_spec ["a"]) = Some (Ok v) ∧ ramOf v "a" = Some (VUint64 (2 ^ 32))) ∧
  (∃ v, runTransform 20 decoder (template_spec ["a"; "b"]) = Some (Ok v) ∧
        ramOf v "a" = Some (VUint64 (2 ^ 62)) ∧ ramOf v "b" = Some (VUint64 (2 ^ 62))).
Proof. split; eexists; (split; [vm_compute; reflexivity|]); [|split]; vm_compute; reflexivity. Qed.

(** What one allocation adds to the set it names holds for the others as well. *)
Example overrides_leak :
  ∃ v, runTransform 20 decoder
         (VMap [("resources", VMap [("small", VMap [("cores", VInt 1)])]);
                ("allocations", VMap [("a", VMap [("resources", VMap [("name", VString "small"); ("cores", VInt 8)])]);
                                      ("b", VMap [("resources", VString "small")])])]) = Some (Ok v) ∧
       GetConfigAtPath v "v1.allocations.b.resources.cores" = Ok (VInt 8).
Proof. eexists. split; vm_compute; reflexivity. Qed.

(** A section that is there but empty stops the process. *)
Example empty_sections_panic :
  runTransform 20 decoder (VMap [("allocations", VNil)]) = Some Panic ∧
  runTransform 20 decoder (VMap [("nodes", VNil)]) = Some Panic ∧
  runTransform 20 decoder (VMap [("resources", VNil); ("allocations", VMap [("a", VMap [("resources", VString "small")])])]) = Some Panic.
Proof. split_and!; vm_compute; reflexivity. Qed.

(** Numbers in a map of environment variables are garbled. *)
Example environment_garbled :
  ∃ v, runTransform 20 decoder
         (VMap [("allocations", VMap [("a", VMap [("execution", VMap [("environment", VMap [("PORT", VInt 80)])])])])]) = Some (Ok v) ∧
       GetConfigAtPath v "v1.allocations.a.execution.params.environment" = Ok (VStrings ["PORT=%!s(int=80)"]).
Proof. eexists. split; vm_compute; reflexivity. Qed.

(** An edge, the defaults and the duration of a health check. *)
Example decodes :
  ∃ v, runTransform 20 decoder
         (VMap [("edge_constraints", VList [VMap [("edges", VList [VString "x"; VString "y"])]]);
                ("allocations", VMap [("a", VMap [("healthcheck", VMap [("interval", VString "30s")])])]);
                ("nodes", VMap [("x", VMap [])])]) = Some (Ok v) ∧
       GetConfigAtPath v "v1.edges.[0].T" = Ok (VString "y") ∧
       GetConfigAtPath v "v1.allocations.a.dns_name" = Ok (VString "a") ∧
       GetConfigAtPath v "v1.allocations.a.healthcheck.interval" = Ok (VDuration (30 * Second)%Z) ∧
       GetConfigAtPath v "v1.nodes.x.redundancy" = Ok (VInt 0).
Proof. eexists. split_and!; vm_compute; reflexivity. Qed.

Lemma execution_roundtrip_witness :
  ∃ l' h' m', (do v <- ToSpecConfigTransformer "execution" 0 (HMap 0) ""; FlattenSpecConfigTransformer "execution" 0 v "")
                [OMap [("image", HVal (VString "nginx")); ("type", HVal (VString "docker"))]] =
              Some (Ok (HMap l'), h') ∧ h' !! l' = Some (OMap m') ∧ hfield m' "image" = Some (HVal (VString "nginx")).
Proof.
  destruct (execution_roundtrip "execution" 0 "" [OMap [("image", HVal (VString "nginx")); ("type", HVal (VString "docker"))]] 0
              [("image", HVal (VString "nginx")); ("type", HVal (VString "docker"))]) as (l' & h' & m' & H1 & H2 & H3).
  - reflexivity.
  - repeat constructor; set_solver.
  - by eexists.
  - exists l', h', m'. split; [exact H1|]. split; [exact H2|]. rewrite H3. reflexivity.
Defined.
