(* ===== verification/Deployments.v ===== *)
(** * Stored deployments (dms/orchestrator/deployments_store.go, dms/node/behaviors_deployment.go)

    The database of the deployments of a node with its queries, and the handlers that
    list, prune and delete them.  A document holds the identifier, the status and the
    times a query may ask for, and the encoded view of the orchestrator; the times of the
    document and the times of the view are written separately.

    The encoding of a view, the order in which the database returns documents and its
    sorting are parameters; whether it answers a read ([r]) or a write ([w]) is an
    argument. *)

From Stdlib Require Import SpecFloat Ascii.
From S2P Require Import Prelude GoStrings GoNumbers AllocationID Hardware ResourceManager Key Envelope Allocation Ensemble.
From S2P Require Import BidCoordinator DependencyOrder IPNet Committer Subnet Orchestrator GoTime GoText ConfigTree SpecValidator Resolver.

Inductive dep_error :=
| ErrDepDatabase
| ErrDepMarshal
| ErrDepEmptyID
| ErrDepNotFound
| ErrDepUndecodable
| ErrDepRequest
| ErrDepBeforeMissing
| ErrDepBefore.

#[export] Instance dep_error_eq_dec : EqDecision dep_error.
Proof. solve_decision. Defined.

(** The number of a status, as it is stored and compared. *)
Definition statusInt (st : DeploymentStatus) : Z :=
  match st with
  | DeploymentStatusPreparing => 0
  | DeploymentStatusGenerating => 1
  | DeploymentStatusCommitting => 2
  | DeploymentStatusProvisioning => 3
  | DeploymentStatusRunning => 4
  | DeploymentStatusUpdating => 5
  | DeploymentStatusFailed => 6
  | DeploymentStatusShuttingDown => 7
  | DeploymentStatusCompleted => 8
  end.

Definition DeploymentStatus_String (st : DeploymentStatus) : string :=
  match st with
  | DeploymentStatusPreparing => "Preparing"
  | DeploymentStatusGenerating => "Generating"
  | DeploymentStatusCommitting => "Committing"
  | DeploymentStatusProvisioning => "Provisioning"
  | DeploymentStatusRunning => "Running"
  | DeploymentStatusUpdating => "Updating"
  | DeploymentStatusFailed => "Failed"
  | DeploymentStatusShuttingDown => "ShuttingDown"
  | DeploymentStatusCompleted => "Completed"
  end.

#[export] Instance statusInt_inj : Inj (=) (=) statusInt.
Proof. by intros [] []. Qed.

Record OrchestratorView := mkView {
  v_ID : string;
  v_CreatedAt : Time;
  v_UpdatedAt : Time;
  v_OrchestratorID : string;
  v_Cfg : EnsembleConfigV1;
  v_Manifest : EnsembleManifest;
  v_SubnetManifest : SubnetManifest;
  v_Status : DeploymentStatus;
  v_Candidates : gmap string BidV1;
  v_Expiry : Time;
  v_PrivKey : string;
  v_CompletedAt : option Time
}.

(** [json.Marshal] and [json.Unmarshal] of a view. *)
Class ViewCodec := {
  marshal_view : OrchestratorView → option string;
  unmarshal_view : string → option OrchestratorView
}.

Record DeploymentDoc := mkDoc {
  d_orchestrator_id : string;
  d_status : Z;
  d_created_at : Z;
  d_updated_at : Z;
  d_completed_at : option Z;
  d_data : string
}.

Definition DeploymentStore : Type := list DeploymentDoc.

(** What the database promises of a query: sorting permutes, sorts by numbers in the
    given direction, and a limit keeps the first documents. *)
Definition doc_number (field : string) (d : DeploymentDoc) : option Z :=
  if bool_decide (field = "status") then Some (d_status d)
  else if bool_decide (field = "created_at") then Some (d_created_at d)
  else if bool_decide (field = "updated_at") then Some (d_updated_at d)
  else None.

Class DocQuery := {
  sort_docs : string → Z → list DeploymentDoc → list DeploymentDoc;
  limit_docs : Z → list DeploymentDoc → list DeploymentDoc;
  sort_docs_perm f dir l : sort_docs f dir l ≡ₚ l;
  limit_docs_take n l : (0 ≤ n)%Z → limit_docs n l = take (Z.to_nat n) l
}.

Definition hasID (id : string) (d : DeploymentDoc) : bool := bool_decide (d_orchestrator_id d = id).

Record DeploymentQuery := mkDeploymentQuery {
  q_OrchestratorID : string;
  q_StatusFilter : list Z;
  q_CreatedAfter : option Time;
  q_CreatedBefore : option Time;
  q_UpdatedAfter : option Time;
  q_UpdatedBefore : option Time;
  q_Limit : Z;
  q_Offset : Z;
  q_SortBy : string
}.

Section deployments.
  Context `{Visit : MapVisit} `{Codec : ViewCodec} `{Docs : DocQuery}.

(** ** The store *)

Definition terminal (st : DeploymentStatus) : bool :=
  bool_decide (st = DeploymentStatusCompleted) || bool_decide (st = DeploymentStatusFailed).

(** An update leaves [created_at] and, when the status is not terminal, [completed_at]. *)
Definition updateDoc (now : Time) (v : OrchestratorView) (bts : string) (d : DeploymentDoc) : DeploymentDoc :=
  mkDoc (v_OrchestratorID v) (statusInt (v_Status v)) (d_created_at d) (Unix now)
    (if terminal (v_Status v) then Some (Unix now) else d_completed_at d) bts.

Definition newDoc (now : Time) (v : OrchestratorView) (bts : string) : DeploymentDoc :=
  mkDoc (v_OrchestratorID v) (statusInt (v_Status v)) (Unix now) (Unix now)
    (if terminal (v_Status v) then Some (Unix now) else None) bts.

Definition deployment_Upsert (r w : bool) (now : Time) (v : OrchestratorView) (s : DeploymentStore)
    : outcome dep_error () * DeploymentStore :=
  match marshal_view v with
  | None => (Err ErrDepMarshal, s)
  | Some bts =>
      if negb r then (Err ErrDepDatabase, s)
      else if negb w then (Err ErrDepDatabase, s)
      else if existsb (hasID (v_OrchestratorID v)) s
      then (Ok tt, map (λ d, if hasID (v_OrchestratorID v) d then updateDoc now v bts d else d) s)
      else (Ok tt, newDoc now v bts :: s)
  end.

Definition deployment_Get (r : bool) (id : string) (s : DeploymentStore) : outcome dep_error OrchestratorView :=
  if bool_decide (id = "") then Err ErrDepEmptyID
  else if negb r then Err ErrDepDatabase
  else match List.find (hasID id) (visit s) with
  | None => Err ErrDepNotFound
  | Some d => match unmarshal_view (d_data d) with Some v => Ok v | None => Err ErrDepUndecodable end
  end.

Fixpoint decodeAll (l : list DeploymentDoc) : outcome dep_error (list OrchestratorView) :=
  match l with
  | [] => Ok []
  | d :: l =>
      match unmarshal_view (d_data d) with
      | None => Err ErrDepUndecodable
      | Some v => match decodeAll l with Ok vs => Ok (v :: vs) | e => e end
      end
  end.

Definition deployment_GetAll (r : bool) (statusFilter : option DeploymentStatus) (s : DeploymentStore)
    : outcome dep_error (list OrchestratorView) :=
  if negb r then Err ErrDepDatabase
  else decodeAll (visit (match statusFilter with
                         | None => s
                         | Some st => List.filter (λ d, (d_status d =? statusInt st)%Z) s
                         end)).

Definition deployment_Delete (w : bool) (id : string) (s : DeploymentStore) : outcome dep_error () * DeploymentStore :=
  if bool_decide (id = "") then (Err ErrDepEmptyID, s)
  else if negb w then (Err ErrDepDatabase, s)
  else (Ok tt, List.filter (λ d, negb (hasID id d)) s).

Definition deployment_Prune (w : bool) (olderThan : Time) (s : DeploymentStore) : outcome dep_error () * DeploymentStore :=
  if negb w then (Err ErrDepDatabase, s)
  else (Ok tt, List.filter (λ d, negb (d_created_at d <? Unix olderThan)%Z) s).

Definition deployment_Clear (w : bool) (s : DeploymentStore) : outcome dep_error () * DeploymentStore :=
  if negb w then (Err ErrDepDatabase, s) else (Ok tt, []).

Definition mapSortField (field : string) : string :=
  if bool_decide (field = "created_at") || bool_decide (field = "createdAt") then "created_at"
  else if bool_decide (field = "updated_at") || bool_decide (field = "updatedAt") then "updated_at"
  else field.

Definition betweenTimes (after before : option Time) (x : Z) : bool :=
  match after with None => true | Some t => (Unix t <=? x)%Z end &&
  match before with None => true | Some t => (x <=? Unix t)%Z end.

(** The conditions, all of them; without one every document matches. *)
Definition queryMatches (q : DeploymentQuery) (d : DeploymentDoc) : bool :=
  (bool_decide (q_OrchestratorID q = "") || hasID (q_OrchestratorID q) d) &&
  ((length (q_StatusFilter q) =? 0)%nat || bool_decide (d_status d ∈ q_StatusFilter q)) &&
  betweenTimes (q_CreatedAfter q) (q_CreatedBefore q) (d_created_at d) &&
  betweenTimes (q_UpdatedAfter q) (q_UpdatedBefore q) (d_updated_at d).

Definition sortOption (q : DeploymentQuery) : string * Z :=
  if bool_decide (q_SortBy q = "") then ("created_at", -1)%Z
  else if HasPrefix (q_SortBy q) "-" then (mapSortField (string_drop 1 (q_SortBy q)), -1)%Z
  else (mapSortField (q_SortBy q), 1)%Z.

Definition sortedDocs (q : DeploymentQuery) (s : DeploymentStore) : list DeploymentDoc :=
  let '(field, dir) := sortOption q in sort_docs field dir (visit (List.filter (queryMatches q) s)).

(** The documents of a page.  The sum of the offset and the limit may wrap around. *)
Definition pageDocs (q : DeploymentQuery) (s : DeploymentStore) : list DeploymentDoc :=
  let effectiveLimit := (if q_Limit q <=? 0 then 1000 else q_Limit q)%Z in
  if (0 <? q_Offset q)%Z then
    let allDocs := limit_docs (s64 (q_Offset q + effectiveLimit)) (sortedDocs q s) in
    if (q_Offset q <? Z.of_nat (length allDocs))%Z then
      let docs := drop (Z.to_nat (q_Offset q)) allDocs in
      if (0 <? q_Limit q)%Z && (q_Limit q <? Z.of_nat (length docs))%Z then take (Z.to_nat (q_Limit q)) docs else docs
    else []
  else limit_docs effectiveLimit (sortedDocs q s).

(** The views of a page, without those that cannot be read, and the number of documents
    that match. *)
Definition deployment_Query (r r' : bool) (q : DeploymentQuery) (s : DeploymentStore)
    : outcome dep_error (list OrchestratorView * Z) :=
  if negb r then Err ErrDepDatabase
  else if negb r' then Err ErrDepDatabase
  else Ok (omap (λ d, unmarshal_view (d_data d)) (pageDocs q s), Z.of_nat (length (List.filter (queryMatches q) s))).

(** ** Listing *)

Record DeploymentListRequest := mkListRequest {
  lr_Metadata : gmap string string;
  lr_query : DeploymentQuery
}.

Record DeploymentInfo := mkInfo {
  i_OrchestratorID : string;
  i_Status : string;
  i_CreatedAt : Time;
  i_UpdatedAt : Time;
  i_CompletedAt : option Time;
  i_Metadata : gmap string string
}.

Record DeploymentListResponse := mkListResponse {
  l_Deployments : list DeploymentInfo;
  l_Total : Z;
  l_HasMore : bool;
  l_NextOffset : Z
}.

Definition shouldIncludeDeployment (v : OrchestratorView) (metadataFilter : gmap string string) : bool :=
  forallb (λ '(k, x), bool_decide (mf_Metadata (v_Manifest v) !! k = Some x)) (map_to_list metadataFilter).

Definition infoOf (v : OrchestratorView) : DeploymentInfo :=
  mkInfo (v_OrchestratorID v) (DeploymentStatus_String (v_Status v)) (v_CreatedAt v) (v_UpdatedAt v) (v_CompletedAt v)
    (mf_Metadata (v_Manifest v)).

(** The answer to a request; an error is answered with an empty list. *)
Definition handleDeploymentList (r r' : bool) (request : option DeploymentListRequest) (s : DeploymentStore)
    : DeploymentListResponse :=
  match request with
  | None => mkListResponse [] 0 false 0
  | Some request =>
      match deployment_Query r r' (lr_query request) s with
      | Ok (deployments, total) =>
          let filtered := map infoOf (List.filter (λ v, shouldIncludeDeployment v (lr_Metadata request)) deployments) in
          let next := s64 (q_Offset (lr_query request) + Z.of_nat (length filtered)) in
          let hasMore := (0 <? q_Limit (lr_query request))%Z && (next <? total)%Z in
          mkListResponse filtered
            (if bool_decide (lr_Metadata request = ∅) then total else Z.of_nat (length filtered))
            hasMore (if hasMore then next else 0%Z)
      | _ => mkListResponse [] 0 false 0
      end
  end.

(** ** Deleting and pruning *)

Definition handleDeploymentDelete (w : bool) (request : option string) (s : DeploymentStore)
    : outcome dep_error () * DeploymentStore :=
  match request with
  | None => (Err ErrDepRequest, s)
  | Some id => deployment_Delete w id s
  end.

(** The deployments with a status that are [old] are deleted one by one. *)
Fixpoint deleteOld (w : string → bool) (old : OrchestratorView → bool) (views : list OrchestratorView) (s : DeploymentStore)
    : outcome dep_error () * DeploymentStore :=
  match views with
  | [] => (Ok tt, s)
  | v :: views =>
      if old v then
        match deployment_Delete (w (v_OrchestratorID v)) (v_OrchestratorID v) s with
        | (Ok _, s) => deleteOld w old views s
        | e => e
        end
      else deleteOld w old views s
  end.

Fixpoint pruneStatuses (r : DeploymentStatus → bool) (w : string → bool) (old : OrchestratorView → bool)
    (statuses : list DeploymentStatus) (s : DeploymentStore) : outcome dep_error () * DeploymentStore :=
  match statuses with
  | [] => (Ok tt, s)
  | st :: statuses =>
      match deployment_GetAll (r st) (Some st) s with
      | Ok views =>
          match deleteOld w old views s with
          | (Ok _, s) => pruneStatuses r w old statuses s
          | e => e
          end
      | Err e => (Err e, s)
      | Panic => (Panic, s)
      end
  end.

Definition prunedStatuses : list DeploymentStatus := [DeploymentStatusFailed; DeploymentStatusCompleted].

End deployments.

(** ** Dates ([time.Parse])

    The layouts of a prune request: RFC 3339, and a date with or without a time in UTC. *)

Definition dateDigit (s : string) : option (Z * string) :=
  match s with
  | String c r => if isDigit c then Some (digitValue c, r) else None
  | EmptyString => None
  end.

(** A number of two digits; the first may stand alone when [short] is set. *)
Definition getnum (short : bool) (s : string) : option (Z * string) :=
  match dateDigit s with
  | None => None
  | Some (a, r) =>
      match dateDigit r with
      | Some (b, r) => Some ((10 * a + b)%Z, r)
      | None => if short then Some (a, r) else None
      end
  end.

Definition within (lo hi : Z) (n : option (Z * string)) : option (Z * string) :=
  match n with
  | Some (x, r) => if (lo <=? x)%Z && (x <=? hi)%Z then Some (x, r) else None
  | None => None
  end.

Definition getyear (s : string) : option (Z * string) :=
  match getnum false s with
  | Some (a, r) => match getnum false r with Some (b, r) => Some ((100 * a + b)%Z, r) | None => None end
  | None => None
  end.

Definition daysIn (month year : Z) : Z :=
  if (month =? 2)%Z
  then if ((year mod 4 =? 0) && (negb (year mod 100 =? 0) || (year mod 400 =? 0)))%Z then 29 else 28
  else if bool_decide (month ∈ [4; 6; 9; 11])%Z then 30 else 31.

(** Days since the epoch; years are counted from March. *)
Definition daysOfDate (year month day : Z) : Z :=
  let y := if (month <=? 2)%Z then (year - 1)%Z else year in
  (days_before_year y + (153 * ((month + 9) mod 12) + 2) / 5 + day - 1 - 719468)%Z.

(** The date; the day is checked against the month at the end, with [validDay]. *)
Definition getdate (s : string) : option ((Z * Z * Z) * string) :=
  match getyear s with
  | None => None
  | Some (year, s) =>
      match strip_prefix s "-" with
      | None => None
      | Some s =>
          match within 1 12 (getnum false s) with
          | None => None
          | Some (month, s) =>
              match strip_prefix s "-" with
              | None => None
              | Some s => match getnum false s with Some (day, s) => Some ((year, month, day), s) | None => None end
              end
          end
      end
  end.

Definition validDay (d : Z * Z * Z) : bool :=
  let '(year, month, day) := d in (1 <=? day)%Z && (day <=? daysIn month year)%Z.

Definition midnight (d : Z * Z * Z) : Time := let '(year, month, day) := d in (daysOfDate year month day * Day)%Z.

(** Nine digits of a fraction of a second count. *)
Definition fraction (digits : string) : Z :=
  let n := Nat.min 9 (String.length digits) in
  (default 0 (Atoi (String.substring 0 n digits)) * 10 ^ (9 - Z.of_nat n))%Z.

Definition getfraction (s : string) : Z * string :=
  match s with
  | String c r =>
      if bool_decide (c = "."%char) || bool_decide (c = ","%char) then
        let '(digits, rest) := spanString isDigit r in
        if bool_decide (digits = "") then (0%Z, s) else (fraction digits, rest)
      else (0%Z, s)
  | EmptyString => (0%Z, s)
  end.

Definition getclock (s : string) : option (Duration * string) :=
  match within 0 23 (getnum true s) with
  | None => None
  | Some (h, s) =>
      match strip_prefix s ":" with
      | None => None
      | Some s =>
          match within 0 59 (getnum false s) with
          | None => None
          | Some (m, s) =>
              match strip_prefix s ":" with
              | None => None
              | Some s =>
                  match within 0 59 (getnum false s) with
                  | None => None
                  | Some (sec, s) =>
                      let '(nsec, s) := getfraction s in
                      Some ((h * Hour + m * Minute + sec * Second + nsec)%Z, s)
                  end
              end
          end
      end
  end.

(** [Z] or an offset. *)
Definition getzone (s : string) : option (Duration * string) :=
  match s with
  | String c r =>
      if bool_decide (c = "Z"%char) then Some (0%Z, r)
      else if negb (bool_decide (c = "+"%char) || bool_decide (c = "-"%char)) then None
      else match within 0 24 (getnum false r) with
      | None => None
      | Some (h, r) =>
          match strip_prefix r ":" with
          | None => None
          | Some r =>
              match within 0 60 (getnum false r) with
              | None => None
              | Some (m, r) =>
                  let d := (h * Hour + m * Minute)%Z in
                  Some (if bool_decide (c = "-"%char) then (- d)%Z else d, r)
              end
          end
      end
  | EmptyString => None
  end.

Definition ended (d : Z * Z * Z) (t : Time) (rest : string) : option Time :=
  if bool_decide (rest = "") && validDay d then Some t else None.

Definition parseRFC3339 (s : string) : option Time :=
  match getdate s with
  | None => None
  | Some (d, s) =>
      match strip_prefix s "T" with
      | None => None
      | Some s =>
          match getclock s with
          | None => None
          | Some (c, s) => match getzone s with Some (z, s) => ended d (midnight d + c - z)%Z s | None => None end
          end
      end
  end.

(** A space stands for any number of them. *)
Definition parseDateTime (s : string) : option Time :=
  match getdate s with
  | None => None
  | Some (d, s) =>
      let '(spaces, s) := spanString (λ c, bool_decide (c = " "%char)) s in
      if bool_decide (spaces = "") then None
      else match getclock s with Some (c, s) => ended d (midnight d + c)%Z s | None => None end
  end.

Definition parseDate (s : string) : option Time :=
  match getdate s with Some (d, s) => ended d (midnight d) s | None => None end.

Definition parseLayouts (s : string) : option Time :=
  match parseRFC3339 s with
  | Some t => Some t
  | None => match parseDateTime s with Some t => Some t | None => parseDate s end
  end.

Example dates :
  map parseLayouts ["2024-02-29"; "2023-02-29"; "1970-01-01 00:00:01"; "2024-02-29T12:00:00Z"; "1970-01-01T01:00:00.5+01:00";
                    "2024-2-29"; "1970-01-01   1:00:00,25"; "2024-02-29 "; "1969-12-31T24:00:00Z"] =
  [Some (19782 * Day); None; Some Second; Some (time_Unix 1709208000); Some 500000000; None; Some (Hour + 250000000);
   None; None]%Z.
Proof. vm_compute. reflexivity. Qed.

(** The time before which deployments are pruned; [daysAgo n] is the same clock [n] days
    ago, in the zone of the host. *)
Definition cutoff (now : Time) (daysAgo : Z → Time) (request : string) : outcome dep_error Time :=
  let before := TrimSpace request in
  if bool_decide (before = "") then Err ErrDepBeforeMissing
  else if HasSuffix before "d" then
    let daysStr := TrimSuffix before "d" in
    if bool_decide (daysStr = "") then Err ErrDepBefore
    else match Atoi daysStr with
         | Some n => if (0 <? n)%Z then Ok (daysAgo n) else Err ErrDepBefore
         | None => Err ErrDepBefore
         end
  else match ParseDuration before with
  | Some dur => Ok (time_Add now (s64 (- dur)))
  | None =>
      match parseLayouts before with
      | Some t => if IsZero t then Err ErrDepBefore else Ok t
      | None => Err ErrDepBefore
      end
  end.

Section prune.
  Context `{Visit : MapVisit} `{Codec : ViewCodec}.

Record DeploymentPruneRequest := mkPruneRequest { pr_Before : string; pr_All : bool }.

(** With [All] every deployment that failed or completed is deleted, otherwise those that
    the view says were created before the cutoff. *)
Definition handleDeploymentPrune (r : DeploymentStatus → bool) (w : string → bool) (now : Time) (daysAgo : Z → Time)
    (request : option DeploymentPruneRequest) (s : DeploymentStore) : outcome dep_error () * DeploymentStore :=
  match request with
  | None => (Err ErrDepRequest, s)
  | Some request =>
      if pr_All request then pruneStatuses r w (λ _, true) prunedStatuses s
      else match cutoff now daysAgo (pr_Before request) with
      | Ok cutoffTime => pruneStatuses r w (λ v, time_Before (v_CreatedAt v) cutoffTime) prunedStatuses s
      | Err e => (Err e, s)
      | Panic => (Panic, s)
      end
  end.

End prune.
