(* ===== verification/Registry.v ===== *)
(** * The registry of deployments (dms/orchestrator/registry.go, dms/node/node.go)

    A node keeps the orchestrators of its deployments in memory and saves views of them
    in the store of [Deployments]; after a restart it recreates the orchestrators from the
    views and resumes each of them where it stopped.  The handlers that create, stop and
    show deployments are those of dms/node/behaviors_deployment.go.

    The answers of the database, the actors, the nodes and the network are arguments.  The
    deadline of a deployment is the [Time] of its snapshot, and the attempts to deploy are
    none when it has passed.  An orchestrator that is restored has no generator of
    node names and no contracts: what would call the generator panics. *)

From S2P Require Import Prelude GoStrings GoNumbers AllocationID Hardware ResourceManager Key Envelope Allocation Ensemble.
From S2P Require Import BidCoordinator DependencyOrder IPNet Committer Subnet Orchestrator GoTime Deployments.
Open Scope go_scope.

Inductive reg_error :=
| ErrOrchestratorExists
| ErrOrchestratorNotFound
| ErrRegStore (e : dep_error)
| ErrRegConfig
| ErrRegGenerator
| ErrRegSubnet
| ErrRegBehaviors
| ErrRegKey
| ErrRegGrant
| ErrRegDeploy (e : orch_error)
| ErrRegActor
| ErrRegRequest
| ErrRegTooShort
| ErrRegContract
| ErrRegStats
| ErrDeploymentNotRunning.

#[export] Instance reg_error_eq_dec : EqDecision reg_error.
Proof. solve_decision. Defined.

(** An orchestrator with the deadline of its snapshot and the private key of its actor
    ([None] when it cannot be encoded); whether its changes of status are saved, and
    whether its allocations are supervised. *)
Record Entry := mkEntry {
  e_orch : Orchestrator;
  e_expiry : Time;
  e_key : option string;
  e_watched : bool;
  e_supervised : bool
}.

Definition set_e_orch e o := mkEntry o (e_expiry e) (e_key e) (e_watched e) (e_supervised e).

Record basicRegistry := mkRegistry {
  orchestrators : gmap string Entry;
  store : DeploymentStore
}.

Definition set_orchestrators f v := mkRegistry v (store f).
Definition set_store f v := mkRegistry (orchestrators f) v.

Definition NewRegistry (s : DeploymentStore) : basicRegistry := mkRegistry ∅ s.

Section registry.
  Context `{Visit : MapVisit} `{NodeGen : NodeIDGenerator} `{AllocGen : AllocationIDGenerator} `{Bids : BidLib}.
  Context `{Codec : ViewCodec} `{Docs : DocQuery}.

(** ** Saving *)

(** The creation time of a view is the time of the save. *)
Definition viewOf (now : Time) (pkRaw : string) (e : Entry) : OrchestratorView :=
  let o := e_orch e in
  mkView (o_id o) now Time_zero (o_id o) (o_cfg o) (o_manifest o) (o_subnet o) (o_status o) (o_candidates o)
    (e_expiry e) pkRaw None.

Definition SaveOrchestrator (r w : bool) (now : Time) (e : Entry) (f : basicRegistry) : outcome reg_error () * basicRegistry :=
  match e_key e with
  | None => (Err ErrRegKey, f)
  | Some pkRaw =>
      match deployment_Upsert r w now (viewOf now pkRaw e) (store f) with
      | (Ok _, s) => (Ok tt, set_store f s)
      | (Err e, s) => (Err (ErrRegStore e), set_store f s)
      | (Panic, s) => (Panic, set_store f s)
      end
  end.

Definition GetOrchestrator (f : basicRegistry) (id : string) : outcome reg_error Entry :=
  match orchestrators f !! id with Some e => Ok e | None => Err ErrOrchestratorNotFound end.

(** A failure of the store is only logged. *)
Definition DeleteOrchestrator (w : bool) (id : string) (f : basicRegistry) : basicRegistry :=
  mkRegistry (delete id (orchestrators f)) (deployment_Delete w id (store f)).2.

Definition GetDeployment (r : bool) (id : string) (f : basicRegistry) : outcome dep_error OrchestratorView :=
  deployment_Get r id (store f).

Definition GetAllDeployments (r : bool) (f : basicRegistry) : outcome dep_error (list OrchestratorView) :=
  deployment_GetAll r None (store f).

(** ** Creating *)

(** What the creation of an orchestrator meets: the draws of its network and whether its
    behaviours can be registered. *)
Definition newOrchestrator (draws : list IP) (registers : bool) (id : string) (h : Handle) (cfg : EnsembleConfig)
    (contracts : gmap string ContractConfig) : outcome reg_error Orchestrator :=
  match ecfg_V1 cfg with
  | None => Err ErrRegConfig
  | Some cfg =>
      if negb (is_ok ValidateNodeIDGenerator) then Err ErrRegGenerator
      else if negb (is_ok ValidateAllocationIDGenerator) then Err ErrRegGenerator
      else match newSubnetManifest draws with
      | Some (Ok sn) =>
          if negb registers then Err ErrRegBehaviors
          else Ok (mkOrchestrator id h cfg (mkManifest "" ∅ Handle_zero ∅ ∅ false ∅) sn DeploymentStatusPreparing ∅ ∅ contracts
                     false [] [])
      | Some Panic => Panic
      | _ => Err ErrRegSubnet
      end
  end.

(** An identifier that is stored, and can be read, is refused. *)
Definition NewOrchestrator (r r' w : bool) (now : Time) (draws : list IP) (registers : bool) (key : option string)
    (id : string) (h : Handle) (cfg : EnsembleConfig) (contracts : gmap string ContractConfig) (f : basicRegistry)
    : outcome reg_error Entry * basicRegistry :=
  match deployment_Get r id (store f) with
  | Ok _ => (Err ErrOrchestratorExists, f)
  | _ =>
      match newOrchestrator draws registers id h cfg contracts with
      | Err e => (Err e, f)
      | Panic => (Panic, f)
      | Ok o =>
          let e := mkEntry (with_manifest o (newManifest id h (o_cfg o))) Time_zero key true false in
          match SaveOrchestrator r' w now e f with
          | (Ok _, f) => (Ok e, set_orchestrators f (<[id := e]> (orchestrators f)))
          | (Err e, f) => (Err e, f)
          | (Panic, f) => (Panic, f)
          end
      end
  end.

(** ** Restoring *)

(** Without a generator, standby nodes cannot be named. *)
Definition needsGenerator (cfg : EnsembleConfigV1) : bool :=
  existsb (λ kv, (0 <? node_Redundancy kv.2)%Z) (map_to_list (cfg_Nodes cfg)).

Definition restoredManifest (id : string) (h : Handle) (cfg : EnsembleConfigV1) : outcome reg_error EnsembleManifest :=
  if needsGenerator cfg then Panic else Ok (newManifest id h cfg).

(** Without a generator, the committer finds the nodes of the configuration only. *)
Definition commitNeedsGenerator (cfg : EnsembleConfigV1) (candidate : gmap string BidV1) : bool :=
  existsb (λ nb, let '(isStandby, primaryNode, _) := ParseNodeName nb.1 in
                 bool_decide (cfg_Nodes cfg !! (if isStandby then primaryNode else nb.1) = None))
    (map_to_list candidate).

(** Whether an attempt reaches the committer with a candidate that it cannot look up. *)
Definition attemptPanics (cfg : EnsembleConfigV1) (a : Attempt) (o : Orchestrator) : bool :=
  match runBid (at_bidding a) cfg (o_id o) ∅ with
  | Ok candidate =>
      match convertPromises (at_convert a) (visit (map_to_list candidate)) candidate with
      | Ok candidate => commitNeedsGenerator cfg candidate
      | _ => false
      end
  | _ => false
  end.

(** [deploy] of an orchestrator that has no generator. *)
Fixpoint redeploy (cfg : EnsembleConfigV1) (attempts : list Attempt) (o : Orchestrator) (partial : option EnsembleManifest)
    : outcome orch_error () * Orchestrator :=
  match attempts with
  | [] => (Err ErrDeploymentFailed, o)
  | a :: attempts =>
      if attemptPanics cfg a o then (Panic, o)
      else match attempt cfg a o partial with
      | (Retry, o, partial) => redeploy cfg attempts o partial
      | (Deployed, o, _) => (Ok tt, o)
      | (Stopped e, o, _) => (Err e, o)
      | (Crashed, o, _) => (Panic, o)
      end
  end.

(** What a restoration meets. *)
Record RestoreEnv := mkRestoreEnv {
  re_now : Time;
  re_registers : bool;
  re_attempts : list Attempt;
  re_reverted : string → Handle → bool;
  re_network : Network;
  re_grants : DID → bool;
  re_create : bool;
  re_join : bool
}.

Definition attemptsBefore (env : RestoreEnv) (expiry : Time) : list Attempt :=
  if time_Before (re_now env) expiry then re_attempts env else [].

(** Deploying again, with a manifest of its own or the orchestrator's; an orchestrator
    that cannot be deployed is not restored. *)
Definition deployAgain (env : RestoreEnv) (cfg : EnsembleConfigV1) (partial : option EnsembleManifest) (supervise : bool)
    (e : Entry) : outcome reg_error Entry :=
  match redeploy cfg (attemptsBefore env (e_expiry e)) (e_orch e) partial with
  | (Ok _, o) => Ok (mkEntry o (e_expiry e) (e_key e) true supervise)
  | (Err err, _) => Err (ErrRegDeploy err)
  | (Panic, _) => Panic
  end.

(** The orchestrator that is made from a view, before anything is asked of anyone. *)
Definition recreated (h : Handle) (v : OrchestratorView) : Entry :=
  mkEntry (mkOrchestrator (v_OrchestratorID v) h (v_Cfg v) (v_Manifest v) (v_SubnetManifest v) (v_Status v) ∅
             (v_Candidates v) ∅ false [] [])
    (v_Expiry v) (Some (v_PrivKey v)) false false.

(** Reverting and deploying from the start. *)
Definition startOver (env : RestoreEnv) (cfg : EnsembleConfigV1) (manifest : EnsembleManifest) (supervise : bool) (e : Entry)
    : outcome reg_error Entry :=
  let o := revert (re_reverted env) cfg manifest (e_orch e) in
  let? mf := restoredManifest (o_id o) (o_handle o) cfg in
  deployAgain env cfg (Some mf) supervise (set_e_orch e o).

Definition restoreProvisioning (env : RestoreEnv) (v : OrchestratorView) (e : Entry) : outcome reg_error Entry :=
  match Provision (re_network env) (e_orch e) (v_Cfg v) (v_Manifest v) with
  | (Panic, _) => Panic
  | (Err _, sn) => startOver env (v_Cfg v) (v_Manifest v) true (set_e_orch e (with_subnet (e_orch e) sn))
  | (Ok mf, sn) =>
      let o := orch_setStatus DeploymentStatusRunning (updateManifest mf (with_subnet (e_orch e) sn)) in
      Ok (mkEntry o (e_expiry e) (e_key e) true true)
  end.

(** A deployment that was running keeps its allocations; when the orchestrator was a
    member of the subnet it joins again, and starts over when it cannot. *)
Definition restoreRunning (env : RestoreEnv) (v : OrchestratorView) (e : Entry) : outcome reg_error Entry :=
  let o := e_orch e in
  if negb (forallb (λ kv, re_grants env (Handle_DID (amf_Handle kv.2))) (visit (map_to_list (mf_Allocations (o_manifest o)))))
  then Err ErrRegGrant
  else if mf_SubnetJoin (o_manifest o) && bool_decide (is_Some (sn_IndexRoutingTable (o_subnet o) !! orchSubnetName)) &&
          negb (re_create env && re_join env)
  then startOver env (v_Cfg v) (v_Manifest v) false e
  else Ok (mkEntry (recordAllocations o) (e_expiry e) (e_key e) true true).

Definition restoreDeployment (env : RestoreEnv) (h : Handle) (v : OrchestratorView) : outcome reg_error Entry :=
  let e := recreated h v in
  if negb (re_registers env) then Err ErrRegBehaviors
  else
    let? (e, partial) :=
      if bool_decide (mf_ID (v_Manifest v) = "")
      then let? mf := restoredManifest (v_OrchestratorID v) h (v_Cfg v) in
           Ok (set_e_orch e (with_manifest (e_orch e) mf), Some (v_Manifest v))
      else Ok (e, None) in
    match v_Status v with
    | DeploymentStatusPreparing => deployAgain env (v_Cfg v) partial true e
    | DeploymentStatusCommitting =>
        let manifest := o_manifest (e_orch e) in
        let o := fold_left (λ o '(n, b), revertNodeDeployment (re_reverted env) (v_Cfg v) o n (bid_Handle b))
                   (visit (map_to_list (v_Candidates v))) (e_orch e) in
        deployAgain env (v_Cfg v) (Some manifest) true (set_e_orch e o)
    | DeploymentStatusProvisioning => restoreProvisioning env v e
    | DeploymentStatusRunning => restoreRunning env v e
    | _ => Ok e
    end.

Definition RestoreDeployment (env : RestoreEnv) (h : Handle) (v : OrchestratorView) (f : basicRegistry)
    : outcome reg_error Entry * basicRegistry :=
  match orchestrators f !! v_OrchestratorID v with
  | Some _ => (Err ErrOrchestratorExists, f)
  | None =>
      match restoreDeployment env h v with
      | Ok e => (Ok e, set_orchestrators f (<[v_OrchestratorID v := e]> (orchestrators f)))
      | Err e => (Err e, f)
      | Panic => (Panic, f)
      end
  end.

(** ** The node *)

Definition isRestorableStatus (st : DeploymentStatus) : bool := (statusInt st <=? statusInt DeploymentStatusRunning)%Z.

(** What a node meets when it restores one deployment: the handle of the actor it makes
    with the key, [None] when the key or the actor is not made; whether the actor starts
    and gets its behaviours. *)
Record ActorEnv := mkActorEnv {
  ae_child : string → string → option Handle;
  ae_starts : string → bool;
  ae_behaviors : string → bool
}.

(** The restorations that failed, and whether the loop was left before its end. *)
Fixpoint restoreViews (ae : ActorEnv) (env : string → RestoreEnv) (views : list OrchestratorView) (f : basicRegistry)
    : outcome reg_error (list string) * basicRegistry :=
  match views with
  | [] => (Ok [], f)
  | v :: views =>
      let id := v_OrchestratorID v in
      let failed (r : outcome reg_error (list string) * basicRegistry) :=
        match r with (Ok l, f) => (Ok (id :: l), f) | r => r end in
      if negb (isRestorableStatus (v_Status v)) then restoreViews ae env views f
      else match ae_child ae id (v_PrivKey v) with
      | None => failed (restoreViews ae env views f)
      | Some h =>
          if negb (ae_starts ae id) then restoreViews ae env views f
          else if mf_SubnetJoin (v_Manifest v) && negb (ae_behaviors ae id) then (Err ErrRegBehaviors, f)
          else match RestoreDeployment (env id) h v f with
          | (Ok _, f) => restoreViews ae env views f
          | (Err _, f) => failed (restoreViews ae env views f)
          | (Panic, f) => (Panic, f)
          end
      end
  end.

Definition restoreDeployments (r : bool) (ae : ActorEnv) (env : string → RestoreEnv) (f : basicRegistry)
    : outcome reg_error (list string) * basicRegistry :=
  match GetAllDeployments r f with
  | Ok views => restoreViews ae env views f
  | Err e => (Err (ErrRegStore e), f)
  | Panic => (Panic, f)
  end.

(** All orchestrators in memory are saved when the node stops; the failures are
    collected.  [db id] says whether the database answers a read and a write. *)
Definition saveDeployments (db : string → bool * bool) (now : string → Time) (f : basicRegistry)
    : list string * basicRegistry :=
  fold_left (λ '(failed, f) '(id, e),
               match SaveOrchestrator (db id).1 (db id).2 (now id) e f with
               | (Ok _, f) => (failed, f)
               | (_, f) => (failed ++ [id], f)
               end)
    (visit (map_to_list (orchestrators f))) ([], f).

(** *** Creating and stopping deployments *)

Definition MinDeploymentTime : Duration := (Minute - Second)%Z.
Definition MinEnsembleDeploymentTime : Duration := (15 * Second)%Z.

(** What is learnt from the hosts of the contracts: the parties of each. *)
Fixpoint completeContracts (info : ContractConfig → option (string * string)) (l : list (string * ContractConfig))
    (contracts : gmap string ContractConfig) : option (gmap string ContractConfig) :=
  match l with
  | [] => Some contracts
  | (k, c) :: l =>
      match info c with
      | None => None
      | Some (provider, requestor) =>
          completeContracts info l (<[k := mkContractConfig (cc_DID c) (cc_Host c) provider requestor]> contracts)
      end
  end.

Record CreateEnv := mkCreateEnv {
  ce_id : option (string * Handle);           (* identifier and actor, when they are made *)
  ce_key : option string;
  ce_info : ContractConfig → option (string * string);
  ce_draws : list IP;
  ce_registers : bool;
  ce_behaviors : bool;
  ce_grants : DID → bool;
  ce_attempts : list Attempt;
  ce_read : bool;
  ce_write : bool * bool;                     (* the first save *)
  ce_save : bool * bool                       (* the save after a failure *)
}.

Definition set_cfg_contracts c v := mkConfig (EscalationStrategy c) (cfg_Allocations c) (cfg_Nodes c) (cfg_Edges c)
  (cfg_Supervisor c) (cfg_ExcludePeers c) (cfg_SubnetJoin c) (cfg_Metadata c) v (cfg_Keys c) (cfg_Scripts c).

Definition createOrchestrator (env : CreateEnv) (now : Time) (cfg : EnsembleConfigV1) (f : basicRegistry)
    : outcome reg_error Entry * basicRegistry :=
  match ce_id env with
  | None => (Err ErrRegActor, f)
  | Some (id, h) =>
      match NewOrchestrator (ce_read env) (ce_write env).1 (ce_write env).2 now (ce_draws env) (ce_registers env) (ce_key env)
              id h (mkEnsembleConfig (Some cfg)) (cfg_Contracts cfg) f with
      | (Ok e, f) => if cfg_SubnetJoin cfg && negb (ce_behaviors env) then (Err ErrRegBehaviors, f) else (Ok e, f)
      | r => r
      end
  end.

(** The deployment of an orchestrator in the registry, whose deadline is [expiry]; a
    deployment that fails is saved, and its orchestrator is stopped.  The identifier was
    answered before. *)
Definition runDeployment (env : CreateEnv) (now : Time) (expiry : Time) (e : Entry) (f : basicRegistry)
    : outcome reg_error string * basicRegistry :=
  let id := o_id (e_orch e) in
  let attempts := if time_Before now expiry then ce_attempts env else [] in
  match Deploy (ce_grants env) attempts (e_orch e) with
  | (Ok _, o) => (Ok id, set_orchestrators f (<[id := mkEntry o expiry (e_key e) (e_watched e) true]> (orchestrators f)))
  | (Err _, o) =>
      let e := mkEntry o expiry (e_key e) (e_watched e) (e_supervised e) in
      let f := (SaveOrchestrator (ce_save env).1 (ce_save env).2 now e f).2 in
      (Ok id, set_orchestrators f (<[id := set_e_orch e (with_stopped o true)]> (orchestrators f)))
  | (Panic, _) => (Panic, f)
  end.

Definition handleNewDeployment (env : CreateEnv) (now expiry : Time) (request : option EnsembleConfig) (f : basicRegistry)
    : outcome reg_error string * basicRegistry :=
  if (time_Sub expiry now <? MinDeploymentTime)%Z then (Err ErrRegTooShort, f)
  else match request with
  | None => (Err ErrRegRequest, f)
  | Some cfg =>
      match ecfg_V1 cfg with
      | None => (Err ErrRegConfig, f)
      | Some cfg =>
          if existsb (λ kc, bool_decide (cc_DID kc.2 = "")) (map_to_list (cfg_Contracts cfg)) then (Err ErrRegContract, f)
          else match completeContracts (ce_info env) (visit (map_to_list (cfg_Contracts cfg))) (cfg_Contracts cfg) with
          | None => (Err ErrRegContract, f)
          | Some contracts =>
              match createOrchestrator env now (set_cfg_contracts cfg contracts) f with
              | (Ok e, f) => runDeployment env now (time_Add expiry (- MinEnsembleDeploymentTime)%Z) e f
              | (Err err, f) => (Err err, f)
              | (Panic, f) => (Panic, f)
              end
          end
      end
  end.

Definition handleDeploymentShutdown (r w : bool) (now : Time) (stops : string → bool) (request : option string)
    (f : basicRegistry) : outcome reg_error () * basicRegistry :=
  match request with
  | None => (Err ErrRegRequest, f)
  | Some id =>
      match GetOrchestrator f id with
      | Err e => (Err e, f)
      | Panic => (Panic, f)
      | Ok e =>
          if negb (bool_decide (o_status (e_orch e) = DeploymentStatusRunning)) then (Err ErrDeploymentNotRunning, f)
          else
            let e := set_e_orch e (Shutdown stops (e_orch e)) in
            SaveOrchestrator r w now e (set_orchestrators f (<[id := e]> (orchestrators f)))
      end
  end.

(** *** Showing deployments *)

(** The manifest: that of the orchestrator when the stored status is running. *)
Definition handleDeploymentManifest (r : bool) (request : option string) (f : basicRegistry)
    : outcome reg_error EnsembleManifest :=
  match request with
  | None => Err ErrRegRequest
  | Some id =>
      match GetDeployment r id f with
      | Ok v =>
          if bool_decide (v_Status v = DeploymentStatusRunning)
          then match GetOrchestrator f id with Ok e => Ok (o_manifest (e_orch e)) | Err e => Err e | Panic => Panic end
          else Ok (v_Manifest v)
      | Err e => Err (ErrRegStore e)
      | Panic => Panic
      end
  end.

(** The status, with what is known of the allocations when the stored status is running,
    and what they use when it is asked for; [stats] are the answers of the allocations.
    One allocation that does not answer fails the whole. *)
Definition handleDeploymentStatus (r : bool) (stats : Handle → option string) (request : option (string * bool))
    (f : basicRegistry) : outcome reg_error (string * gmap string AllocationInfo * gmap string string) :=
  match request with
  | None => Err ErrRegRequest
  | Some (id, includeUsage) =>
      match GetDeployment r id f with
      | Ok v =>
          if negb (bool_decide (v_Status v = DeploymentStatusRunning)) then Ok (DeploymentStatus_String (v_Status v), ∅, ∅)
          else match GetOrchestrator f id with
          | Ok e =>
              let allocations := map_to_list (mf_Allocations (o_manifest (e_orch e))) in
              if negb includeUsage then Ok (DeploymentStatus_String (v_Status v), o_allocs (e_orch e), ∅)
              else if existsb (λ kv, bool_decide (stats (amf_Handle kv.2) = None)) allocations then Err ErrRegStats
              else Ok (DeploymentStatus_String (v_Status v), o_allocs (e_orch e),
                       omap (λ a, stats (amf_Handle a)) (mf_Allocations (o_manifest (e_orch e))))
          | Err e => Err e
          | Panic => Panic
          end
      | Err e => Err (ErrRegStore e)
      | Panic => Panic
      end
  end.

(** *** Everything about a deployment *)

Record DeploymentInfoRequest := mkInfoRequest {
  ir_ID : string;
  ir_IncludeUsage : bool;
  ir_IncludeLogs : bool;
  ir_AllocationNames : list string
}.

(** What is known of an allocation, its statistics, and where its logs are or why they are
    not ([None] when they were not asked for). *)
Record InfoAllocation := mkDetails {
  ad_info : AllocationInfo;
  ad_ExecutorStats : option string;
  ad_Logs : option (outcome () string)
}.

Record DeploymentInfoResponse := mkInfoResponse {
  ip_ID : string;
  ip_Status : string;
  ip_Manifest : EnsembleManifest;
  ip_Allocations : gmap string InfoAllocation
}.

(** The identifiers of the allocations that are known, by their keys in the manifest. *)
Definition allocationKeys (info : gmap string AllocationInfo) : list (string * string) :=
  omap (λ allocID, match ParseAllocationID allocID with Ok aid => Some (ManifestKey aid, allocID) | _ => None end)
    (visit (map fst (map_to_list info))).

Definition setStats (x : string) (d : InfoAllocation) : InfoAllocation := mkDetails (ad_info d) (Some x) (ad_Logs d).
Definition setLogs (x : outcome () string) (d : InfoAllocation) : InfoAllocation :=
  mkDetails (ad_info d) (ad_ExecutorStats d) (Some x).

(** The first allocation that has the key; an empty identifier counts as none. *)
Definition addStats (stats : Handle → option string) (keys : list (string * string)) (kv : string * AllocationManifest)
    (details : gmap string InfoAllocation) : gmap string InfoAllocation :=
  match List.find (λ k, bool_decide (k.1 = kv.1)) keys with
  | None => details
  | Some (_, allocID) =>
      if bool_decide (allocID = "") then details
      else match stats (amf_Handle kv.2) with
      | Some x => alter (setStats x) allocID details
      | None => details
      end
  end.

(** The allocations whose logs are asked for: all of them, or for each name the allocation
    with that key, or else one that it is the configured name of. *)
Definition allocationsToLog (names : list string) (mf : EnsembleManifest) : gset string :=
  if (length names =? 0)%nat then dom (mf_Allocations mf)
  else fold_left
    (λ keys name,
       match mf_Allocations mf !! name with
       | Some _ => {[name]} ∪ keys
       | None =>
           match List.find (λ kv, bool_decide (amf_RedundancyGroup kv.2 = name)) (visit (map_to_list (mf_Allocations mf))) with
           | Some (key, _) => {[key]} ∪ keys
           | None => keys
           end
       end) names ∅.

(** The last allocation that has the key; [logs] fetches and writes the logs. *)
Definition addLogs (logs : string → outcome () string) (keys : list (string * string)) (key : string)
    (details : gmap string InfoAllocation) : gmap string InfoAllocation :=
  match List.find (λ k, bool_decide (k.1 = key)) (rev keys) with
  | None => details
  | Some (_, allocID) => alter (setLogs (logs key)) allocID details
  end.

Definition handleDeploymentInfo (r : bool) (stats : Handle → option string) (logs : string → outcome () string)
    (request : option DeploymentInfoRequest) (f : basicRegistry) : outcome reg_error DeploymentInfoResponse :=
  match request with
  | None => Err ErrRegRequest
  | Some request =>
      if bool_decide (ir_ID request = "") then Err ErrRegRequest
      else match GetDeployment r (ir_ID request) f with
      | Err e => Err (ErrRegStore e)
      | Panic => Panic
      | Ok v =>
          let orch := orchestrators f !! ir_ID request in
          let manifest := match orch with Some e => o_manifest (e_orch e) | None => v_Manifest v end in
          let info := match orch with Some e => o_allocs (e_orch e) | None => ∅ end in
          let keys := allocationKeys info in
          let details := (λ i, mkDetails i None None) <$> info in
          let details :=
            if ir_IncludeUsage request && bool_decide (is_Some orch)
            then fold_left (λ d kv, addStats stats keys kv d) (visit (map_to_list (mf_Allocations manifest))) details
            else details in
          let details :=
            if ir_IncludeLogs request
            then fold_left (λ d key, addLogs logs keys key d) (visit (elements (allocationsToLog (ir_AllocationNames request) manifest))) details
            else details in
          Ok (mkInfoResponse (v_OrchestratorID v) (DeploymentStatus_String (v_Status v)) manifest details)
      end
  end.

End registry.
