(* ===== verification/RegistryProps.v ===== *)
(** * Properties of stored deployments and of the registry

    The store implements a map from identifiers to views ([stores]); pruning removes
    exactly the old deployments that ended; the deployments that run when a node stops
    are restored when it starts again. *)

From S2P Require Import Prelude GoStrings GoNumbers AllocationID Hardware ResourceManager Key Envelope Allocation Ensemble.
From S2P Require Import BidCoordinator DependencyOrder IPNet Committer Subnet Orchestrator GoTime OrchestratorProps BidProps CandidateProps GoTime Deployments Registry.
Open Scope go_scope.

Section store.
  Context `{Visit : MapVisit} `{Codec : ViewCodec}.

(** A view that is read back as it was written. *)
Definition encodes (v : OrchestratorView) : Prop :=
  ∃ bts, marshal_view v = Some bts ∧ unmarshal_view bts = Some v.

Definition decodes (d : DeploymentDoc) (v : OrchestratorView) : Prop :=
  unmarshal_view (d_data d) = Some v ∧ v_OrchestratorID v = d_orchestrator_id d ∧ d_status d = statusInt (v_Status v).

(** The documents stand for a map. *)
Definition stores (s : DeploymentStore) (m : gmap string OrchestratorView) : Prop :=
  NoDup (map d_orchestrator_id s) ∧
  (∀ d, d ∈ s → ∃ v, decodes d v ∧ m !! d_orchestrator_id d = Some v) ∧
  (∀ id v, m !! id = Some v → ∃ d, d ∈ s ∧ d_orchestrator_id d = id).

Lemma hasID_true id d : hasID id d = true ↔ d_orchestrator_id d = id.
Proof. unfold hasID. apply bool_decide_eq_true. Qed.

Lemma stores_doc s m d v : stores s m → d ∈ s → m !! d_orchestrator_id d = Some v → decodes d v.
Proof. intros (_ & Hs & _) Hd Hm. destruct (Hs d Hd) as (v' & Hv & Hm'). by simplify_eq. Qed.

Lemma stores_unique s m d d' : stores s m → d ∈ s → d' ∈ s → d_orchestrator_id d = d_orchestrator_id d' → d = d'.
Proof.
  intros (Hnd & _) Hd Hd' E. clear -Hnd Hd Hd' E.
  induction s as [|x s IH]; [by apply elem_of_nil in Hd|]. simpl in Hnd. apply NoDup_cons in Hnd as [Hx Hnd].
  apply elem_of_cons in Hd as [->|Hd], Hd' as [->|Hd']; [done| | |by apply IH].
  - destruct Hx. rewrite E. by apply list_elem_of_fmap_2.
  - destruct Hx. rewrite <- E. by apply list_elem_of_fmap_2.
Qed.

Lemma stores_empty : stores [] ∅.
Proof. split; [constructor|]. split; [by intros d ?%elem_of_nil|by intros id v]. Qed.

(** *** Writing *)

Lemma upsert_decodes now v bts d :
  unmarshal_view bts = Some v → decodes (updateDoc now v bts d) v ∧ decodes (newDoc now v bts) v.
Proof. by intros. Qed.

Lemma upsert_ids v now bts s :
  map d_orchestrator_id (map (λ d, if hasID (v_OrchestratorID v) d then updateDoc now v bts d else d) s) =
  map d_orchestrator_id s.
Proof.
  rewrite map_map. apply map_ext. intros d. destruct (hasID _ d) eqn:E; [|done].
  apply hasID_true in E. by simpl.
Qed.

Lemma Upsert_stores now v s m :
  encodes v → stores s m →
  ∃ s', deployment_Upsert true true now v s = (Ok tt, s') ∧ stores s' (<[v_OrchestratorID v := v]> m).
Proof.
  intros (bts & Hm & Hu) Hst. unfold deployment_Upsert. rewrite Hm. simpl.
  destruct (upsert_decodes now v bts (newDoc now v bts) Hu) as [_ Hnew].
  destruct (existsb _ s) eqn:Ex.
  - eexists; split; [done|]. destruct Hst as (Hnd & Hs & Hd). split; [by rewrite upsert_ids|]. split.
    + intros d (d0 & -> & Hd0)%list_elem_of_fmap. destruct (hasID _ d0) eqn:E.
      * exists v. split; [by apply (upsert_decodes now v bts d0)|]. by rewrite lookup_insert_eq.
      * destruct (Hs d0 Hd0) as (v0 & ? & ?). exists v0. split; [done|]. rewrite lookup_insert_ne; [done|].
        intros Ev. rewrite Ev in E. unfold hasID in E. by rewrite bool_decide_eq_false in E.
    + intros id w Hw. destruct (decide (id = v_OrchestratorID v)) as [->|Hne].
      * apply existsb_exists in Ex as (d0 & Hd0%list_elem_of_In & E). eexists. split.
        { by apply list_elem_of_fmap_2. }
        simpl. by rewrite E.
      * rewrite lookup_insert_ne in Hw by done. destruct (Hd id w Hw) as (d0 & Hd0 & <-).
        eexists. split; [by apply list_elem_of_fmap_2|]. simpl.
        destruct (hasID _ d0) eqn:E; [|done]. by apply hasID_true in E.
  - eexists; split; [done|]. destruct Hst as (Hnd & Hs & Hd). split; [|split].
    + simpl. constructor; [|done]. intros (d0 & E & Hd0)%list_elem_of_fmap.
      enough (existsb (hasID (v_OrchestratorID v)) s = true) by congruence.
      apply existsb_exists. exists d0. split; [by apply list_elem_of_In|]. by apply hasID_true.
    + intros d [->|Hd0]%elem_of_cons; [exists v; split; [done|by rewrite lookup_insert_eq]|].
      destruct (Hs d Hd0) as (v0 & ? & ?). exists v0. split; [done|]. rewrite lookup_insert_ne; [done|].
      intros Ev. enough (existsb (hasID (v_OrchestratorID v)) s = true) by congruence.
      apply existsb_exists. exists d. split; [by apply list_elem_of_In|]. by apply hasID_true.
    + intros id w Hw. destruct (decide (id = v_OrchestratorID v)) as [->|Hne].
      * exists (newDoc now v bts). split; [by left|done].
      * rewrite lookup_insert_ne in Hw by done. destruct (Hd id w Hw) as (d0 & Hd0 & ?). exists d0. split; [by right|done].
Qed.

Lemma filter_ids (f : DeploymentDoc → bool) s :
  NoDup (map d_orchestrator_id s) → NoDup (map d_orchestrator_id (List.filter f s)).
Proof.
  induction s as [|d s IH]; [done|]. simpl. intros [Hd Hnd]%NoDup_cons. destruct (f d); [|by apply IH].
  simpl. constructor; [|by apply IH]. intros (d0 & E & Hd0)%list_elem_of_fmap. destruct Hd. rewrite E.
  apply list_elem_of_fmap_2. apply list_elem_of_In in Hd0. apply filter_In in Hd0 as [? _]. by apply list_elem_of_In.
Qed.

Lemma filter_stores (f : DeploymentDoc → bool) s m m' :
  stores s m → (∀ d v, d ∈ s → m !! d_orchestrator_id d = Some v → m' !! d_orchestrator_id d = if f d then Some v else None) →
  (∀ id, m !! id = None → m' !! id = None) → stores (List.filter f s) m'.
Proof.
  intros (Hnd & Hs & Hd) Hf Hn. split; [by apply filter_ids|]. split.
  - intros d Hd0%list_elem_of_In. apply filter_In in Hd0 as [Hd0%list_elem_of_In E]. destruct (Hs d Hd0) as (v & ? & Hv).
    exists v. split; [done|]. by rewrite (Hf d v), E.
  - intros id v Hv. destruct (m !! id) as [w|] eqn:Hw; [|by rewrite Hn in Hv].
    destruct (Hd id w Hw) as (d & Hd0 & <-). exists d. split; [|done]. rewrite (Hf d w Hd0 Hw) in Hv.
    apply list_elem_of_In, filter_In. split; [by apply list_elem_of_In|]. by destruct (f d).
Qed.

Lemma Delete_stores id s m :
  id ≠ "" → stores s m → ∃ s', deployment_Delete true id s = (Ok tt, s') ∧ stores s' (delete id m).
Proof.
  intros Hid Hst. unfold deployment_Delete. rewrite bool_decide_eq_false_2 by done. simpl. eexists; split; [done|].
  apply (filter_stores _ s m); [done| |].
  - intros d v _ Hv. unfold hasID. case_bool_decide as E; simpl.
    + rewrite E. apply lookup_delete_eq.
    + by rewrite lookup_delete_ne.
  - intros i Hi. by rewrite lookup_delete_None; right.
Qed.

(** *** Reading *)

Lemma Get_stores id s m :
  id ≠ "" → stores s m →
  deployment_Get true id s = match m !! id with Some v => Ok v | None => Err ErrDepNotFound end.
Proof.
  intros Hid Hst. unfold deployment_Get. rewrite bool_decide_eq_false_2 by done. simpl.
  destruct (List.find (hasID id) (visit s)) as [d|] eqn:F.
  - apply find_some in F as [Hd%list_elem_of_In E%hasID_true]. rewrite visit_perm in Hd.
    destruct Hst as (_ & Hs & _). destruct (Hs d Hd) as (v & (Hu & _) & Hv). rewrite E in Hv. by rewrite Hv, Hu.
  - destruct (m !! id) as [v|] eqn:Hv; [|done]. destruct Hst as (_ & _ & Hd). destruct (Hd id v Hv) as (d & Hd0 & E).
    rewrite <- (visit_perm s) in Hd0. apply list_elem_of_In in Hd0. pose proof (find_none _ _ F d Hd0) as Hn.
    apply hasID_true in E. congruence.
Qed.

Lemma decodeAll_stores s m (l : list DeploymentDoc) :
  stores s m → (∀ d, d ∈ l → d ∈ s) →
  ∃ vs, decodeAll l = Ok vs ∧ Forall2 decodes l vs ∧ ∀ v, v ∈ vs → m !! v_OrchestratorID v = Some v.
Proof.
  intros Hst. induction l as [|d l IH]; intros Hl.
  - exists []. split; [done|]. split; [constructor|]. by intros v ?%elem_of_nil.
  - destruct IH as (vs & E & HF & Hm); [intros; apply Hl; by right|].
    pose proof Hst as (_ & Hs & _). destruct (Hs d) as (v & Hdec & Hv); [apply Hl; by left|].
    pose proof Hdec as (Hu & Hid & _).
    exists (v :: vs). simpl. rewrite Hu, E. split; [done|]. split; [by constructor|].
    intros w [->|Hw]%elem_of_cons; [by rewrite Hid|by apply Hm].
Qed.

Lemma decoded_ids (l : list DeploymentDoc) vs : Forall2 decodes l vs → map v_OrchestratorID vs = map d_orchestrator_id l.
Proof. induction 1 as [|d v l vs (_ & E & _) _ IH]; [done|]. simpl. by rewrite E, IH. Qed.

(** All deployments, or those with a status: each once. *)
Lemma GetAll_stores st s m :
  stores s m →
  ∃ vs, deployment_GetAll true st s = Ok vs ∧ NoDup (map v_OrchestratorID vs) ∧
    ∀ v, v ∈ vs ↔ m !! v_OrchestratorID v = Some v ∧ (∀ x, st = Some x → v_Status v = x).
Proof.
  intros Hst. unfold deployment_GetAll. simpl.
  set (l := match st with None => s | Some x => List.filter (λ d, (d_status d =? statusInt x)%Z) s end).
  assert (∀ d, d ∈ l ↔ d ∈ s ∧ ∀ x, st = Some x → d_status d = statusInt x) as Hl.
  { intros d. unfold l. destruct st as [x|]; [|naive_solver]. rewrite list_elem_of_In, filter_In, <- list_elem_of_In.
    rewrite Z.eqb_eq. naive_solver. }
  destruct (decodeAll_stores s m (visit l) Hst) as (vs & E & HF & Hm).
  { intros d Hd. rewrite visit_perm in Hd. by apply Hl. }
  exists vs. split; [done|]. split.
  - rewrite (decoded_ids _ _ HF). rewrite (visit_perm l). destruct Hst as (Hnd & _). unfold l. destruct st as [x|]; [|done].
    by apply filter_ids.
  - intros v. split.
    + intros Hv. split; [by apply Hm|]. intros x ->. apply list_elem_of_lookup in Hv as [i Hi].
      destruct (Forall2_lookup_r _ _ _ _ _ HF Hi) as (d & Hd & (_ & _ & Hs)).
      apply list_elem_of_lookup_2 in Hd. rewrite visit_perm in Hd. apply Hl in Hd as [_ Hd].
      apply (inj statusInt). rewrite <- Hs. by apply Hd.
    + intros [Hv Hx]. pose proof Hst as (_ & Hs & Hd). destruct (Hd _ _ Hv) as (d & Hd0 & E0).
      assert (decodes d v) as Hdec by (apply (stores_doc s m); [done..|by rewrite E0]).
      assert (d ∈ visit l) as Hdl.
      { rewrite visit_perm. apply Hl. split; [done|]. intros x Hst'. destruct Hdec as (_ & _ & ->). f_equal. by apply Hx. }
      apply list_elem_of_lookup in Hdl as [i Hi]. destruct (Forall2_lookup_l _ _ _ _ _ HF Hi) as (v' & Hv' & Hdec').
      apply list_elem_of_lookup_2 in Hv'. enough (v = v') by (by subst). destruct Hdec as [? _], Hdec' as [? _]. congruence.
Qed.

End store.

(** ** Pruning *)

Section prune.
  Context `{Visit : MapVisit} `{Codec : ViewCodec}.

Lemma Delete_any w id s m :
  stores s m →
  (∃ e, deployment_Delete w id s = (Err e, s)) ∨
  ∃ s', deployment_Delete w id s = (Ok tt, s') ∧ stores s' (delete id m).
Proof.
  intros Hst. destruct w; [|left; unfold deployment_Delete; by destruct (bool_decide _); eexists].
  destruct (decide (id = "")) as [->|Hid]; [left; by eexists|right; by apply Delete_stores].
Qed.

Lemma deleteOld_leaves w old vs s m :
  stores s m →
  ∃ m', stores (deleteOld w old vs s).2 m' ∧ m' ⊆ m ∧
    (∀ id v, m !! id = Some v → m' !! id = None → ∃ v0, v0 ∈ vs ∧ v_OrchestratorID v0 = id ∧ old v0 = true) ∧
    ((deleteOld w old vs s).1 = Ok tt → ∀ v0, v0 ∈ vs → old v0 = true → m' !! v_OrchestratorID v0 = None).
Proof.
  revert s m. induction vs as [|v0 vs IH]; intros s m Hst; simpl.
  { exists m. split; [done|]. split; [done|]. split; [congruence|]. by intros _ v0 ?%elem_of_nil. }
  destruct (old v0) eqn:Ho.
  - destruct (Delete_any (w (v_OrchestratorID v0)) (v_OrchestratorID v0) s m Hst) as [(e & ->)|(s' & -> & Hst')].
    + exists m. split; [done|]. split; [done|]. split; [congruence|done].
    + destruct (IH s' _ Hst') as (m' & H1 & H2 & H3 & H4). exists m'. split; [done|]. split.
      { etrans; [done|]. apply delete_subseteq. }
      split.
      * intros id v Hv Hn. destruct (decide (id = v_OrchestratorID v0)) as [->|Hne].
        { exists v0. split; [by left|done]. }
        destruct (H3 id v) as (v1 & ? & ?); [by rewrite lookup_delete_ne|done|]. exists v1. split; [by right|done].
      * intros Hok v1 [->|Hv1]%elem_of_cons Ho1; [|by apply H4].
        eapply lookup_weaken_None; [|exact H2]. apply lookup_delete_eq.
  - destruct (IH s m Hst) as (m' & H1 & H2 & H3 & H4). exists m'. split; [done|]. split; [done|]. split.
    + intros id v Hv Hn. destruct (H3 id v Hv Hn) as (v1 & ? & ?). exists v1. split; [by right|done].
    + intros Hok v1 [->|Hv1]%elem_of_cons Ho1; [congruence|by apply H4].
Qed.

Lemma pruneStatuses_leaves r w old sts s m :
  stores s m →
  ∃ m', stores (pruneStatuses r w old sts s).2 m' ∧ m' ⊆ m ∧
    (∀ id v, m !! id = Some v → m' !! id = None → v_Status v ∈ sts ∧ old v = true) ∧
    ((pruneStatuses r w old sts s).1 = Ok tt → ∀ id v, m' !! id = Some v → v_Status v ∈ sts → old v = false).
Proof.
  revert s m. induction sts as [|st sts IH]; intros s m Hst; simpl.
  { exists m. split; [done|]. split; [done|]. split; [congruence|]. by intros _ id v _ ?%elem_of_nil. }
  assert (∀ e, deployment_GetAll (r st) (Some st) s = Err e → ∃ m', stores s m' ∧ m' ⊆ m ∧
    (∀ id v, m !! id = Some v → m' !! id = None → v_Status v ∈ st :: sts ∧ old v = true) ∧
    ((Err e : outcome dep_error ()) = Ok tt → ∀ id v, m' !! id = Some v → v_Status v ∈ st :: sts → old v = false)) as Herr.
  { intros e _. exists m. split; [done|]. split; [done|]. split; [congruence|done]. }
  destruct (r st) eqn:Er; [|by apply (Herr ErrDepDatabase)]. clear Herr.
  destruct (GetAll_stores (Some st) s m Hst) as (vs & -> & Hnd & Hvs).
  destruct (deleteOld_leaves w old vs s m Hst) as (m1 & H1 & H2 & H3 & H4).
  destruct (deleteOld w old vs s) as [res s1]. simpl in *.
  assert (∀ id v, m !! id = Some v → m1 !! id = None → v_Status v = st ∧ old v = true) as H3'.
  { intros id v Hv Hn. destruct (H3 id v Hv Hn) as (v0 & Hv0 & Hid & Ho). apply Hvs in Hv0 as [Hv0 Hs].
    rewrite Hid in Hv0. simplify_eq. by split; [apply Hs|]. }
  assert (∀ id v, m !! id = Some v → v_OrchestratorID v = id) as Hids.
  { intros id v Hv. destruct Hst as (_ & Hs & Hd). destruct (Hd id v Hv) as (d & Hd0 & <-).
    destruct (Hs d Hd0) as (v' & (_ & E & _) & Hv'). by simplify_eq. }
  destruct res as [[]|e|]; simpl.
  - destruct (IH s1 m1 H1) as (m' & K1 & K2 & K3 & K4). exists m'. split; [done|]. split; [by etrans|]. split.
    + intros id v Hv Hn. destruct (m1 !! id) as [v1|] eqn:E1.
      * assert (m !! id = Some v1) by (by eapply lookup_weaken). simplify_eq. destruct (K3 id v E1 Hn).
        split; [by right|done].
      * destruct (H3' id v Hv E1) as [-> ?]. split; [by left|done].
    + intros Hok id v Hv [Hst'|Hin]%elem_of_cons; [|by eapply K4].
      assert (m1 !! id = Some v) as Hm1 by (by eapply lookup_weaken).
      assert (m !! id = Some v) as Hm by (by eapply lookup_weaken).
      destruct (old v) eqn:Ho; [|done]. pose proof (Hids id v Hm) as E.
      assert (m1 !! v_OrchestratorID v = None); [|congruence]. apply H4; [done| |done].
      apply Hvs. rewrite E. split; [done|]. intros x. congruence.
  - exists m1. split; [done|]. split; [done|]. split; [|done]. intros id v Hv Hn.
    destruct (H3' id v Hv Hn) as [-> ?]. split; [by left|done].
  - exists m1. split; [done|]. split; [done|]. split; [|done]. intros id v Hv Hn.
    destruct (H3' id v Hv Hn) as [-> ?]. split; [by left|done].
Qed.

(** Pruning deletes only deployments that failed or completed, and unless everything
    was asked for only those whose view is older than the cutoff, also when it stops with
    an error; when it succeeds none of them is left.  The rest of the store is kept. *)
Theorem prune_only_ended r w now daysAgo request s m :
  stores s m →
  let old v := if pr_All request then true
               else match cutoff now daysAgo (pr_Before request) with Ok t => time_Before (v_CreatedAt v) t | _ => false end in
  let '(res, s') := handleDeploymentPrune r w now daysAgo (Some request) s in
  ∃ m', stores s' m' ∧ m' ⊆ m ∧
    (∀ id v, m !! id = Some v → m' !! id = None → terminal (v_Status v) = true ∧ old v = true) ∧
    (res = Ok tt → ∀ id v, m' !! id = Some v → terminal (v_Status v) = true → old v = false).
Proof.
  intros Hst old. unfold handleDeploymentPrune.
  assert (∀ st, st ∈ prunedStatuses ↔ terminal st = true) as Ht by (intros []; vm_compute; set_solver).
  set (P := λ o, pruneStatuses r w o prunedStatuses s).
  assert (∀ o, (∀ v, o v = old v) → let '(res, s') := P o in ∃ m', stores s' m' ∧ m' ⊆ m ∧
    (∀ id v, m !! id = Some v → m' !! id = None → terminal (v_Status v) = true ∧ old v = true) ∧
    (res = Ok tt → ∀ id v, m' !! id = Some v → terminal (v_Status v) = true → old v = false)) as HP.
  { intros o Ho. destruct (pruneStatuses_leaves r w o prunedStatuses s m Hst) as (m' & H1 & H2 & H3 & H4). fold (P o) in *.
    destruct (P o) as [res s']. exists m'. setoid_rewrite <- Ht. setoid_rewrite <- Ho. auto. }
  unfold old in *. destruct (pr_All request); [by apply HP|].
  destruct (cutoff now daysAgo (pr_Before request)) as [t|e|]; [by apply HP| |];
    (exists m; split; [done|]; split; [done|]; split; [congruence|done]).
Qed.

End prune.

(** ** Saving and restoring *)

Section restart.
  Context `{Visit : MapVisit} `{NodeGen : NodeIDGenerator} `{AllocGen : AllocationIDGenerator} `{Bids : BidLib}.
  Context `{Codec : ViewCodec}.

Definition savedView (now : Time) (e : Entry) : OrchestratorView := viewOf now (default "" (e_key e)) e.

(** An entry that can be saved under its identifier. *)
Definition savable (now : Time) (id : string) (e : Entry) : Prop :=
  o_id (e_orch e) = id ∧ is_Some (e_key e) ∧ encodes (savedView now e).

Lemma Save_stores now id e f m :
  savable now id e → stores (store f) m →
  ∃ f', SaveOrchestrator true true now e f = (Ok tt, f') ∧ orchestrators f' = orchestrators f ∧
    stores (store f') (<[id := savedView now e]> m).
Proof.
  intros (Hid & [pk Hk] & Henc) Hst. unfold SaveOrchestrator. unfold savedView in *. rewrite Hk in *. simpl in *.
  destruct (Upsert_stores now _ _ _ Henc Hst) as (s' & -> & Hs'). eexists. split; [done|]. split; [done|].
  simpl in *. by rewrite Hid in Hs'.
Qed.

Lemma save_all (now : string → Time) (l : list (string * Entry)) failed f m :
  NoDup l.*1 → (∀ id e, (id, e) ∈ l → savable (now id) id e) → stores (store f) m →
  ∃ f' m', fold_left (λ '(failed, f) '(id, e), match SaveOrchestrator true true (now id) e f with
                                              | (Ok _, f) => (failed, f)
                                              | (_, f) => (failed ++ [id], f)
                                              end) l (failed, f) = (failed, f') ∧
    stores (store f') m' ∧ (∀ id e, (id, e) ∈ l → m' !! id = Some (savedView (now id) e)) ∧
    ∀ id, id ∉ l.*1 → m' !! id = m !! id.
Proof.
  revert f m. induction l as [|[id e] l IH]; intros f m Hnd Hl Hst.
  { exists f, m. split; [done|]. split; [done|]. split; [by intros id e ?%elem_of_nil|done]. }
  rewrite fmap_cons in Hnd. apply NoDup_cons in Hnd as [Hid Hnd]. simpl in Hid. simpl fold_left.
  destruct (Save_stores (now id) id e f m) as (f1 & -> & _ & Hst1); [apply Hl; by left|done|].
  destruct (IH f1 (<[id := savedView (now id) e]> m)) as (f' & m' & E & Hs & Hin & Hout);
    [done|intros; apply Hl; by right|done|].
  exists f', m'. split; [done|]. split; [done|]. split.
  - intros id0 e0 [[= -> ->]|H0]%elem_of_cons; [|by apply Hin]. rewrite Hout by done. apply lookup_insert_eq.
  - intros id0. rewrite fmap_cons. intros [Hne Hn]%not_elem_of_cons. rewrite Hout by done. by apply lookup_insert_ne.
Qed.

(** What a deployment that was running becomes: the same deployment without its
    contracts, with the allocations of its manifest. *)
Definition resumed (h : Handle) (v : OrchestratorView) : Entry :=
  let e := recreated h v in mkEntry (recordAllocations (e_orch e)) (e_expiry e) (e_key e) true true.

(** Everybody answers: the actors are made, behaviours are registered, capabilities are
    granted and the subnet is joined. *)
Definition all_answer (ae : ActorEnv) (env : string → RestoreEnv) (handles : string → Handle) : Prop :=
  ∀ id, (∀ key, ae_child ae id key = Some (handles id)) ∧ ae_starts ae id = true ∧ ae_behaviors ae id = true ∧
    re_registers (env id) = true ∧ (∀ d, re_grants (env id) d = true) ∧ re_create (env id) = true ∧ re_join (env id) = true.

(** A deployment that runs, or one that is not restored. *)
Definition settled (v : OrchestratorView) : Prop :=
  isRestorableStatus (v_Status v) = true → v_Status v = DeploymentStatusRunning ∧ mf_ID (v_Manifest v) ≠ "".

Lemma restore_running env h v :
  re_registers env = true → (∀ d, re_grants env d = true) → re_create env = true → re_join env = true →
  v_Status v = DeploymentStatusRunning → mf_ID (v_Manifest v) ≠ "" → restoreDeployment env h v = Ok (resumed h v).
Proof.
  intros Hr Hg Hc Hj Hs Hm. unfold restoreDeployment. rewrite Hr, Hs, bool_decide_eq_false_2 by done. simpl.
  unfold restoreRunning. rewrite Hc, Hj. simpl. rewrite andb_false_r.
  match goal with |- context [forallb ?P ?l] => assert (forallb P l = true) as -> end; [|done].
  apply forallb_forall. intros [k a] _. apply Hg.
Qed.

Lemma restore_views ae env handles (vs : list OrchestratorView) f :
  all_answer ae env handles → NoDup (map v_OrchestratorID vs) →
  (∀ v, v ∈ vs → settled v) → (∀ v, v ∈ vs → orchestrators f !! v_OrchestratorID v = None) →
  ∃ f', restoreViews ae env vs f = (Ok [], f') ∧ store f' = store f ∧
    (∀ v, v ∈ vs → orchestrators f' !! v_OrchestratorID v =
                   if isRestorableStatus (v_Status v) then Some (resumed (handles (v_OrchestratorID v)) v) else None) ∧
    ∀ id, id ∉ map v_OrchestratorID vs → orchestrators f' !! id = orchestrators f !! id.
Proof.
  intros Ha. revert f. induction vs as [|v vs IH]; intros f Hnd Hset Hnew.
  { exists f. split; [done|]. split; [done|]. split; [by intros v ?%elem_of_nil|done]. }
  simpl in Hnd. apply NoDup_cons in Hnd as [Hid Hnd]. simpl.
  set (f1 := if isRestorableStatus (v_Status v)
             then set_orchestrators f (<[v_OrchestratorID v := resumed (handles (v_OrchestratorID v)) v]> (orchestrators f)) else f).
  assert (∀ id, id ≠ v_OrchestratorID v → orchestrators f1 !! id = orchestrators f !! id) as Hf1.
  { intros id Hne. unfold f1. destruct (isRestorableStatus _); [|done]. by apply lookup_insert_ne. }
  destruct (IH f1 Hnd) as (f' & E & Hst & Hin & Hout); [intros; apply Hset; by right| |].
  { intros w Hw. rewrite Hf1; [apply Hnew; by right|]. intros Ew. apply Hid. rewrite <- Ew. by apply list_elem_of_fmap_2. }
  exists f'. split; [|split; [rewrite Hst; unfold f1; by destruct (isRestorableStatus _)|split]].
  - destruct (isRestorableStatus (v_Status v)) eqn:Hr; simpl; [|done].
    destruct (Ha (v_OrchestratorID v)) as (Hc & Hstart & Hb & Hreg & Hg & Hcr & Hj).
    destruct (Hset v ltac:(by left) Hr) as [Hrun Hmf].
    rewrite Hc, Hstart, Hb. simpl. rewrite andb_false_r. unfold RestoreDeployment.
    by rewrite (Hnew v ltac:(by left)), restore_running.
  - intros w [->|Hw]%elem_of_cons; [|by apply Hin]. rewrite Hout by done. unfold f1.
    destruct (isRestorableStatus _); [apply lookup_insert_eq|apply Hnew; by left].
  - intros id [Hne Hn]%not_elem_of_cons. rewrite Hout by done. by apply Hf1.
Qed.

Lemma saveDeployments_spec (now : string → Time) f m :
  stores (store f) m → (∀ id e, orchestrators f !! id = Some e → savable (now id) id e) →
  ∃ f' m', saveDeployments (λ _, (true, true)) now f = ([], f') ∧ stores (store f') m' ∧
    (∀ id, m' !! id = match orchestrators f !! id with Some e => Some (savedView (now id) e) | None => m !! id end).
Proof.
  intros Hst Hs. unfold saveDeployments. cbn [fst snd].
  assert (visit (map_to_list (orchestrators f)) ≡ₚ map_to_list (orchestrators f)) as Hp by apply visit_perm.
  destruct (save_all now (visit (map_to_list (orchestrators f))) [] f m) as (f' & m' & -> & Hst' & Hin & Hout).
  - rewrite Hp. apply NoDup_fst_map_to_list.
  - intros id e He. rewrite Hp in He. apply Hs. by apply elem_of_map_to_list.
  - done.
  - exists f', m'. split; [done|]. split; [done|]. intros id. destruct (orchestrators f !! id) as [e|] eqn:He.
    + apply Hin. rewrite Hp. by apply elem_of_map_to_list.
    + apply Hout. rewrite Hp. intros ([k e] & E & Hk)%list_elem_of_fmap. apply elem_of_map_to_list in Hk. simpl in E. congruence.
Qed.

(** C11: the deployments that run when a node stops survive its restart.  When every
    orchestrator in memory runs with a named manifest or has ended, has a key and encodes to
    bytes that decode to it again, what else is stored has ended, the database answers every
    save and query, and at the restart the actors are made, behaviours and grants succeed and
    the subnets are created and joined, then saving all of them and restoring from the store
    into a new registry succeeds, and exactly the running ones are back, with their
    configuration, manifest, subnet, deadline and key, watched and supervised. *)
Theorem running_deployments_survive ae env handles (now : string → Time) f m :
  all_answer ae env handles → stores (store f) m →
  (∀ id e, orchestrators f !! id = Some e → savable (now id) id e ∧ settled (savedView (now id) e)) →
  (∀ id v, m !! id = Some v → orchestrators f !! id = None → isRestorableStatus (v_Status v) = false) →
  ∃ f' f'', saveDeployments (λ _, (true, true)) now f = ([], f') ∧
    restoreDeployments true ae env (NewRegistry (store f')) = (Ok [], f'') ∧
    ∀ id, orchestrators f'' !! id =
      match orchestrators f !! id with
      | Some e => if isRestorableStatus (o_status (e_orch e)) then Some (resumed (handles id) (savedView (now id) e)) else None
      | None => None
      end.
Proof.
  intros Ha Hst He Hm. destruct (saveDeployments_spec now f m Hst) as (f' & m' & Hsave & Hst' & Hm'); [by intros; apply He|].
  destruct (GetAll_stores None _ _ Hst') as (vs & Hget & Hnd & Hvs).
  assert (∀ v, v ∈ vs → settled v) as Hset.
  { intros v [Hv _]%Hvs. rewrite Hm' in Hv. destruct (orchestrators f !! _) as [e|] eqn:E.
    - injection Hv as Hv. pose proof (proj2 (He _ _ E)) as Hs. by rewrite Hv in Hs.
    - intros Hr. by rewrite (Hm _ _ Hv E) in Hr. }
  destruct (restore_views ae env handles vs (NewRegistry (store f')) Ha Hnd Hset) as (f'' & Hr & _ & Hin & Hout).
  { intros v _. apply lookup_empty. }
  exists f', f''. split; [done|]. split; [unfold restoreDeployments, GetAllDeployments; simpl; by rewrite Hget|].
  intros id. destruct (decide (id ∈ map v_OrchestratorID vs)) as [Hid|Hid].
  - apply list_elem_of_fmap in Hid as (v & -> & Hv). rewrite (Hin v Hv). apply Hvs in Hv as [Hv _]. rewrite Hm' in Hv.
    destruct (orchestrators f !! _) as [e|] eqn:E; [|by rewrite (Hm _ _ Hv E)].
    injection Hv as Hv. assert (v_Status v = o_status (e_orch e)) as -> by (by rewrite <- Hv). by rewrite Hv.
  - rewrite (Hout _ Hid). simpl. rewrite lookup_empty. destruct (orchestrators f !! id) as [e|] eqn:E; [|done].
    destruct Hid. apply list_elem_of_fmap. exists (savedView (now id) e). assert (o_id (e_orch e) = id) as Ei by apply (He _ _ E).
    split; [done|]. apply Hvs. simpl. by rewrite Ei, Hm', E.
Qed.

(** A deployment that was deleted comes back when the node stops: its orchestrator is still
    in memory, and everything in memory is saved. *)
Theorem deleted_comes_back (now : string → Time) f m id e :
  id ≠ "" → stores (store f) m → orchestrators f !! id = Some e →
  (∀ id e, orchestrators f !! id = Some e → savable (now id) id e) →
  ∃ s' f', handleDeploymentDelete true (Some id) (store f) = (Ok tt, s') ∧
    deployment_Get true id s' = Err ErrDepNotFound ∧
    saveDeployments (λ _, (true, true)) now (set_store f s') = ([], f') ∧
    GetDeployment true id f' = Ok (savedView (now id) e).
Proof.
  intros Hid Hst He Hs. destruct (Delete_stores id _ _ Hid Hst) as (s' & Hd & Hst').
  destruct (saveDeployments_spec now (set_store f s') _ Hst' Hs) as (f' & m' & Hsave & Hst2 & Hm').
  exists s', f'. split; [done|]. split; [by rewrite (Get_stores _ _ _ Hid Hst'), lookup_delete_eq|]. split; [done|].
  unfold GetDeployment. rewrite (Get_stores _ _ _ Hid Hst2), Hm'. simpl. by rewrite He.
Qed.

Lemma visit_nil {A} : visit ([] : list A) = [].
Proof. apply Permutation_nil. symmetry. apply visit_perm. Qed.

(** A deployment that was restored tells no contract that it ends. *)
Theorem resumed_reports_nothing stops h v : o_events (Shutdown stops (e_orch (resumed h v))) = [].
Proof.
  unfold Shutdown, resumed, recreated, recordAllocations. cbn. destruct (_ || _); [done|]. cbn.
  rewrite map_to_list_empty. cbn. by rewrite visit_nil.
Qed.

Lemma convertPromises_error convert l c e : convertPromises convert l c = Err e → e = ErrPromise.
Proof.
  revert c. induction l as [|[k v] l IH]; intros c; simpl; [done|].
  destruct (negb _); [apply IH|]. destruct (convert k v) as [b|]; [|by intros [= <-]].
  destruct (bid_V1 b); [apply IH|done].
Qed.

Lemma attempt_result_status cfg a o partial r o' partial' :
  attempt cfg a o partial = (r, o', partial') →
  (r = Deployed → o_status o' = DeploymentStatusRunning) ∧ r ≠ Stopped ErrGrantFailed.
Proof.
  unfold attempt. destruct (runBid _ _ _ _) as [c|[]|]; try (intros [= <- _ _]; done).
  destruct (convertPromises _ _ _) as [c'|e|] eqn:Ec; 
    [|intros [= <- _ _]; by apply convertPromises_error in Ec as ->|by intros [= <- _ _]].
  destruct (commit _ _ _ _ _ _) as [[mf [e|]] sent]; [intros [= <- _ _]; done|].
  destruct (Provision _ _ _ _) as [[mf'|e|] sn]; intros [= <- <- _]; done.
Qed.

Lemma deploy_status cfg attempts o partial res o' :
  deploy cfg attempts o partial = (res, o') →
  (res = Ok tt → o_status o' = DeploymentStatusRunning) ∧ res ≠ Err ErrGrantFailed.
Proof.
  revert o partial. induction attempts as [|a attempts IH]; intros o partial; simpl; [by intros [= <- _]|].
  destruct (attempt cfg a o partial) as [[r o1] p1] eqn:E. apply attempt_result_status in E as [H1 H2].
  destruct r as [| |e|]; [apply IH|intros [= <- <-]..]; [by split; [intros _; apply H1|]| |done].
  split; [done|]. congruence.
Qed.

Lemma Deploy_ungranted grants attempts o o' :
  Deploy grants attempts o = (Err ErrGrantFailed, o') → o_status o' = DeploymentStatusRunning.
Proof.
  unfold Deploy. destruct (deploy _ _ _ _) as [[[]|err|] o1] eqn:E; apply deploy_status in E as [Hr Hn]; [| |done].
  - destruct (negb _); intros [= <-]. by rewrite bool_decide_eq_true_2; apply Hr.
  - intros [= -> _]. done.
Qed.

(** A deployment whose allocations cannot be granted their capabilities is reported as
    failed, and its orchestrator is stopped, but it is stored as running. *)
Theorem ungranted_stays_running (env : CreateEnv) (now expiry : Time) e f id f' :
  runDeployment env now expiry e f = (Ok id, f') →
  (Deploy (ce_grants env) (if time_Before now expiry then ce_attempts env else []) (e_orch e)).1 = Err ErrGrantFailed →
  ∃ e', orchestrators f' !! id = Some e' ∧ o_stopped (e_orch e') = true ∧ o_status (e_orch e') = DeploymentStatusRunning.
Proof.
  unfold runDeployment. destruct (Deploy _ _ _) as [[[]|err|] o] eqn:E; simpl; intros [= <- <-] Hg; simplify_eq.
  eexists. simpl. rewrite lookup_insert_eq. split; [done|]. split; [done|]. simpl.
  by apply Deploy_ungranted in E.
Qed.

End restart.

(** ** The store as a map *)

(** C12: The store of deployments implements a map from identifiers to views: a view that
    can be encoded is inserted or replaces the one before, reading looks it up, deleting
    removes it, and all views, or those with a status, are returned each once. *)
Theorem store_refines_map `{Visit : MapVisit} `{Codec : ViewCodec} now v id st s m :
  id ≠ "" → encodes v → stores s m →
  (∃ s', deployment_Upsert true true now v s = (Ok tt, s') ∧ stores s' (<[v_OrchestratorID v := v]> m)) ∧
  deployment_Get true id s = match m !! id with Some v => Ok v | None => Err ErrDepNotFound end ∧
  (∃ s', deployment_Delete true id s = (Ok tt, s') ∧ stores s' (delete id m)) ∧
  ∃ vs, deployment_GetAll true st s = Ok vs ∧ NoDup (map v_OrchestratorID vs) ∧
    ∀ v, v ∈ vs ↔ m !! v_OrchestratorID v = Some v ∧ ∀ x, st = Some x → v_Status v = x.
Proof.
  intros Hid Hv Hst. split; [by apply Upsert_stores|]. split; [by apply Get_stores|].
  split; [by apply Delete_stores|by apply GetAll_stores].
Qed.

(** ** Pages *)

(** With a filter of metadata the list does not advance past a page without a match: the
    next offset is the offset of the request. *)
Theorem metadata_page_stalls `{Visit : MapVisit} `{Codec : ViewCodec} `{Docs : DocQuery} request s vs total :
  deployment_Query true true (lr_query request) s = Ok (vs, total) → is_s64 (q_Offset (lr_query request)) →
  Forall (λ v, shouldIncludeDeployment v (lr_Metadata request) = false) vs →
  (0 < q_Limit (lr_query request))%Z → (q_Offset (lr_query request) < total)%Z →
  let resp := handleDeploymentList true true (Some request) s in
  l_Deployments resp = [] ∧ l_HasMore resp = true ∧ l_NextOffset resp = q_Offset (lr_query request).
Proof.
  intros Hq Ho Hall Hl Ht. unfold handleDeploymentList. rewrite Hq.
  assert (List.filter (λ v, shouldIncludeDeployment v (lr_Metadata request)) vs = []) as ->.
  { clear Hq. induction Hall as [|v vs E _ IH]; [done|]. simpl. by rewrite E. }
  simpl. rewrite Z.add_0_r, s64_small by done. apply Z.ltb_lt in Hl, Ht. by rewrite Hl, Ht.
Qed.

(** ** Samples *)

#[local] Existing Instance bid_visit.
#[local] Existing Instance sample_BidLib.

(** A running deployment. *)
Definition running_orchestrator : Orchestrator :=
  (deploy web_ensemble [sample_attempt ["a"; "b"]] sample_orchestrator None).2.
Definition running_entry : Entry := mkEntry running_orchestrator (time_Unix 100) (Some "key") true true.
Definition running_view : OrchestratorView := savedView (time_Unix 50) running_entry.
Definition completed_view : OrchestratorView :=
  mkView "e0" (time_Unix 20) Time_zero "e0" (v_Cfg running_view) (v_Manifest running_view) (v_SubnetManifest running_view)
    DeploymentStatusCompleted ∅ (time_Unix 30) "old key" None.

(** An encoding of these two views, by their identifiers. *)
Definition two_views : ViewCodec := {|
  marshal_view v := Some (v_OrchestratorID v);
  unmarshal_view b := if bool_decide (b = "e1") then Some running_view else if bool_decide (b = "e0") then Some completed_view else None
|}.
#[local] Existing Instance two_views.

Definition completed_doc : DeploymentDoc := mkDoc "e0" 8 10 20 (Some 20%Z) "e0".
Definition sample_registry : basicRegistry := mkRegistry {["e1" := running_entry]} [completed_doc].

Lemma running_encodes : encodes running_view.
Proof. exists "e1". split; vm_compute; reflexivity. Qed.

Lemma completed_stored : stores [completed_doc] {["e0" := completed_view]}.
Proof.
  split; [repeat constructor; by intros ?%elem_of_nil|]. split.
  - intros d ->%list_elem_of_singleton. exists completed_view. split; [|reflexivity].
    split; [|split]; vm_compute; reflexivity.
  - intros id v [<- <-]%lookup_singleton_Some. exists completed_doc. split; [by left|done].
Qed.

Definition all_restores : RestoreEnv :=
  mkRestoreEnv (time_Unix 60) true [] (λ _ _, true) good_network (λ _, true) true true.
Definition all_actors : ActorEnv := mkActorEnv (λ _ _, Some Handle_zero) (λ _, true) (λ _, true).

Lemma running_deployments_survive_witness :
  ∃ f' f'', saveDeployments (λ _, (true, true)) (λ _, time_Unix 50) sample_registry = ([], f') ∧
    restoreDeployments true all_actors (λ _, all_restores) (NewRegistry (store f')) = (Ok [], f'') ∧
    orchestrators f'' !! "e1" = Some (resumed Handle_zero running_view) ∧ orchestrators f'' !! "e0" = None.
Proof.
  destruct (running_deployments_survive all_actors (λ _, all_restores) (λ _, Handle_zero) (λ _, time_Unix 50)
              sample_registry {["e0" := completed_view]}) as (f' & f'' & Hs & Hr & Ho).
  - intros id. repeat split; reflexivity.
  - exact completed_stored.
  - intros id e He. unfold sample_registry in He. simpl in He. apply lookup_singleton_Some in He as [<- <-].
    split; [split; [vm_compute; reflexivity|split; [by eexists|exact running_encodes]]|].
    intros _. split; [vm_compute; reflexivity|vm_compute; discriminate].
  - intros id v [<- <-]%lookup_singleton_Some _. reflexivity.
  - exists f', f''. split; [exact Hs|]. split; [exact Hr|]. split; [rewrite (Ho "e1")|rewrite (Ho "e0")]; reflexivity.
Defined.

Lemma prune_only_ended_witness :
  handleDeploymentPrune (λ _, true) (λ _, true) (time_Unix 100) (λ _, 0%Z) (Some (mkPruneRequest "1m" false)) [completed_doc] =
    (Ok tt, []) ∧
  ∃ m', stores [] m' ∧ m' ⊆ {["e0" := completed_view]}.
Proof.
  assert (E : handleDeploymentPrune (λ _, true) (λ _, true) (time_Unix 100) (λ _, 0%Z)
                (Some (mkPruneRequest "1m" false)) [completed_doc] = (Ok tt, [])) by (vm_compute; reflexivity).
  split; [exact E|].
  pose proof (prune_only_ended (λ _, true) (λ _, true) (time_Unix 100) (λ _, 0%Z) (mkPruneRequest "1m" false) [completed_doc]
                {["e0" := completed_view]} completed_stored) as H.
  cbv zeta in H. rewrite E in H. destruct H as (m' & H1 & H2 & _). exists m'. split; [exact H1|exact H2].
Defined.

Lemma store_refines_map_witness :
  (∃ s', deployment_Upsert true true (time_Unix 50) running_view [completed_doc] = (Ok tt, s') ∧
     stores s' (<["e1" := running_view]> {["e0" := completed_view]})) ∧
  deployment_Get true "e0" [completed_doc] = Ok completed_view.
Proof.
  destruct (store_refines_map (time_Unix 50) running_view "e0" None [completed_doc] {["e0" := completed_view]})
    as (Hu & Hg & _); [discriminate|exact running_encodes|exact completed_stored|].
  split; [exact Hu|exact Hg].
Defined.

(** Each save moves the creation time of the view, not that of the document. *)
Example save_moves_creation :
  let f := (SaveOrchestrator true true (time_Unix 50) running_entry (NewRegistry [])).2 in
  let f := (SaveOrchestrator true true (time_Unix 90) running_entry f).2 in
  map (λ d, (d_created_at d, d_updated_at d)) (store f) = [(50, 90)%Z] ∧
  v_CreatedAt (savedView (time_Unix 90) running_entry) = time_Unix 90.
Proof. vm_compute. split; reflexivity. Qed.

(** A redundant deployment that stopped while it was provisioned, and cannot be
    provisioned again, stops the node that restores it. *)
Example redundant_restore_panics :
  let node := mkNodeConfig ["web"] [] (mkLocationConstraints [sample_place] []) "" 1 "" in
  let cfg := set_cfg_nodes web_ensemble {["a" := node]} in
  let v := mkView "e1" Time_zero Time_zero "e1" cfg (newManifest "e1" Handle_zero cfg) (o_subnet sample_orchestrator)
             DeploymentStatusProvisioning ∅ (time_Unix 100) "key" None in
  let env := mkRestoreEnv (time_Unix 60) true [] (λ _ _, true)
               (mkNetwork (λ _, false) true (λ _, true) (λ _, true) (λ _, true) (λ _, Started) Handle_zero) (λ _, true) true true in
  restoreDeployment env Handle_zero v = Panic.
Proof. vm_compute. reflexivity. Qed.
