(* ===== verification/StatusWatch.v ===== *)
(** * Saving the status of a deployment (dms/orchestrator/registry.go, orchestrator.go)

    The registry starts a goroutine for an orchestrator that subscribes to its status and
    saves the orchestrator when the status changes ([saveDeploymentOnStatusChange],
    [StatusChannel]); [setStatus] sends a change to the channel of the subscriber when it
    has room for it, and closes the channel at the end of the deployment.  The state
    machine below interleaves the steps of the two, of saves made elsewhere and of the
    cancellation of the context. *)

From S2P Require Import Prelude GoStrings Ensemble BidCoordinator DependencyOrder IPNet Committer Subnet Orchestrator GoTime Deployments.

(** Where the goroutine is: before it reads the status, before it fills the channel, before
    it is subscribed, waiting, after a status that it has not seen, and while it writes a
    view with a status. *)
Inductive watch_pc := WInit | WOpening | WSubscribing | WWaiting | WChanged | WSaving (st : DeploymentStatus) | WDone.

(** The channel holds one status.  [w_ignored] says that the last status that was received
    was the one before. *)
Record watch := mkWatch {
  w_status : DeploymentStatus;
  w_stored : DeploymentStatus;
  w_chan : option DeploymentStatus;
  w_closed : bool;
  w_subscribed : bool;
  w_prev : DeploymentStatus;
  w_pc : watch_pc;
  w_ignored : bool
}.

(** A change is sent when the channel has room; the end closes the channel. *)
Definition watch_setStatus (st : DeploymentStatus) (w : watch) : watch :=
  let ended := w_subscribed w && terminal st in
  mkWatch st (w_stored w)
    (if w_subscribed w && negb (bool_decide (w_status w = st))
     then Some (default st (w_chan w)) else w_chan w)
    (w_closed w || ended) (w_subscribed w && negb ended) (w_prev w) (w_pc w) (w_ignored w).

Definition set_w_pc w v := mkWatch (w_status w) (w_stored w) (w_chan w) (w_closed w) (w_subscribed w) (w_prev w) v (w_ignored w).
Definition set_w_stored w v := mkWatch (w_status w) v (w_chan w) (w_closed w) (w_subscribed w) (w_prev w) (w_pc w) (w_ignored w).

(** The status that is received is compared with the one before. *)
Definition onReceived (st : DeploymentStatus) (w : watch) : watch :=
  if bool_decide (st = w_prev w)
  then mkWatch (w_status w) (w_stored w) None (w_closed w) (w_subscribed w) (w_prev w) WWaiting true
  else mkWatch (w_status w) (w_stored w) None (w_closed w) (w_subscribed w) st WChanged false.

(** One step of the goroutine; a channel that is closed and empty gives the zero status. *)
Definition watcher (w : watch) : option watch :=
  match w_pc w with
  | WInit => Some (mkWatch (w_status w) (w_stored w) (w_chan w) (w_closed w) (w_subscribed w) (w_status w) WOpening (w_ignored w))
  | WOpening => Some (mkWatch (w_status w) (w_stored w) (Some (w_status w)) (w_closed w) (w_subscribed w) (w_prev w) WSubscribing (w_ignored w))
  | WSubscribing => Some (mkWatch (w_status w) (w_stored w) (w_chan w) (w_closed w) true (w_prev w) WWaiting (w_ignored w))
  | WWaiting =>
      match w_chan w with
      | Some st => Some (onReceived st w)
      | None => if w_closed w then Some (onReceived DeploymentStatusPreparing w) else None
      end
  | WChanged => Some (set_w_pc w (WSaving (w_status w)))
  | WSaving st => Some (set_w_pc (set_w_stored w st) WWaiting)
  | WDone => None
  end.

Inductive watch_step : watch → watch → Prop :=
| step_set st w : watch_step w (watch_setStatus st w)
| step_watch w w' : watcher w = Some w' → watch_step w w'
| step_saved w : watch_step w (set_w_stored w (w_status w))
| step_cancelled w : w_pc w = WWaiting → watch_step w (set_w_pc w WDone).

(** The orchestrator was saved before the goroutine starts. *)
Definition watch_init (st : DeploymentStatus) : watch := mkWatch st st None false false st WInit false.

Inductive watch_reachable : watch → Prop :=
| watch_start st : watch_reachable (watch_init st)
| watch_next w w' : watch_reachable w → watch_step w w' → watch_reachable w'.

(** ** What is saved *)

(** Before the subscription the channel is open, and full once it was filled; while it is
    open, a change that was not captured is in the channel. *)
Definition watch_ok (w : watch) : Prop :=
  match w_pc w with
  | WInit | WOpening => w_subscribed w = false ∧ w_closed w = false
  | WSubscribing => w_subscribed w = false ∧ w_closed w = false ∧ is_Some (w_chan w)
  | WWaiting => w_closed w = false → w_subscribed w = true ∧
      (w_chan w = None → w_ignored w = false → w_stored w = w_status w)
  | WChanged => (w_closed w = false → w_subscribed w = true) ∧ w_ignored w = false
  | WSaving st => (w_closed w = false → w_subscribed w = true ∧ (w_chan w = None → st = w_status w)) ∧ w_ignored w = false
  | WDone => True
  end.

Lemma onReceived_ok st w :
  (w_closed w = false → w_subscribed w = true) → watch_ok (onReceived st w).
Proof.
  intros Hs. unfold onReceived. case_bool_decide; unfold watch_ok; simpl; [|done].
  intros Hc. split; [by apply Hs|done].
Qed.

Lemma watcher_ok w w' : watch_ok w → watcher w = Some w' → watch_ok w'.
Proof.
  intros Hok Hw. unfold watcher, watch_ok in Hok, Hw. destruct (w_pc w) as [| | | | |st|] eqn:Hpc; simplify_eq.
  - done.
  - destruct Hok. done.
  - destruct Hok as (_ & Hc & [st Hch]). unfold watch_ok. simpl. intros _. split; [done|]. congruence.
  - destruct (w_chan w) as [st|] eqn:Hch; [simplify_eq; apply onReceived_ok; naive_solver|].
    destruct (w_closed w) eqn:Hc; simplify_eq. apply onReceived_ok. naive_solver.
  - destruct Hok as [Hs Hi]. unfold watch_ok. simpl. split; [|done]. intros Hc. split; [by apply Hs|done].
  - destruct Hok as [Hs Hi]. unfold watch_ok. simpl. intros Hc. destruct (Hs Hc). naive_solver.
Qed.

Lemma setStatus_ok st w : watch_ok w → watch_ok (watch_setStatus st w).
Proof.
  intros Hok. unfold watch_ok, watch_setStatus in *. cbn.
  destruct (w_subscribed w) eqn:Hs, (w_closed w) eqn:Hc, (terminal st), (bool_decide (w_status w = st)) eqn:E;
    try (apply bool_decide_eq_true in E; subst); destruct (w_pc w), (w_chan w); cbn in *; naive_solver.
Qed.

Lemma watch_reachable_ok w : watch_reachable w → watch_ok w.
Proof.
  induction 1 as [st|w w' _ IH Hstep]; [done|]. destruct Hstep as [st w|w w' Hw|w|w Hpc].
  - by apply setStatus_ok.
  - by eapply watcher_ok.
  - unfold watch_ok in *. simpl. destruct (w_pc w); naive_solver.
  - done.
Qed.

(** Under every interleaving, when the goroutine that saves a deployment waits on an
    open channel with nothing in it, the status that is stored is the status of the
    deployment, unless the last status it received was the one before, which it drops
    without looking at the orchestrator. *)
Theorem waiting_means_saved w :
  watch_reachable w → w_pc w = WWaiting → w_closed w = false → w_chan w = None → w_ignored w = false →
  w_stored w = w_status w.
Proof.
  intros Hr Hpc Hc Hch Hi. pose proof (watch_reachable_ok w Hr) as Hok. unfold watch_ok in Hok. rewrite Hpc in Hok.
  by apply Hok.
Qed.

(** Steps in a row. *)
Inductive action := Set_ (st : DeploymentStatus) | Watch | Save.

Fixpoint play (l : list action) (w : watch) : option watch :=
  match l with
  | [] => Some w
  | Set_ st :: l => play l (watch_setStatus st w)
  | Watch :: l => match watcher w with Some w => play l w | None => None end
  | Save :: l => play l (set_w_stored w (w_status w))
  end.

Lemma play_reachable l w w' : watch_reachable w → play l w = Some w' → watch_reachable w'.
Proof.
  revert w. induction l as [|a l IH]; intros w Hr; simpl; [by intros [= <-]|]. destruct a as [st| |].
  - apply IH. by eapply watch_next; [|apply step_set].
  - destruct (watcher w) as [w1|] eqn:E; [|done]. apply IH. by eapply watch_next; [|apply step_watch].
  - apply IH. by eapply watch_next; [|apply step_saved].
Qed.

Definition started : watch := default (watch_init DeploymentStatusPreparing)
  (play [Watch; Watch; Watch; Watch] (watch_init DeploymentStatusPreparing)).

(** Two changes, the second while the first is on its way: the last one is stored. *)
Lemma waiting_means_saved_witness :
  ∃ w, play [Set_ DeploymentStatusCommitting; Watch; Set_ DeploymentStatusRunning; Watch; Watch; Watch; Watch; Watch] started = Some w ∧
    w_stored w = DeploymentStatusRunning ∧ w_stored w = w_status w.
Proof.
  eexists. split; [vm_compute; reflexivity|]. split; [reflexivity|]. apply waiting_means_saved; [|reflexivity..].
  eapply (play_reachable ([Watch; Watch; Watch; Watch] ++
    [Set_ DeploymentStatusCommitting; Watch; Set_ DeploymentStatusRunning; Watch; Watch; Watch; Watch; Watch]));
    [apply (watch_start DeploymentStatusPreparing)|vm_compute; reflexivity].
Defined.

(** A change can be missed for good: the status the goroutine fills the channel with keeps
    the change out, and is dropped because it is the one before. *)
Theorem change_missed :
  ∃ w, watch_reachable w ∧ w_pc w = WWaiting ∧ w_closed w = false ∧ w_chan w = None ∧ watcher w = None ∧
    w_status w = DeploymentStatusCommitting ∧ w_stored w = DeploymentStatusPreparing.
Proof.
  destruct (play [Watch; Watch; Watch; Set_ DeploymentStatusCommitting; Watch] (watch_init DeploymentStatusPreparing))
    as [w|] eqn:E; [|vm_compute in E; discriminate].
  exists w. split; [by eapply play_reachable; [apply (watch_start DeploymentStatusPreparing)|exact E]|].
  vm_compute in E. injection E as <-. done.
Qed.

(** So can the end of a deployment: here the failure is neither sent nor saved, and the
    goroutine receives the zero status of the closed channel again and again. *)
Theorem failure_missed :
  ∃ w, watch_reachable w ∧ w_status w = DeploymentStatusFailed ∧ w_stored w = DeploymentStatusPreparing ∧
    w_closed w = true ∧ watcher w = Some w.
Proof.
  destruct (play [Watch; Watch; Watch; Set_ DeploymentStatusFailed; Watch; Watch] (watch_init DeploymentStatusPreparing))
    as [w|] eqn:E; [|vm_compute in E; discriminate].
  exists w. split; [by eapply play_reachable; [apply (watch_start DeploymentStatusPreparing)|exact E]|].
  vm_compute in E. injection E as <-. done.
Qed.

(** The save at the end of a shutdown can be overwritten by a save that began before. *)
Theorem completion_overwritten :
  ∃ w, watch_reachable w ∧ w_status w = DeploymentStatusCompleted ∧ w_stored w = DeploymentStatusShuttingDown ∧ w_pc w = WDone.
Proof.
  destruct (play [Watch; Watch; Watch; Watch; Set_ DeploymentStatusShuttingDown; Watch; Watch; Set_ DeploymentStatusCompleted; Save; Watch]
              (watch_init DeploymentStatusRunning)) as [w|] eqn:E; [|vm_compute in E; discriminate].
  exists (set_w_pc w WDone). split.
  - eapply watch_next; [by eapply play_reachable; [apply (watch_start DeploymentStatusRunning)|exact E]|].
    apply step_cancelled. vm_compute in E. injection E as <-. reflexivity.
  - vm_compute in E. injection E as <-. done.
Qed.
