(* ===== verification/EnsembleUpdate.v ===== *)
(** * Updating a running deployment (dms/orchestrator/update_manifest.go)

    An update first stops what the new configuration no longer has, then deploys what it
    adds, in attempts until the deadline.  The answers of the nodes, of the allocations and
    of the network are arguments, as in [Orchestrator]; the supervisor is told the manifest
    of the orchestrator when an update has succeeded.

    The configuration of the orchestrator is changed in place while the update goes on,
    and so is the manifest; what an error leaves behind is part of the state. *)

From S2P Require Import Prelude GoStrings GoNumbers AllocationID Hardware ResourceManager Key Envelope Allocation Ensemble BidCoordinator BidProps CandidateProps ManifestDiff ManifestDiffProps DependencyOrder IPNet Committer Subnet Orchestrator OrchestratorProps GoTime.

Inductive update_error :=
| ErrUpdateExpired
| ErrUpdateConfig
| ErrUpdateRefused (e : diff_error)
| ErrRemovals
| ErrUpdateNodes (e : diff_error)
| ErrUpdateBid (e : bid_error).

#[export] Instance update_error_eq_dec : EqDecision update_error.
Proof. solve_decision. Defined.

Definition with_cfg o v := mkOrchestrator (o_id o) (o_handle o) v (o_manifest o) (o_subnet o) (o_status o) (o_allocs o)
  (o_candidates o) (o_contracts o) (o_stopped o) (o_statuses o) (o_events o).

Definition NodeConfig_zero : NodeConfig := mkNodeConfig [] [] (mkLocationConstraints [] []) "" 0 "".

Section update.
  Context `{Visit : MapVisit} `{NodeGen : NodeIDGenerator} `{AllocGen : AllocationIDGenerator} `{Bids : BidLib}.

(** ** What is removed *)

(** Nodes that are gone or move to another peer: they are reverted, which also takes the
    orchestrator out of a subnet it has joined.  [false] says that there was an error. *)
Definition removeNodes (reverted : string → Handle → bool) (modified : EnsembleConfigV1) (o : Orchestrator)
    : bool * Orchestrator :=
  match newConfigForRemovedNodes (o_cfg o) modified with
  | Ok removed =>
      let names := MapKeysToSlice (Nodes removed) in
      if (length names =? 0)%nat then (true, o)
      else match manifestOnlyForNodes (o_manifest o) names with
      | Ok mf =>
          let o := revert reverted removed mf o in
          (true, with_cfg o (fold_left RemoveNodeAndAllocations names (o_cfg o)))
      | _ => (false, o)
      end
  | _ => (false, o)
  end.

(** The keys in the manifest of the allocations that leave a node. *)
Definition removedKeys (n : string) (allocs : gmap string AllocationConfig) : list string :=
  omap (λ alloc, match GenerateManifestKey n alloc with Ok k => Some k | _ => None end)
    (visit (map fst (map_to_list allocs))).

(** The name of an allocation is the second part of its key. *)
Definition dropAllocation (acc : outcome () (EnsembleManifest * EnsembleConfigV1)) (key : string)
    : outcome () (EnsembleManifest * EnsembleConfigV1) :=
  match acc with
  | Ok (mf, cfg) =>
      match Split key "." with
      | _ :: name :: _ =>
          Ok (set_mf_allocations mf (delete key (mf_Allocations mf)),
              set_cfg_allocations cfg (delete name (cfg_Allocations cfg)))
      | _ => Panic
      end
  | r => r
  end.

(** The allocations of a node in the manifest and in the configuration become those of the
    modified configuration. *)
Definition setNodeAllocations (n : string) (nodeAllocs : list string) (mf : EnsembleManifest) (cfg : EnsembleConfigV1)
    : EnsembleManifest * EnsembleConfigV1 :=
  (set_mf_nodes mf (<[n := set_nmf_Allocations (default NodeManifest_zero (mf_Nodes mf !! n)) nodeAllocs]> (mf_Nodes mf)),
   set_cfg_nodes cfg (<[n := set_node_Allocations (default NodeConfig_zero (cfg_Nodes cfg !! n)) nodeAllocs]> (cfg_Nodes cfg))).

(** One node: its removed allocations are stopped; whatever they answer they leave the
    subnet, the manifest and the configuration.  [stops id] is the answer. *)
Definition removeAllocations (stops : string → bool) (modified : EnsembleConfigV1) (n : string) (o : Orchestrator)
    : outcome () (bool * Orchestrator) :=
  let allocs := identifyRemovedAllocations (o_cfg o) modified n in
  if (size allocs =? 0)%nat then Ok (true, o)
  else
    let keys := removedKeys n allocs in
    let stopped := forallb (λ key, match mf_Allocations (o_manifest o) !! key with
                                   | Some amf => stops (amf_ID amf)
                                   | None => false
                                   end) keys in
    let o := with_subnet o (removeAllocationsFromSubnet (o_subnet o) (o_manifest o) keys) in
    match fold_left dropAllocation keys (Ok (o_manifest o, o_cfg o)) with
    | Ok (mf, cfg) =>
        let nodeAllocs := node_Allocations (default NodeConfig_zero (cfg_Nodes modified !! n)) in
        let '(mf, cfg) := setNodeAllocations n nodeAllocs mf cfg in
        Ok (stopped, with_cfg (with_manifest o mf) cfg)
    | _ => Panic
    end.

Fixpoint removeFromNodes (stops : string → bool) (modified : EnsembleConfigV1) (nodes : list string) (ok : bool)
    (o : Orchestrator) : outcome () (bool * Orchestrator) :=
  match nodes with
  | [] => Ok (ok, o)
  | n :: nodes =>
      match removeAllocations stops modified n o with
      | Ok (done, o) => removeFromNodes stops modified nodes (ok && done) o
      | r => r
      end
  end.

(** The nodes are those of the configuration after the first part. *)
Definition handleEnsembleRemovals (reverted : string → Handle → bool) (stops : string → bool) (modified : EnsembleConfigV1)
    (o : Orchestrator) : outcome () (bool * Orchestrator) :=
  let '(ok, o) := removeNodes reverted modified o in
  removeFromNodes stops modified (MapKeysToSlice (Nodes (o_cfg o))) ok o.

(** ** What is added *)

(** What happens during one attempt. *)
Record UpdateAttempt := mkUpdateAttempt {
  ua_bidding : Bidding;
  ua_commits : string → string → bool;
  ua_allocates : string → gmap string AllocationDeploymentConfig → option (gmap string Handle);
  ua_reverted : string → Handle → bool;
  ua_network : Network;
  ua_accept : list subnetRequest → bool;    (* the others take the new peers *)
  ua_records : list subnetRequest → bool    (* and the new names *)
}.

(** The subnet is extended by the allocations it does not have yet; when one finds no
    address all of them are taken out, also those that were there before. *)
Fixpoint extendSubnet (mf : EnsembleManifest) (keys : list string) (sn : SubnetManifest)
    : outcome () (bool * SubnetManifest) :=
  match keys with
  | [] => Ok (true, sn)
  | key :: keys =>
      match addAllocationToSubnet sn mf key with
      | Ok sn => extendSubnet mf keys sn
      | Err _ => Ok (false, removeAllocationsFromSubnet sn mf (MapKeysToSlice (mf_Allocations mf)))
      | Panic => Panic
      end
  end.

(** The manifest that is committed: the new nodes and allocations, and the allocations
    that exist. *)
Definition updateManifestFor (o : Orchestrator) (newConfig : EnsembleConfigV1) : EnsembleManifest :=
  let mf := newManifest (o_id o) (o_handle o) newConfig in
  set_mf_allocations mf (mf_Allocations (o_manifest o) ∪ mf_Allocations mf).

(** The nodes of the update are merged into the manifest. *)
Definition mergeNode (mf : EnsembleManifest) (cur : EnsembleManifest) (kv : string * NodeManifest) : EnsembleManifest :=
  let '(n, node) := kv in
  let allocations := fold_left (λ m key, <[key := default AllocationManifest_zero (mf_Allocations mf !! key)]> m)
                       (nmf_Allocations node) (mf_Allocations cur) in
  let node := match mf_Nodes cur !! n with
              | Some nmf => set_nmf_Allocations node (nmf_Allocations node ++ nmf_Allocations nmf)
              | None => node
              end in
  set_mf_nodes (set_mf_allocations cur allocations) (<[n := node]> (mf_Nodes cur)).

Definition mergeManifest (mf cur : EnsembleManifest) : EnsembleManifest :=
  fold_left (mergeNode mf) (visit (map_to_list (mf_Nodes mf))) cur.

(** Every node of the update, also a standby, is written to the configuration as it is in
    the modified one. *)
Definition addNodesAndAllocsToCfg (modified newConfig cfg : EnsembleConfigV1) : EnsembleConfigV1 :=
  fold_left (λ cfg name, match Node modified name with
                         | Some node => AddNodeAndAllocations cfg name node (cfg_Allocations newConfig)
                         | None => cfg
                         end)
    (MapKeysToSlice (Nodes newConfig)) cfg.

Inductive update_result := UpdateRetry | UpdateDone | UpdateStopped (e : update_error) | UpdateCrashed.

Definition updateAttempt (modified newConfig : EnsembleConfigV1) (existing : gmap string string) (a : UpdateAttempt)
    (o : Orchestrator) : update_result * Orchestrator :=
  match runBid (ua_bidding a) newConfig (o_id o) (o_candidates o) with
  | Panic => (UpdateCrashed, o)
  | Err ErrCandidateNotFound => (UpdateRetry, o)
  | Err e => (UpdateStopped (ErrUpdateBid e), o)
  | Ok candidate =>
      match commit (o_id o) (ua_commits a) (ua_allocates a) newConfig (updateManifestFor o newConfig) candidate with
      | (_, Some _, _) => (UpdateRetry, o)
      | (updated, None, _) =>
          match extendSubnet updated (MapKeysToSlice (mf_Allocations updated)) (o_subnet o) with
          | Panic => (UpdateCrashed, o)
          | Err _ => (UpdateCrashed, o)
          | Ok (false, sn) => (UpdateRetry, with_subnet o sn)
          | Ok (true, sn) =>
              match provisionSubnet (ua_network a) (with_subnet o sn) updated (MapKeysToSlice existing) with
              | (Panic, sn) => (UpdateCrashed, with_subnet o sn)
              | (Err _, sn) => (UpdateRetry, revert (ua_reverted a) newConfig updated (with_subnet o sn))
              | (Ok mf, sn) =>
                  let o := with_subnet o sn in
                  let told := match newSubnetRequests sn mf with
                              | Ok reqs => ua_accept a reqs && ua_records a reqs
                              | _ => false
                              end in
                  if negb told then (UpdateRetry, revert (ua_reverted a) newConfig updated o)
                  else match provisionAllocations (ua_network a) newConfig mf with
                  | Panic => (UpdateCrashed, o)
                  | Err _ => (UpdateRetry, revert (ua_reverted a) newConfig updated o)
                  | Ok mf =>
                      let o := updateManifest (mergeManifest mf (o_manifest o)) o in
                      (UpdateDone, with_candidates (with_cfg o (addNodesAndAllocsToCfg modified newConfig (o_cfg o))) candidate)
                  end
              end
          end
      end
  end.

(** Attempts until one succeeds.  When the deadline ends them the update has not been
    made, and that is not an error. *)
Fixpoint updateAttempts (modified newConfig : EnsembleConfigV1) (existing : gmap string string) (attempts : list UpdateAttempt)
    (o : Orchestrator) : outcome update_error () * Orchestrator :=
  match attempts with
  | [] => (Ok tt, o)
  | a :: attempts =>
      match updateAttempt modified newConfig existing a o with
      | (UpdateRetry, o) => updateAttempts modified newConfig existing attempts o
      | (UpdateDone, o) => (Ok tt, o)
      | (UpdateStopped e, o) => (Err e, o)
      | (UpdateCrashed, o) => (Panic, o)
      end
  end.

Definition existingNodes (mf : EnsembleManifest) : gmap string string := nmf_Peer <$> mf_Nodes mf.

Definition handleNewAllocations (modified : EnsembleConfigV1) (attempts : list UpdateAttempt) (o : Orchestrator)
    : outcome update_error () * Orchestrator :=
  let existing := existingNodes (o_manifest o) in
  match newConfigForDeploymentUpdate (o_cfg o) modified existing with
  | Err e => (Err (ErrUpdateNodes e), o)
  | Panic => (Panic, o)
  | Ok newConfig =>
      if (size (cfg_Allocations newConfig) =? 0)%nat then (Ok tt, o)
      else updateAttempts modified newConfig existing attempts o
  end.

(** ** The update *)

(** What happens during an update. *)
Record UpdateEnv := mkUpdateEnv {
  ue_expired : bool;
  ue_reverted : string → Handle → bool;
  ue_stops : string → bool;
  ue_attempts : list UpdateAttempt
}.

(** The result, the orchestrator, and the manifest the supervisor is told of. *)
Definition runUpdate (env : UpdateEnv) (modified : EnsembleConfig) (o : Orchestrator)
    : outcome update_error () * Orchestrator :=
  if ue_expired env then (Err ErrUpdateExpired, o)
  else match ecfg_V1 modified with
  | None => (Err ErrUpdateConfig, o)
  | Some modified =>
      match validateEnsembleUpdate (o_cfg o) modified with
      | Some e => (Err (ErrUpdateRefused e), o)
      | None =>
          match handleEnsembleRemovals (ue_reverted env) (ue_stops env) modified o with
          | Ok (true, o) => handleNewAllocations modified (ue_attempts env) o
          | Ok (false, o) => (Err ErrRemovals, o)
          | _ => (Panic, o)
          end
      end
  end.

Definition orch_Update (env : UpdateEnv) (modified : EnsembleConfig) (o : Orchestrator)
    : outcome update_error () * Orchestrator * option EnsembleManifest :=
  match runUpdate env modified (orch_setStatus DeploymentStatusUpdating o) with
  | (Ok _, o) => (Ok tt, orch_setStatus DeploymentStatusRunning o, Some (o_manifest o))
  | (r, o) => (r, orch_setStatus DeploymentStatusRunning o, None)
  end.

End update.

(** ** Properties of updates

    An update to the configuration that is deployed changes nothing; what an update
    removes is gone; and where updates do not do what they mean to. *)

Section same.
  Context `{Visit : MapVisit} `{NodeGen : NodeIDGenerator} `{AllocGen : AllocationIDGenerator} `{Bids : BidLib}.

(** ** The same configuration *)

Lemma Location_Equal_refl l : Location_Equal l l = true.
Proof. apply Location_Equal_iff. naive_solver. Qed.

Lemma covers_refl l : covers l l = true.
Proof.
  apply forallb_forall. intros x Hx. apply existsb_exists. exists x. split; [done|apply Location_Equal_refl].
Qed.

Lemma location_update_refl c : validateLocationConstraintsUpdate c c = true.
Proof.
  unfold validateLocationConstraintsUpdate. rewrite !covers_refl.
  by destruct (0 <? length (Accept c))%nat, (0 <? length (Reject c))%nat.
Qed.

Lemma validatePorts_refl n : validatePorts n n = true.
Proof.
  apply forallb_forall. intros p Hp. destruct (contains _ _); [done|]. destruct (negb _); [done|].
  apply existsb_exists. exists p. split; [done|]. unfold samePort. rewrite !Z.eqb_refl. by rewrite bool_decide_eq_true_2.
Qed.

Lemma primary_Node cfg n c : cfg_Nodes cfg !! n = Some c → Node cfg n = Some c.
Proof. intros H. unfold Node. by rewrite H. Qed.

(** Without standby nodes the nodes of a configuration are found as they are. *)
Definition no_standbys (cfg : EnsembleConfigV1) : Prop := Nodes cfg = cfg_Nodes cfg.

Lemma no_standbys_Node cfg n c : no_standbys cfg → Nodes cfg !! n = Some c → Node cfg n = Some c.
Proof. intros -> . apply primary_Node. Qed.

Lemma validate_same cfg : no_standbys cfg → validateEnsembleUpdate cfg cfg = None.
Proof.
  intros Hs. unfold validateEnsembleUpdate.
  assert ((0 <? length (sup_Allocations (cfg_Supervisor cfg)))%nat && (length (sup_Allocations (cfg_Supervisor cfg)) =? 0)%nat = false)
    as -> by (by destruct (sup_Allocations _)).
  assert (∀ l, (∀ kv, kv ∈ l → Node cfg kv.1 = Some kv.2) → validateNodes cfg l = None) as Hn.
  { induction l as [|[n c] l IH]; intros Hl; [done|]. simpl. pose proof (Hl (n, c) ltac:(by left)) as Hc. simpl in Hc. rewrite Hc.
    assert (validateNodes cfg l = None) as -> by (apply IH; intros; apply Hl; by right).
    rewrite bool_decide_eq_false_2 by (by intros []). by rewrite location_update_refl, validatePorts_refl. }
  rewrite Hn; [|intros [n c] Hin; rewrite visit_perm in Hin; apply elem_of_map_to_list in Hin; by apply no_standbys_Node].
  assert (∀ moved edges, (∀ e, e ∈ edges → e ∈ cfg_Edges cfg) → validateEdges cfg moved edges = None) as He.
  { intros moved. induction edges as [|e edges IH]; intros Hl; [done|]. simpl.
    assert (validateEdges cfg moved edges = None) as -> by (apply IH; intros e' He'; apply Hl; by right).
    destruct (_ || _); [done|].
    assert (existsb (sameEdge e) (cfg_Edges cfg) = true) as ->; [|done].
    apply existsb_exists. exists e. split; [apply list_elem_of_In; apply Hl; by left|].
    apply orb_true_iff. left. apply andb_true_iff. split; by apply bool_decide_eq_true. }
  rewrite He by done. by rewrite bool_decide_eq_false_2 by (by intros []).
Qed.

Lemma removed_nodes_same cfg :
  no_standbys cfg → identifyRelocatedNodes cfg cfg = ∅ ∧ identifyRemovedNodes cfg cfg = ∅.
Proof.
  intros Hs. split; apply map_empty; intros n; apply map_lookup_filter_None; right; intros c Hc; simpl.
  - unfold relocated. rewrite (no_standbys_Node _ _ _ Hs Hc), bool_decide_eq_false_2; [done|by intros []].
  - by rewrite (no_standbys_Node _ _ _ Hs Hc).
Qed.

Lemma visit_empty {A} : visit ([] : list A) = [].
Proof. apply Permutation_nil. symmetry. apply visit_perm. Qed.

Lemma buildStandbyNodes_empty : buildStandbyNodes ∅ = ∅.
Proof.
  unfold buildStandbyNodes. rewrite map_to_list_empty.
  by rewrite visit_empty.
Qed.

Lemma Nodes_no_nodes cfg : cfg_Nodes cfg = ∅ → Nodes cfg = ∅.
Proof. intros H. unfold Nodes. by rewrite H, buildStandbyNodes_empty, map_union_empty. Qed.

Lemma removals_same reverted stops o :
  no_standbys (o_cfg o) → handleEnsembleRemovals reverted stops (o_cfg o) o = Ok (true, o).
Proof.
  intros Hs. unfold handleEnsembleRemovals, removeNodes, newConfigForRemovedNodes.
  destruct (removed_nodes_same _ Hs) as [-> ->]. rewrite map_union_empty. cbv zeta.
  rewrite Nodes_no_nodes by done. rewrite map_to_list_empty, visit_empty. cbn [flat_map lookupAllocations].
  rewrite Nodes_no_nodes by done. unfold MapKeysToSlice at 1. rewrite map_to_list_empty. cbn [map].
  rewrite visit_empty. cbn [length Nat.eqb].
  generalize (MapKeysToSlice (Nodes (o_cfg o))). induction l as [|n l IH]; [done|]. cbn [removeFromNodes].
  unfold removeAllocations. assert (identifyRemovedAllocations (o_cfg o) (o_cfg o) n = ∅) as ->; [|by rewrite map_size_empty].
  unfold identifyRemovedAllocations. destruct (Node (o_cfg o) n) as [c|]; [|done].
  assert (∀ names (m : gmap string AllocationConfig), (∀ a, a ∈ names → contains (node_Allocations c) a = true) →
    fold_left (λ m alloc, if contains (node_Allocations c) alloc then m
                          else match cfg_Allocation (o_cfg o) alloc with Some a => <[alloc := a]> m | None => m end) names m = m) as H.
  { induction names as [|a names IHn]; intros m Hn; [done|]. simpl. rewrite (Hn a) by (by left). apply IHn. intros; apply Hn; by right. }
  apply H. intros a Ha. by apply contains_iff.
Qed.

Lemma nothing_new cfg n a : ¬ is_new cfg cfg n a.
Proof. unfold is_new, currentAllocations. destruct (Node cfg n); [naive_solver|naive_solver]. Qed.

Lemma additions_same attempts o :
  handleNewAllocations (o_cfg o) attempts o = (Ok tt, o).
Proof.
  unfold handleNewAllocations. pose proof (update_config_exact (o_cfg o) (o_cfg o) (existingNodes (o_manifest o))) as H.
  destruct (newConfigForDeploymentUpdate _ _ _) as [cfg|e|]; [|destruct H as (n & a & _ & _ & Hn & _); by apply nothing_new in Hn|done].
  destruct H as (_ & _ & H & _). assert (cfg_Allocations cfg = ∅) as ->; [|by rewrite map_size_empty].
  apply map_empty. intros a. destruct (cfg_Allocations cfg !! a) eqn:E; [|done].
  destruct (proj1 (H a)) as (n & _ & Hn); [by eexists|]. by apply nothing_new in Hn.
Qed.

(** An update to the configuration that is deployed, without standby nodes, is
    accepted and succeeds at once, whatever the nodes would answer: configuration,
    manifest, subnet and candidates stay as they are and the deployment is running. *)
Theorem same_update_is_noop env o :
  ue_expired env = false → no_standbys (o_cfg o) →
  let '(r, o', told) := orch_Update env (mkEnsembleConfig (Some (o_cfg o))) o in
  r = Ok tt ∧ told = Some (o_manifest o) ∧ o_cfg o' = o_cfg o ∧ o_manifest o' = o_manifest o ∧
  o_subnet o' = o_subnet o ∧ o_candidates o' = o_candidates o ∧ o_status o' = DeploymentStatusRunning.
Proof.
  intros He Hs. unfold orch_Update, runUpdate. rewrite He. cbn [ecfg_V1].
  set (o1 := orch_setStatus DeploymentStatusUpdating o). change (o_cfg o) with (o_cfg o1) in *.
  by rewrite validate_same, removals_same, additions_same.
Qed.

Lemma updateAttempts_error modified c existing l o e o' :
  updateAttempts modified c existing l o = (Err e, o') → ∃ b, e = ErrUpdateBid b.
Proof.
  revert o. induction l as [|a l IH]; intros o; simpl; [done|].
  destruct (updateAttempt _ _ _ _ _) as [[| |x|] o1] eqn:E; [apply IH|done| |done]. intros [= -> _].
  unfold updateAttempt in E. repeat case_match; simplify_eq; eauto.
Qed.

(** An update that is refused changes nothing but the statuses that are told. *)
Theorem refused_update_changes_nothing env cfg o e :
  (orch_Update env cfg o).1.1 = Err e →
  e = ErrUpdateExpired ∨ e = ErrUpdateConfig ∨ (∃ d, e = ErrUpdateRefused d) →
  (orch_Update env cfg o).1.2 = orch_setStatus DeploymentStatusRunning (orch_setStatus DeploymentStatusUpdating o).
Proof.
  unfold orch_Update, runUpdate. destruct (ue_expired env); [done|]. destruct (ecfg_V1 cfg) as [m|]; [|done].
  destruct (validateEnsembleUpdate _ _); [done|].
  destruct (handleEnsembleRemovals _ _ _ _) as [[[] o1]|[]|]; simpl; [|by intros [= <-] [|[|[? ?]]]|done..].
  unfold handleNewAllocations. destruct (newConfigForDeploymentUpdate _ _ _) as [c|d|]; simpl; [|by intros [= <-] [|[|[? ?]]]|done].
  destruct (_ =? 0)%nat; simpl; [done|].
  destruct (updateAttempts _ _ _ _ _) as [[|x|] o2] eqn:E; simpl; [done| |done].
  apply updateAttempts_error in E as [b ->]. by intros [= <-] [|[|[? ?]]].
Qed.

(** ** What is removed *)

Lemma dropAllocation_keys keys mf cfg r :
  fold_left dropAllocation keys (Ok (mf, cfg)) = Ok r →
  (∀ k, k ∈ keys → mf_Allocations r.1 !! k = None) ∧ (∀ k, mf_Allocations mf !! k = None → mf_Allocations r.1 !! k = None) ∧
  mf_Nodes r.1 = mf_Nodes mf ∧ cfg_Nodes r.2 = cfg_Nodes cfg.
Proof.
  revert mf cfg. induction keys as [|k keys IH]; intros mf cfg; simpl.
  { intros [= <-]. split; [by intros k ?%elem_of_nil|done]. }
  assert (∀ l, fold_left dropAllocation l (Panic : outcome () (EnsembleManifest * EnsembleConfigV1)) = Panic) as HP
    by (induction l; simpl; auto).
  destruct (Split k ".") as [|x [|y l]]; [by rewrite HP..|]. intros H. apply IH in H as (H1 & H2 & H3 & H4). simpl in *.
  split_and!; [| |done|done].
  - intros k' [->|Hk]%elem_of_cons; [apply H2; apply lookup_delete_eq|by apply H1].
  - intros k' Hk'. apply H2. by rewrite lookup_delete_None; right.
Qed.

(** C40: Whatever its allocations answer, a node whose allocations an update removes loses
    them from the manifest, and keeps in the configuration and in the manifest exactly
    the names of the modified configuration; so an allocation that the same update adds
    to that node counts as deployed and is never asked for. *)
Theorem replacement_not_deployed stops modified n o ok o' c :
  identifyRemovedAllocations (o_cfg o) modified n ≠ ∅ → cfg_Nodes modified !! n = Some c →
  removeAllocations stops modified n o = Ok (ok, o') →
  (∀ k, k ∈ removedKeys n (identifyRemovedAllocations (o_cfg o) modified n) → mf_Allocations (o_manifest o') !! k = None) ∧
  nmf_Allocations <$> mf_Nodes (o_manifest o') !! n = Some (node_Allocations c) ∧
  identifyNewAllocations (o_cfg o') modified n = Ok ∅.
Proof.
  intros Hne Hc. unfold removeAllocations. destruct (_ =? 0)%nat eqn:Hz.
  { apply Nat.eqb_eq, map_size_empty_inv in Hz. done. }
  destruct (fold_left _ _ _) as [[mf cfg]|[]|] eqn:Hf; [|done..]. apply dropAllocation_keys in Hf as (H1 & _ & _ & _).
  rewrite Hc. simpl. intros [= _ <-]. simpl in *. split; [done|]. rewrite lookup_insert_eq. split; [done|].
  unfold identifyNewAllocations. rewrite (primary_Node _ _ _ Hc). unfold currentAllocations.
  erewrite primary_Node; [|simpl; apply lookup_insert_eq]. cbn [node_Allocations set_node_Allocations].
  assert (∀ names m, (∀ a, a ∈ names → a ∈ node_Allocations c) → newAllocationsOf modified (node_Allocations c) names m = Ok m) as H.
  { induction names as [|a names IH]; intros m Hn; [done|]. simpl.
    assert (contains (node_Allocations c) a = true) as -> by (apply contains_iff, Hn; by left).
    apply IH. intros; apply Hn; by right. }
  by apply H.
Qed.

End same.

(** ** Samples *)

#[local] Existing Instance bid_visit.
#[local] Existing Instance sample_BidLib.

Definition deployed : Orchestrator := (deploy web_ensemble [sample_attempt ["a"; "b"]] sample_orchestrator None).2.

Definition quiet_env : UpdateEnv := mkUpdateEnv false (λ _ _, true) (λ _, true) [].

Lemma same_update_is_noop_witness :
  o_manifest (orch_Update quiet_env (mkEnsembleConfig (Some (o_cfg deployed))) deployed).1.2 = o_manifest deployed.
Proof.
  pose proof (same_update_is_noop quiet_env deployed eq_refl) as H.
  destruct (orch_Update quiet_env (mkEnsembleConfig (Some (o_cfg deployed))) deployed) as [[r o'] told].
  apply H. vm_compute. reflexivity.
Defined.

(** The nodes of [cfg] with other allocations. *)
Definition on_node (n : string) (names : list string) (cfg : EnsembleConfigV1) : EnsembleConfigV1 :=
  set_cfg_nodes cfg (alter (λ c, set_node_Allocations c names) n (cfg_Nodes cfg)).
Definition with_db (cfg : EnsembleConfigV1) : EnsembleConfigV1 :=
  set_cfg_allocations cfg (<["db" := mkAllocationConfig ExecutorNull AllocationTypeService Resources_zero "" "db" [] []
                                       HealthCheckManifest_zero [] "" []]> (cfg_Allocations cfg)).

(** Node a gets a database instead of the web server. *)
Definition replaced : EnsembleConfigV1 := on_node "a" ["db"] (with_db web_ensemble).

Lemma replacement_not_deployed_witness :
  ∃ ok o', removeAllocations (λ _, true) replaced "a" deployed = Ok (ok, o') ∧
    mf_Allocations (o_manifest o') !! "a.web" = None ∧ identifyNewAllocations (o_cfg o') replaced "a" = Ok ∅.
Proof.
  destruct (removeAllocations (λ _, true) replaced "a" deployed) as [[ok o']|[]|] eqn:E;
    [|vm_compute in E; discriminate..].
  exists ok, o'. split; [reflexivity|].
  destruct (replacement_not_deployed (λ _, true) replaced "a" deployed ok o'
              (set_node_Allocations web_node ["db"])) as (H1 & _ & H3); [vm_compute; discriminate|reflexivity|exact E|].
  split; [|exact H3]. apply H1. vm_compute. left.
Defined.

(** The update succeeds; the database is in the configuration and not in the manifest,
    whose node now lists names instead of keys. *)
Example replacement_lost :
  let '(r, o, _) := orch_Update quiet_env (mkEnsembleConfig (Some replaced)) deployed in
  r = Ok tt ∧ node_Allocations <$> cfg_Nodes (o_cfg o) !! "a" = Some ["db"] ∧ mf_Allocations (o_manifest o) !! "a.db" = None ∧
  nmf_Allocations <$> mf_Nodes (o_manifest o) !! "a" = Some ["db"] ∧
  nmf_Allocations <$> mf_Nodes (o_manifest deployed) !! "a" = Some ["a.web"].
Proof. vm_compute. done. Qed.

(** Node a gets a database beside the web server. *)
Definition extended : EnsembleConfigV1 := on_node "a" ["web"; "db"] (with_db web_ensemble).

Definition update_attempt (nw : Network) : UpdateAttempt :=
  mkUpdateAttempt
    (mkBidding (λ _, Some false) sample_rtt (λ _ _ _, true) true [mkBid (Some (sample_bidder "a" "p1"))] id [sample_round] (λ n, n) 10)
    (λ _ _, true) (λ _ req, Some ((λ _, Handle_zero) <$> req)) (λ n _, bool_decide (n = "a")) nw (λ _, true) (λ _, true).

Example extended_deployed :
  let '(r, o, _) := orch_Update (mkUpdateEnv false (λ _ _, true) (λ _, true) [update_attempt good_network])
                      (mkEnsembleConfig (Some extended)) deployed in
  r = Ok tt ∧ nmf_Allocations <$> mf_Nodes (o_manifest o) !! "a" = Some ["a.db"; "a.web"] ∧
  amf_Status <$> mf_Allocations (o_manifest o) !! "a.db" = Some AllocationRunning ∧
  amf_Status <$> mf_Allocations (o_manifest o) !! "a.web" = Some AllocationRunning ∧ o_status o = DeploymentStatusRunning.
Proof. vm_compute. done. Qed.

(** When the deadline passes before an attempt is made the update succeeds as well. *)
Example expired_update_succeeds :
  let '(r, o, _) := orch_Update quiet_env (mkEnsembleConfig (Some extended)) deployed in
  r = Ok tt ∧ mf_Allocations (o_manifest o) !! "a.db" = None.
Proof. vm_compute. done. Qed.

(** When the database does not start the node is reverted, and with it the web server that
    runs on it is gone from the manifest. *)
Example failed_update_forgets :
  let failing := mkNetwork (λ _, true) true (λ _, true) (λ _, true) (λ _, true) (λ k, if bool_decide (k = "a.db") then StartRefused else Started) Handle_zero in
  let '(r, o, _) := orch_Update (mkUpdateEnv false (λ _ _, true) (λ _, true) [update_attempt failing])
                      (mkEnsembleConfig (Some extended)) deployed in
  r = Ok tt ∧ mf_Allocations (o_manifest o) !! "a.web" = None ∧ mf_Nodes (o_manifest o) !! "a" = None ∧
  is_Some (cfg_Nodes (o_cfg o) !! "a").
Proof. vm_compute. split; [done|]. split; [done|]. split; [done|by eexists]. Qed.

(** The orchestrator that has joined a subnet loses its address when any node is removed. *)
Example removal_leaves_subnet :
  let cfg := mkConfig "" (cfg_Allocations web_ensemble) (cfg_Nodes web_ensemble) [] (mkSupervisor "" [] []) [] true ∅ ∅ ∅ ∅ in
  let o := (deploy cfg [sample_attempt ["a"; "b"]]
              (mkOrchestrator "e1" Handle_zero cfg (newManifest "e1" Handle_zero cfg) (o_subnet sample_orchestrator)
                 DeploymentStatusPreparing ∅ ∅ ∅ false [] []) None).2 in
  let o' := (orch_Update quiet_env (mkEnsembleConfig (Some (set_cfg_nodes cfg (delete "b" (cfg_Nodes cfg))))) o).1.2 in
  is_Some (sn_IndexRoutingTable (o_subnet o) !! orchSubnetName) ∧ sn_IndexRoutingTable (o_subnet o') !! orchSubnetName = None ∧
  cfg_SubnetJoin (o_cfg o') = true.
Proof. vm_compute. split; [by eexists|done]. Qed.
