(* ===== verification/AllocationLogs.v ===== *)
(** * The logs of allocations

    A node keeps what an allocation prints in two files and gives them out in chunks
    (dms/node/behaviors_allocation.go, dms/behaviors/chunked_transfer.go).  An orchestrator
    fetches them chunk by chunk, at once (dms/orchestrator/allocation_logs.go) or in a
    goroutine that writes them to files of its own and may follow the logs as they grow
    (dms/orchestrator/allocation_logs_job.go); the node that has the orchestrator offers
    both to users (dms/node/behaviors_deployment.go).

    The file systems and the exchange of messages are arguments. *)

From Stdlib Require Import Strings.Byte.
From S2P Require Import Prelude GoStrings AllocationID ResourceManager Key Envelope Ensemble Orchestrator GoTime Deployments Registry.

Open Scope go_scope.
Local Open Scope Z_scope.

(** What the file system answers about a file that is not there is [ErrNotExist], alone or
    wrapped in an error that names the path. *)
Inductive fs_error := ErrNotExist | PathError (e : fs_error) | ErrIO.

Fixpoint Is_NotExist (e : fs_error) : bool :=
  match e with ErrNotExist => true | PathError e => Is_NotExist e | ErrIO => false end.

Inductive log_error :=
| ErrBehavior
| ErrUnmarshal
| ErrStream
| ErrOffset
| ErrAck
| ErrReadChunk
| ErrBeyondEnd
| ErrReadFile
| ErrLogsEmpty
| ErrMessage
| ErrInvoke
| ErrLogsTimeout
| ErrReplied (e : log_error)
| ErrNodeNotFound
| ErrRequester
| ErrAllocName
| ErrDirectory
| ErrWriteLog
| ErrOpenLog
| ErrCancelled
| ErrNoFetch
| ErrOrchestrator (e : reg_error).

#[export] Instance log_error_eq_dec : EqDecision log_error.
Proof. solve_decision. Defined.

(** ** Chunks (dms/behaviors/chunked_transfer.go) *)

Definition DefaultChunkSize : Z := 512 * 1024.
Definition DefaultLogChunkSize : Z := DefaultChunkSize.

Definition CapChunkSize (size maxSize : Z) : Z :=
  if size <=? 0 then maxSize
  else if maxSize <? size then maxSize
  else size.

Definition LogStreamStdout : string := "stdout".
Definition LogStreamStderr : string := "stderr".

Record AllocationLogsRequest := mkLogsRequest {
  lr_AllocName : string;
  lr_Ack : Z;
  lr_Offset : Z;
  lr_MaxBytes : Z;
  lr_Stream : string
}.

Record AllocationLogsResponse := mkLogsResponse {
  lp_Stdout : list byte;
  lp_Stderr : list byte;
  lp_Error : option log_error;
  lp_Offset : Z;
  lp_NextOffset : Z;
  lp_TotalSize : Z;
  lp_EOF : bool;
  lp_Data : list byte;
  lp_Stream : string
}.

Definition logs_failed (e : log_error) : AllocationLogsResponse := mkLogsResponse [] [] (Some e) 0 0 0 false [] "".

(** ** The node that runs the allocation *)

(** What one request sees of a file: its size, whether it opens, whether the seek succeeds,
    and what one read at an offset into a buffer of some length gives. *)
Record FileAccess := mkAccess {
  fa_stat : outcome fs_error Z;
  fa_open : bool;
  fa_seek : bool;
  fa_read : Z → Z → option (list byte);
  fa_ReadFile : outcome fs_error (list byte)
}.

(** The bytes, the size, the next offset and whether the end was reached. *)
Definition readLogChunk (f : FileAccess) (offset maxBytes : Z) : outcome log_error (list byte * Z * Z * bool) :=
  match fa_stat f with
  | Panic => Panic
  | Err e => if Is_NotExist e then Ok ([], 0, offset, true) else Err ErrReadChunk
  | Ok totalSize =>
      if totalSize <? offset then Err ErrBeyondEnd
      else if offset =? totalSize then Ok ([], totalSize, totalSize, true)
      else if negb (fa_open f) then Err ErrReadChunk
      else if negb (fa_seek f) then Err ErrReadChunk
      else
        let remaining := totalSize - offset in
        let toRead := if remaining <? maxBytes then remaining else maxBytes in
        match fa_read f offset toRead with
        | None => Err ErrReadChunk
        | Some data =>
            let nextOffset := s64 (offset + Z.of_nat (length data)) in
            Ok (data, totalSize, nextOffset, totalSize <=? nextOffset)
        end
  end.

Definition ensembleIDFromBehavior (b : string) : outcome log_error string :=
  match Split b "/" !! 3%nat with Some id => Ok id | None => Err ErrBehavior end.

(** The files are found by the elements of their paths. *)
Definition FileSystem : Type := list string → FileAccess.

Definition resultsDir (workDir ensembleID allocName : string) : list string :=
  [workDir; "jobs"; ConstructAllocationID ensembleID allocName].

Definition handleAllocationLogsChunk (fs : FileSystem) (workDir ensembleID : string) (req : AllocationLogsRequest)
    : outcome log_error AllocationLogsResponse :=
  if negb (bool_decide (lr_Stream req = LogStreamStdout)) && negb (bool_decide (lr_Stream req = LogStreamStderr))
  then Err ErrStream
  else if (lr_Offset req <? 0) || (lr_Ack req <? 0) then Err ErrOffset
  else if lr_Offset req <? lr_Ack req then Err ErrAck
  else
    let maxBytes := CapChunkSize (lr_MaxBytes req) DefaultLogChunkSize in
    let logFile := if bool_decide (lr_Stream req = LogStreamStderr) then "stderr.log" else "stdout.log" in
    let? (data, totalSize, nextOffset, eof) :=
      readLogChunk (fs (resultsDir workDir ensembleID (lr_AllocName req) ++ [logFile])) (lr_Offset req) maxBytes in
    Ok (mkLogsResponse [] [] None (lr_Offset req) nextOffset totalSize eof data (lr_Stream req)).

(** The whole files; a missing standard output is tolerated, a missing standard error only
    when the error is not wrapped. *)
Definition handleAllocationLogsFull (fs : FileSystem) (workDir ensembleID : string) (req : AllocationLogsRequest)
    : outcome log_error AllocationLogsResponse :=
  let dir := resultsDir workDir ensembleID (lr_AllocName req) in
  let? stdout :=
    match fa_ReadFile (fs (dir ++ ["stdout.log"])) with
    | Ok b => Ok b
    | Panic => Panic
    | Err e => if Is_NotExist e then Ok [] else Err ErrReadFile
    end in
  let? stderr :=
    match fa_ReadFile (fs (dir ++ ["stderr.log"])) with
    | Ok b => Ok b
    | Panic => Panic
    | Err ErrNotExist => Ok []
    | Err _ => Err ErrReadFile
    end in
  if (length stdout =? 0)%nat && (length stderr =? 0)%nat then Err ErrLogsEmpty
  else Ok (mkLogsResponse stdout stderr None 0 0 0 false [] "").

(** The reply to a request; [None] is a message that does not unmarshal. *)
Definition handleAllocationLogs (fs : FileSystem) (workDir behavior : string) (request : option AllocationLogsRequest)
    : outcome () AllocationLogsResponse :=
  let reply r := match r with Ok resp => Ok resp | Err e => Ok (logs_failed e) | Panic => Panic end in
  match ensembleIDFromBehavior behavior with
  | Ok ensembleID =>
      match request with
      | None => Ok (logs_failed ErrUnmarshal)
      | Some req =>
          if 0 <? lr_MaxBytes req
          then reply (handleAllocationLogsChunk fs workDir ensembleID req)
          else reply (handleAllocationLogsFull fs workDir ensembleID req)
      end
  | Err e => Ok (logs_failed e)
  | Panic => Panic
  end.

(** ** The orchestrator: fetching at once (dms/orchestrator/allocation_logs.go) *)

(** How the exchange of a request and its reply goes. *)
Inductive exchange :=
| MessageFailed
| InvokeFailed
| ReplyTimeout
| ReplyGarbled
| Replied (r : AllocationLogsResponse).

Definition invokeAllocationLogs (x : exchange) : outcome log_error AllocationLogsResponse :=
  match x with
  | MessageFailed => Err ErrMessage
  | InvokeFailed => Err ErrInvoke
  | ReplyTimeout => Err ErrLogsTimeout
  | ReplyGarbled => Err ErrUnmarshal
  | Replied r => Ok r
  end.

Definition allocationLogsBehavior (id : string) : string := "/dms/ensemble/" +:+ (id +:+ "/allocation/logs").

Section fetching.
  Context `{Visit : MapVisit}.

(** The first node that has the allocation; a node without a handle counts as none. *)
Definition allocationLogsTarget (m : EnsembleManifest) (allocName : string) : outcome log_error (Handle * string) :=
  match List.find (λ n, bool_decide (allocName ∈ nmf_Allocations n)) (map snd (visit (map_to_list (mf_Nodes m)))) with
  | None => Err ErrNodeNotFound
  | Some n =>
      if Handle_Empty (nmf_Handle n) then Err ErrNodeNotFound
      else Ok (nmf_Handle n, allocationLogsBehavior (mf_ID m))
  end.

(** A network: how the [k]-th exchange with a handle goes. *)
Definition LogNetwork : Type := nat → Handle → string → AllocationLogsRequest → exchange.

(** The loop over the chunks; [None] when the fuel does not suffice. *)
Fixpoint fetchLoop (fuel : nat) (net : LogNetwork) (k : nat) (name : string) (h : Handle) (behavior stream : string)
    (buf : list byte) (offset ack : Z) : option (outcome log_error (list byte)) :=
  match fuel with
  | O => None
  | S fuel =>
      match invokeAllocationLogs (net k h behavior (mkLogsRequest name ack offset DefaultLogChunkSize stream)) with
      | Panic => Some Panic
      | Err e => Some (Err e)
      | Ok resp =>
          match lp_Error resp with
          | Some e => Some (Err (ErrReplied e))
          | None =>
              let buf := buf ++ lp_Data resp in
              if lp_EOF resp then Some (Ok buf)
              else fetchLoop fuel net (S k) name h behavior stream buf (lp_NextOffset resp) (lp_NextOffset resp)
          end
      end
  end.

Definition fetchAllocationLogStream (fuel : nat) (net : LogNetwork) (name : string) (h : Handle)
    (behavior stream : string) : option (outcome log_error (list byte)) :=
  fetchLoop fuel net 0 name h behavior stream [] 0 0.

(** The two streams, fetched over two networks since the second starts later. *)
Definition GetAllocationLogs (fuel : nat) (net1 net2 : LogNetwork) (m : EnsembleManifest) (name : string)
    : option (outcome log_error AllocationLogsResponse) :=
  match allocationLogsTarget m name with
  | Panic => Some Panic
  | Err e => Some (Err e)
  | Ok (h, behavior) =>
      match fetchAllocationLogStream fuel net1 name h behavior LogStreamStdout with
      | None => None
      | Some Panic => Some Panic
      | Some (Err e) => Some (Err e)
      | Some (Ok stdout) =>
          match fetchAllocationLogStream fuel net2 name h behavior LogStreamStderr with
          | None => None
          | Some Panic => Some Panic
          | Some (Err e) => Some (Err e)
          | Some (Ok stderr) =>
              if (length stdout =? 0)%nat && (length stderr =? 0)%nat then Some (Err ErrLogsEmpty)
              else Some (Ok (mkLogsResponse stdout stderr None 0 0 0 false [] ""))
          end
      end
  end.

End fetching.

(** How the file system writes a whole file: all of it, not at all when the file cannot be
    opened, or, since the file is truncated when it is opened, only the first bytes. *)
Inductive file_write := Written | NotOpened | CutShort (k : nat).

(** Writing what was fetched; a stream that is empty leaves its file as it is.  [mk] and [w]
    are the answers of the file system. *)
Definition logsDir (workDir id allocName : string) : list string := [workDir; "deployments"; id; allocName].

Notation Files := (gmap (list string) (list byte)).

Definition WriteAllocationLogs (mk : bool) (w : list string → file_write) (workDir id allocName : string)
    (stdout stderr : list byte) (files : Files) : outcome log_error (list string) * Files :=
  let allocDir := logsDir workDir id allocName in
  let write name data files :=
    if (0 <? length data)%nat
    then match w (allocDir ++ [name]) with
         | Written => (true, <[allocDir ++ [name] := data]> files)
         | NotOpened => (false, files)
         | CutShort k => (false, <[allocDir ++ [name] := take k data]> files)
         end
    else (true, files) in
  if negb mk then (Err ErrDirectory, files)
  else
    let '(ok, files) := write "stdout.log" stdout files in
    if negb ok then (Err ErrWriteLog, files)
    else
      let '(ok, files) := write "stderr.log" stderr files in
      if negb ok then (Err ErrWriteLog, files) else (Ok allocDir, files).

(** ** The orchestrator: fetching in a goroutine (dms/orchestrator/allocation_logs_job.go) *)

Inductive AllocationLogsJobStatus := JobRunning | JobComplete | JobStopped | JobFailed.

#[export] Instance AllocationLogsJobStatus_eq_dec : EqDecision AllocationLogsJobStatus.
Proof. solve_decision. Defined.

Definition DefaultLogsFollowInterval : Z := 10 * 1000000000.
Definition minLogsFollowInterval : Z := 1000000000.
Definition maxLogsFollowInterval : Z := 5 * 60 * 1000000000.

Record AllocationLogsFetchOpts := mkFetchOpts { fo_Follow : bool; fo_FollowInterval : Z }.

Record AllocationLogsJob := mkLogsJob {
  lj_RequesterDID : string;
  lj_AllocName : string;
  lj_LogsWrittenTo : list string;
  lj_Status : AllocationLogsJobStatus;
  lj_Error : option log_error;
  lj_BytesWritten : Z;
  lj_Follow : bool;
  lj_FollowInterval : Z
}.

Definition set_lj_status j v := mkLogsJob (lj_RequesterDID j) (lj_AllocName j) (lj_LogsWrittenTo j) v (lj_Error j)
  (lj_BytesWritten j) (lj_Follow j) (lj_FollowInterval j).
Definition set_lj_failed j e := mkLogsJob (lj_RequesterDID j) (lj_AllocName j) (lj_LogsWrittenTo j) JobFailed (Some e)
  (lj_BytesWritten j) (lj_Follow j) (lj_FollowInterval j).
Definition add_lj_bytes j n := mkLogsJob (lj_RequesterDID j) (lj_AllocName j) (lj_LogsWrittenTo j) (lj_Status j) (lj_Error j)
  (s64 (lj_BytesWritten j + n)) (lj_Follow j) (lj_FollowInterval j).

Definition logsJobKey (requesterDID allocName : string) : string :=
  requesterDID +:+ (String Ascii.zero "" +:+ allocName).

Definition normalizeFollowInterval (d : Z) : Z :=
  if d <=? 0 then DefaultLogsFollowInterval
  else if d <? minLogsFollowInterval then minLogsFollowInterval
  else if maxLogsFollowInterval <? d then maxLogsFollowInterval
  else d.

(** Where the goroutine is: before it opens the files, at the start of a pass, at the start
    of a stream ([true] is the standard error), before the next chunk of it, waiting for
    the reply, after both streams, and waiting for the next pass.  The number counts the
    bytes of the stream in this pass. *)
Inductive fetch_phase :=
| FStart
| FPass
| FStream (err : bool)
| FChunk (err : bool) (h : Handle) (behavior : string) (n : Z)
| FAsked (err : bool) (h : Handle) (behavior : string) (n : Z)
| FSettle
| FWait
| FDone.

(** A goroutine with its context and what it keeps: the two offsets, and how far it has
    written its two files. *)
Record fetch := mkFetch {
  ft_key : string;
  ft_cancelled : bool;
  ft_phase : fetch_phase;
  ft_alloc : string;
  ft_dir : list string;
  ft_follow : bool;
  ft_off : bool → Z;
  ft_pos : bool → nat;
  ft_sawAny : bool
}.

Definition set_ft_phase g v := mkFetch (ft_key g) (ft_cancelled g) v (ft_alloc g) (ft_dir g) (ft_follow g) (ft_off g) (ft_pos g) (ft_sawAny g).
Definition set_ft_cancelled g := mkFetch (ft_key g) true (ft_phase g) (ft_alloc g) (ft_dir g) (ft_follow g) (ft_off g) (ft_pos g) (ft_sawAny g).

(** A job and the goroutine that its [cancel] ends. *)
Record logsState := mkLogsState {
  ls_jobs : gmap string (AllocationLogsJob * nat);
  ls_fetches : list fetch;
  ls_files : Files
}.

Definition set_ls_jobs s v := mkLogsState v (ls_fetches s) (ls_files s).
Definition set_ls_fetch s i g := mkLogsState (ls_jobs s) (<[i := g]> (ls_fetches s)) (ls_files s).
Definition set_ls_files s v := mkLogsState (ls_jobs s) (ls_fetches s) v.

(** *** The methods *)

Definition StartFetchAllocationLogs (mk : bool) (workDir id requesterDID allocName : string)
    (opts : AllocationLogsFetchOpts) (s : logsState) : outcome log_error AllocationLogsJob * logsState :=
  if bool_decide (requesterDID = "") then (Err ErrRequester, s)
  else if bool_decide (allocName = "") then (Err ErrAllocName, s)
  else
    let key := logsJobKey requesterDID allocName in
    let start :=
      if negb mk then (Err ErrDirectory, s)
      else
        let job := mkLogsJob requesterDID allocName (logsDir workDir id allocName) JobRunning None 0
                     (fo_Follow opts) (normalizeFollowInterval (fo_FollowInterval opts)) in
        (Ok job,
         mkLogsState (<[key := (job, length (ls_fetches s))]> (ls_jobs s))
           (ls_fetches s ++ [mkFetch key false FStart "" [] false (λ _, 0) (λ _, O) false]) (ls_files s)) in
    match ls_jobs s !! key with
    | Some (job, _) => if bool_decide (lj_Status job = JobRunning) then (Ok job, s) else start
    | None => start
    end.

Definition GetFetchAllocationLogsJob (requesterDID allocName : string) (s : logsState) : option AllocationLogsJob :=
  fst <$> ls_jobs s !! logsJobKey requesterDID allocName.

Definition cancelFetch (i : nat) (s : logsState) : logsState :=
  mkLogsState (ls_jobs s) (alter set_ft_cancelled i (ls_fetches s)) (ls_files s).

Definition StopFetchAllocationLogs (requesterDID allocName : string) (s : logsState)
    : outcome log_error AllocationLogsJob * logsState :=
  let key := logsJobKey requesterDID allocName in
  match ls_jobs s !! key with
  | None => (Err ErrNoFetch, s)
  | Some (job, i) =>
      if bool_decide (lj_Status job = JobRunning)
      then
        let job := set_lj_status job JobStopped in
        (Ok job, cancelFetch i (set_ls_jobs s (<[key := (job, i)]> (ls_jobs s))))
      else (Ok job, s)
  end.

(** The goroutine reaches its job by the key: the job may not be the one it was started for. *)
Definition updateLogsJob (f : AllocationLogsJob → AllocationLogsJob) (key : string) (s : logsState) : logsState :=
  set_ls_jobs s (alter (λ ji, (f ji.1, ji.2)) key (ls_jobs s)).

Definition addLogsJobBytesWritten (key : string) (n : Z) := updateLogsJob (λ j, add_lj_bytes j n) key.
Definition setLogsJobComplete (key : string) := updateLogsJob (λ j, set_lj_status j JobComplete) key.
Definition setLogsJobStopped (key : string) := updateLogsJob (λ j, set_lj_status j JobStopped) key.
Definition setLogsJobFailed (key : string) (e : log_error) := updateLogsJob (λ j, set_lj_failed j e) key.

Definition streamName (err : bool) : string := if err then LogStreamStderr else LogStreamStdout.
Definition streamFile (err : bool) : string := if err then "stderr.log" else "stdout.log".

(** A write at a position; what lies between the end and the position is zero. *)
Definition writeAt (pos : nat) (data file : list byte) : list byte :=
  take pos (file ++ replicate pos "000"%byte) ++ data ++ drop (pos + length data) file.

Definition upd {A} (f : bool → A) (b : bool) (v : A) : bool → A := λ b', if bool_decide (b' = b) then v else f b'.

(** *** The goroutine *)

(** What it meets at a step: the files opening, the manifest it looks the node up in, a
    reply with the result of the write ([Some n] is an error after [n] bytes), the timer. *)
Inductive fetch_input :=
| InNone
| InOpen (ok1 ok2 : bool)
| InTarget (m : EnsembleManifest)
| InReply (x : exchange) (w : option nat)
| InTimer.

Definition endFetch (i : nat) (g : fetch) (s : logsState) : logsState := set_ls_fetch s i (set_ft_phase g FDone).

(** An error counts as the end of the context when the context has ended by then. *)
Definition failFetch (i : nat) (g : fetch) (e : log_error) (s : logsState) : logsState :=
  endFetch i g (if ft_cancelled g then setLogsJobStopped (ft_key g) s else setLogsJobFailed (ft_key g) e s).

Definition stopFetch (i : nat) (g : fetch) (s : logsState) : logsState := endFetch i g (setLogsJobStopped (ft_key g) s).

Section goroutine.
  Context `{Visit : MapVisit}.

Definition openLogs (ok1 ok2 : bool) (i : nat) (g : fetch) (s : logsState) : logsState :=
  match ls_jobs s !! ft_key g with
  | None => endFetch i g s
  | Some (job, _) =>
      let dir := lj_LogsWrittenTo job in
      if negb ok1 then endFetch i g (setLogsJobFailed (ft_key g) ErrOpenLog s)
      else
        let s := set_ls_files s (<[dir ++ [streamFile false] := []]> (ls_files s)) in
        if negb ok2 then endFetch i g (setLogsJobFailed (ft_key g) ErrOpenLog s)
        else
          let s := set_ls_files s (<[dir ++ [streamFile true] := []]> (ls_files s)) in
          set_ls_fetch s i (mkFetch (ft_key g) (ft_cancelled g) FPass (lj_AllocName job) dir (lj_Follow job)
                              (ft_off g) (ft_pos g) (ft_sawAny g))
  end.

(** The end of a stream without error. *)
Definition drained (err : bool) (n : Z) (g : fetch) : fetch :=
  mkFetch (ft_key g) (ft_cancelled g) (if err then FSettle else FStream true) (ft_alloc g) (ft_dir g) (ft_follow g)
    (ft_off g) (ft_pos g) (ft_sawAny g || (0 <? n)).

(** The bytes that a write puts into the file of the stream. *)
Definition writeLog (err : bool) (data : list byte) (g : fetch) (s : logsState) : logsState :=
  set_ls_files s (alter (writeAt (ft_pos g err) data) (ft_dir g ++ [streamFile err]) (ls_files s)).

Definition onReply (err : bool) (h : Handle) (behavior : string) (n : Z) (x : exchange) (w : option nat) (i : nat) (g : fetch)
    (s : logsState) : logsState :=
  match invokeAllocationLogs x with
  | Panic => s
  | Err e => failFetch i g e s
  | Ok resp =>
      match lp_Error resp with
      | Some e => failFetch i g (ErrReplied e) s
      | None =>
          let data := lp_Data resp in
          let len := Z.of_nat (length data) in
          let next pos :=
            mkFetch (ft_key g) (ft_cancelled g) (FChunk err h behavior (n + len)) (ft_alloc g) (ft_dir g) (ft_follow g)
              (upd (ft_off g) err (lp_NextOffset resp)) (upd (ft_pos g) err pos) (ft_sawAny g) in
          let goOn s pos :=
            if lp_EOF resp then set_ls_fetch s i (drained err (n + len) (next pos)) else set_ls_fetch s i (next pos) in
          if (0 <? length data)%nat
          then match w with
          | Some k => failFetch i g ErrWriteLog (writeLog err (take k data) g s)
          | None => goOn (addLogsJobBytesWritten (ft_key g) len (writeLog err data g s)) (ft_pos g err + length data)%nat
          end
          else goOn s (ft_pos g err)
      end
  end.

(** One step of [runFetchAllocationLogs] with [drainLogStreamToFile]. *)
Definition fetch_step (inp : fetch_input) (i : nat) (s : logsState) : option logsState :=
  match ls_fetches s !! i with
  | None => None
  | Some g =>
      match ft_phase g, inp with
      | FStart, InOpen ok1 ok2 => Some (openLogs ok1 ok2 i g s)
      | FPass, InNone => Some (if ft_cancelled g then stopFetch i g s else set_ls_fetch s i (set_ft_phase g (FStream false)))
      | FStream err, InTarget m =>
          Some (match allocationLogsTarget m (ft_alloc g) with
                | Ok (h, behavior) => set_ls_fetch s i (set_ft_phase g (FChunk err h behavior 0))
                | Err e => failFetch i g e s
                | Panic => s
                end)
      | FChunk err h behavior n, InNone =>
          Some (if ft_cancelled g then stopFetch i g s else set_ls_fetch s i (set_ft_phase g (FAsked err h behavior n)))
      | FAsked err h behavior n, InReply x w => Some (onReply err h behavior n x w i g s)
      | FSettle, InNone =>
          Some (if ft_follow g then set_ls_fetch s i (set_ft_phase g FWait)
                else if negb (ft_sawAny g) then endFetch i g (setLogsJobFailed (ft_key g) ErrLogsEmpty s)
                else endFetch i g (setLogsJobComplete (ft_key g) s))
      | FWait, InTimer => Some (set_ls_fetch s i (set_ft_phase g FPass))
      | FWait, InNone => if ft_cancelled g then Some (stopFetch i g s) else None
      | _, _ => None
      end
  end.

End goroutine.

(** ** The node of the orchestrator (dms/node/behaviors_deployment.go) *)

(** The orchestrators with the state of their fetches, and the answers of the file system. *)
Record LogsNode := mkLogsNode {
  ln_registry : basicRegistry;
  ln_logs : gmap string logsState
}.

Definition logsOf (n : LogsNode) (id : string) : logsState := default (mkLogsState ∅ [] ∅) (ln_logs n !! id).
Definition set_logsOf (n : LogsNode) (id : string) (s : logsState) : LogsNode :=
  mkLogsNode (ln_registry n) (<[id := s]> (ln_logs n)).

Section handlers.
  Context `{Visit : MapVisit}.

(** The logs are fetched and written at once. *)
Definition handleDeploymentLogs (fuel : nat) (net1 net2 : LogNetwork) (mk : bool) (w : list string → file_write) (workDir : string)
    (request : option (string * string)) (n : LogsNode) : option (outcome log_error (list string) * LogsNode) :=
  match request with
  | None => Some (Err ErrUnmarshal, n)
  | Some (ensembleID, allocName) =>
      match GetOrchestrator (ln_registry n) ensembleID with
      | Panic => Some (Panic, n)
      | Err e => Some (Err (ErrOrchestrator e), n)
      | Ok o =>
          match GetAllocationLogs fuel net1 net2 (o_manifest (e_orch o)) allocName with
          | None => None
          | Some Panic => Some (Panic, n)
          | Some (Err e) => Some (Err e, n)
          | Some (Ok data) =>
              let s := logsOf n ensembleID in
              let '(r, files) := WriteAllocationLogs mk w workDir (o_id (e_orch o)) allocName
                                   (lp_Stdout data) (lp_Stderr data) (ls_files s) in
              Some (r, set_logsOf n ensembleID (set_ls_files s files))
          end
      end
  end.

Record LogsAsyncRequest := mkAsyncRequest {
  da_EnsembleID : string;
  da_AllocationName : string;
  da_Follow : bool;
  da_FollowIntervalSeconds : Z
}.

(** The replies carry the job. *)
Definition handleDeploymentLogsAsync (mk : bool) (workDir from : string) (request : option LogsAsyncRequest) (n : LogsNode)
    : outcome log_error AllocationLogsJob * LogsNode :=
  match request with
  | None => (Err ErrUnmarshal, n)
  | Some r =>
      match GetOrchestrator (ln_registry n) (da_EnsembleID r) with
      | Panic => (Panic, n)
      | Err e => (Err (ErrOrchestrator e), n)
      | Ok o =>
          let interval := if 0 <? da_FollowIntervalSeconds r then s64 (da_FollowIntervalSeconds r * 1000000000) else 0 in
          let '(res, s) := StartFetchAllocationLogs mk workDir (o_id (e_orch o)) from (da_AllocationName r)
                             (mkFetchOpts (da_Follow r) interval) (logsOf n (da_EnsembleID r)) in
          (res, set_logsOf n (da_EnsembleID r) s)
      end
  end.

Definition handleDeploymentLogsAsyncStatus (from : string) (request : option (string * string)) (n : LogsNode)
    : outcome log_error AllocationLogsJob :=
  match request with
  | None => Err ErrUnmarshal
  | Some (ensembleID, allocName) =>
      match GetOrchestrator (ln_registry n) ensembleID with
      | Panic => Panic
      | Err e => Err (ErrOrchestrator e)
      | Ok _ =>
          match GetFetchAllocationLogsJob from allocName (logsOf n ensembleID) with
          | None => Err ErrNoFetch
          | Some job => Ok job
          end
      end
  end.

Definition handleDeploymentLogsAsyncStop (from : string) (request : option (string * string)) (n : LogsNode)
    : outcome log_error AllocationLogsJob * LogsNode :=
  match request with
  | None => (Err ErrUnmarshal, n)
  | Some (ensembleID, allocName) =>
      match GetOrchestrator (ln_registry n) ensembleID with
      | Panic => (Panic, n)
      | Err e => (Err (ErrOrchestrator e), n)
      | Ok _ =>
          let '(res, s) := StopFetchAllocationLogs from allocName (logsOf n ensembleID) in
          (res, set_logsOf n ensembleID s)
      end
  end.

End handlers.
