(* ===== verification/AllocationLogsProps.v ===== *)
(** * Properties of the logs of allocations

    A fetch against a node that has the file returns the file, byte for byte, in as many
    chunks as it takes.  Under every interleaving of users, goroutines and an allocation
    that prints, what an orchestrator has written is what was printed, up to holes that a
    second fetch leaves; a fetch that is alone leaves none. *)

From Stdlib Require Import Ascii Strings.Byte.
From S2P Require Import Prelude GoStrings AllocationID ResourceManager Key Envelope Ensemble Orchestrator GoTime Deployments Registry AllocationLogs.

Local Open Scope Z_scope.

(** ** One chunk *)

(** A file that is not written into otherwise than at its end: its size when the request
    asks for it, and reads that give at least one byte of it. *)
Definition serves (c : list byte) (f : FileAccess) : Prop :=
  fa_stat f = Ok (Z.of_nat (length c)) ∧ fa_open f = true ∧ fa_seek f = true ∧
  ∀ off n, 0 ≤ off < Z.of_nat (length c) → 0 < n →
    ∃ k, (0 < k)%nat ∧ Z.of_nat k ≤ n ∧ fa_read f off n = Some (take k (drop (Z.to_nat off) c)).

(** The file serves its content, or it is missing and the content is empty. *)
Definition holds (c : list byte) (f : FileAccess) : Prop :=
  Z.of_nat (length c) < 2 ^ 63 ∧
  (serves c f ∨ c = [] ∧ ∃ e, fa_stat f = Err e ∧ Is_NotExist e = true).

Lemma readLogChunk_holds c f off n :
  holds c f → (off ≤ length c)%nat → 0 < n →
  ∃ k, (off + k ≤ length c)%nat ∧ (off < length c → 0 < k)%nat ∧
    ∃ total, readLogChunk f (Z.of_nat off) n =
      Ok (take k (drop off c), total, Z.of_nat (off + k), bool_decide (off + k = length c)%nat).
Proof.
  intros [Hsz Hc] Hoff Hn. unfold readLogChunk. destruct Hc as [(Hst & Hop & Hsk & Hrd)|(-> & e & Hst & He)].
  - rewrite Hst. rewrite (proj2 (Z.ltb_ge _ _)) by lia. destruct (Z.eqb_spec (Z.of_nat off) (Z.of_nat (length c))) as [E|E].
    + exists O. split; [lia|]. split; [lia|]. eexists. rewrite take_0, bool_decide_true by lia. repeat f_equal. lia.
    + rewrite Hop, Hsk. simpl. set (m := if _ <? n then _ else n).
      assert (0 < m ≤ Z.of_nat (length c) - Z.of_nat off).
      { unfold m. destruct (Z.ltb_spec (Z.of_nat (length c) - Z.of_nat off) n); lia. }
      destruct (Hrd (Z.of_nat off) m) as (k & Hk & Hkm & ->); [lia..|]. rewrite Nat2Z.id.
      exists k. split; [lia|]. split; [lia|]. eexists. rewrite length_take, length_drop.
      replace (k `min` (length c - off))%nat with k by lia. rewrite s64_small by (unfold is_s64; lia).
      repeat f_equal; [lia|]. destruct (Z.leb_spec (Z.of_nat (length c)) (Z.of_nat off + Z.of_nat k));
        [rewrite bool_decide_true by lia|rewrite bool_decide_false by lia]; done.
  - rewrite Hst, He. simpl in *. exists O. split; [lia|]. split; [lia|]. eexists.
    rewrite take_0, bool_decide_true by lia. repeat f_equal. lia.
Qed.

(** ** The behaviour *)

Lemma ensembleIDFromBehavior_exact id :
  Contains id "/" = false → ensembleIDFromBehavior (allocationLogsBehavior id) = Ok id.
Proof.
  intros Hid. unfold ensembleIDFromBehavior, allocationLogsBehavior.
  change ("/dms/ensemble/" +:+ ?x) with ("" +:+ ("/" +:+ ("dms" +:+ ("/" +:+ ("ensemble" +:+ ("/" +:+ x)))))).
  rewrite 3!(Split_app "/"%char) by reflexivity.
  change (id +:+ "/allocation/logs") with (id +:+ ("/" +:+ "allocation/logs")).
  by rewrite Split_app by done.
Qed.

(** How an exchange with a node goes that receives the request. *)
Definition nodeReply (fs : FileSystem) (workDir behavior : string) (req : AllocationLogsRequest) : exchange :=
  match handleAllocationLogs fs workDir behavior (Some req) with Ok r => Replied r | _ => ReplyTimeout end.

Definition remotePath (workDir id name : string) (err : bool) : list string :=
  resultsDir workDir id name ++ [streamFile err].

Lemma nodeReply_holds fs workDir id name err c off :
  Contains id "/" = false → holds c (fs (remotePath workDir id name err)) → (off ≤ length c)%nat →
  ∃ k total, (off + k ≤ length c)%nat ∧ (off < length c → 0 < k)%nat ∧
    nodeReply fs workDir (allocationLogsBehavior id)
      (mkLogsRequest name (Z.of_nat off) (Z.of_nat off) DefaultLogChunkSize (streamName err)) =
    Replied (mkLogsResponse [] [] None (Z.of_nat off) (Z.of_nat (off + k)) total
      (bool_decide (off + k = length c)%nat) (take k (drop off c)) (streamName err)).
Proof.
  intros Hid Hc Hoff. destruct (readLogChunk_holds c _ off DefaultLogChunkSize Hc Hoff) as (k & Hk & Hk0 & total & Hr); [done|].
  exists k, total. split; [done|]. split; [done|]. unfold nodeReply, handleAllocationLogs.
  rewrite ensembleIDFromBehavior_exact by done. cbn [lr_MaxBytes].
  change (0 <? DefaultLogChunkSize) with true. cbv iota beta. unfold handleAllocationLogsChunk. cbn [lr_Stream lr_Offset lr_Ack lr_AllocName lr_MaxBytes].
  rewrite (proj2 (Z.ltb_ge (Z.of_nat off) 0)), Z.ltb_irrefl by lia.
  change (CapChunkSize DefaultLogChunkSize DefaultLogChunkSize) with DefaultLogChunkSize.
  unfold remotePath, streamFile in Hr. destruct err; simpl in *; by rewrite Hr.
Qed.

(** ** Fetching at once *)

Section fetch_at_once.
  Context (workDir id name : string) (h : Handle) (err : bool) (c : list byte) (net : LogNetwork) (fs : nat → FileSystem).
  Context (Hid : Contains id "/" = false).
  Context (Hnet : ∀ k req, net k h (allocationLogsBehavior id) req = nodeReply (fs k) workDir (allocationLogsBehavior id) req).
  Context (Hfs : ∀ k, holds c (fs k (remotePath workDir id name err))).

Lemma fetchLoop_exact fuel k off :
  (off ≤ length c)%nat → (length c - off < fuel)%nat →
  fetchLoop fuel net k name h (allocationLogsBehavior id) (streamName err) (take off c) (Z.of_nat off) (Z.of_nat off) = Some (Ok c).
Proof.
  revert k off. induction fuel as [|fuel IH]; intros k off Hoff Hf; [lia|]. cbn [fetchLoop]. rewrite Hnet.
  destruct (nodeReply_holds (fs k) workDir id name err c off Hid (Hfs k) Hoff) as (n & total & Hn & Hn0 & ->).
  cbn [invokeAllocationLogs lp_Error lp_Data lp_EOF lp_NextOffset]. rewrite take_take_drop.
  case_bool_decide as E; [by rewrite E, take_ge by lia|]. apply IH; lia.
Qed.
End fetch_at_once.

(** C13: against a node that keeps the log of an allocation, however short the single reads
    are, fetching a stream ends after at most one exchange per byte and one more, and
    returns the log exactly; a log that is missing is an empty one. *)
Theorem fetched_log_exact workDir id name h err c (net : LogNetwork) (fs : nat → FileSystem) fuel :
  Contains id "/" = false →
  (∀ k req, net k h (allocationLogsBehavior id) req = nodeReply (fs k) workDir (allocationLogsBehavior id) req) →
  (∀ k, holds c (fs k (remotePath workDir id name err))) →
  (length c < fuel)%nat →
  fetchAllocationLogStream fuel net name h (allocationLogsBehavior id) (streamName err) = Some (Ok c).
Proof.
  intros Hid Hnet Hfs Hf. unfold fetchAllocationLogStream.
  apply (fetchLoop_exact workDir id name h err c net fs Hid Hnet Hfs fuel 0 0); lia.
Qed.

(** A file that gives [n] bytes at a time. *)
Definition slowFile (n : nat) (c : list byte) : FileAccess :=
  mkAccess (Ok (Z.of_nat (length c))) true true
    (λ off m, Some (take (n `min` Z.to_nat m) (drop (Z.to_nat off) c))) (Ok c).

Lemma slowFile_holds n c : (0 < n)%nat → Z.of_nat (length c) < 2 ^ 63 → holds c (slowFile n c).
Proof.
  intros Hn Hl. split; [done|]. left. do 3 (split; [done|]). intros off m Ho Hm.
  exists (n `min` Z.to_nat m)%nat. split; [lia|]. split; [lia|done].
Qed.

Definition some_log : list byte := ["104"; "101"; "108"; "108"; "111"]%byte.
Definition some_node : Handle := mkHandle "id" (mkDID "did:key:a") (mkAddress "host" "inbox").

Lemma fetched_log_exact_witness :
  fetchAllocationLogStream 6 (λ _ _ b req, nodeReply (λ _, slowFile 2 some_log) "/w" b req) "web" some_node
    (allocationLogsBehavior "e1") "stdout" = Some (Ok some_log).
Proof.
  apply (fetched_log_exact "/w" "e1" "web" some_node false some_log _ (λ _ _, slowFile 2 some_log) 6); try done.
  - intros _. apply slowFile_holds; [lia|done].
  - simpl. lia.
Defined.

(** A request for the whole files fails for an allocation that has printed nothing to its
    standard error, as the system reports a missing file with its path. *)
Theorem whole_logs_need_stderr (fs : FileSystem) workDir id req e :
  fa_ReadFile (fs (remotePath workDir id (lr_AllocName req) true)) = Err (PathError e) →
  is_ok (handleAllocationLogsFull fs workDir id req) = false.
Proof.
  intros Hs. unfold handleAllocationLogsFull. unfold remotePath in Hs. simpl in *. rewrite Hs.
  destruct (fa_ReadFile (fs ([workDir; "jobs"; ConstructAllocationID id (lr_AllocName req)] ++ ["stdout.log"]))) as [b|e1|] eqn:E; simpl in E; rewrite E; [done| |done].
  by destruct (Is_NotExist e1).
Qed.

(** The interval between two polls is within a second and five minutes. *)
Theorem follow_interval_bounds d :
  minLogsFollowInterval ≤ normalizeFollowInterval d ≤ maxLogsFollowInterval.
Proof.
  unfold normalizeFollowInterval, DefaultLogsFollowInterval, minLogsFollowInterval, maxLogsFollowInterval.
  destruct (Z.leb_spec d 0); [lia|]. destruct (Z.ltb_spec d 1000000000); [lia|].
  destruct (Z.ltb_spec (5 * 60 * 1000000000) d); lia.
Qed.

(** ** Fetching in goroutines *)

(** A local log says nothing else than the log of the node: each byte is the one at its
    place, or a zero where another fetch has truncated the file. *)
Definition faithful (file c : list byte) : Prop :=
  (length file ≤ length c)%nat ∧ ∀ i b, file !! i = Some b → b = "000"%byte ∨ c !! i = Some b.

Lemma faithful_prefix file c : file `prefix_of` c → faithful file c.
Proof. intros Hp. split; [by apply prefix_length|]. intros i b Hb. right. by eapply prefix_lookup_Some. Qed.

Lemma faithful_app file c d : faithful file c → faithful file (c ++ d).
Proof.
  intros [Hl Hf]. split; [rewrite length_app; lia|]. intros i b Hb. destruct (Hf i b Hb) as [|H]; [by left|right].
  by apply lookup_app_l_Some.
Qed.

Lemma length_writeAt pos data file :
  length (writeAt pos data file) = ((pos + length data) `max` length file)%nat.
Proof. unfold writeAt. rewrite !length_app, length_take, length_app, length_replicate, length_drop. lia. Qed.

Lemma faithful_writeAt pos k file c :
  faithful file c → (pos + k ≤ length c)%nat → faithful (writeAt pos (take k (drop pos c)) file) c.
Proof.
  intros [Hl Hf] Hk. assert (Hd : length (take k (drop pos c)) = k) by (rewrite length_take, length_drop; lia).
  split; [rewrite length_writeAt, Hd; lia|]. intros i b. unfold writeAt.
  assert (Ht : length (take pos (file ++ replicate pos "000"%byte)) = pos)
    by (rewrite length_take, length_app, length_replicate; lia).
  rewrite lookup_app_Some, Ht. intros [Hb|[Hi Hb]].
  - apply lookup_take_Some in Hb as [Hb _]. apply lookup_app_Some in Hb as [Hb|[_ Hb]]; [by apply Hf|].
    apply lookup_replicate in Hb as [-> _]. by left.
  - rewrite lookup_app_Some, Hd in Hb. destruct Hb as [Hb|[Hi' Hb]].
    + right. apply lookup_take_Some in Hb as [Hb _]. rewrite lookup_drop in Hb. rewrite <- Hb. f_equal. lia.
    + rewrite lookup_drop in Hb. apply Hf. rewrite <- Hb. f_equal. lia.
Qed.

(** At the end of the file a write appends. *)
Lemma writeAt_end k pos c :
  (pos + k ≤ length c)%nat → writeAt pos (take k (drop pos c)) (take pos c) = take (pos + k) c.
Proof.
  intros Hk. unfold writeAt. rewrite (take_app_le (take pos c)) by (rewrite length_take; lia). rewrite take_take.
  rewrite (drop_ge (take pos c)) by (rewrite !length_take, length_drop; lia).
  rewrite app_nil_r, Nat.min_id. apply take_take_drop.
Qed.

Section world.
  Context `{Visit : MapVisit} (workDir nodeDir id : string) (sync : bool).

(** The fetches of an orchestrator and the logs on the nodes, by allocation and stream. *)
Record world := mkWorld { wd_logs : logsState; wd_remote : string → bool → list byte }.

Definition localPath (name : string) (err : bool) : list string := logsDir workDir id name ++ [streamFile err].

Definition print (name : string) (err : bool) (data : list byte) (R : string → bool → list byte) : string → bool → list byte :=
  λ n e, if bool_decide (n = name ∧ e = err) then R n e ++ data else R n e.

(** A reply is a failure or comes from a node that holds the log. *)
Definition reply_ok (R : string → bool → list byte) (g : fetch) (err : bool) (behavior : string) (x : exchange) : Prop :=
  (∀ r, x ≠ Replied r) ∨
  ∃ fs, holds (R (ft_alloc g) err) (fs (remotePath nodeDir id (ft_alloc g) err)) ∧
    x = nodeReply fs nodeDir behavior
          (mkLogsRequest (ft_alloc g) (ft_off g err) (ft_off g err) DefaultLogChunkSize (streamName err)).

Definition input_ok (w : world) (i : nat) (inp : fetch_input) : Prop :=
  match inp with
  | InTarget m => mf_ID m = id
  | InReply x _ =>
      ∀ g err h behavior n, ls_fetches (wd_logs w) !! i = Some g → ft_phase g = FAsked err h behavior n →
        reply_ok (wd_remote w) g err behavior x
  | _ => True
  end.

(** The allocation prints, users start and stop fetches or have the logs written at once
    (when [sync] allows it), contexts end, goroutines step. *)
Inductive world_step : world → world → Prop :=
| step_print w name err data : world_step w (mkWorld (wd_logs w) (print name err data (wd_remote w)))
| step_startFetch w mk r name opts :
    world_step w (mkWorld (StartFetchAllocationLogs mk workDir id r name opts (wd_logs w)).2 (wd_remote w))
| step_stopFetch w r name : world_step w (mkWorld (StopFetchAllocationLogs r name (wd_logs w)).2 (wd_remote w))
| step_ctxDone w i : world_step w (mkWorld (cancelFetch i (wd_logs w)) (wd_remote w))
| step_writeLogs w mk ok name k1 k2 : sync = true →
    world_step w (mkWorld (set_ls_files (wd_logs w)
      (WriteAllocationLogs mk ok workDir id name (take k1 (wd_remote w name false)) (take k2 (wd_remote w name true))
         (ls_files (wd_logs w))).2) (wd_remote w))
| step_fetch w i inp s : input_ok w i inp → fetch_step inp i (wd_logs w) = Some s → world_step w (mkWorld s (wd_remote w)).

Inductive world_reachable : world → Prop :=
| world_start : world_reachable (mkWorld (mkLogsState ∅ [] ∅) (λ _ _, []))
| world_next w w' : world_reachable w → world_step w w' → world_reachable w'.

(** *** The invariant *)

Implicit Types R : string → bool → list byte.

Definition jobs_ok (jobs : gmap string (AllocationLogsJob * nat)) : Prop :=
  ∀ key job i, jobs !! key = Some (job, i) → lj_LogsWrittenTo job = logsDir workDir id (lj_AllocName job).

Definition files_ok R (files : Files) : Prop :=
  ∀ name err file, files !! localPath name err = Some file → faithful file (R name err).

(** The offset of an open fetch is how far it has written, and within the log. *)
Definition opened_ok R (g : fetch) : Prop :=
  ft_dir g = logsDir workDir id (ft_alloc g) ∧
  ∀ err, ft_off g err = Z.of_nat (ft_pos g err) ∧ (ft_pos g err ≤ length (R (ft_alloc g) err))%nat.

Definition fetch_ok R (g : fetch) : Prop :=
  match ft_phase g with
  | FStart => ∀ err, ft_off g err = 0 ∧ ft_pos g err = O
  | FDone => True
  | FChunk _ _ b _ | FAsked _ _ b _ => b = allocationLogsBehavior id ∧ opened_ok R g
  | _ => opened_ok R g
  end.

(** What the only fetch there is has left in the files. *)
Definition sole_ok R (files : Files) (g : fetch) : Prop :=
  match ft_phase g with
  | FStart => files = ∅
  | FDone => ∀ name err file, files !! localPath name err = Some file → file `prefix_of` R name err
  | _ => ∀ name err file, files !! localPath name err = Some file → name = ft_alloc g ∧ file = take (ft_pos g err) (R name err)
  end.

Definition logs_ok R (s : logsState) : Prop :=
  jobs_ok (ls_jobs s) ∧ files_ok R (ls_files s) ∧ (∀ i g, ls_fetches s !! i = Some g → fetch_ok R g) ∧
  (sync = false → match ls_fetches s with [] => ls_files s = ∅ | [g] => sole_ok R (ls_files s) g | _ => True end).

Lemma localPath_inj n e n' e' : localPath n e = localPath n' e' → n = n' ∧ e = e'.
Proof. unfold localPath, logsDir. simpl. intros [= -> E]. by destruct e, e'. Qed.

(** A step changes one fetch, the jobs and the files. *)
Lemma logs_ok_set R s i g jobs g' files :
  logs_ok R s → ls_fetches s !! i = Some g → jobs_ok jobs → files_ok R files → fetch_ok R g' →
  (sole_ok R (ls_files s) g → sole_ok R files g') →
  logs_ok R (mkLogsState jobs (<[i := g']> (ls_fetches s)) files).
Proof.
  intros (_ & _ & Hg & Hs) Hi Hj Hf Hg' Hs'. split; [done|]. split; [done|]. simpl. split.
  - intros j g0. destruct (decide (i = j)) as [->|Hne]; [|by rewrite list_lookup_insert_ne by done; apply Hg].
    rewrite list_lookup_insert_eq by (by eapply lookup_lt_Some). by intros [= <-].
  - intros Hsync. specialize (Hs Hsync). destruct (ls_fetches s) as [|g0 [|? ?]]; [done| |by destruct i as [|[|i]]].
    destruct i; simplify_eq/=. by apply Hs'.
Qed.

Lemma jobs_ok_update f key s :
  (∀ j, lj_LogsWrittenTo (f j) = lj_LogsWrittenTo j ∧ lj_AllocName (f j) = lj_AllocName j) →
  jobs_ok (ls_jobs s) → jobs_ok (ls_jobs (updateLogsJob f key s)).
Proof.
  intros Hf Hj k job i. simpl. rewrite lookup_alter_Some. intros [(-> & [j0 i0] & Hl & E)|[_ Hl]]; [|by eapply Hj].
  simplify_eq/=. destruct (Hf j0) as [-> ->]. by eapply Hj.
Qed.

Definition prefixes R (files : Files) : Prop :=
  ∀ name err file, files !! localPath name err = Some file → file `prefix_of` R name err.

Lemma sole_prefixes R files g : sole_ok R files g → prefixes R files.
Proof.
  unfold sole_ok, prefixes. intros Hs name err file Hf.
  destruct (ft_phase g); try (destruct (Hs _ _ _ Hf) as [_ ->]; apply prefix_take).
  - subst. by destruct (lookup_empty_Some (M:=gmap (list string)) (localPath name err) file).
  - by apply Hs.
Qed.

Lemma end_ok R s s' i g :
  logs_ok R s → ls_fetches s !! i = Some g → ls_fetches s' = ls_fetches s → jobs_ok (ls_jobs s') →
  files_ok R (ls_files s') → (prefixes R (ls_files s) → prefixes R (ls_files s')) → logs_ok R (endFetch i g s').
Proof.
  intros Hok Hi He Hj Hf Hs. unfold endFetch, set_ls_fetch. rewrite He. eapply logs_ok_set; [done..|].
  intros Hso. by eapply Hs, sole_prefixes.
Qed.

Lemma fail_ok R s s' i g e :
  logs_ok R s → ls_fetches s !! i = Some g → ls_fetches s' = ls_fetches s → jobs_ok (ls_jobs s') →
  files_ok R (ls_files s') → (sole_ok R (ls_files s) g → prefixes R (ls_files s')) → logs_ok R (failFetch i g e s').
Proof.
  intros Hok Hi He Hj Hf Hs. unfold failFetch, endFetch, set_ls_fetch.
  destruct (ft_cancelled g); simpl; rewrite He.
  - eapply (logs_ok_set R s i g (ls_jobs (setLogsJobStopped (ft_key g) s'))); [done|done|by apply jobs_ok_update|done..].
  - eapply (logs_ok_set R s i g (ls_jobs (setLogsJobFailed (ft_key g) e s'))); [done|done|by apply jobs_ok_update|done..].
Qed.

Lemma fail_same R s i g e : logs_ok R s → ls_fetches s !! i = Some g → logs_ok R (failFetch i g e s).
Proof. intros Hok Hi. pose proof Hok as (? & ? & _). eapply fail_ok; [done..|apply sole_prefixes]. Qed.

Lemma stop_ok R s i g : logs_ok R s → ls_fetches s !! i = Some g → logs_ok R (stopFetch i g s).
Proof. intros Hok Hi. pose proof Hok as (? & ? & _). eapply end_ok; try done. by apply jobs_ok_update. Qed.

(** Going on without touching files or offsets. *)
Lemma phase_ok R s i g ph :
  logs_ok R s → ls_fetches s !! i = Some g → fetch_ok R (set_ft_phase g ph) →
  (∀ F, sole_ok R F g → sole_ok R F (set_ft_phase g ph)) → logs_ok R (set_ls_fetch s i (set_ft_phase g ph)).
Proof. intros Hok Hi Hf Hs. pose proof Hok as (? & ? & _). eapply logs_ok_set; [done..|apply Hs]. Qed.

Lemma openLogs_ok R s i g ok1 ok2 :
  logs_ok R s → ls_fetches s !! i = Some g → ft_phase g = FStart → logs_ok R (openLogs ok1 ok2 i g s).
Proof.
  intros Hok Hi Hph. pose proof Hok as (Hj & Hf & Hg & _). unfold openLogs.
  destruct (ls_jobs s !! ft_key g) as [[job j]|] eqn:Hk; [|by eapply end_ok].
  pose proof (Hj _ _ _ Hk) as Hdir. rewrite Hdir.
  assert (Hins : ∀ F e, files_ok R F → files_ok R (<[logsDir workDir id (lj_AllocName job) ++ [streamFile e] := []]> F)).
  { intros F e HF name err file. rewrite lookup_insert_Some. intros [[_ <-]|[_ H]]; [|by apply HF].
    apply faithful_prefix, prefix_nil. }
  assert (Hpre : ∀ F e, prefixes R F → prefixes R (<[logsDir workDir id (lj_AllocName job) ++ [streamFile e] := []]> F)).
  { intros F e HF name err file. rewrite lookup_insert_Some. intros [[_ <-]|[_ H]]; [apply prefix_nil|by apply HF]. }
  destruct ok1; cbn [negb]; [|eapply end_ok; try done; by apply jobs_ok_update].
  destruct ok2; cbn [negb]; [|eapply end_ok; try done; [by apply jobs_ok_update|by apply (Hins _ false)|by apply (Hpre _ false)]].
  pose proof (Hg _ _ Hi) as Hg0. unfold fetch_ok in Hg0. rewrite Hph in Hg0.
  eapply (logs_ok_set R s i g); [done..|by apply (Hins _ true), (Hins _ false)| |]; simpl.
  - split; [done|]. intros err. destruct (Hg0 err) as [H1 H2]. simpl. rewrite H1, H2. split; [done|lia].
  - unfold sole_ok. rewrite Hph. simpl. intros -> name err file. rewrite !lookup_insert_Some, lookup_empty.
    destruct (Hg0 err) as [_ Hp]. rewrite Hp, take_0.
    intros [[Hl <-]|[_ [[Hl <-]|[_ [=]]]]]; unfold localPath in Hl; by simplify_eq/=.
Qed.

(** What a write of bytes at the place of the fetch does to the files. *)
Lemma writeLog_ok R s g err k :
  files_ok R (ls_files s) → opened_ok R g → (ft_pos g err + k ≤ length (R (ft_alloc g) err))%nat →
  files_ok R (ls_files (writeLog err (take k (drop (ft_pos g err) (R (ft_alloc g) err))) g s)).
Proof.
  intros HF [Hdir _] Hk name e file. unfold writeLog. cbn [ls_files set_ls_files]. rewrite Hdir, lookup_alter_Some.
  intros [(Hl & f0 & Hf0 & ->)|[_ H]]; [|by apply HF].
  apply localPath_inj in Hl as [<- <-]. apply faithful_writeAt; [by apply HF|done].
Qed.

Definition own_files R (files : Files) (g : fetch) (pos : bool → nat) : Prop :=
  ∀ name err file, files !! localPath name err = Some file → name = ft_alloc g ∧ file = take (pos err) (R name err).

Lemma writeLog_own R s g err k :
  own_files R (ls_files s) g (ft_pos g) → opened_ok R g → (ft_pos g err + k ≤ length (R (ft_alloc g) err))%nat →
  own_files R (ls_files (writeLog err (take k (drop (ft_pos g err) (R (ft_alloc g) err))) g s)) g
    (upd (ft_pos g) err (ft_pos g err + k)%nat).
Proof.
  intros HF [Hdir _] Hk name e file. unfold writeLog, upd. cbn [ls_files set_ls_files]. rewrite Hdir, lookup_alter_Some.
  intros [(Hl & f0 & Hf0 & ->)|[Hne H]].
  - apply localPath_inj in Hl as [<- <-]. destruct (HF _ _ _ Hf0) as [_ ->]. split; [done|].
    rewrite bool_decide_true by done. by apply writeAt_end.
  - destruct (HF _ _ _ H) as [-> ->]. split; [done|]. rewrite bool_decide_false; [done|]. by intros ->.
Qed.

Lemma own_prefixes R files g pos : own_files R files g pos → prefixes R files.
Proof. intros H name err file Hf. destruct (H _ _ _ Hf) as [_ ->]. apply prefix_take. Qed.

Lemma sole_own R files g err h b n : ft_phase g = FAsked err h b n → sole_ok R files g → own_files R files g (ft_pos g).
Proof. unfold sole_ok. by intros ->. Qed.

(** The fetch after a chunk of [k] bytes, at the end of the stream or before the next chunk. *)
Lemma chunk_ok R g err h b n k g' :
  opened_ok R g → b = allocationLogsBehavior id → (ft_pos g err + k ≤ length (R (ft_alloc g) err))%nat →
  ft_alloc g' = ft_alloc g → ft_dir g' = ft_dir g →
  ft_off g' = upd (ft_off g) err (Z.of_nat (ft_pos g err + k)) → ft_pos g' = upd (ft_pos g) err (ft_pos g err + k)%nat →
  ft_phase g' = FChunk err h b n ∨ ft_phase g' = FSettle ∨ ft_phase g' = FStream true →
  fetch_ok R g' ∧ ∀ F, own_files R F g (ft_pos g') → sole_ok R F g'.
Proof.
  intros [Hdir Hop] -> Hk Ha Hd Ho Hp Hph.
  assert (opened_ok R g').
  { split; [congruence|]. intros e. rewrite Ha, Ho, Hp. unfold upd. case_bool_decide; [by subst|apply Hop]. }
  split; unfold fetch_ok, sole_ok, own_files; rewrite ?Ha; destruct Hph as [->|[->| ->]]; eauto.
Qed.

Lemma onReply_ok R s i g err h b n x w :
  Contains id "/" = false → logs_ok R s → ls_fetches s !! i = Some g → ft_phase g = FAsked err h b n →
  reply_ok R g err b x → logs_ok R (onReply err h b n x w i g s).
Proof.
  intros Hid Hok Hi Hph Hx. pose proof Hok as (Hj & Hf & Hg & _). pose proof (Hg _ _ Hi) as Hgi.
  unfold fetch_ok in Hgi. rewrite Hph in Hgi. destruct Hgi as [-> Hop]. unfold onReply.
  destruct Hx as [Hx|(fs & Hfs & ->)].
  { destruct x; simpl; try (by apply fail_same). by destruct (Hx r). }
  destruct (Hop) as [_ Hpos]. destruct (Hpos err) as [Ho Hle]. rewrite Ho.
  destruct (nodeReply_holds fs nodeDir id (ft_alloc g) err _ (ft_pos g err) Hid Hfs Hle) as (k & total & Hk & _ & ->).
  cbn [invokeAllocationLogs lp_Error lp_Data lp_EOF lp_NextOffset].
  set (c := R (ft_alloc g) err) in *. set (data := take k (drop (ft_pos g err) c)).
  assert (Hd : length data = k) by (unfold data; rewrite length_take, length_drop; lia). rewrite Hd.
  destruct (Nat.ltb_spec 0 k) as [Hk0|Hk0].
  - destruct w as [m|].
    + assert (take m data = take (m `min` k) (drop (ft_pos g err) c)) as ->.
      { unfold data. by rewrite take_take. }
      eapply fail_ok; [done..|apply writeLog_ok; [done..|fold c; lia]|].
      intros Hs. eapply own_prefixes, writeLog_own; [by eapply sole_own|done|fold c; lia].
    + assert (Hnext : ∀ g', fetch_ok R g' ∧ (∀ F, own_files R F g (upd (ft_pos g) err (ft_pos g err + k)%nat) → sole_ok R F g') →
        logs_ok R (set_ls_fetch (addLogsJobBytesWritten (ft_key g) (Z.of_nat k) (writeLog err data g s)) i g')).
      { intros g' [Hg' Hso]. apply (logs_ok_set R s i g); try done.
        - apply (jobs_ok_update _ _ s); [done|apply Hj].
        - by apply writeLog_ok.
        - intros Hs. apply Hso, writeLog_own; [by eapply sole_own|done..]. }
      case_bool_decide; apply Hnext; apply (chunk_ok R g err h (allocationLogsBehavior id) (n + Z.of_nat k) k); try done; destruct err; simpl; eauto.
  - assert (k = O) as -> by lia. rewrite Nat.add_0_r, Z.add_0_r.
    assert (Hnext : ∀ g', fetch_ok R g' ∧ (∀ F, own_files R F g (upd (ft_pos g) err (ft_pos g err)) → sole_ok R F g') →
      logs_ok R (set_ls_fetch s i g')).
    { intros g' [Hg' Hso]. apply (logs_ok_set R s i g); try done. intros Hs. apply Hso.
      intros name e file Hl. unfold upd. destruct (sole_own _ _ _ _ _ _ _ Hph Hs name e file Hl) as [-> ->].
      case_bool_decide; by subst. }
    case_bool_decide; apply Hnext; apply (chunk_ok R g err h (allocationLogsBehavior id) n O); simpl; rewrite ?Nat.add_0_r; try done; destruct err; simpl; eauto.
Qed.

(** *** Every step keeps it *)

Lemma fetch_step_ok w i inp s :
  Contains id "/" = false → logs_ok (wd_remote w) (wd_logs w) → input_ok w i inp →
  fetch_step inp i (wd_logs w) = Some s → logs_ok (wd_remote w) s.
Proof.
  intros Hid Hok Hin Hst. pose proof Hok as (Hj & Hf & Hg & _). unfold fetch_step in Hst.
  destruct (ls_fetches (wd_logs w) !! i) as [g|] eqn:Hi; [|done]. pose proof (Hg _ _ Hi) as Hgi.
  unfold fetch_ok in Hgi. destruct (ft_phase g) as [| |err|err h b n|err h b n| | |] eqn:Hph; destruct inp as [|ok1 ok2|m|x wr|]; simplify_eq.
  - by apply openLogs_ok.
  - destruct (ft_cancelled g); [by apply stop_ok|]. apply phase_ok; [done..|]. unfold sole_ok. by rewrite Hph.
  - destruct (allocationLogsTarget m (ft_alloc g)) as [[h b]|e|] eqn:Ht; [|by apply fail_same|done].
    apply phase_ok; [done..| |unfold sole_ok; by rewrite Hph].
    split; [|done]. simpl in Hin. unfold allocationLogsTarget in Ht. destruct (List.find _ _); [|done].
    destruct (Handle_Empty _); [done|]. injection Ht as <- <-. simpl. by rewrite Hin.
  - destruct (ft_cancelled g); [by apply stop_ok|]. apply phase_ok; [done..|]. unfold sole_ok. by rewrite Hph.
  - apply onReply_ok; try done. by eapply Hin.
  - destruct (ft_follow g); [apply phase_ok; [done..|]; unfold sole_ok; by rewrite Hph|].
    destruct (ft_sawAny g); simpl; (eapply end_ok; [done|done|done|by apply jobs_ok_update|done|done]).
  - destruct (ft_cancelled g); simplify_eq. by apply stop_ok.
  - apply phase_ok; [done..|]. unfold sole_ok. by rewrite Hph.
Qed.

Lemma print_ok R s name err data : logs_ok R s → logs_ok (print name err data R) s.
Proof.
  intros (Hj & Hf & Hg & Hs).
  assert (Hp : ∀ n e, R n e `prefix_of` print name err data R n e).
  { intros n e. unfold print. case_bool_decide; [by apply prefix_app_r|done]. }
  assert (Ht : ∀ n e k, (k ≤ length (R n e))%nat → take k (print name err data R n e) = take k (R n e)).
  { intros n e k Hk. unfold print. case_bool_decide; [by rewrite take_app_le|done]. }
  assert (Ho : ∀ g, opened_ok R g → opened_ok (print name err data R) g).
  { intros g [Hd Hpos]. split; [done|]. intros e. destruct (Hpos e). pose proof (prefix_length _ _ (Hp (ft_alloc g) e)). split; [done|lia]. }
  split; [done|]. split; [|split].
  - intros n e file Hl. destruct (Hp n e) as [d ->]. by apply faithful_app, Hf.
  - intros i g Hi. specialize (Hg i g Hi). unfold fetch_ok in *. destruct (ft_phase g); naive_solver.
  - intros Hsync. specialize (Hs Hsync). destruct (ls_fetches s) as [|g [|? ?]]; [done| |done].
    specialize (Hg O g eq_refl). unfold sole_ok, fetch_ok in *.
    destruct (ft_phase g); try done; intros nm e file Hl; specialize (Hs nm e file Hl); try (by etrans);
      destruct Hs as [-> ->]; (split; [done|symmetry; apply Ht]);
      first [destruct Hg as [_ [_ Hg]]; by destruct (Hg e)|destruct Hg as [_ Hg]; by destruct (Hg e)].
Qed.

Lemma startFetch_ok R s mk r name opts :
  logs_ok R s → logs_ok R (StartFetchAllocationLogs mk workDir id r name opts s).2.
Proof.
  intros Hok. pose proof Hok as (Hj & Hf & Hg & Hs). unfold StartFetchAllocationLogs.
  destruct (bool_decide (r = "")); [done|]. destruct (bool_decide (name = "")); [done|].
  set (start := if negb mk then _ else _).
  assert (logs_ok R start.2).
  { unfold start. destruct mk; [|done]. simpl. split; [|split; [done|split]]; simpl.
    - intros key job i. rewrite lookup_insert_Some. intros [[_ ?]|[_ ?]]; [by simplify_eq/=|by eapply Hj].
    - intros i g. rewrite lookup_app_Some, list_lookup_singleton_Some.
      intros [?|[_ [_ <-]]]; [by eapply Hg|]. done.
    - intros Hsync. specialize (Hs Hsync). destruct (ls_fetches s) as [|? [|? ?]]; done. }
  destruct (ls_jobs s !! _) as [[job ?]|]; [|done]. by case_bool_decide.
Qed.

Lemma cancel_ok R s jobs i :
  jobs_ok jobs → logs_ok R s → logs_ok R (cancelFetch i (set_ls_jobs s jobs)).
Proof.
  intros Hj (_ & Hf & Hg & Hs). split; [done|]. split; [done|]. split; simpl.
  - intros j g. destruct (decide (i = j)) as [->|Hne]; [|rewrite list_lookup_alter_ne by done; apply Hg].
    rewrite list_lookup_alter_eq, fmap_Some. intros (g0 & Hl & ->). by apply Hg in Hl.
  - intros Hsync. specialize (Hs Hsync). destruct (ls_fetches s) as [|g [|? ?]]; [done| |by destruct i as [|[|i]]].
    by destruct i.
Qed.

Lemma stopFetch_ok R s r name : logs_ok R s → logs_ok R (StopFetchAllocationLogs r name s).2.
Proof.
  intros Hok. pose proof Hok as (Hj & _). unfold StopFetchAllocationLogs.
  destruct (ls_jobs s !! _) as [[job i]|] eqn:Hl; [|done]. case_bool_decide; [|done]. apply cancel_ok; [|done].
  intros key j k. rewrite lookup_insert_Some. intros [[_ ?]|[_ ?]]; [simplify_eq/=|]; by eapply Hj.
Qed.

Lemma writeLogs_ok R s mk ok name k1 k2 :
  sync = true → logs_ok R s →
  logs_ok R (set_ls_files s (WriteAllocationLogs mk ok workDir id name (take k1 (R name false)) (take k2 (R name true)) (ls_files s)).2).
Proof.
  intros Hsync (Hj & Hf & Hg & _). split; [done|]. split; [|split; [done|congruence]]. simpl.
  assert (Hins : ∀ F e k, files_ok R F → files_ok R (<[logsDir workDir id name ++ [streamFile e] := take k (R name e)]> F)).
  { intros F e k HF n e' file. rewrite lookup_insert_Some. intros [[Hl <-]|[_ H]]; [|by apply HF].
    apply localPath_inj in Hl as [<- <-]. apply faithful_prefix, prefix_take. }
  unfold WriteAllocationLogs. destruct mk; [|done]. cbn [negb].
  destruct (0 <? length (take k1 _))%nat, (ok (logsDir workDir id name ++ ["stdout.log"])); cbn [negb snd]; rewrite ?take_take; try done;
    try (by apply (Hins _ false));
    destruct (0 <? length (take k2 _))%nat, (ok (logsDir workDir id name ++ ["stderr.log"])); cbn [negb snd]; rewrite ?take_take; try done;
    repeat first [apply (Hins _ true)|apply (Hins _ false)|done].
Qed.

Lemma world_reachable_ok w : Contains id "/" = false → world_reachable w → logs_ok (wd_remote w) (wd_logs w).
Proof.
  intros Hid. induction 1 as [|w w' _ IH Hst].
  - split; [by intros ???|]. split; [by intros ???|]. split; [by intros ??|done].
  - destruct Hst as [w n e d|w mk r n o|w r n|w i|w mk ok n k1 k2 Hsync|w i inp s Hin Hs]; simpl.
    + by apply print_ok.
    + by apply startFetch_ok.
    + by apply stopFetch_ok.
    + destruct (wd_logs w) as [jobs fs F]. apply (cancel_ok _ (mkLogsState jobs fs F)); [apply IH|done].
    + by apply writeLogs_ok.
    + by eapply fetch_step_ok.
Qed.

End world.

(** C14: whatever users start, stop or have written at once, however the goroutines and the
    printing of the allocations interleave, and however contexts end, exchanges and writes
    fail, the local copy of a log is never longer than the log and each of its bytes is the
    byte of the log at that place, or a zero. *)
Theorem local_log_faithful `{Visit : MapVisit} workDir nodeDir id w name err file :
  Contains id "/" = false → world_reachable workDir nodeDir id true w →
  ls_files (wd_logs w) !! localPath workDir id name err = Some file →
  (length file ≤ length (wd_remote w name err))%nat ∧
  ∀ i b, file !! i = Some b → b = "000"%byte ∨ wd_remote w name err !! i = Some b.
Proof. intros Hid Hw Hf. apply (world_reachable_ok _ _ _ _ _ Hid) in Hw as (_ & HF & _). by apply HF. Qed.

(** While an orchestrator has had one fetch only, its local logs are prefixes of the
    logs, and as long as that fetch goes on each is the log up to the offset of the fetch. *)
Theorem sole_fetch_exact `{Visit : MapVisit} workDir nodeDir id w g name err file :
  Contains id "/" = false → world_reachable workDir nodeDir id false w → ls_fetches (wd_logs w) = [g] →
  ls_files (wd_logs w) !! localPath workDir id name err = Some file →
  file `prefix_of` wd_remote w name err ∧
  (ft_phase g ≠ FDone → name = ft_alloc g ∧ file = take (Z.to_nat (ft_off g err)) (wd_remote w name err)).
Proof.
  intros Hid Hw Hgs Hf. apply (world_reachable_ok _ _ _ _ _ Hid) in Hw as (_ & _ & Hg & Hs).
  rewrite Hgs in Hs, Hg. specialize (Hs eq_refl). specialize (Hg O g eq_refl).
  split; [by eapply sole_prefixes|]. intros Hnd. unfold sole_ok, fetch_ok in *.
  destruct (ft_phase g); try done; try (rewrite Hs in Hf; by rewrite lookup_empty in Hf);
    destruct (Hs _ _ _ Hf) as [-> ->]; (split; [done|]);
    first [destruct Hg as [_ [_ Hg]]; destruct (Hg err) as [-> _]|destruct Hg as [_ Hg]; destruct (Hg err) as [-> _]];
    by rewrite Nat2Z.id.
Qed.

(** ** Examples *)

Section examples.
#[local] Instance logs_visit : MapVisit := {| visit A l := l; visit_perm A l := reflexivity l |}.

Definition log_manifest : EnsembleManifest :=
  mkManifest "e1" ∅ Handle_zero ∅
    {["n" := mkNodeManifest "n" "peer" some_node [] Location_zero ["web"] "" "" [] 0 ""]} false ∅.

(** The reply of the node to the request of a goroutine. *)
Definition reply_of (c : list byte) (off : Z) (err : bool) : fetch_input :=
  InReply (nodeReply (λ _, slowFile 3 c) "/n" (allocationLogsBehavior "e1")
             (mkLogsRequest "web" off off DefaultLogChunkSize (streamName err))) None.

Definition run_fetch (i : nat) (inputs : list fetch_input) (s : logsState) : option logsState :=
  fold_left (λ os inp, s ← os; fetch_step inp i s) inputs (Some s).

Definition start_fetch (r : string) (follow : bool) (s : logsState) : logsState :=
  (StartFetchAllocationLogs true "/o" "e1" r "web" (mkFetchOpts follow 0) s).2.
Definition stop_fetch (r : string) (s : logsState) : logsState := (StopFetchAllocationLogs r "web" s).2.
Definition no_fetches : logsState := mkLogsState ∅ [] ∅.

(** A pass over the two streams. *)
Definition pass_inputs : list fetch_input :=
  [InNone; InTarget log_manifest; InNone; reply_of some_log 0 false; InNone; reply_of some_log 3 false;
   InTarget log_manifest; InNone; reply_of [] 0 true; InNone].

Definition job_status (r : string) (s : logsState) : option (AllocationLogsJobStatus * Z) :=
  (λ j, (lj_Status j, lj_BytesWritten j)) <$> GetFetchAllocationLogsJob r "web" s.

Example fetch_completes :
  (λ s, (job_status "did:u" s, ls_files s !! localPath "/o" "e1" "web" false)) <$>
    run_fetch 0 (InOpen true true :: pass_inputs) (start_fetch "did:u" false no_fetches)
  = Some (Some (JobComplete, 5), Some some_log).
Proof. vm_compute. reflexivity. Qed.

(** A goroutine that notices late that it was stopped marks the fetch that was started
    since as stopped, although its own goroutine goes on; a third start then adds a second
    goroutine to it. *)
Example restart_marked_stopped :
  (λ s, (job_status "did:u" s, (λ g, (ft_cancelled g, match ft_phase g with FDone => true | _ => false end)) <$> ls_fetches s !! 1%nat,
         length (ls_fetches (start_fetch "did:u" true s)))) <$>
    (run_fetch 0 [InOpen true true] (start_fetch "did:u" true no_fetches) ≫= λ s,
     run_fetch 0 [InNone] (start_fetch "did:u" true (stop_fetch "did:u" s)))
  = Some (Some (JobStopped, 0), Some (false, false), 3%nat).
Proof. vm_compute. reflexivity. Qed.

(** Two requesters write to the same file: the second truncates it, and what the first
    writes next leaves a hole before it. *)
Example second_reader_leaves_hole :
  (λ s, ls_files s !! localPath "/o" "e1" "web" false) <$>
    (run_fetch 0 [InOpen true true; InNone; InTarget log_manifest; InNone; reply_of some_log 0 false]
       (start_fetch "did:u" false no_fetches) ≫= λ s,
     run_fetch 1 [InOpen true true] (start_fetch "did:v" false s) ≫= λ s,
     run_fetch 0 [InNone; reply_of some_log 3 false] s)
  = Some (Some ["000"; "000"; "000"; "108"; "111"]%byte).
Proof. vm_compute. reflexivity. Qed.

(** *** A fetch in the course of its work *)

Definition step_of (inp : fetch_input) (w : world) : world :=
  mkWorld (default (wd_logs w) (fetch_step inp 0 (wd_logs w))) (wd_remote w).

Lemma reach_step sync inp w :
  world_reachable "/o" "/n" "e1" sync w → input_ok "/n" "e1" w 0 inp → is_Some (fetch_step inp 0 (wd_logs w)) →
  world_reachable "/o" "/n" "e1" sync (step_of inp w).
Proof. intros Hw Hin [s Hs]. eapply world_next; [done|]. unfold step_of. rewrite Hs. by eapply step_fetch. Qed.

Definition printed : world :=
  mkWorld (start_fetch "did:u" false no_fetches) (print "web" false some_log (λ _ _, [])).

Definition midway : world :=
  fold_left (λ w inp, step_of inp w) [InOpen true true; InNone; InTarget log_manifest; InNone; reply_of some_log 0 false] printed.

Lemma midway_reachable sync : world_reachable "/o" "/n" "e1" sync midway.
Proof.
  unfold midway. cbn [fold_left]. repeat (apply reach_step; [|try done|eexists; vm_compute; reflexivity]).
  - eapply world_next; [|apply (step_startFetch _ _ _ _ (mkWorld no_fetches _) true "did:u" "web" (mkFetchOpts false 0))].
    eapply world_next; [apply world_start|]. apply (step_print _ _ _ _ (mkWorld _ (λ _ _, []))).
  - intros g err h b n Hg Hph. right. exists (λ _, slowFile 3 some_log).
    vm_compute in Hg. injection Hg as <-. injection Hph as <- <- <- <-.
    split; [|reflexivity]. apply slowFile_holds; [lia|done].
Qed.

Lemma local_log_faithful_witness :
  ∃ file, ls_files (wd_logs midway) !! localPath "/o" "e1" "web" false = Some file ∧ length file = 3%nat ∧
    (length file ≤ length (wd_remote midway "web" false))%nat.
Proof.
  eexists. split; [vm_compute; reflexivity|]. split; [reflexivity|].
  apply (local_log_faithful "/o" "/n" "e1" midway "web" false); [reflexivity|apply midway_reachable|vm_compute; reflexivity].
Defined.

Lemma sole_fetch_exact_witness :
  ∃ g, ls_fetches (wd_logs midway) = [g] ∧ ["104"; "101"; "108"]%byte `prefix_of` wd_remote midway "web" false.
Proof.
  eexists. split; [vm_compute; reflexivity|].
  refine (proj1 (sole_fetch_exact "/o" "/n" "e1" midway _ "web" false _ eq_refl (midway_reachable false) _ _));
    vm_compute; reflexivity.
Defined.

End examples.
