(* ===== verification/AllocRecovery.v ===== *)
(** * The allocations of a node, from deployment to recovery

    A node creates the allocations that an orchestrator deploys on it, keeps what it needs
    to start them again, and restores them when it starts (dms/node/alloc_recovery.go,
    dms/node/behaviors_allocation.go, [allocStatusUpdate] of dms/node/node.go,
    [PersistState] and the network metadata of dms/jobs/allocation.go,
    dms/jobs/behaviors_subnet.go).

    The network, the executors, the database, private keys and the clock are arguments.
    Records of different ensembles are restored one after the other here. *)

From S2P Require Import Prelude GoStrings AllocationID Hardware ResourceManager Key Envelope Ports Ensemble Allocation Allocator.

Open Scope go_scope.
Local Open Scope Z_scope.

(** ** What is known of an allocation beside its life cycle *)

Record AllocationPortMapping := mkPortMapping {
  pm_SubnetID : string;
  pm_Protocol : string;
  pm_SourceIP : string;
  pm_SourcePort : string;
  pm_DestIP : string;
  pm_DestPort : string
}.

#[export] Instance AllocationPortMapping_eq_dec : EqDecision AllocationPortMapping.
Proof. solve_decision. Defined.

Record ExecutorInfo := mkExecutorInfo { xi_ExecutionID : string; xi_HostBridge : string }.
Definition ExecutorInfo_zero : ExecutorInfo := mkExecutorInfo "" "".

Record NetworkMetadata := mkMetadata {
  nm_subnetID : string;
  nm_routingTable : gmap string string;
  nm_dnsRecords : gmap string string;
  nm_portMapping : list AllocationPortMapping
}.

Definition NetworkMetadata_zero : NetworkMetadata := mkMetadata "" ∅ ∅ [].

Definition setSubnetID (v : string) (m : NetworkMetadata) : NetworkMetadata :=
  mkMetadata v (nm_routingTable m) (nm_dnsRecords m) (nm_portMapping m).
Definition mergeRoutingTable (entries : gmap string string) (m : NetworkMetadata) : NetworkMetadata :=
  mkMetadata (nm_subnetID m) (entries ∪ nm_routingTable m) (nm_dnsRecords m) (nm_portMapping m).
Definition removeRoutingTableEntries (entries : gmap string string) (m : NetworkMetadata) : NetworkMetadata :=
  mkMetadata (nm_subnetID m) (nm_routingTable m ∖ entries) (nm_dnsRecords m) (nm_portMapping m).
Definition mergeDNSRecords (records : gmap string string) (m : NetworkMetadata) : NetworkMetadata :=
  mkMetadata (nm_subnetID m) (nm_routingTable m) (records ∪ nm_dnsRecords m) (nm_portMapping m).
Definition removeDNSRecords (domains : list string) (m : NetworkMetadata) : NetworkMetadata :=
  mkMetadata (nm_subnetID m) (nm_routingTable m) (fold_left (λ r d, delete d r) domains (nm_dnsRecords m)) (nm_portMapping m).
Definition appendPortMapping (p : AllocationPortMapping) (m : NetworkMetadata) : NetworkMetadata :=
  mkMetadata (nm_subnetID m) (nm_routingTable m) (nm_dnsRecords m) (nm_portMapping m ++ [p]).

(** *** The behaviours that configure the subnet of an allocation

    A request that does not unmarshal is [None]; [ok] is the answer of the network.  The
    result is the [OK] of the reply. *)

Definition handleSubnetAddPeer (ok : bool) (request : option (string * string * string)) (m : NetworkMetadata)
    : bool * NetworkMetadata :=
  match request with
  | None => (false, m)
  | Some (subnetID, peerID, ip) =>
      if negb ok then (false, m)
      else (true, mergeRoutingTable {[ip := peerID]} (setSubnetID subnetID m))
  end.

Definition handleSubnetAcceptPeers (ok : bool) (request : option (gmap string string)) (m : NetworkMetadata)
    : bool * NetworkMetadata :=
  match request with
  | None => (false, m)
  | Some peers => if negb ok then (false, m) else (true, mergeRoutingTable peers m)
  end.

Definition handleSubnetRemovePeers (ok : bool) (request : option (gmap string string)) (m : NetworkMetadata)
    : bool * NetworkMetadata :=
  match request with
  | None => (false, m)
  | Some peers => if negb ok then (false, m) else (true, removeRoutingTableEntries peers m)
  end.

Definition handleSubnetMapPort (ok : bool) (request : option AllocationPortMapping) (m : NetworkMetadata)
    : bool * NetworkMetadata :=
  match request with
  | None => (false, m)
  | Some p => if negb ok then (false, m) else (true, appendPortMapping p m)
  end.

(** What was mapped stays in the metadata. *)
Definition handleSubnetUnmapPort (ok : bool) (request : option AllocationPortMapping) (m : NetworkMetadata)
    : bool * NetworkMetadata :=
  match request with
  | None => (false, m)
  | Some _ => (ok, m)
  end.

Definition handleSubnetDNSAddRecords (ok : bool) (request : option (gmap string string)) (m : NetworkMetadata)
    : bool * NetworkMetadata :=
  match request with
  | None => (false, m)
  | Some records => if negb ok then (false, m) else (true, mergeDNSRecords records m)
  end.

(** Every record is removed from the network; one failure keeps all of them here. *)
Definition handleSubnetDNSRemoveRecords (ok : string → bool) (request : option (list string)) (m : NetworkMetadata)
    : bool * NetworkMetadata :=
  match request with
  | None => (false, m)
  | Some domains => if negb (forallb ok domains) then (false, m) else (true, removeDNSRecords domains m)
  end.

(** ** What is stored *)

(** The specification of an execution; the values of its parameters are kept as they are
    encoded. *)
Record SpecConfig := mkSpecConfig { sp_Type : string; sp_Params : gmap string string }.
Definition SpecConfig_zero : SpecConfig := mkSpecConfig "" ∅.

Record AllocationState := mkAllocState {
  as_AllocationID : string;
  as_PrivKeyB64 : string;
  as_DeploymentID : string;
  as_Type : string;
  as_Orchestrator : Handle;
  as_Resources : Resources;
  as_Execution : SpecConfig;
  as_ProvisionScripts : gmap string string;
  as_Keys : list AllocationKey;
  as_Volume : list VolumeConfig;
  as_Contracts : gmap string ContractConfig;
  as_NetState : AllocationNetState;
  as_ExecutorInfo : ExecutorInfo;
  as_Ports : gmap Z Z;
  as_DynamicPortsNum : Z;
  as_Network : NetworkMetadata
}.

Definition AllocationState_zero : AllocationState :=
  mkAllocState "" "" "" "" Handle_zero Resources_zero SpecConfig_zero ∅ [] [] ∅ (mkNetState "" "" ∅) ExecutorInfo_zero ∅ 0 NetworkMetadata_zero.

Record AllocationsStatePersist := mkPersist {
  ap_ID : string;
  ap_EnsembleID : string;
  ap_Orchestrator : Handle;
  ap_SubnetCIDR : string;
  ap_RoutingTable : gmap string string;
  ap_Allocations : gmap string AllocationState
}.

Definition set_ap_allocations ap v :=
  mkPersist (ap_ID ap) (ap_EnsembleID ap) (ap_Orchestrator ap) (ap_SubnetCIDR ap) (ap_RoutingTable ap) v.

(** The records by their identifiers. *)
Notation Repo := (gmap string AllocationsStatePersist).

Inductive rec_error :=
| ErrRecDatabase
| ErrMultipleRecords
| ErrInvalidRecord
| ErrRestoreCommit (e : allocator_error)
| ErrRecKey
| ErrNoAllocations
| ErrSupervisor
| ErrExecutorType
| ErrCreateExecutor
| ErrCreateActor
| ErrAllocate (e : allocator_error)
| ErrAllocationDID
| ErrGrant
| ErrRecSubnet
| ErrMapPort
| ErrEnsembleBehaviors
| ErrAllocationGone
| ErrRecRun (e : alloc_error)
| ErrRecRelease (e : allocator_error)
| ErrRecRequest
| ErrGiveUp
| ErrWaitCancelled.

#[export] Instance rec_error_eq_dec : EqDecision rec_error.
Proof. solve_decision. Defined.

(** The form in which a private key is stored. *)
Class KeyEncoding := {
  encodeKey : string → option string;
  decodeKey : string → option string
}.

Section repo.
  Context `{Visit : MapVisit}.

(** [FindAll] with the condition on the ensemble. *)
Definition findRecords (ensembleID : string) (repo : Repo) : list AllocationsStatePersist :=
  List.filter (λ ap, bool_decide (ap_EnsembleID ap = ensembleID)) (visit (map snd (map_to_list repo))).

(** [r] and [w] say whether the database answers the query and the write; [id] is the
    identifier a new record gets. *)
Definition createAllocStatePersist (r w : bool) (id : string) (ap : AllocationsStatePersist) (repo : Repo)
    : outcome rec_error () * Repo :=
  if negb r then (Err ErrRecDatabase, repo)
  else match findRecords (ap_EnsembleID ap) repo with
  | [] =>
      if negb w then (Err ErrRecDatabase, repo)
      else (Ok (), <[id := mkPersist id (ap_EnsembleID ap) (ap_Orchestrator ap) (ap_SubnetCIDR ap) (ap_RoutingTable ap) ∅]> repo)
  | [_] => (Ok (), repo)
  | _ => (Err ErrMultipleRecords, repo)
  end.

(** What the write does with the records that the query returned. *)
Definition writeAllocationsState (w : bool) (id : string) (s : AllocationState) (existing : list AllocationsStatePersist)
    (repo : Repo) : outcome rec_error () * Repo :=
  match existing with
  | [] =>
      if negb w then (Err ErrRecDatabase, repo)
      else (Ok (), <[id := mkPersist id (as_DeploymentID s) (as_Orchestrator s) "" ∅ {[as_AllocationID s := s]}]> repo)
  | [ap] =>
      if negb w then (Err ErrRecDatabase, repo)
      else (Ok (), <[ap_ID ap := set_ap_allocations ap (<[as_AllocationID s := s]> (ap_Allocations ap))]> repo)
  | _ => (Ok (), repo)
  end.

Definition saveAllocationsState (r w : bool) (id : string) (s : AllocationState) (repo : Repo) : outcome rec_error () * Repo :=
  if negb r then (Err ErrRecDatabase, repo)
  else writeAllocationsState w id s (findRecords (as_DeploymentID s) repo) repo.

(** The first record that has the allocation loses it, or goes with its last one. *)
Definition deletePersistedAllocationState (r w : bool) (allocationID : string) (repo : Repo) : outcome rec_error () * Repo :=
  if negb r then (Err ErrRecDatabase, repo)
  else match List.find (λ ap, bool_decide (is_Some (ap_Allocations ap !! allocationID))) (visit (map snd (map_to_list repo))) with
  | None => (Ok (), repo)
  | Some ap =>
      if negb w then (Err ErrRecDatabase, repo)
      else
        let left := delete allocationID (ap_Allocations ap) in
        if bool_decide (left = ∅) then (Ok (), delete (ap_ID ap) repo)
        else (Ok (), <[ap_ID ap := set_ap_allocations ap left]> repo)
  end.

Definition deleteAllocPersist (w : bool) (id : string) (repo : Repo) : Repo := if w then delete id repo else repo.

End repo.

(** ** The node *)

(** What the node keeps with a running allocation: its private key, its orchestrator, the
    parts of its job that the allocator does not look at (execution, scripts and keys), its
    metadata. *)
Record LiveAllocation := mkLive {
  lv_key : option string;
  lv_orchestrator : Handle;
  lv_execution : SpecConfig;
  lv_scripts : gmap string string;
  lv_keys : list AllocationKey;
  lv_network : NetworkMetadata;
  lv_executor : ExecutorInfo
}.

Inductive nodeState := nodeStateInit | nodeStateStarting | nodeStateStartFailed | nodeStateRunning | nodeStateStopping | nodeStateStopped.

#[export] Instance nodeState_eq_dec : EqDecision nodeState.
Proof. solve_decision. Defined.

(** An event for a contract when an allocation is created: allocation, host and contract,
    and the head of the chain. *)
Record CreateEvent := mkCreateEvent { ce_allocation : string; ce_contract : ContractConfig; ce_head : string }.

Record RecNode := mkRecNode {
  rn_allocator : allocator;
  rn_live : gmap string LiveAllocation;
  rn_repo : Repo;
  rn_subnets : gset string;
  rn_subnetStatus : gmap string Z;
  rn_behaviors : gset string;
  rn_grants : list (string * string * string);
  rn_events : list CreateEvent;
  rn_effects : list alloc_effect;
  rn_terminated : list string;
  rn_ready : bool;
  rn_state : nodeState
}.

Definition with_allocator n v o := mkRecNode v (rn_live n) (rn_repo n) (rn_subnets n) (rn_subnetStatus n) (rn_behaviors n)
  (rn_grants n) (rn_events n) (rn_effects n ++ o) (rn_terminated n) (rn_ready n) (rn_state n).
Definition with_live n v := mkRecNode (rn_allocator n) v (rn_repo n) (rn_subnets n) (rn_subnetStatus n) (rn_behaviors n)
  (rn_grants n) (rn_events n) (rn_effects n) (rn_terminated n) (rn_ready n) (rn_state n).
Definition with_repo n v := mkRecNode (rn_allocator n) (rn_live n) v (rn_subnets n) (rn_subnetStatus n) (rn_behaviors n)
  (rn_grants n) (rn_events n) (rn_effects n) (rn_terminated n) (rn_ready n) (rn_state n).
Definition with_subnets n v st := mkRecNode (rn_allocator n) (rn_live n) (rn_repo n) v st (rn_behaviors n)
  (rn_grants n) (rn_events n) (rn_effects n) (rn_terminated n) (rn_ready n) (rn_state n).
Definition with_behaviors n v := mkRecNode (rn_allocator n) (rn_live n) (rn_repo n) (rn_subnets n) (rn_subnetStatus n) v
  (rn_grants n) (rn_events n) (rn_effects n) (rn_terminated n) (rn_ready n) (rn_state n).
Definition with_grants n v := mkRecNode (rn_allocator n) (rn_live n) (rn_repo n) (rn_subnets n) (rn_subnetStatus n) (rn_behaviors n)
  v (rn_events n) (rn_effects n) (rn_terminated n) (rn_ready n) (rn_state n).
Definition with_events n v := mkRecNode (rn_allocator n) (rn_live n) (rn_repo n) (rn_subnets n) (rn_subnetStatus n) (rn_behaviors n)
  (rn_grants n) v (rn_effects n) (rn_terminated n) (rn_ready n) (rn_state n).
Definition with_terminated n v := mkRecNode (rn_allocator n) (rn_live n) (rn_repo n) (rn_subnets n) (rn_subnetStatus n) (rn_behaviors n)
  (rn_grants n) (rn_events n) (rn_effects n) v (rn_ready n) (rn_state n).
Definition with_ready n := mkRecNode (rn_allocator n) (rn_live n) (rn_repo n) (rn_subnets n) (rn_subnetStatus n) (rn_behaviors n)
  (rn_grants n) (rn_events n) (rn_effects n) (rn_terminated n) true (rn_state n).

(** The answers of what is outside, by allocation, subnet or port. *)
Record RecAnswers := mkRecAnswers {
  ra_env : string → Env;
  ra_uuid : string → string;
  ra_NewExecutor : string → bool;
  ra_CreateChild : string → bool;
  ra_childKey : string → string;
  ra_FromID : string → option string;
  ra_Grant : string → bool;
  ra_AddBehavior : string → bool;
  ra_CreateSubnet : string → bool;
  ra_DestroySubnet : string → bool;
  ra_AddSubnetPeer : string → bool;
  ra_AcceptSubnetPeers : string → bool;
  ra_AddSubnetDNSRecords : string → bool;
  ra_MapPort : AllocationPortMapping → bool;
  ra_GetInfo : string → option ExecutorInfo;
  ra_getExecutor : string → bool;
  ra_terminates : string → bool;
  ra_query : bool;
  ra_write : bool;
  ra_recordID : string;
  ra_expiry : Z
}.

Record DeploymentConfig := mkDeploymentConfig {
  dc_Type : string;
  dc_Execution : SpecConfig;
  dc_ProvisionScripts : gmap string string;
  dc_Keys : list AllocationKey;
  dc_Volume : list VolumeConfig;
  dc_Contracts : gmap string ContractConfig;
  dc_Resources : Resources;
  dc_Identity : option string
}.

Section node.
  Context `{Visit : MapVisit} `{Keys : KeyEncoding}.
  Context (nodeDID workDir : string) (w : RecAnswers).

Definition ExecutorTypeDocker : string := "docker".
Definition ExecutorTypeContainerd : string := "containerd".

Definition createExecutor (allocationID executionType : string) : outcome rec_error () :=
  if bool_decide (executionType = ExecutorTypeDocker) || bool_decide (executionType = ExecutorTypeContainerd)
  then if ra_NewExecutor w allocationID then Ok () else Err ErrCreateExecutor
  else Err ErrExecutorType.

(** *** Creating allocations *)

Definition detailsOf (allocationID : string) (c : DeploymentConfig) (supervisor : Handle) (deploymentID : string) : AllocationDetails :=
  mkDetails allocationID (dc_Type c) (ra_uuid w allocationID) (mkJob (dc_Resources c) (dc_Volume c))
    (HostID (Handle_Address supervisor)) workDir deploymentID nodeDID.

(** The actor gets the key that is given, or a new one. *)
Definition createAllocation (allocationID : string) (c : DeploymentConfig) (supervisor : Handle) (deploymentID : string) (n : RecNode)
    : outcome rec_error Allocation * RecNode :=
  match createExecutor allocationID (sp_Type (dc_Execution c)) with
  | Panic => (Panic, n)
  | Err e => (Err e, n)
  | Ok _ =>
      if negb (ra_CreateChild w allocationID) then (Err ErrCreateActor, n)
      else
        let key := default (ra_childKey w allocationID) (dc_Identity c) in
        match allocator_Allocate (ra_env w allocationID) (rn_allocator n) allocationID
                (detailsOf allocationID c supervisor deploymentID) (dc_Contracts c) with
        | (Panic, a, o) => (Panic, with_allocator n a o)
        | (Err e, a, o) => (Err (ErrAllocate e), with_allocator n a o)
        | (Ok al, a, o) =>
            let n := with_allocator n a o in
            let n := with_live n (<[allocationID := mkLive (Some key) supervisor (dc_Execution c) (dc_ProvisionScripts c) (dc_Keys c) NetworkMetadata_zero ExecutorInfo_zero]> (rn_live n)) in
            let head := cc_DID (headContract (dc_Contracts c)) in
            (Ok al, with_events n (rn_events n ++
               map (λ v, mkCreateEvent allocationID v head)
                 (contractsToNotify (env_alloc (ra_env w allocationID)) (dc_Contracts c))))
        end
  end.

Definition AllocationNamespace : string := "/dms/allocation".
Definition EnsembleNamespaceOf (id : string) : string := "/dms/ensemble/" +:+ id.

(** A grant is renewed while the allocation is not stopped. *)
Definition grantCaps (sub aud cap : string) (n : RecNode) : option rec_error * RecNode :=
  if negb (ra_Grant w aud) then (Some ErrGrant, n)
  else (None, with_grants n (rn_grants n ++ [(sub, aud, cap)])).

Definition createOne (ensembleID : string) (supervisor : Handle) (allocationID : string) (c : DeploymentConfig) (n : RecNode)
    : option rec_error * RecNode :=
  match createAllocation allocationID c supervisor ensembleID n with
  | (Panic, n) => (Some ErrAllocationGone, n)   (* not reached: the allocator does not panic here *)
  | (Err e, n) => (Some e, n)
  | (Ok _, n) =>
      match ra_FromID w allocationID with
      | None => (Some ErrAllocationDID, n)
      | Some allocDID =>
          match grantCaps (URI (Handle_DID supervisor)) allocDID AllocationNamespace n with
          | (Some e, n) => (Some e, n)
          | (None, n) => grantCaps (URI (Handle_DID supervisor)) nodeDID (EnsembleNamespaceOf ensembleID) n
          end
      end
  end.

(** A loop that ends at the first error. *)
Fixpoint forEach {A} (f : A → RecNode → option rec_error * RecNode) (l : list A) (n : RecNode) : option rec_error * RecNode :=
  match l with
  | [] => (None, n)
  | x :: l => match f x n with (Some e, n) => (Some e, n) | (None, n) => forEach f l n end
  end.

Definition createAllocations (ensembleID : string) (allocations : gmap string DeploymentConfig) (supervisor : Handle) (n : RecNode)
    : option rec_error * RecNode :=
  if bool_decide (allocations = ∅) then (Some ErrNoAllocations, n)
  else if Handle_Empty supervisor || DID_Empty (Handle_DID supervisor) then (Some ErrSupervisor, n)
  else forEach (λ '(id, c), createOne ensembleID supervisor id c) (visit (map_to_list allocations)) n.

Definition addEnsembleBehaviors (ensembleID : string) (n : RecNode) : option rec_error * RecNode :=
  if negb (ra_AddBehavior w ensembleID) then (Some ErrEnsembleBehaviors, n)
  else (None, with_behaviors n ({[ensembleID]} ∪ rn_behaviors n)).

(** The reply carries the allocations that were created, all of them or none. *)
Definition handleAllocationDeployment (from : Handle) (request : option (string * gmap string DeploymentConfig)) (n : RecNode)
    : outcome rec_error (gset string) * RecNode :=
  match request with
  | None => (Err ErrRecRequest, n)
  | Some (ensembleID, allocations) =>
      match addEnsembleBehaviors ensembleID n with
      | (Some e, n) => (Err e, n)
      | (None, n) =>
          match createAllocations ensembleID allocations from n with
          | (Some e, n) => (Err e, n)
          | (None, n) => (Ok (dom allocations), n)
          end
      end
  end.

Definition releaseOn (allocationID : string) (n : RecNode) : outcome allocator_error () * RecNode :=
  let '(r, a, o) := allocator_Release (ra_env w allocationID) (rn_allocator n) allocationID in
  (r, with_allocator n a o).

Definition handleAllocationShutdown (request : option string) (n : RecNode) : outcome rec_error () * RecNode :=
  match request with
  | None => (Err ErrRecRequest, n)
  | Some allocationID =>
      match releaseOn allocationID n with
      | (Ok _, n) => (Ok (), n)
      | (Err e, n) => (Err (ErrRecRelease e), n)
      | (Panic, n) => (Panic, n)
      end
  end.

Definition handleAllocationsList (n : RecNode) : list (string * AllocationStatus) :=
  map (λ '(id, al), (id, status al)) (visit (map_to_list (a_allocations (rn_allocator n)))).

(** *** Subnets *)

Definition createSubnetOn (subnetID : string) (n : RecNode) : bool * RecNode :=
  if ra_CreateSubnet w subnetID then (true, with_subnets n ({[subnetID]} ∪ rn_subnets n) (rn_subnetStatus n)) else (false, n).

Definition destroySubnetOn (subnetID : string) (n : RecNode) : bool * RecNode :=
  if ra_DestroySubnet w subnetID then (true, with_subnets n (rn_subnets n ∖ {[subnetID]}) (rn_subnetStatus n)) else (false, n).

Definition setSubnetStatus (subnetID : string) (v : Z) (n : RecNode) : RecNode :=
  with_subnets n (rn_subnets n) (<[subnetID := v]> (rn_subnetStatus n)).

Record SubnetCreateRequest := mkSubnetCreate {
  sc_SubnetID : string;
  sc_CIDR : string;
  sc_EnsembleID : string;
  sc_RoutingTable : gmap string string
}.

(** [orchestrators] are the handles of the orchestrators of this node: their own requests
    are not recorded. *)
Definition handleSubnetCreate (orchestrators : list Handle) (from : Handle) (request : option SubnetCreateRequest) (n : RecNode)
    : outcome rec_error () * RecNode :=
  match request with
  | None => (Err ErrRecRequest, n)
  | Some r =>
      match createSubnetOn (sc_SubnetID r) n with
      | (false, n) => (Err ErrRecSubnet, n)
      | (true, n) =>
          let n := setSubnetStatus (sc_SubnetID r) 1 n in
          if existsb (λ h, Handle_Equal h from) orchestrators then (Ok (), n)
          else
            let '(res, repo) := createAllocStatePersist (ra_query w) (ra_write w) (ra_recordID w)
              (mkPersist "" (sc_EnsembleID r) from (sc_CIDR r) (sc_RoutingTable r) ∅) (rn_repo n) in
            (res, with_repo n repo)
      end
  end.

Definition handleSubnetDestroy (request : option string) (n : RecNode) : outcome rec_error () * RecNode :=
  match request with
  | None => (Err ErrRecRequest, n)
  | Some subnetID =>
      if bool_decide (rn_subnetStatus n !! subnetID = Some 0) then (Ok (), n)
      else match destroySubnetOn subnetID n with
      | (false, n) => (Err ErrRecSubnet, n)
      | (true, n) => (Ok (), setSubnetStatus subnetID 0 n)
      end
  end.

(** A join adds the peer, accepts the others and adds the records; [joined] names whom the
    network answers about. *)
Definition subnetJoin (joined : string) : option rec_error :=
  if negb (ra_AddSubnetPeer w joined) then Some ErrRecSubnet
  else if negb (ra_AcceptSubnetPeers w joined) then Some ErrRecSubnet
  else if negb (ra_AddSubnetDNSRecords w joined) then Some ErrRecSubnet
  else None.

Definition handleSubnetJoin (request : option string) : outcome rec_error () :=
  match request with
  | None => Err ErrRecRequest
  | Some ip => match subnetJoin ip with None => Ok () | Some e => Err e end
  end.

(** *** Keeping the state of allocations *)

(** Without a key that can be encoded the zero value is returned. *)
Definition PersistState (al : Allocation) (l : LiveAllocation) : AllocationState :=
  match lv_key l with
  | None => AllocationState_zero
  | Some k =>
      match encodeKey k with
      | None => AllocationState_zero
      | Some b64 =>
          mkAllocState (al_ID (details al)) b64 (al_DeploymentID (details al)) (al_allocType (details al)) (lv_orchestrator l)
            (job_Resources (al_Job (details al))) (lv_execution l) (lv_scripts l) (lv_keys l) (job_Volume (al_Job (details al))) (Contracts al)
            (NetState al) (lv_executor l) (ports al) (dynamicPortsNum al) (lv_network l)
      end
  end.

(** The callback for a change of status; it runs in a goroutine of its own, so callbacks
    of one allocation may come in any order. *)
Definition allocStatusUpdate (allocID : string) (st : AllocationStatus) (n : RecNode) : RecNode :=
  match st with
  | AllocationRunning =>
      match allocator_GetAllocation (rn_allocator n) allocID, rn_live n !! allocID with
      | Ok al, Some l =>
          with_repo n (saveAllocationsState (ra_query w) (ra_write w) (ra_recordID w) (PersistState al l) (rn_repo n)).2
      | _, _ => n
      end
  | AllocationStopped | AllocationFailed | AllocationCompleted | AllocationTerminated =>
      if negb (bool_decide (rn_state n = nodeStateRunning)) then n
      else with_repo n (deletePersistedAllocationState (ra_query w) (ra_write w) allocID (rn_repo n)).2
  | _ => n
  end.

(** *** Undoing a restoration *)

(** The subnets that [rollbackRestoredAlloc] destroys: that of the ensemble and those that the
    allocations name; the empty name is skipped. *)
Definition subnetsOf (ap : AllocationsStatePersist) : gset string :=
  {[ap_EnsembleID ap]} ∪
  list_to_set (List.filter (λ id, negb (bool_decide (id = "")))
    (map (λ kv, nm_subnetID (as_Network kv.2)) (map_to_list (ap_Allocations ap)))).

(** Errors are only logged. *)
Definition releaseAndUncommit (allocID : string) (n : RecNode) : RecNode :=
  let n := (releaseOn allocID n).2 in
  with_allocator n (Uncommit (rn_allocator n) allocID).2 [].

Definition rollbackRestoredAlloc (ap : AllocationsStatePersist) (n : RecNode) : RecNode :=
  let n := fold_left (λ n id, (destroySubnetOn id n).2) (visit (elements (subnetsOf ap))) n in
  fold_left (λ n id, releaseAndUncommit id n) (map fst (visit (map_to_list (ap_Allocations ap)))) n.

(** The type of the execution as [rmUnrecoveredExec] reads it; an empty one is docker. *)
Definition executionType (normalize : string → string) (s : AllocationState) : string :=
  let t := normalize (sp_Type (as_Execution s)) in
  if bool_decide (t = "") then ExecutorTypeDocker else t.

(** Docker is asked by the allocation, containerd by the execution; what cannot be ended
    is skipped. *)
Definition rmUnrecoveredExec (normalize : string → string) (ap : AllocationsStatePersist) (n : RecNode) : RecNode :=
  fold_left
    (λ n '(allocID, s),
       let t := executionType normalize s in
       if negb (ra_getExecutor w t) then n
       else if bool_decide (t = ExecutorTypeDocker)
       then if ra_terminates w allocID then with_terminated n (rn_terminated n ++ [allocID]) else n
       else if bool_decide (t = ExecutorTypeContainerd)
       then if ra_terminates w allocID then with_terminated n (rn_terminated n ++ [xi_ExecutionID (as_ExecutorInfo s)]) else n
       else n)
    (visit (map_to_list (ap_Allocations ap))) n.

(** *** Restoring *)

Definition configOf (s : AllocationState) (identity : string) : DeploymentConfig :=
  mkDeploymentConfig (as_Type s) (as_Execution s) (as_ProvisionScripts s) (as_Keys s) (as_Volume s) (as_Contracts s) (as_Resources s) (Some identity).

(** The commitment of one allocation and the key it was created with. *)
Definition restoreCommit (allocID : string) (s : AllocationState) (n : RecNode) : option rec_error * RecNode :=
  match RestoreAllocCommit (env_hw (ra_env w allocID)) (rn_allocator n) allocID (as_Resources s) (as_Ports s)
          (as_DynamicPortsNum s) (ra_expiry w) with
  | (Ok _, a) =>
      let n := with_allocator n a [] in
      match decodeKey (as_PrivKeyB64 s) with None => (Some ErrRecKey, n) | Some _ => (None, n) end
  | (Err e, a) => (Some (ErrRestoreCommit e), with_allocator n a [])
  | (Panic, a) => (Some ErrAllocationGone, with_allocator n a [])   (* not reached *)
  end.

Definition configsOf (ap : AllocationsStatePersist) : gmap string DeploymentConfig :=
  (λ s, configOf s (default "" (decodeKey (as_PrivKeyB64 s)))) <$> ap_Allocations ap.

(** The subnet of an allocation, once per subnet, the join and the ports of one allocation. *)
Definition restoreSubnet (allocID : string) (s : AllocationState) (created : gset string) (n : RecNode)
    : option rec_error * gset string * RecNode :=
  let subnetID := nm_subnetID (as_Network s) in
  let '(ok, n) := if bool_decide (subnetID ∈ created) then (true, n) else createSubnetOn subnetID n in
  if negb ok then (Some ErrRecSubnet, created, n)
  else
    let created := {[subnetID]} ∪ created in
    match subnetJoin allocID with
    | Some e => (Some e, created, n)
    | None =>
        if negb (forallb (ra_MapPort w) (nm_portMapping (as_Network s))) then (Some ErrMapPort, created, n)
        else (None, created, setSubnetStatus subnetID 1 n)
    end.

Fixpoint restoreSubnets (l : list (string * AllocationState)) (created : gset string) (n : RecNode) : option rec_error * RecNode :=
  match l with
  | [] => (None, n)
  | (allocID, s) :: l =>
      match restoreSubnet allocID s created n with
      | (Some e, _, n) => (Some e, n)
      | (None, created, n) => restoreSubnets l created n
      end
  end.

Definition ApplyPersisted (s : AllocationState) (l : LiveAllocation) : LiveAllocation :=
  mkLive (lv_key l) (lv_orchestrator l) (lv_execution l) (lv_scripts l) (lv_keys l) (as_Network s) (as_ExecutorInfo s).

(** Starting one allocation again; the executor is asked about the execution when it
    started. *)
Definition restoreRun (allocID : string) (s : AllocationState) (n : RecNode) : option rec_error * RecNode :=
  match allocator_GetAllocation (rn_allocator n) allocID with
  | Panic | Err _ => (Some ErrAllocationGone, n)
  | Ok al =>
      let n := with_live n (alter (ApplyPersisted s) allocID (rn_live n)) in
      let ns := as_NetState s in
      let '(e, al', o) := Run (env_alloc (ra_env w allocID)) (SubnetIP ns) (GatewayIP ns) (PortMapping ns) al in
      let n := with_allocator n (set_a_allocations (rn_allocator n) (<[allocID := al']> (a_allocations (rn_allocator n)))) o in
      match e with
      | Some e => (Some (ErrRecRun e), n)
      | None =>
          (None,
           if bool_decide (status al = AllocationRunning) then n
           else match ra_GetInfo w allocID with
           | None => n
           | Some info =>
               with_live n (alter (λ l, mkLive (lv_key l) (lv_orchestrator l) (lv_execution l) (lv_scripts l) (lv_keys l) (lv_network l) info) allocID (rn_live n))
           end)
      end
  end.

(** All steps up to the first that fails. *)
Definition restoreSteps (ap : AllocationsStatePersist) (n : RecNode) : option rec_error * RecNode :=
  let l := visit (map_to_list (ap_Allocations ap)) in
  match forEach (λ '(id, s), restoreCommit id s) l n with
  | (Some e, n) => (Some e, n)
  | (None, n) =>
      match createAllocations (ap_EnsembleID ap) (configsOf ap) (ap_Orchestrator ap) n with
      | (Some e, n) => (Some e, n)
      | (None, n) =>
          match restoreSubnets l ∅ n with
          | (Some e, n) => (Some e, n)
          | (None, n) =>
              match addEnsembleBehaviors (ap_EnsembleID ap) n with
              | (Some e, n) => (Some e, n)
              | (None, n) => forEach (λ '(id, s), restoreRun id s) l n
              end
          end
      end
  end.

Definition restoreAllocations (ap : AllocationsStatePersist) (n : RecNode) : option rec_error * RecNode :=
  match restoreSteps ap n with
  | (Some e, n) => (Some e, rollbackRestoredAlloc ap n)
  | (None, n) => (None, n)
  end.

Definition forgetRecord (ap : AllocationsStatePersist) (n : RecNode) : RecNode :=
  with_repo n (deleteAllocPersist (ra_write w) (ap_ID ap) (rn_repo n)).

Definition restoreAlloc (normalize : string → string) (ap : AllocationsStatePersist) (n : RecNode) : option rec_error * RecNode :=
  if Handle_Empty (ap_Orchestrator ap) || bool_decide (ap_Allocations ap = ∅)
  then (Some ErrInvalidRecord, forgetRecord ap n)
  else match restoreAllocations ap n with
  | (Some e, n) => (Some e, forgetRecord ap (rmUnrecoveredExec normalize ap n))
  | (None, n) => (None, n)
  end.

(** [answer] is what waiting for the orchestrator gave. *)
Definition restoreAllocConfirm (normalize : string → string) (answer : outcome rec_error bool) (ap : AllocationsStatePersist) (n : RecNode)
    : RecNode :=
  match answer with
  | Ok true =>
      with_repo n (createAllocStatePersist (ra_query w) (ra_write w) (ra_recordID w) ap (rn_repo n)).2
  | _ => forgetRecord ap (rmUnrecoveredExec normalize ap (rollbackRestoredAlloc ap n))
  end.

(** Bids are answered from then on, whatever came of the records; the records that were
    restored are confirmed later. *)
Definition evalPersistedAllocs (normalize : string → string) (n : RecNode) : list AllocationsStatePersist * RecNode :=
  if negb (ra_query w) then ([], with_ready n)
  else
    let '(restored, n) := fold_left
      (λ '(restored, n) ap,
         match restoreAlloc normalize ap n with
         | (Some _, n) => (restored, n)
         | (None, n) => (restored ++ [ap], n)
         end)
      (visit (map snd (map_to_list (rn_repo n)))) ([], n) in
    (restored, with_ready n).

End node.

(** ** Waiting for the orchestrator *)

Definition initialCooldown : Z := 15 * 1000000000.
Definition maxCooldown : Z := 3600 * 1000000000.
Definition giveUpAfter : Z := 3 * 3600 * 1000000000.
Definition invokeRetries : nat := 3.
Definition invokeRetryWait : Z := 30 * 1000000000.

(** How an invocation of the orchestrator goes. *)
Inductive invocation := InvokeError | EmptyReply | GarbledReply | StateReply (ok : bool).

(** A dial: whether the orchestrator was reached, with the time that takes, and its
    answers, with theirs; whether the waits end with the context, and by how much they
    last longer than asked. *)
Record DialAttempt := mkDial {
  da_reached : bool;
  da_dialTime : Z;
  da_answer : nat → invocation;
  da_answerTime : nat → Z;
  da_cancelled : bool;
  da_over : Z
}.

(** A wait is cut at the deadline while that is still ahead. *)
Definition waitWithinDeadline (d : DialAttempt) (deadline sleep t : Z) : outcome rec_error Z :=
  let rem := deadline - t in
  let sleep := if (rem <? sleep) && (0 <? rem) then rem else sleep in
  if sleep <=? 0 then Err ErrGiveUp
  else if da_cancelled d then Err ErrWaitCancelled
  else Ok (t + sleep + da_over d).

(** The result, or the time when the attempt gave none; [left] invocations remain. *)
Fixpoint invokeState (d : DialAttempt) (deadline : Z) (left : nat) (t : Z) : outcome rec_error bool + Z :=
  match left with
  | O => inr t
  | S left' =>
      let i := (invokeRetries - left)%nat in
      let t := t + da_answerTime d i in
      match da_answer d i with
      | StateReply ok => inl (Ok ok)
      | EmptyReply | GarbledReply => inr t
      | InvokeError =>
          if (left' =? 0)%nat then inl (Ok false)
          else match waitWithinDeadline d deadline invokeRetryWait t with
          | Ok t => invokeState d deadline left' t
          | Err e => inl (Err e)
          | Panic => inl Panic
          end
      end
  end.

Definition nextCooldown (wait : Z) : Z := if maxCooldown <? wait * 2 then maxCooldown else wait * 2.

(** [None] when the fuel does not suffice; the result comes with the number of attempts
    before the last. *)
Fixpoint waitLoop (fuel : nat) (dials : nat → DialAttempt) (deadline : Z) (k : nat) (wait t : Z) : option (outcome rec_error bool * nat) :=
  match fuel with
  | O => None
  | S fuel =>
      let d := dials k in
      let t := t + da_dialTime d in
      match (if da_reached d then invokeState d deadline invokeRetries t else inr t) with
      | inl r => Some (r, k)
      | inr t =>
          if deadline <? t then Some (Err ErrGiveUp, k)
          else match waitWithinDeadline d deadline wait t with
          | Err e => Some (Err e, k)
          | Panic => Some (Panic, k)
          | Ok t => waitLoop fuel dials deadline (S k) (nextCooldown wait) t
          end
      end
  end.

Definition waitForOrch (fuel : nat) (dials : nat → DialAttempt) (start : Z) : option (outcome rec_error bool * nat) :=
  waitLoop fuel dials (start + giveUpAfter) 0 initialCooldown start.

(** The names that the orchestrator is asked about, in the order of the map. *)
Definition requestedNames `{Visit : MapVisit} (ap : AllocationsStatePersist) : list string :=
  map AllocationNameFromID (map fst (visit (map_to_list (ap_Allocations ap)))).
