(* ===== verification/AllocRecoveryProps.v ===== *)
(** * Properties of the recovery of allocations

    A restoration that succeeds gives back the allocations that were stored, one that fails
    leaves nothing behind, the wait for the orchestrator ends, and the records implement a
    map as long as they are written one at a time. *)

From S2P Require Import Prelude GoStrings AllocationID Hardware ResourceManager Key Envelope Ports Allocation AllocationProps Allocator.
From S2P Require Import ResourceProps AllocatorProps Ensemble BidCoordinator DependencyOrder IPNet Committer Subnet Orchestrator OrchestratorProps AllocRecovery.

Local Open Scope Z_scope.

(** ** Waiting for the orchestrator *)

Definition timely (d : DialAttempt) : Prop :=
  0 ≤ da_dialTime d ∧ (∀ i, 0 ≤ da_answerTime d i) ∧ 0 ≤ da_over d.

(** After a wait the time asked for has passed, or the deadline was ahead and is reached. *)
Lemma wait_passes d deadline sleep t t' :
  timely d → 0 < sleep → waitWithinDeadline d deadline sleep t = Ok t' →
  t + sleep ≤ t' ∨ t < deadline ≤ t'.
Proof.
  intros (_ & _ & Ho) Hs. unfold waitWithinDeadline.
  destruct (Z.ltb_spec (deadline - t) sleep), (Z.ltb_spec 0 (deadline - t)); simpl;
    match goal with |- context [if ?x <=? 0 then _ else _] => destruct (Z.leb_spec x 0) end; try done;
    destruct (da_cancelled d); try done; intros [= <-]; lia.
Qed.

Lemma invoke_passes d deadline n t t' : timely d → invokeState d deadline n t = inr t' → t ≤ t'.
Proof.
  intros Hf. revert t. induction n as [|n IH]; intros t; cbn [invokeState]; [intros [= <-]; lia|].
  destruct (Hf) as (_ & Ha & _). specialize (Ha (invokeRetries - S n)%nat).
  destruct (da_answer d _); try done; [|intros ?; simplify_eq; lia..]. destruct (n =? 0)%nat; [done|].
  destruct (waitWithinDeadline _ _ _ _) as [t1|e|] eqn:Hw; try done.
  apply wait_passes in Hw; [|done..]. unfold invokeRetryWait in Hw. intros H%IH. lia.
Qed.

(** A dial ends the wait, or the next starts after the cooldown or at the deadline. *)
Lemma waitLoop_step fuel dials deadline k wait t :
  (∀ k, timely (dials k)) → 0 < wait →
  is_Some (waitLoop (S fuel) dials deadline k wait t) ∨
  ∃ t', t ≤ deadline ∧ (t + wait ≤ t' ∨ t < deadline ≤ t') ∧
    waitLoop (S fuel) dials deadline k wait t = waitLoop fuel dials deadline (S k) (nextCooldown wait) t'.
Proof.
  intros Hd Hw. cbn [waitLoop]. destruct (Hd k) as (Hdt & _).
  destruct (if da_reached (dials k) then _ else _) as [r|t1] eqn:Hi; [left; eauto|].
  assert (t ≤ t1).
  { destruct (da_reached (dials k)); simplify_eq; [apply invoke_passes in Hi; [lia|done]|lia]. }
  destruct (Z.ltb_spec deadline t1); [left; eauto|].
  destruct (waitWithinDeadline _ _ _ _) as [t2|e|] eqn:Hwt; [right|left; eauto..].
  apply wait_passes in Hwt; [|done..]. exists t2. split; [lia|]. split; [lia|done].
Qed.

Ltac wait_more Hd :=
  match goal with
  | |- is_Some (waitLoop (S ?f) ?d ?dl ?k ?w ?t) =>
      let H := fresh in
      destruct (waitLoop_step f d dl k w t Hd) as [|(? & ? & ? & H)];
      [vm_compute; reflexivity|assumption|];
      rewrite H; let w' := eval vm_compute in (nextCooldown w) in change (nextCooldown w) with w'
  end.

(** The wait for the orchestrator of a restored allocation ends after at most twelve
    attempts, whatever the network and the orchestrator do and however long they take. *)
Theorem waitForOrch_ends dials start :
  (∀ k, timely (dials k)) → ∃ r k, waitForOrch 12 dials start = Some (r, k).
Proof.
  intros Hd. unfold waitForOrch. assert (is_Some (waitLoop 12 dials (start + giveUpAfter) 0 initialCooldown start)) as [[r k] ->]; [|eauto].
  change initialCooldown with 15000000000. change giveUpAfter with 10800000000000.
  do 12 wait_more Hd. lia.
Qed.

(** A network that never answers. *)
Definition unreachable : DialAttempt := mkDial false 0 (λ _, InvokeError) (λ _, 0) false 0.

Lemma unreachable_timely : timely unreachable.
Proof. done. Qed.

Lemma waitForOrch_ends_witness : ∃ r k, waitForOrch 12 (λ _, unreachable) 0 = Some (r, k).
Proof. apply (waitForOrch_ends (λ _, unreachable) 0). intros _. apply unreachable_timely. Defined.

(** Twelve attempts are made when timers are exact: the one at the deadline does not end the
    wait, which is then an hour longer. *)
Example twelve_attempts :
  waitForOrch 12 (λ _, unreachable) 0 = Some (Err ErrGiveUp, 11%nat) ∧ waitForOrch 11 (λ _, unreachable) 0 = None.
Proof. by vm_compute. Qed.

(** ** The books of the allocator *)

(** What is committed or allocated here is so in the resource manager, and the allocated
    is stored. *)
Record books_ok (a : allocator) : Prop := {
  bk_commits : dom (commits a) = dom (committedResources (a_resources a));
  bk_allocs : dom (a_allocations a) = dom (allocations (a_resources a));
  bk_db : dom (allocations (a_resources a)) ⊆ dom (db_allocations (a_resources a))
}.

(** Nothing fails that would leave something behind: the actor of an allocation starts, the
    executor removes executions, the database writes and volumes are unmounted. *)
Definition orderly (v : Env) : Prop :=
  env_deps v = true ∧ env_uuid_ok v = true ∧ AddBehavior_ok (env_alloc v) = true ∧ ActorStart_ok (env_alloc v) = true ∧
  Remove_ok (env_alloc v) = true ∧ env_db_ok v = true ∧ ∀ l, unmountVolumeOnHost v l = true.

Section books.
  Context `{Visit : MapVisit}.

Lemma checkCapacity_fields d r :
  let d' := (checkCapacity d r).2 in
  committedResources d' = committedResources d ∧ allocations d' = allocations d ∧ db_allocations d' = db_allocations d.
Proof.
  cbv zeta. unfold checkCapacity, GetFreeResources, GetOnboardedResources, freeFrom, subtractShared.
  repeat (case_match; simplify_eq/=; try done).
Qed.

Lemma CommitResources_fields d id r e d' :
  CommitResources d id r = (e, d') →
  allocations d' = allocations d ∧ db_allocations d' = db_allocations d ∧
  committedResources d' = match e with None => <[id := r]> (committedResources d) | Some _ => committedResources d end.
Proof.
  unfold CommitResources. case_bool_decide; [by intros [= <- <-]|]. destruct (IsCommitted d id); [by intros [= <- <-]|].
  pose proof (checkCapacity_fields d r) as Hc. destruct (checkCapacity d r) as [[e1|] d1]; simpl in Hc;
    intros [= <- <-]; simpl; naive_solver congruence.
Qed.

Lemma Restore_books h a id r p k ex : books_ok a → books_ok (RestoreAllocCommit h a id r p k ex).2.
Proof.
  intros [H1 H2 H3]. unfold RestoreAllocCommit. destruct (hardware_CheckCapacity h r) as [[|]|]; [|done..].
  destruct (CommitResources (a_resources a) id r) as [[e|] d] eqn:Hc; apply CommitResources_fields in Hc as (Ha & Hd & Hr);
    split; simpl; rewrite ?Ha, ?Hd, ?Hr, ?dom_insert_L; first [done|congruence].
Qed.

Lemma AllocateResources_fields d id d' :
  AllocateResources d id true = (None, d') →
  ∃ r, committedResources d !! id = Some r ∧ committedResources d' = delete id (committedResources d) ∧
    allocations d' = <[id := r]> (allocations d) ∧ db_allocations d' = <[id := r]> (db_allocations d).
Proof.
  unfold AllocateResources. destruct (committedResources d !! id) as [r|]; [|done].
  destruct (IsAllocated d id); [done|]. intros [= <-]. by exists r.
Qed.

Lemma AllocateResources_same d id e d' : AllocateResources d id true = (Some e, d') → d' = d.
Proof.
  unfold AllocateResources. destruct (committedResources d !! id) as [r|]; [|by intros [= _ <-]].
  destruct (IsAllocated d id); [by intros [= _ <-]|]. done.
Qed.

Lemma NewAllocation_ok d : NewAllocation d true true = Ok (mkAllocation d ∅ false AllocationPending (mkNetState "" "" ∅) ∅ 0 None true false 0 0).
Proof. done. Qed.

(** An allocation in an orderly world succeeds once the resources are its own. *)
Lemma Allocate_books v a id d cs : orderly v → books_ok a → books_ok (allocator_Allocate v a id d cs).1.2.
Proof.
  intros (Hd & Hu & Hb & Hs & _ & Hdb & _) Hok. unfold allocator_Allocate.
  destruct (commits a !! id) eqn:Hc; [|done]. destruct (hardware_CheckCapacity _ _) as [[|]|]; [|done..].
  destruct (negb (mountVolumeOnHost _ _)); [done|]. rewrite Hdb.
  destruct (AllocateResources (a_resources a) id true) as [[e|] m] eqn:Ha; [by apply AllocateResources_same in Ha as ->; destruct a|].
  apply AllocateResources_fields in Ha as (r & Hr & H1 & H2 & H3). rewrite Hd, Hu, NewAllocation_ok.
  unfold Allocation_Start. cbn. rewrite Hb, Hs. cbn. destruct Hok as [K1 K2 K3].
  split; simpl; rewrite ?H1, ?H2, ?H3, ?dom_delete_L, ?dom_insert_L; [congruence|congruence|set_solver].
Qed.

(** Nothing of the allocation is left, here or in the manager. *)
Definition gone (id : string) (a : allocator) : Prop :=
  commits a !! id = None ∧ a_allocations a !! id = None ∧
  committedResources (a_resources a) !! id = None ∧ allocations (a_resources a) !! id = None.

Lemma Terminate_removes w al : Remove_ok w = true → (Terminate w al).1.1 = None.
Proof.
  intros Hr. unfold Terminate, Cleanup. alloc_unfold. simpl. rewrite Hr.
  destruct (_ && _); [|done]. destruct (Allocation_Stop w al) as [[[e|] al1] o1]; done.
Qed.

(** A release in an orderly world. *)
Lemma Release_spec v a id :
  orderly v → books_ok a →
  let a' := (allocator_Release v a id).1.2 in
  books_ok a' ∧ commits a' = commits a ∧ committedResources (a_resources a') = committedResources (a_resources a) ∧
  a_allocations a' = delete id (a_allocations a) ∧ allocations (a_resources a') = delete id (allocations (a_resources a)).
Proof.
  intros (_ & _ & _ & _ & Hrm & Hdb & Hun) Hok. cbv zeta. unfold allocator_Release. cbn [a_allocations set_a_ports].
  destruct (a_allocations a !! id) as [al|] eqn:Hal.
  - pose proof (Terminate_removes (env_alloc v) al Hrm) as Ht. destruct (Terminate _ al) as [[e al1] o1]. simpl in Ht. subst e.
    destruct Hok as [K1 K2 K3]. assert (id ∈ dom (allocations (a_resources a))) as Hin by (rewrite <- K2; by apply elem_of_dom_2 in Hal).
    cbn. unfold DeallocateResources, IsAllocated, deleteAllocation. rewrite bool_decide_true by (by apply elem_of_dom). cbn.
    apply K3 in Hin as [r Hr]%elem_of_dom. rewrite Hr, Hdb, Hun. cbn. split_and!; try done.
    + split; cbn; rewrite ?dom_delete_L, ?dom_insert_L; [done| |set_solver].
      rewrite K2. set_solver.
    + by rewrite delete_insert_eq.
  - cbn. split_and!; try done; [by destruct Hok|by rewrite delete_id|].
    rewrite delete_id; [done|]. apply not_elem_of_dom. rewrite <- (bk_allocs a Hok). by apply not_elem_of_dom.
Qed.

Lemma Uncommit_spec a id :
  books_ok a →
  let a' := (Uncommit a id).2 in
  books_ok a' ∧ commits a' = delete id (commits a) ∧
  committedResources (a_resources a') = delete id (committedResources (a_resources a)) ∧
  a_allocations a' = a_allocations a ∧ allocations (a_resources a') = allocations (a_resources a).
Proof.
  intros Hok. cbv zeta. unfold Uncommit. cbn. destruct Hok as [K1 K2 K3]. destruct (commits a !! id) eqn:Hc.
  - assert (id ∈ dom (committedResources (a_resources a))) as Hin by (rewrite <- K1; by apply elem_of_dom_2 in Hc).
    unfold UncommitResources, IsCommitted. rewrite bool_decide_true by (by apply elem_of_dom). cbn. split_and!; try done.
    split; cbn; rewrite ?dom_delete_L; congruence || done.
  - cbn. split_and!; try done; [by rewrite delete_id|]. rewrite delete_id; [done|].
    apply not_elem_of_dom. rewrite <- K1. by apply not_elem_of_dom.
Qed.

End books.

(** ** A restoration that fails *)

Section rollback.
  Context `{Visit : MapVisit} `{Keys : KeyEncoding} (nodeDID workDir : string) (w : RecAnswers).
  Context (Hw : ∀ id, orderly (ra_env w id)).

Definition node_ok (n : RecNode) : Prop := books_ok (rn_allocator n).

Lemma releaseAndUncommit_spec id n :
  node_ok n →
  node_ok (releaseAndUncommit w id n) ∧ gone id (rn_allocator (releaseAndUncommit w id n)) ∧
  (∀ id', gone id' (rn_allocator n) → gone id' (rn_allocator (releaseAndUncommit w id n))) ∧
  rn_subnets (releaseAndUncommit w id n) = rn_subnets n.
Proof.
  intros Hn. unfold releaseAndUncommit, releaseOn. pose proof (Release_spec (ra_env w id) (rn_allocator n) id (Hw id) Hn) as H.
  destruct (allocator_Release _ _ id) as [[r a] o]. cbn in *. destruct H as (Hb & H1 & H2 & H3 & H4).
  destruct (Uncommit_spec a id Hb) as (Hb' & U1 & U2 & U3 & U4). split; [done|]. unfold gone.
  rewrite U1, U2, U3, U4, H1, H2, H3, H4, !lookup_delete_eq. split; [done|]. split; [|done].
  intros id' (G1 & G2 & G3 & G4). destruct (decide (id = id')) as [->|Hne]; [by rewrite !lookup_delete_eq|].
  rewrite !lookup_delete_ne by done. done.
Qed.

Lemma rollback_ids ids n :
  node_ok n →
  let n' := fold_left (λ n id, releaseAndUncommit w id n) ids n in
  (∀ id, id ∈ ids ∨ gone id (rn_allocator n) → gone id (rn_allocator n')) ∧ rn_subnets n' = rn_subnets n.
Proof.
  revert n. induction ids as [|i ids IH]; intros n Hn; cbn; [split; [|done]; intros id [H|H]; [by apply not_elem_of_nil in H|done]|].
  destruct (releaseAndUncommit_spec i n Hn) as (Hn' & Hi & Hk & Hs). destruct (IH _ Hn') as [IH1 IH2].
  split; [|congruence]. intros id [[->|H]%elem_of_cons|H]; apply IH1; auto.
Qed.

Lemma destroy_all ids n :
  (∀ id, ra_DestroySubnet w id = true) →
  let n' := fold_left (λ n id, (destroySubnetOn w id n).2) ids n in
  rn_allocator n' = rn_allocator n ∧ rn_subnets n' = rn_subnets n ∖ list_to_set ids.
Proof.
  intros Hd. revert n. induction ids as [|i ids IH]; intros n; cbn; [split; [done|set_solver]|].
  unfold destroySubnetOn at 2 4. rewrite Hd. cbn. destruct (IH (with_subnets n (rn_subnets n ∖ {[i]}) (rn_subnetStatus n))) as [-> ->].
  cbn. split; [done|set_solver].
Qed.

Lemma rollback_leaves_nothing ap n :
  (∀ id, ra_DestroySubnet w id = true) → node_ok n →
  let n' := rollbackRestoredAlloc w ap n in
  (∀ id, id ∈ dom (ap_Allocations ap) → gone id (rn_allocator n')) ∧ rn_subnets n' = rn_subnets n ∖ subnetsOf ap.
Proof.
  intros Hd Hn. unfold rollbackRestoredAlloc.
  destruct (destroy_all (visit (elements (subnetsOf ap))) n Hd) as [Ha Hs].
  set (n1 := fold_left _ (visit (elements _)) n) in *.
  destruct (rollback_ids (map fst (visit (map_to_list (ap_Allocations ap)))) n1) as [Hg Hs2]; [unfold node_ok; by rewrite Ha|].
  split.
  - intros id [s Hid]%elem_of_dom. apply Hg. left. apply list_elem_of_In, in_map_iff. exists (id, s). split; [done|].
    apply list_elem_of_In. rewrite visit_perm. by apply elem_of_map_to_list.
  - rewrite Hs2, Hs. f_equal. apply set_eq. intros x. rewrite elem_of_list_to_set, visit_perm. apply elem_of_elements.
Qed.

(** *** Every step of a restoration keeps the books *)

Lemma forEach_ok {A} (P : RecNode → Prop) (f : A → RecNode → option rec_error * RecNode) l n :
  (∀ x n, P n → P (f x n).2) → P n → P (forEach f l n).2.
Proof.
  intros Hf. revert n. induction l as [|x l IH]; intros n Hn; cbn; [done|].
  pose proof (Hf x n Hn) as H. destruct (f x n) as [[e|] n1]; [done|by apply IH].
Qed.

Lemma restoreCommit_ok id s n : node_ok n → node_ok (restoreCommit w id s n).2.
Proof.
  intros Hn. unfold restoreCommit.
  pose proof (Restore_books (env_hw (ra_env w id)) (rn_allocator n) id (as_Resources s) (as_Ports s) (as_DynamicPortsNum s) (ra_expiry w) Hn) as H.
  destruct (RestoreAllocCommit _ _ _ _ _ _ _) as [[u|e|] a]; [|done..]. by destruct (decodeKey _).
Qed.

Lemma createOne_ok ens sup id c n : node_ok n → node_ok (createOne nodeDID workDir w ens sup id c n).2.
Proof.
  intros Hn. unfold createOne, createAllocation, grantCaps.
  destruct (createExecutor w id (sp_Type (dc_Execution c))) as [u|e|]; [|done..]. destruct (negb (ra_CreateChild w id)); [done|].
  pose proof (Allocate_books (ra_env w id) (rn_allocator n) id (detailsOf nodeDID workDir w id c sup ens) (dc_Contracts c) (Hw id) Hn) as H.
  destruct (allocator_Allocate _ _ _ _ _) as [[[al|e|] a] o]; [|done..].
  destruct (ra_FromID w id); [|done]. destruct (negb (ra_Grant w s)); [done|]. by destruct (negb (ra_Grant w nodeDID)).
Qed.

Lemma restoreSubnets_allocator l created n :
  rn_allocator (restoreSubnets w l created n).2 = rn_allocator n ∧ rn_live (restoreSubnets w l created n).2 = rn_live n.
Proof.
  revert created n. induction l as [|[id s] l IH]; intros created n; [done|]. cbn [restoreSubnets].
  assert (H : rn_allocator (restoreSubnet w id s created n).2 = rn_allocator n ∧ rn_live (restoreSubnet w id s created n).2 = rn_live n).
  { unfold restoreSubnet, createSubnetOn. repeat case_match; simplify_eq/=; done. }
  destruct (restoreSubnet w id s created n) as [[[e|] c'] n']; cbn in H; [done|]. destruct (IH c' n') as [-> ->]. done.
Qed.

Lemma restoreRun_ok id s n : node_ok n → node_ok (restoreRun w id s n).2.
Proof.
  intros Hn. unfold restoreRun, allocator_GetAllocation. destruct (a_allocations (rn_allocator n) !! id) as [al|] eqn:Hal; [|done].
  destruct (Run _ _ _ _ al) as [[e al1] o].
  assert (books_ok (set_a_allocations (rn_allocator n) (<[id:=al1]> (a_allocations (rn_allocator n))))) as Hb.
  { destruct Hn as [K1 K2 K3]. split; cbn; [done| |done]. rewrite dom_insert_L, <- K2. apply elem_of_dom_2 in Hal. set_solver. }
  destruct e; [done|]. cbn. case_bool_decide; [done|]. by destruct (ra_GetInfo w id).
Qed.

Lemma restoreSteps_ok ap n : node_ok n → node_ok (restoreSteps nodeDID workDir w ap n).2.
Proof.
  intros Hn. unfold restoreSteps. set (l := visit _).
  assert (H1 : node_ok (forEach (λ '(id, s), restoreCommit w id s) l n).2).
  { apply forEach_ok; [|done]. intros [id s] m. apply restoreCommit_ok. }
  destruct (forEach _ l n) as [[e|] n1]; [done|]. cbn in H1.
  assert (H2 : node_ok (createAllocations nodeDID workDir w (ap_EnsembleID ap) (configsOf ap) (ap_Orchestrator ap) n1).2).
  { unfold createAllocations. case_bool_decide; [done|]. destruct (_ || _); [done|].
    apply forEach_ok; [|done]. intros [id c] m. apply createOne_ok. }
  destruct (createAllocations _ _ _ _ _ _ _) as [[e|] n2]; [done|]. cbn in H2.
  destruct (restoreSubnets_allocator l ∅ n2) as [H3 _].
  destruct (restoreSubnets w l ∅ n2) as [[e|] n3]; cbn in H3; unfold node_ok in *; rewrite <- H3 in H2; [done|].
  unfold addEnsembleBehaviors. destruct (negb (ra_AddBehavior w _)); [done|].
  apply (forEach_ok node_ok); [|done]. intros [id s] m. apply restoreRun_ok.
Qed.

(** *** The subnets a restoration makes *)

(** The names of the subnets of the allocations of a record, the empty one included. *)
Definition named (ap : AllocationsStatePersist) (x : string) : Prop :=
  ∃ id s, ap_Allocations ap !! id = Some s ∧ nm_subnetID (as_Network s) = x.

Lemma named_subnetsOf ap x : named ap x → x ≠ "" → x ∈ subnetsOf ap.
Proof.
  intros (id & s & Hs & Hx) Hne. unfold subnetsOf. apply elem_of_union. right. rewrite elem_of_list_to_set, list_elem_of_In, filter_In.
  split; [|by rewrite bool_decide_false]. apply in_map_iff. exists (id, s). split; [done|].
  by apply list_elem_of_In, elem_of_map_to_list.
Qed.

Lemma restoreSubnets_named l created n x :
  x ∈ rn_subnets (restoreSubnets w l created n).2 → x ∈ rn_subnets n ∨ ∃ id s, (id, s) ∈ l ∧ nm_subnetID (as_Network s) = x.
Proof.
  clear Hw. revert created n. induction l as [|[id s] l IH]; intros created n; [by left|]. cbn [restoreSubnets].
  assert (H : x ∈ rn_subnets (restoreSubnet w id s created n).2 → x ∈ rn_subnets n ∨ x = nm_subnetID (as_Network s)).
  { unfold restoreSubnet, createSubnetOn. repeat case_match; simplify_eq/=; set_solver. }
  destruct (restoreSubnet w id s created n) as [[[e|] c'] n']; cbn in H.
  - intros [?|Hx]%H; [by left|right]. exists id, s. split; [left|done].
  - intros [[?|Hx]%H|(i & s' & Hin & ?)]%IH; [by left| |]; right; [exists id, s|exists i, s']; (split; [|done]); [left|by right].
Qed.

Definition keeps_subnets (n n' : RecNode) : Prop := rn_subnets n' = rn_subnets n.

Lemma restoreSteps_named ap n x :
  x ∈ rn_subnets (restoreSteps nodeDID workDir w ap n).2 → x ∈ rn_subnets n ∨ named ap x.
Proof.
  clear Hw. unfold restoreSteps. set (l := visit _).
  assert (H1 : keeps_subnets n (forEach (λ '(id, s), restoreCommit w id s) l n).2).
  { apply forEach_ok; [|done]. intros [id s] m. unfold keeps_subnets, restoreCommit. intros <-. by repeat case_match. }
  destruct (forEach _ l n) as [[e|] n1]; unfold keeps_subnets in H1; cbn in *; [rewrite H1; auto|].
  assert (H2 : keeps_subnets n1 (createAllocations nodeDID workDir w (ap_EnsembleID ap) (configsOf ap) (ap_Orchestrator ap) n1).2).
  { unfold createAllocations. case_bool_decide; [done|]. destruct (_ || _); [done|].
    apply forEach_ok; [|done]. intros [id c] m. unfold keeps_subnets, createOne, createAllocation, grantCaps. intros <-. by repeat (case_match; simplify_eq/=). }
  destruct (createAllocations _ _ _ _ _ _ _) as [[e|] n2]; unfold keeps_subnets in H2; cbn in *; [rewrite H2, H1; auto|].
  pose proof (restoreSubnets_named l ∅ n2 x) as H3. rewrite H2, H1 in H3.
  assert (Hl : (∃ id s, (id, s) ∈ l ∧ nm_subnetID (as_Network s) = x) → named ap x).
  { intros (id & s & Hin & Hx). exists id, s. split; [|done]. unfold l in Hin. by rewrite visit_perm, elem_of_map_to_list in Hin. }
  destruct (restoreSubnets w l ∅ n2) as [[e|] n3]; cbn in *; [intros [?|?]%H3; auto|].
  unfold addEnsembleBehaviors. destruct (negb (ra_AddBehavior w _)); cbn; [intros [?|?]%H3; auto|].
  match goal with |- context [forEach ?f l ?m] => assert (H4 : keeps_subnets m (forEach f l m).2) end.
  { apply forEach_ok; [|done]. intros [id s] m. unfold keeps_subnets, restoreRun. intros <-. by repeat (case_match; simplify_eq/=). }
  unfold keeps_subnets in H4. rewrite H4. cbn. intros [?|?]%H3; auto.
Qed.

End rollback.

(** C16: when the restoration of the allocations of an ensemble fails, in a world where actors
    start and executions, volumes, subnets and stored resources can be removed, and the
    books of the allocator agree with those of the resource manager before, nothing of
    it is left: no allocation, no commitment and no resources of any of them, in the
    allocator or in the resource manager, no subnet of any of them that has a name, and no
    subnet at all that was not there before, except the one with the empty name, which the
    restoration makes for an allocation without a subnet and the rollback skips. *)
Theorem failed_restore_leaves_nothing `{Visit : MapVisit} `{Keys : KeyEncoding} nodeDID workDir w ap n e n' :
  (∀ id, orderly (ra_env w id)) → (∀ id, ra_DestroySubnet w id = true) → books_ok (rn_allocator n) →
  restoreAllocations nodeDID workDir w ap n = (Some e, n') →
  (∀ id, id ∈ dom (ap_Allocations ap) → gone id (rn_allocator n')) ∧
  (∀ id s, ap_Allocations ap !! id = Some s → nm_subnetID (as_Network s) ≠ "" → nm_subnetID (as_Network s) ∉ rn_subnets n') ∧
  (∀ x, x ∈ rn_subnets n' → x ∈ rn_subnets n ∨ x = "").
Proof.
  intros Hw Hd Hn. unfold restoreAllocations. pose proof (restoreSteps_ok nodeDID workDir w Hw ap n Hn) as H.
  pose proof (λ x, restoreSteps_named nodeDID workDir w ap n x) as Hnamed.
  destruct (restoreSteps _ _ _ _ _) as [[e1|] n1]; [|done]. intros [= <- <-].
  destruct (rollback_leaves_nothing w Hw ap n1 Hd H) as [Hgone Hs]. split; [done|]. rewrite Hs. split.
  - intros id s Hid Hne [_ Hx]%elem_of_difference. apply Hx. apply named_subnetsOf; [|done]. by exists id, s.
  - intros x [Hx Hout]%elem_of_difference. destruct (Hnamed x Hx) as [?|Hna]; [by left|right].
    destruct (decide (x = "")) as [->|Hne]; [done|]. by destruct Hout; apply named_subnetsOf.
Qed.

(** ** A restoration that succeeds *)

Section restored.
  Context `{Visit : MapVisit} `{Keys : KeyEncoding} (nodeDID workDir : string) (w : RecAnswers) (ap : AllocationsStatePersist).

(** A state as it was stored for a running allocation of the ensemble: the key is the one
    that was encoded, and the ports are those it runs with. *)
Definition stored_ok (id : string) (s : AllocationState) : Prop :=
  as_AllocationID s = id ∧ as_DeploymentID s = ap_EnsembleID ap ∧ as_Orchestrator s = ap_Orchestrator ap ∧
  (∃ k, decodeKey (as_PrivKeyB64 s) = Some k ∧ encodeKey k = Some (as_PrivKeyB64 s)) ∧
  (PortMapping (as_NetState s) ≠ ∅ → as_Ports s = PortMapping (as_NetState s)).

Definition with_info (s : AllocationState) (x : ExecutorInfo) : AllocationState :=
  mkAllocState (as_AllocationID s) (as_PrivKeyB64 s) (as_DeploymentID s) (as_Type s) (as_Orchestrator s) (as_Resources s)
    (as_Execution s) (as_ProvisionScripts s) (as_Keys s) (as_Volume s) (as_Contracts s) (as_NetState s) x (as_Ports s) (as_DynamicPortsNum s) (as_Network s).

(** A loop over distinct keys whose steps do not touch what other keys need or got. *)
Lemma forEach_each {V} (f : string * V → RecNode → option rec_error * RecNode) (Pre Post : string → V → RecNode → Prop) l n n' :
  NoDup (map fst l) →
  (∀ k v n n1, Pre k v n → f (k, v) n = (None, n1) → Post k v n1) →
  (∀ k v n n1 k' v', f (k, v) n = (None, n1) → k' ≠ k → (Pre k' v' n → Pre k' v' n1) ∧ (Post k' v' n → Post k' v' n1)) →
  (∀ k v, (k, v) ∈ l → Pre k v n) → forEach f l n = (None, n') → ∀ k v, (k, v) ∈ l → Post k v n'.
Proof.
  intros Hnd Hstep Hframe Hpre. revert n Hnd Hpre. induction l as [|[k v] l IH]; intros n Hnd Hpre Hrun k' v' Hin;
    [by apply not_elem_of_nil in Hin|]. cbn in Hrun, Hnd. apply NoDup_cons in Hnd as [Hk Hnd].
  destruct (f (k, v) n) as [[e|] n1] eqn:Hf; [done|].
  assert (Hother : ∀ k' v', (k', v') ∈ l → k' ≠ k).
  { intros k0 v0 H0 ->. apply Hk. apply list_elem_of_In, in_map_iff. exists (k, v0). split; [done|]. by apply list_elem_of_In. }
  apply elem_of_cons in Hin as [[= -> ->]|Hin].
  - assert (Post k v n1) as HP by (eapply Hstep; [apply Hpre; left|done]).
    clear IH Hpre Hf Hnd Hk. revert n1 HP Hrun. induction l as [|[k1 v1] l IH2]; intros n1 HP Hrun; cbn in Hrun; [by simplify_eq|].
    destruct (f (k1, v1) n1) as [[e|] n2] eqn:Hf1; [done|].
    assert (k1 ≠ k) by (apply (Hother k1 v1); left). eapply IH2; [intros k0 v0 H0; eapply Hother; by right| |done].
    by eapply Hframe.
  - eapply (IH n1); [done| |done|done]. intros k0 v0 H0. eapply Hframe; [done|by eapply Hother|]. apply Hpre. by right.
Qed.

Lemma Run_fields v ip gw pm al al' o :
  status al ≠ AllocationRunning → Run v ip gw pm al = (None, al', o) →
  details al' = details al ∧ Contracts al' = Contracts al ∧ NetState al' = mkNetState ip gw pm ∧
  ports al' = (if bool_decide (pm ≠ ∅) then pm else ports al) ∧ dynamicPortsNum al' = dynamicPortsNum al ∧
  status al' = AllocationRunning.
Proof.
  intros Hs. unfold Run, runBody. intros H. alloc_unfold. destruct al as [d cs ar st net p k sa le lc rp wt]. simpl in *.
  alloc_cases; simplify_eq/=; done.
Qed.

Lemma Allocate_fields v a id d cs al a' o :
  allocator_Allocate v a id d cs = (Ok al, a', o) →
  details al = with_ID d id ∧ Contracts al = cs ∧ ports al = default ∅ (commitPorts a !! id) ∧
  dynamicPortsNum al = default 0 (commitDynamicPorts a !! id) ∧ status al = AllocationPending ∧
  a_allocations a' = <[id := al]> (a_allocations a) ∧ commitPorts a' = delete id (commitPorts a) ∧
  commitDynamicPorts a' = delete id (commitDynamicPorts a).
Proof.
  unfold allocator_Allocate. destruct (commits a !! id); [|done]. destruct (hardware_CheckCapacity _ _) as [[|]|]; [|done..].
  destruct (negb (mountVolumeOnHost _ _)); [done|]. destruct (AllocateResources _ _ _) as [[e|] m]; [done|].
  unfold NewAllocation. destruct (env_deps v), (env_uuid_ok v); try done. unfold Allocation_Start. cbn.
  destruct (AddBehavior_ok (env_alloc v)); [|done]. destruct (ActorStart_ok (env_alloc v)); [|done]. cbn. intros [= <- <- <-]. done.
Qed.

(** What each part of the restoration leaves for an allocation. *)
Definition committed (id : string) (s : AllocationState) (n : RecNode) : Prop :=
  commitPorts (rn_allocator n) !! id = Some (as_Ports s) ∧ commitDynamicPorts (rn_allocator n) !! id = Some (as_DynamicPortsNum s).

Definition created (id : string) (s : AllocationState) (n : RecNode) : Prop :=
  ∃ al l, a_allocations (rn_allocator n) !! id = Some al ∧ rn_live n !! id = Some l ∧ status al = AllocationPending ∧
    details al = with_ID (detailsOf nodeDID workDir w id (configOf s (default "" (decodeKey (as_PrivKeyB64 s)))) (ap_Orchestrator ap) (ap_EnsembleID ap)) id ∧
    Contracts al = as_Contracts s ∧ ports al = as_Ports s ∧ dynamicPortsNum al = as_DynamicPortsNum s ∧
    lv_key l = Some (default "" (decodeKey (as_PrivKeyB64 s))) ∧ lv_orchestrator l = ap_Orchestrator ap ∧ lv_execution l = as_Execution s ∧
    lv_scripts l = as_ProvisionScripts s ∧ lv_keys l = as_Keys s.

Definition restored (id : string) (s : AllocationState) (n : RecNode) : Prop :=
  ∃ al l, a_allocations (rn_allocator n) !! id = Some al ∧ rn_live n !! id = Some l ∧ status al = AllocationRunning ∧
    PersistState al l = with_info s (default (as_ExecutorInfo s) (ra_GetInfo w id)).

Lemma restoreCommit_fields id s n n1 :
  restoreCommit w id s n = (None, n1) →
  commitPorts (rn_allocator n1) = <[id := as_Ports s]> (commitPorts (rn_allocator n)) ∧
  commitDynamicPorts (rn_allocator n1) = <[id := as_DynamicPortsNum s]> (commitDynamicPorts (rn_allocator n)).
Proof.
  unfold restoreCommit, RestoreAllocCommit. destruct (hardware_CheckCapacity _ _) as [[|]|]; [|done..].
  destruct (CommitResources _ _ _) as [[e|] d]; [done|]. destruct (decodeKey _); [|done]. by intros [= <-].
Qed.

Lemma commits_restored l n n' :
  NoDup (map fst l) → forEach (λ '(id, s), restoreCommit w id s) l n = (None, n') →
  ∀ id s, (id, s) ∈ l → committed id s n'.
Proof.
  intros Hnd Hrun. eapply (forEach_each _ (λ _ _ _, True) committed); [done| | |done|exact Hrun].
  - intros k v m m1 _ [H1 H2]%restoreCommit_fields. unfold committed. by rewrite H1, H2, !lookup_insert_eq.
  - intros k v m m1 k' v' [H1 H2]%restoreCommit_fields Hne. split; [done|]. unfold committed.
    by rewrite H1, H2, !lookup_insert_ne.
Qed.

(** Creating one allocation, when it succeeds. *)
Lemma createOne_fields ens sup id c n n1 :
  createOne nodeDID workDir w ens sup id c n = (None, n1) →
  ∃ al, a_allocations (rn_allocator n1) = <[id := al]> (a_allocations (rn_allocator n)) ∧
    rn_live n1 = <[id := mkLive (Some (default (ra_childKey w id) (dc_Identity c))) sup (dc_Execution c) (dc_ProvisionScripts c) (dc_Keys c) NetworkMetadata_zero ExecutorInfo_zero]> (rn_live n) ∧
    commitPorts (rn_allocator n1) = delete id (commitPorts (rn_allocator n)) ∧
    commitDynamicPorts (rn_allocator n1) = delete id (commitDynamicPorts (rn_allocator n)) ∧
    details al = with_ID (detailsOf nodeDID workDir w id c sup ens) id ∧ Contracts al = dc_Contracts c ∧
    ports al = default ∅ (commitPorts (rn_allocator n) !! id) ∧
    dynamicPortsNum al = default 0 (commitDynamicPorts (rn_allocator n) !! id) ∧ status al = AllocationPending.
Proof.
  unfold createOne, createAllocation, grantCaps. destruct (createExecutor _ _ _) as [u|e|]; [|done..].
  destruct (negb (ra_CreateChild w id)); [done|].
  destruct (allocator_Allocate _ _ _ _ _) as [[[al|e|] a] o] eqn:Ha; [|done..].
  apply Allocate_fields in Ha as (H1 & H2 & H3 & H4 & H5 & H6 & H7 & H8).
  destruct (ra_FromID w id); [|done]. destruct (negb (ra_Grant w s)); [done|]. destruct (negb (ra_Grant w nodeDID)); [done|].
  intros [= <-]. exists al. by split_and!.
Qed.

Lemma allocations_created n n' :
  (∀ id s, ap_Allocations ap !! id = Some s → committed id s n) →
  createAllocations nodeDID workDir w (ap_EnsembleID ap) (configsOf ap) (ap_Orchestrator ap) n = (None, n') →
  ∀ id s, ap_Allocations ap !! id = Some s → created id s n'.
Proof.
  intros Hc. unfold createAllocations. case_bool_decide; [done|]. destruct (_ || _); [done|]. intros Hrun.
  assert (Hcfg : ∀ k c, (k, c) ∈ visit (map_to_list (configsOf ap)) →
    ∃ s, ap_Allocations ap !! k = Some s ∧ c = configOf s (default "" (decodeKey (as_PrivKeyB64 s)))).
  { intros k c. rewrite visit_perm, elem_of_map_to_list. unfold configsOf. rewrite lookup_fmap_Some. naive_solver. }
  assert (Hall := forEach_each (λ '(id, c), createOne nodeDID workDir w (ap_EnsembleID ap) (ap_Orchestrator ap) id c)
    (λ k c n, ∀ s, ap_Allocations ap !! k = Some s → committed k s n ∧ c = configOf s (default "" (decodeKey (as_PrivKeyB64 s))))
    (λ k c n, ∀ s, ap_Allocations ap !! k = Some s → created k s n) (visit (map_to_list (configsOf ap))) n n').
  intros id s Hs.
  assert (Hin : (id, configOf s (default "" (decodeKey (as_PrivKeyB64 s)))) ∈ visit (map_to_list (configsOf ap))).
  { rewrite visit_perm, elem_of_map_to_list. unfold configsOf. rewrite lookup_fmap, Hs. done. }
  eapply Hall; [| | | |exact Hrun|exact Hin|exact Hs].
  - rewrite (visit_perm (map_to_list (configsOf ap))). apply NoDup_fst_map_to_list.
  - intros k c m m1 Hpre (al & A1 & A2 & _ & _ & A5 & A6 & A7 & A8 & A9)%createOne_fields s0 Hs0.
    destruct (Hpre s0 Hs0) as [[P1 P2] ->]. unfold created. rewrite A1, A2, !lookup_insert_eq. rewrite P1 in A7. rewrite P2 in A8.
    eexists _, _. by split_and!.
  - intros k c m m1 k' c' (al & A1 & A2 & A3 & A4 & _)%createOne_fields Hne. split.
    + intros Hpre s0 Hs0. unfold committed. rewrite A3, A4, !lookup_delete_ne by done. by apply Hpre.
    + intros Hpost s0 Hs0. unfold created. rewrite A1, A2, !lookup_insert_ne by done. by apply Hpost.
  - intros k c (s1 & Hs1 & ->)%Hcfg s0 Hs0. simplify_eq. split; [by apply Hc|done].
Qed.

(** Starting one allocation that was created. *)
Lemma restoreRun_restored id s n n1 :
  stored_ok id s → created id s n → restoreRun w id s n = (None, n1) → restored id s n1.
Proof.
  intros (S1 & S2 & S3 & (k & S4 & S4') & S5) (al & l & C1 & C2 & C3 & C4 & C5 & C6 & C7 & C8 & C9 & C10 & C11 & C12).
  unfold restoreRun, allocator_GetAllocation. rewrite C1.
  destruct (Run _ _ _ _ al) as [[[e|] al1] o] eqn:Hr; [done|]. apply Run_fields in Hr as (R1 & R2 & R3 & R4 & R5 & R6); [|by rewrite C3].
  rewrite bool_decide_false by (by rewrite C3). intros [= <-].
  assert (Hports : ports al1 = as_Ports s).
  { rewrite R4. case_bool_decide as Hp; [by rewrite S5|done]. }
  assert (HP : ∀ l', lv_key l' = lv_key l → lv_orchestrator l' = lv_orchestrator l → lv_execution l' = lv_execution l → lv_scripts l' = lv_scripts l → lv_keys l' = lv_keys l →
    lv_network l' = as_Network s → PersistState al1 l' = with_info s (lv_executor l')).
  { intros l' L1 L2 L3 L5 L6 L4. unfold PersistState. rewrite L1, C8, S4. cbn. rewrite S4', R1, C4, L2, C9, L3, C10, L5, C11, L6, C12, R2, C5, R3, Hports, R5, C7, L4.
    unfold with_info, with_ID, detailsOf, configOf. cbn. rewrite S1, S2, S3. by destruct (as_NetState s). }
  unfold restored. destruct (ra_GetInfo w id) as [info|]; cbn; rewrite lookup_insert_eq, ?lookup_alter_eq, C2;
    (eexists al1, _; split; [done|]; split; [done|]; split; [done|]; by apply HP).
Qed.

Lemma restoreRun_frame id s n n1 id' :
  restoreRun w id s n = (None, n1) → id' ≠ id →
  a_allocations (rn_allocator n1) !! id' = a_allocations (rn_allocator n) !! id' ∧ rn_live n1 !! id' = rn_live n !! id'.
Proof.
  intros H Hne. unfold restoreRun in H. destruct (allocator_GetAllocation _ _) as [al|e|]; [|done..].
  destruct (Run _ _ _ _ al) as [[[e|] al1] o]; [done|]. injection H as <-.
  case_bool_decide; [|destruct (ra_GetInfo w id)]; cbn; by rewrite lookup_insert_ne, ?lookup_alter_ne by done.
Qed.

Lemma allocations_restored l n n' :
  NoDup (map fst l) → (∀ id s, (id, s) ∈ l → stored_ok id s ∧ created id s n) →
  forEach (λ '(id, s), restoreRun w id s) l n = (None, n') → ∀ id s, (id, s) ∈ l → restored id s n'.
Proof.
  intros Hnd Hpre Hrun. eapply (forEach_each _ (λ id s n, stored_ok id s ∧ created id s n) restored); [done| | |exact Hpre|exact Hrun].
  - intros k v m m1 [H1 H2] H3. by eapply restoreRun_restored.
  - intros k v m m1 k' v' H Hne. destruct (restoreRun_frame _ _ _ _ k' H Hne) as [E1 E2].
    unfold created, restored. rewrite E1, E2. done.
Qed.

End restored.

(** C15: when the restoration of a record succeeds whose states were stored for running
    allocations of it (each under its own identifier, for this ensemble and orchestrator, with
    a key that decodes and encodes again and, if it mapped ports, the ports it ran with), every
    allocation of it runs, and what would be stored of it now is what was stored, private key,
    execution with its parameters, scripts, keys, volumes, contracts, addresses, ports and
    network metadata included, apart from what the executor says of the new execution. *)
Theorem restored_as_persisted `{Visit : MapVisit} `{Keys : KeyEncoding} nodeDID workDir w ap n n' :
  (∀ id s, ap_Allocations ap !! id = Some s → stored_ok ap id s) →
  restoreAllocations nodeDID workDir w ap n = (None, n') →
  ∀ id s, ap_Allocations ap !! id = Some s →
    ∃ al l, a_allocations (rn_allocator n') !! id = Some al ∧ rn_live n' !! id = Some l ∧ status al = AllocationRunning ∧
      PersistState al l = with_info s (default (as_ExecutorInfo s) (ra_GetInfo w id)).
Proof.
  intros Hst. unfold restoreAllocations, restoreSteps. set (l := visit _).
  assert (Hl : ∀ id s, (id, s) ∈ l ↔ ap_Allocations ap !! id = Some s).
  { intros id s. unfold l. by rewrite visit_perm, elem_of_map_to_list. }
  assert (Hnd : NoDup (map fst l)).
  { unfold l. rewrite (visit_perm (map_to_list (ap_Allocations ap))). apply NoDup_fst_map_to_list. }
  destruct (forEach _ l n) as [[e|] n1] eqn:H1; [done|]. pose proof (commits_restored w l n n1 Hnd H1) as Hc.
  destruct (createAllocations _ _ _ _ _ _ _) as [[e|] n2] eqn:H2; [done|].
  assert (Hcr := allocations_created nodeDID workDir w ap n1 n2 (λ id s H, Hc id s (proj2 (Hl id s) H)) H2).
  destruct (restoreSubnets_allocator w l ∅ n2) as [A1 A2]. destruct (restoreSubnets w l ∅ n2) as [[e|] n3]; [done|].
  unfold addEnsembleBehaviors. destruct (negb (ra_AddBehavior w _)); [done|].
  destruct (forEach _ l (with_behaviors _ _)) as [[e|] n4] eqn:H4; [done|]. intros [= <-] id s Hs.
  eapply (allocations_restored nodeDID workDir w ap l _ n4 Hnd); [|exact H4|by apply Hl].
  intros id0 s0 H0%Hl. split; [by apply Hst|]. unfold created. cbn in *. rewrite A1, A2. by apply Hcr.
Qed.

(** ** The records *)

(** Records are stored under their identifiers, there is one for each ensemble, and an
    allocation is in one of them. *)
Record repo_ok (repo : Repo) : Prop := {
  rp_id : ∀ id ap, repo !! id = Some ap → ap_ID ap = id;
  rp_ensemble : ∀ id id' ap ap', repo !! id = Some ap → repo !! id' = Some ap' → ap_EnsembleID ap = ap_EnsembleID ap' → id = id';
  rp_alloc : ∀ id id' ap ap' a, repo !! id = Some ap → repo !! id' = Some ap' →
    is_Some (ap_Allocations ap !! a) → is_Some (ap_Allocations ap' !! a) → id = id'
}.

Section records.
  Context `{Visit : MapVisit}.

Lemma repo_values_NoDup (repo : Repo) : (∀ id ap, repo !! id = Some ap → ap_ID ap = id) → NoDup (map snd (map_to_list repo)).
Proof.
  intros Hid. apply (NoDup_fmap_1 ap_ID). change (map snd (map_to_list repo)) with ((map_to_list repo).*2).
  rewrite <- list_fmap_compose. replace ((ap_ID ∘ snd) <$> map_to_list repo) with ((map_to_list repo).*1); [apply NoDup_fst_map_to_list|].
  apply list_fmap_ext. intros i [id ap] Hl. cbn. symmetry. apply Hid, elem_of_map_to_list. by apply list_elem_of_lookup_2 in Hl.
Qed.

Lemma elem_of_values (repo : Repo) ap : ap ∈ visit (map snd (map_to_list repo)) ↔ ∃ id, repo !! id = Some ap.
Proof.
  rewrite visit_perm. rewrite list_elem_of_In, in_map_iff. split.
  - intros ([id ap'] & <- & H%list_elem_of_In). exists id. by apply elem_of_map_to_list.
  - intros [id H]. exists (id, ap). split; [done|]. by apply list_elem_of_In, elem_of_map_to_list.
Qed.

Lemma elem_of_findRecords ens (repo : Repo) ap : In ap (findRecords ens repo) ↔ ap_EnsembleID ap = ens ∧ ∃ id, repo !! id = Some ap.
Proof. unfold findRecords. rewrite filter_List_In, bool_decide_eq_true, <- elem_of_values, list_elem_of_In. tauto. Qed.

Lemma findRecords_NoDup ens (repo : Repo) : (∀ id ap, repo !! id = Some ap → ap_ID ap = id) → List.NoDup (findRecords ens repo).
Proof. intros Hid. unfold findRecords. apply List.NoDup_filter, NoDup_ListNoDup. rewrite visit_perm. by apply repo_values_NoDup. Qed.

(** The query finds the record of the ensemble, if there is one. *)
Lemma findRecords_one repo id ap : repo_ok repo → repo !! id = Some ap → findRecords (ap_EnsembleID ap) repo = [ap].
Proof.
  intros [R1 R2 _] Hid. pose proof (findRecords_NoDup (ap_EnsembleID ap) repo R1) as Hnd.
  assert (Hall : ∀ x, In x (findRecords (ap_EnsembleID ap) repo) ↔ x = ap).
  { intros x. rewrite elem_of_findRecords. split; [|intros ->; eauto]. intros [He [id' Hx]].
    assert (id' = id) as -> by (by eapply R2). congruence. }
  destruct (findRecords _ repo) as [|x [|y l]]; [by destruct (proj2 (Hall ap) eq_refl)| |].
  - f_equal. apply Hall. by left.
  - assert (x = ap) as -> by (apply Hall; by left). assert (y = ap) as -> by (apply Hall; right; by left).
    apply NoDup_cons_iff in Hnd as [Hn _]. destruct Hn. by left.
Qed.

Lemma findRecords_none repo ens : findRecords ens repo = [] → ∀ id ap, repo !! id = Some ap → ap_EnsembleID ap ≠ ens.
Proof. intros Hf id ap Hid He. assert (In ap (findRecords ens repo)) as H by (apply elem_of_findRecords; eauto). by rewrite Hf in H. Qed.

Lemma findRecords_cases repo ens : repo_ok repo →
  findRecords ens repo = [] ∨ ∃ id ap, repo !! id = Some ap ∧ ap_EnsembleID ap = ens ∧ findRecords ens repo = [ap].
Proof.
  intros Hok. destruct (findRecords ens repo) as [|ap l] eqn:Hf; [by left|right].
  destruct (proj1 (elem_of_findRecords ens repo ap)) as [He [id Hid]]; [rewrite Hf; by left|].
  exists id, ap. split; [done|]. split; [done|]. rewrite <- Hf, <- He. by eapply findRecords_one.
Qed.

(** What is stored for an allocation of an ensemble. *)
Definition stored (repo : Repo) (ens a : string) : option AllocationState :=
  match findRecords ens repo with [ap] => ap_Allocations ap !! a | _ => None end.

Lemma stored_Some repo ens a s : repo_ok repo →
  stored repo ens a = Some s ↔ ∃ id ap, repo !! id = Some ap ∧ ap_EnsembleID ap = ens ∧ ap_Allocations ap !! a = Some s.
Proof.
  intros Hok. unfold stored. split.
  - destruct (findRecords_cases repo ens Hok) as [->|(id & ap & Hid & He & ->)]; [done|]. eauto.
  - intros (id & ap & Hid & <- & Ha). by rewrite (findRecords_one repo id ap Hok Hid).
Qed.

(** Writing a record that shares neither its ensemble nor allocations with another. *)
Lemma put_ok repo id ap :
  repo_ok repo → ap_ID ap = id →
  (∀ id' ap', repo !! id' = Some ap' → id' ≠ id → ap_EnsembleID ap' ≠ ap_EnsembleID ap ∧
     ∀ a, is_Some (ap_Allocations ap !! a) → ap_Allocations ap' !! a = None) →
  repo_ok (<[id := ap]> repo).
Proof.
  intros [R1 R2 R3] Hid Ho. split.
  - intros i x. rewrite lookup_insert_Some. naive_solver.
  - intros i i' x x'. rewrite !lookup_insert_Some. intros [[-> ->]|[Hn Hx]] [[-> ->]|[Hn' Hx']] He; try done.
    + destruct (Ho i' x' Hx'); [done|congruence].
    + destruct (Ho i x Hx); [done|congruence].
    + by eapply R2.
  - intros i i' x x' a. rewrite !lookup_insert_Some. intros [[-> ->]|[Hn Hx]] [[-> ->]|[Hn' Hx']] Ha Ha'; try done.
    + destruct (Ho i' x' Hx') as [_ H]; [done|]. rewrite (H a Ha) in Ha'. by destruct Ha'.
    + destruct (Ho i x Hx) as [_ H]; [done|]. rewrite (H a Ha') in Ha. by destruct Ha.
    + by eapply R3.
Qed.

Lemma delete_ok repo id : repo_ok repo → repo_ok (delete id repo).
Proof. intros [R1 R2 R3]. split; intros *; rewrite ?lookup_delete_Some; naive_solver. Qed.

Lemma stored_put repo id ap e a : repo_ok repo → repo_ok (<[id := ap]> repo) → (∀ ap', repo !! id = Some ap' → ap_EnsembleID ap' = ap_EnsembleID ap) →
  stored (<[id := ap]> repo) e a = if decide (e = ap_EnsembleID ap) then ap_Allocations ap !! a else stored repo e a.
Proof.
  intros Hok Hok' He. apply option_eq. intros v. rewrite stored_Some by done. case_decide as Hd.
  - split; [|intros H; exists id, ap; by rewrite lookup_insert_eq].
    intros (id' & ap' & Hl & He' & Ha). assert (id' = id) as ->.
    { eapply (rp_ensemble _ Hok'); [done|apply lookup_insert_eq|congruence]. }
    rewrite lookup_insert_eq in Hl. by simplify_eq.
  - rewrite stored_Some by done. split; intros (id' & ap' & Hl & He' & Ha); exists id', ap'.
    + apply lookup_insert_Some in Hl as [[<- <-]|[_ Hl]]; [congruence|done].
    + rewrite lookup_insert_ne; [done|]. intros <-. apply Hd. rewrite <- He'. by apply He.
Qed.

Lemma save_refines repo rid s :
  repo_ok repo → repo !! rid = None → (∀ e, is_Some (stored repo e (as_AllocationID s)) → e = as_DeploymentID s) →
  let saved := (saveAllocationsState true true rid s repo).2 in
  repo_ok saved ∧ ∀ e i, stored saved e i = if decide (e = as_DeploymentID s ∧ i = as_AllocationID s) then Some s else stored repo e i.
Proof.
  intros Hok Hfresh Hex.
  unfold saveAllocationsState. cbn [negb]. destruct (findRecords_cases repo (as_DeploymentID s) Hok) as [Hf|(id & ap & Hid & He & Hf)]; rewrite Hf; cbn.
  - pose proof (findRecords_none repo _ Hf) as Hn.
    assert (Hok' : repo_ok (<[rid := mkPersist rid (as_DeploymentID s) (as_Orchestrator s) "" ∅ {[as_AllocationID s := s]}]> repo)).
    { apply put_ok; [done..|]. intros id' ap' Hl _. split; [by eapply Hn|]. intros i [v Hv]. cbn in Hv.
      apply lookup_singleton_Some in Hv as [<- _]. apply eq_None_not_Some. intros [v' Hv'].
      eapply Hn; [done|]. apply Hex. exists v'. apply stored_Some; eauto. }
    split; [done|]. intros e i. rewrite stored_put by (done || congruence). cbn. destruct (decide (e = as_DeploymentID s)) as [->|Hne].
    + destruct (decide (i = as_AllocationID s)) as [->|Hi]; [by rewrite lookup_singleton_eq, decide_True|].
      rewrite lookup_singleton_ne, decide_False by naive_solver. unfold stored. by rewrite Hf.
    + by rewrite decide_False by naive_solver.
  - set (ap' := set_ap_allocations ap _). rewrite (rp_id _ Hok id ap Hid).
    assert (Hok' : repo_ok (<[id := ap']> repo)).
    { apply put_ok; [done|apply (rp_id _ Hok id ap Hid)|]. intros id' x Hl Hne. split.
      - intros E. apply Hne. by eapply (rp_ensemble _ Hok).
      - intros i. cbn. intros [v Hv]. apply eq_None_not_Some. intros [v' Hv']. apply lookup_insert_Some in Hv as [[<- _]|[_ Hv]].
        + apply Hne. eapply (rp_ensemble _ Hok); [done|done|]. rewrite He. apply Hex. exists v'. apply stored_Some; eauto.
        + apply Hne. by eapply (rp_alloc _ Hok). }
    split; [done|]. intros e i. rewrite stored_put by (done || (intros ? E; rewrite Hid in E; by simplify_eq)). cbn. rewrite He.
    destruct (decide (e = as_DeploymentID s)) as [->|Hne]; [|by rewrite decide_False by naive_solver].
    unfold stored. rewrite Hf. destruct (decide (i = as_AllocationID s)) as [->|Hi];
      [by rewrite lookup_insert_eq, decide_True|by rewrite lookup_insert_ne, decide_False by naive_solver].
Qed.

Lemma delete_refines repo a :
  repo_ok repo →
  let deleted := (deletePersistedAllocationState true true a repo).2 in
  repo_ok deleted ∧ ∀ e i, stored deleted e i = if decide (i = a) then None else stored repo e i.
Proof.
  intros Hok.
  unfold deletePersistedAllocationState. cbn [negb]. destruct (List.find _ _) as [ap|] eqn:Hfind.
  - apply find_some in Hfind as [Hin Ha]. apply bool_decide_eq_true in Ha.
    apply list_elem_of_In, elem_of_values in Hin as [id Hid]. rewrite (rp_id _ Hok id ap Hid).
    assert (Hother : ∀ e, e ≠ ap_EnsembleID ap → stored repo e a = None).
    { intros e Hne. apply eq_None_not_Some. intros [v (id' & x & Hl & <- & Hx)%stored_Some]; [|done].
      apply Hne. assert (id' = id) as -> by (by eapply (rp_alloc _ Hok); eauto). congruence. }
    case_bool_decide as Hleft; cbn.
    + split; [by apply delete_ok|]. intros e i. apply option_eq. intros v. rewrite stored_Some by (by apply delete_ok).
      case_decide as Hi.
      * split; [|done]. subst i. intros (id' & x & [Hne Hl]%lookup_delete_Some & <- & Hx).
         destruct Hne. by eapply (rp_alloc _ Hok); eauto.
      * rewrite stored_Some by done. split; intros (id' & x & Hl & He & Hx); exists id', x.
         -- apply lookup_delete_Some in Hl as [_ Hl]. done.
         -- split; [|done]. apply lookup_delete_Some. split; [|done]. intros <-. simplify_eq.
            assert (delete a (ap_Allocations ap) !! i = Some v) as H by (by rewrite lookup_delete_ne by done). by rewrite Hleft in H.
    + set (ap' := set_ap_allocations ap _).
      assert (Hok' : repo_ok (<[id := ap']> repo)).
      { apply put_ok; [done|apply (rp_id _ Hok id ap Hid)|]. intros id' x Hl Hne. split.
        - intros E. apply Hne. by eapply (rp_ensemble _ Hok).
        - intros i. cbn. intros [v [_ Hv]%lookup_delete_Some]. apply eq_None_not_Some. intros Hv'. apply Hne. by eapply (rp_alloc _ Hok); eauto. }
      split; [done|]. intros e i. rewrite stored_put by (done || (intros ? E; rewrite Hid in E; by simplify_eq)). cbn.
      destruct (decide (e = ap_EnsembleID ap)) as [->|Hne].
      * unfold stored. rewrite (findRecords_one repo id ap Hok Hid). case_decide as Hi; [subst; apply lookup_delete_eq|by apply lookup_delete_ne].
      * case_decide as Hi; [subst; by apply Hother|done].
  - cbn. split; [done|]. intros e i. case_decide as Hi; [|done]. subst i. apply eq_None_not_Some.
    intros [v (id & ap & Hid & <- & Ha)%stored_Some]; [|done].
    eapply find_none in Hfind; [|apply list_elem_of_In, elem_of_values; by exists id].
    apply bool_decide_eq_false in Hfind. apply Hfind. by exists v.
Qed.

(** Written one at a time, the records of a node implement a map from ensembles and
    allocations to states: saving a state stores it and changes nothing else, deleting an
    allocation removes its state and changes nothing else, and both keep one record for an
    ensemble and an allocation in one record. *)
Theorem records_refine_map repo rid s a :
  repo_ok repo → repo !! rid = None → (∀ e, is_Some (stored repo e (as_AllocationID s)) → e = as_DeploymentID s) →
  let saved := (saveAllocationsState true true rid s repo).2 in
  let deleted := (deletePersistedAllocationState true true a repo).2 in
  (repo_ok saved ∧ ∀ e i, stored saved e i = if decide (e = as_DeploymentID s ∧ i = as_AllocationID s) then Some s else stored repo e i) ∧
  (repo_ok deleted ∧ ∀ e i, stored deleted e i = if decide (i = a) then None else stored repo e i).
Proof.
  intros Hok Hfresh Hex. split; [by apply save_refines|by apply delete_refines].
Qed.

End records.

(** ** Concrete nodes *)

#[local] Instance plain_visit_rec : MapVisit := {| visit A l := l; visit_perm A l := reflexivity l |}.
#[local] Instance tagged_keys : KeyEncoding := {|
  encodeKey k := Some ("b64:" +:+ k);
  decodeKey e := if HasPrefix e "b64:" then Some (TrimPrefix e "b64:") else None
|}.

(** Everything succeeds, but for the peers that [joins] excludes. *)
Definition rec_answers (joins : string → bool) : RecAnswers :=
  mkRecAnswers (λ _, sample_env true) (λ _, "exec") (λ _, true) (λ _, true) (λ _, "key") (λ id, Some ("did:" +:+ id)) (λ _, true) (λ _, true)
    (λ _, true) (λ _, true) joins (λ _, true) (λ _, true) (λ _, true) (λ _, None) (λ _, true) (λ _, true) true true "r2" 100.

Definition rec_orch : Handle := mkHandle "o" (mkDID "did:key:o") (mkAddress "host" "inbox").

Definition rec_state (id : string) : AllocationState :=
  mkAllocState id "b64:k" "ens" "service" rec_orch (machine 2 2 []) (mkSpecConfig "docker" {["image" := "nginx"]}) {["setup.sh" := "echo"]} [mkAllocationKey "ssh" "id" "/root"] [] ∅ (mkNetState "10.0.0.2" "10.0.0.1" {[16385 := 80]})
    ExecutorInfo_zero {[16385 := 80]} 0 (mkMetadata "ens" {["10.0.0.2" := "peer"]} ∅ []).

Definition rec_record : AllocationsStatePersist :=
  mkPersist "r1" "ens" rec_orch "10.0.0.0/24" ∅ {["ens_n.a" := rec_state "ens_n.a"; "ens_n.b" := rec_state "ens_n.b"]}.

Definition rec_node : RecNode :=
  mkRecNode sample_allocator ∅ {["r1" := rec_record]} ∅ ∅ ∅ [] [] [] [] false nodeStateStarting.

Lemma sample_orderly : orderly (sample_env true).
Proof. repeat split. intros l. by induction l. Qed.

Lemma sample_books : books_ok sample_allocator.
Proof. by split. Qed.

Definition restored_node : RecNode := (restoreAllocations "did:node" "/w" (rec_answers (λ _, true)) rec_record rec_node).2.

Lemma restored_as_persisted_witness :
  ∃ al l, a_allocations (rn_allocator restored_node) !! "ens_n.a" = Some al ∧ rn_live restored_node !! "ens_n.a" = Some l ∧
    PersistState al l = rec_state "ens_n.a".
Proof.
  destruct (restored_as_persisted "did:node" "/w" (rec_answers (λ _, true)) rec_record rec_node restored_node) with "ens_n.a" (rec_state "ens_n.a")
    as (al & l & H1 & H2 & _ & H3).
  - intros id s Hs. assert (s = rec_state id) as ->.
    { unfold rec_record in Hs. simpl in Hs. rewrite lookup_insert_Some, lookup_singleton_Some in Hs. naive_solver. }
    split; [done|]. split; [done|]. split; [done|]. split; [by exists "k"|done].
  - vm_compute. reflexivity.
  - vm_compute. reflexivity.
  - exists al, l. split; [exact H1|]. split; [exact H2|]. exact H3.
Defined.

Definition failed_node : option rec_error * RecNode :=
  restoreAllocations "did:node" "/w" (rec_answers (λ id, bool_decide (id = "ens_n.a"))) rec_record rec_node.

Lemma failed_restore_leaves_nothing_witness :
  failed_node.1 = Some ErrRecSubnet ∧ gone "ens_n.a" (rn_allocator failed_node.2) ∧ "ens" ∉ rn_subnets failed_node.2.
Proof.
  split; [vm_compute; reflexivity|].
  destruct (failed_restore_leaves_nothing "did:node" "/w" (rec_answers (λ id, bool_decide (id = "ens_n.a"))) rec_record rec_node ErrRecSubnet failed_node.2)
    as (H1 & H2 & _).
  - intros id. apply sample_orderly.
  - reflexivity.
  - apply sample_books.
  - vm_compute. reflexivity.
  - split; [apply H1; apply elem_of_dom; eexists; vm_compute; reflexivity|].
    apply (H2 "ens_n.a" (rec_state "ens_n.a")); [vm_compute; reflexivity|done].
Defined.

Lemma single_repo_ok : repo_ok {["r1" := rec_record]}.
Proof.
  split.
  - intros id ap [<- <-]%lookup_singleton_Some. done.
  - intros id id' ap ap' [<- _]%lookup_singleton_Some [<- _]%lookup_singleton_Some. done.
  - intros id id' ap ap' a [<- _]%lookup_singleton_Some [<- _]%lookup_singleton_Some. done.
Qed.

Lemma records_refine_map_witness :
  let saved := (saveAllocationsState true true "r2" (rec_state "ens_n.c") {["r1" := rec_record]}).2 in
  stored saved "ens" "ens_n.c" = Some (rec_state "ens_n.c").
Proof.
  destruct (records_refine_map {["r1" := rec_record]} "r2" (rec_state "ens_n.c") "ens_n.a") as [[_ H] _].
  - apply single_repo_ok.
  - vm_compute. reflexivity.
  - intros e [v Hv]. apply (stored_Some _ _ _ _ single_repo_ok) in Hv as (id & ap & [<- <-]%lookup_singleton_Some & <- & Ha). reflexivity.
  - cbv zeta. rewrite H. reflexivity.
Defined.

(** *** What goes wrong *)

(** An allocation without a subnet: the restoration makes a subnet with the empty name for it,
    which the rollback does not destroy. *)
Example empty_subnet_stays :
  let s := rec_state "ens_n.a" in
  let s := mkAllocState (as_AllocationID s) (as_PrivKeyB64 s) (as_DeploymentID s) (as_Type s) (as_Orchestrator s) (as_Resources s)
    (as_Execution s) (as_ProvisionScripts s) (as_Keys s) (as_Volume s) (as_Contracts s) (as_NetState s) (as_ExecutorInfo s) (as_Ports s)
    (as_DynamicPortsNum s) NetworkMetadata_zero in
  let r := restoreAllocations "did:node" "/w" (rec_answers (λ _, false)) (set_ap_allocations rec_record {["ens_n.a" := s]}) rec_node in
  r.1 = Some ErrRecSubnet ∧ rn_subnets r.2 = {[""]}.
Proof. vm_compute. done. Qed.

(** Two allocations that are saved at the same time: both queries come before both writes,
    and the state of the first is lost. *)
Example saved_at_once_is_lost :
  let repo : Repo := {["r1" := set_ap_allocations rec_record ∅]} in
  let found := findRecords "ens" repo in
  let repo := (writeAllocationsState true "r2" (rec_state "ens_n.a") found repo).2 in
  let repo := (writeAllocationsState true "r3" (rec_state "ens_n.b") found repo).2 in
  stored repo "ens" "ens_n.a" = None ∧ is_Some (stored repo "ens" "ens_n.b").
Proof. vm_compute. split; [reflexivity|by eexists]. Qed.

(** Two first allocations at once create two records; from then on nothing is saved. *)
Example two_records_block_saving :
  let repo : Repo := (writeAllocationsState true "r2" (rec_state "ens_n.b") [] (writeAllocationsState true "r1" (rec_state "ens_n.a") [] ∅).2).2 in
  (saveAllocationsState true true "r3" (rec_state "ens_n.c") repo) = (Ok (), repo).
Proof. vm_compute. reflexivity. Qed.

(** The ports of a restored allocation are not reserved: they can be promised again. *)
Example restored_port_is_free :
  isAllocated (a_ports (rn_allocator restored_node)) [16385] = false ∧
  (ports <$> a_allocations (rn_allocator restored_node) !! "ens_n.a") = Some {[16385 := 80]}.
Proof. vm_compute. done. Qed.

(** The callbacks of two changes of status can come in the wrong order: an allocation that
    has stopped is stored, and started again with the node. *)
Example late_callback_stores_stopped :
  let stop n := with_allocator n (set_a_allocations (rn_allocator n)
    (alter (λ al, set_al_status al AllocationStopped) "ens_n.a" (a_allocations (rn_allocator n)))) [] in
  let n := stop (with_repo restored_node ∅) in
  let w := rec_answers (λ _, true) in
  is_Some (stored (rn_repo (allocStatusUpdate w "ens_n.a" AllocationRunning (allocStatusUpdate w "ens_n.a" AllocationStopped n))) "ens" "ens_n.a").
Proof. vm_compute. by eexists. Qed.

Section order.
#[local] Instance reversed_visit : MapVisit := {| visit A l := rev l; visit_perm A l := symmetry (Permutation_rev l) |}.

(** The orchestrator compares the names in their order: a node whose map yields its two
    allocations the other way round is denied, and takes them down. *)
Example other_order_is_denied :
  let mf := mkManifest "ens" ∅ rec_orch ∅ {["n" := mkNodeManifest "n" "peer" rec_orch [] Location_zero
              (map AllocationNameFromID (map fst (map_to_list (ap_Allocations rec_record)))) "" "" [] 0 ""]} false ∅ in
  let o := mkOrchestrator "ens" rec_orch web_ensemble mf (mkSubnet "" "" "" ∅ ∅ ∅ ∅) DeploymentStatusRunning ∅ ∅ ∅ false [] [] in
  handleDeploymentState o rec_orch "ens" (requestedNames rec_record) = false ∧
  a_allocations (rn_allocator (restoreAllocConfirm (rec_answers (λ _, true)) (λ s, s) (Ok false) rec_record restored_node)) = ∅.
Proof. vm_compute. done. Qed.
End order.
