(* ===== verification/MachineCapability.v ===== *)
(** * Capabilities of machines (types/capability.go, types/executor.go)

    What a machine offers and a job requires beside its resources: executors, kinds of
    jobs, libraries, localities, connectivity, prices, time and identity checks, with their
    comparison and arithmetic.  A slice that is nil is [None]; [reflect.DeepEqual] tells it
    from an empty one.  A slice that another value shares is filtered in place by the code;
    the other value is not modelled.  Versions of libraries are those of a package. *)

From S2P Require Import Prelude GoStrings Hardware ResourceManager.

Open Scope go_scope.
Local Open Scope Z_scope.

(** ** Slices *)

Notation slice A := (option (list A)).

Section slices.
  Context {A : Type} `{EqDecision A}.

Definition elems (s : slice A) : list A := default [] s.

Definition append1 (s : slice A) (x : A) : slice A := Some (elems s ++ [x]).

(** Appending what is not there yet; what was appended counts as there when [track]. *)
Fixpoint appendNew (track : bool) (seen : list A) (other : list A) (s : slice A) : slice A :=
  match other with
  | [] => s
  | x :: other =>
      if bool_decide (x ∈ seen) then appendNew track seen other s
      else appendNew track (if track then x :: seen else seen) other (append1 s x)
  end.

Definition addNew (s other : slice A) : slice A := appendNew true (elems s) (elems other) s.

(** Filtering in place; an empty result of a slice that is not nil is not nil. *)
Definition removeAll (s other : slice A) : slice A :=
  List.filter (λ x, negb (bool_decide (x ∈ elems other))) <$> s.

Definition slice_Contains (s : slice A) (x : A) : bool := existsb (λ y, bool_decide (y = x)) (elems s).

(** [IsStrictlyContained] and [IsStrictlyContainedInt]: false for no elements. *)
Definition IsStrictlyContained (left right : list A) : bool :=
  match right with
  | [] => false
  | _ => forallb (λ x, bool_decide (x ∈ left)) right
  end.

(** The comparison of two lists, already converted. *)
Definition containment (l r : list A) : Comparison :=
  if bool_decide (l = r) then Equal
  else if IsStrictlyContained l r then Better
  else if IsStrictlyContained r l then Worse
  else NoComparison.

End slices.

(** ** Executors *)

Notation Executors := (slice string).

Definition ExecutorType_Compare (e other : string) : Comparison := LiteralComparator e other.

Definition Executors_Add (e other : Executors) : Executors :=
  match elems other with [] => e | l => Some (elems e ++ l) end.

Definition Executors_Subtract (e other : Executors) : Executors :=
  match elems other with [] => e | _ => removeAll e other end.

Definition Executors_Contains (e : Executors) (t : string) : bool := slice_Contains e t.

Definition Executors_Compare (e other : Executors) : Comparison :=
  if bool_decide (e = other) then Equal else containment (elems e) (elems other).

(** ** Kinds of jobs *)

Notation JobTypes := (slice string).

Definition JobType_Compare (j other : string) : Comparison := if bool_decide (j = other) then Equal else NoComparison.
Definition JobTypes_Add (j other : JobTypes) : JobTypes := addNew j other.
Definition JobTypes_Subtract (j other : JobTypes) : JobTypes := removeAll j other.
Definition JobTypes_Contains (j : JobTypes) (t : string) : bool := slice_Contains j t.
Definition JobTypes_Compare (j other : JobTypes) : Comparison := containment (elems j) (elems other).

(** ** Connectivity *)

Record Connectivity := mkConnectivity { cn_Ports : slice Z; cn_VPN : bool }.

#[export] Instance Connectivity_eq_dec : EqDecision Connectivity.
Proof. solve_decision. Defined.

Definition Connectivity_Compare (c other : Connectivity) : Comparison :=
  if bool_decide (c = other) then Equal
  else if IsStrictlyContained (elems (cn_Ports c)) (elems (cn_Ports other)) &&
          (cn_VPN c && cn_VPN other || cn_VPN c && negb (cn_VPN other)) then Better
  else NoComparison.

(** A port that the other has twice is appended twice. *)
Definition Connectivity_Add (c other : Connectivity) : Connectivity :=
  mkConnectivity (appendNew false (elems (cn_Ports c)) (elems (cn_Ports other)) (cn_Ports c)) (cn_VPN c || cn_VPN other).

Definition Connectivity_Subtract (c other : Connectivity) : Connectivity :=
  mkConnectivity
    (match elems (removeAll (cn_Ports c) (cn_Ports other)) with [] => None | l => Some l end)
    (if cn_VPN other then false else cn_VPN c).

(** ** Time *)

Record TimeInformation := mkTimeInformation { ti_Units : string; ti_MaxTime : Z; ti_Preference : Z }.

Definition TimeInformation_Add (t other : TimeInformation) : TimeInformation :=
  mkTimeInformation (ti_Units t) (s64 (ti_MaxTime t + ti_MaxTime other)) (ti_Preference t).
Definition TimeInformation_Subtract (t other : TimeInformation) : TimeInformation :=
  mkTimeInformation (ti_Units t) (s64 (ti_MaxTime t - ti_MaxTime other)) (ti_Preference t).

Definition TotalTime (t : TimeInformation) : Z :=
  if bool_decide (ti_Units t = "seconds") then ti_MaxTime t
  else if bool_decide (ti_Units t = "minutes") then s64 (ti_MaxTime t * 60)
  else if bool_decide (ti_Units t = "hours") then s64 (s64 (ti_MaxTime t * 60) * 60)
  else if bool_decide (ti_Units t = "days") then s64 (s64 (s64 (ti_MaxTime t * 60) * 60) * 24)
  else ti_MaxTime t.

(** The test for deep equality compares a pointer with a value and never succeeds. *)
Definition TimeInformation_Compare (t other : TimeInformation) : Comparison :=
  if TotalTime t =? TotalTime other then Equal
  else if TotalTime t <? TotalTime other then Worse
  else Better.

(** ** Prices *)

Record PriceInformation := mkPriceInformation {
  pi_Currency : string;
  pi_CurrencyPerHour : Z;
  pi_TotalPerJob : Z;
  pi_Preference : Z
}.

#[export] Instance PriceInformation_eq_dec : EqDecision PriceInformation.
Proof. solve_decision. Defined.

Definition PriceInformation_Compare (p other : PriceInformation) : Comparison :=
  if bool_decide (pi_Currency p = pi_Currency other) then
    if pi_TotalPerJob p =? pi_TotalPerJob other then
      if pi_CurrencyPerHour p =? pi_CurrencyPerHour other then Equal
      else if pi_CurrencyPerHour p <? pi_CurrencyPerHour other then Better
      else Worse
    else if pi_TotalPerJob p <? pi_TotalPerJob other then
      if pi_CurrencyPerHour p <=? pi_CurrencyPerHour other then Better else Worse
    else Worse
  else NoComparison.

Definition PriceInformation_Equal (p price : PriceInformation) : bool :=
  bool_decide (pi_Currency p = pi_Currency price) && (pi_CurrencyPerHour p =? pi_CurrencyPerHour price) &&
  (pi_TotalPerJob p =? pi_TotalPerJob price) && (pi_Preference p =? pi_Preference price).

Notation PricesInformation := (slice PriceInformation).

Definition PricesInformation_Add (ps other : PricesInformation) : PricesInformation := addNew ps other.
Definition PricesInformation_Subtract (ps other : PricesInformation) : PricesInformation :=
  match elems other with [] => ps | _ => removeAll ps other end.
Definition PricesInformation_Contains (ps : PricesInformation) (p : PriceInformation) : bool :=
  existsb (λ q, PriceInformation_Equal q p) (elems ps).

(** The first pair that compares decides. *)
Definition firstComparison {A} (compare : A → A → Comparison) (own other : list A) : Comparison :=
  match List.find (λ c, negb (bool_decide (c = NoComparison))) (own ≫= λ x, map (compare x) other) with
  | Some c => c
  | None => NoComparison
  end.

Definition PricesInformation_Compare (ps other : PricesInformation) : Comparison :=
  if bool_decide (ps = other) then Equal
  else firstComparison PriceInformation_Compare (elems ps) (elems other).

(** ** Identity checks *)

Record KYC := mkKYC { kyc_Type : string; kyc_Data : string }.

#[export] Instance KYC_eq_dec : EqDecision KYC.
Proof. solve_decision. Defined.

Definition KYC_Compare (k other : KYC) : Comparison := if bool_decide (k = other) then Equal else NoComparison.
Definition KYC_Equal (k other : KYC) : bool :=
  bool_decide (kyc_Type k = kyc_Type other) && bool_decide (kyc_Data k = kyc_Data other).

Notation KYCs := (slice KYC).

Definition KYCs_Add (k other : KYCs) : KYCs := addNew k other.
Definition KYCs_Subtract (k other : KYCs) : KYCs := removeAll k other.
Definition KYCs_Contains (k : KYCs) (x : KYC) : bool := existsb (λ y, KYC_Equal y x) (elems k).
Definition KYCs_Compare (k other : KYCs) : Comparison :=
  if bool_decide (k = other) then Equal
  else if (length (elems other) =? 0)%nat && negb (length (elems k) =? 0)%nat then Better
  else firstComparison KYC_Compare (elems k) (elems other).

(** ** Localities *)

Record Locality := mkLocality { loc_Kind : string; loc_Name : string }.

#[export] Instance Locality_eq_dec : EqDecision Locality.
Proof. solve_decision. Defined.

Definition Locality_Compare (l other : Locality) : Comparison :=
  if negb (bool_decide (loc_Kind l = loc_Kind other)) then NoComparison
  else if bool_decide (loc_Name l = loc_Name other) then Equal
  else Worse.
Definition Locality_Equal (l other : Locality) : bool :=
  bool_decide (loc_Kind l = loc_Kind other) && bool_decide (loc_Name l = loc_Name other).

Notation Localities := (slice Locality).

Definition Localities_Add (l other : Localities) : Localities := addNew l other.
Definition Localities_Subtract (l other : Localities) : Localities := removeAll l other.
Definition Localities_Contains (l : Localities) (x : Locality) : bool := existsb (λ y, Locality_Equal y x) (elems l).

(** The last locality of the kind that the machine has, for a locality that is required. *)
Definition kindComparison (own : list Locality) (other : Locality) : Comparison :=
  fold_left (λ c l, if bool_decide (loc_Kind l = loc_Kind other) then Locality_Compare l other else c) own NoComparison.

(** The verdict on a list of comparisons: one worse, all equal, or anything else. *)
Definition verdict (final : list Comparison) : Comparison :=
  if bool_decide (Worse ∈ final) then Worse
  else if SliceContainsOneValue final Equal then Equal
  else Better.

Definition Localities_Compare (l other : Localities) : Comparison :=
  verdict (map (kindComparison (elems l)) (elems other)).

(** ** Libraries *)

Record Library := mkLibrary { lib_Name : string; lib_Constraint : string; lib_Version : string }.

#[export] Instance Library_eq_dec : EqDecision Library.
Proof. solve_decision. Defined.

(** The package for versions: versions and constraints as text, and the check. *)
Class VersionLib := {
  NewVersion : string → bool;
  NewConstraint : string → bool;
  satisfies : string → string → bool   (* constraint, version *)
}.

Inductive cap_error := ErrVersion | ErrConstraint | ErrSubtract (e : hw_error).

Notation Libraries := (slice Library).

Section libraries.
  Context `{Versions : VersionLib}.

Definition Library_Compare (lib other : Library) : outcome cap_error Comparison :=
  let constraint := lib_Constraint other +:+ (" " +:+ lib_Version other) in
  if negb (NewVersion (lib_Version lib)) then Err ErrVersion
  else if negb (NewConstraint constraint) then Err ErrConstraint
  else if negb (bool_decide (lib_Name lib = lib_Name other)) then Ok NoComparison
  else if bool_decide (lib_Constraint other = "=") && satisfies constraint (lib_Version lib) then Ok Equal
  else if satisfies constraint (lib_Version lib) then Ok Better
  else Ok Worse.

Definition Library_Equal (lib library : Library) : bool :=
  bool_decide (lib_Name lib = lib_Name library) && bool_decide (lib_Constraint lib = lib_Constraint library) &&
  bool_decide (lib_Version lib = lib_Version library).

Definition Libraries_Add (l other : Libraries) : Libraries := addNew l other.
Definition Libraries_Subtract (l other : Libraries) : Libraries := removeAll l other.
Definition Libraries_Contains (l : Libraries) (x : Library) : bool := existsb (λ y, Library_Equal y x) (elems l).

Fixpoint compareRow (own : list Library) (other : Library) : outcome cap_error (list Comparison) :=
  match own with
  | [] => Ok []
  | x :: own => let? c := Library_Compare x other in let? row := compareRow own other in Ok (c :: row)
  end.

Fixpoint compareRows (own other : list Library) : outcome cap_error (list (list Comparison)) :=
  match other with
  | [] => Ok []
  | x :: other => let? row := compareRow own x in let? rows := compareRows own other in Ok (row :: rows)
  end.

Definition Libraries_Compare (l other : Libraries) : outcome cap_error Comparison :=
  let? interim := compareRows (elems l) (elems other) in
  Ok (verdict (matchLoop (length interim) 0 interim)).

End libraries.

(** ** All of them *)

Record HardwareCapability := mkHardwareCapability {
  hc_Executors : Executors;
  hc_JobTypes : JobTypes;
  hc_Resources : Resources;
  hc_Libraries : Libraries;
  hc_Localities : Localities;
  hc_Connectivity : Connectivity;
  hc_Price : PricesInformation;
  hc_Time : TimeInformation;
  hc_KYCs : KYCs
}.

Section capability.
  Context `{Visit : MapVisit} `{Versions : VersionLib}.

(** The comparisons of the fields are combined in the order a range visits their map. *)
Definition HardwareCapability_Compare (c other : HardwareCapability) : outcome cap_error Comparison :=
  let? libraries := Libraries_Compare (hc_Libraries c) (hc_Libraries other) in
  Ok (ComplexComparison_Result (visit
    [Executors_Compare (hc_Executors c) (hc_Executors other);
     JobTypes_Compare (hc_JobTypes c) (hc_JobTypes other);
     Resources_Compare (hc_Resources c) (hc_Resources other);
     libraries;
     Localities_Compare (hc_Localities c) (hc_Localities other);
     Connectivity_Compare (hc_Connectivity c) (hc_Connectivity other);
     PricesInformation_Compare (hc_Price c) (hc_Price other);
     TimeInformation_Compare (hc_Time c) (hc_Time other);
     KYCs_Compare (hc_KYCs c) (hc_KYCs other)])).

Definition HardwareCapability_Add (c other : HardwareCapability) : HardwareCapability :=
  mkHardwareCapability
    (Executors_Add (hc_Executors c) (hc_Executors other))
    (JobTypes_Add (hc_JobTypes c) (hc_JobTypes other))
    (Resources_Add (hc_Resources c) (hc_Resources other))
    (Libraries_Add (hc_Libraries c) (hc_Libraries other))
    (Localities_Add (hc_Localities c) (hc_Localities other))
    (Connectivity_Add (hc_Connectivity c) (hc_Connectivity other))
    (PricesInformation_Add (hc_Price c) (hc_Price other))
    (TimeInformation_Add (hc_Time c) (hc_Time other))
    (KYCs_Add (hc_KYCs c) (hc_KYCs other)).

(** When the resources do not suffice, executors and kinds of jobs are already gone. *)
Definition HardwareCapability_Subtract (c other : HardwareCapability) : option cap_error * HardwareCapability :=
  let executors := Executors_Subtract (hc_Executors c) (hc_Executors other) in
  let jobs := JobTypes_Subtract (hc_JobTypes c) (hc_JobTypes other) in
  match Resources_Subtract (hc_Resources c) (hc_Resources other) with
  | (r, Some e) =>
      (Some (ErrSubtract e),
       mkHardwareCapability executors jobs r (hc_Libraries c) (hc_Localities c) (hc_Connectivity c) (hc_Price c) (hc_Time c) (hc_KYCs c))
  | (r, None) =>
      (None,
       mkHardwareCapability executors jobs r
         (Libraries_Subtract (hc_Libraries c) (hc_Libraries other))
         (Localities_Subtract (hc_Localities c) (hc_Localities other))
         (Connectivity_Subtract (hc_Connectivity c) (hc_Connectivity other))
         (PricesInformation_Subtract (hc_Price c) (hc_Price other))
         (TimeInformation_Subtract (hc_Time c) (hc_Time other))
         (KYCs_Subtract (hc_KYCs c) (hc_KYCs other)))
  end.

End capability.

(** ** Properties *)

Section slice_props.
  Context {A : Type} `{EqDecision A}.
  Implicit Types (s other : slice A) (l seen : list A).

Lemma elems_appendNew track seen l s :
  ∃ k, elems (appendNew track seen l s) = elems s ++ k ∧ (∀ x, x ∈ k → x ∈ l) ∧
    (∀ x, x ∈ seen → x ∉ k) ∧ ∀ x, x ∈ l → x ∈ seen ∨ x ∈ k.
Proof.
  revert seen s. induction l as [|y l IH]; intros seen s; cbn [appendNew].
  { exists []. rewrite app_nil_r. split; [done|]. split; [set_solver|]. split; set_solver. }
  case_bool_decide as Hy.
  { destruct (IH seen s) as (k & -> & H1 & H2 & H3). exists k. split; [done|]. split; [set_solver|]. split; [done|]. set_solver. }
  destruct (IH (if track then y :: seen else seen) (append1 s y)) as (k & -> & H1 & H2 & H3).
  exists (y :: k). unfold append1. cbn. rewrite <- (assoc_L (++)). split; [done|].
  split; [set_solver|]. destruct track; split; set_solver.
Qed.

(** The elements of sums and differences are those of unions and differences of sets. *)
Lemma elem_of_addNew s other x : x ∈ elems (addNew s other) ↔ x ∈ elems s ∨ x ∈ elems other.
Proof.
  unfold addNew. destruct (elems_appendNew true (elems s) (elems other) s) as (k & -> & H1 & H2 & H3).
  rewrite elem_of_app. set_solver.
Qed.

Lemma elems_removeAll s other : elems (removeAll s other) = List.filter (λ x, negb (bool_decide (x ∈ elems other))) (elems s).
Proof. by destruct s. Qed.

Lemma elem_of_removeAll s other x : x ∈ elems (removeAll s other) ↔ x ∈ elems s ∧ x ∉ elems other.
Proof. rewrite elems_removeAll, !list_elem_of_In, filter_List_In, negb_true_iff, bool_decide_eq_false, list_elem_of_In. done. Qed.

Lemma filter_all (f : A → bool) l : (∀ x, x ∈ l → f x = true) → List.filter f l = l.
Proof. induction l as [|x l IH]; cbn; intros Hf; [done|]. rewrite (Hf x) by (by left). f_equal. apply IH. intros y Hy. apply Hf. by right. Qed.

Lemma filter_nothing (f : A → bool) l : (∀ x, x ∈ l → f x = false) → List.filter f l = [].
Proof. induction l as [|x l IH]; cbn; intros Hf; [done|]. rewrite (Hf x) by (by left). apply IH. intros y Hy. apply Hf. by right. Qed.

(** What was added is taken away again, in any order of elements. *)
Lemma append_remove s other k :
  (∀ x, x ∈ k → x ∈ elems other) → (∀ x, x ∈ elems s → x ∉ elems other) →
  List.filter (λ x, negb (bool_decide (x ∈ elems other))) (elems s ++ k) = elems s.
Proof.
  intros Hk Hs. rewrite List.filter_app, filter_all, filter_nothing, app_nil_r; [done| |].
  - intros x Hx%Hk. by rewrite bool_decide_true.
  - intros x Hx%Hs. by rewrite bool_decide_false.
Qed.

Lemma add_remove track s other :
  (∀ x, x ∈ elems s → x ∉ elems other) →
  elems (removeAll (appendNew track (elems s) (elems other) s) other) = elems s.
Proof.
  intros Hd. rewrite elems_removeAll. destruct (elems_appendNew track (elems s) (elems other) s) as (k & -> & H1 & _).
  by apply append_remove.
Qed.

End slice_props.

Lemma executors_add_remove e other :
  (∀ x, x ∈ elems e → x ∉ elems other) → elems (Executors_Subtract (Executors_Add e other) other) = elems e.
Proof.
  intros Hd. unfold Executors_Subtract, Executors_Add. destruct (elems other) as [|x l] eqn:Ho; [done|].
  rewrite elems_removeAll. cbn [elems default]. rewrite <- Ho. apply append_remove; [done|]. rewrite Ho. done.
Qed.

Lemma prices_add_remove p other :
  (∀ x, x ∈ elems p → x ∉ elems other) → elems (PricesInformation_Subtract (PricesInformation_Add p other) other) = elems p.
Proof.
  intros Hd. unfold PricesInformation_Subtract, PricesInformation_Add, addNew. destruct (elems other) as [|x l] eqn:Ho; [done|].
  rewrite <- Ho. apply add_remove. rewrite Ho. done.
Qed.

Lemma ports_add_remove c other :
  (∀ x, x ∈ elems (cn_Ports c) → x ∉ elems (cn_Ports other)) →
  elems (cn_Ports (Connectivity_Subtract (Connectivity_Add c other) other)) = elems (cn_Ports c).
Proof.
  intros Hd. etrans; [|apply (add_remove false (cn_Ports c) (cn_Ports other) Hd)].
  unfold Connectivity_Subtract, Connectivity_Add. cbn [cn_Ports]. by destruct (elems (removeAll _ _)).
Qed.

(** Nothing that is asked for is there yet. *)
Definition disjoint_from (c other : HardwareCapability) : Prop :=
  (∀ x, x ∈ elems (hc_Executors c) → x ∉ elems (hc_Executors other)) ∧
  (∀ x, x ∈ elems (hc_JobTypes c) → x ∉ elems (hc_JobTypes other)) ∧
  (∀ x, x ∈ elems (hc_Libraries c) → x ∉ elems (hc_Libraries other)) ∧
  (∀ x, x ∈ elems (hc_Localities c) → x ∉ elems (hc_Localities other)) ∧
  (∀ x, x ∈ elems (cn_Ports (hc_Connectivity c)) → x ∉ elems (cn_Ports (hc_Connectivity other))) ∧
  (∀ x, x ∈ elems (hc_Price c) → x ∉ elems (hc_Price other)) ∧
  (∀ x, x ∈ elems (hc_KYCs c) → x ∉ elems (hc_KYCs other)).

(** Subtracting what was added gives back the lists of a capability, in their order, and
    its time also when the sum wraps, provided that the resources can be taken away. *)
Theorem capability_add_subtract c other c' :
  disjoint_from c other → is_s64 (ti_MaxTime (hc_Time c)) →
  HardwareCapability_Subtract (HardwareCapability_Add c other) other = (None, c') →
  elems (hc_Executors c') = elems (hc_Executors c) ∧ elems (hc_JobTypes c') = elems (hc_JobTypes c) ∧
  elems (hc_Libraries c') = elems (hc_Libraries c) ∧ elems (hc_Localities c') = elems (hc_Localities c) ∧
  elems (cn_Ports (hc_Connectivity c')) = elems (cn_Ports (hc_Connectivity c)) ∧
  elems (hc_Price c') = elems (hc_Price c) ∧ elems (hc_KYCs c') = elems (hc_KYCs c) ∧ hc_Time c' = hc_Time c.
Proof.
  intros (D1 & D2 & D3 & D4 & D5 & D6 & D7) Ht. unfold HardwareCapability_Subtract.
  destruct (Resources_Subtract _ _) as [r [e|]]; [done|]. intros [= <-]. cbn.
  split_and!; [by apply executors_add_remove|by apply (add_remove true)..|by apply ports_add_remove|by apply prices_add_remove|by apply (add_remove true)|].
  unfold TimeInformation_Subtract, TimeInformation_Add. cbn. destruct (hc_Time c) as [u m p]. cbn in *. f_equal.
  unfold s64, is_s64 in *. rewrite (Zmod_eq_full (m + _ + _)) by lia.
  replace (m + ti_MaxTime (hc_Time other) + 2 ^ 63 - (m + ti_MaxTime (hc_Time other) + 2 ^ 63) / 2 ^ 64 * 2 ^ 64 - 2 ^ 63 - ti_MaxTime (hc_Time other) + 2 ^ 63)
    with (m + 2 ^ 63 + - ((m + ti_MaxTime (hc_Time other) + 2 ^ 63) / 2 ^ 64) * 2 ^ 64) by lia.
  rewrite Z.mod_add by lia. rewrite Z.mod_small by lia. lia.
Qed.

(** *** Requirements that are not met *)

(** A machine without libraries counts as better than any that are required. *)
Theorem no_library_is_better `{VersionLib} lib rest : Libraries_Compare None (Some (lib :: rest)) = Ok Better.
Proof.
  assert (Hrows : ∀ l, compareRows [] l = Ok (map (λ _, []) l)).
  { induction l as [|x l IH]; [done|]. cbn. by rewrite IH. }
  unfold Libraries_Compare. rewrite Hrows. destruct rest; done.
Qed.

(** So does a machine whose localities are of other kinds than those required. *)
Theorem other_kinds_are_better l loc rest :
  (∀ x y, x ∈ elems l → y ∈ loc :: rest → loc_Kind x ≠ loc_Kind y) → Localities_Compare l (Some (loc :: rest)) = Better.
Proof.
  intros Hk. assert (Hc : ∀ own y, (∀ x, x ∈ own → loc_Kind x ≠ loc_Kind y) → kindComparison own y = NoComparison).
  { intros own y. unfold kindComparison. induction own as [|x own IH]; intros Hx; [done|]. cbn.
    rewrite bool_decide_false by (apply Hx; by left). apply IH. intros z Hz. apply Hx. by right. }
  unfold Localities_Compare. change (elems (Some (loc :: rest))) with (loc :: rest).
  assert (map (kindComparison (elems l)) (loc :: rest) = map (λ _, NoComparison) (loc :: rest)) as ->.
  { apply map_ext_in. intros y Hy%list_elem_of_In. apply Hc. intros x Hx. by apply Hk. }
  unfold verdict. rewrite bool_decide_false; [done|]. rewrite list_elem_of_In, in_map_iff. by intros (? & ? & ?).
Qed.

(** One identity check that both have is enough for equality, whatever else is required. *)
Theorem one_kyc_is_enough k rest rest' : Some (k :: rest) ≠ Some (k :: rest') → KYCs_Compare (Some (k :: rest)) (Some (k :: rest')) = Equal.
Proof.
  intros Hne. unfold KYCs_Compare. rewrite bool_decide_false by done.
  change (elems (Some (k :: rest))) with (k :: rest). change (elems (Some (k :: rest'))) with (k :: rest').
  unfold firstComparison. cbn. assert (KYC_Compare k k = Equal) as -> by (unfold KYC_Compare; by rewrite bool_decide_true by done). done.
Qed.

(** The order in which the comparisons of the fields are combined matters: the table in the
    code has none for worse and none, whichever comes first. *)
Example order_of_fields_matters :
  ComplexComparison_Result [Worse; NoComparison] = Worse ∧ ComplexComparison_Result [NoComparison; Worse] = NoComparison.
Proof. done. Qed.
