(* ===== verification/Peers.v ===== *)
(** * Peers and greetings (dms/node/network.go, behaviors_public.go)

    The node keeps a state for every connected peer and greets peers that speak the root
    protocol: [sayHello] runs in a goroutine that sleeps, sends a hello, waits for the reply
    and tries again.  The goroutines and the notifications of the network interleave at the
    sections under the lock of the node: [peers_node] holds the map and, for every goroutine,
    the section it will run next.  Building the hello cannot fail, its payload is nil. *)

From S2P Require Import Prelude GoStrings Key Envelope.

Local Open Scope Z_scope.

(** ** State *)

Definition helloAttempts : Z := 3.
Definition rootProto : string := "actor/root/messages/0.0.1".

Record peerState := mkPeerState {
  numConnections : Z;
  hasRoot : bool;
  helloIn : bool;
  helloOut : bool;
  helloPending : bool;
  ps_attempts : Z
}.

Definition peerState_zero : peerState := mkPeerState 0 false false false false 0.

Definition set_numConnections (st : peerState) (n : Z) : peerState :=
  mkPeerState n (hasRoot st) (helloIn st) (helloOut st) (helloPending st) (ps_attempts st).
Definition set_hasRoot (st : peerState) : peerState :=
  mkPeerState (numConnections st) true (helloIn st) (helloOut st) (helloPending st) (ps_attempts st).
Definition set_helloIn (st : peerState) : peerState :=
  mkPeerState (numConnections st) (hasRoot st) true (helloOut st) (helloPending st) (ps_attempts st).
Definition set_helloOut (st : peerState) : peerState :=
  mkPeerState (numConnections st) (hasRoot st) (helloIn st) true false (ps_attempts st).
Definition set_helloPending (st : peerState) (b : bool) : peerState :=
  mkPeerState (numConnections st) (hasRoot st) (helloIn st) (helloOut st) b (ps_attempts st).
Definition set_attempts (st : peerState) (n : Z) : peerState :=
  mkPeerState (numConnections st) (hasRoot st) (helloIn st) (helloOut st) (helloPending st) n.

(** Where a goroutine of [sayHello] stands. *)
Inductive phase := Starting | Sleeping (to : Handle) | Sending (to : Handle) | Waiting (to : Handle).

Notation peer_map := (gmap string peerState).

Record peers_node := mkPeersNode {
  peers : peer_map;
  hellos : list (string * phase)
}.

(** What happens to a peer, seen from the node: a hello of its own key arrived, a hello was
    sent to it, it replied. *)
Inductive peer_event := Greeted (p : string) | Sent (p : string) | Replied (p : string).

#[export] Instance peer_event_eq_dec : EqDecision peer_event.
Proof. solve_decision. Defined.

(** What the code takes from libp2p's peer package. *)
Class PeerLib `{KeyLib} := {
  ExtractPublicKey : string → option PubKey;
  PeerIDFromPublicKey : PubKey → option string
}.

Definition includesRootProtocol (protocols : list string) : bool :=
  existsb (λ proto, bool_decide (proto = rootProto)) protocols.

(** The score of a peer for broadcasts, a whole number of the code's floats. *)
Definition broadcastScore (n : peers_node) (p : string) : Z :=
  match peers n !! p with
  | None => 0
  | Some st => if helloIn st && helloOut st then 5 else if hasRoot st then 1 else 0
  end.

(** ** Notifications of the network *)

Definition peerConnected (n : peers_node) (p : string) : peers_node :=
  let st := default peerState_zero (peers n !! p) in
  mkPeersNode (<[p := set_numConnections st (numConnections st + 1)]> (peers n)) (hellos n).

(** The state of the peer is replaced, whatever it was. *)
Definition peerPreConnected (n : peers_node) (p : string) (protocols : list string) (connections : Z) : peers_node :=
  if includesRootProtocol protocols then
    mkPeersNode (<[p := mkPeerState connections true false false true 1]> (peers n)) ((p, Starting) :: hellos n)
  else mkPeersNode (<[p := mkPeerState connections false false false false 0]> (peers n)) (hellos n).

Definition peerIdentified (n : peers_node) (p : string) (protocols : list string) : peers_node :=
  let st := default peerState_zero (peers n !! p) in
  if includesRootProtocol protocols then
    let st := set_hasRoot st in
    if negb (helloOut st) && negb (helloPending st) then
      mkPeersNode (<[p := set_attempts (set_helloPending st true) (ps_attempts st + 1)]> (peers n)) ((p, Starting) :: hellos n)
    else mkPeersNode (<[p := st]> (peers n)) (hellos n)
  else mkPeersNode (<[p := st]> (peers n)) (hellos n).

Definition peerDisconnected (n : peers_node) (p : string) : peers_node :=
  match peers n !! p with
  | None => n
  | Some st =>
      let st := set_numConnections st (numConnections st - 1) in
      if numConnections st <=? 0 then mkPeersNode (delete p (peers n)) (hellos n)
      else mkPeersNode (<[p := st]> (peers n)) (hellos n)
  end.

(** ** Greetings *)

(** After a hello that failed or was not answered. *)
Definition retryHello (m : peer_map) (p : string) : peer_map * list phase :=
  match m !! p with
  | Some st =>
      if ps_attempts st <? helloAttempts then (<[p := set_attempts st (ps_attempts st + 1)]> m, [Starting])
      else (<[p := set_helloPending st false]> m, [])
  | None => (m, [])
  end.

Definition helloReplied (m : peer_map) (p : string) (connected : bool) : peer_map :=
  match m !! p with
  | Some st => <[p := set_helloOut st]> m
  | None => if connected then <[p := mkPeerState 0 false false true false 0]> m else m
  end.

(** What the world answers to a goroutine: whether the peer is connected, whether the
    message was sent, and whether the reply came before the message expired. *)
Inductive hello_answer := Begin | Awake (connected : bool) | Invoked (sent : bool) | Reply (connected : bool) | Expired.

Section hello.
  Context `{Keys : KeyLib} `{Lib : !PeerLib}.

Definition helloHandle (p : string) : option Handle :=
  match ExtractPublicKey p with
  | None => None
  | Some pubk =>
      if negb (AllowedKey (KeyType pubk)) then None
      else match IDFromPublicKey pubk with
      | None => None
      | Some actorID => Some (mkHandle actorID (FromPublicKey pubk) (mkAddress p "root"))
      end
  end.

(** One section of [sayHello]: the map, what runs next in place of the goroutine, and the
    events; [None] when the answer does not fit. *)
Definition sayHello (m : peer_map) (p : string) (ph : phase) (a : hello_answer)
    : option (peer_map * list phase * list peer_event) :=
  match ph, a with
  | Starting, Begin =>
      match helloHandle p with
      | None => Some (m, [], [])
      | Some handle => Some (m, [Sleeping handle], [])
      end
  | Sleeping handle, Awake connected =>
      match m !! p with
      | None => Some (m, [], [])
      | Some st =>
          if negb connected then Some (<[p := set_helloPending st false]> m, [], [])
          else Some (m, [Sending handle], [])
      end
  | Sending handle, Invoked sent =>
      if sent then Some (m, [Waiting handle], [Sent p])
      else let '(m, next) := retryHello m p in Some (m, next, [])
  | Waiting _, Reply connected => Some (helloReplied m p connected, [], [Replied p])
  | Waiting _, Expired => let '(m, next) := retryHello m p in Some (m, next, [])
  | _, _ => None
  end.

(** A hello that arrived: the peer is the one of the key that signed the message. *)
Definition publicHelloBehavior (n : peers_node) (from : Handle) (connected : string → bool)
    : peers_node * list peer_event :=
  match PublicKeyFromDID (Handle_DID from) with
  | None => (n, [])
  | Some pubk =>
      match PeerIDFromPublicKey pubk with
      | None => (n, [])
      | Some p =>
          match peers n !! p with
          | Some st => (mkPeersNode (<[p := set_helloIn st]> (peers n)) (hellos n), [Greeted p])
          | None =>
              if connected p then (mkPeersNode (<[p := mkPeerState 0 false true false false 0]> (peers n)) (hellos n), [Greeted p])
              else (n, [Greeted p])
          end
      end
  end.

(** ** Runs *)

(** A goroutine runs its next section. *)
Inductive hello_step (n : peers_node) : list peer_event → peers_node → Prop :=
| hello_section l1 p ph l2 a m next ev :
    hellos n = l1 ++ (p, ph) :: l2 → sayHello (peers n) p ph a = Some (m, next, ev) →
    hello_step n ev (mkPeersNode m (l1 ++ map (pair p) next ++ l2)).

Inductive peers_step (n : peers_node) : list peer_event → peers_node → Prop :=
| step_connected p : peers_step n [] (peerConnected n p)
| step_preconnected p protocols k : peers_step n [] (peerPreConnected n p protocols k)
| step_identified p protocols : peers_step n [] (peerIdentified n p protocols)
| step_disconnected p : peers_step n [] (peerDisconnected n p)
| step_greeted from connected n' ev : publicHelloBehavior n from connected = (n', ev) → peers_step n ev n'
| step_hello n' ev : hello_step n ev n' → peers_step n ev n'.

(** Runs of a step relation with its events, the last one last. *)
Inductive run_of (step : peers_node → list peer_event → peers_node → Prop) (n : peers_node) : nat → list peer_event → peers_node → Prop :=
| run_nil : run_of step n 0 [] n
| run_snoc k evs n1 ev n2 : run_of step n k evs n1 → step n1 ev n2 → run_of step n (S k) (evs ++ ev) n2.

Definition peers_start : peers_node := mkPeersNode ∅ [].

(** ** A pending hello is being worked on *)

Definition pending_worked (p : string) (m : peer_map) (l : list (string * phase)) : Prop :=
  ∀ st, m !! p = Some st → helloPending st = true → p ∈ map fst l.

Lemma pending_insert_other p q st m l : p ≠ q → pending_worked p m l → pending_worked p (<[q := st]> m) l.
Proof. intros Hne H st'. rewrite lookup_insert_ne by done. apply H. Qed.

Lemma pending_insert p st m l : (helloPending st = true → p ∈ map fst l) → pending_worked p (<[p := st]> m) l.
Proof. intros H st'. rewrite lookup_insert_eq. by intros [= <-]. Qed.

Lemma pending_update p q (f : peerState → peerState) st m l :
  (∀ st, helloPending (f st) = true → helloPending st = true) → m !! q = Some st →
  pending_worked p m l → pending_worked p (<[q := f st]> m) l.
Proof.
  intros Hf Hq H. destruct (decide (p = q)) as [->|Hne]; [|by apply pending_insert_other].
  apply pending_insert. intros Hp%Hf. by apply (H st).
Qed.

Lemma pending_more p m l x : pending_worked p m l → pending_worked p m (x :: l).
Proof. intros H st Hm Hp. cbn. right. by apply (H st). Qed.

Lemma elem_fst_replace (p q : string) (ph : phase) (l1 l2 : list (string * phase)) (next : list phase) :
  p ∈ map fst (l1 ++ (q, ph) :: l2) → p ≠ q ∨ next ≠ [] → p ∈ map fst (l1 ++ map (pair q) next ++ l2).
Proof.
  rewrite !map_app, !elem_of_app. cbn. rewrite elem_of_cons. intros [?|[->|?]] Hor; auto.
  destruct Hor as [?|Hn]; [done|]. right. left. destruct next; [done|]. cbn. by left.
Qed.

(** Only the state of the peer changes. *)
Lemma sayHello_other m q ph a m' next ev p :
  sayHello m q ph a = Some (m', next, ev) → p ≠ q → m' !! p = m !! p.
Proof.
  unfold sayHello, retryHello, helloReplied. intros H Hne.
  destruct ph, a; try done; repeat (case_match; simplify_eq/=); rewrite ?lookup_insert_ne by congruence; done.
Qed.

(** When a goroutine ends, the hello of its peer is no longer pending. *)
Lemma sayHello_settles m q ph a m' next ev st :
  sayHello m q ph a = Some (m', next, ev) → is_Some (helloHandle q) → m' !! q = Some st → helloPending st = true →
  next ≠ [] ∧ ∃ st0, m !! q = Some st0 ∧ helloPending st0 = true.
Proof.
  intros H [h Hk] Hm Hp. unfold sayHello, retryHello, helloReplied in H. rewrite Hk in H.
  destruct ph, a; try done; repeat (case_match; simplify_eq/=); rewrite ?lookup_insert_eq in *; simplify_eq/=; eauto; try congruence.
Qed.

Lemma default_pending p m l (g : peerState → peerState) :
  pending_worked p m l → (∀ st, helloPending (g st) = helloPending st) →
  ∀ q, pending_worked p (<[q := g (default peerState_zero (m !! q))]> m) l.
Proof.
  intros H Hg q. destruct (decide (p = q)) as [->|Hne]; [|by apply pending_insert_other].
  apply pending_insert. rewrite Hg. destruct (m !! q) as [st|] eqn:Hq; cbn; [|done]. by apply (H st).
Qed.

Lemma step_pending p n ev n' :
  peers_step n ev n' → is_Some (helloHandle p) → pending_worked p (peers n) (hellos n) → pending_worked p (peers n') (hellos n').
Proof.
  intros Hs Hk Hp. destruct Hs as [q|q protocols k|q protocols|q|from connected n' ev Hg|n' ev [l1 q ph l2 a m next ev' Hl Hh]].
  - by apply (default_pending p _ _ (λ st, set_numConnections st (numConnections st + 1))).
  - unfold peerPreConnected. destruct (decide (p = q)) as [->|Hne]; destruct (includesRootProtocol _); cbn.
    + apply pending_insert. by left.
    + by apply pending_insert.
    + by apply pending_insert_other, pending_more.
    + by apply pending_insert_other.
  - unfold peerIdentified. destruct (includesRootProtocol _); cbn; [|by apply (default_pending p _ _ (λ st, st))].
    destruct (_ && _); cbn; [|by apply (default_pending p _ _ set_hasRoot)].
    destruct (decide (p = q)) as [->|Hne]; [apply pending_insert; by left|]. by apply pending_insert_other, pending_more.
  - unfold peerDisconnected. destruct (peers n !! q) as [st|] eqn:Hq; [|done]. case_match; cbn.
    + intros st'. rewrite lookup_delete_Some. intros [_ H']. by apply Hp.
    + by apply (pending_update p q (λ st, set_numConnections st (numConnections st - 1)) st).
  - unfold publicHelloBehavior in Hg. repeat (case_match; simplify_eq/=; try done).
    + by apply (pending_update p _ set_helloIn).
    + destruct (decide (p = s)) as [->|Hne]; [by apply pending_insert|by apply pending_insert_other].
  - cbn. rewrite Hl in Hp. destruct (decide (p = q)) as [->|Hne].
    + intros st Hm Hpe. destruct (sayHello_settles _ _ _ _ _ _ _ _ Hh Hk Hm Hpe) as (Hn & st0 & H0 & Hpe0).
      apply (elem_fst_replace q q ph); [by apply (Hp st0)|by right].
    + intros st Hm Hpe. apply (elem_fst_replace p q ph); [|by left]. apply (Hp st); [|done].
      by rewrite <- (sayHello_other _ _ _ _ _ _ _ _ Hh Hne).
Qed.

(** C21: no hello is forgotten: in every run of the node, while a hello to a peer whose key can
    be used is pending, a goroutine works on it, so when all goroutines have ended no hello is
    pending and the next identification of the peer starts one. *)
Theorem pending_hello_has_worker k evs n p st :
  run_of peers_step peers_start k evs n → is_Some (helloHandle p) →
  peers n !! p = Some st → helloPending st = true → p ∈ map fst (hellos n).
Proof.
  intros Hrun Hk. revert st. change (pending_worked p (peers n) (hellos n)).
  induction Hrun as [|k evs n1 ev n2 _ IH Hs]; [done|]. by eapply step_pending.
Qed.

(** ** The top score *)

Definition score_earned (p : string) (evs : list peer_event) (m : peer_map) : Prop :=
  ∀ st, m !! p = Some st → (helloIn st = true → Greeted p ∈ evs) ∧ (helloOut st = true → Replied p ∈ evs).

Lemma earned_more p evs ev m : score_earned p evs m → score_earned p (evs ++ ev) m.
Proof. intros H st Hm. destruct (H st Hm). rewrite !elem_of_app. auto. Qed.

Lemma earned_insert p q evs m st :
  (p = q → (helloIn st = true → Greeted p ∈ evs) ∧ (helloOut st = true → Replied p ∈ evs)) →
  score_earned p evs m → score_earned p evs (<[q := st]> m).
Proof.
  intros Hst H st'. destruct (decide (p = q)) as [->|Hne].
  - rewrite lookup_insert_eq. intros [= <-]. auto.
  - rewrite lookup_insert_ne by done. apply H.
Qed.

(** The flags of the state a peer has, or of the new one. *)
Lemma earned_default p q evs m : score_earned p evs m → p = q →
  let st := default peerState_zero (m !! q) in (helloIn st = true → Greeted p ∈ evs) ∧ (helloOut st = true → Replied p ∈ evs).
Proof. intros H ->. cbn. destruct (m !! q) as [st|] eqn:Hq; cbn; [by apply H|done]. Qed.

Lemma hello_earned p evs m q ph a m' next ev :
  sayHello m q ph a = Some (m', next, ev) → score_earned p evs m → score_earned p (evs ++ ev) m'.
Proof.
  intros H He. unfold sayHello, retryHello, helloReplied in H.
  destruct ph, a; try done; repeat (case_match; simplify_eq/=); try (by apply earned_more); apply earned_insert;
    try (by apply earned_more); intros ->; cbn; try (by split; [|set_solver]); rewrite ?app_nil_r;
    repeat match goal with E : m !! q = Some _ |- _ => destruct (He _ E); clear E end; set_solver.
Qed.

Lemma step_earned p evs n ev n' :
  peers_step n ev n' → score_earned p evs (peers n) → score_earned p (evs ++ ev) (peers n').
Proof.
  intros Hs He. destruct Hs as [q|q protocols k|q protocols|q|from connected n' ev Hg|n' ev [l1 q ph l2 a m next ev' Hl Hh]];
    rewrite ?app_nil_r.
  - apply earned_insert; [|done]. by apply earned_default.
  - unfold peerPreConnected. destruct (includesRootProtocol _); apply earned_insert; done.
  - unfold peerIdentified. repeat case_match; (apply earned_insert; [by apply earned_default|done]).
  - unfold peerDisconnected. destruct (peers n !! q) as [st|] eqn:Hq; [|done]. case_match; cbn.
    + intros st'. rewrite lookup_delete_Some. intros [_ ?]. by apply He.
    + apply earned_insert; [|done]. intros ->. exact (He st Hq).
  - unfold publicHelloBehavior in Hg. repeat (case_match; simplify_eq/=); rewrite ?app_nil_r; try done; try (by apply earned_more);
      (apply earned_insert; [intros ->; cbn|by apply earned_more]); rewrite !elem_of_app.
    + destruct (He _ ltac:(done)) as [_ Ho]. split; [set_solver|auto].
    + split; [set_solver|done].
  - by eapply hello_earned.
Qed.

(** The top score for broadcasts is earned: in every run, a peer that has it sent a hello
    signed by its own key and replied to a hello of the node, since the node was started. *)
Theorem full_score_earned k evs n p :
  run_of peers_step peers_start k evs n → broadcastScore n p = 5 → Greeted p ∈ evs ∧ Replied p ∈ evs.
Proof.
  intros Hrun. assert (score_earned p evs (peers n)) as He.
  { induction Hrun as [|k evs n1 ev n2 _ IH Hs]; [done|]. by eapply step_earned. }
  unfold broadcastScore. destruct (peers n !! p) as [st|] eqn:Hp; [|done]. destruct (He st Hp) as [Hi Ho].
  destruct (helloIn st), (helloOut st), (hasRoot st); naive_solver.
Qed.

(** ** Hellos end *)

(** The attempts a peer has left; one that is not known has all of them. *)
Definition room (m : peer_map) (p : string) : nat :=
  match m !! p with Some st => Z.to_nat (helloAttempts - ps_attempts st) | None => Z.to_nat helloAttempts end.

(** The sections a goroutine runs before it ends or tries again, and the hellos it sends. *)
Definition sections_of (ph : phase) : nat := match ph with Starting => 4 | Sleeping _ => 3 | Sending _ => 2 | Waiting _ => 1 end.
Definition sends_of (ph : phase) : nat := match ph with Waiting _ => 0 | _ => 1 end.

Definition work_on (ps : list string) (n : peers_node) : nat :=
  (sum_list_with (λ x, sections_of x.2) (hellos n) + 4 * sum_list_with (room (peers n)) ps)%nat.

Definition work (n : peers_node) : nat := work_on (remove_dups (map fst (hellos n))) n.

(** The hellos that can still be sent to a peer. *)
Definition hellos_left (p : string) (n : peers_node) : nat :=
  (sum_list_with (λ x, if bool_decide (x.1 = p) then sends_of x.2 else 0) (hellos n) + room (peers n) p)%nat.

Definition sent_to (p : string) (evs : list peer_event) : nat := length (List.filter (λ e, bool_decide (e = Sent p)) evs).

(** A section costs one, and trying again costs an attempt. *)
Lemma sayHello_costs m q ph a m' next ev :
  sayHello m q ph a = Some (m', next, ev) →
  (1 + sum_list_with sections_of next + 4 * room m' q ≤ sections_of ph + 4 * room m q)%nat ∧
  (sent_to q ev + sum_list_with sends_of next + room m' q ≤ sends_of ph + room m q)%nat ∧
  ∀ p, p ≠ q → sent_to p ev = 0%nat.
Proof.
  intros H. unfold sayHello, retryHello, helloReplied in H.
  destruct ph, a; try done; repeat (case_match; simplify_eq/=); unfold room, sent_to, helloAttempts in *; cbn;
    rewrite ?lookup_insert_eq, ?bool_decide_true by done; cbn;
    repeat match goal with E : _ !! q = _ |- _ => rewrite ?E; clear E end;
    (split_and!; [cbn in *; lia..|intros r Hr; try done; by rewrite bool_decide_false by congruence]).
Qed.

Lemma work_on_step ps n ev n' :
  hello_step n ev n' → NoDup ps → (∀ x, x ∈ map fst (hellos n) → x ∈ ps) → (S (work_on ps n') ≤ work_on ps n)%nat.
Proof.
  intros [l1 q ph l2 a m next ev' Hl Hs] Hnd Hsub. destruct (sayHello_costs _ _ _ _ _ _ _ Hs) as (Hc & _).
  unfold work_on. cbn. rewrite Hl, !sum_list_with_app. cbn.
  assert (sum_list_with (λ x, sections_of x.2) (map (pair q) next) = sum_list_with sections_of next) as ->.
  { clear. induction next; cbn; congruence. }
  assert (q ∈ ps) as (k1 & k2 & ->)%list_elem_of_split.
  { apply Hsub. rewrite Hl, map_app, elem_of_app. right. by left. }
  apply NoDup_app in Hnd as (_ & Hd & Hnd). apply NoDup_cons in Hnd as [Hq2 _].
  assert (Hsame : ∀ k, q ∉ k → sum_list_with (room m) k = sum_list_with (room (peers n)) k).
  { intros k Hk. induction k as [|x k IH]; [done|]. cbn. rewrite IH by set_solver.
    unfold room at 1. rewrite (sayHello_other _ _ _ _ _ _ _ x Hs) by set_solver. done. }
  rewrite !sum_list_with_app. cbn. rewrite !Hsame by (try done; intros Hq1; by apply (Hd q Hq1); left). lia.
Qed.

Lemma hellos_left_step p n ev n' : hello_step n ev n' → (sent_to p ev + hellos_left p n' ≤ hellos_left p n)%nat.
Proof.
  intros [l1 q ph l2 a m next ev' Hl Hs]. destruct (sayHello_costs _ _ _ _ _ _ _ Hs) as (_ & Hc & Hz).
  unfold hellos_left. cbn. rewrite Hl, !sum_list_with_app. cbn.
  destruct (decide (q = p)) as [->|Hne].
  - rewrite bool_decide_true by done.
    assert (sum_list_with (λ x, if bool_decide (x.1 = p) then sends_of x.2 else 0) (map (pair p) next) = sum_list_with sends_of next)%nat as ->.
    { clear. induction next; cbn; [done|]. rewrite bool_decide_true by done. congruence. }
    lia.
  - rewrite bool_decide_false by done.
    assert (sum_list_with (λ x, if bool_decide (x.1 = p) then sends_of x.2 else 0) (map (pair q) next) = 0)%nat as ->.
    { clear -Hne. induction next; cbn; [done|]. rewrite bool_decide_false by done. done. }
    rewrite Hz by done. unfold room. rewrite (sayHello_other _ _ _ _ _ _ _ p Hs) by done. lia.
Qed.

Lemma hello_peers n ev n' x : hello_step n ev n' → x ∈ map fst (hellos n') → x ∈ map fst (hellos n).
Proof.
  intros [l1 q ph l2 a m next ev' Hl Hs]. cbn. rewrite Hl, !map_app, !elem_of_app. cbn. rewrite elem_of_cons.
  intros [?|[Hq|?]]; auto. right. left. clear -Hq. induction next; cbn in *; set_solver.
Qed.

Lemma sent_to_app p evs ev : sent_to p (evs ++ ev) = (sent_to p evs + sent_to p ev)%nat.
Proof. unfold sent_to. by rewrite List.filter_app, length_app. Qed.

(** A goroutine always has an answer to go on with. *)
Lemma hello_goes_on n : hellos n ≠ [] → ∃ ev n', hello_step n ev n'.
Proof.
  destruct (hellos n) as [|[p ph] l] eqn:Hl; [done|]. intros _.
  assert (∃ a m next ev, sayHello (peers n) p ph a = Some (m, next, ev)) as (a & m & next & ev & Hs).
  { destruct ph; [exists Begin|exists (Awake true)|exists (Invoked true)|exists (Reply true)]; cbn; repeat case_match; eauto. }
  exists ev. eexists. by apply (hello_section n [] p ph l a m next ev).
Qed.

(** Greetings end: while the network reports nothing new, the goroutines run at most
    [work] sections in all, whatever they are answered and however they interleave, and the
    last of them leaves no goroutine; a peer is sent no more hellos than the attempts it has
    left, with one for every goroutine that has not sent its own. *)
Theorem hellos_end n k evs n' :
  run_of hello_step n k evs n' →
  (k ≤ work n)%nat ∧ ((∀ ev n2, ¬ hello_step n' ev n2) → hellos n' = []) ∧
  ∀ p, (sent_to p evs ≤ hellos_left p n)%nat.
Proof.
  intros Hrun. set (ps := remove_dups (map fst (hellos n))).
  assert ((k + work_on ps n' ≤ work_on ps n)%nat ∧ (∀ x, x ∈ map fst (hellos n') → x ∈ ps) ∧
    ∀ p, (sent_to p evs + hellos_left p n' ≤ hellos_left p n)%nat) as (Hk & _ & Hsent).
  { induction Hrun as [|k evs n1 ev n2 _ (IH1 & IH2 & IH3) Hs].
    - split_and!; [done| |done]. intros x. unfold ps. by rewrite elem_of_remove_dups.
    - pose proof (work_on_step ps _ _ _ Hs (NoDup_remove_dups _) IH2). split_and!; [lia| |].
      + intros x Hx. by eapply IH2, hello_peers.
      + intros p. pose proof (hellos_left_step p _ _ _ Hs). specialize (IH3 p). rewrite sent_to_app. lia. }
  split_and!; [unfold work; fold ps; lia| |intros p; specialize (Hsent p); lia].
  intros Hstuck. destruct (decide (hellos n' = [])) as [|Hne]; [done|].
  destruct (hello_goes_on n' Hne) as (ev & n2 & H2). by destruct (Hstuck ev n2).
Qed.

End hello.

(** ** A meeting of two peers *)

#[local] Existing Instance toy_keys.

(** Peers are named by their keys. *)
#[local] Instance toy_peers : PeerLib := {|
  ExtractPublicKey p := Some p;
  PeerIDFromPublicKey k := Some k
|}.

Definition bob_handle : Handle := mkHandle "bob" (FromPublicKey "bob") (mkAddress "bob" "root").

(** Bob connects and speaks the root protocol, says hello and answers the second hello. *)
Definition met1 : peers_node := peerPreConnected peers_start "bob" ["other"; rootProto] 1.
Definition met2 : peers_node := (publicHelloBehavior met1 bob_handle (λ _, true)).1.

(** The first goroutine is given the answers, one after the other. *)
Fixpoint answers (n : peers_node) (evs : list peer_event) (l : list hello_answer) : option (peers_node * list peer_event) :=
  match l, hellos n with
  | [], _ => Some (n, evs)
  | a :: l, (p, ph) :: rest =>
      match sayHello (peers n) p ph a with
      | Some (m, next, ev) => answers (mkPeersNode m (map (pair p) next ++ rest)) (evs ++ ev) l
      | None => None
      end
  | _, [] => None
  end.

Lemma answers_run step n0 k evs n l n' evs' :
  (∀ n ev n', hello_step n ev n' → step n ev n') →
  run_of step n0 k evs n → answers n evs l = Some (n', evs') → run_of step n0 (length l + k) evs' n'.
Proof.
  intros Hstep. revert k evs n. induction l as [|a l IH]; intros k evs n Hrun; cbn; [by intros [= <- <-]|].
  destruct (hellos n) as [|[p ph] rest] eqn:Hl; [done|].
  destruct (sayHello _ _ _ _) as [[[m next] ev]|] eqn:Hs; [|done]. intros Ha.
  replace (S (length l + k))%nat with (length l + S k)%nat by lia. eapply IH; [|done].
  eapply run_snoc; [done|]. apply Hstep. exact (hello_section n [] p ph rest a m next ev Hl Hs).
Qed.

Lemma run_met2 : run_of peers_step peers_start 2 [Greeted "bob"] met2.
Proof.
  change [Greeted "bob"] with (([] ++ []) ++ [Greeted "bob"] : list peer_event).
  eapply run_snoc; [eapply run_snoc; [apply run_nil|]|].
  - exact (step_preconnected peers_start "bob" ["other"; rootProto] 1).
  - apply (step_greeted met1 bob_handle (λ _, true)). reflexivity.
Qed.

(** The first hello expires, the second is answered. *)
Definition first_lost : list hello_answer := [Begin; Awake true; Invoked true; Expired].
Definition second_answered : list hello_answer := first_lost ++ [Begin; Awake true; Invoked true; Reply true].

Definition met6 : peers_node := (default (met2, []) (answers met2 [] first_lost)).1.
Definition met10 : peers_node := (default (met2, []) (answers met2 [] second_answered)).1.

Definition met14 : peers_node := (default (met1, []) (answers met1 [] (first_lost ++ first_lost ++ first_lost))).1.

(** While the second hello has not been sent, a goroutine is there for it. *)
Lemma pending_hello_has_worker_witness : "bob" ∈ map fst (hellos met6).
Proof.
  apply (pending_hello_has_worker 6 [Greeted "bob"; Sent "bob"] met6 "bob" (mkPeerState 1 true true false true 2)).
  - apply (answers_run peers_step peers_start 2 [Greeted "bob"] met2 first_lost); [intros; by apply step_hello|apply run_met2|by vm_compute].
  - vm_compute. by eexists.
  - by vm_compute.
  - done.
Defined.

Lemma full_score_earned_witness :
  broadcastScore met10 "bob" = 5 ∧
  Greeted "bob" ∈ [Greeted "bob"; Sent "bob"; Sent "bob"; Replied "bob"] ∧ Replied "bob" ∈ [Greeted "bob"; Sent "bob"; Sent "bob"; Replied "bob"].
Proof.
  split; [by vm_compute|]. apply (full_score_earned 10 _ met10 "bob"); [|by vm_compute].
  apply (answers_run peers_step peers_start 2 [Greeted "bob"] met2 second_answered); [intros; by apply step_hello|apply run_met2|by vm_compute].
Defined.

(** Twelve sections and three hellos are the most for a peer that was just connected. *)
Lemma hellos_end_witness :
  work met1 = 12%nat ∧ hellos_left "bob" met1 = 3%nat ∧
  ((12 ≤ work met1)%nat ∧ ((∀ ev n2, ¬ hello_step met14 ev n2) → hellos met14 = []) ∧ ∀ p, (sent_to p [Sent "bob"; Sent "bob"; Sent "bob"] ≤ hellos_left p met1)%nat).
Proof.
  split; [by vm_compute|]. split; [by vm_compute|].
  apply (hellos_end met1 12 [Sent "bob"; Sent "bob"; Sent "bob"] met14).
  apply (answers_run hello_step met1 0 [] met1 (first_lost ++ first_lost ++ first_lost)); [done|apply run_nil|by vm_compute].
Defined.

(** A peer whose key cannot be used for an actor keeps its pending hello, and is never
    greeted again. *)
Definition no_keys : PeerLib := {| ExtractPublicKey _ := None; PeerIDFromPublicKey _ := None |}.

Example unusable_key_stays_pending :
  sayHello (Lib := no_keys) (peers met1) "bob" Starting Begin = Some (peers met1, [], []) ∧
  peerIdentified (mkPeersNode (peers met1) []) "bob" [rootProto] = mkPeersNode (peers met1) [].
Proof. split; by vm_compute. Qed.
