(* ===== verification/Onboarding.v ===== *)
(** * Onboarding (dms/onboarding/onboarding.go, dms/node/behaviors_onboarding.go,
    behaviors_resources.go, behaviors_public.go)

    A machine is onboarded with a part of its resources, which the resource manager keeps;
    the flag is in a record of the database and in the cached configuration.  The state holds
    the manager of [ResourceManager].  Readings of the hardware and answers of the database
    are arguments.

    Aliasing: the configuration that [Onboard] caches shares its GPUs with the onboarded
    resources the manager caches, and the manager subtracts in place.  [ob_shared] says
    whether it does; [cachedConfig] reads the configuration as it is.  The resources of a
    configuration are a transient field: what the database gives back for them is a
    parameter. *)

From S2P Require Import Prelude GoNumbers Hardware ResourceManager ResourceSpec ResourceProps Ports Allocation Allocator.

Local Open Scope Z_scope.

(** ** Data *)

Record OnboardingConfig := mkOnboardingConfig {
  IsOnboarded : bool;
  OnboardedResources : Resources
}.

Definition OnboardingConfig_zero : OnboardingConfig := mkOnboardingConfig false Resources_zero.

Inductive capacity_error := ErrCores | ErrRAMRange | ErrDiskRange | ErrGPUIndex | ErrVRAMRange.
Inductive usage_error := ErrFreeCompute | ErrFreeRAM | ErrFreeDisk | ErrFreeGPU | ErrFreeVRAM.

Inductive onboarding_error :=
| ErrMachineNotOnboarded
| ErrUnmetCapacity (e : capacity_error)
| ErrHighUsage (e : usage_error)
| ErrMachineResources
| ErrSystemFree
| ErrUpdateOnboarded (e : rm_error)
| ErrPopulate (e : rm_error)
| ErrConfigGet
| ErrConfigSave
| ErrConfigClear.

Record Onboarding := mkOnboarding {
  ob_Config : OnboardingConfig;
  ob_shared : bool;
  ob_stored : option OnboardingConfig;      (* the newest record of the repository *)
  ob_resources : Manager
}.

(** The configuration, with the GPUs of the manager's cache when they are shared. *)
Definition cachedConfig (o : Onboarding) : OnboardingConfig :=
  match ob_shared o, onboardedResources (ob_resources o) with
  | true, Some r => mkOnboardingConfig (IsOnboarded (ob_Config o)) (set_GPUs (OnboardedResources (ob_Config o)) (res_GPUs r))
  | _, _ => ob_Config o
  end.

Definition ob_IsOnboarded (o : Onboarding) : bool := IsOnboarded (ob_Config o).

(** The readings of the hardware that the checks of the prerequisites take. *)
Record Readings := mkReadings { rd_machine : option Resources; rd_free : Measurement }.

(** ** Checks *)

Definition validateRange (actual minimum maximum : Z) : bool :=
  negb ((actual <? minimum) || (maximum <? actual)).

(** The GPUs are checked in their order. *)
Fixpoint validateCapacityGPUs (machine gpus : list GPU) : option capacity_error :=
  match gpus with
  | [] => None
  | gpu :: gpus =>
      match GetWithIndex machine (GPU_Index gpu) with
      | inr _ => Some ErrGPUIndex
      | inl selectedGPU =>
          if validateRange (GPU_VRAM gpu) (GPU_VRAM selectedGPU / 10) (u64 (GPU_VRAM selectedGPU * 9) / 10)
          then validateCapacityGPUs machine gpus
          else Some ErrVRAMRange
      end
  end.

Definition validateCapacity (onboarded machine : Resources) : option capacity_error :=
  let cores := CPU_Cores (res_CPU onboarded) in
  if float_lt cores (f32_of_Z 1) || float_lt (CPU_Cores (res_CPU machine)) cores then Some ErrCores
  else if negb (validateRange (RAM_Size (res_RAM onboarded)) (RAM_Size (res_RAM machine) / 10) (u64 (RAM_Size (res_RAM machine) * 9) / 10))
  then Some ErrRAMRange
  else if negb (validateRange (Disk_Size (res_Disk onboarded)) (1024 * 1024 * 1024) (u64 (Disk_Size (res_Disk machine) * 9) / 10))
  then Some ErrDiskRange
  else validateCapacityGPUs (res_GPUs machine) (res_GPUs onboarded).

Definition Compute (c : CPU) : float64 := f64_mul (f64_of_f32 (CPU_Cores c)) (CPU_ClockSpeed c).

Fixpoint validateFreeGPUs (free gpus : list GPU) : option usage_error :=
  match gpus with
  | [] => None
  | gpu :: gpus =>
      match GetWithIndex free (GPU_Index gpu) with
      | inr _ => Some ErrFreeGPU
      | inl selectedGPU => if GPU_VRAM selectedGPU <? GPU_VRAM gpu then Some ErrFreeVRAM else validateFreeGPUs free gpus
      end
  end.

Definition validateUsage (onboarded free : Resources) : option usage_error :=
  if float_lt (Compute (res_CPU free)) (Compute (res_CPU onboarded)) then Some ErrFreeCompute
  else if RAM_Size (res_RAM free) <? RAM_Size (res_RAM onboarded) then Some ErrFreeRAM
  else if Disk_Size (res_Disk free) <? Disk_Size (res_Disk onboarded) then Some ErrFreeDisk
  else validateFreeGPUs (res_GPUs free) (res_GPUs onboarded).

Definition validatePrerequisites (h : Readings) (config : OnboardingConfig) : option onboarding_error :=
  match rd_machine h with
  | None => Some ErrMachineResources
  | Some machine =>
      match validateCapacity (OnboardedResources config) machine with
      | Some e => Some (ErrUnmetCapacity e)
      | None =>
          match hardware_GetFreeResources (rd_free h) with
          | None => Some ErrSystemFree
          | Some free =>
              match validateUsage (OnboardedResources config) free with
              | Some e => Some (ErrHighUsage e)
              | None => None
              end
          end
      end
  end.

(** ** Operations *)

Section onboarding.
  Context `{Visit : MapVisit}.

(** The manager replaces its cache: the configuration keeps the GPUs it had. *)
Definition updateResources (o : Onboarding) (r : Resources) (ok : bool) : option rm_error * Onboarding :=
  match UpdateOnboardedResources (ob_resources o) r ok with
  | (Some e, d) => (Some e, mkOnboarding (ob_Config o) (ob_shared o) (ob_stored o) d)
  | (None, d) => (None, mkOnboarding (cachedConfig o) false (ob_stored o) d)
  end.

(** [Onboard]: the GPUs of the configuration given are those the manager now caches. *)
Definition Onboard (o : Onboarding) (h : Readings) (config : OnboardingConfig) (update_ok save_ok : bool)
    : (OnboardingConfig + onboarding_error) * Onboarding :=
  match validatePrerequisites h config with
  | Some e => (inr e, o)
  | None =>
      match updateResources o (OnboardedResources config) update_ok with
      | (Some e, o) => (inr (ErrUpdateOnboarded e), o)
      | (None, o) =>
          if negb save_ok then (inr ErrConfigSave, o)
          else
            let config := mkOnboardingConfig true (OnboardedResources config) in
            let cached := cachedConfig (mkOnboarding config true (ob_stored o) (ob_resources o)) in
            (inl cached, mkOnboarding config true (Some cached) (ob_resources o))
      end
  end.

Definition Offboard (o : Onboarding) (clear_ok update_ok : bool) : option onboarding_error * Onboarding :=
  if negb (ob_IsOnboarded o) then (Some ErrMachineNotOnboarded, o)
  else if negb clear_ok then (Some ErrConfigClear, o)
  else
    let o := mkOnboarding (mkOnboardingConfig false (OnboardedResources (ob_Config o))) (ob_shared o) None (ob_resources o) in
    match updateResources o Resources_zero update_ok with
    | (Some e, o) => (Some (ErrUpdateOnboarded e), o)
    | (None, o) => (None, o)
    end.

(** The resources the manager has, put into a configuration; the manager may read its store. *)
Definition populateOnboardingConfig (config : OnboardingConfig) (d : Manager) : (OnboardingConfig + onboarding_error) * Manager :=
  match GetOnboardedResources d with
  | (inr e, d) => (inr (ErrPopulate e), d)
  | (inl r, d) => (inl (mkOnboardingConfig (IsOnboarded config) r), d)
  end.

Definition onboarding_Info (o : Onboarding) : (OnboardingConfig + onboarding_error) * Onboarding :=
  let '(x, d) := populateOnboardingConfig (cachedConfig o) (ob_resources o) in
  (x, mkOnboarding (ob_Config o) (ob_shared o) (ob_stored o) d).

(** What the database gives back for the transient resources of a configuration. *)
Class ConfigStore := { reloadResources : Resources → Resources }.

(** [onboarding_New] with the repository's record, the manager of the new process, and the answers:
    whether the record could be read, the readings, and those of [Offboard]. *)
Definition onboarding_New `{ConfigStore} (stored : option OnboardingConfig) (d : Manager) (get_ok : bool) (h : Readings) (clear_ok update_ok : bool)
    : (Onboarding + onboarding_error) * option OnboardingConfig * Manager :=
  if negb get_ok then (inr ErrConfigGet, stored, d)
  else
    let config := match stored with
      | Some c => mkOnboardingConfig (IsOnboarded c) (reloadResources (OnboardedResources c))
      | None => OnboardingConfig_zero
      end in
    let o := mkOnboarding config false stored d in
    if IsOnboarded config then
      match populateOnboardingConfig config d with
      | (inr e, d) => (inr e, stored, d)
      | (inl populated, d) =>
          let o := mkOnboarding config false stored d in
          match validatePrerequisites h populated with
          | None | Some (ErrHighUsage _) => (inl o, stored, d)
          | Some _ =>
              match Offboard o clear_ok update_ok with
              | (Some e, o) => (inr e, ob_stored o, ob_resources o)
              | (None, o) => (inl o, ob_stored o, ob_resources o)
              end
          end
      end
    else (inl o, stored, d).

(** ** Behaviours *)

(** A request that cannot be decoded is [None]. *)
Inductive handler_error {E : Type} := ErrDecode | ErrHandled (e : E).
Arguments handler_error : clear implicits.

Record Reply_of (E A : Type) := mkReply { rp_OK : bool; rp_Error : option E; rp_Value : A }.
Arguments mkReply {E A} _ _ _.
Arguments rp_OK {E A} _.
Arguments rp_Error {E A} _.
Arguments rp_Value {E A} _.

Definition handleOnboard (o : Onboarding) (request : option OnboardingConfig) (h : Readings) (update_ok save_ok : bool)
    : Reply_of (handler_error onboarding_error) OnboardingConfig * Onboarding :=
  match request with
  | None => (mkReply false (Some ErrDecode) OnboardingConfig_zero, o)
  | Some config =>
      match Onboard o h config update_ok save_ok with
      | (inr e, o) => (mkReply false (Some (ErrHandled e)) OnboardingConfig_zero, o)
      | (inl config, o) => (mkReply true None config, o)
      end
  end.

Definition handleOffboard (o : Onboarding) (clear_ok update_ok : bool) : Reply_of onboarding_error () * Onboarding :=
  match Offboard o clear_ok update_ok with
  | (Some e, o) => (mkReply false (Some e) (), o)
  | (None, o) => (mkReply true None (), o)
  end.

Definition handleOnboardStatus (o : Onboarding) : bool := ob_IsOnboarded o.

(** The answer of a query for resources. *)
Definition resourcesReply {E} (x : Resources + E) : Reply_of E Resources :=
  match x with inl r => mkReply true None r | inr e => mkReply false (Some e) Resources_zero end.

Definition handleAllocatedResources (d : Manager) : Reply_of rm_error Resources := resourcesReply (inl (GetTotalAllocation d)).
Definition handleFreeResources (d : Manager) : Reply_of rm_error Resources * Manager :=
  let '(x, d) := GetFreeResources d in (resourcesReply x, d).
Definition handleOnboardedResources (d : Manager) : Reply_of rm_error Resources * Manager :=
  let '(x, d) := GetOnboardedResources d in (resourcesReply x, d).
Definition handleHardwareUsage (h : Measurement) : Reply_of () Resources :=
  resourcesReply (match hw_usage h with Some r => inl r | None => inr () end).
Definition handleHardwareSpec (h : Measurement) : Reply_of () Resources :=
  resourcesReply (match hw_machine h with Some r => inl r | None => inr () end).

Definition publicStatusBehavior (h : Measurement) : string * Resources :=
  match hw_machine h with None => ("ERROR", Resources_zero) | Some r => ("OK", r) end.

(** The part of the status for discovery that says what the machine offers: the flag, the
    resources (total, onboarded, allocated, free) and the errors. *)
Record DiscoveryResources := mkDiscoveryResources {
  ds_Onboarded : bool;
  ds_Total : Resources;
  ds_OnboardedResources : Resources;
  ds_Allocated : Resources;
  ds_Free : Resources;
  ds_Errors : list string
}.

Definition handleStatusDiscovery (o : Onboarding) (h : Measurement) : DiscoveryResources * Onboarding :=
  let '(total, errors) := match hw_machine h with
    | Some r => (r, [])
    | None => (Resources_zero, ["error getting total machine resource"])
    end in
  if ob_IsOnboarded o then
    let onboarded := OnboardedResources (cachedConfig o) in
    let allocated := GetTotalAllocation (ob_resources o) in
    let '(free, d) := GetFreeResources (ob_resources o) in
    let o := mkOnboarding (ob_Config o) (ob_shared o) (ob_stored o) d in
    let onboarded := set_GPUs onboarded (res_GPUs (OnboardedResources (cachedConfig o))) in
    match free with
    | inl free => (mkDiscoveryResources true total onboarded allocated free errors, o)
    | inr _ => (mkDiscoveryResources true total onboarded allocated Resources_zero (errors ++ ["error getting free resources"]), o)
    end
  else (mkDiscoveryResources false total Resources_zero Resources_zero Resources_zero errors, o).

End onboarding.

(** ** Runs of a node *)

Section runs.
  Context `{Visit : MapVisit} `{Store : ConfigStore}.

(** The manager of a new process, with the records of the old one. *)
Definition rebooted (d : Manager) : Manager := NewResourceManager (db_onboarded d) (db_allocations d).

(** The process is started again, until it comes up. *)
Inductive boots (stored : option OnboardingConfig) (d : Manager) : Onboarding → Prop :=
| boot_up get_ok h clear_ok update_ok o stored' d' :
    onboarding_New stored (rebooted d) get_ok h clear_ok update_ok = (inl o, stored', d') → boots stored d o
| boot_fails get_ok h clear_ok update_ok e stored' d' o :
    onboarding_New stored (rebooted d) get_ok h clear_ok update_ok = (inr e, stored', d') → boots stored' d' o → boots stored d o.

Inductive ob_step (o : Onboarding) : Onboarding → Prop :=
| ob_onboard h config update_ok save_ok x o' :
    res_valid (OnboardedResources config) → Onboard o h config update_ok save_ok = (x, o') → ob_step o o'
| ob_offboard clear_ok update_ok e o' : Offboard o clear_ok update_ok = (e, o') → ob_step o o'
| ob_info x o' : onboarding_Info o = (x, o') → ob_step o o'
| ob_manager d' : rm_step (ob_resources o) d' → ob_step o (mkOnboarding (ob_Config o) (ob_shared o) (ob_stored o) d')
| ob_restart o' : boots (ob_stored o) (ob_resources o) o' → ob_step o o'.

(** A machine that was never onboarded. *)
Definition fresh : Onboarding := mkOnboarding OnboardingConfig_zero false None (NewResourceManager None ∅).

Definition ob_reachable (o : Onboarding) : Prop := rtc ob_step fresh o.

(** ** The flag and the records *)

Definition flagged (stored : option OnboardingConfig) : bool := match stored with Some c => IsOnboarded c | None => false end.

(** A record that says the machine is onboarded has resources beside it. *)
Definition records_ok (stored : option OnboardingConfig) (d : Manager) : Prop :=
  flagged stored = true → is_Some (db_onboarded d).

Record onboarding_ok (o : Onboarding) : Prop := {
  oo_flag : ob_IsOnboarded o = flagged (ob_stored o);
  oo_records : records_ok (ob_stored o) (ob_resources o);
  oo_manager : rm_ok (ob_resources o)
}.

Lemma rebooted_ok d : rm_ok d → rm_ok (rebooted d).
Proof.
  intros [[_ _ _ V] _ _]. apply rm_reachable_ok. exists (db_onboarded d), (db_allocations d). split; [done|apply rtc_refl].
Qed.

Lemma manager_step_ok o d' :
  onboarding_ok o → rm_step (ob_resources o) d' → onboarding_ok (mkOnboarding (ob_Config o) (ob_shared o) (ob_stored o) d').
Proof.
  intros [F R M] Hs. split; [done| |by eapply step_rm_ok]. cbn. intros Hf%R.
  assert (db_onboarded d' = db_onboarded (ob_resources o) ∨ is_Some (db_onboarded d')) as [->|]; [|done..].
  destruct M as [Hbv F1 F2]. destruct Hs as [id r e d' Hr Hc|id e d' Hu|id ok e d' Ha|id ok e d' Hd|x d' Hf'|x d' Ho|r ok e d' Hr Hu].
  - left. revert Hc. unfold CommitResources. case_bool_decide; [by intros [= _ <-]|]. destruct (IsCommitted _ _); [by intros [= _ <-]|].
    destruct (checkCapacity _ r) as [e' d1] eqn:Hck. apply (checkCapacity_spec ram_size ram_measure ram_u64) in Hck as [Hs _]; [|done..].
    destruct e'; intros [= _ <-]; apply (sb_db _ _ Hs).
  - left. revert Hu. unfold UncommitResources. by destruct (negb _); intros [= _ <-].
  - left. revert Ha. unfold AllocateResources, storeAllocation. repeat case_match; intros [= _ <-]; by simplify_eq/=.
  - left. revert Hd. unfold DeallocateResources, deleteAllocation. repeat case_match; intros [= _ <-]; by simplify_eq/=.
  - left. apply (GetFreeResources_spec ram_size ram_measure) in Hf' as [Hs _]. apply (sb_db _ _ Hs).
  - left. apply GetOnboardedResources_spec in Ho as [Hs _]. apply (sb_db _ _ Hs).
  - revert Hu. unfold UpdateOnboardedResources. repeat case_match; intros [= _ <-]; cbn; eauto.
Qed.

(** The update through the manager. *)
Lemma updateResources_ok o r ok e o' :
  updateResources o r ok = (e, o') → res_valid r → onboarding_ok o →
  onboarding_ok o' ∧ ob_IsOnboarded o' = ob_IsOnboarded o ∧ ob_stored o' = ob_stored o ∧ (e = None → is_Some (db_onboarded (ob_resources o'))).
Proof.
  unfold updateResources. destruct (UpdateOnboardedResources (ob_resources o) r ok) as [e' d] eqn:Hu. intros H Hr Hok.
  assert (onboarding_ok (mkOnboarding (ob_Config o) (ob_shared o) (ob_stored o) d)) as Hok'.
  { apply manager_step_ok; [done|]. by eapply rm_update. }
  destruct e'; injection H as <- <-; [by split_and!|]. split_and!; [|unfold ob_IsOnboarded, cachedConfig; cbn; by repeat case_match|done|].
  - destruct Hok' as [F R M]. split; [|done..]. revert F. unfold ob_IsOnboarded, cachedConfig. cbn. by repeat case_match.
  - intros _. revert Hu. unfold UpdateOnboardedResources. repeat case_match; intros [= <-]; cbn; eauto.
Qed.

Lemma Onboard_ok o h config update_ok save_ok x o' :
  Onboard o h config update_ok save_ok = (x, o') → res_valid (OnboardedResources config) → onboarding_ok o → onboarding_ok o'.
Proof.
  unfold Onboard. intros H Hr Hok. destruct (validatePrerequisites h config); [by injection H as _ <-|].
  destruct (updateResources o (OnboardedResources config) update_ok) as [e o1] eqn:Hu.
  destruct (updateResources_ok _ _ _ _ _ Hu Hr Hok) as (Hok1 & _ & _ & Hdb).
  destruct e; [by injection H as _ <-|]. destruct save_ok; cbn in H; injection H as _ <-; [|done].
  destruct Hok1 as [_ _ M]. split; [|intros _; by apply Hdb|done]. unfold ob_IsOnboarded, cachedConfig. cbn. by case_match.
Qed.

Lemma zero_valid : res_valid Resources_zero.
Proof. by split; unfold is_u64. Qed.

Lemma Offboard_ok o clear_ok update_ok e o' :
  Offboard o clear_ok update_ok = (e, o') → onboarding_ok o → onboarding_ok o'.
Proof.
  unfold Offboard. intros H Hok. destruct (negb (ob_IsOnboarded o)); [by injection H as _ <-|].
  destruct (negb clear_ok); [by injection H as _ <-|].
  destruct (updateResources _ Resources_zero update_ok) as [e1 o1] eqn:Hu.
  apply updateResources_ok in Hu as [Hok1 _]; [|apply zero_valid|]; [by destruct e1; injection H as _ <-|].
  destruct Hok as [F R M]. by split.
Qed.

Lemma populate_ok config d x d' : populateOnboardingConfig config d = (x, d') → rm_ok d →
  rm_step d d' ∧ ∀ c, x = inl c → IsOnboarded c = IsOnboarded config ∧ onboardedResources d' = Some (OnboardedResources c).
Proof.
  unfold populateOnboardingConfig. destruct (GetOnboardedResources d) as [y d1] eqn:Hg. intros H _.
  pose proof (rm_onboarded _ _ _ Hg) as Hs. apply GetOnboardedResources_spec in Hg as [_ Hr].
  destruct y as [r|e]; injection H as <- <-; (split; [done|]); intros c [= <-]. destruct (Hr r eq_refl) as [? _]. done.
Qed.

Lemma onboarding_New_ok stored d get_ok h clear_ok update_ok x stored' d' :
  onboarding_New stored d get_ok h clear_ok update_ok = (x, stored', d') → records_ok stored d → rm_ok d →
  records_ok stored' d' ∧ rm_ok d' ∧ (∀ o, x = inl o → onboarding_ok o ∧ ob_stored o = stored' ∧ ob_resources o = d').
Proof.
  unfold onboarding_New. intros H Hrec Hm. destruct get_ok; cbn [negb] in H; [|injection H as <- <- <-; by split_and!].
  set (config := match stored with Some c => _ | None => _ end) in H.
  assert (IsOnboarded config = flagged stored) as Hc by (by destruct stored).
  destruct (IsOnboarded config) eqn:Hf; [|injection H as <- <- <-; split_and!; [done..|]; intros o [= <-]; split_and!; [|done..]; split; [|done..]; unfold ob_IsOnboarded; cbn; congruence].
  destruct (populateOnboardingConfig config d) as [y d1] eqn:Hp.
  destruct (populate_ok _ _ _ _ Hp Hm) as [Hs _].
  assert (onboarding_ok (mkOnboarding config false stored d1)) as Hok.
  { apply (manager_step_ok (mkOnboarding config false stored d)); [|done]. split; [|done..]. unfold ob_IsOnboarded. cbn. congruence. }
  assert (Hkeep : records_ok stored d1 ∧ rm_ok d1 ∧
    ∀ o, inl (B := onboarding_error) (mkOnboarding config false stored d1) = inl o → onboarding_ok o ∧ ob_stored o = stored ∧ ob_resources o = d1).
  { destruct Hok as [F R M] eqn:E. split_and!; [done..|]. by intros o [= <-]. }
  destruct y as [populated|e]; [|injection H as <- <- <-; destruct Hkeep as (? & ? & _); by split_and!].
  assert (Hoff : ∀ e1 o1, Offboard (mkOnboarding config false stored d1) clear_ok update_ok = (e1, o1) →
    records_ok (ob_stored o1) (ob_resources o1) ∧ rm_ok (ob_resources o1) ∧ onboarding_ok o1).
  { intros e1 o1 Ho%Offboard_ok; [|done]. by destruct Ho as [F R M] eqn:E. }
  destruct (Offboard _ clear_ok update_ok) as [e1 o1] eqn:Ho. destruct (Hoff _ _ eq_refl) as (R1 & M1 & O1).
  assert (Hgone : match e1 with Some e => (inr e, ob_stored o1, ob_resources o1) | None => (inl o1, ob_stored o1, ob_resources o1) end =
      (x, stored', d') → records_ok stored' d' ∧ rm_ok d' ∧ ∀ o, x = inl o → onboarding_ok o ∧ ob_stored o = stored' ∧ ob_resources o = d').
  { destruct e1; intros [= <- <- <-]; split_and!; try done. by intros o [= <-]. }
  destruct (validatePrerequisites h populated) as [[]|]; try (by apply Hgone); by injection H as <- <- <-.
Qed.

Lemma boots_ok stored d o : boots stored d o → records_ok stored d → rm_ok d → onboarding_ok o.
Proof.
  induction 1 as [stored d get_ok h clear_ok update_ok o stored' d' Hn|stored d get_ok h clear_ok update_ok e stored' d' o Hn _ IH];
    intros Hrec Hm; (apply onboarding_New_ok in Hn as (R & M & Ho); [|by destruct d|by apply rebooted_ok]); [by apply Ho|by apply IH].
Qed.

Lemma ob_reachable_ok o : ob_reachable o → onboarding_ok o.
Proof.
  assert (onboarding_ok fresh) as Hinit.
  { split; [done..|]. apply rm_reachable_ok. exists None, ∅. split; [done|apply rtc_refl]. }
  unfold ob_reachable. generalize fresh Hinit. clear Hinit. intros o0 Hinit Hr.
  induction Hr as [|o1 o2 o3 Hs _ IH]; [done|]. apply IH.
  destruct Hs as [h config update_ok save_ok x o2 Hv Ho|clear_ok update_ok e o2 Ho|x o2 Hi|d' Hd|o2 Hb].
  - by eapply Onboard_ok.
  - by eapply Offboard_ok.
  - revert Hi. unfold onboarding_Info. destruct (populateOnboardingConfig _ _) as [y d] eqn:Hp. intros [= _ <-].
    apply manager_step_ok; [done|]. by eapply populate_ok, oo_manager.
  - by apply manager_step_ok.
  - destruct Hinit as [F R M]. by eapply boots_ok.
Qed.

(** ** Starting again *)

(** The resources are still a fitting part of the machine; high usage is accepted. *)
Definition still_fits (h : Readings) (r : Resources) : bool :=
  match validatePrerequisites h (mkOnboardingConfig true r) with
  | None | Some (ErrHighUsage _) => true
  | _ => false
  end.

Lemma no_allocations d : GetTotalAllocation (rebooted d) = Resources_zero.
Proof.
  unfold GetTotalAllocation, sumResources, rebooted, NewResourceManager. cbn [allocations].
  rewrite map_to_list_empty. cbn [map]. pose proof (visit_perm (A := Resources) []) as Hp%Permutation_nil_r.
  by rewrite Hp.
Qed.

(** A new process has no allocations, so the onboarded resources can be cleared. *)
Lemma clear_rebooted d r :
  onboardedResources d = Some r → allocations d = ∅ →
  UpdateOnboardedResources d Resources_zero true =
    (None, mkManager (Some Resources_zero) (committedResources d) (allocations d) (Some Resources_zero) (db_allocations d)).
Proof.
  intros _ Ha. unfold UpdateOnboardedResources.
  assert (GetTotalAllocation d = Resources_zero) as ->.
  { unfold GetTotalAllocation. rewrite Ha. apply (no_allocations d). }
  assert (Resources_Subtract Resources_zero Resources_zero = (Resources_zero, None)) as -> by by vm_compute. done.
Qed.

(** C18: a node comes up again: in every reachable state the flag is the one of the record,
    and when the database answers, starting the node succeeds; the machine is onboarded
    exactly when it was and its stored resources are still a fitting part of the hardware,
    with these resources; when it was onboarded and they no longer fit, the record is removed
    and the resources are cleared; when it was not onboarded, the stored record and resources
    stay as they are. *)
Theorem restart_outcome o h x stored d' :
  ob_reachable o → onboarding_New (ob_stored o) (rebooted (ob_resources o)) true h true true = (x, stored, d') →
  ob_IsOnboarded o = flagged (ob_stored o) ∧
  ∃ o', x = inl o' ∧
    if ob_IsOnboarded o then
      ∃ r, db_onboarded (ob_resources o) = Some r ∧
        if still_fits h r then ob_IsOnboarded o' = true ∧ stored = ob_stored o ∧ (onboarding_Info o').1 = inl (mkOnboardingConfig true r)
        else ob_IsOnboarded o' = false ∧ stored = None ∧ db_onboarded d' = Some Resources_zero
    else ob_IsOnboarded o' = false ∧ stored = ob_stored o ∧ db_onboarded d' = db_onboarded (ob_resources o).
Proof.
  intros [Hflag Hrec _]%ob_reachable_ok H. split; [done|]. rewrite Hflag. revert H. unfold onboarding_New. cbn [negb].
  set (config := match ob_stored o with Some c => _ | None => _ end).
  assert (IsOnboarded config = flagged (ob_stored o)) as Hc by (unfold config; by destruct (ob_stored o)).
  clearbody config. rewrite Hc. destruct (flagged (ob_stored o)) eqn:Hf.
  2: { intros [= <- <- <-]. eexists. split; [done|]. split_and!; [exact Hc|done..]. }
  destruct (Hrec Hf) as [r Hr]. unfold populateOnboardingConfig, GetOnboardedResources. cbn. rewrite Hr. cbn.
  rewrite Hc. unfold still_fits.
  assert (Hup : ∀ o', o' = mkOnboarding config false (ob_stored o) (set_onboarded (rebooted (ob_resources o)) r) →
    ob_IsOnboarded o' = true ∧ ob_stored o = ob_stored o ∧ (onboarding_Info o').1 = inl (mkOnboardingConfig true r)).
  { intros o' ->. split_and!; [exact Hc|done|]. unfold onboarding_Info, populateOnboardingConfig, cachedConfig. cbn. by rewrite Hc. }
  assert (Hoff : Offboard (mkOnboarding config false (ob_stored o) (set_onboarded (rebooted (ob_resources o)) r)) true true =
    (None, mkOnboarding (mkOnboardingConfig false (OnboardedResources config)) false None
       (mkManager (Some Resources_zero) ∅ ∅ (Some Resources_zero) (db_allocations (ob_resources o))))).
  { unfold Offboard, ob_IsOnboarded, updateResources. cbn. rewrite Hc. cbn. by rewrite (clear_rebooted _ r). }
  rewrite Hoff. clear Hoff.
  destruct (validatePrerequisites h _) as [[]|] eqn:E; intros [= <- <- <-]; eexists; (split; [done|]); exists r; (split; [done|]);
    rewrite E; first [by apply Hup|by split_and!].
Qed.

(** ** What is offered is there *)




(** The manager keeps what is onboarded less what is allocated, and the two are the whole. *)
Lemma update_total size d r ok d' :
  measure size → (∀ r, res_valid r → is_u64 (size r)) → rm_ok d → fits size d → res_valid r →
  UpdateOnboardedResources d r ok = (None, d') →
  ∃ r', onboardedResources d' = Some r' ∧ db_onboarded d' = Some r' ∧ allocations d' = allocations d ∧
    size r' + total size (allocations d') = size r.
Proof.
  intros Hms Hsv [[V1 V2 _ _] _ _] Hfit Hr. unfold UpdateOnboardedResources.
  destruct (Resources_Subtract r _) as [r' [e|]] eqn:Hsub; [done|]. destruct (negb ok); [done|]. intros [= <-]. cbn.
  exists r'. split_and!; [done..|]. apply (ms_sub _ Hms) in Hsub as [L ->].
  unfold GetTotalAllocation in *. rewrite (size_sumResources _ Hms) in *.
  pose proof (total_nonneg _ Hsv _ V1). pose proof (total_nonneg _ Hsv _ V2). apply Hsv in Hr.
  unfold fits, is_u64 in *. rewrite (u64_small (total size (allocations d))) in * by (unfold is_u64; lia).
  rewrite u64_small by (unfold is_u64; lia). lia.
Qed.


(** ** Offboarding while allocations run *)

(** The record is cleared first, and clearing the resources fails: the machine is no longer
    onboarded, its resources still are, and offboarding it again is refused. *)
Theorem offboard_while_allocated o update_ok :
  ob_reachable o → ob_IsOnboarded o = true → 0 < total ram_size (allocations (ob_resources o)) →
  ∃ e o', Offboard o true update_ok = (Some (ErrUpdateOnboarded e), o') ∧
    ob_IsOnboarded o' = false ∧ ob_stored o' = None ∧ ob_resources o' = ob_resources o ∧
    ∀ clear_ok update_ok', Offboard o' clear_ok update_ok' = (Some ErrMachineNotOnboarded, o').
Proof.
  intros [_ _ M]%ob_reachable_ok Hon Htot. unfold Offboard at 1. rewrite Hon. cbn [negb].
  destruct (updateResources _ Resources_zero update_ok) as [e o'] eqn:Hu. unfold updateResources in Hu. cbn in Hu.
  destruct (UpdateOnboardedResources (ob_resources o) Resources_zero update_ok) as [e' d] eqn:Hup.
  destruct e' as [e'|]; [|exfalso].
  - exists e', o'. injection Hu as <- <-. cbn. split_and!; try done.
    revert Hup. unfold UpdateOnboardedResources. repeat case_match; by intros [= _ <-].
  - pose proof M as [[V1 V2 _ _] F1 _].
    destruct (update_total _ _ _ _ _ ram_measure ram_u64 M F1 zero_valid Hup) as (r & Hr & _ & Ha & Hsum).
    assert (res_valid r) as Hr'%ram_u64.
    { eapply bv_onboarded; [|done]. eapply rm_valid, step_rm_ok; [by eapply rm_update; [apply zero_valid|]|done]. }
    rewrite Ha in Hsum. unfold is_u64 in Hr'. change (ram_size Resources_zero) with 0 in Hsum. lia.
Qed.

End runs.

(** ** A machine *)

#[local] Existing Instance visit_in_order.

(** The database drops the transient resources. *)
#[local] Instance transient : ConfigStore := {| reloadResources _ := Resources_zero |}.

Definition GiB : Z := 2 ^ 30.

(** Cores, RAM and disk in GiB, at a clock of one GHz. *)
Definition computer (cores ram disk : Z) : Resources :=
  mkResources (mkCPU (f64_of_Z 1000000000) (f32_of_Z cores) "") [] (mkRAM (ram * GiB) 0) (mkDisk (disk * GiB)).

(** A hundred GiB, of which ten are in use. *)
Definition readings : Readings := mkReadings (Some (computer 8 100 100)) (mkMeasurement (Some (computer 1 10 10)) (Some (computer 8 100 100))).
Definition offer : OnboardingConfig := mkOnboardingConfig false (computer 4 20 20).

Definition onboarded_once : Onboarding := (Onboard fresh readings offer true true).2.

Lemma offer_valid : res_valid (OnboardedResources offer).
Proof. by split; unfold is_u64; vm_compute. Qed.

Lemma onboarded_once_reachable : ob_reachable onboarded_once.
Proof. apply rtc_once. eapply (ob_onboard fresh readings offer true true); [apply offer_valid|]. apply surjective_pairing. Qed.


Lemma restart_outcome_witness :
  ∃ x stored d, onboarding_New (ob_stored onboarded_once) (rebooted (ob_resources onboarded_once)) true readings true true = (x, stored, d) ∧
    ob_IsOnboarded onboarded_once = flagged (ob_stored onboarded_once) ∧ ∃ o', x = inl o' ∧ ob_IsOnboarded o' = true.
Proof.
  destruct (onboarding_New (ob_stored onboarded_once) (rebooted (ob_resources onboarded_once)) true readings true true) as [[x stored] d] eqn:Hn.
  exists x, stored, d. split; [done|].
  destruct (restart_outcome onboarded_once readings x stored d onboarded_once_reachable Hn) as (Hf & o' & -> & Ho).
  split; [done|]. exists o'. split; [done|]. assert (ob_IsOnboarded onboarded_once = true) as E by by vm_compute. rewrite E in Ho.
  destruct Ho as (r & Hr & Ho). assert (still_fits readings r = true) as Hs.
  { vm_compute in Hr. injection Hr as <-. by vm_compute. }
  rewrite Hs in Ho. apply Ho.
Defined.

(** *** What goes wrong *)

(** An allocation of fifteen GiB of the twenty runs when the same offer is made again: the
    five GiB that are left are stored as the onboarded resources, and are too few for the
    machine when the node starts again, which then is offboarded. *)
Definition busy : Onboarding :=
  let d := (CommitResources (ob_resources onboarded_once) "A" (computer 1 15 15)).2 in
  mkOnboarding (ob_Config onboarded_once) true (ob_stored onboarded_once) (AllocateResources d "A" true).2.
Definition busy_again : Onboarding := (Onboard busy readings offer true true).2.

Example offered_again_is_offboarded :
  ob_IsOnboarded busy_again = true ∧
  (∃ r, db_onboarded (ob_resources busy_again) = Some r ∧ ram_size r = 5 * GiB ∧ still_fits readings r = false) ∧
  match onboarding_New (ob_stored busy_again) (rebooted (ob_resources busy_again)) true readings true true with
  | (inl o, _, _) => ob_IsOnboarded o = false
  | _ => False
  end.
Proof. split; [by vm_compute|]. split; [eexists; split; [vm_compute; reflexivity|by vm_compute]|by vm_compute]. Qed.

(** When the record cannot be saved the machine is not onboarded, but its resources are, and
    allocations can be committed on them. *)
Example unsaved_is_still_offered :
  let o := (Onboard fresh readings offer true false).2 in
  (Onboard fresh readings offer true false).1 = inr ErrConfigSave ∧ ob_IsOnboarded o = false ∧
  (CommitResources (ob_resources o) "A" (computer 1 15 15)).1 = None.
Proof. split_and!; by vm_compute. Qed.

(** The status for discovery reads the cached configuration, which is not populated when the
    node starts: the machine is onboarded with nothing. *)
Example status_after_restart_is_empty :
  match onboarding_New (ob_stored onboarded_once) (rebooted (ob_resources onboarded_once)) true readings true true with
  | (inl o, _, _) =>
      ds_Onboarded (handleStatusDiscovery o (rd_free readings)).1 = true ∧
      ram_size (ds_OnboardedResources (handleStatusDiscovery o (rd_free readings)).1) = 0 ∧
      ram_size (ds_Free (handleStatusDiscovery o (rd_free readings)).1) = 20 * GiB
  | _ => False
  end.
Proof. by vm_compute. Qed.
