(* ===== verification/EventHandler.v ===== *)
(** * Events for contracts (tokenomics/eventhandler, dms/node/node.go)

    [EventHandler] queues events in a buffered channel; workers hand them to a handler and
    put those that fail back, after a delay, until their retries are used up.  The state
    holds the events at every place they can be: in a call of [Push] that waits for room, in
    the channel, with a worker, or waiting in the goroutine of a retry.  Sends and receives
    on the channel are atomic; its capacity is at least one, a select with several ready
    cases takes any of them. *)

From S2P Require Import Prelude GoNumbers GoStrings Key Envelope GoTime UsageStore ContractHost.

Local Open Scope Z_scope.

(** ** Data *)

Definition defaultMaxRetries : Z := 10.

Section events.
  Context {P : Type} `{EqDecision P}.    (* the payload *)

Record Event := mkEvent {
  ContractHostDID : string;
  ContractDID : string;
  Payload : P;
  MaxRetries : Z;
  attempts : Z
}.

#[export] Instance Event_eq_dec : EqDecision Event.
Proof. solve_decision. Defined.

Definition set_event_attempts (e : Event) (n : Z) : Event := mkEvent (ContractHostDID e) (ContractDID e) (Payload e) (MaxRetries e) n.

Record EventHandler := mkEventHandler {
  eh_pushing : list Event;
  eh_events : list Event;              (* the channel, the oldest first *)
  eh_working : list Event;
  eh_sleeping : list (Event * Z);      (* with the delay *)
  eh_workers : nat;                    (* those that run *)
  eh_queueSize : nat;
  eh_baseDelay : Z;
  eh_maxDelay : Z;
  eh_done : bool                       (* the context *)
}.

(** [New] starts the workers. *)
Definition NewEventHandler (workers queueSize : nat) (baseDelay maxDelay : Z) : EventHandler :=
  mkEventHandler [] [] [] [] workers queueSize baseDelay maxDelay false.

Definition set_places (eh : EventHandler) (pushing events working : list Event) (sleeping : list (Event * Z)) : EventHandler :=
  mkEventHandler pushing events working sleeping (eh_workers eh) (eh_queueSize eh) (eh_baseDelay eh) (eh_maxDelay eh) (eh_done eh).

(** ** Delays *)

(** [math.Pow(2, n)] for a whole number, exact in the range of floats. *)
Definition pow2 (n : Z) : float64 := SpecFloat.binary_normalize 53 1024 1 n false.

(** [time.Duration] of a float: towards zero. *)
Definition f64_trunc (x : float64) : Z :=
  match x with
  | SpecFloat.S754_finite s m e =>
      let q := if 0 <=? e then Zpos m * 2 ^ e else Zpos m / 2 ^ (- e) in if s then - q else q
  | _ => 0
  end.

Definition backoff (eh : EventHandler) (attempt : Z) : Z :=
  let delay := f64_mul (f64_of_Z (eh_baseDelay eh)) (pow2 (attempt - 1)) in
  if float_lt (f64_of_Z (eh_maxDelay eh)) delay then eh_maxDelay eh else f64_trunc delay.

(** ** Operations *)

(** The call of [Push]: the event waits for room in the channel. *)
Definition withRetries (e : Event) : Event :=
  if MaxRetries e =? 0 then mkEvent (ContractHostDID e) (ContractDID e) (Payload e) defaultMaxRetries (attempts e) else e.

Definition Push (eh : EventHandler) (e : Event) : EventHandler :=
  set_places eh (withRetries e :: eh_pushing eh) (eh_events eh) (eh_working eh) (eh_sleeping eh).

(** What a worker does with the answer of the handler. *)
Definition afterHandler (eh : EventHandler) (e : Event) (failed : bool) : option (Event * Z) :=
  if failed && (attempts e <? MaxRetries e) then
    let e := set_event_attempts e (attempts e + 1) in Some (e, backoff eh (attempts e))
  else None.

(** What becomes of events: given to [Push], handed to the handler with its answer, given
    up on, or dropped because the context is done. *)
Inductive eh_event := Pushed (e : Event) | Handled (e : Event) (failed : bool) | GaveUp (e : Event) | Dropped (e : Event).

(** The steps of the goroutines. *)
Inductive work_step (eh : EventHandler) : list eh_event → EventHandler → Prop :=
| eh_send l1 e l2 : eh_pushing eh = l1 ++ e :: l2 → (length (eh_events eh) < eh_queueSize eh)%nat →
    work_step eh [] (set_places eh (l1 ++ l2) (eh_events eh ++ [e]) (eh_working eh) (eh_sleeping eh))
| eh_receive e l : eh_events eh = e :: l → (length (eh_working eh) < eh_workers eh)%nat →
    work_step eh [] (set_places eh (eh_pushing eh) l (e :: eh_working eh) (eh_sleeping eh))
| eh_handled l1 e l2 failed : eh_working eh = l1 ++ e :: l2 →
    work_step eh
      (Handled e failed :: match afterHandler eh e failed with None => if failed then [GaveUp e] else [] | Some _ => [] end)
      (set_places eh (eh_pushing eh) (eh_events eh) (l1 ++ l2) (option_list (afterHandler eh e failed) ++ eh_sleeping eh))
| eh_after l1 e d l2 : eh_sleeping eh = l1 ++ (e, d) :: l2 →
    work_step eh [] (set_places eh (withRetries e :: eh_pushing eh) (eh_events eh) (eh_working eh) (l1 ++ l2)).

(** The steps of the others: calls of [Push], the end of the context, and what the
    goroutines do then. *)
Inductive eh_step (eh : EventHandler) : list eh_event → EventHandler → Prop :=
| eh_work ev eh' : work_step eh ev eh' → eh_step eh ev eh'
| eh_push e : attempts e = 0 → eh_step eh [Pushed (withRetries e)] (Push eh e)
| eh_cancel : eh_step eh [] (mkEventHandler (eh_pushing eh) (eh_events eh) (eh_working eh) (eh_sleeping eh) (eh_workers eh)
    (eh_queueSize eh) (eh_baseDelay eh) (eh_maxDelay eh) true)
| eh_drop_push l1 e l2 : eh_done eh = true → eh_pushing eh = l1 ++ e :: l2 →
    eh_step eh [Dropped e] (set_places eh (l1 ++ l2) (eh_events eh) (eh_working eh) (eh_sleeping eh))
| eh_drop_retry l1 e d l2 : eh_done eh = true → eh_sleeping eh = l1 ++ (e, d) :: l2 →
    eh_step eh [Dropped e] (set_places eh (eh_pushing eh) (eh_events eh) (eh_working eh) (l1 ++ l2))
| eh_stop_worker : eh_done eh = true → (length (eh_working eh) < eh_workers eh)%nat →
    eh_step eh [] (mkEventHandler (eh_pushing eh) (eh_events eh) (eh_working eh) (eh_sleeping eh) (pred (eh_workers eh))
      (eh_queueSize eh) (eh_baseDelay eh) (eh_maxDelay eh) (eh_done eh)).

Inductive eh_run (step : EventHandler → list eh_event → EventHandler → Prop) (eh : EventHandler) : nat → list eh_event → EventHandler → Prop :=
| eh_run_nil : eh_run step eh 0 [] eh
| eh_run_snoc k evs eh1 ev eh2 : eh_run step eh k evs eh1 → step eh1 ev eh2 → eh_run step eh (S k) (evs ++ ev) eh2.

(** ** Accounts *)

(** The event as it was pushed. *)
Definition origin (e : Event) : Event := set_event_attempts e 0.

(** How often an event that was pushed as [o] is in a list. *)
Definition count_of (o : Event) (l : list Event) : nat :=
  sum_list_with (λ e, if bool_decide (origin e = o) then 1%nat else 0%nat) l.

Definition present (eh : EventHandler) : list Event :=
  eh_pushing eh ++ eh_events eh ++ eh_working eh ++ map fst (eh_sleeping eh).

Definition pushed_in (evs : list eh_event) : list Event := evs ≫= λ v, match v with Pushed e => [e] | _ => [] end.
Definition handled_in (evs : list eh_event) : list Event := evs ≫= λ v, match v with Handled e _ => [e] | _ => [] end.
(** Those that are done with: delivered, given up on, or dropped. *)
Definition settled_in (evs : list eh_event) : list Event :=
  evs ≫= λ v, match v with Handled e false => [e] | GaveUp e => [e] | Dropped e => [e] | _ => [] end.

(** The calls of the handler an event has left. *)
Definition calls_left (e : Event) : nat := S (Z.to_nat (MaxRetries e - attempts e)).
Definition calls_of (o : Event) (l : list Event) : nat :=
  sum_list_with (λ e, if bool_decide (origin e = o) then calls_left e else 0%nat) l.

Record accounts (eh : EventHandler) (evs : list eh_event) : Prop := {
  ac_kept o : count_of o (pushed_in evs) = (count_of o (settled_in evs) + count_of o (present eh))%nat;
  ac_calls o : (count_of o (handled_in evs) + calls_of o (present eh) ≤ count_of o (pushed_in evs) * calls_left o)%nat;
  ac_attempts e : e ∈ present eh → 0 ≤ attempts e ∧ (attempts e = 0 ∨ attempts e ≤ MaxRetries e) ∧ MaxRetries e ≠ 0;
  ac_gave_up e : GaveUp e ∈ evs → attempts e = Z.max 0 (MaxRetries e)
}.

Lemma count_of_app o l1 l2 : count_of o (l1 ++ l2) = (count_of o l1 + count_of o l2)%nat.
Proof. apply sum_list_with_app. Qed.

Lemma count_of_cons o e l : count_of o (e :: l) = ((if bool_decide (origin e = o) then 1 else 0) + count_of o l)%nat.
Proof. done. Qed.

Lemma calls_of_cons o e l : calls_of o (e :: l) = ((if bool_decide (origin e = o) then calls_left e else 0) + calls_of o l)%nat.
Proof. done. Qed.

Lemma pushed_in_app l1 l2 : pushed_in (l1 ++ l2) = pushed_in l1 ++ pushed_in l2.
Proof. apply bind_app. Qed.
Lemma handled_in_app l1 l2 : handled_in (l1 ++ l2) = handled_in l1 ++ handled_in l2.
Proof. apply bind_app. Qed.
Lemma settled_in_app l1 l2 : settled_in (l1 ++ l2) = settled_in l1 ++ settled_in l2.
Proof. apply bind_app. Qed.

(** Membership, counted. *)
Definition is_event (e x : Event) : nat := if bool_decide (x = e) then 1%nat else 0%nat.
Lemma elem_of_counted e l : e ∈ l ↔ (0 < sum_list_with (is_event e) l)%nat.
Proof.
  induction l as [|x l IH]; cbn; [rewrite elem_of_nil; lia|]. rewrite elem_of_cons, IH. unfold is_event at 2.
  case_bool_decide as Hx; [|by intuition (subst; try done; lia)]. subst. split; [lia|by left].
Qed.

(** [out] leaves and [into] arrives, whatever is counted. *)
Definition moves (eh : EventHandler) (out into : list Event) (eh' : EventHandler) : Prop :=
  ∀ f, (sum_list_with f (present eh') + sum_list_with f out = sum_list_with f (present eh) + sum_list_with f into)%nat.

Lemma moves_elem eh out into eh' e : moves eh out into eh' → e ∈ present eh' → e ∈ present eh ∨ e ∈ into.
Proof. intros Hm. rewrite !elem_of_counted. specialize (Hm (is_event e)). lia. Qed.

Ltac by_places := intros f; unfold present; cbn; rewrite ?map_app, ?sum_list_with_app; cbn; rewrite ?map_app, ?sum_list_with_app; cbn; lia.

(** The four things that can happen. *)
Inductive change (eh : EventHandler) (eh' : EventHandler) : list eh_event → Prop :=
| ch_move : moves eh [] [] eh' → change eh eh' []
| ch_push e : attempts e = 0 → MaxRetries e ≠ 0 → moves eh [] [e] eh' → change eh eh' [Pushed e]
| ch_drop e : moves eh [e] [] eh' → e ∈ present eh → change eh eh' [Dropped e]
| ch_deliver e : moves eh [e] [] eh' → e ∈ present eh → change eh eh' [Handled e false]
| ch_retry e : moves eh [e] [set_event_attempts e (attempts e + 1)] eh' → attempts e < MaxRetries e → e ∈ present eh →
    change eh eh' [Handled e true]
| ch_give_up e : moves eh [e] [] eh' → MaxRetries e ≤ attempts e → e ∈ present eh → change eh eh' [Handled e true; GaveUp e].

Lemma withRetries_nonzero e : MaxRetries (withRetries e) ≠ 0.
Proof. unfold withRetries. destruct (Z.eqb_spec (MaxRetries e) 0); cbn; [by unfold defaultMaxRetries|done]. Qed.

Lemma withRetries_id e : MaxRetries e ≠ 0 → withRetries e = e.
Proof. intros H. unfold withRetries. by destruct (Z.eqb_spec (MaxRetries e) 0). Qed.

Lemma work_changes eh ev eh' :
  work_step eh ev eh' → (∀ e, e ∈ present eh → MaxRetries e ≠ 0) → change eh eh' ev.
Proof.
  intros Hs Hnz. destruct Hs as [l1 e l2 Hl Hlt|e l Hl Hlt|l1 e l2 failed Hl|l1 e d l2 Hl].
  - apply ch_move. unfold moves, present in *. rewrite Hl. by_places.
  - apply ch_move. unfold moves, present in *. rewrite Hl. by_places.
  - assert (e ∈ present eh) as He. { unfold present. rewrite Hl. set_solver. }
    unfold afterHandler. destruct failed; cbn [andb].
    + destruct (Z.ltb_spec (attempts e) (MaxRetries e)) as [Hlt|Hge].
      * apply ch_retry; [|done..]. unfold moves, present in *. rewrite Hl. by_places.
      * apply ch_give_up; [|done..]. unfold moves, present in *. rewrite Hl. by_places.
    + apply ch_deliver; [|done]. unfold moves, present in *. rewrite Hl. by_places.
  - rewrite withRetries_id.
    + apply ch_move. unfold moves, present in *. rewrite Hl. by_places.
    + apply Hnz. unfold present. rewrite Hl, map_app. cbn. set_solver.
Qed.

Lemma step_changes eh ev eh' :
  eh_step eh ev eh' → (∀ e, e ∈ present eh → MaxRetries e ≠ 0) → change eh eh' ev.
Proof.
  intros Hs Hnz. destruct Hs as [ev eh' Hw|e Ha| |l1 e l2 Hd Hl|l1 e d l2 Hd Hl|Hd Hlt].
  - by apply work_changes.
  - apply ch_push; [|apply withRetries_nonzero|by_places]. unfold withRetries. by destruct (_ =? _).
  - apply ch_move. by_places.
  - apply ch_drop; [unfold moves, present in *; rewrite Hl; by_places|]. unfold present. rewrite Hl. set_solver.
  - apply ch_drop; [unfold moves, present in *; rewrite Hl; by_places|]. unfold present. rewrite Hl, map_app. cbn. set_solver.
  - apply ch_move. by_places.
Qed.

Lemma accounts_nonzero eh evs : accounts eh evs → ∀ e, e ∈ present eh → MaxRetries e ≠ 0.
Proof. intros [_ _ A _] e He. by apply A. Qed.

Lemma calls_left_one e : (1 ≤ calls_left e)%nat.
Proof. unfold calls_left. lia. Qed.

Lemma calls_left_next e : attempts e < MaxRetries e → calls_left e = S (calls_left (set_event_attempts e (attempts e + 1))).
Proof. unfold calls_left. cbn. lia. Qed.

Lemma change_accounts eh evs ev eh' : accounts eh evs → change eh eh' ev → accounts eh' (evs ++ ev).
Proof.
  intros [K C A G] Hc.
  assert (Hev : ∀ e, e ∈ present eh → 0 ≤ attempts e ∧ (attempts e = 0 ∨ attempts e ≤ MaxRetries e)) by (intros e He; destruct (A e He); tauto).
  split.
  - intros o. specialize (K o). rewrite pushed_in_app, settled_in_app, !count_of_app.
    destruct Hc as [Hm|e _ _ Hm|e Hm|e Hm|e Hm|e Hm]; specialize (Hm (λ e, if bool_decide (origin e = o) then 1%nat else 0%nat)); unfold count_of in *; cbn in *; try lia.
    change (origin (set_event_attempts e (attempts e + 1))) with (origin e) in Hm. lia.
  - intros o. specialize (C o). rewrite handled_in_app, pushed_in_app, !count_of_app.
    destruct Hc as [Hm|e H0 _ Hm|e Hm|e Hm|e Hm Hlt|e Hm]; specialize (Hm (λ e, if bool_decide (origin e = o) then calls_left e else 0%nat)); unfold count_of, calls_of in *; cbn in *; try lia.
    + case_bool_decide as Ho; [|lia]. assert (o = e) as ->; [|lia]. rewrite <- Ho. destruct e; cbn in *. by subst.
    + pose proof (calls_left_one e). case_bool_decide; lia.
    + change (origin (set_event_attempts e (attempts e + 1))) with (origin e) in Hm.
      pose proof (calls_left_next e Hlt). case_bool_decide; lia.
    + pose proof (calls_left_one e). case_bool_decide; lia.
  - intros e He. destruct Hc as [Hm|e' H0 Hn Hm|e' Hm|e' Hm|e' Hm Hlt Hp|e' Hm]; destruct (moves_elem _ _ _ _ _ Hm He) as [Hin|Hin]; try (by apply A); try (by apply elem_of_nil in Hin).
    + apply list_elem_of_singleton in Hin as ->. lia.
    + apply list_elem_of_singleton in Hin as ->. destruct (A e' Hp) as (? & ? & ?). cbn. lia.
  - intros e. rewrite elem_of_app. intros [He|He]; [by apply G|].
    destruct Hc as [Hm|e' H0 Hn Hm|e' Hm|e' Hm|e' Hm Hlt Hp|e' Hm Hge Hp]; rewrite ?elem_of_cons, ?elem_of_nil in He; destruct_or?; try done.
    injection He as ->. destruct (Hev e' Hp). lia.
Qed.

Lemma run_accounts eh k evs eh' : eh_run eh_step eh k evs eh' → present eh = [] → accounts eh' evs.
Proof.
  intros Hrun Hp. induction Hrun as [|k evs eh1 ev eh2 _ IH Hs].
  - split; cbn; unfold present in *; rewrite ?Hp; cbn; try done; [intros e; by rewrite elem_of_nil|by intros e ?%elem_of_nil].
  - apply (change_accounts eh1); [by apply IH|]. eapply step_changes; [done|]. by eapply accounts_nonzero, IH.
Qed.

(** C19: no event is lost and none is handled too often: in every run from an idle handler,
    every event that was pushed is delivered, given up on, dropped because the context is
    done, or still there; the handler is called for it once and once more for every retry at
    most; and it is given up on only after all of its retries. *)
Theorem events_accounted eh k evs eh' o :
  present eh = [] → eh_run eh_step eh k evs eh' →
  count_of o (pushed_in evs) = (count_of o (settled_in evs) + count_of o (present eh'))%nat ∧
  (count_of o (handled_in evs) ≤ count_of o (pushed_in evs) * S (Z.to_nat (MaxRetries o - attempts o)))%nat ∧
  (∀ e, GaveUp e ∈ evs → attempts e = Z.max 0 (MaxRetries e)).
Proof.
  intros Hp Hrun. destruct (run_accounts _ _ _ _ Hrun Hp) as [K C _ G].
  split_and!; [apply K| |apply G]. specialize (C o). unfold calls_left in C. lia.
Qed.

(** ** Events settle *)

(** The steps an event takes from its place: four for a retry, three for the first call. *)
Definition steps_of (place : nat) (e : Event) : nat := (4 * calls_left e - place)%nat.

Definition eh_work_left (eh : EventHandler) : nat :=
  (sum_list_with (steps_of 1) (eh_pushing eh) + sum_list_with (steps_of 2) (eh_events eh) +
   sum_list_with (steps_of 3) (eh_working eh) + sum_list_with (λ x, steps_of 0 x.1) (eh_sleeping eh))%nat.

Definition retries_set (eh : EventHandler) : Prop := ∀ e, e ∈ present eh → MaxRetries e ≠ 0.

Lemma steps_of_places e :
  steps_of 0 e = S (steps_of 1 e) ∧ steps_of 1 e = S (steps_of 2 e) ∧ steps_of 2 e = S (steps_of 3 e) ∧ (1 ≤ steps_of 3 e)%nat.
Proof. pose proof (calls_left_one e). unfold steps_of. lia. Qed.

Lemma steps_of_next e : attempts e < MaxRetries e → steps_of 3 e = S (steps_of 0 (set_event_attempts e (attempts e + 1))).
Proof. intros H%calls_left_next. unfold steps_of. lia. Qed.

Lemma work_decreases eh ev eh' : work_step eh ev eh' → retries_set eh → (S (eh_work_left eh') ≤ eh_work_left eh)%nat.
Proof.
  intros Hs Hnz. unfold eh_work_left. destruct Hs as [l1 e l2 Hl Hlt|e l Hl Hlt|l1 e l2 failed Hl|l1 e d l2 Hl]; cbn; rewrite Hl, ?sum_list_with_app; cbn.
  - pose proof (steps_of_places e). lia.
  - pose proof (steps_of_places e). lia.
  - unfold afterHandler. destruct (failed && _) eqn:Hf; cbn.
    + apply andb_true_iff in Hf as [_ Hlt%Z.ltb_lt]. pose proof (steps_of_next e Hlt). lia.
    + pose proof (steps_of_places e). lia.
  - rewrite withRetries_id. 2: { apply Hnz. unfold present. rewrite Hl, map_app. cbn. set_solver. }
    pose proof (steps_of_places e). lia.
Qed.

Lemma work_retries_set eh ev eh' : work_step eh ev eh' → retries_set eh → retries_set eh'.
Proof.
  intros Hs Hnz e He. destruct (work_changes _ _ _ Hs Hnz) as [Hm|e' _ Hn Hm|e' Hm|e' Hm|e' Hm _ Hp|e' Hm];
    destruct (moves_elem _ _ _ _ _ Hm He) as [Hin|Hin]; try (by apply Hnz); try (by apply elem_of_nil in Hin);
    apply list_elem_of_singleton in Hin as ->; [done|]. by apply (Hnz e').
Qed.

(** While there is an event, a worker or a retry can go on. *)
Lemma work_goes_on eh :
  (0 < eh_queueSize eh)%nat → (0 < eh_workers eh)%nat → present eh ≠ [] → ∃ ev eh', work_step eh ev eh'.
Proof.
  intros Hq Hw Hp. destruct (eh_working eh) as [|e l] eqn:H1.
  2: { eexists _, _. by apply (eh_handled eh [] e l false). }
  destruct (eh_sleeping eh) as [|[e d] l] eqn:H2.
  2: { eexists _, _. by apply (eh_after eh [] e d l). }
  destruct (eh_events eh) as [|e l] eqn:H3.
  2: { eexists _, _. apply (eh_receive eh e l); [done|]. rewrite H1. cbn. lia. }
  destruct (eh_pushing eh) as [|e l] eqn:H4.
  2: { eexists _, _. apply (eh_send eh [] e l); [done|]. rewrite H3. cbn. lia. }
  destruct Hp. unfold present. by rewrite H1, H2, H3, H4.
Qed.

Lemma work_config eh ev eh' : work_step eh ev eh' → eh_queueSize eh' = eh_queueSize eh ∧ eh_workers eh' = eh_workers eh.
Proof. by destruct 1. Qed.

(** C20: events settle: after the last call of [Push], while the context is not done, the
    goroutines of a handler take at most [eh_work_left] steps, four for every call of the
    handler that is left, and when none can go on no event is there any more: each has been
    delivered or given up on. *)
Theorem events_settle eh k evs eh' :
  retries_set eh → (0 < eh_queueSize eh)%nat → (0 < eh_workers eh)%nat → eh_run work_step eh k evs eh' →
  (k + eh_work_left eh' ≤ eh_work_left eh)%nat ∧
  ((∀ ev eh2, ¬ work_step eh' ev eh2) → present eh' = [] ∧ ∀ o, count_of o (present eh) = count_of o (settled_in evs)).
Proof.
  intros Hnz Hq Hw Hrun.
  assert (retries_set eh' ∧ (k + eh_work_left eh' ≤ eh_work_left eh)%nat ∧ eh_queueSize eh' = eh_queueSize eh ∧ eh_workers eh' = eh_workers eh ∧
    ∀ o, count_of o (present eh) = (count_of o (settled_in evs) + count_of o (present eh'))%nat) as (Hnz' & Hk & Hq' & Hw' & Hc).
  { induction Hrun as [|k evs eh1 ev eh2 _ (N & K & Q & W & C) Hs]; [by split_and!|].
    pose proof (work_decreases _ _ _ Hs N). destruct (work_config _ _ _ Hs). split_and!; [by eapply work_retries_set|lia|congruence..|].
    intros o. rewrite settled_in_app, count_of_app, (C o).
    destruct (work_changes _ _ _ Hs N) as [Hm|e _ _ Hm|e Hm|e Hm|e Hm|e Hm]; [..|by inversion Hs|by inversion Hs| | |];
      specialize (Hm (λ e, if bool_decide (origin e = o) then 1%nat else 0%nat)); unfold count_of in *; cbn in *;
      try change (origin (set_event_attempts e (attempts e + 1))) with (origin e) in Hm; try lia. }
  split; [done|]. intros Hstuck. assert (present eh' = []) as Hp.
  { destruct (decide (present eh' = [])) as [|Hne]; [done|].
    destruct (work_goes_on eh') as (ev & eh2 & H2); [lia|lia|done|]. by destruct (Hstuck ev eh2). }
  split; [done|]. intros o. rewrite (Hc o), Hp. cbn. lia.
Qed.

End events.

Arguments Event : clear implicits.
Arguments EventHandler : clear implicits.

(** ** The handler of the node *)

Definition eventHandlerWorkers : nat := 2.
Definition eventHandlerQueueSize : nat := 200.
Definition eventHandlerBaseDelay : Z := 5000000000.
Definition eventHandlerMaxDelay : Z := 15000000000.

Definition node_events {P} : EventHandler P :=
  NewEventHandler eventHandlerWorkers eventHandlerQueueSize eventHandlerBaseDelay eventHandlerMaxDelay.

Inductive deliver_error :=
| ErrHostDID | ErrHostKey | ErrHostPeer | ErrActorDID | ErrActorKey | ErrDestination
| ErrMarshalEvent | ErrInvokeContract | ErrContractReply | ErrContractSaid (text : string).

Section node.
  Context `{Keys : KeyLib} (peerID : PubKey → option string) {P : Type}.

(** The actor of the contract, at the host of the contract. *)
Definition contractDestination (event : Event P) : outcome deliver_error Handle :=
  match FromString (ContractHostDID event) with
  | Ok hostDID =>
      match PublicKeyFromDID hostDID with
      | None => Err ErrHostKey
      | Some pubKey =>
          match peerID pubKey with
          | None => Err ErrHostPeer
          | Some pid =>
              match FromString (ContractDID event) with
              | Ok contractActorDID =>
                  match PublicKeyFromDID contractActorDID with
                  | None => Err ErrActorKey
                  | Some key =>
                      match HandleFromPublicKeyWithInboxAddress key (ContractDID event) pid with
                      | inr _ => Err ErrDestination
                      | inl destination => Ok destination
                      end
                  end
              | _ => Err ErrActorDID
              end
          end
      end
  | _ => Err ErrHostDID
  end.

(** [marshal] is json on payloads; [invoke] is the answer of the contract's actor within a
    minute: none, one that cannot be decoded, or the text of its error. *)
Definition node_handleContractEvents (marshal : P → option string) (invoke : Handle → string → option (option string))
    (event : Event P) : outcome deliver_error () :=
  match contractDestination event with
  | Err e => Err e
  | Panic => Panic
  | Ok destination =>
      match marshal (Payload event) with
      | None => Err ErrMarshalEvent
      | Some bts =>
          match invoke destination bts with
          | None => Err ErrInvokeContract
          | Some None => Err ErrContractReply
          | Some (Some text) => if bool_decide (text = "") then Ok tt else Err (ErrContractSaid text)
          end
      end
  end.

End node.

(** The delays double from five seconds and stop at fifteen. *)
Theorem node_backoff {P} attempt :
  1 ≤ attempt ≤ defaultMaxRetries →
  backoff (node_events (P := P)) attempt = Z.min (eventHandlerBaseDelay * 2 ^ (attempt - 1)) eventHandlerMaxDelay.
Proof.
  unfold defaultMaxRetries. intros H.
  assert (Forall (λ n, backoff (node_events (P := P)) n = Z.min (eventHandlerBaseDelay * 2 ^ (n - 1)) eventHandlerMaxDelay)
    [1; 2; 3; 4; 5; 6; 7; 8; 9; 10]) as Hall by (repeat (constructor; [vm_compute; reflexivity|]); constructor).
  rewrite list.Forall_forall in Hall. apply Hall. rewrite !elem_of_cons. lia.
Qed.

(** A reply that is lost makes the event be sent again, and the host of the contract records
    every event it is sent. *)
Theorem sent_twice_recorded_twice `{EventCodec} contract t1 t2 from payload s s1 s2 :
  handleContractEvents contract true t1 from payload s = (Ok tt, s1) →
  handleContractEvents contract true t2 from payload s1 = (Ok tt, s2) →
  ∃ u1 u2, us_docs s2 = u2 :: u1 :: us_docs s ∧ u_Data u1 = payload ∧ u_Data u2 = payload ∧ u_EventType u1 = u_EventType u2.
Proof.
  unfold handleContractEvents, AddUsageEvent. cbn [u_ContractDID negb]. case_bool_decide; [done|].
  intros [= <-] [= <-]. cbn. eexists _, _. split_and!; reflexivity.
Qed.

(** ** A run *)

Definition started : Event string := mkEvent "host" "contract" "deployment started" 0 0.

(** The event fails once and is then delivered. *)
Definition tried (n : Z) : Event string := set_event_attempts (withRetries started) n.

Lemma run_snoc_nil {P} (step : EventHandler P → list eh_event → EventHandler P → Prop) eh k evs eh1 eh2 :
  eh_run step eh k evs eh1 → step eh1 [] eh2 → eh_run step eh (S k) evs eh2.
Proof. intros Hr Hs. rewrite <- (app_nil_r evs). by eapply eh_run_snoc. Qed.

Definition pushed_once : EventHandler string := Push node_events started.

Lemma run_delivered : eh_run work_step pushed_once 7 [Handled (tried 0) true; Handled (tried 1) false] node_events.
Proof.
  change [Handled (tried 0) true; Handled (tried 1) false] with (([] ++ [Handled (tried 0) true]) ++ [Handled (tried 1) false]).
  eapply eh_run_snoc.
  2: { apply (eh_handled (set_places node_events [] [] [tried 1] []) [] (tried 1) [] false). reflexivity. }
  eapply run_snoc_nil.
  2: { apply (eh_receive (set_places node_events [] [tried 1] [] []) (tried 1) []); [reflexivity|cbn; unfold eventHandlerWorkers; lia]. }
  eapply run_snoc_nil.
  2: { apply (eh_send (set_places node_events [tried 1] [] [] []) [] (tried 1) []); [reflexivity|cbn; unfold eventHandlerQueueSize; lia]. }
  eapply run_snoc_nil.
  2: { apply (eh_after (set_places node_events [] [] [] [(tried 1, eventHandlerBaseDelay)]) [] (tried 1) eventHandlerBaseDelay []). reflexivity. }
  eapply eh_run_snoc.
  2: { apply (eh_handled (set_places node_events [] [] [tried 0] []) [] (tried 0) [] true). reflexivity. }
  eapply run_snoc_nil.
  2: { apply (eh_receive (set_places node_events [] [tried 0] [] []) (tried 0) []); [reflexivity|cbn; unfold eventHandlerWorkers; lia]. }
  eapply run_snoc_nil; [apply eh_run_nil|].
  apply (eh_send pushed_once [] (tried 0) []); [reflexivity|cbn; unfold eventHandlerQueueSize; lia].
Qed.

Lemma events_settle_witness :
  (7 + eh_work_left (node_events (P := string)) ≤ eh_work_left pushed_once)%nat ∧
  ((∀ ev eh2, ¬ work_step (node_events (P := string)) ev eh2) →
     present (node_events (P := string)) = [] ∧ ∀ o, count_of o (present pushed_once) = count_of o [tried 1]).
Proof.
  apply (events_settle pushed_once 7 [Handled (tried 0) true; Handled (tried 1) false] node_events).
  - intros e. vm_compute. intros He. inversion He as [|? ? ? He']; subst; [done|]. inversion He'.
  - change (0 < 200)%nat. lia.
  - change (0 < 2)%nat. lia.
  - exact run_delivered.
Defined.

Lemma work_runs {P} (eh : EventHandler P) k evs eh' : eh_run work_step eh k evs eh' → eh_run eh_step eh k evs eh'.
Proof. induction 1 as [|k evs eh1 ev eh2 _ IH Hs]; [apply eh_run_nil|]. eapply eh_run_snoc; [done|]. by apply eh_work. Qed.

Lemma run_trans {P} step (eh : EventHandler P) j evs1 eh1 k evs2 eh2 :
  eh_run step eh j evs1 eh1 → eh_run step eh1 k evs2 eh2 → eh_run step eh (k + j) (evs1 ++ evs2) eh2.
Proof.
  intros H1 H2. induction H2 as [|k evs2 eh2 ev eh3 _ IH Hs]; [by rewrite app_nil_r|].
  rewrite (assoc_L (++)). by eapply eh_run_snoc.
Qed.

Lemma events_accounted_witness :
  let evs := [Pushed (tried 0); Handled (tried 0) true; Handled (tried 1) false] in
  count_of (tried 0) (pushed_in evs) = (count_of (tried 0) (settled_in evs) + count_of (tried 0) (present (node_events (P := string))))%nat ∧
  (count_of (tried 0) (handled_in evs) ≤ count_of (tried 0) (pushed_in evs) * S (Z.to_nat (MaxRetries (tried 0) - attempts (tried 0))))%nat ∧
  (∀ e, GaveUp e ∈ evs → attempts e = Z.max 0 (MaxRetries e)).
Proof.
  apply (events_accounted node_events 8 [Pushed (tried 0); Handled (tried 0) true; Handled (tried 1) false] node_events (tried 0)); [reflexivity|].
  apply (run_trans eh_step node_events 1 [Pushed (tried 0)] pushed_once 7); [|apply work_runs, run_delivered].
  change [Pushed (tried 0)] with ([] ++ [Pushed (tried 0)]). eapply eh_run_snoc; [apply eh_run_nil|]. by apply (eh_push node_events started).
Defined.
