(* ===== verification/VirtualSubnet.v ===== *)
(** * The virtual network of a node (network/libp2p/subnet.go, subnet_linux.go, rtable.go, dns.go,
    utils/sys/net_linux.go)

    A node is a member of the subnets of the deployments it serves: for each it keeps a
    routing table, the tun devices of its own addresses, names, connections to other members
    and the ports it maps.  Addresses are IPv4 in dotted form; other forms are
    refused.  Rules of the firewall are the argument lists
    given to iptables, which appends a rule, deletes one, or says whether it is there; whether
    a command succeeds, devices, random numbers and the decoding of peer identifiers are
    arguments.  The tunnels themselves are not modelled. *)

From S2P Require Import Prelude GoStrings GoNumbers GoTime GoText ResourceManager ResourceProps IPNet.

Local Open Scope Z_scope.

(** ** Routing tables *)

Record rtable := mkRtable {
  rt_idx : gmap string (list string);      (* peer, addresses *)
  rt_revIdx : gmap string string           (* address, peer *)
}.

Definition NewRoutingTable : rtable := mkRtable ∅ ∅.

Definition rt_Add (rt : rtable) (peerID addr : string) : rtable :=
  let l := default [] (rt_idx rt !! peerID) in
  if bool_decide (addr ∈ l) then mkRtable (<[peerID := l]> (rt_idx rt)) (rt_revIdx rt)
  else mkRtable (<[peerID := l ++ [addr]]> (rt_idx rt)) (<[addr := peerID]> (rt_revIdx rt)).

Definition rt_Remove (rt : rtable) (peerID ip : string) : rtable :=
  match rt_idx rt !! peerID with
  | None => rt
  | Some addrs =>
      let l := List.filter (λ addr, negb (bool_decide (addr = ip))) addrs in
      mkRtable (match l with [] => delete peerID (rt_idx rt) | _ => <[peerID := l]> (rt_idx rt) end) (delete ip (rt_revIdx rt))
  end.

Definition rt_Get (rt : rtable) (peerID : string) : option (list string) := rt_idx rt !! peerID.

Definition rt_RemoveByIP (rt : rtable) (addr : string) : rtable :=
  match rt_revIdx rt !! addr with
  | None => rt
  | Some peerID => mkRtable (delete peerID (rt_idx rt)) (delete addr (rt_revIdx rt))
  end.

Definition rt_GetByIP (rt : rtable) (addr : string) : option string := rt_revIdx rt !! addr.
Definition rt_All (rt : rtable) : gmap string (list string) := rt_idx rt.
Definition rt_Clear (rt : rtable) : rtable := NewRoutingTable.

(** The addresses of a peer are compared in their order. *)
Definition rt_Equal (rt other : rtable) : bool :=
  if negb (size (rt_idx rt) =? size (rt_All other))%nat then false
  else forallb (λ x, match rt_Get other x.1 with Some l => bool_decide (x.2 = l) | None => false end) (map_to_list (rt_idx rt)).

(** ** Rules of the firewall *)

Definition NuNetIptablesChain : string := "NUNET".
Notation rule := (list string).

Record firewall := mkFirewall {
  fw_chains : gset (string * string);      (* table, chain *)
  fw_rules : gset rule;
  fw_runs : rule → bool                    (* whether a command that changes it succeeds *)
}.

Definition set_rules (f : firewall) (r : gset rule) : firewall := mkFirewall (fw_chains f) r (fw_runs f).
Definition set_chains (f : firewall) (c : gset (string * string)) : firewall := mkFirewall c (fw_rules f) (fw_runs f).

Definition chainExist (f : firewall) (table chain : string) : bool := bool_decide ((table, chain) ∈ fw_chains f).

(** One table of [CreateNuNetChain]. *)
Definition createChain (f : firewall) (table : string) : bool * firewall :=
  if chainExist f table NuNetIptablesChain then (true, f)
  else if fw_runs f ["-t"; table; "-N"; NuNetIptablesChain]
  then (true, set_chains f ({[(table, NuNetIptablesChain)]} ∪ fw_chains f)) else (false, f).

(** One command after the other, until one fails. *)
Definition fw_then (r : bool * firewall) (g : firewall → bool * firewall) : bool * firewall := if r.1 then g r.2 else r.

Definition CreateNuNetChain (f : firewall) : bool * firewall := fw_then (createChain f "filter") (λ f, createChain f "nat").

(** A rule names its chain first and its table third. *)
Definition in_chain (table chain : string) (r : rule) : Prop := r !! 0%nat = Some chain ∧ r !! 2%nat = Some table.
#[export] Instance in_chain_dec table chain r : Decision (in_chain table chain r).
Proof. unfold in_chain. apply _. Defined.

Definition flushChain (f : firewall) (table chain : string) : bool * firewall :=
  if chainExist f table chain then
    if fw_runs f ["-t"; table; "-F"; chain] then (true, set_rules f (filter (λ r, ¬ in_chain table chain r) (fw_rules f))) else (false, f)
  else (true, f).

Definition FlushNuNetChain (f : firewall) : bool * firewall :=
  fw_then (flushChain f "filter" NuNetIptablesChain) (λ f, flushChain f "nat" NuNetIptablesChain).

Definition iptRuleExist (f : firewall) (r : rule) : bool := bool_decide (r ∈ fw_rules f).

(** Appending a rule unless it is there; deleting it if it is. *)
Definition addRule (f : firewall) (r : rule) : bool * firewall :=
  if iptRuleExist f r then (true, f)
  else if fw_runs f ("-A" :: r) then (true, set_rules f ({[r]} ∪ fw_rules f)) else (false, f).
Definition delRule (f : firewall) (r : rule) : bool * firewall :=
  if iptRuleExist f r then if fw_runs f ("-D" :: r) then (true, set_rules f (fw_rules f ∖ {[r]})) else (false, f)
  else (true, f).

Definition dnatRule (protocol sourcePort destIP destPort : string) : rule :=
  [NuNetIptablesChain; "-t"; "nat"; "-p"; protocol; "--dport"; sourcePort; "-j"; "DNAT"; "--to-destination"; destIP +:+ (":" +:+ destPort)].
Definition forwardRule (protocol destIP destPort : string) : rule :=
  [NuNetIptablesChain; "-t"; "filter"; "-p"; protocol; "-d"; destIP; "--dport"; destPort; "-j"; "ACCEPT"].
Definition forwardCNIRule (protocol sourceIP destIP destPort iiface oiface : string) : rule :=
  [NuNetIptablesChain; "-t"; "filter"; "-s"; sourceIP; "-i"; iiface; "-o"; oiface; "-p"; protocol; "-d"; destIP; "--dport"; destPort; "-j"; "ACCEPT"].
Definition outputNatRule (protocol destIP destPort ifaceName : string) : rule :=
  [NuNetIptablesChain; "-t"; "nat"; "-p"; protocol; "--dport"; destPort; "-o"; ifaceName; "-j"; "DNAT"; "--to-destination"; destIP +:+ (":" +:+ destPort)].
Definition masqueradeRule : rule := ["POSTROUTING"; "-t"; "nat"; "-j"; "MASQUERADE"].

Definition jumpRule (chain table : string) : rule := [chain; "-t"; table; "-j"; NuNetIptablesChain].
Definition forwardIntRule (inInt outInt : string) : rule := [NuNetIptablesChain; "-t"; "filter"; "-i"; inInt; "-o"; outInt; "-j"; "ACCEPT"].
Definition relEstRule (chain : string) : rule :=
  [chain; "-t"; "filter"; "-m"; "conntrack"; "--ctstate"; "RELATED,ESTABLISHED"; "-j"; "ACCEPT"].

Definition AddJumpRules (f : firewall) : bool * firewall :=
  fw_then (addRule f (jumpRule "FORWARD" "filter")) (λ f,
  fw_then (addRule f (jumpRule "OUTPUT" "nat")) (λ f, addRule f (jumpRule "PREROUTING" "nat"))).
Definition DelJumpRules (f : firewall) : bool * firewall :=
  fw_then (delRule f (jumpRule "FORWARD" "filter")) (λ f,
  fw_then (delRule f (jumpRule "OUTPUT" "nat")) (λ f, delRule f (jumpRule "PREROUTING" "nat"))).
Definition AddForwardIntRule f inInt outInt := addRule f (forwardIntRule inInt outInt).
Definition DelForwardIntRule f inInt outInt := delRule f (forwardIntRule inInt outInt).
Definition AddRelEstRule f chain := addRule f (relEstRule chain).
Definition DelRelEstRule f chain := delRule f (relEstRule chain).
Definition AddMasqueradeRule f := addRule f masqueradeRule.
Definition AddDNATRule f protocol sourcePort destIP destPort := addRule f (dnatRule protocol sourcePort destIP destPort).
Definition DelDNATRule f protocol sourcePort destIP destPort := delRule f (dnatRule protocol sourcePort destIP destPort).
Definition AddForwardRule f protocol destIP destPort := addRule f (forwardRule protocol destIP destPort).
Definition DelForwardRule f protocol destIP destPort := delRule f (forwardRule protocol destIP destPort).
Definition AddForwardCNIRule f protocol src dst port iiface oiface := addRule f (forwardCNIRule protocol src dst port iiface oiface).
Definition DelForwardCNIRule f protocol src dst port iiface oiface := delRule f (forwardCNIRule protocol src dst port iiface oiface).
Definition AddOutputNatRule f protocol destIP destPort ifaceName := addRule f (outputNatRule protocol destIP destPort ifaceName).
Definition DelOutputNatRule f protocol destIP destPort ifaceName := delRule f (outputNatRule protocol destIP destPort ifaceName).
Definition DelMasqueradeRule f := delRule f masqueradeRule.

Definition IPToCIDR (ipStr : string) (prefixLen : Z) : option string :=
  match ParseIP ipStr with
  | None => None
  | Some ip => Some (IP_String (IP_Mask ip prefixLen) +:+ ("/" +:+ Itoa prefixLen))
  end.

(** ** Subnets *)

Record portMapEntry := mkPortMapEntry {
  pm_subnetPort : string;
  pm_execPort : string;
  pm_subnetIP : string;
  pm_protocol : string;
  pm_executorType : string;
  pm_cniBridge : string;
  pm_tunIface : string
}.

Record MapPortRequest := mkMapPortRequest {
  mp_SubnetID : string;
  mp_Protocol : string;
  mp_SubnetIP : string;
  mp_SubnetPort : string;
  mp_ExecutionPort : string;
  mp_ExecutorType : string;
  mp_CNIBridge : string
}.

Record subnet := mkVirtualSubnet {
  vs_id : string;
  vs_rtable : rtable;
  vs_cidr : IPNet;
  vs_ifaces : gmap string string;          (* address, name of the tun device *)
  vs_dnsRecords : gmap string string;
  vs_conns : gmap string nat;              (* address, connection *)
  vs_portMapping : gmap string portMapEntry
}.

Record vnet := mkVnet {
  vn_subnets : gmap string subnet;
  vn_proxy : bool;                         (* the proxy for IP packets is registered *)
  vn_firewall : firewall
}.

Definition set_rtable (s : subnet) (r : rtable) : subnet :=
  mkVirtualSubnet (vs_id s) r (vs_cidr s) (vs_ifaces s) (vs_dnsRecords s) (vs_conns s) (vs_portMapping s).
Definition set_ifaces (s : subnet) (m : gmap string string) : subnet :=
  mkVirtualSubnet (vs_id s) (vs_rtable s) (vs_cidr s) m (vs_dnsRecords s) (vs_conns s) (vs_portMapping s).
Definition set_dns (s : subnet) (m : gmap string string) : subnet :=
  mkVirtualSubnet (vs_id s) (vs_rtable s) (vs_cidr s) (vs_ifaces s) m (vs_conns s) (vs_portMapping s).
Definition set_conns (s : subnet) (m : gmap string nat) : subnet :=
  mkVirtualSubnet (vs_id s) (vs_rtable s) (vs_cidr s) (vs_ifaces s) (vs_dnsRecords s) m (vs_portMapping s).
Definition set_portMapping (s : subnet) (m : gmap string portMapEntry) : subnet :=
  mkVirtualSubnet (vs_id s) (vs_rtable s) (vs_cidr s) (vs_ifaces s) (vs_dnsRecords s) (vs_conns s) m.

Definition put_subnet (n : vnet) (s : subnet) : vnet := mkVnet (<[vs_id s := s]> (vn_subnets n)) (vn_proxy n) (vn_firewall n).
Definition set_firewall (n : vnet) (f : firewall) : vnet := mkVnet (vn_subnets n) (vn_proxy n) f.

Inductive vnet_error :=
| ErrNoSubnet | ErrOtherCIDR | ErrOtherRoutes | ErrPeerID | ErrBadCIDR | ErrBadIP | ErrProxy | ErrNotMember
| ErrInterfaces | ErrNoName | ErrTun | ErrAlreadyMapped | ErrNotMapped | ErrMappedElsewhere | ErrNoTun | ErrRule.

(** ** Names of devices *)

Fixpoint uniqueNameLoop (fuel : nat) (draw : nat → Z → Z) (takenList : list string) (retries : nat) (i : Z) : option string :=
  match fuel with
  | O => None
  | S fuel =>
      let candidate := "dms" +:+ Itoa (draw retries i) in
      if negb (bool_decide (candidate ∈ takenList)) then Some candidate
      else
        let retries := S retries in
        let i := if (30 <? retries)%nat then i + 30 else i in
        if (100 <? retries)%nat then None else uniqueNameLoop fuel draw takenList retries i
  end.

(** [draw k i] is the [k]-th random number below [i]; the loop ends by itself after a hundred
    and one of them. *)
Definition generateUniqueName (draw : nat → Z → Z) (takenList : list string) : option string :=
  uniqueNameLoop 102 draw takenList 0 30.

Definition newSubnet (id : string) : subnet := mkVirtualSubnet id NewRoutingTable (mkIPNet (mkIP 0 0 0 0) 0) ∅ ∅ ∅ ∅.

(** What [AddSubnetPeer] asks of the system. *)
Record tun_answers := mkTunAnswers {
  ta_interfaces : option (list string);
  ta_draw : nat → Z → Z;
  ta_create : bool;
  ta_address : bool;
  ta_mtu : bool;
  ta_up : bool
}.

Section network.
  Context `{Visit : MapVisit} (decode : string → option string).    (* peer.Decode *)

Definition visited (m : gmap string string) : list (string * string) := visit (map_to_list m).

(** The loop over a map of addresses and peers. *)
Fixpoint addRoutes (rt : rtable) (l : list (string * string)) : outcome vnet_error rtable :=
  match l with
  | [] => Ok rt
  | (ip, peerID) :: l =>
      match decode peerID with
      | None => Err ErrPeerID
      | Some p => addRoutes (rt_Add rt p ip) l
      end
  end.

Definition RoutingTableFromMap (m : gmap string string) : outcome vnet_error rtable := addRoutes NewRoutingTable (visited m).

Definition CreateSubnet (n : vnet) (subnetID cidr : string) (routingTable : gmap string string) (proxy_ok : bool)
    : outcome vnet_error () * vnet :=
  match vn_subnets n !! subnetID with
  | Some s =>
      if negb (bool_decide (IPNet_String (vs_cidr s) = cidr)) then (Err ErrOtherCIDR, n)
      else match RoutingTableFromMap routingTable with
      | Err e => (Err e, n)
      | Panic => (Panic, n)
      | Ok rt => if rt_Equal (vs_rtable s) rt then (Ok (), n) else (Err ErrOtherRoutes, n)
      end
  | None =>
      match ParseCIDR cidr with
      | None => (Err ErrBadCIDR, n)
      | Some CIDR =>
          match addRoutes NewRoutingTable (visited routingTable) with
          | Err e => (Err e, n)
          | Panic => (Panic, n)
          | Ok rt =>
              let s := mkVirtualSubnet subnetID rt CIDR ∅ ∅ ∅ ∅ in
              if negb (vn_proxy n) && negb proxy_ok then (Err ErrProxy, mkVnet (vn_subnets n) true (vn_firewall n))
              else (Ok (), put_subnet (mkVnet (vn_subnets n) true (vn_firewall n)) s)
          end
      end
  end.

Definition AddSubnetPeer (n : vnet) (subnetID peerID ip : string) (a : tun_answers) : outcome vnet_error () * vnet :=
  match vn_subnets n !! subnetID with
  | None => (Err ErrNoSubnet, n)
  | Some s =>
      match ParseIP ip with
      | None => (Err ErrBadIP, n)
      | Some ipAddr =>
          match decode peerID with
          | None => (Err ErrPeerID, n)
          | Some p =>
              let s := set_rtable s (rt_Add (vs_rtable s) p ip) in
              let n := put_subnet n s in
              match ta_interfaces a with
              | None => (Err ErrInterfaces, n)
              | Some takenNames =>
                  match generateUniqueName (ta_draw a) takenNames with
                  | None => (Err ErrNoName, n)
                  | Some name =>
                      if negb (ta_create a && ta_address a && ta_mtu a && ta_up a) then (Err ErrTun, n)
                      else (Ok (), put_subnet n (set_ifaces s (<[IP_String ipAddr := name]> (vs_ifaces s))))
                  end
              end
          end
      end
  end.

Definition removeSubnetPeer (n : vnet) (subnetID peerID ip : string) : outcome vnet_error () * vnet :=
  match vn_subnets n !! subnetID with
  | None => (Err ErrNoSubnet, n)
  | Some s =>
      match decode peerID with
      | None => (Err ErrPeerID, n)
      | Some p =>
          match rt_Get (vs_rtable s) p with
          | None => (Err ErrNotMember, n)
          | Some ips =>
              if negb (bool_decide (ip ∈ ips)) then (Ok (), n)
              else
                let s := set_ifaces s (delete ip (vs_ifaces s)) in
                (Ok (), put_subnet n (set_rtable s (rt_Remove (vs_rtable s) p ip)))
          end
      end
  end.

Definition acceptSubnetPeer (n : vnet) (subnetID peerID ip : string) : outcome vnet_error () * vnet :=
  match vn_subnets n !! subnetID with
  | None => (Err ErrNoSubnet, n)
  | Some s =>
      match ParseIP ip with
      | None => (Err ErrBadIP, n)
      | Some _ =>
          match decode peerID with
          | None => (Err ErrPeerID, n)
          | Some p => (Ok (), put_subnet n (set_rtable s (rt_Add (vs_rtable s) p ip)))
          end
      end
  end.

(** The loops stop at the first failure. *)
Fixpoint eachPeer (f : vnet → string → string → outcome vnet_error () * vnet) (n : vnet) (l : list (string * string))
    : outcome vnet_error () * vnet :=
  match l with
  | [] => (Ok (), n)
  | (ip, peerID) :: l =>
      match f n peerID ip with
      | (Ok _, n) => eachPeer f n l
      | r => r
      end
  end.

Definition RemoveSubnetPeers (n : vnet) (subnetID : string) (table : gmap string string) : outcome vnet_error () * vnet :=
  eachPeer (λ n, removeSubnetPeer n subnetID) n (visited table).
Definition AcceptSubnetPeers (n : vnet) (subnetID : string) (table : gmap string string) : outcome vnet_error () * vnet :=
  eachPeer (λ n, acceptSubnetPeer n subnetID) n (visited table).

Definition AddSubnetDNSRecords (n : vnet) (subnetID : string) (records : gmap string string) : outcome vnet_error () * vnet :=
  match vn_subnets n !! subnetID with
  | None => (Err ErrNoSubnet, n)
  | Some s => (Ok (), put_subnet n (set_dns s (records ∪ vs_dnsRecords s)))
  end.

Definition RemoveSubnetDNSRecord (n : vnet) (subnetID name : string) : outcome vnet_error () * vnet :=
  match vn_subnets n !! subnetID with
  | None => (Err ErrNoSubnet, n)
  | Some s => (Ok (), put_subnet n (set_dns s (delete name (vs_dnsRecords s))))
  end.

(** ** Ports *)

Definition containerd : string := "containerd".

Definition tunNameForIP (s : subnet) (ip : string) : outcome vnet_error string :=
  match vs_ifaces s !! ip with Some name => Ok name | None => Err ErrNoTun end.

(** The rule that lets packets in, by the kind of executor. *)
Definition mapForward (f : firewall) (s : subnet) (req : MapPortRequest) (protocol : string)
    : outcome vnet_error (string * string) * firewall :=
  if bool_decide (mp_ExecutorType req = containerd) then
    match tunNameForIP s (mp_SubnetIP req) with
    | Ok tunName =>
        let bridge := if bool_decide (mp_CNIBridge req = "") then "cni-nunet0" else mp_CNIBridge req in
        match IPToCIDR (mp_SubnetIP req) 24 with
        | None => (Err ErrBadIP, f)
        | Some sip =>
            match AddForwardCNIRule f protocol sip "10.68.63.0/24" (mp_ExecutionPort req) tunName bridge with
            | (true, f) => (Ok (bridge, tunName), f)
            | (false, f) => (Err ErrRule, f)
            end
        end
    | Err e => (Err e, f)
    | Panic => (Panic, f)
    end
  else match AddForwardRule f protocol (mp_SubnetIP req) (mp_SubnetPort req) with
  | (true, f) => (Ok (mp_CNIBridge req, ""), f)
  | (false, f) => (Err ErrRule, f)
  end.

(** [lo] is the name of the loopback device, if there is one. *)
Definition MapPort (n : vnet) (req : MapPortRequest) (lo : option string) : outcome vnet_error () * vnet :=
  match vn_subnets n !! mp_SubnetID req with
  | None => (Err ErrNoSubnet, n)
  | Some s =>
      let protocol := string_lower (mp_Protocol req) in
      if bool_decide (is_Some (vs_portMapping s !! mp_SubnetPort req)) then (Err ErrAlreadyMapped, n)
      else match mapForward (vn_firewall n) s req protocol with
      | (Err e, f) => (Err e, set_firewall n f)
      | (Panic, f) => (Panic, set_firewall n f)
      | (Ok (bridge, tunName), f) =>
          let '(ok, f) := match lo with
            | Some name => AddOutputNatRule f protocol (mp_SubnetIP req) (mp_SubnetPort req) name
            | None => (true, f)
            end in
          if negb ok then (Err ErrRule, set_firewall n f)
          else
            let entry := mkPortMapEntry (mp_SubnetPort req) (mp_ExecutionPort req) (mp_SubnetIP req) protocol (mp_ExecutorType req) bridge tunName in
            (Ok (), put_subnet (set_firewall n f) (set_portMapping s (<[mp_SubnetPort req := entry]> (vs_portMapping s))))
      end
  end.

Definition unmapForward (f : firewall) (s : subnet) (req : MapPortRequest) (mapping : portMapEntry) (protocol : string)
    : outcome vnet_error () * firewall :=
  if bool_decide (pm_executorType mapping = containerd) then
    let bridge := if bool_decide (pm_cniBridge mapping = "") then mp_CNIBridge req else pm_cniBridge mapping in
    match (if bool_decide (pm_tunIface mapping = "") then tunNameForIP s (mp_SubnetIP req) else Ok (pm_tunIface mapping)) with
    | Ok tunName =>
        match DelForwardCNIRule f protocol "0.0.0.0" (pm_subnetIP mapping) (pm_execPort mapping) bridge tunName with
        | (true, f) => (Ok (), f)
        | (false, f) => (Err ErrRule, f)
        end
    | Err e => (Err e, f)
    | Panic => (Panic, f)
    end
  else match DelForwardRule f protocol (mp_SubnetIP req) (mp_SubnetPort req) with
  | (true, f) => (Ok (), f)
  | (false, f) => (Err ErrRule, f)
  end.

Definition UnmapPort (n : vnet) (req : MapPortRequest) (lo : option string) : outcome vnet_error () * vnet :=
  match vn_subnets n !! mp_SubnetID req with
  | None => (Err ErrNoSubnet, n)
  | Some s =>
      match vs_portMapping s !! mp_SubnetPort req with
      | None => (Err ErrNotMapped, n)
      | Some mapping =>
          if negb (bool_decide (pm_subnetIP mapping = mp_SubnetIP req)) || negb (bool_decide (pm_subnetPort mapping = mp_SubnetPort req))
          then (Err ErrMappedElsewhere, n)
          else
            let protocol := if bool_decide (pm_protocol mapping = "") then string_lower (mp_Protocol req) else pm_protocol mapping in
            match DelDNATRule (vn_firewall n) protocol (mp_ExecutionPort req) (mp_SubnetIP req) (mp_SubnetPort req) with
            | (false, f) => (Err ErrRule, set_firewall n f)
            | (true, f) =>
                match unmapForward f s req mapping protocol with
                | (Err e, f) => (Err e, set_firewall n f)
                | (Panic, f) => (Panic, set_firewall n f)
                | (Ok _, f) =>
                    let '(ok, f) := match lo with
                      | Some name => DelOutputNatRule f protocol (mp_SubnetIP req) (mp_SubnetPort req) name
                      | None => (true, f)
                      end in
                    if negb ok then (Err ErrRule, set_firewall n f)
                    else match DelMasqueradeRule f with
                    | (false, f) => (Err ErrRule, set_firewall n f)
                    | (true, f) => (Ok (), put_subnet (set_firewall n f) (set_portMapping s (delete (mp_SubnetPort req) (vs_portMapping s))))
                    end
                end
            end
      end
  end.

(** The ports of a subnet that is destroyed are unmapped one after the other; a failure is
    only logged. *)
Definition unmapAll (n : vnet) (subnetID : string) (lo : option string) (l : list portMapEntry) : vnet :=
  fold_left (λ n m, (UnmapPort n (mkMapPortRequest subnetID (pm_protocol m) (pm_subnetIP m) (pm_subnetPort m) (pm_execPort m)
    (pm_executorType m) (pm_cniBridge m)) lo).2) l n.

Definition DestroySubnet (n : vnet) (subnetID : string) (lo : option string) : outcome vnet_error () * vnet :=
  match vn_subnets n !! subnetID with
  | None => (Err ErrNoSubnet, n)
  | Some s =>
      let s := set_rtable (set_dns (set_conns (set_ifaces s ∅) ∅) ∅) (rt_Clear (vs_rtable s)) in
      let n := unmapAll (put_subnet n s) subnetID lo (visit (map snd (map_to_list (vs_portMapping s)))) in
      let proxy := if (size (vn_subnets n) =? 1)%nat then false else vn_proxy n in
      (Ok (), mkVnet (delete subnetID (vn_subnets n)) proxy (vn_firewall n))
  end.

(** ** Packets *)

Inductive routing := RouteNowhere | RouteTun (name : string) | RoutePeer (peer : string).

(** A packet read from a tun device. *)
Definition Route (s : subnet) (srcIP destIP : string) : routing :=
  match rt_GetByIP (vs_rtable s) destIP with
  | None => RouteNowhere
  | Some peerID =>
      match rt_GetByIP (vs_rtable s) srcIP with
      | None => RouteNowhere
      | Some _ => match vs_ifaces s !! destIP with Some name => RouteTun name | None => RoutePeer peerID end
      end
  end.

(** A packet that arrived through the connection of another member. *)
Definition handleIPProxyConn (s : subnet) (destIP : string) : routing :=
  match rt_GetByIP (vs_rtable s) destIP with
  | None => RouteNowhere
  | Some _ => match vs_ifaces s !! destIP with Some name => RouteTun name | None => RouteNowhere end
  end.

Definition IsIPv4 (ip : string) : bool := bool_decide (is_Some (ParseIP ip)).

(** The last address of a network. *)
Definition setBits (hostBits : Z) : Z := Z.max 0 (Z.min 8 hostBits).
Definition LastIP (n : IPNet) : IP :=
  let host := 32 - net_Ones n in
  let last i b := Z.lor b (Z.shiftr 255 (8 - setBits (host - 8 * (3 - i)))) in
  mkIP (last 0 (ip0 (net_IP n))) (last 1 (ip1 (net_IP n))) (last 2 (ip2 (net_IP n))) (last 3 (ip3 (net_IP n))).

(** A request for a connection: the status, and the connection that is closed for it.
    [parsed] and [proxied] are the answers of the connect-ip package. *)
Definition proxyRequest (n : vnet) (subnetID srcIP : string) (parsed : bool) (proxied : option nat) : Z * option nat * vnet :=
  if bool_decide (subnetID = "") then (400, None, n)
  else if bool_decide (srcIP = "") || negb (IsIPv4 srcIP) then (400, None, n)
  else match vn_subnets n !! subnetID with
  | None => (404, None, n)
  | Some s =>
      if negb parsed then (400, None, n)
      else match proxied with
      | None => (500, None, n)
      | Some conn => (200, vs_conns s !! srcIP, put_subnet n (set_conns s (<[srcIP := conn]> (vs_conns s))))
      end
  end.

Definition cleanupConn (s : subnet) (ip : string) (conn : nat) : subnet :=
  if bool_decide (vs_conns s !! ip = Some conn) then set_conns s (delete ip (vs_conns s)) else s.

(** Writing to a connection succeeds, fails because it is closed, or fails otherwise. *)
Inductive written := Written | WrittenClosed | WrittenFailed.
Inductive proxied := Delivered (conn : nat) | NotDelivered.

(** What [proxyPacket] meets: the connections it may dial, the answers of the two writes, and
    the connection another goroutine stores while it dials again. *)
Record proxy_answers := mkProxyAnswers {
  pa_dial : option nat;
  pa_write : written;
  pa_redial : option nat;
  pa_raced : option nat;
  pa_rewrite : written
}.

Definition put_conn (s : subnet) (ip : string) (c : nat) : subnet := set_conns s (<[ip := c]> (vs_conns s)).

(** [cleanupConn] closes the connection it removes. *)
Definition cleanupCloses (s : subnet) (ip : string) (conn : nat) : list nat :=
  if bool_decide (vs_conns s !! ip = Some conn) then [conn] else [].

(** The second attempt, after a write found its connection [conn] closed; with the connections closed. *)
Definition retryPacket (s : subnet) (destIP : string) (conn : nat) (a : proxy_answers) : proxied * list nat * subnet :=
  let s := match pa_raced a with Some c => put_conn s destIP c | None => s end in
  match pa_redial a with
  | None => (NotDelivered, [], s)
  | Some newConn =>
      let '(retryConn, closed, s) :=
        match vs_conns s !! destIP with
        | Some current =>
            if negb (bool_decide (current = conn)) then (current, [newConn], s)
            else (newConn, (if bool_decide (current = newConn) then [] else [current]), put_conn s destIP newConn)
        | None => (newConn, [], put_conn s destIP newConn)
        end in
      match pa_rewrite a with
      | Written => (Delivered retryConn, closed, s)
      | _ => (NotDelivered, closed ++ cleanupCloses s destIP retryConn, cleanupConn s destIP retryConn)
      end
  end.

(** A packet for another member: the connection of the address, dialled if there is none. *)
Definition proxyPacket (s : subnet) (destIP : string) (a : proxy_answers) : proxied * list nat * subnet :=
  match (match vs_conns s !! destIP with
         | Some c => Some (c, s)
         | None => match pa_dial a with Some c => Some (c, put_conn s destIP c) | None => None end
         end) with
  | None => (NotDelivered, [], s)
  | Some (conn, s) =>
      match pa_write a with
      | Written => (Delivered conn, [], s)
      | WrittenFailed => (NotDelivered, cleanupCloses s destIP conn, cleanupConn s destIP conn)
      | WrittenClosed =>
          let '(r, closed, s') := retryPacket (cleanupConn s destIP conn) destIP conn a in
          (r, cleanupCloses s destIP conn ++ closed, s')
      end
  end.

(** What becomes of a packet of [plen] bytes that was read from a tun device: [parsed] is its
    destination port and addresses.  The payload of a query for a name starts at byte 28. *)
Definition IfaceMTU : Z := 1280.
Definition MaxPacketSize : Z := IfaceMTU.
Inductive packet_fate := Dropped | Query | Routed (r : routing).

Definition readPacket (s : subnet) (plen : Z) (parsed : option (Z * string * string)) : outcome vnet_error packet_fate :=
  if (plen =? 0) || (MaxPacketSize <? plen) then Ok Dropped
  else match parsed with
  | None => Ok Dropped
  | Some (destPort, srcIP, destIP) =>
      if destPort =? 53 then if plen <? 28 then Panic else Ok Query
      else Ok (Routed (Route s srcIP destIP))
  end.

(** ** Names *)

(** [strings.TrimSuffix(s, suffix)] for a suffix of one character. *)
Fixpoint trimLast (s : string) (c : Ascii.ascii) : string :=
  match s with
  | EmptyString => EmptyString
  | String c' EmptyString => if Ascii.eqb c' c then EmptyString else s
  | String c' s => String c' (trimLast s c)
  end.

Definition TypeA : Z := 1.
Inductive rcode := RcodeSuccess | RcodeServerFailure.

(** The code and the answers so far; a question of another type clears the answers. *)
Definition resolveQuestion (records : gmap string string) (m : rcode * list (string * string)) (question : string * Z)
    : rcode * list (string * string) :=
  if negb (question.2 =? TypeA) then (RcodeSuccess, [])
  else match records !! trimLast question.1 (Ascii.ascii_of_nat 46) with
  | None => (RcodeServerFailure, m.2)
  | Some ip => (m.1, m.2 ++ [(question.1, ip)])
  end.

Definition resolveDNS (questions : list (string * Z)) (records : gmap string string) : rcode * list (string * string) :=
  fold_left (resolveQuestion records) questions (RcodeSuccess, []).

End network.

(** ** Routing tables as maps of addresses

    Both maps of a table hold the same pairs; a peer that is listed has addresses, none of
    them twice.  A table is then a map from addresses to peers, as long as an address with
    another owner is not added. *)

Record rt_ok (rt : rtable) : Prop := {
  rt_ok_lists p l : rt_idx rt !! p = Some l → l ≠ [] ∧ NoDup l;
  rt_ok_inverse ip p : rt_revIdx rt !! ip = Some p ↔ ip ∈ default [] (rt_idx rt !! p)
}.

(** An address that may be given to a peer. *)
Definition free_for (rt : rtable) (p ip : string) : Prop := ∀ q, rt_GetByIP rt ip = Some q → q = p.

Lemma rt_ok_empty : rt_ok NewRoutingTable.
Proof. split; [done|]. intros ip p. cbn. rewrite !lookup_empty. set_solver. Qed.

Lemma rt_ok_one rt ip p q : rt_ok rt → ip ∈ default [] (rt_idx rt !! p) → ip ∈ default [] (rt_idx rt !! q) → p = q.
Proof. intros [_ H] Hp Hq. apply H in Hp, Hq. congruence. Qed.

Lemma rt_ok_nodup rt p : rt_ok rt → NoDup (default [] (rt_idx rt !! p)).
Proof. intros [H _]. destruct (rt_idx rt !! p) as [l|] eqn:E; [by destruct (H p l E)|constructor]. Qed.

Lemma rt_Add_map rt p ip :
  rt_ok rt → free_for rt p ip → rt_ok (rt_Add rt p ip) ∧ rt_revIdx (rt_Add rt p ip) = <[ip := p]> (rt_revIdx rt).
Proof.
  intros Hok Hfree. unfold rt_Add. destruct (bool_decide_reflect (ip ∈ default [] (rt_idx rt !! p))) as [Hin | Hout].
  - destruct (rt_idx rt !! p) as [l|] eqn:E; [|set_solver]. cbn in *. rewrite insert_id by done.
    split; [by destruct rt|]. rewrite insert_id; [done|]. apply Hok. by rewrite E.
  - assert (Hn : rt_revIdx rt !! ip = None).
    { destruct (rt_revIdx rt !! ip) as [q|] eqn:E; [|done]. destruct Hout. rewrite <-(Hfree q E). by apply Hok. }
    split; [|done]. destruct Hok as [Hl Hr]. split; cbn.
    + intros q l. rewrite lookup_insert_Some. intros [[<- <-] | [_ Hq]]; [|by eapply Hl].
      split; [by destruct (default [] (rt_idx rt !! p))|]. apply NoDup_app. split; [|split; [set_solver|apply NoDup_singleton]].
      apply rt_ok_nodup. by split.
    + intros ip' q. destruct (decide (p = q)) as [<-|Hpq]; [rewrite lookup_insert_eq|rewrite (lookup_insert_ne _ p) by done];
        (destruct (decide (ip = ip')) as [<-|Hip]; [rewrite lookup_insert_eq|rewrite lookup_insert_ne by done]); cbn.
      * set_solver.
      * rewrite elem_of_app, list_elem_of_singleton, Hr. naive_solver.
      * split; [congruence|]. intros Hin%Hr. congruence.
      * apply Hr.
Qed.

Lemma rt_Remove_map rt p ip :
  rt_ok rt → rt_GetByIP rt ip = Some p → rt_ok (rt_Remove rt p ip) ∧ rt_revIdx (rt_Remove rt p ip) = delete ip (rt_revIdx rt).
Proof.
  intros Hok Hip. unfold rt_GetByIP in Hip. pose proof (proj1 (rt_ok_inverse _ Hok ip p) Hip) as Hin. unfold rt_Remove.
  destruct (rt_idx rt !! p) as [l|] eqn:E; [|set_solver]. split; [|done]. cbn in Hin.
  set (l' := List.filter _ l). assert (Hl' : ∀ x, x ∈ l' ↔ x ∈ l ∧ x ≠ ip).
  { intros x. unfold l'. rewrite !list_elem_of_In, filter_In, negb_true_iff, bool_decide_eq_false. done. }
  assert (Hidx : ∀ q, default [] ((match l' with [] => delete p (rt_idx rt) | _ => <[p := l']> (rt_idx rt) end) !! q)
    = if decide (p = q) then l' else default [] (rt_idx rt !! q)).
  { intros q. destruct (decide (p = q)) as [<-|Hpq].
    - destruct l'; [by rewrite lookup_delete_eq|by rewrite lookup_insert_eq].
    - destruct l'; [by rewrite lookup_delete_ne|by rewrite lookup_insert_ne]. }
  split; cbn.
  - intros q k Hq. assert (k ≠ [] ∧ k = default [] (Some k)) as [Hne Hk].
    { split; [|done]. destruct l' eqn:El; [apply lookup_delete_Some in Hq as [_ Hq]; by destruct (rt_ok_lists _ Hok q k Hq)|].
      apply lookup_insert_Some in Hq as [[_ <-]|[_ Hq]]; [done|by destruct (rt_ok_lists _ Hok q k Hq)]. }
    split; [done|]. rewrite Hk, <-Hq, Hidx. case_decide; [|by apply rt_ok_nodup].
    apply NoDup_ListNoDup, List.NoDup_filter, NoDup_ListNoDup. by destruct (rt_ok_lists _ Hok p l E).
  - intros x q. rewrite Hidx. destruct (decide (ip = x)) as [<-|Hx]; [rewrite lookup_delete_eq|rewrite lookup_delete_ne by done].
    + split; [done|]. case_decide as Hpq; [rewrite Hl'; naive_solver|]. intros Hq. destruct Hpq. apply (rt_ok_one rt ip); [done|by rewrite E|done].
    + rewrite (rt_ok_inverse _ Hok). case_decide as Hpq; [|done]. subst q. rewrite E, Hl'. cbn. naive_solver.
Qed.

Section routes.
  Context `{Visit : MapVisit} (decode : string → option string).

Lemma visited_pairs m ip q : (ip, q) ∈ visited m ↔ m !! ip = Some q.
Proof. unfold visited. rewrite visit_perm. apply elem_of_map_to_list. Qed.

Lemma visited_keys m : NoDup (visited m).*1.
Proof. unfold visited. rewrite visit_perm. apply NoDup_fst_map_to_list. Qed.

Lemma addRoutes_map l rt rt' :
  rt_ok rt → NoDup l.*1 → (∀ ip, ip ∈ l.*1 → rt_GetByIP rt ip = None) → addRoutes decode rt l = Ok rt' →
  rt_ok rt' ∧ ∀ ip p, rt_GetByIP rt' ip = Some p ↔ rt_GetByIP rt ip = Some p ∨ ∃ q, (ip, q) ∈ l ∧ decode q = Some p.
Proof.
  revert rt. induction l as [|[ip0 q0] l IH]; cbn; intros rt Hok Hnd Hnew Hr; [split; [congruence|]; set_solver|].
  destruct (decode q0) as [p0|] eqn:Ed; [|done]. apply NoDup_cons in Hnd as [Hout Hnd].
  assert (Hn : rt_GetByIP rt ip0 = None) by (apply Hnew; set_solver).
  destruct (rt_Add_map rt p0 ip0 Hok) as [Hok' Hrev]; [intros q; congruence|].
  unfold rt_GetByIP in *. apply IH in Hr as [Hr Hget]; [|done|done|].
  - split; [done|]. intros ip p. rewrite Hget, Hrev, lookup_insert_Some. split.
    + intros [[[<- <-]|[Hne H]]|(q & Hq & Hd)]; [right; exists q0; split; [left|done]|by left|right; exists q; split; [by right|done]].
    + intros [H|(q & Hq & Hd)]; [left; right; split; congruence|]. apply elem_of_cons in Hq as [[= -> ->]|Hq]; [left; left; split; congruence|eauto].
  - intros ip Hip. rewrite Hrev, lookup_insert_ne; [apply Hnew; by right|]. by intros ->.
Qed.

(** A table made from a map holds exactly the pairs of the map. *)
Lemma table_of_map m rt :
  RoutingTableFromMap decode m = Ok rt →
  rt_ok rt ∧ ∀ ip p, rt_GetByIP rt ip = Some p ↔ ∃ q, m !! ip = Some q ∧ decode q = Some p.
Proof.
  intros Hr. destruct (addRoutes_map (visited m) NewRoutingTable rt rt_ok_empty (visited_keys m)) as [Hok Hget]; [done|done|].
  split; [done|]. intros ip p. rewrite Hget. setoid_rewrite visited_pairs.
  unfold rt_GetByIP, NewRoutingTable. cbn [rt_revIdx]. rewrite lookup_empty. naive_solver.
Qed.

(** ** The subnets of a node *)

Record subnet_ok (id : string) (s : subnet) : Prop := {
  so_id : vs_id s = id;
  so_routes : rt_ok (vs_rtable s);
  so_ifaces ip name : vs_ifaces s !! ip = Some name → is_Some (rt_GetByIP (vs_rtable s) ip);
  so_ports port e : vs_portMapping s !! port = Some e → pm_subnetPort e = port
}.

Definition vnet_ok (n : vnet) : Prop := ∀ id s, vn_subnets n !! id = Some s → subnet_ok id s.

Lemma put_subnet_ok n s : vnet_ok n → subnet_ok (vs_id s) s → vnet_ok (put_subnet n s).
Proof. intros Hn Hs id s'. cbn. rewrite lookup_insert_Some. intros [[<- <-]|[_ H]]; auto. Qed.

Lemma put_ok_at n id s : vnet_ok n → subnet_ok id s → vnet_ok (put_subnet n s).
Proof. intros Hn Hs. apply put_subnet_ok; [done|]. by rewrite (so_id _ _ Hs). Qed.

Lemma firewall_ok n f : vnet_ok n → vnet_ok (set_firewall n f).
Proof. done. Qed.

(** Adding an address keeps the others, and only that one is new. *)
Lemma add_route_ok id s p ip :
  subnet_ok id s → free_for (vs_rtable s) p ip → subnet_ok id (set_rtable s (rt_Add (vs_rtable s) p ip)).
Proof.
  intros [Hid Hr Hi Hp] Hf. destruct (rt_Add_map _ p ip Hr Hf) as [Hok Hrev]. split; cbn; try done.
  intros ip' name H%Hi. unfold rt_GetByIP in *. rewrite Hrev. rewrite lookup_insert. case_decide; cbn; [eauto|exact H].
Qed.

Lemma ParseIP_canonical s ip : ParseIP s = Some ip → IP_String ip = s.
Proof.
  unfold ParseIP, IP_String. intros H. rewrite <-(Split_Join s "."). f_equal.
  assert (Hb : ∀ t z, parseByte t = Some z → Itoa z = t).
  { intros t z. unfold parseByte. destruct (Atoi t) as [y|]; [|done]. destruct (_ && _) eqn:E; [|done]. intros [= ->].
    apply andb_prop in E as [_ E]. by apply bool_decide_eq_true in E. }
  destruct (Split s ".") as [|a [|b [|c [|d [|e l]]]]]; cbn [map] in H;
    repeat (match type of H with context [parseByte ?t] => destruct (parseByte t) eqn:? end); try done.
  injection H as <-. cbn [ip0 ip1 ip2 ip3].
  repeat match goal with E : parseByte _ = Some _ |- _ => apply Hb in E; rewrite E; clear E end. done.
Qed.

Definition may_add (n : vnet) (id peerID ip : string) : Prop :=
  ∀ s p, vn_subnets n !! id = Some s → decode peerID = Some p → free_for (vs_rtable s) p ip.

Lemma create_ok n id cidr table ok : vnet_ok n → vnet_ok (CreateSubnet decode n id cidr table ok).2.
Proof.
  intros Hn. unfold CreateSubnet. destruct (vn_subnets n !! id); [by repeat case_match|].
  destruct (ParseCIDR cidr); [|done]. destruct (addRoutes _ _ _) as [rt|e|] eqn:Er; [|done..]. case_match; [done|].
  apply put_ok_at with id; [done|]. split; cbn; [done|by apply (table_of_map table)|set_solver..].
Qed.

Lemma add_peer_ok n id peerID ip a : vnet_ok n → may_add n id peerID ip → vnet_ok (AddSubnetPeer decode n id peerID ip a).2.
Proof.
  intros Hn Hmay. unfold AddSubnetPeer. destruct (vn_subnets n !! id) as [s|] eqn:Es; [|done].
  destruct (ParseIP ip) as [addr|] eqn:Ei; [|done]. destruct (decode peerID) as [p|] eqn:Ed; [|done].
  assert (Hs := add_route_ok id s p ip (Hn id s Es) (Hmay s p Es Ed)).
  assert (Hn1 := put_ok_at n id _ Hn Hs). rewrite (ParseIP_canonical ip addr Ei).
  repeat (case_match; try done). apply put_ok_at with id; [done|].
  destruct Hs as [Hid Hr Hi Hp]. split; try done. cbn. intros ip' x. rewrite lookup_insert_Some. intros [[<- _]|[_ Hx]]; [|by eapply Hi].
  unfold rt_GetByIP.
  destruct (rt_Add_map (vs_rtable s) p ip (so_routes _ _ (Hn id s Es)) (Hmay s p Es Ed)) as [_ ->]. by rewrite lookup_insert_eq.
Qed.

Lemma accept_ok n id peerID ip :
  vnet_ok n → may_add n id peerID ip →
  vnet_ok (acceptSubnetPeer decode n id peerID ip).2 ∧
  ∀ q ip', ip' ≠ ip → may_add n id q ip' → may_add (acceptSubnetPeer decode n id peerID ip).2 id q ip'.
Proof.
  intros Hn Hmay. unfold acceptSubnetPeer. destruct (vn_subnets n !! id) as [s|] eqn:Es; [|done].
  destruct (ParseIP ip); [|done]. destruct (decode peerID) as [p|] eqn:Ed; [|done].
  assert (Hs := Hn id s Es). assert (Hf := Hmay s p Es Ed). split; [apply put_ok_at with id; [done|by apply add_route_ok]|].
  intros q ip' Hne Hq s' p' Hs' Hd. cbn in Hs'. rewrite (so_id _ _ Hs), lookup_insert_eq in Hs'. injection Hs' as <-.
  intros r. unfold rt_GetByIP. cbn. destruct (rt_Add_map (vs_rtable s) p ip (so_routes _ _ Hs) Hf) as [_ ->].
  rewrite lookup_insert_ne by done. by apply (Hq s).
Qed.

Lemma accept_all_ok l n id :
  vnet_ok n → NoDup l.*1 → (∀ ip q, (ip, q) ∈ l → may_add n id q ip) →
  vnet_ok (eachPeer (λ n, acceptSubnetPeer decode n id) n l).2.
Proof.
  revert n. induction l as [|[ip q] l IH]; cbn; intros n Hn Hnd Hmay; [done|]. apply NoDup_cons in Hnd as [Hout Hnd].
  destruct (accept_ok n id q ip Hn) as [Hok Hkeep]; [apply Hmay; by left|].
  destruct (acceptSubnetPeer decode n id q ip) as [[] n1]; cbn in *; [|done..]. apply IH; [done|done|].
  intros ip' q' Hin. apply Hkeep; [|apply Hmay; by right]. intros ->. apply Hout, list_elem_of_fmap. by exists (ip, q').
Qed.

Lemma remove_ok n id peerID ip : vnet_ok n → vnet_ok (removeSubnetPeer decode n id peerID ip).2.
Proof.
  intros Hn. unfold removeSubnetPeer. destruct (vn_subnets n !! id) as [s|] eqn:Es; [|done].
  destruct (decode peerID) as [p|]; [|done]. destruct (rt_Get (vs_rtable s) p) as [ips|] eqn:Eg; [|done].
  destruct (bool_decide_reflect (ip ∈ ips)) as [Hin|]; [|done]. cbn. apply put_ok_at with id; [done|].
  destruct (Hn id s Es) as [Hid Hr Hi Hp]. assert (Hget : rt_GetByIP (vs_rtable s) ip = Some p).
  { apply (rt_ok_inverse _ Hr). unfold rt_Get in Eg. by rewrite Eg. }
  destruct (rt_Remove_map _ p ip Hr Hget) as [Hok Hrev]. split; cbn; try done. intros ip' x. unfold rt_GetByIP. rewrite Hrev.
  rewrite lookup_delete_Some. intros [Hne H%Hi]. by rewrite lookup_delete_ne.
Qed.

Lemma remove_all_ok l n id : vnet_ok n → vnet_ok (eachPeer (λ n, removeSubnetPeer decode n id) n l).2.
Proof.
  revert n. induction l as [|[ip q] l IH]; cbn; intros n Hn; [done|]. pose proof (remove_ok n id q ip Hn) as H.
  destruct (removeSubnetPeer decode n id q ip) as [[] n1]; [by apply IH|done..].
Qed.

(** Names, ports and connections do not touch the routes. *)
Lemma dns_ok id s m : subnet_ok id s → subnet_ok id (set_dns s m).
Proof. by intros [? ? ? ?]. Qed.

Lemma conns_ok id s m : subnet_ok id s → subnet_ok id (set_conns s m).
Proof. by intros [? ? ? ?]. Qed.

Lemma ports_ok id s m : subnet_ok id s → (∀ port e, m !! port = Some e → pm_subnetPort e = port) → subnet_ok id (set_portMapping s m).
Proof. by intros [? ? ? _]. Qed.

Lemma map_port_ok n req lo : vnet_ok n → vnet_ok (MapPort n req lo).2.
Proof.
  intros Hn. unfold MapPort. destruct (vn_subnets n !! mp_SubnetID req) as [s|] eqn:Es; [|done]. assert (Hs := Hn _ s Es).
  case_match; [done|]. destruct (mapForward _ _ _ _) as [[[b t]|e|] f]; [|done..]. destruct (match lo with Some _ => _ | None => _ end) as [[] f']; [|done].
  cbn. apply put_ok_at with (mp_SubnetID req); [done|]. apply ports_ok; [done|]. intros port e. rewrite lookup_insert_Some.
  intros [[<- <-]|[_ H']]; [done|by eapply so_ports].
Qed.

Lemma unmap_port_ok n req lo : vnet_ok n → vnet_ok (UnmapPort n req lo).2.
Proof.
  intros Hn. unfold UnmapPort. destruct (vn_subnets n !! mp_SubnetID req) as [s|] eqn:Es; [|done]. assert (Hs := Hn _ s Es).
  destruct (vs_portMapping s !! mp_SubnetPort req) as [m|]; [|done]. case_match; [done|]. destruct (DelDNATRule _ _ _ _ _) as [[] f]; [|done].
  destruct (unmapForward _ _ _ _ _) as [[u|e|] f']; [|done..]. destruct (match lo with Some _ => _ | None => _ end) as [[] f'']; [|done].
  cbn. destruct (DelMasqueradeRule f'') as [[] f3]; [|done]. cbn. apply put_ok_at with (mp_SubnetID req); [done|].
  apply ports_ok; [done|]. intros port e [_ H']%lookup_delete_Some. by eapply so_ports.
Qed.

Lemma unmap_all_ok id lo l n : vnet_ok n → vnet_ok (unmapAll n id lo l).
Proof. unfold unmapAll. revert n. induction l as [|m l IH]; cbn; intros n Hn; [done|]. by apply IH, unmap_port_ok. Qed.

Lemma destroy_ok n id lo : vnet_ok n → vnet_ok (DestroySubnet n id lo).2.
Proof.
  intros Hn. unfold DestroySubnet. destruct (vn_subnets n !! id) as [s|] eqn:Es; [|done].
  intros id' s' H. cbn [snd vn_subnets] in H. apply lookup_delete_Some in H as [_ H]. revert id' s' H.
  apply unmap_all_ok, (put_ok_at _ id); [done|]. destruct (Hn id s Es). split; cbn; [done|apply rt_ok_empty|set_solver|done].
Qed.

Lemma cleanup_conn_ok id s ip c : subnet_ok id s → subnet_ok id (cleanupConn s ip c).
Proof. unfold cleanupConn. case_match; [apply conns_ok|done]. Qed.

Lemma retry_ok id s ip c a : subnet_ok id s → subnet_ok id (retryPacket s ip c a).2.
Proof.
  intros Hs. unfold retryPacket. set (s0 := match pa_raced a with Some c => put_conn s ip c | None => s end).
  assert (H0 : subnet_ok id s0) by (unfold s0; case_match; [by apply conns_ok|done]).
  destruct (pa_redial a); [|done]. repeat (case_match; simplify_eq); try apply cleanup_conn_ok; (done || by apply conns_ok).
Qed.

Lemma packet_ok id s ip a : subnet_ok id s → subnet_ok id (proxyPacket s ip a).2.
Proof.
  intros Hs. unfold proxyPacket. destruct (match vs_conns s !! ip with Some _ => _ | None => _ end) as [[c s0]|] eqn:E; [|done].
  assert (H0 : subnet_ok id s0) by (repeat (case_match; simplify_eq); (done || by apply conns_ok)).
  destruct (pa_write a); [done| |by apply cleanup_conn_ok].
  pose proof (retry_ok id (cleanupConn s0 ip c) ip c a (cleanup_conn_ok _ _ _ _ H0)) as H.
  by destruct (retryPacket _ _ _ _) as [[? ?] ?].
Qed.

(** What the node and its allocations do with the network, in any order; an address is only
    given to a peer when no other peer has it. *)
Inductive vnet_step (n : vnet) : vnet → Prop :=
| step_create id cidr table ok : vnet_step n (CreateSubnet decode n id cidr table ok).2
| step_destroy id lo : vnet_step n (DestroySubnet n id lo).2
| step_add id peerID ip a : may_add n id peerID ip → vnet_step n (AddSubnetPeer decode n id peerID ip a).2
| step_accept id table : (∀ ip q, table !! ip = Some q → may_add n id q ip) → vnet_step n (AcceptSubnetPeers decode n id table).2
| step_remove id table : vnet_step n (RemoveSubnetPeers decode n id table).2
| step_dns id records : vnet_step n (AddSubnetDNSRecords n id records).2
| step_undns id name : vnet_step n (RemoveSubnetDNSRecord n id name).2
| step_map req lo : vnet_step n (MapPort n req lo).2
| step_unmap req lo : vnet_step n (UnmapPort n req lo).2
| step_request id ip parsed proxied : vnet_step n (proxyRequest n id ip parsed proxied).2
| step_packet id s ip a : vn_subnets n !! id = Some s → vnet_step n (put_subnet n (proxyPacket s ip a).2)
| step_closed id s ip c : vn_subnets n !! id = Some s → vnet_step n (put_subnet n (cleanupConn s ip c)).

Definition NewVnet (f : firewall) : vnet := mkVnet ∅ false f.
Definition vnet_reachable (f : firewall) (n : vnet) : Prop := rtc vnet_step (NewVnet f) n.

Lemma vnet_step_ok n n' : vnet_ok n → vnet_step n n' → vnet_ok n'.
Proof.
  intros Hn []; try (unfold AddSubnetDNSRecords, RemoveSubnetDNSRecord, proxyRequest).
  - by apply create_ok.
  - by apply destroy_ok.
  - by apply add_peer_ok.
  - apply accept_all_ok; [done|apply visited_keys|]. intros ip q Hin%visited_pairs. auto.
  - by apply remove_all_ok.
  - case_match eqn:E; [|done]. eapply put_ok_at, dns_ok, Hn, E. done.
  - case_match eqn:E; [|done]. eapply put_ok_at, dns_ok, Hn, E. done.
  - by apply map_port_ok.
  - by apply unmap_port_ok.
  - case_match; [done|]. case_match; [done|]. case_match eqn:E; [|done]. case_match; [done|]. case_match; [|done].
    eapply put_ok_at, conns_ok, Hn, E. done.
  - eapply put_ok_at; [done|]. by apply packet_ok, Hn.
  - eapply put_ok_at; [done|]. by apply cleanup_conn_ok, Hn.
Qed.

Lemma vnet_reachable_ok f n : vnet_reachable f n → vnet_ok n.
Proof. revert n. apply rtc_ind_r; [done|]. intros n n' _ Hstep Hn. by eapply vnet_step_ok. Qed.

(** A packet that leaves through a device or a peer: both ends are members. *)
Lemma route_spec s src dst :
  rt_ok (vs_rtable s) → (∀ ip name, vs_ifaces s !! ip = Some name → is_Some (rt_GetByIP (vs_rtable s) ip)) →
  match Route s src dst with
  | RouteTun name => vs_ifaces s !! dst = Some name ∧ is_Some (rt_GetByIP (vs_rtable s) src)
  | RoutePeer p => dst ∈ default [] (rt_Get (vs_rtable s) p) ∧ vs_ifaces s !! dst = None ∧ is_Some (rt_GetByIP (vs_rtable s) src)
  | RouteNowhere => rt_GetByIP (vs_rtable s) src = None ∨ (rt_GetByIP (vs_rtable s) dst = None ∧ vs_ifaces s !! dst = None)
  end.
Proof.
  intros Hr Hi. unfold Route. destruct (rt_GetByIP (vs_rtable s) dst) as [p|] eqn:Ed.
  - destruct (rt_GetByIP (vs_rtable s) src) as [q|] eqn:Eq; [|by left]. destruct (vs_ifaces s !! dst) eqn:Ei; [eauto|].
    split; [by apply (rt_ok_inverse _ Hr)|eauto].
  - right. split; [done|]. destruct (vs_ifaces s !! dst) as [name|] eqn:Ei; [|done]. apply Hi in Ei. rewrite Ed in Ei. by destruct Ei.
Qed.

(** C33: the routes of a subnet stay consistent: in every state that creating and destroying
    subnets, giving addresses to peers that do not belong to others, removing peers, names,
    ports, requests for connections and packets can reach, the two maps of a routing table are
    inverse to each other, no address belongs to two peers, every device of the node has an
    address with a route, and a packet leaves through the device of its destination, else goes
    to the one peer that has the destination, and is dropped only when the source or the
    destination is no member. *)
Theorem routes_consistent f n id s :
  vnet_reachable f n → vn_subnets n !! id = Some s →
  (∀ ip p, rt_GetByIP (vs_rtable s) ip = Some p ↔ ip ∈ default [] (rt_Get (vs_rtable s) p)) ∧
  (∀ ip name, vs_ifaces s !! ip = Some name → is_Some (rt_GetByIP (vs_rtable s) ip)) ∧
  ∀ src dst,
    match Route s src dst with
    | RouteTun name => vs_ifaces s !! dst = Some name ∧ is_Some (rt_GetByIP (vs_rtable s) src)
    | RoutePeer p => dst ∈ default [] (rt_Get (vs_rtable s) p) ∧ vs_ifaces s !! dst = None ∧ is_Some (rt_GetByIP (vs_rtable s) src)
    | RouteNowhere => rt_GetByIP (vs_rtable s) src = None ∨ (rt_GetByIP (vs_rtable s) dst = None ∧ vs_ifaces s !! dst = None)
    end.
Proof.
  intros Hn Hs. destruct (vnet_reachable_ok f n Hn id s Hs) as [_ Hr Hi _].
  split; [apply (rt_ok_inverse _ Hr)|]. split; [done|]. intros src dst. by apply route_spec.
Qed.

End routes.

(** ** Ports *)

Lemma addRule_new f r : (∀ c, fw_runs f c = true) → r ∉ fw_rules f → addRule f r = (true, set_rules f ({[r]} ∪ fw_rules f)).
Proof. intros Hr Hn. unfold addRule, iptRuleExist. by rewrite bool_decide_false, Hr. Qed.

Lemma delRule_gone f r : (∀ c, fw_runs f c = true) → delRule f r = (true, set_rules f (fw_rules f ∖ {[r]})).
Proof.
  intros Hr. unfold delRule, iptRuleExist. case_bool_decide as Hin; [by rewrite Hr|].
  rewrite difference_disjoint_L by set_solver. by destruct f.
Qed.

(** Appending a rule that was not there and deleting it gives the rules back. *)
Lemma add_del_rule f r :
  (∀ c, fw_runs f c = true) → r ∉ fw_rules f → delRule (addRule f r).2 r = (true, f).
Proof.
  intros Hr Hn. rewrite addRule_new by done. cbn. rewrite delRule_gone by done.
  destruct f as [c R runs]. unfold set_rules. cbn in *. do 2 f_equal. set_solver.
Qed.

Lemma put_back n s : vn_subnets n !! vs_id s = Some s → put_subnet n s = n.
Proof. destruct n. unfold put_subnet. cbn. intros H. by rewrite insert_id. Qed.

Lemma put_put n s s' : vs_id s = vs_id s' → put_subnet (put_subnet n s) s' = put_subnet n s'.
Proof. intros H. unfold put_subnet. cbn. by rewrite H, insert_insert_eq. Qed.

Section ports.
  Context (n : vnet) (s : subnet) (req : MapPortRequest) (lo : option string).
  Notation proto := (string_lower (mp_Protocol req)).
  Notation fwd := (forwardRule proto (mp_SubnetIP req) (mp_SubnetPort req)).
  Notation out name := (outputNatRule proto (mp_SubnetIP req) (mp_SubnetPort req) name).
  Hypothesis Hs : vn_subnets n !! mp_SubnetID req = Some s.
  Hypothesis Hid : vs_id s = mp_SubnetID req.
  Hypothesis Hexec : mp_ExecutorType req ≠ containerd.
  Hypothesis Hfree : vs_portMapping s !! mp_SubnetPort req = None.
  Hypothesis Hruns : ∀ c, fw_runs (vn_firewall n) c = true.
  Hypothesis Hfwd : fwd ∉ fw_rules (vn_firewall n).
  Hypothesis Hout : ∀ name, lo = Some name → out name ∉ fw_rules (vn_firewall n).

(** The firewall with the rules of the port. *)
Definition mappedRules : gset rule :=
  match lo with Some name => {[out name]} | None => ∅ end ∪ ({[fwd]} ∪ fw_rules (vn_firewall n)).

Definition mappedEntry : portMapEntry :=
  mkPortMapEntry (mp_SubnetPort req) (mp_ExecutionPort req) (mp_SubnetIP req) proto (mp_ExecutorType req) (mp_CNIBridge req) "".

Lemma MapPort_ok :
  MapPort n req lo = (Ok (), put_subnet (set_firewall n (set_rules (vn_firewall n) mappedRules))
    (set_portMapping s (<[mp_SubnetPort req := mappedEntry]> (vs_portMapping s)))).
Proof.
  unfold MapPort. rewrite Hs, bool_decide_false by (rewrite Hfree; by intros []). unfold mapForward. rewrite bool_decide_false by done.
  unfold AddForwardRule. rewrite addRule_new by done. unfold mappedRules. destruct lo as [name|] eqn:E.
  - unfold AddOutputNatRule. rewrite addRule_new; [done|done|]. cbn. apply not_elem_of_union. split; [set_solver|by apply Hout].
  - cbn. by rewrite union_empty_l_L.
Qed.

(** The rules that unmapping deletes although mapping never adds them. *)
Definition unmapped : gset rule :=
  {[dnatRule proto (mp_ExecutionPort req) (mp_SubnetIP req) (mp_SubnetPort req); masqueradeRule]}.

Lemma UnmapPort_ok :
  UnmapPort (MapPort n req lo).2 req lo =
    (Ok (), set_firewall n (set_rules (vn_firewall n) (fw_rules (vn_firewall n) ∖ unmapped))).
Proof.
  rewrite MapPort_ok. unfold UnmapPort. cbn [snd put_subnet vn_subnets set_portMapping vs_id].
  rewrite Hid, lookup_insert_eq. cbn [vs_portMapping set_portMapping]. rewrite lookup_insert_eq. cbn [pm_subnetIP pm_subnetPort mappedEntry].
  rewrite !bool_decide_true by done. cbn [negb orb]. cbn [pm_protocol mappedEntry].
  replace (if bool_decide (proto = "") then proto else proto) with proto by (by destruct (bool_decide _)).
  cbn [vn_firewall set_firewall]. unfold DelDNATRule. rewrite delRule_gone by done.
  unfold unmapForward. cbn [pm_executorType mappedEntry]. rewrite bool_decide_false by done.
  unfold DelForwardRule. rewrite delRule_gone by done.
  assert (Hback : ∀ R, R = fw_rules (vn_firewall n) ∖ unmapped →
    put_subnet (set_firewall (put_subnet (set_firewall n (set_rules (vn_firewall n) mappedRules))
      (set_portMapping s (<[mp_SubnetPort req := mappedEntry]> (vs_portMapping s)))) (set_rules (vn_firewall n) R))
      (set_portMapping s (delete (mp_SubnetPort req) (<[mp_SubnetPort req := mappedEntry]> (vs_portMapping s)))) =
    set_firewall n (set_rules (vn_firewall n) (fw_rules (vn_firewall n) ∖ unmapped))).
  { intros R ->. rewrite delete_insert_id by done. replace (set_portMapping s (vs_portMapping s)) with s by (by destruct s).
    unfold put_subnet, set_firewall. cbn. by rewrite Hid, insert_insert_eq, insert_id. }
  destruct lo as [name|] eqn:El; cbn [negb].
  - unfold DelOutputNatRule. rewrite delRule_gone by done. cbn [negb]. unfold DelMasqueradeRule. rewrite delRule_gone by done.
    f_equal. apply Hback. cbn. unfold mappedRules, unmapped. rewrite El. specialize (Hout name eq_refl). set_solver.
  - unfold DelMasqueradeRule. rewrite delRule_gone by done.
    f_equal. apply Hback. cbn. unfold mappedRules, unmapped. rewrite El. set_solver.
Qed.

End ports.

(** The rules that mapping a port adds. *)
Definition port_rules (req : MapPortRequest) (lo : option string) : list rule :=
  let proto := string_lower (mp_Protocol req) in
  forwardRule proto (mp_SubnetIP req) (mp_SubnetPort req) ::
  match lo with Some name => [outputNatRule proto (mp_SubnetIP req) (mp_SubnetPort req) name] | None => [] end.

(** C35: mapping a port and unmapping it again: for an executor other than containerd, when the
    commands of the firewall succeed, the port of the subnet is not mapped yet and the rules
    that mapping adds are not there, mapping it succeeds, lets packets for the address and
    port in, and is refused a second time; unmapping it then succeeds and gives back the state
    of before, except that it also deletes from the firewall the masquerading rule of the host
    and the DNAT rule of the port, which mapping does not add: the state is the very same when
    these were not there. *)
Theorem map_unmap `{Visit : MapVisit} decode f n s req lo :
  vnet_reachable decode f n → vn_subnets n !! mp_SubnetID req = Some s →
  mp_ExecutorType req ≠ containerd → vs_portMapping s !! mp_SubnetPort req = None →
  (∀ c, fw_runs (vn_firewall n) c = true) → Forall (λ r, r ∉ fw_rules (vn_firewall n)) (port_rules req lo) →
  (MapPort n req lo).1 = Ok () ∧
  forwardRule (string_lower (mp_Protocol req)) (mp_SubnetIP req) (mp_SubnetPort req) ∈ fw_rules (vn_firewall (MapPort n req lo).2) ∧
  (MapPort (MapPort n req lo).2 req lo).1 = Err ErrAlreadyMapped ∧
  UnmapPort (MapPort n req lo).2 req lo =
    (Ok (), set_firewall n (set_rules (vn_firewall n) (fw_rules (vn_firewall n) ∖ unmapped req))) ∧
  (masqueradeRule ∉ fw_rules (vn_firewall n) →
   dnatRule (string_lower (mp_Protocol req)) (mp_ExecutionPort req) (mp_SubnetIP req) (mp_SubnetPort req) ∉ fw_rules (vn_firewall n) →
   UnmapPort (MapPort n req lo).2 req lo = (Ok (), n)).
Proof.
  intros Hn Hs He Hf Hr Hall. assert (Hid := so_id _ _ (vnet_reachable_ok decode f n Hn _ s Hs)).
  rewrite Forall_forall in Hall. unfold port_rules in Hall. assert (Hfwd := Hall _ ltac:(left)). cbn beta in *.
  assert (Hout : ∀ name, lo = Some name → outputNatRule (string_lower (mp_Protocol req)) (mp_SubnetIP req) (mp_SubnetPort req) name
    ∉ fw_rules (vn_firewall n)) by (intros name ->; apply Hall; set_solver).
  rewrite (UnmapPort_ok n s req lo) by done.
  rewrite (MapPort_ok n s req lo) by done. split; [done|]. split; [cbn; unfold mappedRules; set_solver|]. split; [|split; [done|]].
  - unfold MapPort. cbn [snd put_subnet vn_subnets set_portMapping vs_id]. rewrite Hid, lookup_insert_eq. cbn [vs_portMapping set_portMapping].
    by rewrite lookup_insert_eq.
  - intros Hm Hd. do 2 f_equal. rewrite difference_disjoint_L by (unfold unmapped; set_solver).
    unfold set_firewall. destruct n as [? ? [? ? ?]]. done.
Qed.

(** ** Connections of packets *)

(** The connections a packet makes the node dial. *)
Definition dialled (s : subnet) (ip : string) (a : proxy_answers) (c : nat) : Prop :=
  (vs_conns s !! ip = None ∧ pa_dial a = Some c) ∨
  ((is_Some (vs_conns s !! ip) ∨ is_Some (pa_dial a)) ∧ pa_write a = WrittenClosed ∧ pa_redial a = Some c).

Ltac conn_cases :=
  unfold cleanupConn, cleanupCloses in *; cbn in *;
  repeat (case_match; simplify_eq/=); (split_and!; [|intros ? ?|intros ? ?]); intros; simplify_map_eq; set_solver.

Lemma retry_spec s ip c a r closed s' :
  vs_conns s !! ip = None → retryPacket s ip c a = (r, closed, s') →
  (∀ c', pa_redial a = Some c' → c' ∈ closed ∨ vs_conns s' !! ip = Some c') ∧
  (∀ c', r = Delivered c' → vs_conns s' !! ip = Some c') ∧
  ∀ ip', ip' ≠ ip → vs_conns s' !! ip' = vs_conns s !! ip'.
Proof.
  intros Hn. unfold retryPacket, put_conn. intros H.
  destruct (pa_raced a) as [k|]; cbn in H; [rewrite lookup_insert_eq in H|rewrite Hn in H]; (destruct (pa_redial a) as [d|]; [|by conn_cases]).
  - destruct (bool_decide_reflect (k = c)); cbn in H; conn_cases.
  - conn_cases.
Qed.

Lemma cleanup_gone s ip c : vs_conns s !! ip = Some c → vs_conns (cleanupConn s ip c) = delete ip (vs_conns s) ∧ cleanupCloses s ip c = [c].
Proof. intros H. unfold cleanupConn, cleanupCloses. by rewrite bool_decide_true. Qed.

(** A packet for another member leaves no connection behind: every connection that is dialled
    for it is the one of the destination afterwards or is closed, a packet that is delivered
    went through the connection of its destination, and no other destination is touched. *)
Theorem dialled_kept_or_closed s ip a r closed s' :
  proxyPacket s ip a = (r, closed, s') →
  (∀ c, dialled s ip a c → c ∈ closed ∨ vs_conns s' !! ip = Some c) ∧
  (∀ c, r = Delivered c → vs_conns s' !! ip = Some c) ∧
  ∀ ip', ip' ≠ ip → vs_conns s' !! ip' = vs_conns s !! ip'.
Proof.
  unfold proxyPacket, dialled. destruct (match vs_conns s !! ip with Some _ => _ | None => _ end) as [[c s0]|] eqn:E.
  - assert (vs_conns s0 !! ip = Some c ∧ (∀ ip', ip' ≠ ip → vs_conns s0 !! ip' = vs_conns s !! ip') ∧
      ∀ c', vs_conns s !! ip = None → pa_dial a = Some c' → c' = c) as (H0 & Hother & Hfirst).
    { unfold put_conn in E. destruct (vs_conns s !! ip) eqn:Ei; [by simplify_eq|]. destruct (pa_dial a); simplify_eq. cbn.
      split; [by rewrite lookup_insert_eq|]. split; [|congruence]. intros ip' Hne. by rewrite lookup_insert_ne. }
    destruct (cleanup_gone s0 ip c H0) as [Hgone Hcloses]. destruct (pa_write a) eqn:Ew.
    + intros [= <- <- <-]. naive_solver.
    + destruct (retryPacket (cleanupConn s0 ip c) ip c a) as [[r' closed'] s''] eqn:Er. intros [= -> <- ->].
      destruct (retry_spec _ _ _ _ _ _ _ ltac:(by rewrite Hgone, lookup_delete_eq) Er) as (H1 & H2 & H3). rewrite Hcloses.
      split_and!; [|done|intros ip' Hne; rewrite H3, Hgone, lookup_delete_ne by done; auto].
      intros c' [[Hn Hd]|(_ & _ & Hd)]; [left; rewrite (Hfirst _ Hn Hd); set_solver|]. destruct (H1 _ Hd); [left; set_solver|by right].
    + intros [= <- <- <-]. rewrite Hgone, Hcloses. split_and!; [|done|intros ip' Hne; rewrite lookup_delete_ne by done; auto].
      intros c' [[Hn Hd]|(_ & ? & _)]; [left; rewrite (Hfirst _ Hn Hd); set_solver|done].
  - intros [= <- <- <-]. destruct (vs_conns s !! ip) eqn:Ei; [done|]. destruct (pa_dial a) eqn:Ed; [done|]. naive_solver.
Qed.

(** ** Names of devices *)

(** More draws than the loop makes do not change its answer: it ends by itself. *)
Lemma unique_name_fuel fuel fuel' draw taken k i :
  (k ≤ 100)%nat → (101 - k ≤ fuel)%nat → (101 - k ≤ fuel')%nat →
  uniqueNameLoop fuel draw taken k i = uniqueNameLoop fuel' draw taken k i.
Proof.
  revert fuel' k i. induction fuel as [|fuel IH]; intros fuel' k i Hk Hf Hf'; [lia|]. destruct fuel' as [|fuel']; [lia|]. cbn [uniqueNameLoop].
  destruct (negb _); [done|]. destruct (Nat.ltb_spec 100 (S k)); [done|]. apply IH; lia.
Qed.

Lemma unique_name_new fuel draw taken k i name :
  uniqueNameLoop fuel draw taken k i = Some name → name ∉ taken ∧ ∃ j z, name = "dms" +:+ Itoa (draw j z).
Proof.
  revert k i. induction fuel as [|fuel IH]; intros k i; [done|]. cbn [uniqueNameLoop].
  destruct (bool_decide_reflect (("dms" +:+ Itoa (draw k i)) ∈ taken)) as [Hin|Hout]; cbn [negb]; [case_match; [done|apply IH]|].
  intros [= <-]. eauto.
Qed.

(** ** Examples *)

Definition all_run : rule → bool := λ _, true.
Definition sample_firewall : firewall := mkFirewall ∅ {[masqueradeRule]} all_run.
Definition sample_routes : gmap string string := {["10.0.0.2" := "p"; "10.0.0.3" := "p"]}.
Definition reversed_visit : MapVisit := {| visit := @rev; visit_perm A l := Permutation_sym (Permutation_rev l) |}.
Definition tun_works : tun_answers := mkTunAnswers (Some ["lo"; "dms4"]) (λ k _, 4 + Z.of_nat k) true true true true.

Definition created : vnet := (@CreateSubnet visit_in_order Some (NewVnet sample_firewall) "sub" "10.0.0.0/24" sample_routes true).2.
Definition with_tun : vnet := (AddSubnetPeer Some created "sub" "q" "10.0.0.4" tun_works).2.

Lemma created_reachable : @vnet_reachable visit_in_order Some sample_firewall with_tun.
Proof.
  eapply rtc_l; [apply step_create|]. eapply rtc_l; [|apply rtc_refl]. apply step_add. intros s p Hs [= <-] q.
  unfold created, NewVnet in Hs. vm_compute in Hs. injection Hs as <-. vm_compute. congruence.
Qed.

Lemma routes_consistent_witness :
  ∃ s, vn_subnets with_tun !! "sub" = Some s ∧ vs_ifaces s !! "10.0.0.4" = Some "dms5" ∧
    Route s "10.0.0.4" "10.0.0.2" = RoutePeer "p" ∧ is_Some (rt_GetByIP (vs_rtable s) "10.0.0.4").
Proof.
  destruct (vn_subnets with_tun !! "sub") as [s|] eqn:E; [|by vm_compute in E].
  assert (Ht : vs_ifaces s !! "10.0.0.4" = Some "dms5") by (vm_compute in E; by injection E as <-).
  exists s. split; [done|]. split; [done|]. split; [vm_compute in E; by injection E as <-|].
  exact (proj1 (proj2 (@routes_consistent visit_in_order Some sample_firewall with_tun "sub" s created_reachable E)) _ _ Ht).
Defined.

Definition sample_request (executor : string) : MapPortRequest := mkMapPortRequest "sub" "TCP" "10.0.0.4" "8080" "32000" executor "".
Definition clean : vnet := set_firewall with_tun (mkFirewall ∅ ∅ all_run).

Lemma clean_reachable : @vnet_reachable visit_in_order Some (mkFirewall ∅ ∅ all_run) clean.
Proof.
  eapply rtc_l; [apply (step_create _ _ "sub" "10.0.0.0/24" sample_routes true)|]. eapply rtc_l; [|apply rtc_refl].
  replace clean with (AddSubnetPeer Some (@CreateSubnet visit_in_order Some (NewVnet (mkFirewall ∅ ∅ all_run)) "sub" "10.0.0.0/24" sample_routes true).2
    "sub" "q" "10.0.0.4" tun_works).2 by by vm_compute.
  apply step_add. intros s p Hs [= <-] q. vm_compute in Hs. injection Hs as <-. vm_compute. congruence.
Qed.

Lemma map_unmap_witness :
  (MapPort clean (sample_request "docker") (Some "lo")).1 = Ok () ∧
  UnmapPort (MapPort clean (sample_request "docker") (Some "lo")).2 (sample_request "docker") (Some "lo") = (Ok (), clean).
Proof.
  destruct (vn_subnets clean !! "sub") as [s|] eqn:E; [|by vm_compute in E].
  assert (Hp : vs_portMapping s !! "8080" = None) by (vm_compute in E; by injection E as <-).
  assert (Hr : ∀ c, fw_runs (vn_firewall clean) c = true) by (intros c; reflexivity).
  assert (Hf : fw_rules (vn_firewall clean) = ∅) by reflexivity.
  assert (Hall : Forall (λ r, r ∉ fw_rules (vn_firewall clean)) (port_rules (sample_request "docker") (Some "lo"))).
  { rewrite Hf. apply Forall_forall. intros r _. apply not_elem_of_empty. }
  assert (Hd : mp_ExecutorType (sample_request "docker") ≠ containerd) by discriminate.
  pose proof (@map_unmap visit_in_order Some (mkFirewall ∅ ∅ all_run) clean s (sample_request "docker") (Some "lo")
    clean_reachable E Hd Hp Hr Hall) as (H & _ & _ & _ & H').
  split; [exact H|]. apply H'; rewrite Hf; apply not_elem_of_empty.
Defined.

(** A subnet that is created again with the very same arguments is refused when the loop over
    the map takes the addresses of a peer in another order. *)
Example create_again_depends_on_order :
  (@CreateSubnet visit_in_order Some created "sub" "10.0.0.0/24" sample_routes true).1 = Ok () ∧
  (@CreateSubnet reversed_visit Some created "sub" "10.0.0.0/24" sample_routes true).1 = Err ErrOtherRoutes.
Proof. by vm_compute. Qed.

(** An address that moves to another peer loses its route when its former owner is removed. *)
Example moved_address_loses_route :
  let rt := rt_Remove (rt_Add (rt_Add NewRoutingTable "p" "10.0.0.2") "q" "10.0.0.2") "p" "10.0.0.2" in
  rt_Get rt "q" = Some ["10.0.0.2"] ∧ rt_GetByIP rt "10.0.0.2" = None.
Proof. by vm_compute. Qed.

(** For containerd, the rule that is deleted is not the rule that was added: packets are still
    let in after the port is unmapped. *)
Example containerd_rule_stays :
  let n := (MapPort clean (sample_request "containerd") None).2 in
  let n' := (UnmapPort n (sample_request "containerd") None).2 in
  let added := forwardCNIRule "tcp" "10.0.0.0/24" "10.68.63.0/24" "32000" "dms5" "cni-nunet0" in
  (UnmapPort n (sample_request "containerd") None).1 = Ok () ∧
  iptRuleExist (vn_firewall clean) added = false ∧ iptRuleExist (vn_firewall n') added = true.
Proof. by vm_compute. Qed.

(** Unmapping a port deletes the masquerading rule of the host, which mapping did not add. *)
Example unmap_deletes_masquerade :
  let n := (MapPort with_tun (sample_request "docker") None).2 in
  iptRuleExist (vn_firewall with_tun) masqueradeRule = true ∧
  iptRuleExist (vn_firewall (UnmapPort n (sample_request "docker") None).2) masqueradeRule = false.
Proof. by vm_compute. Qed.

(** When no device can be made, the route stays although the peer was not added. *)
Example failed_peer_keeps_route :
  let r := AddSubnetPeer Some created "sub" "q" "10.0.0.4" (mkTunAnswers (Some []) (λ _ _, 0) false true true true) in
  r.1 = Err ErrTun ∧ (s ← vn_subnets r.2 !! "sub"; rt_GetByIP (vs_rtable s) "10.0.0.4") = Some "q".
Proof. by vm_compute. Qed.

(** Any host that asks for a connection is taken as the source it names, member or not, and
    closes the connection of the real one. *)
Example spoofed_source_replaces :
  let n := (proxyRequest with_tun "sub" "10.0.0.2" true (Some 1%nat)).2 in
  (proxyRequest n "sub" "10.0.0.2" true (Some 2%nat)).1 = (200, Some 1%nat) ∧
  (proxyRequest n "sub" "192.168.1.1" true (Some 3%nat)).1.1 = 200.
Proof. by vm_compute. Qed.

(** A name with a record, asked together with a name without one, fails with the answer of the first. *)
Example mixed_query_fails :
  resolveDNS [("a.internal.", TypeA); ("b.internal.", TypeA)] {["a.internal" := "10.0.0.2"]} =
    (RcodeServerFailure, [("a.internal.", "10.0.0.2")]).
Proof. by vm_compute. Qed.
