(* ===== verification/SubnetProvision.v ===== *)
(** * The configuration of a subnet (dms/orchestrator/subnet.go, provision.go)

    The messages with which the orchestrator of a deployment configures the virtual network
    of its nodes, and what the nodes do with them.  The nodes are a map from hosts to virtual
    networks; the goroutines of a step are handled in any order, each message by one node, and
    a message may not be sent, be answered too late, or find a node that cannot do what it is
    asked.  What goroutines meet is a schedule: an argument that pairs the requests of a step,
    in any order, with the answers of the system. *)

From S2P Require Import Prelude GoStrings GoNumbers ResourceManager ResourceProps Key Envelope Allocation Ensemble IPNet Subnet Orchestrator OrchestratorProps VirtualSubnet.

Local Open Scope Z_scope.

Notation cluster := (gmap string vnet).    (* host, virtual network *)

(** What one message meets. *)
Record exchange := mkExchange {
  ex_sent : bool;             (* it is made and sent *)
  ex_answered : bool;         (* its reply comes in time and is read *)
  ex_proxy : bool;            (* the proxy of the node starts *)
  ex_saved : bool;            (* the node stores what it created *)
  ex_tun : tun_answers;
  ex_lo : option string;      (* the loopback device of the node *)
  ex_executor : string;       (* the executor and the bridge of the allocation *)
  ex_bridge : string
}.

(** The order in which the requests of a step are handled, and what they meet. *)
Record schedule (A : Type) := mkSchedule {
  sched : list A → list (A * exchange);
  sched_perm l : (sched l).*1 ≡ₚ l
}.
Arguments sched {A} _ _.
Arguments sched_perm {A} _ _.

(** One message to the actor [to] and its reply. *)
Definition deliver (act : vnet → bool * vnet) (to : Handle) (ex : exchange) (cl : cluster) : bool * cluster :=
  if negb (ex_sent ex) then (false, cl)
  else match cl !! HostID (Handle_Address to) with
  | None => (false, cl)
  | Some n => let '(ok, n) := act n in (ok && ex_answered ex, <[HostID (Handle_Address to) := n]> cl)
  end.

(** A goroutine for each request: how many of them fail. *)
Fixpoint broadcast {A} (to : A → Handle) (act : A → exchange → vnet → bool * vnet) (l : list (A * exchange)) (cl : cluster)
    : nat * cluster :=
  match l with
  | [] => (0%nat, cl)
  | (a, ex) :: l =>
      let '(ok, cl) := deliver (act a ex) (to a) ex cl in
      let '(failed, cl) := broadcast to act l cl in
      ((if ok then failed else S failed), cl)
  end.

(** The step fails when one of them does, after all of them. *)
Definition aggregateErrors (r : nat * cluster) : bool * cluster := ((r.1 =? 0)%nat, r.2).

Definition succeeded {E A} (r : outcome E A) : bool := match r with Ok _ => true | _ => false end.
Definition replied {E A} (r : outcome E A * vnet) : bool * vnet := (succeeded r.1, r.2).

Section provision.
  Context `{Visit : MapVisit} (decode : string → option string).

(** ** The side of the nodes *)

Definition createOn (id cidr : string) (table : gmap string string) (ex : exchange) (n : vnet) : bool * vnet :=
  let '(ok, n) := replied (CreateSubnet decode n id cidr table (ex_proxy ex)) in (ok && ex_saved ex, n).

Definition addPeerOn (id : string) (req : subnetRequest) (ex : exchange) (n : vnet) : bool * vnet :=
  replied (AddSubnetPeer decode n id (sr_peerID req) (sr_ip req) (ex_tun ex)).

(** Every name is removed, whatever becomes of the others. *)
Definition removeRecordsOn (id : string) (names : list string) (n : vnet) : bool * vnet :=
  fold_left (λ '(ok, n) name, let '(r, n) := RemoveSubnetDNSRecord n id name in (ok && succeeded r, n)) names (true, n).

Definition mapPortOn (id : string) (req : subnetRequest) (pub priv : Z) (ex : exchange) (n : vnet) : bool * vnet :=
  replied (MapPort n (mkMapPortRequest id "TCP" (sr_ip req) (Itoa pub) (Itoa priv) (ex_executor ex) (ex_bridge ex)) (ex_lo ex)).

(** A peer that joins again is removed first. *)
Definition joinOn (id peerID ip : string) (table records : gmap string string) (ex : exchange) (n : vnet) : bool * vnet :=
  let n := (RemoveSubnetPeers decode n id {[ip := peerID]}).2 in
  let '(r, n) := AddSubnetPeer decode n id peerID ip (ex_tun ex) in
  if negb (succeeded r) then (false, n)
  else
    let '(r, n) := AcceptSubnetPeers decode n id table in
    if negb (succeeded r) then (false, n) else replied (AddSubnetDNSRecords n id records).

(** ** The side of the orchestrator *)

Definition createSubnet (id cidr : string) (table : gmap string string) (s : schedule Handle) (handles : list Handle) (cl : cluster)
    : bool * cluster := aggregateErrors (broadcast (λ h, h) (λ _, createOn id cidr table) (sched s handles) cl).

Definition subnetAddPeer (id : string) (s : schedule subnetRequest) (reqs : list subnetRequest) (cl : cluster) : bool * cluster :=
  aggregateErrors (broadcast sr_handle (addPeerOn id) (sched s reqs) cl).

Definition addDNSRecords (id : string) (records : gmap string string) (s : schedule subnetRequest) (reqs : list subnetRequest)
    (cl : cluster) : bool * cluster :=
  aggregateErrors (broadcast sr_handle (λ _ _ n, replied (AddSubnetDNSRecords n id records)) (sched s reqs) cl).

Definition removeDNSRecords (id : string) (names : list string) (s : schedule subnetRequest) (reqs : list subnetRequest)
    (cl : cluster) : bool * cluster :=
  aggregateErrors (broadcast sr_handle (λ _ _, removeRecordsOn id names) (sched s reqs) cl).

(** A request for each port of each allocation. *)
Definition portRequests (reqs : list subnetRequest) : list (subnetRequest * (Z * Z)) :=
  flat_map (λ r, map (λ pp, (r, pp)) (visit (map_to_list (sr_ports r)))) reqs.

(** The channel for errors has room for one error per allocation: a goroutine that finds it
    full waits for ever, and so does the step, which reads it after all goroutines. *)
Definition mapPorts (id : string) (s : schedule (subnetRequest * (Z * Z))) (reqs : list subnetRequest) (cl : cluster)
    : option (bool * cluster) :=
  let r := broadcast (λ x, sr_handle x.1) (λ x, mapPortOn id x.1 x.2.1 x.2.2) (sched s (portRequests reqs)) cl in
  if (length reqs <? r.1)%nat then None else Some (aggregateErrors r).

Definition orchestratorJoinSubnet (supervisor : Handle) (hostID id : string) (index table records : gmap string string)
    (ex : exchange) (cl : cluster) : bool * cluster :=
  deliver (joinOn id hostID (default "" (index !! orchSubnetName)) table records ex) supervisor ex cl.

Inductive recordsModificationType := mod_add | mod_remove.

Definition modifyRoutingTableAllocations (id : string) (modificationType : recordsModificationType) (table : gmap string string)
    (s : schedule subnetRequest) (reqs : list subnetRequest) (cl : cluster) : bool * cluster :=
  aggregateErrors (broadcast sr_handle
    (λ _ _ n, match modificationType with
              | mod_add => replied (AcceptSubnetPeers decode n id table)
              | mod_remove => replied (RemoveSubnetPeers decode n id table)
              end) (sched s reqs) cl).

Definition acceptPeersSubnetBehavior id := modifyRoutingTableAllocations id mod_add.
Definition removePeersSubnetBehavior id := modifyRoutingTableAllocations id mod_remove.

(** The members learn the routes and names of new allocations. *)
Definition updateSubnetAllocations (sn : SubnetManifest) (mf : EnsembleManifest) (newDNSRecords additions : gmap string string)
    (s1 s2 : schedule subnetRequest) (cl : cluster) : bool * cluster :=
  match newSubnetRequests sn mf with
  | Ok reqs =>
      let '(ok, cl) := acceptPeersSubnetBehavior (mf_ID mf) additions s1 reqs cl in
      if negb ok then (false, cl) else addDNSRecords (mf_ID mf) newDNSRecords s2 reqs cl
  | _ => (false, cl)
  end.

(** Failures are only logged; without requests nobody is told. *)
Definition revertSubnetAllocationsUpdate (sn : SubnetManifest) (mf : EnsembleManifest) (dnsRecords table : gmap string string)
    (s1 s2 : schedule subnetRequest) (cl : cluster) : cluster :=
  let reqs := match newSubnetRequests sn mf with Ok reqs => reqs | _ => [] end in
  let cl := (removePeersSubnetBehavior (mf_ID mf) table s1 reqs cl).2 in
  (removeDNSRecords (mf_ID mf) (visit (map fst (map_to_list dnsRecords))) s2 reqs cl).2.

(** What the steps of provisioning meet. *)
Record schedules := mkSchedules {
  ss_create : schedule Handle;
  ss_join : exchange;
  ss_peers : schedule subnetRequest;
  ss_dns : schedule subnetRequest;
  ss_ports : schedule (subnetRequest * (Z * Z));
  ss_supervisor : Handle
}.

(** The five steps, each after the success of the one before; [None] when they do not end. *)
Definition configureSubnet (ss : schedules) (hostID : string) (mf : EnsembleManifest) (sn : SubnetManifest) (handles : list Handle)
    (reqs : list subnetRequest) (cl : cluster) : option (bool * cluster) :=
  let '(ok, cl) := createSubnet (mf_ID mf) (sn_CIDR sn) (sn_RoutingTable sn) (ss_create ss) handles cl in
  if negb ok then Some (false, cl)
  else
    let '(ok, cl) :=
      if mf_SubnetJoin mf
      then orchestratorJoinSubnet (ss_supervisor ss) hostID (mf_ID mf) (sn_IndexRoutingTable sn) (sn_RoutingTable sn) (sn_DNSRecords sn)
             (ss_join ss) cl
      else (true, cl) in
    if negb ok then Some (false, cl)
    else
      let '(ok, cl) := subnetAddPeer (mf_ID mf) (ss_peers ss) reqs cl in
      if negb ok then Some (false, cl)
      else
        let '(ok, cl) := addDNSRecords (mf_ID mf) (sn_DNSRecords sn) (ss_dns ss) reqs cl in
        if negb ok then Some (false, cl) else mapPorts (mf_ID mf) (ss_ports ss) reqs cl.

(** The provisioning of the subnet on the nodes. *)
Definition provisionSubnetOn (ss : schedules) (o : Orchestrator) (mf : EnsembleManifest) (skipCreate : list string) (cl : cluster)
    : option (outcome orch_error EnsembleManifest * SubnetManifest * cluster) :=
  match addressAllocations (o_subnet o) mf (visit (map fst (map_to_list (mf_Allocations mf)))) with
  | (Err e, sn) => Some (Err (ErrSubnet e), sn, cl)
  | (Panic, sn) => Some (Panic, sn, cl)
  | (Ok (sn, mf), _) =>
      let handles := omap (λ nmf, if bool_decide (nmf_ID nmf ∈ skipCreate) then None else Some (nmf_Handle nmf))
                       (visit (map snd (map_to_list (mf_Nodes mf)))) in
      let reqs := provisionRequests sn mf in
      let handles := handles ++ (if mf_SubnetJoin mf && bool_decide (sn_IndexRoutingTable sn !! orchSubnetName = None)
                                 then [ss_supervisor ss] else []) in
      let joined := if mf_SubnetJoin mf then joinOrchestrator sn (HostID (Handle_Address (o_handle o))) else Ok sn in
      match joined with
      | Err e => Some (Err (ErrSubnet e), sn, cl)
      | Panic => Some (Panic, sn, cl)
      | Ok sn =>
          match configureSubnet ss (HostID (Handle_Address (o_handle o))) mf sn handles reqs cl with
          | Some (ok, cl) => Some ((if ok then Ok mf else Err ErrProvisioningFailed), sn, cl)
          | None => None
          end
      end
  end.

End provision.

(** ** Steps over the nodes *)

Section steps.
  Context {A : Type} (to : A → Handle) (act : A → exchange → vnet → bool * vnet).
  Notation at_host a := (HostID (Handle_Address (to a))).

Lemma deliver_inv (I : string → vnet → Prop) (f : vnet → bool * vnet) h ex cl :
  (∀ n, I (HostID (Handle_Address h)) n → I (HostID (Handle_Address h)) (f n).2) → map_Forall I cl → map_Forall I (deliver f h ex cl).2.
Proof.
  intros Hf Hcl. unfold deliver. destruct (ex_sent ex); [|done]. cbn. destruct (cl !! _) as [n|] eqn:E; [|done].
  specialize (Hf n (Hcl _ _ E)). destruct (f n) as [ok n']. by apply map_Forall_insert_2.
Qed.

Lemma deliver_dom f h ex cl k : is_Some (cl !! k) → is_Some ((deliver f h ex cl).2 !! k).
Proof.
  intros Hk. unfold deliver. destruct (ex_sent ex); [|done]. cbn [negb]. destruct (cl !! HostID _) as [n|]; [|done].
  destruct (f n) as [ok n']. cbn [snd]. rewrite lookup_insert. case_decide; [eauto|done].
Qed.

(** A message that succeeds was handled by its node. *)
Lemma deliver_done f h ex cl :
  (deliver f h ex cl).1 = true →
  ∃ n, cl !! HostID (Handle_Address h) = Some n ∧ (f n).1 = true ∧ (deliver f h ex cl).2 !! HostID (Handle_Address h) = Some (f n).2.
Proof.
  unfold deliver. destruct (ex_sent ex); [|done]. cbn. destruct (cl !! _) as [n|] eqn:E; [|done]. destruct (f n) as [ok n'] eqn:Ef. cbn.
  intros H%andb_prop. exists n. rewrite Ef, lookup_insert_eq. cbn. naive_solver.
Qed.

Lemma broadcast_cons a ex l cl :
  broadcast to act ((a, ex) :: l) cl =
    ((if (deliver (act a ex) (to a) ex cl).1 then (broadcast to act l (deliver (act a ex) (to a) ex cl).2).1
      else S (broadcast to act l (deliver (act a ex) (to a) ex cl).2).1),
     (broadcast to act l (deliver (act a ex) (to a) ex cl).2).2).
Proof. cbn. destruct (deliver _ _ _ _) as [ok cl1]. cbn. by destruct (broadcast to act l cl1). Qed.

Lemma broadcast_inv (I : string → vnet → Prop) l cl :
  (∀ a ex n, a ∈ l.*1 → I (at_host a) n → I (at_host a) (act a ex n).2) →
  map_Forall I cl → map_Forall I (broadcast to act l cl).2.
Proof.
  revert cl. induction l as [|[a ex] l IH]; intros cl Hact Hcl; [done|]. rewrite broadcast_cons. cbn.
  apply IH; [intros b e n Hb; apply Hact; cbn; by right|]. apply deliver_inv; [|done]. intros n. apply Hact. cbn. left.
Qed.

Lemma broadcast_dom l cl k : is_Some (cl !! k) → is_Some ((broadcast to act l cl).2 !! k).
Proof.
  revert cl. induction l as [|[a ex] l IH]; intros cl Hk; [done|]. rewrite broadcast_cons. cbn. by apply IH, deliver_dom.
Qed.

(** When no goroutine fails, what each of them establishes holds on its node at the end,
    provided that the others do not undo it. *)
Lemma broadcast_post (I : string → vnet → Prop) (Q : A → vnet → Prop) l cl :
  (∀ a ex n, a ∈ l.*1 → I (at_host a) n → I (at_host a) (act a ex n).2) →
  (∀ a ex n, a ∈ l.*1 → I (at_host a) n → (act a ex n).1 = true → Q a (act a ex n).2) →
  (∀ a b ex n, b ∈ l.*1 → at_host a = at_host b → I (at_host b) n → Q a n → Q a (act b ex n).2) →
  map_Forall I cl → (broadcast to act l cl).1 = 0%nat →
  ∀ a, a ∈ l.*1 → ∃ n, (broadcast to act l cl).2 !! at_host a = Some n ∧ Q a n.
Proof.
  revert cl. induction l as [|[a ex] l IH]; intros cl Hinv Hdo Hkeep Hcl; [set_solver|]. rewrite broadcast_cons. cbn.
  destruct (deliver (act a ex) (to a) ex cl).1 eqn:Ed; [|done]. intros Hz b Hb.
  assert (Hcl1 : map_Forall I (deliver (act a ex) (to a) ex cl).2) by (apply deliver_inv; [|done]; intros n; apply Hinv; left).
  apply elem_of_cons in Hb as [-> | Hb].
  - destruct (deliver_done _ _ _ _ Ed) as (n & Hn & Hok & Hn').
    set (J := λ h m, I h m ∧ (h = at_host a → Q a m)).
    assert (HJ : map_Forall J (broadcast to act l (deliver (act a ex) (to a) ex cl).2).2).
    { apply broadcast_inv.
      - intros b e m Hb [Hi Hq]. split; [apply Hinv; [by right|done]|]. intros Heq. apply Hkeep; [by right|done|done|]. by apply Hq.
      - intros h m Hm. split; [by eapply Hcl1|]. intros ->. rewrite Hn' in Hm. injection Hm as <-. apply Hdo; [left|by eapply Hcl|done]. }
    destruct (broadcast_dom l (deliver (act a ex) (to a) ex cl).2 (at_host a)) as [m Hm]; [by rewrite Hn'|].
    exists m. split; [done|]. by apply (HJ _ _ Hm).
  - apply IH; try done.
    + intros c e m Hc. apply Hinv. by right.
    + intros c e m Hc. apply Hdo. by right.
    + intros c d e m Hd. apply Hkeep. by right.
Qed.

Lemma broadcast_all (I : string → vnet → Prop) (Q : A → vnet → Prop) (s : schedule A) reqs cl :
  (∀ a ex n, a ∈ reqs → I (at_host a) n → I (at_host a) (act a ex n).2) →
  (∀ a ex n, a ∈ reqs → I (at_host a) n → (act a ex n).1 = true → Q a (act a ex n).2) →
  (∀ a b ex n, b ∈ reqs → I (at_host b) n → Q a n → Q a (act b ex n).2) →
  map_Forall I cl → (aggregateErrors (broadcast to act (sched s reqs) cl)).1 = true →
  let cl' := (aggregateErrors (broadcast to act (sched s reqs) cl)).2 in
  map_Forall (λ h n, I h n ∧ ∀ a, a ∈ reqs → at_host a = h → Q a n) cl' ∧ ∀ a, a ∈ reqs → is_Some (cl' !! at_host a).
Proof.
  intros Hinv Hdo Hkeep Hcl Hz. apply Nat.eqb_eq in Hz. cbn.
  assert (Hin : ∀ a, a ∈ (sched s reqs).*1 ↔ a ∈ reqs) by (intros a; by rewrite sched_perm).
  pose proof (broadcast_post I Q (sched s reqs) cl) as Hpost. setoid_rewrite Hin in Hpost.
  specialize (Hpost Hinv Hdo ltac:(intros a b ex n Hb _; by apply Hkeep) Hcl Hz). split.
  - intros h n Hn. split; [|intros a Ha <-; destruct (Hpost a Ha) as (m & Hm & Hq); congruence].
    revert h n Hn. apply broadcast_inv; [|done]. intros a ex n Ha%Hin. by apply Hinv.
  - intros a Ha. destruct (Hpost a Ha) as (m & Hm & _). eauto.
Qed.

Lemma deliver_all (I : string → vnet → Prop) (Q : vnet → Prop) (f : vnet → bool * vnet) h ex cl :
  (∀ n, I (HostID (Handle_Address h)) n → (f n).1 = true → I (HostID (Handle_Address h)) (f n).2 ∧ Q (f n).2) →
  map_Forall I cl → (deliver f h ex cl).1 = true →
  let cl' := (deliver f h ex cl).2 in
  map_Forall (λ k n, I k n ∧ (HostID (Handle_Address h) = k → Q n)) cl' ∧ is_Some (cl' !! HostID (Handle_Address h)).
Proof.
  intros Hf Hcl Hok. cbn. destruct (deliver_done f h ex cl Hok) as (n & Hn & Hfn & Hn'). split; [|by rewrite Hn'].
  intros k m. unfold deliver in *. destruct (ex_sent ex); [|done]. cbn [negb] in *. rewrite Hn in *. destruct (f n) as [ok n1] eqn:Ef. cbn [snd fst] in *.
  destruct (Hf n (Hcl _ _ Hn)) as [Hi Hq]; [by rewrite Ef|]. rewrite Ef in *. rewrite lookup_insert_Some.
  intros [[<- <-]|[Hne Hm]]; [done|]. split; [by apply Hcl|done].
Qed.

End steps.

(** ** One subnet on one node *)

Section node.
  Context `{Visit : MapVisit} (decode : string → option string) (id : string) (table : gmap string string).

(** The routes, devices and names of the subnet on a node. *)
Definition net_view (n : vnet) : option (rtable * gmap string string * gmap string string) :=
  (λ s, (vs_rtable s, vs_ifaces s, vs_dnsRecords s)) <$> vn_subnets n !! id.

Definition in_table (ip p : string) : Prop := ∃ q, table !! ip = Some q ∧ decode q = Some p.

(** The routes are among those of the table; they are those of the table. *)
Definition within (n : vnet) : Prop := ∀ v, net_view n = Some v → ∀ ip p, rt_GetByIP v.1.1 ip = Some p → in_table ip p.
Definition exact (n : vnet) : Prop := ∀ v, net_view n = Some v → ∀ ip p, rt_GetByIP v.1.1 ip = Some p ↔ in_table ip p.

Definition has_tun (ip : string) (n : vnet) : Prop := ∃ v, net_view n = Some v ∧ is_Some (v.1.2 !! ip).
(** The devices are of addresses that the table gives to the host [h]. *)
Definition own (h : string) (n : vnet) : Prop := ∀ v, net_view n = Some v → ∀ ip, is_Some (v.1.2 !! ip) → table !! ip = Some h.
Definition has_dns (records : gmap string string) (n : vnet) : Prop := ∃ v, net_view n = Some v ∧ records ⊆ v.2.

Lemma view_put n s : vs_id s = id → net_view (put_subnet n s) = Some (vs_rtable s, vs_ifaces s, vs_dnsRecords s).
Proof. intros Hid. unfold net_view, put_subnet. cbn [vn_subnets]. by rewrite Hid, lookup_insert_eq. Qed.

Lemma view_Some n v : net_view n = Some v → ∃ s, vn_subnets n !! id = Some s ∧ v = (vs_rtable s, vs_ifaces s, vs_dnsRecords s).
Proof. unfold net_view. destruct (vn_subnets n !! id) as [s|]; [|done]. intros [= <-]. eauto. Qed.

Lemma view_None n : vn_subnets n !! id = None → net_view n = None.
Proof. unfold net_view. by intros ->. Qed.

Lemma create_exact cidr ex n : exact n → exact (createOn decode id cidr table ex n).2.
Proof.
  intros Hex. unfold createOn, replied, CreateSubnet. destruct (vn_subnets n !! id) as [s|] eqn:Es.
  { repeat case_match; simplify_eq/=; done. }
  destruct (ParseCIDR cidr) as [c|]; [|done]. destruct (addRoutes decode NewRoutingTable (visited table)) as [rt|e|] eqn:Er; [|done..].
  case_match; [done|]. cbn [snd fst]. intros v. rewrite view_put by done. intros [= <-]. cbn. apply (table_of_map decode table rt Er).
Qed.

Lemma create_own cidr ex h n : own h n → own h (createOn decode id cidr table ex n).2.
Proof.
  intros Ho. unfold createOn, replied, CreateSubnet. destruct (vn_subnets n !! id) as [s|] eqn:Es.
  { repeat case_match; simplify_eq/=; done. }
  destruct (ParseCIDR cidr) as [c|]; [|done]. destruct (addRoutes decode NewRoutingTable (visited table)) as [rt|e|]; [|done..].
  case_match; [done|]. cbn [snd fst]. intros v. rewrite view_put by done. intros [= <-] ip. cbn. rewrite lookup_empty. by intros [].
Qed.

Lemma create_good cidr ex n : vnet_ok n → exact n → vnet_ok (createOn decode id cidr table ex n).2 ∧ exact (createOn decode id cidr table ex n).2.
Proof.
  intros Hn Hex. split; [|by apply create_exact]. pose proof (create_ok decode n id cidr table (ex_proxy ex) Hn) as H.
  unfold createOn, replied. by destruct (CreateSubnet _ _ _ _ _ _).
Qed.

Lemma within_may_add n peerID ip : within n → table !! ip = Some peerID → may_add decode n id peerID ip.
Proof.
  intros Hw Ht s p Hs Hd q Hq. destruct (Hw (vs_rtable s, vs_ifaces s, vs_dnsRecords s)) with ip q as (q' & Hq' & Hd'); [|done|congruence].
  unfold net_view. by rewrite Hs.
Qed.

Lemma exact_within n : exact n → within n.
Proof. intros H v Hv ip p. by apply H. Qed.

(** Adding an address keeps the other routes. *)
Lemma add_route_get rt p ip :
  rt_ok rt → free_for rt p ip →
  (∀ x y, rt_GetByIP rt x = Some y → rt_GetByIP (rt_Add rt p ip) x = Some y) ∧
  (∀ x y, rt_GetByIP (rt_Add rt p ip) x = Some y → (x = ip ∧ y = p) ∨ rt_GetByIP rt x = Some y) ∧ rt_GetByIP (rt_Add rt p ip) ip = Some p.
Proof.
  intros Hok Hf. destruct (rt_Add_map rt p ip Hok Hf) as [_ Hrev]. unfold rt_GetByIP in *. rewrite Hrev. split_and!.
  - intros x y Hx. destruct (decide (ip = x)) as [<-|Hne]; [|by rewrite lookup_insert_ne]. rewrite lookup_insert_eq. f_equal. symmetry. by apply Hf.
  - intros x y [[<- <-]|[_ H]]%lookup_insert_Some; auto.
  - by rewrite lookup_insert_eq.
Qed.

(** What adding a peer of the table does to the subnet. *)
Lemma add_view n peerID ip a v :
  vnet_ok n → within n → table !! ip = Some peerID → net_view n = Some v →
  ∃ v', net_view (AddSubnetPeer decode n id peerID ip a).2 = Some v' ∧ v'.2 = v.2 ∧ (∀ x, is_Some (v.1.2 !! x) → is_Some (v'.1.2 !! x)) ∧
    (∀ x, is_Some (v'.1.2 !! x) → x = ip ∨ is_Some (v.1.2 !! x)) ∧
    (∀ x p, rt_GetByIP v.1.1 x = Some p → rt_GetByIP v'.1.1 x = Some p) ∧
    (∀ x p, rt_GetByIP v'.1.1 x = Some p → in_table x p) ∧
    (succeeded (AddSubnetPeer decode n id peerID ip a).1 = true → is_Some (v'.1.2 !! ip) ∧ is_Some (rt_GetByIP v'.1.1 ip)).
Proof.
  intros Hn Hw Ht Hv. pose proof (within_may_add n peerID ip Hw Ht) as Hmay. pose proof (add_peer_ok decode n id peerID ip a Hn Hmay) as Hn'.
  destruct (view_Some n v Hv) as (s & Hs & ->). assert (Hid := so_id _ _ (Hn id s Hs)). assert (Hw' := Hw _ Hv). cbn [fst snd] in *.
  revert Hn'. unfold AddSubnetPeer. rewrite Hs.
  destruct (ParseIP ip) as [addr|] eqn:Ei; [|intros _; eexists; split_and!; [exact Hv|by auto..]].
  destruct (decode peerID) as [p|] eqn:Ed; [|intros _; eexists; split_and!; [exact Hv|by auto..]].
  destruct (add_route_get (vs_rtable s) p ip (so_routes _ _ (Hn id s Hs)) (Hmay s p Hs Ed)) as (Hkeep & Hnew & Hip).
  assert (Hin : ∀ x y, rt_GetByIP (rt_Add (vs_rtable s) p ip) x = Some y → in_table x y).
  { intros x y [[-> ->]|H]%Hnew; [by exists peerID|by apply Hw']. }
  rewrite (ParseIP_canonical ip addr Ei). repeat (case_match; cbn [snd fst]; try (intros _; rewrite view_put by done; eexists; split_and!; [done|done|done|by auto|exact Hkeep|exact Hin|done])).
  intros _. rewrite view_put by done. eexists; split_and!; [done|done| | |exact Hkeep|exact Hin|].
  - cbn. intros x Hx. rewrite lookup_insert. case_decide; [eauto|done].
  - cbn. intros x. rewrite lookup_insert. case_decide; auto.
  - intros _. cbn. rewrite lookup_insert_eq. eauto.
Qed.

Lemma add_absent n peerID ip a : vn_subnets n !! id = None → AddSubnetPeer decode n id peerID ip a = (Err ErrNoSubnet, n).
Proof. intros H. unfold AddSubnetPeer. by rewrite H. Qed.

(** Adding a peer of the table keeps the subnet as it should be, and gives the peer a device. *)
Lemma add_peer_good req ex n :
  table !! sr_ip req = Some (sr_peerID req) → vnet_ok n → exact n →
  let r := addPeerOn decode id req ex n in
  vnet_ok r.2 ∧ exact r.2 ∧ (r.1 = true → has_tun (sr_ip req) r.2) ∧ (∀ ip, has_tun ip n → has_tun ip r.2) ∧
  (∀ records, has_dns records n → has_dns records r.2) ∧ (own (sr_peerID req) n → own (sr_peerID req) r.2).
Proof.
  intros Ht Hn Hex. assert (Hw := exact_within n Hex). cbn. destruct (vn_subnets n !! id) as [s|] eqn:Es.
  - assert (Hv : net_view n = Some (vs_rtable s, vs_ifaces s, vs_dnsRecords s)) by (unfold net_view; by rewrite Es).
    destruct (add_view n (sr_peerID req) (sr_ip req) (ex_tun ex) _ Hn Hw Ht Hv) as (v' & Hv' & Hd & Hi & Hnew & Hk & Hin & Hok).
    split; [by apply add_peer_ok, within_may_add|]. unfold addPeerOn, replied. cbn. split_and!.
    + intros v Hv2. rewrite Hv' in Hv2. injection Hv2 as <-. intros ip p. split; [apply Hin|]. intros Hp. apply Hk. by apply (Hex _ Hv).
    + intros H. exists v'. split; [done|]. by apply Hok.
    + intros ip (v & Hv2 & H). rewrite Hv in Hv2. injection Hv2 as <-. exists v'. auto.
    + intros records (v & Hv2 & H). rewrite Hv in Hv2. injection Hv2 as <-. exists v'. rewrite Hd. auto.
    + intros Ho v Hv2. rewrite Hv' in Hv2. injection Hv2 as <-. intros ip [->|H]%Hnew; [done|by apply (Ho _ Hv)].
  - unfold addPeerOn. rewrite add_absent by done. done.
Qed.

(** Accepting peers of the table. *)
Lemma accept_one n q ip v :
  vnet_ok n → within n → table !! ip = Some q → net_view n = Some v →
  let r := acceptSubnetPeer decode n id q ip in
  vnet_ok r.2 ∧ within r.2 ∧ ∃ v', net_view r.2 = Some v' ∧ v'.2 = v.2 ∧ v'.1.2 = v.1.2 ∧
    (∀ x y, rt_GetByIP v.1.1 x = Some y → rt_GetByIP v'.1.1 x = Some y) ∧
    (succeeded r.1 = true → ∀ p, decode q = Some p → rt_GetByIP v'.1.1 ip = Some p).
Proof.
  intros Hn Hw Ht Hv. assert (Hmay := within_may_add n q ip Hw Ht). cbn. split; [by apply (accept_ok decode n id q ip)|].
  destruct (view_Some n v Hv) as (s & Hs & ->). assert (Hid := so_id _ _ (Hn id s Hs)). unfold acceptSubnetPeer. rewrite Hs.
  destruct (ParseIP ip); [|split; [done|]; eexists; split_and!; [exact Hv|done..]].
  destruct (decode q) as [p|] eqn:Ed; [|split; [done|]; eexists; split_and!; [exact Hv|done..]].
  destruct (add_route_get (vs_rtable s) p ip (so_routes _ _ (Hn id s Hs)) (Hmay s p Hs Ed)) as (Hkeep & Hnew & Hip). cbn [snd fst]. split.
  - intros v. rewrite view_put by done. intros [= <-] x y [[-> ->]|H]%Hnew; [by exists q|by apply (Hw _ Hv)].
  - rewrite view_put by done. eexists. split_and!; [done..|]. cbn. intros _ p' [= <-]. done.
Qed.

Lemma accept_each l n v :
  vnet_ok n → within n → (∀ ip q, (ip, q) ∈ l → table !! ip = Some q) → net_view n = Some v →
  let r := eachPeer (λ n, acceptSubnetPeer decode n id) n l in
  vnet_ok r.2 ∧ within r.2 ∧ ∃ v', net_view r.2 = Some v' ∧ v'.2 = v.2 ∧ v'.1.2 = v.1.2 ∧
    (∀ x y, rt_GetByIP v.1.1 x = Some y → rt_GetByIP v'.1.1 x = Some y) ∧
    (succeeded r.1 = true → ∀ ip q p, (ip, q) ∈ l → decode q = Some p → rt_GetByIP v'.1.1 ip = Some p).
Proof.
  revert n v. induction l as [|[ip q] l IH]; cbn; intros n v Hn Hw Ht Hv; [split; [done|]; split; [done|]; exists v; set_solver|].
  destruct (accept_one n q ip v Hn Hw (Ht ip q ltac:(left)) Hv) as (Hn1 & Hw1 & v1 & Hv1 & Hd1 & Hi1 & Hk1 & Hok1).
  destruct (acceptSubnetPeer decode n id q ip) as [[[]|e|] n1]; cbn in *; [|split; [done|]; split; [done|]; exists v1; done..].
  destruct (IH n1 v1 Hn1 Hw1) as (Hn2 & Hw2 & v2 & Hv2 & Hd2 & Hi2 & Hk2 & Hok2); [intros x y H; apply Ht; by right|done|].
  split; [done|]. split; [done|]. exists v2. split_and!; [done|congruence|congruence|auto|].
  intros H x y p [[= -> ->]|Hin]%elem_of_cons Hd; [|by eapply Hok2]. apply Hk2. by apply Hok1.
Qed.

Lemma visited_singleton ip q : visited {[ip := q]} = [(ip, q)].
Proof. unfold visited. rewrite map_to_list_singleton. apply Permutation_length_1_inv. symmetry. apply visit_perm. Qed.

(** Removing a peer of the table leaves its other routes and the names. *)
Lemma remove_within n q ip v :
  vnet_ok n → within n → net_view n = Some v →
  let n' := (RemoveSubnetPeers decode n id {[ip := q]}).2 in vnet_ok n' ∧ within n' ∧ ∃ v', net_view n' = Some v' ∧ v'.2 = v.2 ∧ v'.1.2 ⊆ v.1.2.
Proof.
  intros Hn Hw Hv. cbn. split; [by apply remove_all_ok|]. unfold RemoveSubnetPeers. rewrite visited_singleton. cbn.
  destruct (view_Some n v Hv) as (s & Hs & ->). assert (Hsok := Hn id s Hs). unfold removeSubnetPeer. rewrite Hs.
  destruct (decode q) as [p|]; [|eauto]. destruct (rt_Get (vs_rtable s) p) as [ips|] eqn:Eg; [|eauto].
  destruct (bool_decide_reflect (ip ∈ ips)) as [Hin|]; [|cbn; eauto]. cbn. rewrite view_put by (cbn; apply Hsok).
  split; [|eexists; split_and!; [done|done|apply delete_subseteq]]. intros v. rewrite view_put by (cbn; apply Hsok). intros [= <-] x y. cbn.
  assert (Hget : rt_GetByIP (vs_rtable s) ip = Some p).
  { apply (rt_ok_inverse _ (so_routes _ _ Hsok)). unfold rt_Get in Eg. by rewrite Eg. }
  destruct (rt_Remove_map _ p ip (so_routes _ _ Hsok) Hget) as [_ Hrev]. unfold rt_GetByIP. rewrite Hrev.
  intros [_ H]%lookup_delete_Some. by apply (Hw _ Hv).
Qed.

(** Names. *)
Lemma dns_good records n :
  vnet_ok n → let r := replied (AddSubnetDNSRecords n id records) in
  vnet_ok r.2 ∧ (exact n → exact r.2) ∧ (r.1 = true → has_dns records r.2) ∧ (∀ ip, has_tun ip n → has_tun ip r.2) ∧
  ∀ h, own h n → own h r.2.
Proof.
  intros Hn. cbn. unfold AddSubnetDNSRecords. destruct (vn_subnets n !! id) as [s|] eqn:Es; [|done]. cbn.
  assert (Hid := so_id _ _ (Hn id s Es)). assert (Hv : net_view n = Some (vs_rtable s, vs_ifaces s, vs_dnsRecords s)) by (unfold net_view; by rewrite Es).
  split; [eapply put_ok_at, dns_ok, Hn, Es; done|]. unfold exact, has_dns, has_tun, own. rewrite (view_put _ (set_dns s (records ∪ vs_dnsRecords s))) by done.
  rewrite Hv. cbn. split_and!.
  - intros H v [= <-]. by apply (H _ eq_refl).
  - intros _. eexists. split; [done|]. apply map_union_subseteq_l.
  - intros ip (v & [= <-] & H). eauto.
  - intros h H v [= <-]. by apply (H _ eq_refl).
Qed.

(** Mapping a port changes neither routes nor devices nor names, and keeps other ports. *)
Definition has_port (port ip : string) (n : vnet) : Prop :=
  ∃ s e, vn_subnets n !! id = Some s ∧ vs_portMapping s !! port = Some e ∧ pm_subnetIP e = ip.

Lemma map_port_good req pub priv ex n :
  vnet_ok n → let r := mapPortOn id req pub priv ex n in
  vnet_ok r.2 ∧ net_view r.2 = net_view n ∧ (r.1 = true → has_port (Itoa pub) (sr_ip req) r.2) ∧ ∀ port ip, has_port port ip n → has_port port ip r.2.
Proof.
  intros Hn. cbn. split; [by apply map_port_ok|]. unfold mapPortOn, replied, MapPort. cbn [mp_SubnetID mp_SubnetPort mp_SubnetIP].
  destruct (vn_subnets n !! id) as [s|] eqn:Es; [|done]. assert (Hid := so_id _ _ (Hn id s Es)).
  destruct (vs_portMapping s !! Itoa pub) as [e|] eqn:Ep; [by rewrite bool_decide_true by eauto|]. rewrite bool_decide_false by (by intros []).
  destruct (mapForward _ _ _ _) as [[[b t]|e|] f]; [|done..]. destruct (match ex_lo ex with Some _ => _ | None => _ end) as [[] f']; [|done].
  cbn [negb fst snd succeeded]. split_and!.
  - rewrite view_put by done. cbn. unfold net_view. by rewrite Es.
  - intros _. eexists _, _. split; [unfold put_subnet; cbn [vn_subnets set_portMapping vs_id]; by rewrite Hid, lookup_insert_eq|].
    cbn [vs_portMapping set_portMapping]. by rewrite lookup_insert_eq.
  - intros port ip (s' & e & Hs' & He & Hip). rewrite Es in Hs'. injection Hs' as <-. eexists _, e.
    split; [unfold put_subnet; cbn [vn_subnets set_portMapping vs_id]; by rewrite Hid, lookup_insert_eq|].
    cbn [vs_portMapping set_portMapping]. rewrite lookup_insert_ne; [done|]. congruence.
Qed.

(** A peer that joins ends with a device, the names and all routes of the table. *)
Lemma join_good peerID ip records ex n :
  vnet_ok n → exact n → table !! ip = Some peerID → (joinOn decode id peerID ip table records ex n).1 = true →
  let n' := (joinOn decode id peerID ip table records ex n).2 in vnet_ok n' ∧ exact n' ∧ has_tun ip n' ∧ has_dns records n' ∧
    (own peerID n → own peerID n').
Proof.
  intros Hn Hex Ht. unfold joinOn. destruct (vn_subnets n !! id) as [s|] eqn:Es.
  2: { assert (Hr : (RemoveSubnetPeers decode n id {[ip := peerID]}).2 = n).
       { unfold RemoveSubnetPeers. rewrite visited_singleton. cbn. unfold removeSubnetPeer. by rewrite Es. }
       rewrite Hr, add_absent by done. done. }
  assert (Hv : net_view n = Some (vs_rtable s, vs_ifaces s, vs_dnsRecords s)) by (unfold net_view; by rewrite Es).
  destruct (remove_within n peerID ip _ Hn (exact_within n Hex) Hv) as (Hn0 & Hw0 & v0 & Hv0 & _ & Hi0).
  set (n0 := (RemoveSubnetPeers decode n id {[ip := peerID]}).2) in *.
  destruct (add_view n0 peerID ip (ex_tun ex) v0 Hn0 Hw0 Ht Hv0) as (v1 & Hv1 & _ & _ & Hi1 & _ & Hin1 & Hok1).
  pose proof (add_peer_ok decode n0 id peerID ip (ex_tun ex) Hn0 (within_may_add n0 peerID ip Hw0 Ht)) as Hn1.
  destruct (AddSubnetPeer decode n0 id peerID ip (ex_tun ex)) as [r1 n1]. cbn [fst snd] in *. destruct (succeeded r1); [|done]. cbn [negb].
  assert (Hw1 : within n1) by (intros v Hv'; rewrite Hv1 in Hv'; injection Hv' as <-; exact Hin1).
  destruct (accept_each (visited table) n1 v1 Hn1 Hw1 ltac:(intros x q; apply visited_pairs) Hv1) as (Hn2 & Hw2 & v2 & Hv2 & _ & Hi2 & _ & Hok2).
  change (eachPeer (λ n, acceptSubnetPeer decode n id) n1 (visited table)) with (AcceptSubnetPeers decode n1 id table) in *.
  destruct (AcceptSubnetPeers decode n1 id table) as [r2 n2]. cbn [fst snd] in *. destruct (succeeded r2); [|done]. cbn [negb].
  destruct (dns_good records n2 Hn2) as (Hn3 & Hex3 & Hdns3 & Htun3 & Hown3). intros Hok. split_and!; [done| | |by apply Hdns3|].
  - apply Hex3. intros v Hv'. rewrite Hv2 in Hv'. injection Hv' as <-. intros x p. split; [apply (Hw2 v2 Hv2)|].
    intros (q & Hq & Hd). apply (Hok2 eq_refl x q p); [by apply visited_pairs|done].
  - apply Htun3. exists v2. split; [done|]. rewrite Hi2. by apply Hok1.
  - intros Ho. apply Hown3. intros v Hv'. rewrite Hv2 in Hv'. injection Hv' as <-. intros x. rewrite Hi2. intros [->|[d Hd]]%Hi1; [done|].
    apply (Ho _ Hv). exists d. by eapply lookup_weaken.
Qed.

End node.

(** ** The subnet of a deployment on its nodes *)

Section configured.
  Context `{Visit : MapVisit} (decode : string → option string) (ss : schedules) (hostID : string) (mf : EnsembleManifest)
    (sn : SubnetManifest).
  Notation id := (mf_ID mf).
  Notation table := (sn_RoutingTable sn).
  Notation records := (sn_DNSRecords sn).
  Notation at_host r := (HostID (Handle_Address (sr_handle r))).
  Notation sup := (HostID (Handle_Address (ss_supervisor ss))).
  Notation orch_ip := (default "" (sn_IndexRoutingTable sn !! orchSubnetName)).

(** A node as it should be, and a member of the subnet with its device and the names. *)
Definition node_good (h : string) (n : vnet) : Prop := vnet_ok n ∧ exact decode id table n ∧ own id table h n.
Definition member (ip : string) (n : vnet) : Prop := has_tun id ip n ∧ has_dns id records n.

(** After the second step; with the devices of the requests; with the names. *)
Definition joined (h : string) (n : vnet) : Prop := node_good h n ∧ (mf_SubnetJoin mf = true → sup = h → member orch_ip n).
Definition plugged (reqs : list subnetRequest) (h : string) (n : vnet) : Prop :=
  joined h n ∧ ∀ r, r ∈ reqs → at_host r = h → has_tun id (sr_ip r) n.
Definition named (reqs : list subnetRequest) (h : string) (n : vnet) : Prop :=
  plugged reqs h n ∧ ∀ r, r ∈ reqs → at_host r = h → has_dns id records n.

Lemma created_good cidr s handles cl :
  map_Forall node_good cl → map_Forall node_good (createSubnet decode id cidr table s handles cl).2.
Proof. apply broadcast_inv. intros a ex n _ (Hn & Hex & Ho). destruct (create_good decode id table cidr ex n Hn Hex). split_and!; [done|done|by apply create_own]. Qed.

Lemma joined_good ex cl :
  sup = hostID → table !! orch_ip = Some hostID → map_Forall node_good cl →
  (orchestratorJoinSubnet decode (ss_supervisor ss) hostID id (sn_IndexRoutingTable sn) table records ex cl).1 = true →
  let cl' := (orchestratorJoinSubnet decode (ss_supervisor ss) hostID id (sn_IndexRoutingTable sn) table records ex cl).2 in
  map_Forall (λ h n, node_good h n ∧ (sup = h → member orch_ip n)) cl' ∧ is_Some (cl' !! sup).
Proof.
  intros Hsup Ht Hcl Hok. apply (deliver_all node_good); [|done|done]. intros n (Hn & Hex & Ho) H. rewrite Hsup in *.
  destruct (join_good decode id table hostID orch_ip records ex n Hn Hex Ht H) as (? & ? & ? & ? & ?).
  split; [unfold node_good; auto|by split].
Qed.

Lemma plugged_good s reqs cl :
  (∀ r, r ∈ reqs → table !! sr_ip r = Some (sr_peerID r) ∧ at_host r = sr_peerID r) → map_Forall joined cl → (subnetAddPeer decode id s reqs cl).1 = true →
  map_Forall (plugged reqs) (subnetAddPeer decode id s reqs cl).2 ∧ ∀ r, r ∈ reqs → is_Some ((subnetAddPeer decode id s reqs cl).2 !! at_host r).
Proof.
  intros Ht. apply broadcast_all.
  - intros r ex n Hr [(Hn & Hex & Ho) Hj]. destruct (Ht r Hr) as [Hr1 Hr2].
    destruct (add_peer_good decode id table r ex n Hr1 Hn Hex) as (Hn' & Hex' & _ & Htun & Hdns & Ho').
    rewrite <-Hr2 in Ho'. split; [by split_and!; auto|]. intros H1 H2. destruct (Hj H1 H2). split; auto.
  - intros r ex n Hr [(Hn & Hex & _) _]. by apply (add_peer_good decode id table r ex n (proj1 (Ht r Hr)) Hn Hex).
  - intros a r ex n Hr [(Hn & Hex & _) _]. by apply (add_peer_good decode id table r ex n (proj1 (Ht r Hr)) Hn Hex).
Qed.

Lemma dns_again n : has_dns id records n → (replied (AddSubnetDNSRecords n id records)).1 = true.
Proof. intros (v & (s & Hs & _)%view_Some & _). unfold AddSubnetDNSRecords. by rewrite Hs. Qed.

Lemma named_good s reqs cl :
  map_Forall (plugged reqs) cl → (addDNSRecords id records s reqs cl).1 = true → map_Forall (named reqs) (addDNSRecords id records s reqs cl).2.
Proof.
  intros Hcl Hok. apply (broadcast_all sr_handle (λ _ _ n, replied (AddSubnetDNSRecords n id records)) (plugged reqs) (λ _, has_dns id records)); [..|done|done].
  - intros r ex n _ [[(Hn & Hex & Ho) Hj] Hp]. destruct (dns_good decode id table records n Hn) as (Hn' & Hex' & Hd & Htun & Ho').
    split; [split; [by split_and!; auto|]|auto].
    intros H1 H2. destruct (Hj H1 H2) as [Ht Hdns]. split; [auto|]. by apply Hd, dns_again.
  - intros r ex n _ [[(Hn & Hex & _) _] _]. by apply (dns_good decode id table).
  - intros a r ex n _ [[(Hn & Hex & _) _] _] Hd. apply (dns_good decode id table); [done|]. by apply dns_again.
Qed.

Lemma view_congr n n' : net_view id n' = net_view id n → (exact decode id table n → exact decode id table n') ∧
  (∀ h, own id table h n → own id table h n') ∧
  (∀ ip, has_tun id ip n → has_tun id ip n') ∧ (has_dns id records n → has_dns id records n').
Proof. unfold exact, own, has_tun, has_dns. by intros ->. Qed.

Lemma ports_good s reqs cl cl' :
  map_Forall (named reqs) cl → mapPorts id s reqs cl = Some (true, cl') →
  map_Forall (λ h n, named reqs h n ∧ ∀ x, x ∈ portRequests reqs → at_host x.1 = h → has_port id (Itoa x.2.1) (sr_ip x.1) n) cl'.
Proof.
  intros Hcl. unfold mapPorts. case_match; [done|]. intros [= Hok <-].
  apply (broadcast_all (λ x, sr_handle x.1) (λ x, mapPortOn id x.1 x.2.1 x.2.2) (named reqs) (λ x, has_port id (Itoa x.2.1) (sr_ip x.1)));
    [..|done|by apply Nat.eqb_eq in Hok; unfold aggregateErrors; cbn; rewrite Hok].
  - intros x ex n _ [[[(Hn & Hex & Ho) Hj] Hp] Hd]. destruct (map_port_good id x.1 x.2.1 x.2.2 ex n Hn) as (Hn' & Hv & _ & _).
    destruct (view_congr _ _ Hv) as (Hex' & Ho' & Htun & Hdns). split; [split; [split; [by split_and!; auto|intros H1 H2; destruct (Hj H1 H2); split; auto]|]|].
    + intros r Hr Hh. auto.
    + intros r Hr Hh. eauto.
  - intros x ex n _ [[[(Hn & _) _] _] _]. by apply map_port_good.
  - intros y x ex n _ [[[(Hn & _) _] _] _]. by apply map_port_good.
Qed.

Lemma configured_members handles reqs cl cl' :
  (∀ r, r ∈ reqs → table !! sr_ip r = Some (sr_peerID r) ∧ at_host r = sr_peerID r) →
  (mf_SubnetJoin mf = true → table !! orch_ip = Some hostID) → sup = hostID →
  map_Forall node_good cl → configureSubnet decode ss hostID mf sn handles reqs cl = Some (true, cl') →
  map_Forall (λ h n, node_good h n ∧ (mf_SubnetJoin mf = true → sup = h → member orch_ip n) ∧
    (∀ r, r ∈ reqs → at_host r = h → member (sr_ip r) n) ∧
    ∀ x, x ∈ portRequests reqs → at_host x.1 = h → has_port id (Itoa x.2.1) (sr_ip x.1) n) cl' ∧
  (mf_SubnetJoin mf = true → is_Some (cl' !! sup)) ∧ ∀ r, r ∈ reqs → is_Some (cl' !! at_host r).
Proof.
  intros Ht Horch Hsup Hcl. unfold configureSubnet.
  pose proof (created_good (sn_CIDR sn) (ss_create ss) handles cl Hcl) as H1. destruct (createSubnet _ _ _ _ _ _ _) as [[] cl1]; [|done]. cbn [negb snd] in *.
  destruct (if mf_SubnetJoin mf then _ else _) as [ok cl2] eqn:E2. destruct ok; [|done]. cbn [negb].
  assert (map_Forall joined cl2 ∧ (mf_SubnetJoin mf = true → is_Some (cl2 !! sup))) as [H2 Hs2].
  { destruct (mf_SubnetJoin mf) eqn:Ej; [|injection E2 as <-; split; [|done]; intros h n Hn; split; [by eapply H1|by rewrite Ej]].
    destruct (joined_good (ss_join ss) cl1 Hsup (Horch eq_refl) H1) as [Hj Hs]; [by rewrite E2|]. rewrite E2 in *. split; [|done].
    intros h n Hn. destruct (Hj h n Hn). by split. }
  pose proof (plugged_good (ss_peers ss) reqs cl2 Ht H2) as H3. pose proof (broadcast_dom sr_handle (addPeerOn decode id) (sched (ss_peers ss) reqs) cl2 sup) as D3.
  change (broadcast sr_handle (addPeerOn decode id) (sched (ss_peers ss) reqs) cl2).2 with (subnetAddPeer decode id (ss_peers ss) reqs cl2).2 in D3.
  destruct (subnetAddPeer decode id (ss_peers ss) reqs cl2) as [[] cl3]; [|done]. cbn [negb snd fst] in *. destruct (H3 eq_refl) as [H3' Hr3].
  pose proof (named_good (ss_dns ss) reqs cl3 H3') as H4.
  pose proof (λ k, broadcast_dom sr_handle (λ _ _ n, replied (AddSubnetDNSRecords n id records)) (sched (ss_dns ss) reqs) cl3 k) as D4.
  change (broadcast sr_handle (λ _ _ n, replied (AddSubnetDNSRecords n id records)) (sched (ss_dns ss) reqs) cl3).2
    with (addDNSRecords id records (ss_dns ss) reqs cl3).2 in D4.
  destruct (addDNSRecords id records (ss_dns ss) reqs cl3) as [[] cl4]; [|done]. cbn [negb snd fst] in *. intros Hp.
  pose proof (ports_good (ss_ports ss) reqs cl4 cl' (H4 eq_refl) Hp) as H5.
  assert (D5 : ∀ k, is_Some (cl4 !! k) → is_Some (cl' !! k)).
  { unfold mapPorts in Hp. case_match; [done|]. injection Hp as _ <-. intros k. apply broadcast_dom. }
  split; [|split; [auto|auto]]. intros h n Hn. destruct (H5 h n Hn) as [[[[Hg Hj] Hpl] Hd] Hpo]. split_and!; [done|done| |done].
  intros r Hr Hh. split; eauto.
Qed.

End configured.

(** ** The addresses of a deployment *)

Definition peer_of (mf : EnsembleManifest) (a : AllocationManifest) : string :=
  nmf_Peer (default NodeManifest_zero (mf_Nodes mf !! amf_NodeID a)).

(** The actor of an allocation is on the peer of its node and the supervisor of the
    orchestrator on the host of the orchestrator; members that have an address already have
    a route to their peer; no allocation is called as the orchestrator is. *)
Record placed (hostID : string) (supervisor : Handle) (sn : SubnetManifest) (mf : EnsembleManifest) : Prop := {
  pl_handles name a : mf_Allocations mf !! name = Some a → HostID (Handle_Address (amf_Handle a)) = peer_of mf a;
  pl_routes name a ip : mf_Allocations mf !! name = Some a → sn_IndexRoutingTable sn !! name = Some ip →
    sn_RoutingTable sn !! ip = Some (peer_of mf a);
  pl_orch ip : sn_IndexRoutingTable sn !! orchSubnetName = Some ip → sn_RoutingTable sn !! ip = Some hostID;
  pl_name : mf_Allocations mf !! orchSubnetName = None;
  pl_supervisor : HostID (Handle_Address supervisor) = hostID
}.

Lemma used_address a b c sn m ip : SubnetInv a b c sn → sn_IndexRoutingTable sn !! m = Some ip → ip ∈ sn_UsedIPs sn.
Proof. intros HI Hm. apply (si_used _ _ _ _ HI). right. right. eauto. Qed.

(** A member with a new address: the routes of the others stay. *)
Lemma add_member_route a b c sn m ip peer dns x :
  SubnetInv a b c sn → ip ∉ sn_UsedIPs sn →
  ∀ y, sn_IndexRoutingTable (addMember sn m ip peer dns) !! x = Some y →
  sn_RoutingTable (addMember sn m ip peer dns) !! y = (if decide (x = m) then Some peer else sn_RoutingTable sn !! y).
Proof.
  intros HI Hfree y. cbn. case_decide as Hx; [subst; rewrite lookup_insert_eq; intros [= <-]; by rewrite lookup_insert_eq|].
  rewrite lookup_insert_ne by done. intros Hy. rewrite lookup_insert_ne; [done|]. intros ->. by apply Hfree, (used_address a b c sn x).
Qed.

Section addresses.
  Context `{Visit : MapVisit} (hostID : string) (supervisor : Handle) (a b c : Z).

Lemma add_allocation_placed sn mf name sn' :
  SubnetInv a b c sn → placed hostID supervisor sn mf → addAllocationToSubnet sn mf name = Ok sn' → is_Some (mf_Allocations mf !! name) →
  SubnetInv a b c sn' ∧ placed hostID supervisor sn' mf ∧ sn_IndexRoutingTable sn ⊆ sn_IndexRoutingTable sn' ∧ is_Some (sn_IndexRoutingTable sn' !! name).
Proof.
  intros HI Hp Ha Hname. split; [by eapply subnet_step_inv, Subnet.step_add|]. unfold addAllocationToSubnet in Ha.
  destruct (sn_IndexRoutingTable sn !! name) as [ip|] eqn:Ei; [injection Ha as <-; eauto|].
  destruct (GetNextIP _ _ _) as [ip|e|] eqn:Eip; try done. destruct (mf_Allocations mf !! name) as [am|] eqn:Em; [|done].
  injection Ha as <-. destruct (next_address _ _ _ _ _ HI Eip) as (k & _ & _ & Hfree).
  assert (Hroute := λ x, add_member_route a b c sn name (IP_String ip) (peer_of mf am) (amf_DNSName am) x HI Hfree).
  split_and!; [|by apply insert_subseteq|cbn; rewrite lookup_insert_eq; eauto]. destruct Hp as [Hh Hr Ho Hno Hsup]. split; [done| | |done|done].
  - intros x m y Hm Hy. destruct (decide (x = name)) as [->|Hne].
    + rewrite (Hroute name) by done. rewrite decide_True by done. congruence.
    + assert (Hx := Hy). cbn in Hx. rewrite lookup_insert_ne in Hx by done. rewrite (Hroute x) by done.
      rewrite decide_False by done. by eapply Hr.
  - intros y Hy. assert (Hne : orchSubnetName ≠ name) by congruence. assert (Hx := Hy). cbn [sn_IndexRoutingTable addMember] in Hx.
    rewrite lookup_insert_ne in Hx by done. rewrite (Hroute orchSubnetName) by done.
    rewrite decide_False by done. by apply Ho.
Qed.

Lemma join_placed sn mf sn' :
  SubnetInv a b c sn → placed hostID supervisor sn mf → joinOrchestrator sn hostID = Ok sn' →
  placed hostID supervisor sn' mf ∧ sn_IndexRoutingTable sn ⊆ sn_IndexRoutingTable sn' ∧ is_Some (sn_IndexRoutingTable sn' !! orchSubnetName).
Proof.
  intros HI Hp. unfold joinOrchestrator. destruct (sn_IndexRoutingTable sn !! orchSubnetName) as [ip|] eqn:Ei; [intros [= <-]; eauto|].
  destruct (GetNextIP _ _ _) as [ip|e|] eqn:Eip; try done. intros [= <-]. destruct (next_address _ _ _ _ _ HI Eip) as (k & _ & _ & Hfree).
  assert (Hroute := λ x, add_member_route a b c sn orchSubnetName (IP_String ip) hostID orchSubnetName x HI Hfree).
  split_and!; [|by apply insert_subseteq|cbn [sn_IndexRoutingTable addMember]; rewrite lookup_insert_eq; eauto].
  destruct Hp as [Hh Hr Ho Hno Hsup]. split; [done| | |done|done].
  - intros x m y Hm Hy. assert (Hne : orchSubnetName ≠ x) by congruence. assert (Hx := Hy). cbn [sn_IndexRoutingTable addMember] in Hx.
    rewrite lookup_insert_ne in Hx by done. rewrite (Hroute x) by done.
    rewrite decide_False by done. by eapply Hr.
  - intros y Hy. rewrite (Hroute orchSubnetName) by done. by rewrite decide_True.
Qed.

Lemma update_placed sn mf key x mf' :
  placed hostID supervisor sn mf → UpdateAllocation mf key (λ a, set_amf_PrivAddr a x) = Some mf' →
  placed hostID supervisor sn mf' ∧ mf_ID mf' = mf_ID mf ∧ mf_SubnetJoin mf' = mf_SubnetJoin mf ∧
  ∀ k, is_Some (mf_Allocations mf' !! k) ↔ is_Some (mf_Allocations mf !! k).
Proof.
  unfold UpdateAllocation. intros [Hh Hr Ho Hno Hsup]. destruct (mf_Allocations mf !! key) as [al|] eqn:Ek; [|done]. intros [= <-]. split; [|split_and!; [done|done|]].
  - split; cbn; [..|done].
    + intros k m [[<- <-]|[_ Hm]]%lookup_insert_Some; [exact (Hh key al Ek)|exact (Hh k m Hm)].
    + intros k m ip [[<- <-]|[_ Hm]]%lookup_insert_Some; [exact (Hr key al ip Ek)|exact (Hr k m ip Hm)].
    + done.
    + rewrite lookup_insert_ne; [done|]. congruence.
  - intros k. cbn. rewrite lookup_insert. case_decide; [subst; rewrite Ek; naive_solver|done].
Qed.

Lemma addressed_placed keys sn mf sn' mf' y :
  SubnetInv a b c sn → placed hostID supervisor sn mf → (∀ k, k ∈ keys → is_Some (mf_Allocations mf !! k)) →
  addressAllocations sn mf keys = (Ok (sn', mf'), y) →
  SubnetInv a b c sn' ∧ placed hostID supervisor sn' mf' ∧ sn_IndexRoutingTable sn ⊆ sn_IndexRoutingTable sn' ∧
  (∀ k, k ∈ keys → is_Some (sn_IndexRoutingTable sn' !! k)) ∧ mf_ID mf' = mf_ID mf ∧ mf_SubnetJoin mf' = mf_SubnetJoin mf ∧
  ∀ k, is_Some (mf_Allocations mf' !! k) ↔ is_Some (mf_Allocations mf !! k).
Proof.
  revert sn mf. induction keys as [|k keys IH]; cbn; intros sn mf HI Hp Hk; [intros [= <- <- _]; split_and!; set_solver|].
  destruct (addAllocationToSubnet sn mf k) as [sn1|e|] eqn:E1; [|done..].
  destruct (add_allocation_placed sn mf k sn1 HI Hp E1 (Hk k ltac:(left))) as (HI1 & Hp1 & Hsub1 & Hin1).
  destruct (UpdateAllocation mf k _) as [mf1|] eqn:E2; [|done]. destruct (update_placed sn1 mf k _ mf1 Hp1 E2) as (Hp2 & Hid & Hjoin & Hdom).
  intros H. apply IH in H as (HI3 & Hp3 & Hsub3 & Hin3 & Hid3 & Hj3 & Hd3); [|done|done|intros x Hx; apply Hdom, Hk; by right].
  split_and!; [done|done|by etrans| |congruence|congruence|intros x; by rewrite Hd3].
  intros x [->|Hx]%elem_of_cons; [|auto]. destruct Hin1 as [ip Hip]. exists ip. by eapply lookup_weaken.
Qed.

(** The requests are for allocations of the manifest, at their addresses. *)
Lemma requests_placed sn mf r :
  (∀ k, is_Some (mf_Allocations mf !! k) → is_Some (sn_IndexRoutingTable sn !! k)) → r ∈ provisionRequests sn mf →
  ∃ name am, mf_Allocations mf !! name = Some am ∧ sn_IndexRoutingTable sn !! name = Some (sr_ip r) ∧ sr_handle r = amf_Handle am ∧ sr_peerID r = peer_of mf am.
Proof.
  intros Hidx Hr. unfold provisionRequests in Hr. apply list_elem_of_In, in_flat_map in Hr as (nmf & _ & Hr).
  apply list_elem_of_In, list_elem_of_omap in Hr as (name & _ & Hr). destruct (mf_Allocations mf !! name) as [am|] eqn:Em; [|done].
  injection Hr as <-. exists name, am. destruct (Hidx name) as [ip Hip]; [by rewrite Em|]. rewrite Hip. done.
Qed.

End addresses.

(** ** Provisioning connects the members *)

(** A member of a subnet: an allocation of a node, or the orchestrator, with its host and its address. *)
Inductive attached (supervisor : Handle) (mf : EnsembleManifest) (sn : SubnetManifest) : string → string → Prop :=
| attached_alloc node nmf key a ip :
    mf_Nodes mf !! node = Some nmf → key ∈ nmf_Allocations nmf → mf_Allocations mf !! key = Some a →
    sn_IndexRoutingTable sn !! key = Some ip → attached supervisor mf sn (HostID (Handle_Address (amf_Handle a))) ip
| attached_orch ip :
    mf_SubnetJoin mf = true → sn_IndexRoutingTable sn !! orchSubnetName = Some ip →
    attached supervisor mf sn (HostID (Handle_Address supervisor)) ip.

(** A packet from [ipA] on [hA] for [ipB] on [hB]: it goes to the device of [ipB] at once when
    both are on one host, else to the peer [p], where it goes to the device of [ipB]. *)
Definition reaches (id : string) (cl : cluster) (hA ipA hB ipB p : string) : Prop :=
  ∃ nA sA nB sB device,
    cl !! hA = Some nA ∧ vn_subnets nA !! id = Some sA ∧ cl !! hB = Some nB ∧ vn_subnets nB !! id = Some sB ∧
    vs_ifaces sB !! ipB = Some device ∧
    Route sA ipA ipB = (if decide (hA = hB) then RouteTun device else RoutePeer p) ∧ handleIPProxyConn sB ipB = RouteTun device.

Section connect.
  Context `{Visit : MapVisit} (decode : string → option string).

Lemma members_reach id table cl hA ipA nA hB ipB nB :
  cl !! hA = Some nA → cl !! hB = Some nB → node_good decode (mkManifest id ∅ Handle_zero ∅ ∅ false ∅) (mkSubnet "" "" "" ∅ table ∅ ∅) hA nA →
  node_good decode (mkManifest id ∅ Handle_zero ∅ ∅ false ∅) (mkSubnet "" "" "" ∅ table ∅ ∅) hB nB →
  has_tun id ipA nA → has_tun id ipB nB → ∃ p, decode hB = Some p ∧ reaches id cl hA ipA hB ipB p.
Proof.
  intros HA HB (HnA & HexA & HoA) (HnB & HexB & HoB) (vA & HvA & [dA HdA]) (vB & HvB & [dB HdB]). cbn in *.
  assert (HownB := HoB _ HvB ipB (mk_is_Some _ _ HdB)). assert (HownA := HoA _ HvA ipA (mk_is_Some _ _ HdA)).
  destruct (view_Some _ _ _ HvA) as (sA & HsA & ->). destruct (view_Some _ _ _ HvB) as (sB & HsB & ->). cbn in *.
  destruct (so_ifaces _ _ (HnB id sB HsB) ipB dB HdB) as [p Hp]. destruct (so_ifaces _ _ (HnA id sA HsA) ipA dA HdA) as [q Hq].
  assert (Hpt := proj1 (HexB _ HvB ipB p) Hp). destruct Hpt as (x & Hx & Hd). assert (x = hB) as -> by congruence.
  exists p. split; [done|]. exists nA, sA, nB, sB, dB. assert (HpA : rt_GetByIP (vs_rtable sA) ipB = Some p) by (apply (HexA _ HvA); by exists hB).
  split_and!; [done..| |].
  - unfold Route. rewrite HpA, Hq. destruct (decide (hA = hB)) as [->|Hne].
    + assert (nA = nB) as -> by congruence. assert (sA = sB) as -> by congruence. by rewrite HdB.
    + destruct (vs_ifaces sA !! ipB) as [d|] eqn:Ed; [|done]. destruct Hne.
      specialize (HoA _ HvA ipB). cbn in HoA. rewrite Ed in HoA. specialize (HoA (mk_is_Some _ _ eq_refl)). congruence.
  - unfold handleIPProxyConn. by rewrite Hp, HdB.
Qed.

Lemma visit_keys (m : gmap string AllocationManifest) k : k ∈ visit (map fst (map_to_list m)) ↔ is_Some (m !! k).
Proof.
  rewrite visit_perm, list_elem_of_In, in_map_iff. split.
  - intros ([x v] & <- & Hin%list_elem_of_In%elem_of_map_to_list). eauto.
  - intros [v Hv]. exists (k, v). split; [done|]. by apply list_elem_of_In, elem_of_map_to_list.
Qed.

(** A member is the orchestrator, or there is a request for it. *)
Lemma attached_request supervisor mf sn0 sn h ip :
  sn_IndexRoutingTable sn0 ⊆ sn_IndexRoutingTable sn → (∀ k, is_Some (mf_Allocations mf !! k) → is_Some (sn_IndexRoutingTable sn0 !! k)) →
  attached supervisor mf sn h ip →
  (∃ r, r ∈ provisionRequests sn0 mf ∧ HostID (Handle_Address (sr_handle r)) = h ∧ sr_ip r = ip) ∨
  (mf_SubnetJoin mf = true ∧ h = HostID (Handle_Address supervisor) ∧ ip = default "" (sn_IndexRoutingTable sn !! orchSubnetName)).
Proof.
  intros Hsub Hidx [node nmf key a x Hnode Hkey Ha Hx|x Hj Hx]; [left|right; by rewrite Hx].
  destruct (Hidx key ltac:(by rewrite Ha)) as [y Hy]. assert (y = x) as -> by (apply (lookup_weaken _ _ _ _ Hy) in Hsub; congruence).
  eexists. split; [|split; [|]].
  - apply list_elem_of_In, in_flat_map. exists nmf. split.
    + apply list_elem_of_In. rewrite visit_perm. apply list_elem_of_In, in_map_iff. exists (node, nmf). split; [done|].
      by apply list_elem_of_In, elem_of_map_to_list.
    + apply list_elem_of_In, list_elem_of_omap. exists key. split; [done|]. by rewrite Ha, Hy.
  - done.
  - done.
Qed.

(** C34: the members of a provisioned subnet reach each other: when the subnet of a deployment is
    provisioned on nodes that do not have it yet, whatever the order of its messages and of the
    maps, a packet from the address of an allocation, or of the orchestrator when it joins, to
    the address of another arrives at the device of that address, at once on the same host and
    else through the one peer that is the host of the other; every member resolves the names
    of the subnet. *)
Theorem provisioned_subnet_connects ss o mf cl mf' sn cl' :
  subnet_reachable (o_subnet o) → placed (HostID (Handle_Address (o_handle o))) (ss_supervisor ss) (o_subnet o) mf →
  map_Forall (λ _ n, (∃ f, vnet_reachable decode f n) ∧ vn_subnets n !! mf_ID mf = None) cl →
  provisionSubnetOn decode ss o mf [] cl = Some (Ok mf', sn, cl') →
  (∀ hA ipA hB ipB, attached (ss_supervisor ss) mf' sn hA ipA → attached (ss_supervisor ss) mf' sn hB ipB →
     ∃ p, decode hB = Some p ∧ reaches (mf_ID mf') cl' hA ipA hB ipB p) ∧
  ∀ h ip, attached (ss_supervisor ss) mf' sn h ip →
    ∃ n s, cl' !! h = Some n ∧ vn_subnets n !! mf_ID mf' = Some s ∧ sn_DNSRecords sn ⊆ vs_dnsRecords s.
Proof.
  intros Hreach Hpl Hcl. destruct (reachable_inv _ Hreach) as (b & c & HI). unfold provisionSubnetOn.
  destruct (addressAllocations _ _ _) as [[[sn0 mf0]|e|] y] eqn:Ea; [|done..].
  destruct (addressed_placed _ _ _ _ _ _ _ _ _ _ _ HI Hpl ltac:(intros k; apply visit_keys) Ea) as (HI0 & Hp0 & _ & Hin0 & Hid0 & Hj0 & Hdom0).
  set (handles := _ ++ _). clearbody handles.
  destruct (if mf_SubnetJoin mf0 then _ else _) as [sn1|e|] eqn:Ej; [|done..].
  assert (placed (HostID (Handle_Address (o_handle o))) (ss_supervisor ss) sn1 mf0 ∧ sn_IndexRoutingTable sn0 ⊆ sn_IndexRoutingTable sn1 ∧
    (mf_SubnetJoin mf0 = true → is_Some (sn_IndexRoutingTable sn1 !! orchSubnetName))) as (Hp1 & Hsub & Horch).
  { destruct (mf_SubnetJoin mf0); [|by injection Ej as <-]. destruct (join_placed _ _ _ _ _ _ _ _ HI0 Hp0 Ej) as (? & ? & ?). done. }
  destruct (configureSubnet _ _ _ _ _ _ _ _) as [[[] cl1]|] eqn:Ec; [|done..]. intros [= <- <- <-].
  assert (Hidx : ∀ k, is_Some (mf_Allocations mf0 !! k) → is_Some (sn_IndexRoutingTable sn0 !! k)).
  { intros k Hk. apply Hin0, visit_keys. by apply Hdom0. }
  apply configured_members in Ec as (Hall & Hsup & Hreq).
  - assert (Hmem : ∀ h ip, attached (ss_supervisor ss) mf0 sn1 h ip → ∃ n, cl1 !! h = Some n ∧ node_good decode mf0 sn1 h n ∧ member mf0 sn1 ip n).
    { intros h ip [(r & Hr & <- & <-)|(Hj & -> & ->)]%(attached_request _ mf0 sn0); [| |done|done].
      - destruct (Hreq r Hr) as [n Hn]. destruct (Hall _ _ Hn) as (Hg & _ & Hm & _). eauto.
      - destruct (Hsup Hj) as [n Hn]. destruct (Hall _ _ Hn) as (Hg & Hm & _ & _). eauto. }
    split.
    + intros hA ipA hB ipB (nA & HA & HgA & HtA & _)%Hmem (nB & HB & HgB & HtB & _)%Hmem.
      by apply (members_reach (mf_ID mf0) (sn_RoutingTable sn1) cl1 hA ipA nA hB ipB nB).
    + intros h ip (n & Hn & _ & _ & v & Hv & Hd)%Hmem. destruct (view_Some _ _ _ Hv) as (s & Hs & ->). eauto.
  - intros r Hr. destruct (requests_placed sn0 mf0 r Hidx Hr) as (name & am & Ham & Hip & Hh & Hpeer). rewrite Hh, Hpeer. split; [|by apply (pl_handles _ _ _ _ Hp1 name)].
    apply (pl_routes _ _ _ _ Hp1 name am); [done|]. by eapply lookup_weaken.
  - intros Hj. destruct (Horch Hj) as [ip Hip]. rewrite Hip. by apply (pl_orch _ _ _ _ Hp1).
  - apply (pl_supervisor _ _ _ _ Hp1).
  - intros h n Hn. destruct (Hcl h n Hn) as [[f Hf] Hno]. rewrite <-Hid0 in Hno.
    split; [by eapply vnet_reachable_ok|]. split; intros v; rewrite (view_None _ _ Hno); done.
Qed.

(** The model of the orchestrator that takes the answers of the nodes as they come covers the
    provisioning on the nodes. *)
Theorem provision_refines ss o mf skip cl r sn cl' :
  provisionSubnetOn decode ss o mf skip cl = Some (r, sn, cl') → ∃ nw, provisionSubnet nw o mf skip = (r, sn).
Proof.
  unfold provisionSubnetOn, provisionSubnet. set (answers ok := mkNetwork (λ _, true) true (λ _, true) (λ _, true) (λ _, ok) (λ _, Started) (ss_supervisor ss)).
  destruct (addressAllocations _ _ _) as [[[sn0 mf0]|e|] y] eqn:Ea; cbv zeta; [|intros [= <- <- _]; by exists (answers true)..].
  destruct (if mf_SubnetJoin mf0 then joinOrchestrator _ _ else _) as [sn1|e|] eqn:Ej; [|intros [= <- <- _]; by exists (answers true)..].
  destruct (configureSubnet _ _ _ _ _ _ _ _) as [[ok cl1]|]; [|done]. intros [= <- <- <-].
  exists (answers ok). unfold answers. cbn. rewrite andb_false_r. by destruct ok.
Qed.

End connect.

(** ** Updates of the members *)

Section updates.
  Context `{Visit : MapVisit} (decode : string → option string) (id : string) (table : gmap string string).
  Notation at_host r := (HostID (Handle_Address (sr_handle r))).

Definition has_routes (additions : gmap string string) (n : vnet) : Prop :=
  ∀ v, net_view id n = Some v → ∀ ip q p, additions !! ip = Some q → decode q = Some p → rt_GetByIP v.1.1 ip = Some p.

Lemma accept_routes additions n :
  additions ⊆ table → vnet_ok n → within decode id table n →
  let r := replied (AcceptSubnetPeers decode n id additions) in
  vnet_ok r.2 ∧ within decode id table r.2 ∧ (r.1 = true → has_routes additions r.2) ∧ (has_routes additions n → has_routes additions r.2).
Proof.
  intros Hsub Hn Hw. cbn. destruct (net_view id n) as [v|] eqn:Hv.
  - destruct (accept_each decode id table (visited additions) n v Hn Hw) as (Hn' & Hw' & v' & Hv' & _ & _ & Hk & Hok);
      [intros ip q Hin%visited_pairs; by eapply lookup_weaken|done|].
    split_and!; [done|done| |].
    + intros H w Hw2. change (eachPeer (λ n, acceptSubnetPeer decode n id) n (visited additions)) with (AcceptSubnetPeers decode n id additions) in *.
      rewrite Hv' in Hw2. injection Hw2 as <-. intros ip q p Hq. apply (Hok H). by apply visited_pairs.
    + intros H w Hw2. change (eachPeer (λ n, acceptSubnetPeer decode n id) n (visited additions)) with (AcceptSubnetPeers decode n id additions) in *.
      rewrite Hv' in Hw2. injection Hw2 as <-. intros ip q p Hq Hd. apply Hk. by apply (H v Hv ip q).
  - assert (Hnone : vn_subnets n !! id = None) by (unfold net_view in Hv; by destruct (vn_subnets n !! id)).
    assert (Hsame : (AcceptSubnetPeers decode n id additions).2 = n).
    { unfold AcceptSubnetPeers. destruct (visited additions) as [|[ip q] l]; [done|]. cbn. unfold acceptSubnetPeer. by rewrite Hnone. }
    rewrite Hsame. split_and!; [done|done| |done]. intros _ w. by rewrite Hv.
Qed.

Lemma dns_routes additions records n :
  vnet_ok n → within decode id table n ∧ has_routes additions n →
  within decode id table (replied (AddSubnetDNSRecords n id records)).2 ∧ has_routes additions (replied (AddSubnetDNSRecords n id records)).2.
Proof.
  intros Hn [Hw Hr]. cbn. unfold AddSubnetDNSRecords. destruct (vn_subnets n !! id) as [s|] eqn:Es; [|done]. cbn.
  assert (Hid := so_id _ _ (Hn id s Es)). assert (Hv : net_view id n = Some (vs_rtable s, vs_ifaces s, vs_dnsRecords s)) by (unfold net_view; by rewrite Es).
  unfold within, has_routes. rewrite (view_put id _ (set_dns s (records ∪ vs_dnsRecords s))) by done.
  split; intros v [= <-]; [by apply (Hw _ Hv)|by apply (Hr _ Hv)].
Qed.

(** After an update that succeeds every member has the new routes and the new names. *)
Theorem updated_members sn mf newRecords additions s1 s2 cl cl' reqs :
  mf_ID mf = id → newSubnetRequests sn mf = Ok reqs → additions ⊆ table → map_Forall (λ _ n, vnet_ok n ∧ within decode id table n) cl →
  updateSubnetAllocations decode sn mf newRecords additions s1 s2 cl = (true, cl') →
  ∀ r, r ∈ reqs → ∃ n, cl' !! at_host r = Some n ∧ has_dns id newRecords n ∧ has_routes additions n.
Proof.
  intros Hid Hreqs Hsub Hcl. unfold updateSubnetAllocations. rewrite Hreqs, Hid.
  assert (H1 : (acceptPeersSubnetBehavior decode id additions s1 reqs cl).1 = true →
    map_Forall (λ h n, (vnet_ok n ∧ within decode id table n) ∧ ∀ r, r ∈ reqs → at_host r = h → has_routes additions n)
      (acceptPeersSubnetBehavior decode id additions s1 reqs cl).2).
  { intros Hok. apply (broadcast_all sr_handle (λ _ _ n, replied (AcceptSubnetPeers decode n id additions)) _ (λ _, has_routes additions)); [..|done|done].
    - intros r ex n _ [Hn Hw]. by destruct (accept_routes additions n Hsub Hn Hw) as (? & ? & _).
    - intros r ex n _ [Hn Hw]. by apply accept_routes.
    - intros a r ex n _ [Hn Hw]. by apply accept_routes. }
  destruct (acceptPeersSubnetBehavior _ _ _ _ _ _) as [[] cl1]; [|done]. specialize (H1 eq_refl). cbn [negb fst snd] in *. intros H2 r Hr.
  destruct (broadcast_all sr_handle (λ _ _ n, replied (AddSubnetDNSRecords n id newRecords))
    (λ h n, (vnet_ok n ∧ within decode id table n) ∧ ∀ r, r ∈ reqs → at_host r = h → has_routes additions n)
    (λ _, has_dns id newRecords) s2 reqs cl1) as [Hall Hsome]; [..|done| |].
  - intros a ex n Ha [[Hn Hw] Hrt]. destruct (dns_routes additions newRecords n Hn (conj Hw (Hrt a Ha eq_refl))) as [Hw' Hrt'].
    split; [split; [by apply (dns_good decode id table newRecords n Hn)|done]|done].
  - intros a ex n _ [[Hn _] _]. by apply (dns_good decode id table).
  - intros a b ex n _ [[Hn _] _] Hd. apply (dns_good decode id table); [done|]. destruct Hd as (v & (s & Hs & _)%view_Some & _).
    unfold AddSubnetDNSRecords. by rewrite Hs.
  - unfold addDNSRecords in H2. by rewrite H2.
  - unfold addDNSRecords in H2. rewrite H2 in *. destruct (Hsome r Hr) as [n Hn]. destruct (Hall _ _ Hn) as [[_ Hrt] Hd]. exists n. eauto.
Qed.

End updates.

(** ** When the ports do not end *)

Lemma broadcast_failures {A} to act (l : list (A * exchange)) cl : ((broadcast to act l cl).1 ≤ length l)%nat.
Proof.
  revert cl. induction l as [|[a ex] l IH]; intros cl; [done|]. rewrite broadcast_cons. cbn. specialize (IH (deliver (act a ex) (to a) ex cl).2).
  case_match; lia.
Qed.

(** With one port per allocation the step always ends. *)
Lemma mapPorts_ends `{Visit : MapVisit} id s reqs cl :
  Forall (λ r, (size (sr_ports r) ≤ 1)%nat) reqs → is_Some (mapPorts id s reqs cl).
Proof.
  intros Hone. unfold mapPorts. case_match eqn:E; [|eauto]. exfalso. apply Nat.ltb_lt in E. revert E. apply Nat.le_ngt.
  etrans; [apply broadcast_failures|]. rewrite <-(length_fmap fst), sched_perm. unfold portRequests. clear -Hone.
  induction Hone as [|r reqs Hr _ IH]; cbn; [done|]. rewrite length_app, length_map, visit_perm, length_map_to_list. lia.
Qed.

(** ** Examples *)

Definition sample_actor (h : string) : Handle := mkHandle "" DID_empty (mkAddress h "").
Definition works : exchange := mkExchange true true true true tun_works None "docker" "".
Definition lost : exchange := mkExchange false true true true tun_works None "docker" "".

Definition in_sequence {A} (ex : exchange) : schedule A.
Proof. refine (mkSchedule A (map (λ a, (a, ex))) _). intros l. rewrite <-list_fmap_compose. by rewrite list_fmap_id. Defined.

Definition sample_alloc (node h : string) (ports : gmap Z Z) : AllocationManifest :=
  mkAllocationManifest "" node "service" (sample_actor h) (node +:+ ".internal") "" ports (amf_Healthcheck AllocationManifest_zero)
    (amf_Status AllocationManifest_zero) "" false.
Definition sample_node (name h : string) (keys : list string) : NodeManifest :=
  mkNodeManifest name h (sample_actor h) [] Location_zero keys "" "" [] 0 "".

Definition two_nodes : EnsembleManifest :=
  mkManifest "e1" ∅ (sample_actor "h1") {["n1.web" := sample_alloc "n1" "h1" {[8080 := 80]}; "n2.db" := sample_alloc "n2" "h2" {[5432 := 5432; 5433 := 5433]}]}
    {["n1" := sample_node "n1" "h1" ["n1.web"]; "n2" := sample_node "n2" "h2" ["n2.db"]]} true ∅.

Definition sample_provisioner : Orchestrator :=
  mkOrchestrator "e1" (sample_actor "h3") web_ensemble two_nodes (o_subnet sample_orchestrator) DeploymentStatusPreparing ∅ ∅ ∅ false [] [].

Definition three_hosts : cluster := {["h1" := NewVnet sample_firewall; "h2" := NewVnet sample_firewall; "h3" := NewVnet sample_firewall]}.
Definition all_work : schedules :=
  mkSchedules (in_sequence works) works (in_sequence works) (in_sequence works) (in_sequence works) (sample_actor "h3").

#[local] Existing Instance visit_in_order.

Lemma two_nodes_placed : placed "h3" (sample_actor "h3") (o_subnet sample_provisioner) two_nodes.
Proof.
  assert (Hi : sn_IndexRoutingTable (o_subnet sample_provisioner) = ∅) by by vm_compute.
  split; [|intros *; rewrite Hi, lookup_empty; done..|by vm_compute|done].
  intros name a. unfold two_nodes. cbn [mf_Allocations]. rewrite lookup_insert_Some, lookup_singleton_Some.
  intros [[<- <-]|[_ [<- <-]]]; by vm_compute.
Qed.

Lemma three_hosts_new : map_Forall (λ _ n, (∃ f, vnet_reachable Some f n) ∧ vn_subnets n !! mf_ID two_nodes = None) three_hosts.
Proof.
  assert (H : (∃ f, vnet_reachable Some f (NewVnet sample_firewall)) ∧ vn_subnets (NewVnet sample_firewall) !! mf_ID two_nodes = None).
  { split; [exists sample_firewall; constructor|done]. }
  intros h n. unfold three_hosts. rewrite !lookup_insert_Some, lookup_singleton_Some. intros [[_ <-]|[_ [[_ <-]|[_ [_ <-]]]]]; exact H.
Qed.

Lemma sample_provisioner_reachable : subnet_reachable (o_subnet sample_provisioner).
Proof.
  apply (reach_new [mkIP 10 1 2 3]); [|by vm_compute]. constructor; [|constructor]. unfold is_ip, is_byte. cbn. lia.
Qed.

(** What provisioning gives on this manifest. *)
Lemma two_nodes_provisioned :
  match provisionSubnetOn Some all_work sample_provisioner two_nodes [] three_hosts with
  | Some (Ok mf', sn, _) =>
      mf_Nodes mf' !! "n1" = Some (sample_node "n1" "h1" ["n1.web"]) ∧ mf_Nodes mf' !! "n2" = Some (sample_node "n2" "h2" ["n2.db"]) ∧
      mf_Allocations mf' !! "n1.web" = Some (set_amf_PrivAddr (sample_alloc "n1" "h1" {[8080 := 80]}) "10.1.2.2") ∧
      mf_Allocations mf' !! "n2.db" = Some (set_amf_PrivAddr (sample_alloc "n2" "h2" {[5432 := 5432; 5433 := 5433]}) "10.1.2.3") ∧
      sn_IndexRoutingTable sn !! "n1.web" = Some "10.1.2.2" ∧ sn_IndexRoutingTable sn !! "n2.db" = Some "10.1.2.3" ∧
      mf_SubnetJoin mf' = true ∧ sn_IndexRoutingTable sn !! orchSubnetName = Some "10.1.2.4"
  | _ => False
  end.
Proof. vm_compute. repeat split. Qed.

(** The web server on the first host reaches the database on the second, and the
    orchestrator on the third. *)
Lemma provisioned_subnet_connects_witness :
  ∃ mf' sn cl', provisionSubnetOn Some all_work sample_provisioner two_nodes [] three_hosts = Some (Ok mf', sn, cl') ∧
    (∃ p, Some "h2" = Some p ∧ reaches (mf_ID mf') cl' "h1" "10.1.2.2" "h2" "10.1.2.3" p) ∧
    ∃ p, Some "h3" = Some p ∧ reaches (mf_ID mf') cl' "h1" "10.1.2.2" "h3" "10.1.2.4" p.
Proof.
  pose proof two_nodes_provisioned as F.
  destruct (provisionSubnetOn Some all_work sample_provisioner two_nodes [] three_hosts) as [[[[mf'|e|] sn] cl']|] eqn:E; [|contradiction..].
  destruct F as (Hn1 & Hn2 & Ha1 & Ha2 & Hi1 & Hi2 & Hj & Hio). exists mf', sn, cl'. split; [reflexivity|].
  pose proof (provisioned_subnet_connects Some all_work sample_provisioner two_nodes three_hosts mf' sn cl'
    sample_provisioner_reachable two_nodes_placed three_hosts_new E) as [H _].
  assert (Hweb := attached_alloc (sample_actor "h3") mf' sn "n1" _ "n1.web" _ "10.1.2.2" Hn1 ltac:(left) Ha1 Hi1).
  assert (Hdb := attached_alloc (sample_actor "h3") mf' sn "n2" _ "n2.db" _ "10.1.2.3" Hn2 ltac:(left) Ha2 Hi2).
  exact (conj (H _ _ _ _ Hweb Hdb) (H _ _ _ _ Hweb (attached_orch (sample_actor "h3") mf' sn "10.1.2.4" Hj Hio))).
Defined.

(** Two messages to map ports of one allocation that are not sent: the second error finds the
    channel full, and provisioning never returns. *)
Example mapPorts_blocks :
  provisionSubnetOn Some (mkSchedules (in_sequence works) works (in_sequence works) (in_sequence works) (in_sequence lost) (sample_actor "h3"))
    sample_provisioner (set_mf_nodes two_nodes {["n2" := sample_node "n2" "h2" ["n2.db"]]}) [] three_hosts = None.
Proof. by vm_compute. Qed.
